(* ===== verification/_CoqProject ===== *)
-Q . S2P
Prelude.v
GoStrings.v
GoPath.v
PolicyTypes.v
PolicyNames.v
DelegationPolicy.v
SafetyPolicy.v
PolicyMerge.v
GlobalPolicy.v
Velocity.v
ContentPolicy.v
Kernel.v
GoBase64.v
GoSha256.v
GoJson.v
JobRuntime.v
JobStore.v
GoValues.v
AuditChain.v
AuditTamper.v
AuditAppend.v
AuditTheorems.v
GoJsonAny.v
ActionGates.v
FileGate.v
FileTheorems.v
UrlGate.v
UrlTheorems.v
GatePipeline.v
GateTheorems.v
GateBinding.v
GateEvidence.v
Licensing.v
WorkflowModels.v
JobIdentity.v
JobMeta.v
JobApproval.v
ApprovalTheorems.v
SchedulerEnv.v
Scheduler.v
SchedulerLogic.v
SchedulerTheorems.v
SchedulerOnce.v
SchedulerDemo.v
SchedulerResult.v
SchedulerResultDemo.v
SchedulerResultTheorems.v
SchedulerWorkers.v
WorkerTheorems.v
Saga.v
SagaTheorems.v
SagaDemo.v
SchedulerServices.v
ServicesTheorems.v
ServicesDemo.v
WorkflowHelpers.v
WorkflowState.v
WorkflowEval.v
WorkflowStore.v
WorkflowJob.v
WorkflowSchedule.v
WorkflowEngine.v
WorkflowReconciler.v
WorkflowDemo.v
WorkflowLogic.v
WorkflowSafety.v
WorkflowDispatch.v
WorkflowRuns.v
WorkflowLimits.v
WorkflowOutput.v
WorkflowFindings.v
