(* ===== verification/Prelude.v ===== *)
(** * Cordum control plane: a verification library

    Cordum is a control plane for autonomous agents, written in Go.  A job
    request carries a tenant, a topic, labels and a payload; the safety kernel
    decides whether it may run; the scheduler dispatches it to a worker; the job
    store, on redis, is the authority on where the job stands.  Workflows are
    graphs of steps that become such jobs: the workflow engine starts the steps
    whose dependencies are satisfied, takes in the results of their jobs and
    keeps the run in its own redis store, while a reconciler and durable timers
    resume what a crash left behind.  Every decision is written to an audit
    chain.  What an agent is about to do (read a file, call a tool, change a
    resource) passes action gates first.  This library models the decision path,
    the action gates, the job store with its approvals, the scheduler with its
    services, the workflow engine, the audit chain and the licence limits, and
    proves what they promise.

    ** Parts and files

    - [Prelude] (this file): error values, tactics, hint databases, first-match
      search, the map-iteration order of Go ([GoRuntime]), lemmas on lists.
    - [GoStrings], [GoPath], [GoBase64], [GoSha256], [GoJson]: what the code uses
      of Go's [strings], [strconv], [path.Match], [encoding/base64],
      [crypto/sha256], [crypto/hmac] and [encoding/json].
    - [PolicyTypes], [PolicyNames] (core/infra/config/safety_policy.go,
      delegation_policy.go, mcp.go): the policy document as records with the
      source's fields, tiers, selectors, decision spellings.
    - [DelegationPolicy] (delegation_policy.go): delegation blocks and
      predicates, their validation and matching, contexts rebuilt from labels.
    - [SafetyPolicy] (safety_policy.go): [matchRule], [MCPAllowed], velocity
      keys, legacy tenant rules, [Evaluate], [ParseSafetyPolicy].
    - [PolicyMerge] (policy_merge.go): cloning and merging of policy fragments.
    - [GlobalPolicy] (core/controlplane/safetykernel/global_policy.go,
      global_policy_tiers.go, kernel_invariants.go, tier_scope.go): the tiered
      view of a policy, kernel invariants, the policy evaluated for a request.
    - [Velocity] (velocity.go): the sliding-window Lua scripts and the
      velocity-aware rule loop.
    - [ContentPolicy] (input_policy.go, output_policy.go, output_resource.go,
      scanners.go): compiled input and output rules and their evaluation.
    - [Kernel] (kernel.go): [evaluate], composed of all the above, with its
      decision cache and agent identity cache.
    - [JobRuntime] (core/infra/store/job_event_store.go, job_event_fence.go,
      job_runtime_state.go): the runtime hash of a job and its Lua scripts.
    - [JobStore] (job_store.go, job_event_projection.go): the methods of the
      store on a redis keyspace, locks, approval records.
    - [JobMeta], [JobApproval] (job_store.go, core/protocol/reqhash,
      core/model/safety.go): the metadata of a job, request hashes, idempotency
      keys, delegation lineage; safety decisions, approval records, their
      resolution, classification and repair.  [ApprovalTheorems]: what holds of them.
    - [AuditChain] (core/audit/chain.go, chain_verify.go, exporter.go): hashing and
      tagging of events, [Append] with its script and other writers, [VerifyChain];
      [AuditTamper], [AuditAppend]: lemmas; [AuditTheorems]: the theorems.
    - [SchedulerEnv] (core/controlplane/scheduler/engine.go, retry.go, backoff.go,
      types.go, errors.go): the scheduler's monad, its environment and packets.
    - [Scheduler] (engine.go, delegation_dispatch.go): a submission from
      [handleJobRequest] to the publication; [SchedulerLogic], [SchedulerTheorems],
      [SchedulerOnce]: its logic and theorems; [SchedulerDemo]: concrete runs.
    - [SchedulerResult] (engine.go, engine_durable_*.go, engine_accepted_event.go,
      engine_session_boundary.go): results, output policy, durable effects,
      cancellation; [SchedulerResultTheorems], [SchedulerResultDemo].
    - [SchedulerWorkers] (registry_memory.go, readiness.go, routing.go,
      strategy_least_loaded.go, circuit_breaker.go): the registry of workers, the
      choice of one, the circuit breaker; [WorkerTheorems].
    - [Saga] (saga.go): compensations recorded and rolled back; [SagaTheorems],
      [SagaDemo].
    - [SchedulerServices] (reconciler.go, pending_replayer.go, failmode.go): sweeps,
      replays and fail modes; [ServicesTheorems], [ServicesDemo].
    - [GoValues]: the values of a Go [map[string]any], [fmt.Sprint], truth,
      conversions of floats and integers, the JSON round trip of a value.
    - [GoJsonAny]: [json.Marshal] of such values, and that the text determines them.
    - [ActionGates] (core/policy/actiongates: types.go, tenant_gate.go,
      approval_binding.go, mutation_gate.go, provenance_gate.go, mcp_gate.go): four
      gates, the hash of an action, the binding of an approval to it.
    - [FileGate] (file_gate.go) and [FileTheorems]: the gate for paths.
    - [UrlGate] (url_gate.go, url_gate_resolver_cache.go) and [UrlTheorems]: the gate
      for URLs, addresses, the cache of resolved hosts.
    - [GatePipeline] (pipeline.go, wire.go, env_defaults.go; kernel_actiongate.go and
      kernel_actiongate_wire.go of the kernel; actiongate_wire.go of the gateway): the
      gates in order, as the kernel and the gateway wire them.  [GateTheorems],
      [GateBinding]: what passes, and what an approval binds.
    - [GateEvidence] (core/controlplane/gateway/actiongate_chain_verifier.go): the
      answer to the provenance gate from the audit chain, and its theorem.
    - [Licensing] (core/licensing): plans, entitlements and their merge, limit
      checks, expiry phases, the resolver, break-glass permissions.
    - [WorkflowModels] (core/workflow/models.go): definitions, runs, step runs.
    - [JobIdentity] (core/protocol/identity/normalize.go): the production
      identity of a job request.
    - [WorkflowHelpers] (engine_helpers.go, engine_steps_*.go): context paths,
      job ids, dependencies, the skip cascade, step configuration.
    - [WorkflowState] (engine_state.go): results, retries, aggregation of
      children, [on_error] chains, the status of a run, closing step runs.
    - [WorkflowEval] (eval.go, eval_sandbox.go, engine_eval.go): expressions
      and templates on top of the expression engine.
    - [WorkflowStore] (store_redis.go): the redis store of runs.
    - [WorkflowJob] (engine_job.go, engine_events.go, engine_output*.go,
      engine_resource.go): the world the engine acts in, job requests, packets,
      timers, alerts, outputs.
    - [WorkflowSchedule] ([scheduleReady] of engine.go): one definition per kind
      of step, the passes over the steps.
    - [WorkflowEngine] (engine.go, engine_state.go, engine_events.go): starting,
      results, approvals, cancellation, reruns, timeouts, timers.
    - [WorkflowReconciler] (reconciler.go): the periodic tick.
    - [WorkflowDemo]: a concrete environment, and a run of a two-step workflow.
    - [WorkflowLogic], [WorkflowSafety]: the program logic of the engine's monad
      and one lemma per handler.
    - [WorkflowDispatch], [WorkflowRuns], [WorkflowLimits], [WorkflowOutput]: the
      theorems on the engine; [WorkflowFindings]: runs that show departures.

    ** How state and effects are modelled

    Pure Go functions are Rocq functions of the same name.  Methods that change
    a cache, redis or a map take the state and return it; a Lua script or a
    [WATCH] transaction is one atomic step.  An interleaving of concurrent
    callers is a list of such steps ([JobRuntime.exec], [JobStore.run_call],
    [Velocity.record_all], [JobStore.lock_run]), and the safety theorems
    quantify over all of them.  Errors are values: [result], [option] or an
    explicit error type.  [int] and [int64] are [Z] with their bounds where the
    code depends on them; floats are [spec_float].  A slice is a list and nil
    is the empty list, except where the code tells them apart (policies,
    optional fields, regexp hits), which are options.  Ranging over a map
    follows an arbitrary [GoRuntime]; theorems hold for every order.

    The workflow engine is written in the monad [WorkflowJob.M], a state of the
    redis store and a trace of the calls the engine made with the answers it
    got.  The class [WorkflowJob.EngineEnv] holds the configuration and, as
    functions of the trace, every answer of the services around the engine
    (clock, bus, locks, memory store, job store, failures of redis), so a theorem
    about a call holds for every way the services may answer.  A pointer to a
    step run that a parent and the run share is [ChildShared]; after a document
    was read back from redis the two are separate objects, [ChildOwn].  The
    judgement [WorkflowLogic.safe] says of a computation that its new events
    satisfy a predicate, that the definitions stay and that its result satisfies
    a postcondition; the hint database [safe] holds one such lemma per operation
    and the tactic [safe_walk] follows the code.

    The scheduler is written the same way in [SchedulerEnv.sched], over the redis
    keyspace of the job store and a trace; [SchedulerEnv.SchedEnv] answers for the
    clock, the bus, the safety kernel, the registry, the strategy and the failures
    of the store, each of which may have taken effect or not.  A fault between two
    writes of a method is a prefix of its [_steps].  The saga manager has its own
    monad [Saga.saga] and class [Saga.SagaEnv].  A history of a worker registry, of
    a breaker or of a fail-mode cache is a list of operations with their times.

    Code outside the repository is a parameter: the YAML decoder and the schema
    check of [ParseSafetyPolicy], the float parser, the regexp engine, the
    scanners registered by name, the structured-scope scanner, the uuid, clock
    and redis availability.  Inside [Kernel], the parts that are not modelled
    (identity normalisation, tag derivers, effective-config parsing, content
    verification, request hashing) are the fields of [kernel_env]; the theorems hold
    for all of them.  The gate pipeline is such a field too; [GatePipeline] defines
    the one the kernel runs, and [kernel_fails_closed] is about the two together.  For
    the gates, [url.Parse] is [UrlGate.UrlParser], the decoder of descriptors
    [GatePipeline.DescriptorJson], the text of floats [GoJsonAny.JsonFloat]; approval,
    resource and identity stores, the resolver and the clock are functions.  For the workflow engine,
    the expression library is the class [WorkflowEval.ExprEngine] and float
    parsing and printing are [FloatParser] and [FloatPrinter].

    ** What the theorems show

    - Rule engine: the rule matcher decides a declarative specification; the
      first matching rule decides; everything that is not spelled as an allow
      denies; parsed policies are well formed; legacy tenant lists behave the
      same under every map order.
    - Tiers: invariants cannot be undercut by any scope; precedence of tiers;
      isolation of scopes; every rule is filed exactly once; scoped defaults
      fail closed.
    - Merge: last writer wins by rule id; no tenant denial is lost.
    - Velocity: the window count is exact; dry runs do not count; without
      velocity rules the loop is plain evaluation.
    - Content: the two output entry points agree; truncation fails closed;
      compiled rules are well formed; the keyword scan is complete.
    - Kernel: the floor holds at the kernel's boundary; overlays only escalate;
      the decision cache is bounded and transparent, a kernel with it answers as
      one without; the agent cache is isolated by tenant.
    - Job store: a message is applied at most once, a newer dispatch fences
      off the older ones, commits are all or nothing, effects survive until
      acknowledged, terminal states absorb, the methods refine the scripts, the
      query views agree with the state, locks exclude, approval records
      normalise idempotently.
    - Approvals: an approval is decided at most once, resolution does exactly what
      the request says on every branch, and the views stay consistent.
    - Audit chain: a change to any event that a verifier accepts would be a
      collision of the hash or a forged tag; honest chains verify; appends keep the
      chain and, without faults, commit.
    - Scheduler submissions: a published job was allowed, or approved for that very
      request, or let through by the configured fail-open; a job is published at
      most once per dispatch, whatever fails.
    - Scheduler results: an applied result is reported; durable effects are
      delivered before they are acknowledged; the two result paths decide alike.
    - Workers: the strategy picks a least loaded worker among those that may take
      the job, and over a registry such a worker is alive and vouched for by its
      last trusted handshake.
    - Sagas: a rollback ends, submits in stack order, each compensation once and
      only after its check, and undoes the successes of a workflow in reverse; a
      compensation keeps the authority of its job.
    - Scheduler services: a sweep times out every overdue job and nothing else.
    - Workflow dispatch: a job is only submitted for a step whose dependencies
      are satisfied or that was activated as an error handler; worker and
      approval jobs are persisted before they are published; finished steps stay
      finished; nested sub-workflow starts end.
    - Workflow runs: a finished run is left alone; stale results change nothing;
      cancellation closes the whole run and cancels exactly its jobs; a rerun
      takes over exactly the dependencies of the chosen step.
    - Workflow state: the status of a run, the outcome of a parallel step, the
      walk along error handlers and the skip cascade are what their
      specifications say, on cyclic graphs too; [max_parallel] is kept and
      approvals are recovered at most three times.
    - Workflow store and outputs: the status index and the active set agree with
      the documents, no audit hash is lost, outputs are recorded only when read,
      decoded, valid and allowed by the policy; job ids and context paths round
      trip; a dispatched request carries one identity throughout.
    - Action gates: a destructive mutation passes only with an approval that holds
      for that very action; an approval cannot be used for another action; it has its
      event in a chain that verifies; a kernel without stores holds what needs one; a
      URL is allowed only to public addresses resolved not long ago; a path is judged
      by its segments, however it is spelled.
    - Licensing: the limits of a merged licence are exact; the resolver falls
      back to the community plan unless a verified licence is in its window.
    - Some theorems record behaviour that departs from a comment or from the
      evident intention (for example [ContentPolicy.pattern_rule_always_fires],
      [JobRuntime.cancel_overwrites_quarantine], the last sections of
      [WorkerTheorems], [FileTheorems], [UrlTheorems] and [GateTheorems], and the whole
      of [WorkflowFindings]); their comments say so.

    ** Bounds and fuel

    In the decision path and the job store, four functions recurse on fuel.  [Itoa] has 20 steps, one per decimal digit
    of a 64-bit integer ([Atoi_Itoa] covers all of them); the parser of [GoPath]
    one per character of the pattern, each call consuming one; the keyword scan
    one per character of the text ([scanKeyword_fuel]: more changes nothing); the
    cache eviction one per entry ([evictOldest_size]: the bound is reached).  No
    theorem is restricted to runs that do not exhaust it.

    In the workflow engine, [collectDependencies] has one unit per name that
    occurs in a [depends_on] and the skip cascade one per step, since each call
    adds a name to the visited set ([collectDependencies_reachable],
    [skipDependentSteps_reachable]: the results are the full closures); the walk
    along error handlers one per step ([on_error_chain_decides]); the template
    loop one per character, each turn dropping an opening; decoding the shared
    children of a run one per step run, more than any acyclic chain needs, and a
    cyclic one is the marshalling error Go reports.  The passes of [scheduleReady]
    are bounded in the code.  [StartRun] calls itself for sub-workflows: its fuel
    is the depth, running out is the event [EvDiverged], and [engine_calls_end]
    proves that a depth above the number of stored workflows is never exhausted.

    In the scheduler, the retry loops, the sweeps (100 turns of 200 records) and the
    attempts of [Append] are bounded in the code.  A rollback has one unit per
    compensation on the two stacks and one more; [rollback_in_order_once] includes
    that it is never exhausted.

    In the gates, the search for the event of an approval has one unit per entry it
    may scan ([scan_enough]: more changes nothing; [evidence_search_exact]: on a stream
    at rest the pages are the whole window); the fields of an IPv6 address are eight and
    the rounds of decoding three, as in the code.

    [strings.TrimSpace], [ToLower], [EqualFold] and [%q] are modelled on
    bytes with ASCII case and blanks; text outside ASCII is passed through.

    ** Not modelled

    Logging, metrics, tracing, gRPC and HTTP serving, TTL expiry of job hashes,
    redis and network failures except where the code reacts to them (velocity, the
    scheduler, the workflow engine), policy loading and signatures, the
    regexp-based scanners, the paged listings, snapshots and trace reads of the job
    store.  In the scheduler: [HandlePacket], which sorts packets to the handlers,
    handshakes and session tokens (cryptographic proofs, whose answers are
    parameters), tickers and lock renewal.  In the workflow engine: the lock manager
    beyond whether it granted the lock, stopping an engine, an engine without a bus,
    timeouts of contexts, the paged listings of the store; the texts of store errors
    are abbreviated.  A parallel step that lists itself as a child is modelled by
    value, not by the cyclic pointer the code creates.  In licensing: reading,
    parsing and verifying the licence file.  In the audit chain: exporters,
    retention and legal hold.  Around the gates: the adapters to the edge and identity
    stores, the HTTP surface of the gateway and the audit sinks.

    The other subsystems of the repository are not modelled: the gateway, the edge
    agent, the MCP server, packs and the command line are mostly handlers, clients
    and transports around the stores and decisions modelled here; the governance
    evaluator answers other requests than [evaluate] and is left out. *)
From stdpp Require Export base gmap strings list fin_maps.
From Stdlib Require Export ZArith Lia Bool.
From Stdlib Require Import Ascii.

(** ** Notation of the development *)
Declare Scope cordum_scope.
Delimit Scope cordum_scope with cordum.
#[global] Open Scope cordum_scope.

Infix "=s?" := String.eqb (at level 70, no associativity) : cordum_scope.

(** ** Error values

    Go's [(value, error)] results.  [inl] is the error, [inr] the value. *)
Abbreviation result E A := (E + A)%type.
Abbreviation Err := (@inl _ _).
Abbreviation Ok := (@inr _ _).

(** ** Automation *)

(** Case analysis on the tests of [if]s and on [match] scrutinees of the goal,
    the shape that Go guard chains take after unfolding. *)
Ltac go_if :=
  match goal with
  | |- context [if ?b then _ else _] =>
      lazymatch b with
      | context [if _ then _ else _] => fail
      | context [match _ with _ => _ end] => fail
      | _ => destruct b eqn:?
      end
  end.

Ltac go_ifs := repeat (go_if; simpl).

Ltac go_if_in H :=
  match type of H with
  | context [if ?b then _ else _] =>
      lazymatch b with
      | context [if _ then _ else _] => fail
      | context [match _ with _ => _ end] => fail
      | _ => destruct b eqn:?
      end
  end.

(** Turn boolean connective hypotheses into propositions. *)
Ltac split_bools :=
  repeat match goal with
  | H : _ && _ = true |- _ => apply andb_true_iff in H; destruct H
  | H : _ || _ = false |- _ => apply orb_false_iff in H; destruct H
  | H : negb _ = true |- _ => apply negb_true_iff in H
  | H : negb _ = false |- _ => apply negb_false_iff in H
  | H : String.eqb _ _ = true |- _ => apply String.eqb_eq in H
  | H : String.eqb _ _ = false |- _ => apply String.eqb_neq in H
  end.

Create HintDb cordum discriminated.
Create Rewrite HintDb cordum_rw.

#[export] Hint Rewrite String.eqb_refl andb_true_r andb_false_r orb_true_r
  orb_false_r : cordum_rw.

(** ** Strings as equality keys *)

Lemma eqb_spec_refl (s : string) : (s =s? s) = true.
Proof. apply String.eqb_refl. Qed.

Lemma eqb_ne (s t : string) : s <> t -> (s =s? t) = false.
Proof. apply String.eqb_neq. Qed.

#[export] Hint Resolve eqb_spec_refl eqb_ne : cordum.

(** ** First-match search

    [find_first f l] is the loop [for _, x := range l { if y, ok := f(x) ... }]
    that returns at the first hit. *)
Fixpoint find_first {A B} (f : A -> option B) (l : list A) : option B :=
  match l with
  | [] => None
  | x :: l' => match f x with Some y => Some y | None => find_first f l' end
  end.

Section FindFirst.
Context {A B : Type}.
Implicit Types (f : A -> option B) (l : list A).

Lemma find_first_app f l1 l2 :
  find_first f (l1 ++ l2) =
    match find_first f l1 with Some y => Some y | None => find_first f l2 end.
Proof. induction l1 as [|x l1 IH]; simpl; [done|]. by destruct (f x). Qed.

Lemma find_first_none f l :
  find_first f l = None <-> (forall x, x ∈ l -> f x = None).
Proof.
  induction l as [|x l IH]; simpl.
  - split; [intros _ ? H; inversion H | done].
  - destruct (f x) eqn:E; split; intros H.
    + discriminate.
    + specialize (H x ltac:(left)). congruence.
    + intros y [->|Hy]%elem_of_cons; [done|]. by apply IH.
    + apply IH. intros y Hy. apply H. by right.
Qed.

(** The hit, the element that produced it, and that no earlier element hits. *)
Lemma find_first_some f l y :
  find_first f l = Some y ->
  exists l1 x l2, l = l1 ++ x :: l2 /\ f x = Some y /\ find_first f l1 = None.
Proof.
  induction l as [|x l IH]; simpl; [done|].
  destruct (f x) eqn:E; intros H.
  - injection H as <-. exists [], x, l. done.
  - destruct (IH H) as (l1 & z & l2 & -> & Hz & Hn).
    exists (x :: l1), z, l2. simpl. by rewrite E.
Qed.

Lemma find_first_some_in f l y :
  find_first f l = Some y -> exists x, x ∈ l /\ f x = Some y.
Proof.
  intros (l1 & x & l2 & -> & Hx & _)%find_first_some.
  exists x. split; [set_solver | done].
Qed.

Lemma find_first_perm_none f l1 l2 :
  l1 ≡ₚ l2 -> find_first f l1 = None -> find_first f l2 = None.
Proof.
  intros HP. rewrite !find_first_none. intros H x Hx.
  apply H. by rewrite HP.
Qed.
Lemma find_first_concat f (ls : list (list A)) :
  find_first f (concat ls) = find_first (find_first f) ls.
Proof.
  induction ls as [|l ls IH]; [done|]. simpl. rewrite find_first_app. by destruct (find_first f l).
Qed.

(** A search through groups of which only one can hit is a search of that group. *)
Lemma find_first_concat_unique {K} f (g : K -> list A) (ks : list K) k0 :
  k0 ∈ ks -> (forall k, k ∈ ks -> k = k0 \/ find_first f (g k) = None) ->
  find_first f (concat (map g ks)) = find_first f (g k0).
Proof.
  assert (forall ks, (forall k, k ∈ ks -> k = k0 \/ find_first f (g k) = None) ->
    find_first f (concat (map g ks)) = None \/
    find_first f (concat (map g ks)) = find_first f (g k0)) as Hgen.
  { intros l. induction l as [|k l IH]; simpl; intros Hk; [by left|].
    rewrite find_first_app. destruct (find_first f (g k)) eqn:E.
    - destruct (Hk k ltac:(left)) as [->|]; [right; done | congruence].
    - apply IH. intros k' Hk'. apply Hk. by right. }
  intros Hin Hk. induction ks as [|k ks IH]; [inversion Hin|]. simpl.
  rewrite find_first_app. apply elem_of_cons in Hin as [->|Hin].
  - destruct (find_first f (g k)) eqn:E; [done|].
    destruct (Hgen ks) as [H|H]; [intros k' Hk'; apply Hk; by right | done | by rewrite H].
  - destruct (find_first f (g k)) eqn:E.
    + destruct (Hk k ltac:(left)) as [->|]; congruence.
    + apply IH; [done|]. intros k' Hk'. apply Hk. by right.
Qed.
End FindFirst.

(** The first element with a property is determined by the list. *)
Lemma first_unique {A} (P : A -> Prop) (b1 : list A) x1 a1 b2 x2 a2 :
  b1 ++ x1 :: a1 = b2 ++ x2 :: a2 ->
  (forall x, x ∈ b1 -> ~ P x) -> P x1 -> (forall x, x ∈ b2 -> ~ P x) -> P x2 ->
  b1 = b2 /\ x1 = x2.
Proof.
  revert b2. induction b1 as [|y b1 IH]; intros [|z b2] Heq H1 Hx1 H2 Hx2; simplify_eq/=.
  - done.
  - exfalso. by apply (H2 z); [left|].
  - exfalso. by apply (H1 x2); [left|].
  - destruct (IH b2) as [-> ->]; try done; intros x Hx; [apply H1 | apply H2]; by right.
Qed.

(** ** [existsb] and [forallb] as quantifiers over [∈] *)

Lemma existsb_elem {A} (f : A -> bool) l :
  existsb f l = true <-> exists x, x ∈ l /\ f x = true.
Proof.
  rewrite existsb_exists. split; intros (x & Hx & Hf); exists x;
    [rewrite list_elem_of_In | rewrite <- list_elem_of_In]; done.
Qed.

Lemma existsb_elem_false {A} (f : A -> bool) l :
  existsb f l = false <-> forall x, x ∈ l -> f x = false.
Proof.
  split.
  - intros H x Hx. destruct (f x) eqn:E; [|done].
    assert (existsb f l = true) by (apply existsb_elem; eauto). congruence.
  - intros H. destruct (existsb f l) eqn:E; [|done].
    apply existsb_elem in E as (x & Hx & Hf). rewrite H in Hf; done.
Qed.

Lemma forallb_elem {A} (f : A -> bool) l :
  forallb f l = true <-> forall x, x ∈ l -> f x = true.
Proof.
  rewrite forallb_forall. split; intros H x Hx; apply H; by apply list_elem_of_In.
Qed.

Lemma existsb_perm {A} (f : A -> bool) l1 l2 :
  l1 ≡ₚ l2 -> existsb f l1 = existsb f l2.
Proof.
  intros HP. destruct (existsb f l2) eqn:E.
  - apply existsb_elem in E as (x & Hx & Hf). apply existsb_elem.
    exists x. by rewrite HP.
  - rewrite existsb_elem_false in E. apply existsb_elem_false.
    intros x Hx. apply E. by rewrite <- HP.
Qed.

Lemma forallb_perm {A} (f : A -> bool) l1 l2 :
  l1 ≡ₚ l2 -> forallb f l1 = forallb f l2.
Proof.
  intros HP. apply Bool.eq_iff_eq_true. rewrite !forallb_elem.
  split; intros H x Hx; apply H; [by rewrite HP | by rewrite <- HP].
Qed.

(** ** The Go runtime, where a result depends on it

    Ranging over a Go map visits its entries in an unspecified order.  A
    [GoRuntime] is one choice of that order; the theorems hold for every one. *)
Class GoRuntime := {
  range_map : forall {V : Type}, gmap string V -> list (string * V);
  range_map_perm : forall {V : Type} (m : gmap string V), range_map m ≡ₚ map_to_list m;
}.

(** The reference order, and its reverse: two runtimes to evaluate with. *)
Definition fwd_runtime : GoRuntime :=
  {| range_map := fun V m => map_to_list m;
     range_map_perm := fun V m => Permutation_refl _ |}.

Definition rev_runtime : GoRuntime :=
  {| range_map := fun V m => reverse (map_to_list m);
     range_map_perm := fun V m => reverse_Permutation _ |}.

Lemma elem_of_range_map `{GoRuntime} {V} (m : gmap string V) k v :
  (k, v) ∈ range_map m <-> m !! k = Some v.
Proof. by rewrite range_map_perm, elem_of_map_to_list. Qed.

(** A loop [for k, v := range m { out[k] = f(out[k], v) }]: since the keys of a map
    are distinct, the order does not show. *)
Definition range_update {V W} `{GoRuntime} (f : option W -> V -> W) (m : gmap string V)
    (out : gmap string W) : gmap string W :=
  foldl (fun out '(k, v) => <[k := f (out !! k) v]> out) out (range_map m).

Lemma foldl_update_lookup {V W} (f : option W -> V -> W) (l : list (string * V))
    (out : gmap string W) k :
  NoDup l.*1 ->
  foldl (fun out '(k, v) => <[k := f (out !! k) v]> out) out l !! k =
  match (list_to_map l : gmap string V) !! k with
  | Some v => Some (f (out !! k) v)
  | None => out !! k
  end.
Proof.
  revert out. induction l as [|[k' v] l IH]; intros out Hnd; simpl; [by rewrite lookup_empty|].
  inversion Hnd as [|? ? Hk' Hnd']; subst. rewrite IH by done.
  destruct (decide (k' = k)) as [->|Hne].
  - rewrite !lookup_insert_eq. rewrite (not_elem_of_list_to_map_1 l k) by done. done.
  - rewrite !lookup_insert_ne by done. done.
Qed.

Lemma range_update_lookup {V W} `{GoRuntime} (f : option W -> V -> W) m out k :
  range_update f m out !! k =
  match m !! k with Some v => Some (f (out !! k) v) | None => out !! k end.
Proof.
  unfold range_update. rewrite foldl_update_lookup.
  - assert ((list_to_map (range_map m) : gmap string V) = m) as ->; [|done].
    rewrite <- (list_to_map_to_list m) at 2. apply list_to_map_proper; [|apply range_map_perm].
    rewrite range_map_perm. apply NoDup_fst_map_to_list.
  - rewrite range_map_perm. apply NoDup_fst_map_to_list.
Qed.

(** Go's [m[k]] on a [map[string]string]: the zero value when absent. *)
Definition get_str (m : gmap string string) (k : string) : string := default EmptyString (m !! k).

(** Go's [m[k]] on a map of slices. *)
Definition get_list {A} (m : gmap string (list A)) (k : string) : list A := default [] (m !! k).

(** [len(m) > 0] *)
Definition map_nonempty {V} (m : gmap string V) : bool := negb (bool_decide (m = ∅)).

Definition nonempty {A} (l : list A) : bool := match l with [] => false | _ => true end.
