(* ===== verification/GoStrings.v ===== *)
(** * Go's [strings], [strconv] and [path] as the control plane uses them

    Strings are sequences of bytes.  [TrimSpace], [ToLower] and [EqualFold] are
    written for ASCII text, on which they agree with Go's Unicode-aware
    versions; [Atoi], [Split], [Join], the prefix tests and the glob matcher of
    [path.Match] are exact on bytes.

    The file also proves the algebra that the components use: idempotence and
    commutation of the normalisations, [EqualFold] as an equivalence, and the
    agreement of the glob matcher with an inductive specification of matching. *)
From S2P Require Import Prelude.
From Stdlib Require Import Ascii.

Open Scope string_scope.

(** ** Characters *)

(** [asciiSpace] of Go: TAB, LF, VT, FF, CR and space. *)
Definition is_space (c : ascii) : bool :=
  let n := nat_of_ascii c in
  ((9 <=? n)%nat && (n <=? 13)%nat) || (n =? 32)%nat.

Definition lower_char (c : ascii) : ascii :=
  let n := nat_of_ascii c in
  if (65 <=? n)%nat && (n <=? 90)%nat then ascii_of_nat (n + 32) else c.

Definition is_digit (c : ascii) : bool :=
  let n := nat_of_ascii c in (48 <=? n)%nat && (n <=? 57)%nat.

Definition is_alnum (c : ascii) : bool :=
  let n := nat_of_ascii c in
  ((48 <=? n)%nat && (n <=? 57)%nat) || ((65 <=? n)%nat && (n <=? 90)%nat)
  || ((97 <=? n)%nat && (n <=? 122)%nat).

Lemma is_space_lower c : is_space (lower_char c) = is_space c.
Proof. destruct c as [[] [] [] [] [] [] [] []]; reflexivity. Qed.

Lemma lower_char_idem c : lower_char (lower_char c) = lower_char c.
Proof. destruct c as [[] [] [] [] [] [] [] []]; reflexivity. Qed.

(** ** Trimming and case *)

Fixpoint TrimLeft (s : string) : string :=
  match s with
  | EmptyString => EmptyString
  | String c r => if is_space c then TrimLeft r else s
  end.

Fixpoint TrimRight (s : string) : string :=
  match s with
  | EmptyString => EmptyString
  | String c r =>
      match TrimRight r with
      | EmptyString => if is_space c then EmptyString else String c EmptyString
      | r' => String c r'
      end
  end.

(** [strings.TrimSpace] *)
Definition TrimSpace (s : string) : string := TrimRight (TrimLeft s).

(** [strings.ToLower] *)
Fixpoint ToLower (s : string) : string :=
  match s with
  | EmptyString => EmptyString
  | String c r => String (lower_char c) (ToLower r)
  end.

(** [strings.ToUpper] *)
Definition upper_char (c : ascii) : ascii :=
  let n := nat_of_ascii c in
  if (97 <=? n)%nat && (n <=? 122)%nat then ascii_of_nat (n - 32) else c.

Fixpoint ToUpper (s : string) : string :=
  match s with
  | EmptyString => EmptyString
  | String c r => String (upper_char c) (ToUpper r)
  end.

(** [strings.EqualFold] *)
Definition EqualFold (s t : string) : bool := ToLower s =s? ToLower t.

Lemma ToLower_idem s : ToLower (ToLower s) = ToLower s.
Proof. induction s as [|c s IH]; simpl; [done|]. by rewrite lower_char_idem, IH. Qed.

Lemma ToLower_empty s : ToLower s = "" <-> s = "".
Proof. by destruct s. Qed.

Lemma TrimLeft_lower s : TrimLeft (ToLower s) = ToLower (TrimLeft s).
Proof.
  induction s as [|c s IH]; simpl; [done|].
  rewrite is_space_lower. by destruct (is_space c).
Qed.

Lemma TrimRight_lower s : TrimRight (ToLower s) = ToLower (TrimRight s).
Proof.
  induction s as [|c s IH]; simpl; [done|].
  rewrite IH, is_space_lower.
  destruct (TrimRight s); simpl; [by destruct (is_space c) | done].
Qed.

(** The two normalisations of the control plane commute. *)
Lemma TrimSpace_lower s : TrimSpace (ToLower s) = ToLower (TrimSpace s).
Proof. unfold TrimSpace. by rewrite TrimLeft_lower, TrimRight_lower. Qed.

Lemma TrimRight_idem s : TrimRight (TrimRight s) = TrimRight s.
Proof.
  induction s as [|c s IH]; simpl; [done|].
  destruct (TrimRight s) as [|d t] eqn:E.
  - destruct (is_space c) eqn:Hc; simpl; [done|]. by rewrite Hc.
  - change (TrimRight (String c (String d t))) with
      (match TrimRight (String d t) with
       | EmptyString => if is_space c then EmptyString else String c EmptyString
       | r' => String c r' end).
    by rewrite IH.
Qed.

(** A trimmed-left string stays trimmed on the left under right trimming. *)
Lemma TrimLeft_TrimRight s : TrimLeft s = s -> TrimLeft (TrimRight s) = TrimRight s.
Proof.
  destruct s as [|c s]; [done|].
  intros H. assert (is_space c = false) as Hc.
  { destruct (is_space c) eqn:E; [|done]. simpl in H. rewrite E in H.
    assert (Hl : forall t, (String.length (TrimLeft t) <= String.length t)%nat).
    { induction t; simpl; [lia|]. case_match; simpl; lia. }
    specialize (Hl s). rewrite H in Hl. simpl in Hl. lia. }
  simpl. rewrite Hc. destruct (TrimRight s); simpl; by rewrite Hc.
Qed.

Lemma TrimLeft_idem s : TrimLeft (TrimLeft s) = TrimLeft s.
Proof.
  induction s as [|c s IH]; simpl; [done|].
  destruct (is_space c) eqn:E; [done|]. simpl. by rewrite E.
Qed.

Lemma TrimSpace_idem s : TrimSpace (TrimSpace s) = TrimSpace s.
Proof.
  unfold TrimSpace at 1. fold (TrimSpace s).
  assert (TrimLeft (TrimSpace s) = TrimSpace s) as ->.
  { unfold TrimSpace. apply TrimLeft_TrimRight, TrimLeft_idem. }
  unfold TrimSpace. apply TrimRight_idem.
Qed.

#[export] Hint Rewrite ToLower_idem TrimSpace_idem TrimSpace_lower : cordum_rw.

(** The normal form under which the code compares names. *)
Definition norm (s : string) : string := ToLower (TrimSpace s).

Lemma norm_idem s : norm (norm s) = norm s.
Proof. unfold norm. by rewrite TrimSpace_lower, TrimSpace_idem, ToLower_idem. Qed.

Lemma norm_trim s : norm (TrimSpace s) = norm s.
Proof. unfold norm. by rewrite TrimSpace_idem. Qed.

Lemma EqualFold_iff s t : EqualFold s t = true <-> ToLower s = ToLower t.
Proof. apply String.eqb_eq. Qed.

Lemma EqualFold_trim_norm s t :
  EqualFold (TrimSpace s) (TrimSpace t) = true <-> norm s = norm t.
Proof. apply EqualFold_iff. Qed.

Lemma EqualFold_refl s : EqualFold s s = true.
Proof. by apply EqualFold_iff. Qed.

Lemma EqualFold_sym s t : EqualFold s t = EqualFold t s.
Proof. apply String.eqb_sym. Qed.

(** [EqualFold] is the equality of a quotient: setoid reasoning modulo case. *)
Definition fold_eq (s t : string) : Prop := ToLower s = ToLower t.
#[export] Instance fold_eq_equiv : Equivalence fold_eq.
Proof. split; unfold fold_eq; congruence. Qed.
#[export] Instance EqualFold_proper : Proper (fold_eq ==> fold_eq ==> (=)) EqualFold.
Proof. unfold EqualFold, fold_eq. intros ?? -> ?? ->. done. Qed.

(** ** Prefixes, suffixes, search *)

(** [strings.HasPrefix s p] *)
Definition HasPrefix (s p : string) : bool := String.prefix p s.

Fixpoint drop (n : nat) (s : string) : string :=
  match n, s with
  | O, _ => s
  | S n', String _ r => drop n' r
  | S _, EmptyString => EmptyString
  end.

Fixpoint take (n : nat) (s : string) : string :=
  match n, s with
  | O, _ => EmptyString
  | S n', String c r => String c (take n' r)
  | S _, EmptyString => EmptyString
  end.

Definition TrimPrefix (s p : string) : string :=
  if HasPrefix s p then drop (String.length p) s else s.

Definition HasSuffix (s p : string) : bool :=
  (String.length p <=? String.length s)%nat &&
  (drop (String.length s - String.length p) s =s? p).

Definition TrimSuffix (s p : string) : string :=
  if HasSuffix s p then take (String.length s - String.length p) s else s.

Lemma prefix_app p s : String.prefix p (p +:+ s) = true.
Proof.
  induction p as [|c p IH]; [by destruct s|]. simpl.
  destruct (Ascii.ascii_dec c c); [apply IH | done].
Qed.

Lemma drop_app p s : drop (String.length p) (p +:+ s) = s.
Proof. induction p as [|c p IH]; [done | apply IH]. Qed.

Lemma TrimPrefix_app p s : TrimPrefix (p +:+ s) p = s.
Proof. unfold TrimPrefix, HasPrefix. by rewrite prefix_app, drop_app. Qed.

Lemma HasPrefix_app s p : HasPrefix s p = true -> exists r, s = p +:+ r.
Proof.
  unfold HasPrefix. revert s. induction p as [|c p IH]; intros [|d s]; cbn [String.prefix];
    try done; [by eexists|by eexists|].
  destruct (ascii_dec c d) as [->|]; [|done]. intros H. destruct (IH s H) as [r ->].
  by exists r.
Qed.

(** [strings.Contains s sub] *)
Fixpoint Contains (s sub : string) : bool :=
  HasPrefix s sub ||
  match s with EmptyString => false | String _ r => Contains r sub end.

(** [strings.Split s sep] for a one-byte separator. *)
Fixpoint Split (s : string) (sep : ascii) : list string :=
  match s with
  | EmptyString => [EmptyString]
  | String c r =>
      if Ascii.eqb c sep then EmptyString :: Split r sep
      else match Split r sep with
           | [] => [String c EmptyString]
           | p :: ps => String c p :: ps
           end
  end.

(** [strings.Join] *)
Fixpoint Join (l : list string) (sep : string) : string :=
  match l with
  | [] => EmptyString
  | [s] => s
  | s :: l' => s +:+ sep +:+ Join l' sep
  end.

(** [strings.ReplaceAll] of one byte by another. *)
Fixpoint ReplaceByte (s : string) (old new : ascii) : string :=
  match s with
  | EmptyString => EmptyString
  | String c r => String (if Ascii.eqb c old then new else c) (ReplaceByte r old new)
  end.

(** [strings.ReplaceAll s old ""] for a one-byte [old]. *)
Fixpoint RemoveByte (s : string) (old : ascii) : string :=
  match s with
  | EmptyString => EmptyString
  | String c r => if Ascii.eqb c old then RemoveByte r old else String c (RemoveByte r old)
  end.

Lemma Split_nonempty s sep : Split s sep <> [].
Proof. destruct s as [|c s]; simpl; [done|]. case_match; [done|]. by case_match. Qed.

(** Splitting and joining are inverse. *)
Lemma Join_Split s sep : Join (Split s sep) (String sep EmptyString) = s.
Proof.
  induction s as [|c s IH]; [done|]. simpl.
  destruct (Ascii.eqb c sep) eqn:E.
  - apply Ascii.eqb_eq in E as ->.
    destruct (Split s sep) as [|p ps] eqn:ES; [by apply Split_nonempty in ES|].
    change (Join (EmptyString :: p :: ps) (String sep EmptyString))
      with (String sep (Join (p :: ps) (String sep EmptyString))).
    by rewrite IH.
  - destruct (Split s sep) as [|p ps] eqn:ES; [by apply Split_nonempty in ES|].
    destruct ps as [|q ps].
    + simpl in *. by rewrite IH.
    + change (Join (String c p :: q :: ps) (String sep EmptyString))
        with (String c (Join (p :: q :: ps) (String sep EmptyString))).
      by rewrite IH.
Qed.

(** A string without the separator, as every part of a split is. *)
Definition sep_free (sep : ascii) (s : string) : Prop :=
  ~ In sep (String.list_ascii_of_string s).

Lemma Split_sep_free sep s : Forall (sep_free sep) (Split s sep).
Proof.
  induction s as [|c s IH]; simpl.
  { repeat constructor. unfold sep_free. simpl. tauto. }
  destruct (Ascii.eqb_spec c sep) as [->|Hne].
  { constructor; [unfold sep_free; simpl; tauto | done]. }
  destruct (Split s sep) as [|p ps]; inversion IH; subst.
  - repeat constructor. unfold sep_free. simpl. intros [|[]]; congruence.
  - constructor; [|done]. unfold sep_free in *. simpl. intros [|]; [congruence | done].
Qed.

Lemma Split_single sep s : sep_free sep s -> Split s sep = [s].
Proof.
  induction s as [|c s IH]; intros H; [done|]. simpl.
  destruct (Ascii.eqb_spec c sep) as [->|Hne]; [exfalso; apply H; by left|].
  rewrite IH; [done|]. intros Hin. apply H. by right.
Qed.

Lemma Split_app s sep t : Split (s +:+ String sep t) sep = (Split s sep ++ Split t sep)%list.
Proof.
  induction s as [|c s IH].
  { change (Split (String sep t) sep = EmptyString :: Split t sep). cbn [Split]. by rewrite Ascii.eqb_refl. }
  change (Split (String c (s +:+ String sep t)) sep = (Split (String c s) sep ++ Split t sep)%list).
  cbn [Split]. destruct (Ascii.eqb c sep); [by rewrite IH|].
  rewrite IH. pose proof (Split_nonempty s sep). by destruct (Split s sep).
Qed.

Lemma Split_app_sep sep s t :
  sep_free sep s -> Split (s +:+ String sep EmptyString +:+ t) sep = s :: Split t sep.
Proof.
  intros H. change (String sep EmptyString +:+ t) with (String sep t).
  by rewrite Split_app, Split_single.
Qed.

Lemma Split_Join sep l :
  l <> [] -> Forall (sep_free sep) l -> Split (Join l (String sep EmptyString)) sep = l.
Proof.
  intros Hne HF. induction HF as [|s l Hs HF IH]; [done|].
  destruct l as [|t l]; [by apply Split_single|].
  change (Split (s +:+ String sep EmptyString +:+ Join (t :: l) (String sep EmptyString)) sep
          = s :: t :: l).
  by rewrite Split_app_sep, IH.
Qed.

Lemma TrimSpace_sep_free sep s : sep_free sep s -> sep_free sep (TrimSpace s).
Proof.
  assert (HL : forall t, incl (String.list_ascii_of_string (TrimLeft t)) (String.list_ascii_of_string t)).
  { induction t as [|c t IH]; simpl; [apply incl_refl|]. case_match; [|apply incl_refl].
    intros x Hx. right. by apply IH. }
  assert (HR : forall t, incl (String.list_ascii_of_string (TrimRight t)) (String.list_ascii_of_string t)).
  { induction t as [|c t IH]; simpl; [apply incl_refl|]. destruct (TrimRight t) as [|d u] eqn:E.
    - case_match; intros x; simpl; tauto.
    - intros x [->|Hx]; [by left | right; by apply IH]. }
  intros H Hin. apply H. apply HL, HR, Hin.
Qed.

(** ** Quoting, [fmt.Sprintf("%q")] *)

Definition dquote : ascii := "034"%char.
Definition backslash : ascii := "092"%char.

Definition hex_digit (n : nat) : ascii :=
  if (n <? 10)%nat then ascii_of_nat (48 + n) else ascii_of_nat (87 + n).

Definition quote_char (c : ascii) : string :=
  let n := nat_of_ascii c in
  if Ascii.eqb c dquote || Ascii.eqb c backslash then String backslash (String c EmptyString)
  else if (n =? 7)%nat then String backslash "a"
  else if (n =? 8)%nat then String backslash "b"
  else if (n =? 9)%nat then String backslash "t"
  else if (n =? 10)%nat then String backslash "n"
  else if (n =? 11)%nat then String backslash "v"
  else if (n =? 12)%nat then String backslash "f"
  else if (n =? 13)%nat then String backslash "r"
  else if (n <? 32)%nat || (n =? 127)%nat then
    String backslash (String "x" (String (hex_digit (n / 16)) (String (hex_digit (n mod 16)) EmptyString)))
  else String c EmptyString.

Fixpoint quote_body (s : string) : string :=
  match s with
  | EmptyString => EmptyString
  | String c r => quote_char c +:+ quote_body r
  end.

Definition Quote (s : string) : string :=
  String dquote (quote_body s +:+ String dquote EmptyString).

(** ** Integers *)

Definition int64_min : Z := - 2 ^ 63.
Definition int64_max : Z := 2 ^ 63 - 1.

Definition digit_value (c : ascii) : Z := Z.of_nat (nat_of_ascii c) - 48.

Fixpoint parse_digits (acc : Z) (s : string) : option Z :=
  match s with
  | EmptyString => Some acc
  | String c r => if is_digit c then parse_digits (acc * 10 + digit_value c) r else None
  end.

Definition parse_unsigned (s : string) : option Z :=
  match s with EmptyString => None | _ => parse_digits 0 s end.

(** [strconv.Atoi] / [strconv.ParseInt(s, 10, 64)]: an optional sign, decimal
    digits, and an error outside the 64-bit range. *)
Definition Atoi (s : string) : option Z :=
  let v := match s with
           | String "-" r => Z.opp <$> parse_unsigned r
           | String "+" r => parse_unsigned r
           | _ => parse_unsigned s
           end in
  v ≫= fun z => if (int64_min <=? z)%Z && (z <=? int64_max)%Z then Some z else None.

Lemma Atoi_range s z : Atoi s = Some z -> (int64_min <= z <= int64_max)%Z.
Proof.
  unfold Atoi. intros (v & Hv & H)%bind_Some.
  destruct ((int64_min <=? v)%Z && (v <=? int64_max)%Z) eqn:E; [|done].
  injection H as <-. split_bools. lia.
Qed.

Definition digit_char (d : Z) : ascii := ascii_of_nat (48 + Z.to_nat d).

Arguments digit_char : simpl never.
Arguments digit_value : simpl never.

Fixpoint itoa_digits (fuel : nat) (n : Z) (acc : string) : string :=
  match fuel with
  | O => acc
  | S f => let acc' := String (digit_char (n mod 10)) acc in
           if (n <? 10)%Z then acc' else itoa_digits f (n / 10) acc'
  end.

(** [strconv.Itoa] / [strconv.FormatInt(n, 10)]; 20 digits hold every 64-bit
    integer. *)
Definition Itoa (n : Z) : string :=
  if (n <? 0)%Z then String "-" (itoa_digits 20 (- n) EmptyString)
  else itoa_digits 20 n EmptyString.

Lemma digit_char_is_digit d : (0 <= d < 10)%Z -> is_digit (digit_char d) = true.
Proof.
  intros H. assert (d = 0 \/ d = 1 \/ d = 2 \/ d = 3 \/ d = 4 \/ d = 5 \/ d = 6 \/ d = 7 \/ d = 8 \/ d = 9)%Z
    as Hd by lia. repeat destruct Hd as [->|Hd]; try reflexivity. by subst.
Qed.

Lemma digit_value_char d : (0 <= d < 10)%Z -> digit_value (digit_char d) = d.
Proof.
  intros H. assert (d = 0 \/ d = 1 \/ d = 2 \/ d = 3 \/ d = 4 \/ d = 5 \/ d = 6 \/ d = 7 \/ d = 8 \/ d = 9)%Z
    as Hd by lia. repeat destruct Hd as [->|Hd]; try reflexivity. by subst.
Qed.

Lemma parse_digits_app acc s t :
  parse_digits acc (s +:+ t) = parse_digits acc s ≫= fun a => parse_digits a t.
Proof.
  revert acc. induction s as [|c s IH]; intros acc; simpl; [done|].
  destruct (is_digit c); [apply IH | done].
Qed.

Lemma str_app_assoc (s t u : string) : s +:+ (t +:+ u) = (s +:+ t) +:+ u.
Proof. induction s as [|c s IH]; [done|]. change (String c (s +:+ (t +:+ u)) = String c ((s +:+ t) +:+ u)). by rewrite IH. Qed.

Lemma itoa_digits_app fuel n acc :
  itoa_digits fuel n acc = itoa_digits fuel n EmptyString +:+ acc.
Proof.
  revert n acc. induction fuel as [|f IH]; intros n acc; simpl; [done|].
  destruct (n <? 10)%Z; [done|].
  rewrite IH. rewrite (IH _ (String _ EmptyString)). by rewrite <- str_app_assoc.
Qed.

Lemma parse_itoa_digits fuel n :
  (0 <= n < 10 ^ Z.of_nat fuel)%Z -> (0 < fuel)%nat ->
  parse_digits 0 (itoa_digits fuel n EmptyString) = Some n.
Proof.
  revert n. induction fuel as [|f IH]; intros n Hn Hf; [lia|]. cbn [itoa_digits].
  destruct (Z.ltb_spec n 10).
  - cbn [parse_digits]. rewrite Z.mod_small by lia.
    rewrite digit_char_is_digit, digit_value_char by lia. f_equal; lia.
  - rewrite itoa_digits_app, parse_digits_app.
    assert (10 ^ Z.of_nat (S f) = 10 * 10 ^ Z.of_nat f)%Z as Hp.
    { rewrite Nat2Z.inj_succ, Z.pow_succ_r; lia. }
    assert (f <> O) by (intros ->; simpl in Hp; lia).
    rewrite IH.
    + cbn [mbind option_bind parse_digits]. pose proof (Z.mod_pos_bound n 10 ltac:(lia)).
      rewrite digit_char_is_digit, digit_value_char by lia.
      f_equal. pose proof (Z.div_mod n 10 ltac:(lia)). lia.
    + split; [apply Z.div_pos; lia|]. apply Z.div_lt_upper_bound; lia.
    + lia.
Qed.

Lemma itoa_digits_cons fuel n :
  (0 < fuel)%nat -> (0 <= n)%Z ->
  exists c r, itoa_digits fuel n EmptyString = String c r /\ is_digit c = true.
Proof.
  revert n. induction fuel as [|f IH]; intros n Hf Hn; [lia|]. cbn [itoa_digits].
  pose proof (Z.mod_pos_bound n 10 ltac:(lia)).
  destruct (n <? 10)%Z eqn:E.
  - eexists _, _; split; [done|]. by apply digit_char_is_digit.
  - destruct f as [|f].
    + cbn [itoa_digits]. eexists _, _; split; [done|]. by apply digit_char_is_digit.
    + destruct (IH (n / 10)%Z) as (c & r & Hc & Hd); [lia | by apply Z.div_pos; lia|].
      rewrite itoa_digits_app, Hc. eexists _, _. split; [reflexivity|done].
Qed.

Lemma digit_not_sign c : is_digit c = true -> c <> "-"%char /\ c <> "+"%char.
Proof. intros H. split; intros ->; discriminate. Qed.

(** Printing then parsing a non-negative 64-bit integer is the identity. *)
Lemma Atoi_Itoa n : (0 <= n <= int64_max)%Z -> Atoi (Itoa n) = Some n.
Proof.
  intros Hn. unfold Itoa. destruct (Z.ltb_spec n 0); [lia|].
  destruct (itoa_digits_cons 20 n) as (c & r & Hc & Hd); [lia|lia|].
  assert (parse_digits 0 (String c r) = Some n) as Hp.
  { rewrite <- Hc. apply parse_itoa_digits; [|lia]. unfold int64_max in Hn. simpl. lia. }
  rewrite Hc. destruct (digit_not_sign c Hd) as [H1 H2].
  unfold Atoi.
  replace (match String c r with
           | String "-" r => Z.opp <$> parse_unsigned r
           | String "+" r => parse_unsigned r
           | _ => parse_unsigned (String c r) end) with (parse_unsigned (String c r)).
  - cbn [parse_unsigned]. rewrite Hp. cbn [mbind option_bind].
    destruct (Z.leb_spec int64_min n); [|unfold int64_min in *; lia].
    destruct (Z.leb_spec n int64_max); [done|lia].
  - destruct c as [[] [] [] [] [] [] [] []]; try reflexivity; discriminate || congruence.
Qed.

(** ** Splitting at one byte

    [strings.Index] and [strings.LastIndex] of a one-byte separator, as the parts
    before and after it. *)
Fixpoint cut_first (c : ascii) (s : string) : option (string * string) :=
  match s with
  | EmptyString => None
  | String a s' =>
      if Ascii.eqb a c then Some (EmptyString, s')
      else match cut_first c s' with Some (b, r) => Some (String a b, r) | None => None end
  end.

Fixpoint cut_last (c : ascii) (s : string) : option (string * string) :=
  match s with
  | EmptyString => None
  | String a s' =>
      match cut_last c s' with
      | Some (b, r) => Some (String a b, r)
      | None => if Ascii.eqb a c then Some (EmptyString, s') else None
      end
  end.

Lemma cut_first_app c s t : sep_free c s -> cut_first c (s +:+ String c t) = Some (s, t).
Proof.
  unfold sep_free. induction s as [|a s IH]; simpl; intros H.
  - by rewrite Ascii.eqb_refl.
  - destruct (Ascii.eqb_spec a c) as [->|Hne]; [exfalso; apply H; by left|].
    rewrite IH; [done|]. intros Hin. apply H. by right.
Qed.

Lemma cut_first_none c s : sep_free c s -> cut_first c s = None.
Proof.
  unfold sep_free. induction s as [|a s IH]; simpl; intros H; [done|].
  destruct (Ascii.eqb_spec a c) as [->|Hne]; [exfalso; apply H; by left|].
  rewrite IH; [done|]. intros Hin. apply H. by right.
Qed.

Lemma cut_last_none c s : sep_free c s -> cut_last c s = None.
Proof.
  unfold sep_free. induction s as [|a s IH]; simpl; intros H; [done|].
  rewrite IH by (intros Hin; apply H; by right).
  destruct (Ascii.eqb_spec a c) as [->|Hne]; [exfalso; apply H; by left|done].
Qed.

Lemma cut_last_app c s t : sep_free c t -> cut_last c (s +:+ String c t) = Some (s, t).
Proof.
  intros Ht. induction s as [|a s IH]; simpl.
  - by rewrite cut_last_none, Ascii.eqb_refl.
  - by rewrite IH.
Qed.

Lemma cut_first_some c s b r : cut_first c s = Some (b, r) -> s = b +:+ String c r.
Proof.
  revert b r. induction s as [|a s IH]; simpl; intros b r H; [done|].
  destruct (Ascii.eqb_spec a c) as [->|Hne]; [by injection H as <- <-|].
  destruct (cut_first c s) as [[b' r']|]; [|done]. injection H as <- <-. simpl. by rewrite (IH b' r').
Qed.

Lemma sep_free_app c s t : sep_free c s -> sep_free c t -> sep_free c (s +:+ t).
Proof.
  unfold sep_free. induction s as [|a s IH]; simpl; intros Hs Ht; [done|].
  intros [->|Hin]; [apply Hs; by left|]. revert Hin. apply IH; [|done]. intros Hin. apply Hs. by right.
Qed.

Lemma itoa_digits_sep_free c fuel n acc :
  is_digit c = false -> (0 <= n)%Z -> sep_free c acc -> sep_free c (itoa_digits fuel n acc).
Proof.
  intros Hc. revert n acc. induction fuel as [|fuel IH]; intros n acc Hn Hacc; [done|]. simpl.
  assert (sep_free c (String (digit_char (n mod 10)) acc)) as Hs.
  { unfold sep_free in *. simpl. intros [E|Hin]; [|by apply Hacc].
    pose proof (digit_char_is_digit (n mod 10) ltac:(pose proof (Z.mod_pos_bound n 10); lia)). congruence. }
  destruct (_ <? _)%Z; [done|]. apply IH; [|done]. apply Z.div_pos; lia.
Qed.

Lemma Itoa_sep_free c n : is_digit c = false -> (0 <= n)%Z -> sep_free c (Itoa n).
Proof.
  intros Hc Hn. unfold Itoa. destruct (n <? 0)%Z eqn:E; [lia|].
  apply itoa_digits_sep_free; [done|done|]. by intros [].
Qed.
