(* ===== verification/GoPath.v ===== *)
(** * Go's [path.Match], the glob matcher of topic patterns

    A pattern is tokenised ([parse_pattern]: [*], [?], classes, escapes, and
    the malformed patterns for which Go returns [ErrBadPattern]) and the tokens
    are matched against the name ([match_toks]).  [PathMatch] is the boolean
    that callers read from [ok, _ := path.Match(pattern, name)]: false for a
    malformed pattern.

    [glob] is the specification of matching as an inductive relation;
    [match_toks_iff] shows the matcher decides it. *)
From S2P Require Import Prelude.
From S2P Require Import GoStrings.
From Stdlib Require Import Ascii.

Open Scope string_scope.

Inductive tok : Type :=
| TStar
| TAny
| TLit (c : ascii)
| TClass (negated : bool) (ranges : list (ascii * ascii)).

(** One element of a class: [getEsc] of Go.  A lone [-] or [']'] is malformed,
    and so is a class that ends the pattern. *)
Definition get_esc (s : string) : option (ascii * string) :=
  let next := match s with
              | EmptyString => None
              | String "-" _ => None
              | String "]" _ => None
              | String "\" EmptyString => None
              | String "\" (String c r) => Some (c, r)
              | String c r => Some (c, r)
              end in
  match next with
  | Some (_, EmptyString) => None
  | r => r
  end.

(** The ranges of a class, up to the closing [']'], which needs one range first. *)
Fixpoint parse_class (fuel : nat) (s : string) (acc : list (ascii * ascii))
  : option (list (ascii * ascii) * string) :=
  match fuel with
  | O => None
  | S f =>
      match s, acc with
      | String "]" r, _ :: _ => Some (acc, r)
      | _, _ =>
          match get_esc s with
          | None => None
          | Some (lo, String "-" r) =>
              match get_esc r with
              | None => None
              | Some (hi, r') => parse_class f r' ((lo, hi) :: acc)
              end
          | Some (lo, r) => parse_class f r ((lo, lo) :: acc)
          end
      end
  end.

Fixpoint parse_toks (fuel : nat) (s : string) : option (list tok) :=
  match fuel with
  | O => None
  | S f =>
      match s with
      | EmptyString => Some []
      | String "*" r => cons TStar <$> parse_toks f r
      | String "?" r => cons TAny <$> parse_toks f r
      | String "\" EmptyString => None
      | String "\" (String c r) => cons (TLit c) <$> parse_toks f r
      | String "[" r =>
          let '(neg, r1) := match r with
                            | String "^" r' => (true, r')
                            | _ => (false, r)
                            end in
          match parse_class f r1 [] with
          | None => None
          | Some (ranges, r2) => cons (TClass neg ranges) <$> parse_toks f r2
          end
      | String c r => cons (TLit c) <$> parse_toks f r
      end
  end.

(** Every recursive call consumes a byte, so the length of the pattern is
    enough fuel. *)
Definition parse_pattern (pat : string) : option (list tok) :=
  parse_toks (S (String.length pat)) pat.

Definition in_range (c : ascii) (r : ascii * ascii) : bool :=
  (nat_of_ascii r.1 <=? nat_of_ascii c)%nat && (nat_of_ascii c <=? nat_of_ascii r.2)%nat.

Definition tok_char (t : tok) (c : ascii) : bool :=
  match t with
  | TStar => false
  | TAny => negb (Ascii.eqb c "/")
  | TLit d => Ascii.eqb c d
  | TClass neg ranges => negb (Bool.eqb (existsb (in_range c) ranges) neg)
  end.

Fixpoint match_toks (ts : list tok) (s : string) : bool :=
  match ts with
  | [] => s =s? ""
  | TStar :: ts' =>
      (fix star (s : string) : bool :=
         match_toks ts' s ||
         match s with
         | EmptyString => false
         | String c r => negb (Ascii.eqb c "/") && star r
         end) s
  | t :: ts' =>
      match s with
      | EmptyString => false
      | String c r => tok_char t c && match_toks ts' r
      end
  end.

Definition PathMatch (pattern name : string) : bool :=
  match parse_pattern pattern with
  | None => false
  | Some ts => match_toks ts name
  end.

(** ** Specification of matching *)

Inductive glob : list tok -> string -> Prop :=
| glob_nil : glob [] ""
| glob_star_stop ts s : glob ts s -> glob (TStar :: ts) s
| glob_star_step ts c s : c <> "/"%char -> glob (TStar :: ts) s -> glob (TStar :: ts) (String c s)
| glob_char t ts c s : tok_char t c = true -> glob ts s -> glob (t :: ts) (String c s).

Lemma match_toks_star ts s :
  match_toks (TStar :: ts) s =
    match_toks ts s ||
    match s with
    | EmptyString => false
    | String c r => negb (Ascii.eqb c "/") && match_toks (TStar :: ts) r
    end.
Proof. by destruct s. Qed.

Lemma match_toks_char t ts s :
  t <> TStar ->
  match_toks (t :: ts) s =
    match s with EmptyString => false | String c r => tok_char t c && match_toks ts r end.
Proof. by destruct t. Qed.

Lemma match_toks_iff ts s : match_toks ts s = true <-> glob ts s.
Proof.
  split.
  - revert s. induction ts as [|t ts IH]; intros s.
    + simpl. intros ->%String.eqb_eq. constructor.
    + destruct (match t with TStar => true | _ => false end) eqn:Et.
      * destruct t; try discriminate. induction s as [|c s IHs].
        -- rewrite match_toks_star, orb_false_r. intros H. by apply glob_star_stop, IH.
        -- rewrite match_toks_star. intros [H|[Hc H]%andb_true_iff]%orb_true_iff.
           ++ by apply glob_star_stop, IH.
           ++ apply glob_star_step; [|by apply IHs].
              apply negb_true_iff, Ascii.eqb_neq in Hc. done.
      * rewrite match_toks_char by (intros ->; discriminate).
        destruct s as [|c s]; [done|]. intros [Hc H]%andb_true_iff.
        by apply glob_char; [|apply IH].
  - induction 1 as [|ts s _ IH|ts c s Hc _ IH|t ts c s Hc _ IH]; [done|..].
    + rewrite match_toks_star, IH. done.
    + rewrite match_toks_star, IH.
      apply Ascii.eqb_neq in Hc. rewrite Hc. apply orb_true_r.
    + rewrite match_toks_char by (intros ->; discriminate). by rewrite Hc, IH.
Qed.

(** A pattern without metacharacters matches exactly itself. *)
Definition plain_char (c : ascii) : bool :=
  negb (existsb (Ascii.eqb c) ["*"; "?"; "["; "\"]%char).

Fixpoint plain (s : string) : bool :=
  match s with EmptyString => true | String c r => plain_char c && plain r end.

Fixpoint lits (s : string) : list tok :=
  match s with EmptyString => [] | String c r => TLit c :: lits r end.

Lemma parse_toks_plain fuel s :
  plain s = true -> (String.length s < fuel)%nat -> parse_toks fuel s = Some (lits s).
Proof.
  revert fuel. induction s as [|c s IH]; intros [|f] Hp Hf; simpl in Hf; try lia; [done|].
  cbn [plain] in Hp. apply andb_true_iff in Hp as [Hc Hp].
  transitivity (cons (TLit c) <$> parse_toks f s).
  - destruct c as [[] [] [] [] [] [] [] []]; try reflexivity; discriminate.
  - rewrite IH by (done || lia). done.
Qed.

Lemma match_lits s t : match_toks (lits s) t = (t =s? s).
Proof.
  revert t. induction s as [|c s IH]; intros t; [done|].
  simpl. destruct t as [|d t]; [done|]. rewrite IH. simpl. by destruct (Ascii.eqb d c).
Qed.

Lemma PathMatch_plain pat name : plain pat = true -> PathMatch pat name = (name =s? pat).
Proof.
  intros Hp. unfold PathMatch, parse_pattern.
  rewrite parse_toks_plain by (done || lia). apply match_lits.
Qed.

(** [*] alone matches exactly the names without a slash. *)
Lemma PathMatch_star name : PathMatch "*" name = true <-> ~ In "/"%char (String.list_ascii_of_string name).
Proof.
  change (match_toks [TStar] name = true <-> ~ In "/"%char (String.list_ascii_of_string name)).
  induction name as [|c s IH]; [split; simpl; tauto|].
  rewrite match_toks_star. simpl.
  destruct (Ascii.eqb_spec c "/") as [->|Hne]; simpl.
  - split; [done|]. intros H. exfalso. by apply H; left.
  - simpl in IH. rewrite IH. split; intros H Hin; [destruct Hin as [Heq|Hin]; [congruence | by apply H]|].
    apply H. by right.
Qed.

Example match_ex1 : PathMatch "job.*" "job.visa.evaluate" = true. Proof. reflexivity. Qed.
Example match_ex2 : PathMatch "job.[a-c]?" "job.b7" = true. Proof. reflexivity. Qed.
Example match_ex3 : PathMatch "job.[^a]*" "job.a" = false. Proof. reflexivity. Qed.
Example match_ex4 : PathMatch "job.[]" "job." = false. Proof. reflexivity. Qed.
