(* ===== verification/PolicyTypes.v ===== *)
(** * The policy data model

    Records for the structs of [core/infra/config] (safety_policy.go, mcp.go,
    delegation_policy.go), field by field.  A [*T] field is an [option], a Go
    map keyed by strings is a [gmap], [nil] slices and maps are the empty ones,
    [float32]/[float64] are IEEE values ([spec_float]), and [time.Time] is an
    instant in nanoseconds. *)
From S2P Require Import Prelude.
From S2P Require Import GoStrings.
From Stdlib Require Export SpecFloat.

Open Scope string_scope.

(** The integer types of Go other than [int], [int32] and [int64]. *)
Inductive int_kind : Set := K_int8 | K_int16 | K_uint | K_uint8 | K_uint16 | K_uint32 | K_uint64.

(** The dynamic values of a [map[string]any]: decoded from JSON, built in Go, or
    returned by the expression engine ([[]string], [[]int]). *)
#[warnings="-register-all"]
Inductive any : Type :=
| AnyNil
| AnyBool (b : bool)
| AnyInt (z : Z)
| AnyInt32 (z : Z)
| AnyInt64 (z : Z)
| AnyIntK (k : int_kind) (z : Z)
| AnyFloat32 (f : spec_float)
| AnyFloat64 (f : spec_float)
| AnyNumber (s : string)
| AnyString (s : string)
| AnyList (l : list any)
| AnyStrings (l : list string)
| AnyInts (l : list Z)
| AnyMap (m : list (string * any))
| AnyStringMap (m : list (string * string)).

(** ** Tiers and selectors *)

Definition PolicyTierGlobal : string := "global".
Definition PolicyTierWorkflow : string := "workflow".
Definition PolicyTierJob : string := "job".

Record PolicySelector := mkPolicySelector {
  WorkflowID : string;
  JobID : string;
  SessionID : string;
}.

Definition empty_selector : PolicySelector := mkPolicySelector "" "" "".

#[export] Instance PolicySelector_eq_dec : EqDecision PolicySelector.
Proof. solve_decision. Defined.

Record PolicyTierDefault := mkPolicyTierDefault {
  td_Tier : string;
  td_Selector : PolicySelector;
  td_Decision : string;
}.

(** ** Delegation *)

Record DelegationContext := mkDelegationContext {
  dc_Depth : Z;
  dc_IssuerChain : list string;
  dc_Scope : list string;
  dc_RootIssuer : string;
  dc_ParentIssuer : string;
  dc_JTI : string;
  dc_ExpiresAt : string;
  dc_Audience : string;
}.

Record DelegationMatch := mkDelegationMatch {
  dm_MaxDepth : option Z;
  dm_Issuers : list string;
  dm_RequireIssuer : string;
  dm_RequiredScope : list string;
  dm_ForbidDelegated : bool;
  dm_DelegationRequired : option bool;
}.

(** ** MCP *)

Record UpstreamServerConfig := mkUpstreamServerConfig {
  us_Name : string;
  us_Transport : string;
  us_Endpoint : string;
  us_Command : list string;
  us_AuthSecretRef : string;
  us_Labels : gmap string string;
  us_Risk : string;
  us_Enabled : bool;
}.

Record MCPPolicy := mkMCPPolicy {
  AllowServers : list string;
  DenyServers : list string;
  AllowTools : list string;
  DenyTools : list string;
  AllowResources : list string;
  DenyResources : list string;
  AllowActions : list string;
  DenyActions : list string;
  GatewayEnabled : bool;
  UpstreamServers : list UpstreamServerConfig;
  AllowedUpstreams : list string;
}.

Definition empty_mcp : MCPPolicy := mkMCPPolicy [] [] [] [] [] [] [] [] false [] [].

Record MCPRequest := mkMCPRequest {
  mr_Server : string;
  mr_Tool : string;
  mr_Resource : string;
  mr_Action : string;
}.

Definition empty_mcp_request : MCPRequest := mkMCPRequest "" "" "" "".

(** ** Constraints and remediations *)

Record BudgetConstraints := mkBudgetConstraints {
  MaxRuntimeMs : Z;
  MaxRetries : Z;
  MaxArtifactBytes : Z;
  MaxConcurrentJobs : Z;
}.

Record SandboxProfile := mkSandboxProfile {
  Isolated : bool;
  NetworkAllowlist : list string;
  FsReadOnly : list string;
  FsReadWrite : list string;
}.

Record ToolchainConstraints := mkToolchainConstraints {
  AllowedTools : list string;
  AllowedCommands : list string;
}.

Record DiffConstraints := mkDiffConstraints {
  MaxFiles : Z;
  MaxLines : Z;
  DenyPathGlobs : list string;
}.

Record PolicyConstraints := mkPolicyConstraints {
  Budgets : BudgetConstraints;
  Sandbox : SandboxProfile;
  Toolchain : ToolchainConstraints;
  Diff : DiffConstraints;
  RedactionLevel : string;
}.

Definition empty_constraints : PolicyConstraints :=
  mkPolicyConstraints (mkBudgetConstraints 0 0 0 0) (mkSandboxProfile false [] [] [])
    (mkToolchainConstraints [] []) (mkDiffConstraints 0 0 []) "".

Record PolicyRemediation := mkPolicyRemediation {
  rem_ID : string;
  rem_Title : string;
  rem_Summary : string;
  rem_ReplacementTopic : string;
  rem_ReplacementCapability : string;
  rem_AddLabels : gmap string string;
  rem_RemoveLabels : list string;
}.

(** ** Rules *)

Record VelocityConfig := mkVelocityConfig {
  MaxRequests : Z;
  WindowSeconds : Z;
  v_Key : string;
}.

Record PolicyMatch := mkPolicyMatch {
  m_Tenants : list string;
  m_Topics : list string;
  m_Capabilities : list string;
  m_RiskTags : list string;
  m_Requires : list string;
  m_PackIDs : list string;
  m_ActorIDs : list string;
  m_ActorTypes : list string;
  m_AgentRiskTiers : list string;
  m_AgentDataClassifications : list string;
  m_Labels : gmap string string;
  m_LabelAllowlist : gmap string (list string);
  m_LabelThreshold : gmap string spec_float;
  m_SecretsPresent : option bool;
  m_Predicate : string;
  m_Delegation : option DelegationMatch;
  m_MCP : MCPPolicy;
}.

Definition empty_match : PolicyMatch :=
  mkPolicyMatch [] [] [] [] [] [] [] [] [] [] ∅ ∅ ∅ None "" None empty_mcp.

Record PolicyRule := mkPolicyRule {
  r_ID : string;
  r_Tier : string;
  r_Selector : PolicySelector;
  r_Match : PolicyMatch;
  r_Velocity : option VelocityConfig;
  r_Decision : string;
  r_Reason : string;
  r_Constraints : PolicyConstraints;
  r_Remediations : list PolicyRemediation;
}.

Record ScopeConfig := mkScopeConfig {
  sc_InstructionPath : string;
  sc_ItemsPath : string;
  sc_CategoryPath : string;
  sc_NamePath : string;
  sc_AllowedCategories : gmap string (list string);
  sc_Aliases : gmap string string;
  sc_OnMissingInput : string;
  sc_OnAmbiguous : string;
}.

Record InputPolicyMatch := mkInputPolicyMatch {
  im_Tenants : list string;
  im_Topics : list string;
  im_Capabilities : list string;
  im_RiskTags : list string;
  im_Scanners : list string;
  im_ContentPatterns : list string;
  im_Keywords : list string;
  im_ContentTypes : list string;
  im_Detectors : list string;
  im_InputSizeGt : Z;
  im_MaxInputBytes : Z;
  im_Scope : option ScopeConfig;
}.

Record InputPolicyRule := mkInputPolicyRule {
  ir_ID : string;
  ir_Tier : string;
  ir_Selector : PolicySelector;
  ir_Enabled : option bool;
  ir_Severity : string;
  ir_Desc : string;
  ir_Match : InputPolicyMatch;
  ir_Decision : string;
  ir_Reason : string;
}.

Record OutputPolicyMatch := mkOutputPolicyMatch {
  om_Tenants : list string;
  om_Topics : list string;
  om_Capabilities : list string;
  om_RiskTags : list string;
  om_Scanners : list string;
  om_ContentPatterns : list string;
  om_Keywords : list string;
  om_ContentTypes : list string;
  om_Detectors : list string;
  om_OutputSizeGt : Z;
  om_MaxOutputBytes : Z;
  om_HasError : option bool;
}.

Record OutputPolicyRule := mkOutputPolicyRule {
  or_ID : string;
  or_Enabled : option bool;
  or_Severity : string;
  or_Desc : string;
  or_Match : OutputPolicyMatch;
  or_Decision : string;
  or_Reason : string;
}.

(** ** Policies *)

Record InputPolicyConfig := mkInputPolicyConfig {
  ipc_Enabled : bool;
  ipc_FailMode : string;
  ipc_MaxScanBytes : Z;
}.

Record OutputPolicyConfig := mkOutputPolicyConfig {
  opc_Enabled : bool;
  opc_FailMode : string;
}.

Record RequireHumanThreshold := mkRequireHumanThreshold {
  MinSeverityForDeny : string;
  MinConfidenceForDeny : spec_float;
  DowngradeWhenPromptOnly : bool;
}.

Definition zero_threshold : RequireHumanThreshold :=
  mkRequireHumanThreshold "" (S754_zero false) false.

(** [t == RequireHumanThreshold{}]: strings and booleans by value, the float by
    IEEE equality. *)
Definition threshold_is_zero (t : RequireHumanThreshold) : bool :=
  (MinSeverityForDeny t =s? "") && SFeqb (MinConfidenceForDeny t) (S754_zero false)
  && negb (DowngradeWhenPromptOnly t).

Record TenantPolicy := mkTenantPolicy {
  AllowTopics : list string;
  DenyTopics : list string;
  AllowedRepoHosts : list string;
  DeniedRepoHosts : list string;
  MaxConcurrent : Z;
  t_MCP : MCPPolicy;
}.

Record SafetyPolicy := mkSafetyPolicy {
  Version : string;
  Tier : string;
  Selector : PolicySelector;
  Rules : list PolicyRule;
  InputPolicy : InputPolicyConfig;
  InputRules : list InputPolicyRule;
  RequireHuman : RequireHumanThreshold;
  OutputPolicy : OutputPolicyConfig;
  OutputRules : list OutputPolicyRule;
  DefaultTenant : string;
  DefaultDecision : string;
  Tenants : gmap string TenantPolicy;
  TierDefaults : list PolicyTierDefault;
}.

Definition empty_policy : SafetyPolicy :=
  mkSafetyPolicy "" "" empty_selector [] (mkInputPolicyConfig false "" 0) []
    zero_threshold (mkOutputPolicyConfig false "") [] "" "" ∅ [].

(** ** Actions *)

Record ActionTargetResource := mkActionTargetResource {
  tr_Type : string;
  tr_ID : string;
  tr_OwnerTenant : string;
  tr_Archived : bool;
}.

Record ActionApprovalClaim := mkActionApprovalClaim {
  ClaimText : string;
  ApprovalRef : string;
}.

Record ActionSessionTaint := mkActionSessionTaint {
  tn_Pattern : string;
  tn_Snippet : string;
  tn_SourceTool : string;
  tn_Severity : string;
  tn_DetectedAt : Z;
}.

Definition ActionKindFile : string := "file".
Definition ActionKindURL : string := "url".
Definition ActionKindTenantQuery : string := "tenant_query".
Definition ActionKindMutation : string := "mutation".
Definition ActionKindMCPCall : string := "mcp_call".
Definition ActionKindProvenanceCheck : string := "provenance_check".

Record ActionDescriptor := mkActionDescriptor {
  Kind : string;
  Verb : string;
  ad_Server : string;
  ad_Tool : string;
  TargetPath : string;
  TargetURL : string;
  TargetResource : option ActionTargetResource;
  Filters : gmap string string;
  Wildcards : list string;
  Args : gmap string any;
  ad_RiskTags : list string;
  RequiredEntitlement : string;
  ApprovalClaim : option ActionApprovalClaim;
  SessionTaint : option ActionSessionTaint;
  TaintLookupFailed : bool;
}.

(** ** Evaluation input and output *)

Record PolicyMeta := mkPolicyMeta {
  ActorID : string;
  ActorType : string;
  IdempotencyKey : string;
  Capability : string;
  RiskTags : list string;
  Requires : list string;
  PackID : string;
  AgentID : string;
  AgentRiskTier : string;
  AgentDataClassifications : list string;
  AgentName : string;
  AgentTeam : string;
}.

Definition empty_meta : PolicyMeta := mkPolicyMeta "" "" "" "" [] [] "" "" "" [] "" "".

Record PolicyInput := mkPolicyInput {
  Tenant : string;
  Topic : string;
  Labels : gmap string string;
  Meta : PolicyMeta;
  SecretsPresent : bool;
  in_MCP : MCPRequest;
  Delegation : option DelegationContext;
  Action : option ActionDescriptor;
}.

Record PolicyDecision := mkPolicyDecision {
  Decision : string;
  Reason : string;
  RuleID : string;
  RuleTier : string;
  Constraints : PolicyConstraints;
  ApprovalRequired : bool;
  Remediations : list PolicyRemediation;
}.

(** Parsing of decimal numbers in label values, [strconv.ParseFloat(s, 64)]:
    every result below holds for any such function. *)
Class FloatParser := ParseFloat : string -> option spec_float.
