(* ===== verification/PolicyNames.v ===== *)
(** * Name matching, tiers and selectors

    The helpers of [core/infra/config/safety_policy.go] that the evaluator, the
    merge and the kernel share: case- and space-insensitive membership, policy
    tier normalisation, selector trimming, merging and keys, and the decision
    vocabulary. *)
From S2P Require Import Prelude.
From S2P Require Import GoStrings.
From S2P Require Import PolicyTypes.

Open Scope string_scope.

(** ** Membership *)

Definition containsString (l : list string) (value : string) : bool :=
  if value =s? "" then false
  else existsb (fun v => EqualFold (TrimSpace v) (TrimSpace value)) l.

Definition containsAny (l values : list string) : bool :=
  if negb (nonempty l) || negb (nonempty values) then false
  else existsb (containsString l) values.

Definition containsAll (values required : list string) : bool :=
  if negb (nonempty required) then true
  else forallb (containsString values) required.

(** The specification: membership of the normal forms. *)
Lemma containsString_iff l value :
  containsString l value = true <->
  value <> "" /\ exists v, v ∈ l /\ norm v = norm value.
Proof.
  unfold containsString. destruct (String.eqb_spec value "") as [->|Hne].
  - split; [done|]. intros [? _]. done.
  - rewrite existsb_elem. setoid_rewrite EqualFold_trim_norm. naive_solver.
Qed.

Lemma containsAny_iff l values :
  containsAny l values = true <->
  exists x v, x ∈ values /\ v ∈ l /\ x <> "" /\ norm v = norm x.
Proof.
  unfold containsAny. destruct l as [|a l]; [set_solver|].
  destruct values as [|b values]; [set_solver|]. simpl nonempty. cbn [negb orb].
  rewrite existsb_elem. setoid_rewrite containsString_iff. naive_solver.
Qed.

Lemma containsAll_iff values required :
  containsAll values required = true <->
  forall x, x ∈ required -> x <> "" /\ exists v, v ∈ values /\ norm v = norm x.
Proof.
  unfold containsAll. destruct required as [|b required]; simpl nonempty; cbn [negb].
  - set_solver.
  - rewrite forallb_elem. setoid_rewrite containsString_iff. done.
Qed.

(** Membership does not depend on the case or the padding of the names. *)
Lemma containsString_norm l v w :
  v <> "" -> w <> "" -> norm v = norm w -> containsString l v = containsString l w.
Proof.
  intros Hv Hw Hn. apply Bool.eq_iff_eq_true. rewrite !containsString_iff, Hn. tauto.
Qed.

Lemma containsString_singleton t v :
  containsString [t] v = true -> norm v = norm t.
Proof. intros (_ & x & ->%list_elem_of_singleton & H)%containsString_iff. done. Qed.

(** ** Tiers *)

Definition NormalizePolicyTier (raw : string) : string :=
  let tier := ToLower (TrimSpace raw) in
  if tier =s? "" then PolicyTierGlobal else tier.

Definition IsValidPolicyTier (raw : string) : bool :=
  let t := NormalizePolicyTier raw in
  if (t =s? PolicyTierGlobal) || (t =s? PolicyTierWorkflow) || (t =s? PolicyTierJob)
  then true else false.

Lemma NormalizePolicyTier_idem t :
  NormalizePolicyTier (NormalizePolicyTier t) = NormalizePolicyTier t.
Proof.
  unfold NormalizePolicyTier. destruct (String.eqb_spec (ToLower (TrimSpace t)) "") as [E|E].
  - reflexivity.
  - rewrite TrimSpace_lower, TrimSpace_idem, ToLower_idem. apply eqb_ne in E. by rewrite E.
Qed.

Lemma NormalizePolicyTier_nonempty t : NormalizePolicyTier t <> "".
Proof.
  unfold NormalizePolicyTier. destruct (String.eqb_spec (ToLower (TrimSpace t)) ""); done.
Qed.

Lemma NormalizePolicyTier_trim t : NormalizePolicyTier (TrimSpace t) = NormalizePolicyTier t.
Proof. unfold NormalizePolicyTier. by rewrite TrimSpace_idem. Qed.

(** ** Selectors *)

Definition TrimPolicySelector (s : PolicySelector) : PolicySelector :=
  {| WorkflowID := TrimSpace (WorkflowID s);
     JobID := TrimSpace (JobID s);
     SessionID := TrimSpace (SessionID s) |}.

Definition MergePolicySelector (base override : PolicySelector) : PolicySelector :=
  let out := TrimPolicySelector base in
  let override := TrimPolicySelector override in
  {| WorkflowID := if negb (WorkflowID override =s? "") then WorkflowID override else WorkflowID out;
     JobID := if negb (JobID override =s? "") then JobID override else JobID out;
     SessionID := if negb (SessionID override =s? "") then SessionID override else SessionID out |}.

Definition PolicySelectorKey (tier : string) (selector : PolicySelector) : string :=
  let selector := TrimPolicySelector selector in
  let t := NormalizePolicyTier tier in
  if t =s? PolicyTierWorkflow then WorkflowID selector
  else if t =s? PolicyTierJob then
    if negb (JobID selector =s? "") then JobID selector else SessionID selector
  else "".

Lemma TrimPolicySelector_idem s :
  TrimPolicySelector (TrimPolicySelector s) = TrimPolicySelector s.
Proof. unfold TrimPolicySelector; simpl. by rewrite !TrimSpace_idem. Qed.

Lemma TrimPolicySelector_Merge a b :
  TrimPolicySelector (MergePolicySelector a b) = MergePolicySelector a b.
Proof.
  unfold TrimPolicySelector, MergePolicySelector; simpl.
  repeat case_match; by rewrite !TrimSpace_idem.
Qed.

Lemma pick_assoc a b c :
  let pick (x y : string) := if negb (TrimSpace y =s? "") then TrimSpace y else TrimSpace x in
  pick a (pick b c) = pick (pick a b) c.
Proof.
  simpl. destruct (String.eqb_spec (TrimSpace c) "") as [Hc|Hc]; simpl;
    rewrite ?TrimSpace_idem.
  - destruct (String.eqb_spec (TrimSpace b) "") as [Hb|Hb]; simpl; rewrite ?TrimSpace_idem; done.
  - apply eqb_ne in Hc. by rewrite Hc.
Qed.

(** The merge is the field-wise "last non-empty wins" monoid on trimmed
    selectors: it is associative and the empty selector is neutral. *)
Lemma MergePolicySelector_assoc a b c :
  MergePolicySelector a (MergePolicySelector b c) =
  MergePolicySelector (MergePolicySelector a b) c.
Proof.
  unfold MergePolicySelector, TrimPolicySelector; cbn [WorkflowID JobID SessionID].
  by rewrite !pick_assoc.
Qed.

Lemma MergePolicySelector_empty_l s : MergePolicySelector empty_selector s = TrimPolicySelector s.
Proof.
  unfold MergePolicySelector, TrimPolicySelector; cbn.
  f_equal; case_match; split_bools; congruence.
Qed.

Lemma MergePolicySelector_empty_r s : MergePolicySelector s empty_selector = TrimPolicySelector s.
Proof. reflexivity. Qed.

Lemma PolicySelectorKey_trim t s :
  PolicySelectorKey t (TrimPolicySelector s) = PolicySelectorKey t s.
Proof. unfold PolicySelectorKey. by rewrite TrimPolicySelector_idem. Qed.

(** ** Decisions *)

Definition normalizeDecision (raw : string) : string :=
  let d := ToLower (TrimSpace raw) in
  if (d =s? "allow") || (d =s? "permit") then "allow"
  else if (d =s? "deny") || (d =s? "block") then "deny"
  else if (d =s? "require_approval") || (d =s? "require-approval") || (d =s? "require_human")
    then "require_approval"
  else if (d =s? "allow_with_constraints") || (d =s? "allow-with-constraints")
    then "allow_with_constraints"
  else if d =s? "throttle" then "throttle"
  else "deny".

Definition canonical_decisions : list string :=
  ["allow"; "deny"; "require_approval"; "allow_with_constraints"; "throttle"].

Lemma normalizeDecision_canonical raw : normalizeDecision raw ∈ canonical_decisions.
Proof.
  unfold normalizeDecision, canonical_decisions.
  repeat case_match; repeat (first [by left | right]).
Qed.

Lemma normalizeDecision_idem raw :
  normalizeDecision (normalizeDecision raw) = normalizeDecision raw.
Proof. unfold normalizeDecision at 2 3. repeat case_match; reflexivity. Qed.

Lemma normalizeDecision_trim raw : normalizeDecision (TrimSpace raw) = normalizeDecision raw.
Proof. unfold normalizeDecision. by rewrite TrimSpace_idem. Qed.

#[export] Hint Rewrite NormalizePolicyTier_idem NormalizePolicyTier_trim TrimPolicySelector_idem
  TrimPolicySelector_Merge PolicySelectorKey_trim normalizeDecision_idem normalizeDecision_trim
  : cordum_rw.
