(* ===== verification/DelegationPolicy.v ===== *)
(** * Delegation matching ([core/infra/config/delegation_policy.go])

    Validation and evaluation of the [delegation] block of a rule, the textual
    [predicate] language, and the reconstruction of a delegation context from
    the reserved labels that the gateway injects. *)
From S2P Require Import Prelude.
From S2P Require Import GoStrings.
From S2P Require Import PolicyTypes.
From S2P Require Import PolicyNames.
From Stdlib Require Import Ascii.

Open Scope string_scope.

Definition LabelDelegationDepth := "_delegation.depth".
Definition LabelDelegationIssuer := "_delegation.issuer".
Definition LabelDelegationIssuerChain := "_delegation.issuer_chain".
Definition LabelDelegationParentIssuer := "_delegation.parent_issuer".
Definition LabelDelegationJTI := "_delegation.jti".
Definition LabelDelegationExpiresAt := "_delegation.expires_at".
Definition LabelDelegationAudience := "_delegation.audience".
Definition LabelDelegationScope := "_delegation.scope".

Inductive DelegationError :=
| ErrMaxDepthNegative (d : Z)
| ErrIssuerEmpty
| ErrIssuerInvalid (id : string)
| ErrIssuerDuplicate (id : string)
| ErrRequireIssuerInvalid (id : string)
| ErrScopeEmpty
| ErrDepthPredicate (raw : string)
| ErrIssuerPredicate (raw : string)
| ErrPredicateValueRequired
| ErrPredicateInvalid (raw : string).

(** ** Operations *)

Definition hasDelegationScopedConstraint (m : option DelegationMatch) : bool :=
  match m with
  | None => false
  | Some m =>
      if (match dm_MaxDepth m with Some _ => true | None => false end) then true
      else if nonempty (dm_Issuers m) then true
      else if negb (TrimSpace (dm_RequireIssuer m) =s? "") then true
      else if nonempty (dm_RequiredScope m) then true
      else false
  end.

Definition agent_id_tail_char (c : ascii) : bool :=
  is_alnum c || Ascii.eqb c "_" || Ascii.eqb c "-" || Ascii.eqb c ".".

(** The regular expression [^[A-Za-z0-9][A-Za-z0-9_\-\.]{0,127}$]. *)
Definition agentIDRegex (s : string) : bool :=
  match s with
  | EmptyString => false
  | String c r =>
      is_alnum c && forallb agent_id_tail_char (String.list_ascii_of_string r)
      && (String.length r <=? 127)%nat
  end.

(** The loop over [m.Issuers]; [seen] is the set built so far. *)
Fixpoint validateIssuers (issuers : list string) (seen : gset string) : option DelegationError :=
  match issuers with
  | [] => None
  | id :: rest =>
      let trim := TrimSpace id in
      if trim =s? "" then Some ErrIssuerEmpty
      else if negb (agentIDRegex trim) then Some (ErrIssuerInvalid trim)
      else if bool_decide (trim ∈ seen) then Some (ErrIssuerDuplicate trim)
      else validateIssuers rest ({[trim]} ∪ seen)
  end.

Definition ValidateDelegationMatch (m : option DelegationMatch) : option DelegationError :=
  match m with
  | None => None
  | Some m =>
      if (match dm_MaxDepth m with Some d => (d <? 0)%Z | None => false end)
      then Some (ErrMaxDepthNegative (default 0%Z (dm_MaxDepth m)))
      else
        match validateIssuers (dm_Issuers m) ∅ with
        | Some e => Some e
        | None =>
            let trim := TrimSpace (dm_RequireIssuer m) in
            if negb (trim =s? "") && negb (agentIDRegex trim)
            then Some (ErrRequireIssuerInvalid (dm_RequireIssuer m))
            else if existsb (fun s => TrimSpace s =s? "") (dm_RequiredScope m)
            then Some ErrScopeEmpty
            else None
        end
  end.

Definition DelegationMatchDenyFields : list string :=
  ["forbid_delegated"; "max_depth"; "issuers"; "require_issuer"; "required_scope";
   "delegation_required"].

(** Every id of the issuer chain is in the allowlist. *)
Definition issuersAllowed (issuers chain : list string) : bool :=
  let allowed : gset string := list_to_set (map TrimSpace issuers) in
  forallb (fun id => bool_decide (TrimSpace id ∈ allowed)) chain.

(** The required scopes are a subset of the delegated ones. *)
Definition scopeIncluded (required have : list string) : bool :=
  let h : gset string := list_to_set (map (fun s => ToLower (TrimSpace s)) have) in
  forallb (fun r => bool_decide (ToLower (TrimSpace r) ∈ h)) required.

(** The verdict together with the fields passed to [reportDelegationDeny]. *)
Definition evaluateDelegationMatch (match_ : option DelegationMatch)
    (delegation : option DelegationContext) : bool * list string :=
  match match_ with
  | None => (true, [])
  | Some m =>
      if dm_ForbidDelegated m then
        match delegation with
        | None => (true, [])
        | Some _ => (false, ["forbid_delegated"])
        end
      else
        match delegation with
        | None =>
            match dm_DelegationRequired m with
            | Some true => (false, ["delegation_required"])
            | Some false => (true, [])
            | None =>
                if hasDelegationScopedConstraint match_
                then (false, ["delegation_required"]) else (true, [])
            end
        | Some d =>
            if (match dm_MaxDepth m with Some k => (k <? dc_Depth d)%Z | None => false end)
            then (false, ["max_depth"])
            else if nonempty (dm_Issuers m) && negb (issuersAllowed (dm_Issuers m) (dc_IssuerChain d))
            then (false, ["issuers"])
            else
              let req := TrimSpace (dm_RequireIssuer m) in
              if negb (req =s? "") && negb (EqualFold (TrimSpace (dc_RootIssuer d)) req)
              then (false, ["require_issuer"])
              else if nonempty (dm_RequiredScope m)
                      && negb (scopeIncluded (dm_RequiredScope m) (dc_Scope d))
              then (false, ["required_scope"])
              else (true, [])
        end
  end.

(** Fields are added only when non-empty, except the depth. *)
Definition add_nonempty (key value : string) (m : gmap string string) : gmap string string :=
  let v := TrimSpace value in if negb (v =s? "") then <[key := v]> m else m.

Definition DelegationAuditExtras (ctx : option DelegationContext) : option (gmap string string) :=
  match ctx with
  | None => None
  | Some c =>
      Some (add_nonempty "delegation.audience" (dc_Audience c)
             (add_nonempty "delegation.expires_at" (dc_ExpiresAt c)
               (add_nonempty "delegation.jti" (dc_JTI c)
                 (add_nonempty "delegation.parent_issuer" (dc_ParentIssuer c)
                   (add_nonempty "delegation.root_issuer" (dc_RootIssuer c)
                     {["delegation.depth" := Itoa (dc_Depth c)]})))))
  end.

Fixpoint normalizeParts (parts : list string) (seen : gset string) : list string :=
  match parts with
  | [] => []
  | p :: rest =>
      let part := TrimSpace p in
      if part =s? "" then normalizeParts rest seen
      else
        let key := ToLower part in
        if bool_decide (key ∈ seen) then normalizeParts rest seen
        else part :: normalizeParts rest ({[key]} ∪ seen)
  end.

Definition normalizeDelegationList (raw : string) : list string :=
  if TrimSpace raw =s? "" then [] else normalizeParts (Split raw ",") ∅.

Definition DelegationContextFromLabels (labels : gmap string string) : option DelegationContext :=
  if negb (map_nonempty labels) then None
  else
    match Atoi (TrimSpace (get_str labels LabelDelegationDepth)) with
    | None => None
    | Some depth =>
        if (depth <=? 0)%Z then None
        else
          let chain0 := normalizeDelegationList (get_str labels LabelDelegationIssuerChain) in
          let root0 := TrimSpace (get_str labels LabelDelegationIssuer) in
          let root := if (root0 =s? "") && nonempty chain0 then hd "" chain0 else root0 in
          let chain := if negb (nonempty chain0) && negb (root =s? "") then [root] else chain0 in
          let parent0 := TrimSpace (get_str labels LabelDelegationParentIssuer) in
          let parent := if (parent0 =s? "") && nonempty chain
                        then List.last chain "" else parent0 in
          Some {| dc_Depth := depth;
                  dc_IssuerChain := chain;
                  dc_Scope := normalizeDelegationList (get_str labels LabelDelegationScope);
                  dc_RootIssuer := root;
                  dc_ParentIssuer := parent;
                  dc_JTI := TrimSpace (get_str labels LabelDelegationJTI);
                  dc_ExpiresAt := TrimSpace (get_str labels LabelDelegationExpiresAt);
                  dc_Audience := TrimSpace (get_str labels LabelDelegationAudience) |}
    end.

(** ** The predicate language *)

Inductive delegationPredicate :=
| PredDepth (op : string) (depth : Z)
| PredIssuer (value : string)
| PredScopeContains (value : string).

Definition last_char (s : string) : option ascii :=
  String.get (String.length s - 1) s.

Definition quoted_with (q : ascii) (s : string) : bool :=
  match String.get 0 s, last_char s with
  | Some a, Some b => Ascii.eqb a q && Ascii.eqb b q
  | _, _ => false
  end.

Definition parseDelegationPredicateValue (raw : string) : result DelegationError string :=
  let raw := TrimSpace raw in
  if raw =s? "" then Err ErrPredicateValueRequired
  else
    let raw := if (2 <=? String.length raw)%nat
                  && (quoted_with (ascii_of_nat 39) raw || quoted_with (ascii_of_nat 34) raw)
               then take (String.length raw - 2) (drop 1 raw) else raw in
    let raw := TrimSpace raw in
    if raw =s? "" then Err ErrPredicateValueRequired else Ok (ToLower raw).

Definition depth_ops : list string := [">="; "<="; "=="; ">"; "<"].

Fixpoint parseDepthOp (ops : list string) (raw tail : string) : result DelegationError delegationPredicate :=
  match ops with
  | [] => Err (ErrPredicateInvalid raw)
  | op :: ops' =>
      if HasPrefix tail op then
        match Atoi (TrimSpace (TrimPrefix tail op)) with
        | None => Err (ErrDepthPredicate raw)
        | Some v => Ok (PredDepth op v)
        end
      else parseDepthOp ops' raw tail
  end.

Definition parseDelegationPredicate (raw : string) : result DelegationError delegationPredicate :=
  let raw := TrimSpace raw in
  if HasPrefix raw "delegation.depth" then
    parseDepthOp depth_ops raw (TrimSpace (TrimPrefix raw "delegation.depth"))
  else if HasPrefix raw "delegation.issuer" then
    let tail := TrimSpace (TrimPrefix raw "delegation.issuer") in
    if negb (HasPrefix tail "==") then Err (ErrIssuerPredicate raw)
    else
      match parseDelegationPredicateValue (TrimSpace (TrimPrefix tail "==")) with
      | inl e => Err e
      | inr v => Ok (PredIssuer v)
      end
  else if HasPrefix raw "delegation.scope.contains(" && HasSuffix raw ")" then
    let inner := TrimSpace (TrimSuffix (TrimPrefix raw "delegation.scope.contains(") ")") in
    match parseDelegationPredicateValue inner with
    | inl e => Err e
    | inr v => Ok (PredScopeContains v)
    end
  else Err (ErrPredicateInvalid raw).

Definition validateDelegationPredicate (raw : string) : option DelegationError :=
  if TrimSpace raw =s? "" then None
  else match parseDelegationPredicate raw with inl e => Some e | inr _ => None end.

Definition compareDelegationDepth (actual : Z) (op : string) (expected : Z) : bool :=
  if op =s? ">" then (expected <? actual)%Z
  else if op =s? ">=" then (expected <=? actual)%Z
  else if op =s? "<" then (actual <? expected)%Z
  else if op =s? "<=" then (actual <=? expected)%Z
  else if op =s? "==" then (actual =? expected)%Z
  else false.

Definition delegationPredicateMatch (raw : string) (delegation : option DelegationContext) : bool :=
  if TrimSpace raw =s? "" then true
  else
    match parseDelegationPredicate raw, delegation with
    | inr (PredDepth op k), Some d => compareDelegationDepth (dc_Depth d) op k
    | inr (PredIssuer v), Some d => EqualFold (TrimSpace (dc_RootIssuer d)) v
    | inr (PredScopeContains v), Some d => containsString (dc_Scope d) v
    | _, _ => false
    end.

(** ** Evaluation: specification *)

(** What the delegation block of a rule means, as a proposition. *)
Definition delegation_spec (m : DelegationMatch) (d : option DelegationContext) : Prop :=
  if dm_ForbidDelegated m then d = None
  else match d with
  | None =>
      dm_DelegationRequired m = Some false \/
      (dm_DelegationRequired m = None /\ dm_MaxDepth m = None /\ dm_Issuers m = [] /\
       TrimSpace (dm_RequireIssuer m) = "" /\ dm_RequiredScope m = [])
  | Some c =>
      (forall k, dm_MaxDepth m = Some k -> (dc_Depth c <= k)%Z) /\
      (dm_Issuers m <> [] -> forall id, id ∈ dc_IssuerChain c ->
         exists a, a ∈ dm_Issuers m /\ TrimSpace a = TrimSpace id) /\
      (TrimSpace (dm_RequireIssuer m) <> "" ->
         norm (dc_RootIssuer c) = norm (dm_RequireIssuer m)) /\
      (forall r, r ∈ dm_RequiredScope m ->
         exists s, s ∈ dc_Scope c /\ norm s = norm r)
  end.

Lemma issuersAllowed_iff issuers chain :
  issuersAllowed issuers chain = true <->
  forall id, id ∈ chain -> exists a, a ∈ issuers /\ TrimSpace a = TrimSpace id.
Proof.
  unfold issuersAllowed. rewrite forallb_elem.
  setoid_rewrite bool_decide_eq_true. setoid_rewrite elem_of_list_to_set.
  setoid_rewrite list_elem_of_fmap. naive_solver.
Qed.

Lemma scopeIncluded_iff required have :
  scopeIncluded required have = true <->
  forall r, r ∈ required -> exists s, s ∈ have /\ norm s = norm r.
Proof.
  unfold scopeIncluded. rewrite forallb_elem.
  setoid_rewrite bool_decide_eq_true. setoid_rewrite elem_of_list_to_set.
  setoid_rewrite list_elem_of_fmap. unfold norm. naive_solver.
Qed.

Lemma nonempty_negb_guard {A} (l : list A) (b : bool) (P : Prop) :
  (b = true <-> P) -> nonempty l && negb b = false <-> (l <> [] -> P).
Proof. intros HP. destruct l, b; simpl; naive_solver. Qed.

Lemma delegated_verdict_iff m c :
  dm_ForbidDelegated m = false ->
  (evaluateDelegationMatch (Some m) (Some c)).1 = true <-> delegation_spec m (Some c).
Proof.
  intros Hf. unfold evaluateDelegationMatch, delegation_spec. rewrite Hf.
  destruct (match dm_MaxDepth m with Some k => (k <? dc_Depth c)%Z | None => false end) eqn:E1.
  { split; [done|]. intros (H & _). destruct (dm_MaxDepth m) as [k|]; [|done].
    specialize (H k eq_refl). apply Z.ltb_lt in E1. lia. }
  assert (forall k, dm_MaxDepth m = Some k -> (dc_Depth c <= k)%Z) as H1.
  { intros k Hk. rewrite Hk in E1. apply Z.ltb_ge in E1. lia. }
  destruct (nonempty (dm_Issuers m) && negb (issuersAllowed _ _)) eqn:E2.
  { split; [done|]. intros (_ & H & _).
    apply (proj2 (nonempty_negb_guard _ _ _ (issuersAllowed_iff _ _))) in H. congruence. }
  pose proof (proj1 (nonempty_negb_guard _ _ _ (issuersAllowed_iff _ _)) E2) as H2.
  destruct (negb (_ =s? "") && _) eqn:E3.
  { split; [done|]. intros (_ & _ & H & _). split_bools. specialize (H ltac:(done)).
    apply EqualFold_trim_norm in H. congruence. }
  assert (TrimSpace (dm_RequireIssuer m) <> "" -> norm (dc_RootIssuer c) = norm (dm_RequireIssuer m)) as H3.
  { intros Hne. apply eqb_ne in Hne. rewrite Hne in E3. simpl in E3. split_bools.
    by apply EqualFold_trim_norm. }
  destruct (nonempty (dm_RequiredScope m) && _) eqn:E4.
  { split; [done|]. intros (_ & _ & _ & H). apply scopeIncluded_iff in H.
    rewrite H in E4. by rewrite andb_false_r in E4. }
  pose proof (proj1 (nonempty_negb_guard _ _ _ (scopeIncluded_iff _ _)) E4) as H4.
  split; [intros _|done]. repeat split; [done|done|done|].
  intros r Hr. apply H4; [|done]. intros Hnil. rewrite Hnil in Hr. inversion Hr.
Qed.

Lemma direct_verdict_iff m :
  dm_ForbidDelegated m = false ->
  (evaluateDelegationMatch (Some m) None).1 = true <-> delegation_spec m None.
Proof.
  intros Hf. unfold evaluateDelegationMatch, delegation_spec, hasDelegationScopedConstraint.
  rewrite Hf. destruct (dm_DelegationRequired m) as [[]|]; [naive_solver..|].
  destruct (dm_MaxDepth m); [naive_solver|].
  destruct (dm_Issuers m); [|naive_solver].
  destruct (String.eqb_spec (TrimSpace (dm_RequireIssuer m)) ""); [|naive_solver].
  destruct (dm_RequiredScope m); naive_solver.
Qed.

(** The evaluator decides the specification. *)
Lemma evaluateDelegationMatch_iff m d :
  (evaluateDelegationMatch (Some m) d).1 = true <-> delegation_spec m d.
Proof.
  destruct (dm_ForbidDelegated m) eqn:Hf.
  - unfold evaluateDelegationMatch, delegation_spec. rewrite Hf. by destruct d.
  - destruct d; [by apply delegated_verdict_iff | by apply direct_verdict_iff].
Qed.

(** Exactly one observer callback per rejection, naming a registered field. *)
Lemma evaluateDelegationMatch_report m d :
  match evaluateDelegationMatch m d with
  | (true, fields) => fields = []
  | (false, fields) => exists f, fields = [f] /\ f ∈ DelegationMatchDenyFields
  end.
Proof.
  unfold evaluateDelegationMatch, DelegationMatchDenyFields.
  destruct m as [m|]; [|done].
  repeat case_match; simplify_eq; try done; eexists; (split; [reflexivity|]); set_solver.
Qed.

(** ** Predicates *)

(** A predicate accepted at load time parses at evaluation time. *)
Lemma validated_predicate_parses raw :
  validateDelegationPredicate raw = None -> TrimSpace raw <> "" ->
  exists p, parseDelegationPredicate raw = Ok p.
Proof.
  unfold validateDelegationPredicate. intros H Hne. apply eqb_ne in Hne. rewrite Hne in H.
  destruct (parseDelegationPredicate raw); [done|eauto].
Qed.

Fixpoint no_space (s : string) : bool :=
  match s with EmptyString => true | String c r => negb (is_space c) && no_space r end.

Lemma TrimSpace_no_space s : no_space s = true -> TrimSpace s = s.
Proof.
  unfold TrimSpace. intros H.
  assert (TrimLeft s = s) as ->.
  { destruct s; [done|]. simpl in *. split_bools. by case_match. }
  induction s as [|c s IH]; [done|]. simpl in *. split_bools. rewrite IH by done.
  destruct s; [by case_match | done].
Qed.

Lemma no_space_app s t : no_space (s +:+ t) = no_space s && no_space t.
Proof.
  induction s as [|c s IH]; [done|]. change (negb (is_space c) && no_space (s +:+ t) =
    (negb (is_space c) && no_space s) && no_space t). by rewrite IH, andb_assoc.
Qed.

Lemma digit_no_space c : is_digit c = true -> is_space c = false.
Proof. destruct c as [[] [] [] [] [] [] [] []]; done. Qed.

Lemma itoa_no_space fuel n acc :
  no_space acc = true -> (0 <= n)%Z -> no_space (itoa_digits fuel n acc) = true.
Proof.
  revert n acc. induction fuel as [|f IH]; intros n acc Ha Hn; cbn [itoa_digits]; [done|].
  pose proof (Z.mod_pos_bound n 10 ltac:(lia)).
  assert (no_space (String (digit_char (n mod 10)) acc) = true).
  { cbn [no_space]. rewrite Ha, digit_no_space; [done|]. by apply digit_char_is_digit. }
  destruct (n <? 10)%Z; [done|]. apply IH; [done|]. apply Z.div_pos; lia.
Qed.

Lemma Itoa_no_space k : (0 <= k)%Z -> no_space (Itoa k) = true.
Proof.
  intros Hk. unfold Itoa. destruct (Z.ltb_spec k 0); [lia|]. by apply itoa_no_space.
Qed.

Lemma Itoa_not_eq_sign k p :
  (0 <= k)%Z -> HasPrefix (Itoa k) (String "=" p) = false.
Proof.
  intros Hk. unfold Itoa. destruct (Z.ltb_spec k 0); [lia|].
  destruct (itoa_digits_cons 20 k) as (c & r & -> & Hd); [lia..|].
  unfold HasPrefix. cbn [String.prefix].
  destruct (Ascii.ascii_dec "=" c) as [<-|]; [discriminate | done].
Qed.

Lemma parseDepthOp_hit op ops raw k :
  (0 <= k <= int64_max)%Z ->
  parseDepthOp (op :: ops) raw (op +:+ Itoa k) = Ok (PredDepth op k).
Proof.
  intros Hk. cbn [parseDepthOp]. unfold HasPrefix. rewrite prefix_app, TrimPrefix_app.
  rewrite TrimSpace_no_space by (apply Itoa_no_space; lia). by rewrite Atoi_Itoa.
Qed.

Lemma parseDepthOp_skip op ops raw tail :
  HasPrefix tail op = false -> parseDepthOp (op :: ops) raw tail = parseDepthOp ops raw tail.
Proof. intros H. cbn [parseDepthOp]. by rewrite H. Qed.

Lemma parseDepthOp_print op k raw :
  op ∈ depth_ops -> (0 <= k <= int64_max)%Z ->
  parseDepthOp depth_ops raw (op +:+ Itoa k) = Ok (PredDepth op k).
Proof.
  intros Hop Hk. unfold depth_ops in *.
  pose proof (Itoa_not_eq_sign k "" ltac:(lia)) as Hs. unfold HasPrefix in Hs.
  repeat (apply elem_of_cons in Hop as [->|Hop]; [by
    repeat (rewrite parseDepthOp_skip by (first [reflexivity | exact Hs])); apply parseDepthOp_hit|]).
  inversion Hop.
Qed.

(** The text of a depth predicate. *)
Definition print_depth_predicate (op : string) (k : Z) : string :=
  "delegation.depth" +:+ op +:+ Itoa k.

Lemma depth_op_no_space op : op ∈ depth_ops -> no_space op = true.
Proof. unfold depth_ops. intros H. by repeat (apply elem_of_cons in H as [->|H]; [done|]); inversion H. Qed.

(** Printing a depth predicate and parsing it back is the identity, for each
    of the five comparison operators and every depth that fits an [int]. *)
Theorem parse_print_depth op k :
  op ∈ depth_ops -> (0 <= k <= int64_max)%Z ->
  parseDelegationPredicate (print_depth_predicate op k) = Ok (PredDepth op k).
Proof.
  intros Hop Hk. unfold parseDelegationPredicate, print_depth_predicate.
  assert (no_space (op +:+ Itoa k) = true) as Hs.
  { rewrite no_space_app, depth_op_no_space, Itoa_no_space by (done || lia). done. }
  rewrite TrimSpace_no_space by (rewrite no_space_app, Hs; done).
  unfold HasPrefix at 1. rewrite prefix_app, TrimPrefix_app.
  rewrite TrimSpace_no_space by done. by apply parseDepthOp_print.
Qed.

(** ** Lists carried in labels *)

(** A normalised list: trimmed non-empty entries, pairwise different up to case. *)
Definition normal_list (l : list string) : Prop :=
  NoDup (map ToLower l) /\ Forall (fun p => p <> "" /\ TrimSpace p = p) l.

Lemma normalizeParts_spec parts seen :
  normal_list (normalizeParts parts seen) /\
  Forall (fun p => ToLower p ∉ seen) (normalizeParts parts seen).
Proof.
  revert seen. induction parts as [|p parts IH]; intros seen; simpl.
  { repeat split; constructor. }
  destruct (String.eqb_spec (TrimSpace p) "") as [|Hne]; [apply IH|].
  case_bool_decide as Hin; [apply IH|].
  destruct (IH ({[ToLower (TrimSpace p)]} ∪ seen)) as [[Hd Ht] Hs].
  repeat split.
  - simpl. constructor; [|done]. intros (q & Hq & Hin')%list_elem_of_fmap.
    rewrite Forall_forall in Hs. specialize (Hs q Hin'). set_solver.
  - constructor; [|done]. split; [done | apply TrimSpace_idem].
  - constructor; [done|]. eapply Forall_impl; [exact Hs|]. set_solver.
Qed.

Lemma normalizeDelegationList_normal raw : normal_list (normalizeDelegationList raw).
Proof.
  unfold normalizeDelegationList. case_match; [by repeat constructor|].
  apply normalizeParts_spec.
Qed.

Lemma normalizeParts_id l seen :
  normal_list l -> Forall (fun p => ToLower p ∉ seen) l -> normalizeParts l seen = l.
Proof.
  revert seen. induction l as [|p l IH]; intros seen [Hd Ht] Hs; [done|]. simpl.
  inversion Ht as [|? ? [Hne Htr] Ht']; inversion Hs as [|? ? Hps Hls]; inversion Hd as [|? ? Hnin Hd']; subst.
  rewrite Htr. apply eqb_ne in Hne. rewrite Hne.
  rewrite bool_decide_eq_false_2 by done. f_equal. apply IH; [done|].
  apply Forall_forall. intros q Hq. apply not_elem_of_union. split.
  - intros Heq%elem_of_singleton. apply Hnin. rewrite <- Heq. by apply list_elem_of_fmap_2.
  - rewrite Forall_forall in Hls. by apply Hls.
Qed.

Lemma normalizeParts_Forall (P : string -> Prop) parts seen :
  (forall p, P p -> P (TrimSpace p)) -> Forall P parts -> Forall P (normalizeParts parts seen).
Proof.
  intros HP Hparts. revert seen. induction Hparts as [|p parts Hp _ IH]; intros seen; simpl; [done|].
  case_match; [done|]. case_match; [done|]. constructor; auto.
Qed.

Lemma TrimLeft_nonblank s c :
  In c (String.list_ascii_of_string s) -> is_space c = false -> TrimLeft s <> "".
Proof.
  induction s as [|d s IH]; simpl; [done|]. intros [->|Hin] Hc.
  - by rewrite Hc.
  - case_match; auto.
Qed.

Lemma TrimSpace_nonblank s c :
  In c (String.list_ascii_of_string s) -> is_space c = false -> TrimSpace s <> "".
Proof.
  intros Hin Hc. unfold TrimSpace.
  assert (In c (String.list_ascii_of_string (TrimLeft s))) as Hin'.
  { induction s as [|d s IH]; simpl in *; [done|]. destruct Hin as [->|Hin].
    - rewrite Hc. by left.
    - case_match; [by apply IH | by right]. }
  clear Hin. revert Hin'. generalize (TrimLeft s) as t. induction t as [|d t IH]; simpl; [done|].
  intros [->|Hin].
  - destruct (TrimRight t); [by rewrite Hc | done].
  - specialize (IH Hin). by destruct (TrimRight t).
Qed.

Lemma TrimSpace_has_nonblank s :
  TrimSpace s <> "" -> exists c, In c (String.list_ascii_of_string s) /\ is_space c = false.
Proof.
  induction s as [|d s IH]; [done|]. intros H.
  destruct (is_space d) eqn:E.
  - assert (TrimSpace s <> "") as (c & Hc & Hs)%IH.
    { unfold TrimSpace in *. simpl in H. by rewrite E in H. }
    exists c. split; [by right | done].
  - exists d. split; [by left | done].
Qed.

Lemma list_ascii_app s t :
  String.list_ascii_of_string (s +:+ t) =
  (String.list_ascii_of_string s ++ String.list_ascii_of_string t)%list.
Proof. induction s as [|c s IH]; [done|]. simpl. by rewrite <- IH. Qed.

Lemma Join_nonblank l :
  l <> [] -> Forall (fun p => p <> "" /\ TrimSpace p = p) l -> TrimSpace (Join l ",") <> "".
Proof.
  intros Hne HF. destruct l as [|p l]; [done|]. inversion HF as [|? ? [Hp Ht] _]; subst.
  destruct (TrimSpace_has_nonblank p) as (c & Hc & Hs); [by rewrite Ht|].
  apply (TrimSpace_nonblank _ c); [|done].
  destruct l as [|q l]; [done|].
  change (In c (String.list_ascii_of_string (p +:+ ("," +:+ Join (q :: l) ",")))).
  rewrite list_ascii_app. apply in_or_app. by left.
Qed.

(** Normalising the joined normal form changes nothing: the label encoding of a
    list round-trips. *)
Lemma normalizeDelegationList_Join raw :
  normalizeDelegationList (Join (normalizeDelegationList raw) ",") = normalizeDelegationList raw.
Proof.
  pose proof (normalizeDelegationList_normal raw) as Hn.
  assert (Forall (sep_free ",") (normalizeDelegationList raw)) as Hc.
  { unfold normalizeDelegationList. case_match; [done|].
    apply normalizeParts_Forall; [apply TrimSpace_sep_free | apply Split_sep_free]. }
  destruct (normalizeDelegationList raw) as [|p l] eqn:E; [done|]. rewrite <- E in *.
  assert (normalizeDelegationList raw <> []) as Hne by (by rewrite E).
  unfold normalizeDelegationList at 1.
  rewrite (proj2 (String.eqb_neq _ _)) by (apply Join_nonblank; [done | apply Hn]).
  rewrite Split_Join by done. apply normalizeParts_id; [done|].
  apply Forall_forall. set_solver.
Qed.

(** What every reconstructed context satisfies. *)
Definition context_wf (d : DelegationContext) : Prop :=
  (0 < dc_Depth d <= int64_max)%Z /\
  normal_list (dc_IssuerChain d) /\ normal_list (dc_Scope d) /\
  (dc_RootIssuer d = "" <-> dc_IssuerChain d = []) /\
  TrimSpace (dc_RootIssuer d) = dc_RootIssuer d /\
  (dc_IssuerChain d <> [] -> dc_ParentIssuer d <> "").

Lemma normal_list_singleton s : s <> "" -> TrimSpace s = s -> normal_list [s].
Proof. intros. split; simpl; [apply NoDup_singleton | by repeat constructor]. Qed.

Lemma last_in {A} (l : list A) d : l <> [] -> List.last l d ∈ l.
Proof.
  induction l as [|x l IH]; [done|]. intros _. destruct l as [|y l]; simpl; [by left|].
  right. by apply IH.
Qed.

(** A delegation context rebuilt from the request labels is well formed: the
    depth is a positive [int], issuer chain and scopes are trimmed, non-empty and
    free of case-insensitive duplicates, the root issuer is present exactly when
    the chain is, and a chain always comes with a parent issuer. *)
Theorem DelegationContextFromLabels_wf labels d :
  DelegationContextFromLabels labels = Some d -> context_wf d.
Proof.
  unfold DelegationContextFromLabels. case_match; [done|].
  destruct (Atoi _) as [depth|] eqn:HA; [|done].
  destruct (Z.leb_spec depth 0); [done|]. intros [= <-].
  pose proof (Atoi_range _ _ HA).
  pose proof (normalizeDelegationList_normal (get_str labels LabelDelegationIssuerChain)) as Hn.
  pose proof (normalizeDelegationList_normal (get_str labels LabelDelegationScope)) as Hsc.
  set (chain0 := normalizeDelegationList (get_str labels LabelDelegationIssuerChain)) in *.
  set (root0 := TrimSpace (get_str labels LabelDelegationIssuer)).
  set (parent0 := TrimSpace (get_str labels LabelDelegationParentIssuer)).
  assert (TrimSpace root0 = root0) as Hr0 by apply TrimSpace_idem.
  unfold context_wf; cbn [dc_Depth dc_IssuerChain dc_Scope dc_RootIssuer dc_ParentIssuer].
  assert (forall l, normal_list l -> l <> [] -> List.last l "" <> "") as Hlast.
  { intros l [_ Hf] Hl. rewrite Forall_forall in Hf. by destruct (Hf _ (last_in l "" Hl)). }
  destruct (String.eqb_spec root0 "") as [E0|E0]; destruct chain0 as [|x l] eqn:Ec;
    cbn [nonempty negb andb hd].
  - rewrite E0. cbn. rewrite andb_false_r. repeat split; (done || lia || apply Hn || apply Hsc).
  - destruct Hn as [Hnd Hf]. pose proof Hf as Hf'. inversion Hf' as [|? ? [Hx Htx] _]; subst.
    cbn [nonempty negb andb]. repeat split; try (done || lia || apply Hsc).
    intros _. destruct (String.eqb_spec parent0 ""); cbn [andb]; [|done].
    apply Hlast; [split; done | done].
  - pose proof (normal_list_singleton root0 E0 Hr0) as [Hs1 Hs2].
    rewrite (eqb_ne _ _ E0). cbn [nonempty negb andb].
    repeat split; try (done || lia || apply Hsc).
    intros _. destruct (String.eqb_spec parent0 ""); cbn [andb]; [|done]. done.
  - destruct Hn as [Hnd Hf]. cbn [nonempty negb andb].
    repeat split; try (done || lia || apply Hsc).
    intros _. destruct (String.eqb_spec parent0 ""); cbn [andb]; [|done].
    apply Hlast; [split; done | done].
Qed.

(** The delegation block of a rule holds exactly when its specification
    does, and every refusal is reported under exactly one registered field. *)
Theorem delegation_match_decides m d :
  ((evaluateDelegationMatch (Some m) d).1 = true <-> delegation_spec m d) /\
  match evaluateDelegationMatch (Some m) d with
  | (true, fields) => fields = []
  | (false, fields) => exists f, fields = [f] /\ f ∈ DelegationMatchDenyFields
  end.
Proof. split; [apply evaluateDelegationMatch_iff | apply evaluateDelegationMatch_report]. Qed.

(** A block with a delegation constraint and no [delegation_required: false]
    refuses a direct (undelegated) call; it is not neutral. *)
Theorem constrained_block_refuses_direct m :
  dm_DelegationRequired m <> Some false -> hasDelegationScopedConstraint (Some m) = true ->
  dm_ForbidDelegated m = false ->
  evaluateDelegationMatch (Some m) None = (false, ["delegation_required"]).
Proof.
  intros Hr Hc Hf. unfold evaluateDelegationMatch. rewrite Hf, Hc.
  by destruct (dm_DelegationRequired m) as [[]|].
Qed.

Lemma parse_print_depth_witness :
  parseDelegationPredicate "delegation.depth<=3" = Ok (PredDepth "<=" 3).
Proof.
  apply (parse_print_depth "<=" 3); [right; left | unfold int64_max; lia].
Defined.

Lemma DelegationContextFromLabels_wf_witness :
  exists d, DelegationContextFromLabels
    {["_delegation.depth" := "2"; "_delegation.issuer_chain" := "root, Mid,mid"]} = Some d /\
    context_wf d.
Proof.
  eexists. split; [vm_compute; reflexivity|].
  apply (DelegationContextFromLabels_wf
    {["_delegation.depth" := "2"; "_delegation.issuer_chain" := "root, Mid,mid"]}).
  vm_compute. reflexivity.
Defined.

Lemma constrained_block_refuses_direct_witness :
  evaluateDelegationMatch (Some (mkDelegationMatch (Some 2%Z) [] "" [] false None)) None
  = (false, ["delegation_required"]).
Proof. apply constrained_block_refuses_direct; [discriminate | reflexivity | reflexivity]. Defined.
