(* ===== verification/SafetyPolicy.v ===== *)
(** * Policy evaluation ([core/infra/config/safety_policy.go])

    Matching of one rule, first-match evaluation of a policy with its default,
    the rules generated from the legacy tenant configuration, MCP allow/deny
    lists, velocity bucket keys, and the validation that follows parsing. *)
From S2P Require Import Prelude.
From S2P Require Import GoStrings.
From S2P Require Import GoPath.
From S2P Require Import PolicyTypes.
From S2P Require Import PolicyNames.
From S2P Require Import DelegationPolicy.
From Stdlib Require Import Ascii.

Open Scope string_scope.

(** ** Topics *)

Definition matchTopic (pattern topic : string) : bool :=
  let pattern := TrimSpace pattern in
  if pattern =s? "" then false else PathMatch pattern topic.

Definition matchAnyTopic (patterns : list string) (topic : string) : bool :=
  existsb (fun pat => matchTopic pat topic) patterns.

(** ** MCP allow and deny lists *)

Definition mcpUsed (req : MCPRequest) : bool :=
  negb (TrimSpace (mr_Server req) =s? "") || negb (TrimSpace (mr_Tool req) =s? "")
  || negb (TrimSpace (mr_Resource req) =s? "") || negb (TrimSpace (mr_Action req) =s? "").

Definition matchMCPField (field value : string) (allow deny : list string) : bool * string :=
  if containsString deny value
  then (false, "mcp " +:+ field +:+ " " +:+ Quote value +:+ " denied")
  else if nonempty allow && negb (containsString allow value)
  then (false, "mcp " +:+ field +:+ " " +:+ Quote value +:+ " not allowed")
  else (true, "").

Definition mcpMatch (policy : MCPPolicy) (req : MCPRequest) : bool :=
  if negb (mcpUsed req) then true
  else if negb (matchMCPField "server" (mr_Server req) (AllowServers policy) (DenyServers policy)).1
  then false
  else if negb (matchMCPField "tool" (mr_Tool req) (AllowTools policy) (DenyTools policy)).1
  then false
  else if negb (matchMCPField "resource" (mr_Resource req) (AllowResources policy) (DenyResources policy)).1
  then false
  else if negb (matchMCPField "action" (mr_Action req) (AllowActions policy) (DenyActions policy)).1
  then false
  else true.

Definition MCPAllowed (policy : MCPPolicy) (req : MCPRequest) : bool * string :=
  if negb (mcpUsed req) then (true, "")
  else
    match matchMCPField "server" (mr_Server req) (AllowServers policy) (DenyServers policy) with
    | (false, reason) => (false, reason)
    | (true, _) =>
    match matchMCPField "tool" (mr_Tool req) (AllowTools policy) (DenyTools policy) with
    | (false, reason) => (false, reason)
    | (true, _) =>
    match matchMCPField "resource" (mr_Resource req) (AllowResources policy) (DenyResources policy) with
    | (false, reason) => (false, reason)
    | (true, _) =>
    match matchMCPField "action" (mr_Action req) (AllowActions policy) (DenyActions policy) with
    | (false, reason) => (false, reason)
    | (true, _) => (true, "")
    end end end end.

(** ** Velocity buckets *)

Inductive PolicyError :=
| ErrSchema (msg : string)
| ErrUnmarshal (msg : string)
| ErrTierInvalid (scope tier : string)
| ErrSelectorRequired (scope tier : string)
| ErrVelocityMaxRequests (ruleID : string) (got : Z)
| ErrVelocityWindow (ruleID : string) (got : Z)
| ErrVelocityKey (ruleID : string)
| ErrRuleDelegation (ruleID : string) (e : DelegationError).

Definition ValidateVelocity (v : option VelocityConfig) (ruleID : string) : option PolicyError :=
  match v with
  | None => None
  | Some v =>
      if (MaxRequests v <=? 0)%Z then Some (ErrVelocityMaxRequests ruleID (MaxRequests v))
      else if (WindowSeconds v <=? 0)%Z then Some (ErrVelocityWindow ruleID (WindowSeconds v))
      else if TrimSpace (v_Key v) =s? "" then Some (ErrVelocityKey ruleID)
      else None
  end.

Definition resolveKeyPart (key : string) (input : PolicyInput) : string :=
  if HasPrefix key "labels." then get_str (Labels input) (TrimPrefix key "labels.")
  else if key =s? "actor_id" then ActorID (Meta input)
  else if key =s? "actor_type" then ActorType (Meta input)
  else if key =s? "tenant" then Tenant input
  else if key =s? "topic" then Topic input
  else if key =s? "pack_id" then PackID (Meta input)
  else if key =s? "capability" then Capability (Meta input)
  else "".

(** The loop over the parts of a compound key; [None] is the early [return ""]. *)
Fixpoint resolveParts (parts : list string) (input : PolicyInput) : option (list string) :=
  match parts with
  | [] => Some []
  | part :: rest =>
      let val := resolveKeyPart (TrimSpace part) input in
      if val =s? "" then None
      else match resolveParts rest input with
           | None => None
           | Some resolved => Some (val :: resolved)
           end
  end.

Definition ResolveKey (v : option VelocityConfig) (input : PolicyInput) : string :=
  match v with
  | None => ""
  | Some v =>
      if v_Key v =s? "" then ""
      else if Contains (v_Key v) ":" then
        match resolveParts (Split (v_Key v) ":") input with
        | None => ""
        | Some resolved => Join resolved ":"
        end
      else resolveKeyPart (v_Key v) input
  end.

(** ** Rules *)

Section Evaluate.
  Context `{GoRuntime} `{FloatParser}.

Definition labelAllowlistMatch (allowlists : gmap string (list string))
    (labels : gmap string string) : bool :=
  existsb (fun '(key, allowed) =>
    match labels !! key with
    | None => false
    | Some actual =>
        let lower := ToLower (TrimSpace actual) in
        negb (existsb (fun v => ToLower (TrimSpace v) =s? lower) allowed)
    end) (range_map allowlists).

(** [parsed > maxVal] is [maxVal < parsed] on IEEE doubles. *)
Definition labelThresholdMatch (thresholds : gmap string spec_float)
    (labels : gmap string string) : bool :=
  existsb (fun '(key, maxVal) =>
    match labels !! key with
    | None => false
    | Some actual =>
        match ParseFloat (TrimSpace actual) with
        | None => false
        | Some parsed => SFltb maxVal parsed
        end
    end) (range_map thresholds).

Definition labelsMatch (required actual : gmap string string) : bool :=
  if negb (map_nonempty required) then true
  else if negb (map_nonempty actual) then false
  else forallb (fun '(k, v) => get_str actual k =s? v) (range_map required).

Definition matchRule (m : PolicyMatch) (input : PolicyInput) : bool :=
  if nonempty (m_Tenants m) && negb (containsString (m_Tenants m) (Tenant input)) then false
  else if nonempty (m_Topics m) && negb (matchAnyTopic (m_Topics m) (Topic input)) then false
  else if nonempty (m_Capabilities m)
          && negb (containsString (m_Capabilities m) (Capability (Meta input))) then false
  else if nonempty (m_RiskTags m)
          && negb (containsAny (m_RiskTags m) (RiskTags (Meta input))) then false
  else if nonempty (m_Requires m)
          && negb (containsAll (Requires (Meta input)) (m_Requires m)) then false
  else if nonempty (m_PackIDs m)
          && negb (containsString (m_PackIDs m) (PackID (Meta input))) then false
  else if nonempty (m_ActorIDs m)
          && negb (containsString (m_ActorIDs m) (ActorID (Meta input))) then false
  else if nonempty (m_ActorTypes m)
          && negb (containsString (m_ActorTypes m) (ActorType (Meta input))) then false
  else if nonempty (m_AgentRiskTiers m)
          && negb (containsString (m_AgentRiskTiers m) (AgentRiskTier (Meta input))) then false
  else if nonempty (m_AgentDataClassifications m)
          && negb (containsAny (m_AgentDataClassifications m)
                     (AgentDataClassifications (Meta input))) then false
  else if (match m_SecretsPresent m with
           | Some b => negb (Bool.eqb (SecretsPresent input) b)
           | None => false
           end) then false
  else if map_nonempty (m_Labels m) && negb (labelsMatch (m_Labels m) (Labels input)) then false
  else if map_nonempty (m_LabelAllowlist m)
          && negb (labelAllowlistMatch (m_LabelAllowlist m) (Labels input)) then false
  else if map_nonempty (m_LabelThreshold m)
          && negb (labelThresholdMatch (m_LabelThreshold m) (Labels input)) then false
  else if negb (delegationPredicateMatch (m_Predicate m) (Delegation input)) then false
  else if negb (evaluateDelegationMatch (m_Delegation m) (Delegation input)).1 then false
  else if negb (mcpMatch (m_MCP m) (in_MCP input)) then false
  else true.

(** ** Rules generated from the tenant lists *)

Definition legacyRule (id decision reason tenant pat : string) (mcp : MCPPolicy) : PolicyRule :=
  {| r_ID := id; r_Tier := ""; r_Selector := empty_selector;
     r_Match := {| m_Tenants := [tenant]; m_Topics := [pat]; m_Capabilities := [];
                   m_RiskTags := []; m_Requires := []; m_PackIDs := []; m_ActorIDs := [];
                   m_ActorTypes := []; m_AgentRiskTiers := [];
                   m_AgentDataClassifications := []; m_Labels := ∅; m_LabelAllowlist := ∅;
                   m_LabelThreshold := ∅; m_SecretsPresent := None; m_Predicate := "";
                   m_Delegation := None; m_MCP := mcp |};
     r_Velocity := None; r_Decision := decision; r_Reason := reason;
     r_Constraints := empty_constraints; r_Remediations := [] |}.

Definition legacyTenantRules (tenant : string) (tp : TenantPolicy) : list PolicyRule :=
  imap (fun idx pat =>
    legacyRule ("legacy:" +:+ tenant +:+ ":deny:" +:+ Itoa (Z.of_nat (idx + 1))) "deny"
      ("topic " +:+ Quote pat +:+ " denied by tenant policy") tenant pat (t_MCP tp))
    (DenyTopics tp)
  ++ imap (fun idx pat =>
    legacyRule ("legacy:" +:+ tenant +:+ ":allow:" +:+ Itoa (Z.of_nat (idx + 1))) "allow"
      "" tenant pat (t_MCP tp))
    (AllowTopics tp).

Definition legacyRules (p : SafetyPolicy) : list PolicyRule :=
  if negb (map_nonempty (Tenants p)) then []
  else concat (map (fun '(tenant, tp) => legacyTenantRules tenant tp) (range_map (Tenants p))).

(** ** Decisions *)

Definition BuildDecision (rule : PolicyRule) : PolicyDecision :=
  let decision := normalizeDecision (r_Decision rule) in
  {| Decision := decision;
     Reason := r_Reason rule;
     RuleID := r_ID rule;
     RuleTier := NormalizePolicyTier (r_Tier rule);
     Constraints := r_Constraints rule;
     ApprovalRequired := decision =s? "require_approval";
     Remediations := r_Remediations rule |}.

Definition default_decision (decision reason tier : string) : PolicyDecision :=
  {| Decision := decision; Reason := reason; RuleID := "";
     RuleTier := NormalizePolicyTier tier; Constraints := empty_constraints;
     ApprovalRequired := false; Remediations := [] |}.

Definition DefaultPolicyDecision (p : SafetyPolicy) : PolicyDecision :=
  let dd := ToLower (TrimSpace (DefaultDecision p)) in
  if (dd =s? "allow") || (dd =s? "permit")
  then default_decision "allow" "no matching rule — default policy: allow" (Tier p)
  else default_decision "deny" "no matching rule — default policy: deny" (Tier p).

Definition EffectiveRules (p : SafetyPolicy) : list PolicyRule :=
  if nonempty (Rules p) then Rules p else legacyRules p.

Fixpoint evaluateRules (rules : list PolicyRule) (input : PolicyInput) : option PolicyDecision :=
  match rules with
  | [] => None
  | rule :: rest =>
      if matchRule (r_Match rule) input then
        let decision := normalizeDecision (r_Decision rule) in
        Some {| Decision := decision;
                Reason := r_Reason rule;
                RuleID := r_ID rule;
                RuleTier := NormalizePolicyTier (r_Tier rule);
                Constraints := r_Constraints rule;
                ApprovalRequired := decision =s? "require_approval";
                Remediations := r_Remediations rule |}
      else evaluateRules rest input
  end.

Definition Evaluate (p : SafetyPolicy) (input : PolicyInput) : PolicyDecision :=
  let rules := if negb (nonempty (Rules p)) then legacyRules p else Rules p in
  match evaluateRules rules input with
  | Some d => d
  | None =>
      let dd := ToLower (TrimSpace (DefaultDecision p)) in
      if (dd =s? "allow") || (dd =s? "permit")
      then default_decision "allow" "no matching rule — default policy: allow" (Tier p)
      else default_decision "deny" "no matching rule — default policy: deny" (Tier p)
  end.
End Evaluate.

(** ** Validation after parsing *)

Definition validatePolicyTierSelector (scope tier : string) (selector : PolicySelector)
    : option PolicyError :=
  let normalized := NormalizePolicyTier tier in
  if negb (IsValidPolicyTier normalized) then Some (ErrTierInvalid scope tier)
  else
    let key := PolicySelectorKey normalized selector in
    if negb (normalized =s? PolicyTierGlobal) && (key =s? "")
    then Some (ErrSelectorRequired scope normalized)
    else None.

(** The tier of a rule, inherited from the document when blank. *)
Definition inherit_tier (doc rule : string) : string :=
  if TrimSpace rule =s? "" then doc else rule.

Definition validateInputRule (policy : SafetyPolicy) (rule : InputPolicyRule) : option PolicyError :=
  validatePolicyTierSelector ("input_rule " +:+ Quote (ir_ID rule))
    (inherit_tier (Tier policy) (ir_Tier rule))
    (MergePolicySelector (Selector policy) (ir_Selector rule)).

Definition validateRule (policy : SafetyPolicy) (rule : PolicyRule) : option PolicyError :=
  match validatePolicyTierSelector ("rule " +:+ Quote (r_ID rule))
          (inherit_tier (Tier policy) (r_Tier rule))
          (MergePolicySelector (Selector policy) (r_Selector rule)) with
  | Some e => Some e
  | None =>
  match ValidateVelocity (r_Velocity rule) (r_ID rule) with
  | Some e => Some e
  | None =>
  match ValidateDelegationMatch (m_Delegation (r_Match rule)) with
  | Some e => Some (ErrRuleDelegation (r_ID rule) e)
  | None =>
  match validateDelegationPredicate (m_Predicate (r_Match rule)) with
  | Some e => Some (ErrRuleDelegation (r_ID rule) e)
  | None => None
  end end end end.

Section Parse.
  (** The JSON-schema check and the YAML decoder are libraries. *)
  Context (validateConfigSchema : string -> option string).
  Context (Unmarshal : string -> result string SafetyPolicy).

Definition ParseSafetyPolicy (data : string) : result PolicyError (option SafetyPolicy) :=
  if data =s? "" then Ok None
  else
    match validateConfigSchema data with
    | Some e => Err (ErrSchema e)
    | None =>
    match Unmarshal data with
    | inl e => Err (ErrUnmarshal e)
    | inr policy =>
    match validatePolicyTierSelector "policy" (Tier policy) (Selector policy) with
    | Some e => Err e
    | None =>
    match find_first (validateInputRule policy) (InputRules policy) with
    | Some e => Err e
    | None =>
    match find_first (validateRule policy) (Rules policy) with
    | Some e => Err e
    | None => Ok (Some policy)
    end end end end end.
End Parse.

(** * Properties *)

(** ** What a match block means *)

(** Membership up to case and surrounding blanks. *)
Definition mem (l : list string) (v : string) : Prop :=
  v <> "" /\ exists w, w ∈ l /\ norm w = norm v.

Definition topic_spec (patterns : list string) (topic : string) : Prop :=
  exists pat, pat ∈ patterns /\ TrimSpace pat <> "" /\ PathMatch (TrimSpace pat) topic = true.

Definition labels_spec (required actual : gmap string string) : Prop :=
  actual <> ∅ /\ forall k v, required !! k = Some v -> get_str actual k = v.

Definition allowlist_spec (allow : gmap string (list string)) (labels : gmap string string) : Prop :=
  exists k allowed v, allow !! k = Some allowed /\ labels !! k = Some v /\
    forall a, a ∈ allowed -> norm a <> norm v.

Definition threshold_spec `{FloatParser} (thr : gmap string spec_float)
    (labels : gmap string string) : Prop :=
  exists k max v x, thr !! k = Some max /\ labels !! k = Some v /\
    ParseFloat (TrimSpace v) = Some x /\ SFltb max x = true.

Definition mcp_field_spec (value : string) (allow deny : list string) : Prop :=
  ~ mem deny value /\ (allow <> [] -> mem allow value).

Definition mcp_spec (p : MCPPolicy) (r : MCPRequest) : Prop :=
  mcpUsed r = true ->
  mcp_field_spec (mr_Server r) (AllowServers p) (DenyServers p) /\
  mcp_field_spec (mr_Tool r) (AllowTools p) (DenyTools p) /\
  mcp_field_spec (mr_Resource r) (AllowResources p) (DenyResources p) /\
  mcp_field_spec (mr_Action r) (AllowActions p) (DenyActions p).

Definition agent_spec (m : PolicyMatch) (me : PolicyMeta) : Prop :=
  (m_Capabilities m <> [] -> mem (m_Capabilities m) (Capability me)) /\
  (m_RiskTags m <> [] -> exists t, t ∈ RiskTags me /\ mem (m_RiskTags m) t) /\
  (forall r, r ∈ m_Requires m -> mem (Requires me) r) /\
  (m_PackIDs m <> [] -> mem (m_PackIDs m) (PackID me)) /\
  (m_ActorIDs m <> [] -> mem (m_ActorIDs m) (ActorID me)) /\
  (m_ActorTypes m <> [] -> mem (m_ActorTypes m) (ActorType me)) /\
  (m_AgentRiskTiers m <> [] -> mem (m_AgentRiskTiers m) (AgentRiskTier me)) /\
  (m_AgentDataClassifications m <> [] ->
     exists c, c ∈ AgentDataClassifications me /\ mem (m_AgentDataClassifications m) c).

(** The dimensions of a match are conjunctive, and an absent one constrains nothing. *)
Definition rule_spec `{FloatParser} (m : PolicyMatch) (i : PolicyInput) : Prop :=
  (m_Tenants m <> [] -> mem (m_Tenants m) (Tenant i)) /\
  (m_Topics m <> [] -> topic_spec (m_Topics m) (Topic i)) /\
  agent_spec m (Meta i) /\
  (forall b, m_SecretsPresent m = Some b -> SecretsPresent i = b) /\
  (m_Labels m <> ∅ -> labels_spec (m_Labels m) (Labels i)) /\
  (m_LabelAllowlist m <> ∅ -> allowlist_spec (m_LabelAllowlist m) (Labels i)) /\
  (m_LabelThreshold m <> ∅ -> threshold_spec (m_LabelThreshold m) (Labels i)) /\
  delegationPredicateMatch (m_Predicate m) (Delegation i) = true /\
  (forall d, m_Delegation m = Some d -> delegation_spec d (Delegation i)) /\
  mcp_spec (m_MCP m) (in_MCP i).

Lemma mem_iff l v : containsString l v = true <-> mem l v.
Proof. apply containsString_iff. Qed.

Lemma mem_any_iff l values :
  containsAny l values = true <-> exists t, t ∈ values /\ mem l t.
Proof. rewrite containsAny_iff. unfold mem. naive_solver. Qed.

Lemma mem_all_iff values required :
  containsAll values required = true <-> forall r, r ∈ required -> mem values r.
Proof. apply containsAll_iff. Qed.

Lemma matchAnyTopic_iff ps t : matchAnyTopic ps t = true <-> topic_spec ps t.
Proof.
  unfold matchAnyTopic, topic_spec. rewrite existsb_elem.
  split; intros (p & Hp & Hm); exists p; (split; [done|]); unfold matchTopic in *;
    destruct (String.eqb_spec (TrimSpace p) ""); naive_solver.
Qed.

Lemma map_nonempty_iff {V} (m : gmap string V) : map_nonempty m = true <-> m <> ∅.
Proof. unfold map_nonempty. rewrite negb_true_iff, bool_decide_eq_false. done. Qed.

Lemma nonempty_iff {A} (l : list A) : nonempty l = true <-> l <> [].
Proof. by destruct l. Qed.

(** A guard [len(x) > 0 && !ok] lets the rule through iff [x] non-empty implies [ok]. *)
Lemma guard_iff (g b : bool) (G P R : Prop) (k : bool) :
  (g = true <-> G) -> (b = true <-> P) -> (k = true <-> R) ->
  ((if g && negb b then false else k) = true <-> (G -> P) /\ R).
Proof. intros HG HP HR. destruct g, b; simpl; rewrite ?HR; naive_solver. Qed.

Lemma test_iff (b k : bool) (P R : Prop) :
  (b = true <-> P) -> (k = true <-> R) ->
  ((if negb b then false else k) = true <-> P /\ R).
Proof. intros HP HR. destruct b; simpl; rewrite ?HR; naive_solver. Qed.

Lemma matchMCPField_iff f v allow deny :
  (matchMCPField f v allow deny).1 = true <-> mcp_field_spec v allow deny.
Proof.
  unfold matchMCPField, mcp_field_spec. rewrite <- !mem_iff, <- nonempty_iff.
  destruct (containsString deny v), (nonempty allow), (containsString allow v); naive_solver.
Qed.

Lemma mcpMatch_iff p r : mcpMatch p r = true <-> mcp_spec p r.
Proof.
  unfold mcpMatch, mcp_spec. destruct (mcpUsed r); simpl; [|naive_solver].
  repeat (rewrite test_iff; [|apply matchMCPField_iff|reflexivity]). naive_solver.
Qed.

(** [mcpMatch] is the verdict of [MCPAllowed]. *)
Lemma mcpMatch_MCPAllowed p r : mcpMatch p r = (MCPAllowed p r).1.
Proof.
  unfold mcpMatch, MCPAllowed. destruct (mcpUsed r); [|done].
  repeat (destruct (matchMCPField _ _ _ _) as [[] ?]; simpl; [|done]). done.
Qed.

(** A refusal always carries a reason, an acceptance never does. *)
Lemma MCPAllowed_reason p r : (MCPAllowed p r).1 = false <-> (MCPAllowed p r).2 <> "".
Proof.
  assert (forall f v a d, (matchMCPField f v a d).1 = false -> (matchMCPField f v a d).2 <> "") as Hf.
  { intros f v a d. unfold matchMCPField. repeat case_match; done. }
  unfold MCPAllowed. destruct (mcpUsed r); [|naive_solver]. simpl.
  repeat match goal with
  | |- context [matchMCPField ?f ?v ?a ?d] =>
      let H := fresh in
      pose proof (Hf f v a d) as H; destruct (matchMCPField f v a d) as [[] ?]; simpl in *;
      [clear H | naive_solver]
  end. naive_solver.
Qed.

Section EvaluateProperties.
  Context `{GoRuntime} `{FloatParser}.
  Implicit Types (p : SafetyPolicy) (i : PolicyInput) (m : PolicyMatch) (r : PolicyRule).

Lemma labelAllowlistMatch_iff a l : labelAllowlistMatch a l = true <-> allowlist_spec a l.
Proof.
  unfold labelAllowlistMatch, allowlist_spec. rewrite existsb_elem. split.
  - intros ([k al] & Hin%elem_of_range_map & Hc). destruct (l !! k) as [v|] eqn:Hl; [|done].
    apply negb_true_iff in Hc. rewrite existsb_elem_false in Hc.
    exists k, al, v. repeat split; [done|done|]. intros x Hx. apply String.eqb_neq, Hc, Hx.
  - intros (k & al & v & Ha & Hl & Hn). exists (k, al). split; [by apply elem_of_range_map|].
    rewrite Hl. apply negb_true_iff, existsb_elem_false. intros x Hx.
    apply String.eqb_neq, Hn, Hx.
Qed.

Lemma labelThresholdMatch_iff t l : labelThresholdMatch t l = true <-> threshold_spec t l.
Proof.
  unfold labelThresholdMatch, threshold_spec. rewrite existsb_elem. split.
  - intros ([k mx] & Hin%elem_of_range_map & Hc). destruct (l !! k) as [v|] eqn:Hl; [|done].
    destruct (ParseFloat (TrimSpace v)) as [x|] eqn:Hx; [|done]. naive_solver.
  - intros (k & mx & v & x & Ht & Hl & Hx & Hlt). exists (k, mx).
    split; [by apply elem_of_range_map|]. by rewrite Hl, Hx.
Qed.

Lemma labelsMatch_iff a l : a <> ∅ -> labelsMatch a l = true <-> labels_spec a l.
Proof.
  intros Ha. unfold labelsMatch, labels_spec. apply map_nonempty_iff in Ha. rewrite Ha. simpl.
  rewrite <- map_nonempty_iff. destruct (map_nonempty l); simpl; [|naive_solver].
  rewrite forallb_elem. split.
  - intros Hf. split; [done|]. intros k v Hk. apply String.eqb_eq.
    apply (Hf (k, v)). by apply elem_of_range_map.
  - intros [_ Hs] [k v] Hin%elem_of_range_map. by apply String.eqb_eq, Hs.
Qed.

Lemma labels_guard_iff a l k (R : Prop) :
  (k = true <-> R) ->
  (if map_nonempty a && negb (labelsMatch a l) then false else k) = true <->
  (a <> ∅ -> labels_spec a l) /\ R.
Proof.
  intros HR. destruct (map_nonempty a) eqn:E; simpl.
  - apply map_nonempty_iff in E. rewrite (test_iff _ _ _ _ (labelsMatch_iff a l E) HR). naive_solver.
  - rewrite HR. assert (a = ∅) as ->; [|naive_solver].
    unfold map_nonempty in E. by apply negb_false_iff, bool_decide_eq_true in E.
Qed.

Lemma delegation_guard_iff m i :
  (evaluateDelegationMatch (m_Delegation m) (Delegation i)).1 = true <->
  (forall d, m_Delegation m = Some d -> delegation_spec d (Delegation i)).
Proof.
  destruct (m_Delegation m) as [d|]; [|naive_solver].
  rewrite evaluateDelegationMatch_iff. naive_solver.
Qed.

Lemma secrets_guard_iff m i k (R : Prop) :
  (k = true <-> R) ->
  (if match m_SecretsPresent m with
      | Some b => negb (Bool.eqb (SecretsPresent i) b) | None => false end
   then false else k) = true <->
  (forall b, m_SecretsPresent m = Some b -> SecretsPresent i = b) /\ R.
Proof.
  intros HR. destruct (m_SecretsPresent m) as [b|]; [|naive_solver].
  destruct (Bool.eqb_spec (SecretsPresent i) b); naive_solver.
Qed.

(** The rule matcher decides the specification, whatever the map order. *)
Lemma matchRule_spec m i : matchRule m i = true <-> rule_spec m i.
Proof.
  unfold matchRule, rule_spec, agent_spec.
  repeat match goal with
  | |- context [if nonempty ?l && negb ?b then false else ?k] =>
      erewrite (guard_iff (nonempty l) b _ _ _ k (nonempty_iff l));
      [|first [apply mem_iff | apply matchAnyTopic_iff | apply mem_any_iff | apply mem_all_iff]
       |reflexivity]
  end.
  rewrite secrets_guard_iff by reflexivity. rewrite labels_guard_iff by reflexivity.
  rewrite (guard_iff _ _ _ _ _ _ (map_nonempty_iff _) (labelAllowlistMatch_iff _ _) (iff_refl _)).
  rewrite (guard_iff _ _ _ _ _ _ (map_nonempty_iff _) (labelThresholdMatch_iff _ _) (iff_refl _)).
  rewrite (test_iff _ _ _ _ (iff_refl _) (iff_refl _)).
  rewrite (test_iff _ _ _ _ (delegation_guard_iff _ _) (iff_refl _)).
  rewrite (test_iff _ _ _ _ (mcpMatch_iff _ _) (iff_refl _)).
  assert (forall l, (m_Requires m <> [] -> forall q, q ∈ m_Requires m -> mem l q) <->
                    (forall q, q ∈ m_Requires m -> mem l q)) as ->.
  { intros l. destruct (m_Requires m); [|naive_solver].
    split; [intros _ q Hq; inversion Hq | done]. }
  tauto.
Qed.

Definition rule_hit i r : option PolicyDecision :=
  if matchRule (r_Match r) i then Some (BuildDecision r) else None.

Lemma evaluateRules_find_first rules i : evaluateRules rules i = find_first (rule_hit i) rules.
Proof.
  induction rules as [|r rules IH]; [done|]. simpl. unfold rule_hit at 1.
  by destruct (matchRule (r_Match r) i).
Qed.

(** [Evaluate] is the composition of the functions that the kernel calls. *)
Lemma Evaluate_compose p i :
  Evaluate p i = default (DefaultPolicyDecision p) (find_first (rule_hit i) (EffectiveRules p)).
Proof.
  unfold Evaluate, EffectiveRules. rewrite evaluateRules_find_first.
  by destruct (nonempty (Rules p)).
Qed.

Lemma rule_hit_some i r d :
  rule_hit i r = Some d <-> rule_spec (r_Match r) i /\ d = BuildDecision r.
Proof.
  unfold rule_hit. rewrite <- matchRule_spec.
  destruct (matchRule (r_Match r) i); naive_solver.
Qed.

Lemma rule_hit_none i r : rule_hit i r = None <-> ~ rule_spec (r_Match r) i.
Proof.
  unfold rule_hit. rewrite <- matchRule_spec.
  destruct (matchRule (r_Match r) i); naive_solver.
Qed.

(** The first matching rule decides; without one, the default does. *)
Lemma Evaluate_cases p i :
  (exists before r after,
     EffectiveRules p = (before ++ r :: after)%list /\
     (forall r', r' ∈ before -> ~ rule_spec (r_Match r') i) /\
     rule_spec (r_Match r) i /\ Evaluate p i = BuildDecision r) \/
  ((forall r, r ∈ EffectiveRules p -> ~ rule_spec (r_Match r) i) /\
   Evaluate p i = DefaultPolicyDecision p).
Proof.
  rewrite Evaluate_compose. destruct (find_first _ _) as [d|] eqn:E; simpl.
  - left. apply find_first_some in E as (l1 & r & l2 & -> & [Hm ->]%rule_hit_some & Hn).
    exists l1, r, l2. split; [done|]. split; [|by split].
    intros r' Hr'. apply rule_hit_none. by apply (proj1 (find_first_none _ _) Hn).
  - right. split; [|done]. intros r Hr. apply rule_hit_none.
    by apply (proj1 (find_first_none _ _) E).
Qed.

Lemma BuildDecision_canonical r :
  Decision (BuildDecision r) ∈ canonical_decisions /\
  ApprovalRequired (BuildDecision r) = (Decision (BuildDecision r) =s? "require_approval").
Proof. split; [apply normalizeDecision_canonical | done]. Qed.

Lemma DefaultPolicyDecision_canonical p :
  Decision (DefaultPolicyDecision p) ∈ canonical_decisions /\
  ApprovalRequired (DefaultPolicyDecision p) = (Decision (DefaultPolicyDecision p) =s? "require_approval").
Proof.
  unfold DefaultPolicyDecision, canonical_decisions. simpl.
  case_match; simpl; (split; [|done]); repeat (first [by left | right]).
Qed.

Definition is_allow (raw : string) : Prop := norm raw = "allow" \/ norm raw = "permit".

Lemma normalizeDecision_allow raw : normalizeDecision raw = "allow" <-> is_allow raw.
Proof.
  unfold normalizeDecision, is_allow, norm.
  repeat case_match; split_bools; try naive_solver;
    match goal with H : _ || _ = true |- _ => apply orb_true_iff in H end;
    rewrite ?String.eqb_eq in *; split; intros; try done; naive_solver.
Qed.

Lemma DefaultPolicyDecision_allow p :
  Decision (DefaultPolicyDecision p) = "allow" <-> is_allow (DefaultDecision p).
Proof.
  unfold DefaultPolicyDecision, is_allow, norm. simpl.
  case_match eqn:E; simpl; split_bools.
  - apply orb_true_iff in E. rewrite !String.eqb_eq in E. tauto.
  - naive_solver.
Qed.

(** ** Legacy tenant lists *)

Lemma legacyRule_match id d reason t pat mcp i :
  matchRule (r_Match (legacyRule id d reason t pat mcp)) i =
  containsString [t] (Tenant i) && matchTopic pat (Topic i) && mcpMatch mcp (in_MCP i).
Proof.
  unfold matchRule, legacyRule; simpl.
  assert (forall V, map_nonempty (∅ : gmap string V) = false) as He.
  { intros V. unfold map_nonempty. by rewrite bool_decide_eq_true_2. }
  rewrite !He; simpl. unfold matchAnyTopic; simpl.
  destruct (containsString [t] (Tenant i)), (matchTopic pat (Topic i)), (mcpMatch _ _); done.
Qed.

Lemma rule_hit_legacy id d reason t pat mcp i :
  option_map Decision (rule_hit i (legacyRule id d reason t pat mcp)) =
  if containsString [t] (Tenant i) && matchTopic pat (Topic i) && mcpMatch mcp (in_MCP i)
  then Some (normalizeDecision d) else None.
Proof. unfold rule_hit. rewrite legacyRule_match. by repeat case_match. Qed.

(** One tenant's patterns: the decision of the first hit is [d] or nothing. *)
Lemma find_first_legacy i t d mcp (f : nat -> string -> string) (g : string -> string) pats :
  option_map Decision
    (find_first (rule_hit i) (imap (fun n pat => legacyRule (f n pat) d (g pat) t pat mcp) pats)) =
  if containsString [t] (Tenant i) && matchAnyTopic pats (Topic i) && mcpMatch mcp (in_MCP i)
  then Some (normalizeDecision d) else None.
Proof.
  revert f. induction pats as [|pat pats IH]; intros f; simpl.
  { by rewrite andb_false_r. }
  pose proof (rule_hit_legacy (f 0 pat) d (g pat) t pat mcp i) as Hh.
  destruct (rule_hit i _) as [dec|] eqn:E; simpl in Hh.
  - simpl. rewrite Hh. destruct (containsString [t] (Tenant i)), (matchTopic pat (Topic i)),
      (mcpMatch mcp (in_MCP i)); simpl in *; try done; by rewrite ?orb_true_r.
  - specialize (IH (fun n => f (S n))).
    assert (imap ((fun n pat => legacyRule (f n pat) d (g pat) t pat mcp) ∘ S) pats =
            imap (fun n pat => legacyRule (f (S n) pat) d (g pat) t pat mcp) pats) as -> by done.
    rewrite IH.
    destruct (containsString [t] (Tenant i)), (matchTopic pat (Topic i)),
      (mcpMatch mcp (in_MCP i)); simpl in *; try done; by rewrite ?andb_false_r.
Qed.

(** What one tenant entry says about a request. *)
Definition legacy_verdict (tp : TenantPolicy) i : option string :=
  if negb (mcpMatch (t_MCP tp) (in_MCP i)) then None
  else if matchAnyTopic (DenyTopics tp) (Topic i) then Some "deny"
  else if matchAnyTopic (AllowTopics tp) (Topic i) then Some "allow"
  else None.

Lemma legacyTenantRules_verdict t tp i :
  option_map Decision (find_first (rule_hit i) (legacyTenantRules t tp)) =
  if containsString [t] (Tenant i) then legacy_verdict tp i else None.
Proof.
  unfold legacyTenantRules, legacy_verdict. rewrite find_first_app.
  match goal with |- context [match ?a with Some _ => _ | None => ?b end] =>
    assert (option_map Decision (match a with Some y => Some y | None => b end) =
            match option_map Decision a with Some y => Some y | None => option_map Decision b end)
    as -> by (by destruct a) end.
  rewrite !(find_first_legacy i t).
  destruct (containsString [t] (Tenant i)), (mcpMatch (t_MCP tp) (in_MCP i)),
    (matchAnyTopic (DenyTopics tp) (Topic i)), (matchAnyTopic (AllowTopics tp) (Topic i)); done.
Qed.

Lemma legacyRules_concat p :
  legacyRules p = concat (map (fun '(t, tp) => legacyTenantRules t tp) (range_map (Tenants p))).
Proof.
  unfold legacyRules. destruct (map_nonempty (Tenants p)) eqn:E; [done|]. simpl.
  unfold map_nonempty in E. apply negb_false_iff, bool_decide_eq_true in E.
  assert (range_map (Tenants p) = []) as ->; [|done].
  apply Permutation_nil_r. by rewrite range_map_perm, E, map_to_list_empty.
Qed.

(** A policy without rules, whose tenant names differ beyond case and
    padding, decides by the tenant's lists the same way under every map order:
    a denied topic is denied even when it is allowed too, then an allowed topic
    is allowed, anything else gets the default, and so does a request that the
    tenant's MCP lists refuse. *)
Theorem legacy_Evaluate p i t tp :
  Rules p = [] -> Tenants p !! t = Some tp -> Tenant i <> "" -> norm t = norm (Tenant i) ->
  (forall t' tp', Tenants p !! t' = Some tp' -> norm t' = norm t -> t' = t) ->
  Decision (Evaluate p i) = default (Decision (DefaultPolicyDecision p)) (legacy_verdict tp i).
Proof.
  intros Hr Ht Hne Hn Huniq. rewrite Evaluate_compose. unfold EffectiveRules. rewrite Hr. simpl.
  rewrite legacyRules_concat.
  rewrite (find_first_concat_unique _ _ _ (t, tp)).
  - pose proof (legacyTenantRules_verdict t tp i) as Hv.
    rewrite (proj2 (containsString_iff [t] (Tenant i))) in Hv
      by (split; [done|]; exists t; split; [by left | done]).
    destruct (find_first _ _); simpl in *; by rewrite <- Hv.
  - by apply elem_of_range_map.
  - intros [t' tp'] Hin%elem_of_range_map.
    destruct (String.eqb_spec (norm t') (norm t)) as [E|E].
    { left. specialize (Huniq _ _ Hin E). congruence. }
    right. pose proof (legacyTenantRules_verdict t' tp' i) as Hv.
    destruct (containsString [t'] (Tenant i)) eqn:Ec.
    { apply containsString_singleton in Ec. congruence. }
    by destruct (find_first _ _).
Qed.
End EvaluateProperties.

(** ** Velocity buckets *)

Lemma resolveParts_values parts i vs :
  resolveParts parts i = Some vs ->
  vs = map (fun part => resolveKeyPart (TrimSpace part) i) parts /\ Forall (fun v => v <> "") vs.
Proof.
  revert vs. induction parts as [|part parts IH]; intros vs; simpl.
  { intros [= <-]. done. }
  destruct (String.eqb_spec (resolveKeyPart (TrimSpace part) i) ""); [done|].
  destruct (resolveParts parts i) as [ws|]; [|done]. intros [= <-].
  destruct (IH ws eq_refl) as [-> HF]. split; [done|]. by constructor.
Qed.

Lemma Join_nonempty l sep : l <> [] -> Forall (fun v => v <> "") l -> Join l sep <> "".
Proof.
  intros Hne HF. destruct l as [|s [|t l]]; [done|by inversion HF|].
  inversion HF; subst. simpl. by destruct s.
Qed.

(** A compound bucket key is produced only from non-empty parts. *)
Lemma ResolveKey_compound v i :
  Contains (v_Key v) ":" = true -> ResolveKey (Some v) i <> "" ->
  let vs := map (fun part => resolveKeyPart (TrimSpace part) i) (Split (v_Key v) ":") in
  ResolveKey (Some v) i = Join vs ":" /\ Forall (fun x => x <> "") vs.
Proof.
  intros Hc. unfold ResolveKey. rewrite Hc.
  destruct (String.eqb_spec (v_Key v) ""); [done|].
  destruct (resolveParts _ i) as [vs|] eqn:E; [|done]. intros _.
  apply resolveParts_values in E as [-> HF]. done.
Qed.

(** Two requests share a compound velocity bucket only when they agree on
    every part of the key, provided no part value contains the separator. *)
Theorem ResolveKey_inj v i1 i2 :
  Contains (v_Key v) ":" = true ->
  (forall part i, part ∈ Split (v_Key v) ":" -> i = i1 \/ i = i2 ->
     sep_free ":" (resolveKeyPart (TrimSpace part) i)) ->
  ResolveKey (Some v) i1 <> "" -> ResolveKey (Some v) i1 = ResolveKey (Some v) i2 ->
  forall part, part ∈ Split (v_Key v) ":" ->
    resolveKeyPart (TrimSpace part) i1 = resolveKeyPart (TrimSpace part) i2.
Proof.
  intros Hc Hfree Hne Heq part Hin.
  destruct (ResolveKey_compound v i1 Hc Hne) as [H1 _].
  destruct (ResolveKey_compound v i2 Hc) as [H2 _]; [congruence|].
  rewrite H1, H2 in Heq. apply (f_equal (fun s => Split s ":")) in Heq.
  rewrite !Split_Join in Heq; try (intros E%fmap_nil_inv; by apply Split_nonempty in E).
  - apply list_elem_of_lookup_1 in Hin as [n Hn].
    apply (f_equal (fun l : list string => l !! n)) in Heq.
    change (@map string string) with (@fmap list _ string string) in Heq.
    rewrite !list_lookup_fmap, Hn in Heq. by injection Heq.
  - apply Forall_forall. intros x (p & -> & Hp)%list_elem_of_fmap. apply Hfree; tauto.
  - apply Forall_forall. intros x (p & -> & Hp)%list_elem_of_fmap. apply Hfree; tauto.
Qed.

(** ** Validated policies *)

Definition delegation_wf (m : DelegationMatch) : Prop :=
  (forall d, dm_MaxDepth m = Some d -> (0 <= d)%Z) /\
  NoDup (map TrimSpace (dm_Issuers m)) /\
  Forall (fun id => agentIDRegex (TrimSpace id) = true) (dm_Issuers m) /\
  (TrimSpace (dm_RequireIssuer m) = "" \/ agentIDRegex (TrimSpace (dm_RequireIssuer m)) = true) /\
  Forall (fun s => TrimSpace s <> "") (dm_RequiredScope m).

Definition tier_wf (tier : string) (sel : PolicySelector) : Prop :=
  let t := NormalizePolicyTier tier in
  t ∈ [PolicyTierGlobal; PolicyTierWorkflow; PolicyTierJob] /\
  (t <> PolicyTierGlobal -> PolicySelectorKey t sel <> "").

Definition velocity_wf (v : VelocityConfig) : Prop :=
  (0 < MaxRequests v)%Z /\ (0 < WindowSeconds v)%Z /\ TrimSpace (v_Key v) <> "".

Definition rule_wf (p : SafetyPolicy) (r : PolicyRule) : Prop :=
  tier_wf (inherit_tier (Tier p) (r_Tier r)) (MergePolicySelector (Selector p) (r_Selector r)) /\
  (forall v, r_Velocity r = Some v -> velocity_wf v) /\
  (forall m, m_Delegation (r_Match r) = Some m -> delegation_wf m) /\
  (TrimSpace (m_Predicate (r_Match r)) <> "" ->
     exists q, parseDelegationPredicate (m_Predicate (r_Match r)) = Ok q).

Definition policy_wf (p : SafetyPolicy) : Prop :=
  tier_wf (Tier p) (Selector p) /\
  (forall r, r ∈ InputRules p -> tier_wf (inherit_tier (Tier p) (ir_Tier r))
     (MergePolicySelector (Selector p) (ir_Selector r))) /\
  (forall r, r ∈ Rules p -> rule_wf p r).

Lemma validateIssuers_ok l seen :
  validateIssuers l seen = None ->
  NoDup (map TrimSpace l) /\ Forall (fun id => agentIDRegex (TrimSpace id) = true) l /\
  Forall (fun id => TrimSpace id ∉ seen) l.
Proof.
  revert seen. induction l as [|id l IH]; intros seen; simpl.
  { intros _. repeat split; constructor. }
  case_match; [done|]. destruct (agentIDRegex _) eqn:Er; [|done]. simpl.
  case_bool_decide as Hs; [done|]. intros (Hd & Hf & Hn)%IH. repeat split.
  - constructor; [|done]. intros (q & Hq & Hin)%list_elem_of_fmap.
    rewrite Forall_forall in Hn. specialize (Hn q Hin). set_solver.
  - by constructor.
  - constructor; [done|]. eapply Forall_impl; [exact Hn|]. set_solver.
Qed.

Lemma ValidateDelegationMatch_ok m : ValidateDelegationMatch (Some m) = None -> delegation_wf m.
Proof.
  unfold ValidateDelegationMatch, delegation_wf.
  destruct (match dm_MaxDepth m with Some d => (d <? 0)%Z | None => false end) eqn:Ed; [done|].
  destruct (validateIssuers _ _) eqn:Ei; [done|].
  apply validateIssuers_ok in Ei as (Hd & Hf & _).
  destruct (negb _ && _) eqn:Er; [done|]. destruct (existsb _ _) eqn:Es; [done|]. intros _.
  repeat split; [|done|done| |].
  - intros d Hm. rewrite Hm in Ed. by apply Z.ltb_ge in Ed.
  - destruct (String.eqb_spec (TrimSpace (dm_RequireIssuer m)) ""); [by left|]. right.
    simpl in Er. by split_bools.
  - apply Forall_forall. intros s Hs. rewrite existsb_elem_false in Es.
    by apply String.eqb_neq, Es.
Qed.

Lemma validatePolicyTierSelector_ok scope tier sel :
  validatePolicyTierSelector scope tier sel = None -> tier_wf tier sel.
Proof.
  unfold validatePolicyTierSelector, tier_wf, IsValidPolicyTier. rewrite NormalizePolicyTier_idem.
  set (t := NormalizePolicyTier tier). intros Hv.
  destruct (_ || _ || _) eqn:Et; simpl in Hv; [|done].
  split.
  - rewrite !orb_true_iff, !String.eqb_eq in Et. set_solver.
  - intros Hg. apply eqb_ne in Hg. rewrite Hg in Hv. simpl in Hv.
    destruct (String.eqb_spec (PolicySelectorKey t sel) ""); done.
Qed.

Lemma validateRule_ok p r : validateRule p r = None -> rule_wf p r.
Proof.
  unfold validateRule, rule_wf.
  destruct (validatePolicyTierSelector _ _ _) eqn:Et; [done|].
  destruct (ValidateVelocity _ _) eqn:Ev; [done|].
  destruct (ValidateDelegationMatch _) eqn:Ed; [done|].
  destruct (validateDelegationPredicate _) eqn:Ep; [done|]. intros _.
  split; [by eapply validatePolicyTierSelector_ok|]. split; [|split].
  - intros v Hv. unfold ValidateVelocity in Ev. rewrite Hv in Ev. unfold velocity_wf.
    destruct (Z.leb_spec (MaxRequests v) 0); [done|].
    destruct (Z.leb_spec (WindowSeconds v) 0); [done|].
    destruct (String.eqb_spec (TrimSpace (v_Key v)) ""); done.
  - intros m Hm. rewrite Hm in Ed. by apply ValidateDelegationMatch_ok.
  - by apply validated_predicate_parses.
Qed.

(** C40: a document that [ParseSafetyPolicy] accepts is the decoded document and
    is well formed: every tier is known and has its selector key, every velocity
    block has positive bounds and a key, every delegation block is valid, and
    every predicate parses. *)
Theorem ParseSafetyPolicy_wf schema unmarshal data p :
  ParseSafetyPolicy schema unmarshal data = Ok (Some p) ->
  unmarshal data = Ok p /\ policy_wf p.
Proof.
  unfold ParseSafetyPolicy. case_match; [done|]. case_match; [done|].
  destruct (unmarshal data) as [|q]; [done|].
  destruct (validatePolicyTierSelector _ _ _) eqn:Et; [done|].
  destruct (find_first (validateInputRule q) _) eqn:Ei; [done|].
  destruct (find_first (validateRule q) _) eqn:Er; [done|]. intros [= <-].
  rewrite find_first_none in Ei. rewrite find_first_none in Er. split; [done|]. split; [|split].
  - by eapply validatePolicyTierSelector_ok.
  - intros r Hr. eapply validatePolicyTierSelector_ok, Ei, Hr.
  - intros r Hr. by apply validateRule_ok, Er.
Qed.

(** * Claims *)

(** Evaluation is first-match.  Either some rule of the effective list
    satisfies the match specification, none before it does, and the decision is
    built from it; or no rule does and the decision is the policy's default. *)
Theorem evaluate_first_match `{GoRuntime} `{FloatParser} (p : SafetyPolicy) (i : PolicyInput) :
  (exists before r after,
     EffectiveRules p = (before ++ r :: after)%list /\
     (forall r', r' ∈ before -> ~ rule_spec (r_Match r') i) /\
     rule_spec (r_Match r) i /\ Evaluate p i = BuildDecision r) \/
  ((forall r, r ∈ EffectiveRules p -> ~ rule_spec (r_Match r) i) /\
   Evaluate p i = DefaultPolicyDecision p).
Proof. apply Evaluate_cases. Qed.

(** Evaluation is fail-closed.  The decision is one of the five canonical
    ones, approval is required exactly for [require_approval], and [allow] comes
    only from a matching rule that says so, or from a default that says so when
    no rule matches; a misspelt decision never allows. *)
Theorem evaluate_fail_closed `{GoRuntime} `{FloatParser} (p : SafetyPolicy) (i : PolicyInput) :
  let d := Evaluate p i in
  Decision d ∈ canonical_decisions /\
  ApprovalRequired d = (Decision d =s? "require_approval") /\
  (Decision d = "allow" <->
     (exists before r after,
        EffectiveRules p = (before ++ r :: after)%list /\
        (forall r', r' ∈ before -> ~ rule_spec (r_Match r') i) /\
        rule_spec (r_Match r) i /\ is_allow (r_Decision r)) \/
     ((forall r, r ∈ EffectiveRules p -> ~ rule_spec (r_Match r) i) /\
      is_allow (DefaultDecision p))).
Proof.
  simpl. destruct (Evaluate_cases p i) as [(b & r & a & Hl & Hb & Hm & ->) | [Hn ->]].
  - destruct (BuildDecision_canonical r) as [Hc Ha]. split; [done|]. split; [done|].
    change (Decision (BuildDecision r)) with (normalizeDecision (r_Decision r)).
    rewrite normalizeDecision_allow. split.
    + intros Hal. left. by exists b, r, a.
    + intros [(b' & r' & a' & Hl' & Hb' & Hm' & Hal)|[Hn _]].
      * by destruct (first_unique _ _ _ _ _ _ _ (eq_trans (eq_sym Hl) Hl') Hb Hm Hb' Hm') as [-> ->].
      * exfalso. apply (Hn r); [|done]. rewrite Hl. set_solver.
  - destruct (DefaultPolicyDecision_canonical p) as [Hc Ha]. split; [done|]. split; [done|].
    rewrite DefaultPolicyDecision_allow. split; [auto|].
    intros [(b & r & a & Hl & _ & Hm & _)|[_ ?]]; [|done].
    exfalso. apply (Hn r); [|done]. rewrite Hl. set_solver.
Qed.

(** C36: the rule matcher decides its specification, the conjunction of the
    dimensions the rule sets, whatever order the runtime visits maps in. *)
Theorem matchRule_decides `{FloatParser} (rt : GoRuntime) (m : PolicyMatch) (i : PolicyInput) :
  (@matchRule rt _ m i = true <-> rule_spec m i) /\
  @matchRule rt _ m i = @matchRule fwd_runtime _ m i.
Proof.
  split; [apply matchRule_spec|]. apply Bool.eq_iff_eq_true. by rewrite !matchRule_spec.
Qed.

(** ** Witnesses *)

Definition wit_parser : FloatParser := fun _ => None.

Definition wit_input (tenant topic : string) : PolicyInput :=
  {| Tenant := tenant; Topic := topic; Labels := ∅; Meta := empty_meta;
     SecretsPresent := false; in_MCP := empty_mcp_request; Delegation := None; Action := None |}.

Definition wit_tenant (allow deny : list string) : TenantPolicy :=
  mkTenantPolicy allow deny [] [] 0 empty_mcp.

Definition wit_legacy : SafetyPolicy :=
  {| Version := ""; Tier := ""; Selector := empty_selector; Rules := [];
     InputPolicy := mkInputPolicyConfig false "" 0; InputRules := [];
     RequireHuman := zero_threshold; OutputPolicy := mkOutputPolicyConfig false "";
     OutputRules := []; DefaultTenant := ""; DefaultDecision := "";
     Tenants := {["acme" := wit_tenant ["job.*"] ["job.rm"]]}; TierDefaults := [] |}.

Lemma legacy_Evaluate_witness :
  Decision (@Evaluate fwd_runtime wit_parser wit_legacy (wit_input "ACME" "job.rm")) = "deny".
Proof.
  apply (@legacy_Evaluate fwd_runtime wit_parser wit_legacy (wit_input "ACME" "job.rm") "acme"
           (wit_tenant ["job.*"] ["job.rm"])); [done|done|done|reflexivity|].
  intros t' tp' Hl _. unfold wit_legacy in Hl; cbn [Tenants] in Hl.
  by apply lookup_singleton_Some in Hl as [<- _].
Defined.

Definition wit_velocity : VelocityConfig := mkVelocityConfig 5 60 "tenant:topic".

Lemma ResolveKey_inj_witness :
  ResolveKey (Some wit_velocity) (wit_input "t1" "job.a") = "t1:job.a" /\
  resolveKeyPart "tenant" (wit_input "t1" "job.a") = resolveKeyPart "tenant" (wit_input "t1" "job.a").
Proof.
  split; [reflexivity|].
  apply (ResolveKey_inj wit_velocity (wit_input "t1" "job.a") (wit_input "t1" "job.a"))
    with (part := "tenant").
  - reflexivity.
  - intros part i [->|[->|Hn]%elem_of_cons]%elem_of_cons [-> | ->]; try (by inversion Hn);
      vm_compute; intuition discriminate.
  - discriminate.
  - reflexivity.
  - left.
Defined.

Lemma ParseSafetyPolicy_wf_witness :
  ParseSafetyPolicy (fun _ => None) (fun _ => Ok wit_legacy) "tenants: {}" = Ok (Some wit_legacy)
  /\ policy_wf wit_legacy.
Proof.
  assert (ParseSafetyPolicy (fun _ => None) (fun _ => Ok wit_legacy) "tenants: {}"
          = Ok (Some wit_legacy)) as H by reflexivity.
  split; [exact H | exact (proj2 (ParseSafetyPolicy_wf _ _ _ _ H))].
Defined.

(** ** Tenant names that differ only in case

    The generated rules compare tenants case-insensitively but keep one block
    per map entry, so two entries that differ in case compete by map order. *)

Definition wit_case_clash : SafetyPolicy :=
  {| Version := ""; Tier := ""; Selector := empty_selector; Rules := [];
     InputPolicy := mkInputPolicyConfig false "" 0; InputRules := [];
     RequireHuman := zero_threshold; OutputPolicy := mkOutputPolicyConfig false "";
     OutputRules := []; DefaultTenant := ""; DefaultDecision := "";
     Tenants := {["acme" := wit_tenant ["job.a"] []; "Acme" := wit_tenant [] ["job.a"]]};
     TierDefaults := [] |}.

(** With two tenant entries that differ only in case, the decision for one
    request depends on the map iteration order: one order allows what the other
    denies, so the uniqueness condition of the legacy theorem is needed. *)
Theorem legacy_case_clash :
  let i := wit_input "acme" "job.a" in
  Decision (@Evaluate fwd_runtime wit_parser wit_case_clash i) <>
  Decision (@Evaluate rev_runtime wit_parser wit_case_clash i).
Proof. vm_compute. discriminate. Qed.
