(* ===== verification/PolicyMerge.v ===== *)
(** * Merging policy bundles ([core/infra/config/policy_merge.go])

    Cloning with tier normalisation, and the merge of one fragment into a base
    policy that the safety kernel's loader and the gateway's bundle compiler
    share.  A deep copy is the identity on values; where the Go code rebuilds a
    struct field by field, the definition does too. *)
From S2P Require Import Prelude.
From S2P Require Import GoStrings.
From S2P Require Import PolicyTypes.
From S2P Require Import PolicyNames.
From S2P Require Import SafetyPolicy.

Open Scope string_scope.

(** ** Cloning *)

Definition cloneMCPPolicy (policy : MCPPolicy) : MCPPolicy :=
  {| AllowServers := AllowServers policy; DenyServers := DenyServers policy;
     AllowTools := AllowTools policy; DenyTools := DenyTools policy;
     AllowResources := AllowResources policy; DenyResources := DenyResources policy;
     AllowActions := AllowActions policy; DenyActions := DenyActions policy;
     GatewayEnabled := false; UpstreamServers := []; AllowedUpstreams := [] |}.

Definition cloneDelegationMatch (match_ : option DelegationMatch) : option DelegationMatch :=
  match match_ with
  | None => None
  | Some m =>
      Some {| dm_MaxDepth := dm_MaxDepth m; dm_Issuers := dm_Issuers m;
              dm_RequireIssuer := dm_RequireIssuer m; dm_RequiredScope := dm_RequiredScope m;
              dm_ForbidDelegated := dm_ForbidDelegated m;
              dm_DelegationRequired := dm_DelegationRequired m |}
  end.

Definition clonePolicyMatch (m : PolicyMatch) : PolicyMatch :=
  {| m_Tenants := m_Tenants m; m_Topics := m_Topics m; m_Capabilities := m_Capabilities m;
     m_RiskTags := m_RiskTags m; m_Requires := m_Requires m; m_PackIDs := m_PackIDs m;
     m_ActorIDs := m_ActorIDs m; m_ActorTypes := m_ActorTypes m;
     m_AgentRiskTiers := m_AgentRiskTiers m;
     m_AgentDataClassifications := m_AgentDataClassifications m;
     m_Labels := m_Labels m; m_LabelAllowlist := m_LabelAllowlist m;
     m_LabelThreshold := m_LabelThreshold m; m_SecretsPresent := m_SecretsPresent m;
     m_Predicate := m_Predicate m; m_Delegation := cloneDelegationMatch (m_Delegation m);
     m_MCP := cloneMCPPolicy (m_MCP m) |}.

Definition clonePolicyConstraints (c : PolicyConstraints) : PolicyConstraints :=
  {| Budgets := Budgets c;
     Sandbox := {| Isolated := Isolated (Sandbox c);
                   NetworkAllowlist := NetworkAllowlist (Sandbox c);
                   FsReadOnly := FsReadOnly (Sandbox c);
                   FsReadWrite := FsReadWrite (Sandbox c) |};
     Toolchain := {| AllowedTools := AllowedTools (Toolchain c);
                     AllowedCommands := AllowedCommands (Toolchain c) |};
     Diff := {| MaxFiles := MaxFiles (Diff c); MaxLines := MaxLines (Diff c);
                DenyPathGlobs := DenyPathGlobs (Diff c) |};
     RedactionLevel := RedactionLevel c |}.

Definition clonePolicyRemediations (l : list PolicyRemediation) : list PolicyRemediation :=
  map (fun r => {| rem_ID := rem_ID r; rem_Title := rem_Title r; rem_Summary := rem_Summary r;
                   rem_ReplacementTopic := rem_ReplacementTopic r;
                   rem_ReplacementCapability := rem_ReplacementCapability r;
                   rem_AddLabels := rem_AddLabels r;
                   rem_RemoveLabels := rem_RemoveLabels r |}) l.

Definition ClonePolicyRule (rule : PolicyRule) : PolicyRule :=
  {| r_ID := TrimSpace (r_ID rule);
     r_Tier := TrimSpace (r_Tier rule);
     r_Selector := TrimPolicySelector (r_Selector rule);
     r_Match := clonePolicyMatch (r_Match rule);
     r_Velocity := r_Velocity rule;
     r_Decision := TrimSpace (r_Decision rule);
     r_Reason := r_Reason rule;
     r_Constraints := clonePolicyConstraints (r_Constraints rule);
     r_Remediations := clonePolicyRemediations (r_Remediations rule) |}.

Definition ClonePolicyRules (rules : list PolicyRule) : list PolicyRule :=
  map ClonePolicyRule rules.

Definition CloneOutputPolicyRule (rule : OutputPolicyRule) : OutputPolicyRule :=
  let m := or_Match rule in
  {| or_ID := TrimSpace (or_ID rule);
     or_Enabled := or_Enabled rule;
     or_Severity := TrimSpace (or_Severity rule);
     or_Desc := or_Desc rule;
     or_Match := {| om_Tenants := om_Tenants m; om_Topics := om_Topics m;
                    om_Capabilities := om_Capabilities m; om_RiskTags := om_RiskTags m;
                    om_Scanners := om_Scanners m; om_ContentPatterns := om_ContentPatterns m;
                    om_Keywords := om_Keywords m; om_ContentTypes := om_ContentTypes m;
                    om_Detectors := om_Detectors m; om_OutputSizeGt := om_OutputSizeGt m;
                    om_MaxOutputBytes := om_MaxOutputBytes m; om_HasError := om_HasError m |};
     or_Decision := TrimSpace (or_Decision rule);
     or_Reason := or_Reason rule |}.

Definition CloneOutputPolicyRules (rules : list OutputPolicyRule) : list OutputPolicyRule :=
  map CloneOutputPolicyRule rules.

Definition ClonePolicyTierDefaults (defaults : list PolicyTierDefault) : list PolicyTierDefault :=
  map (fun d => {| td_Tier := TrimSpace (td_Tier d);
                   td_Selector := TrimPolicySelector (td_Selector d);
                   td_Decision := TrimSpace (td_Decision d) |}) defaults.

Definition CloneTenantPolicy (policy : TenantPolicy) : TenantPolicy :=
  {| AllowTopics := AllowTopics policy; DenyTopics := DenyTopics policy;
     AllowedRepoHosts := AllowedRepoHosts policy; DeniedRepoHosts := DeniedRepoHosts policy;
     MaxConcurrent := MaxConcurrent policy; t_MCP := cloneMCPPolicy (t_MCP policy) |}.

(** ** Tier metadata *)

Definition moveScopedDefaultDecision (p : SafetyPolicy) : SafetyPolicy :=
  let decision := TrimSpace (DefaultDecision p) in
  if (decision =s? "") || (Tier p =s? PolicyTierGlobal) then
    {| Version := Version p; Tier := Tier p; Selector := Selector p; Rules := Rules p;
       InputPolicy := InputPolicy p; InputRules := InputRules p; RequireHuman := RequireHuman p;
       OutputPolicy := OutputPolicy p; OutputRules := OutputRules p;
       DefaultTenant := DefaultTenant p; DefaultDecision := decision; Tenants := Tenants p;
       TierDefaults := TierDefaults p |}
  else
    {| Version := Version p; Tier := Tier p; Selector := Selector p; Rules := Rules p;
       InputPolicy := InputPolicy p; InputRules := InputRules p; RequireHuman := RequireHuman p;
       OutputPolicy := OutputPolicy p; OutputRules := OutputRules p;
       DefaultTenant := DefaultTenant p; DefaultDecision := ""; Tenants := Tenants p;
       TierDefaults := (TierDefaults p ++ [mkPolicyTierDefault (Tier p) (Selector p) decision])%list |}.

Definition normalizeTierDefault (def : PolicyTierDefault) : option PolicyTierDefault :=
  let decision := TrimSpace (td_Decision def) in
  let tier := NormalizePolicyTier (td_Tier def) in
  if (decision =s? "") || (tier =s? PolicyTierGlobal) then None
  else Some {| td_Tier := tier; td_Selector := TrimPolicySelector (td_Selector def);
               td_Decision := decision |}.

(** The loop of [normalizeTierDefaults]. *)
Definition normalizeTierDefaults (defaults : list PolicyTierDefault) : list PolicyTierDefault :=
  omap normalizeTierDefault defaults.

(** The tier and selector that a rule of the document inherits. *)
Definition inheritTier (docTier ruleTier : string) : string :=
  NormalizePolicyTier (if TrimSpace ruleTier =s? "" then docTier else ruleTier).

Definition inheritSelector (docTier : string) (docSel : PolicySelector) (ruleTier : string)
    (ruleSel : PolicySelector) : PolicySelector :=
  if inheritTier docTier ruleTier =s? PolicyTierGlobal then empty_selector
  else MergePolicySelector docSel ruleSel.

Definition applyRuleTier (docTier : string) (docSel : PolicySelector) (rule : PolicyRule) : PolicyRule :=
  {| r_ID := r_ID rule;
     r_Tier := inheritTier docTier (r_Tier rule);
     r_Selector := inheritSelector docTier docSel (r_Tier rule) (r_Selector rule);
     r_Match := r_Match rule; r_Velocity := r_Velocity rule; r_Decision := r_Decision rule;
     r_Reason := r_Reason rule; r_Constraints := r_Constraints rule;
     r_Remediations := r_Remediations rule |}.

Definition applyInputRuleTier (docTier : string) (docSel : PolicySelector) (rule : InputPolicyRule)
    : InputPolicyRule :=
  {| ir_ID := ir_ID rule;
     ir_Tier := inheritTier docTier (ir_Tier rule);
     ir_Selector := inheritSelector docTier docSel (ir_Tier rule) (ir_Selector rule);
     ir_Enabled := ir_Enabled rule; ir_Severity := ir_Severity rule; ir_Desc := ir_Desc rule;
     ir_Match := ir_Match rule; ir_Decision := ir_Decision rule; ir_Reason := ir_Reason rule |}.

Definition applyPolicyTierMetadata (p : SafetyPolicy) : SafetyPolicy :=
  let tier := NormalizePolicyTier (Tier p) in
  let sel := TrimPolicySelector (Selector p) in
  let p := moveScopedDefaultDecision
    {| Version := Version p; Tier := tier; Selector := sel; Rules := Rules p;
       InputPolicy := InputPolicy p; InputRules := InputRules p; RequireHuman := RequireHuman p;
       OutputPolicy := OutputPolicy p; OutputRules := OutputRules p;
       DefaultTenant := DefaultTenant p; DefaultDecision := DefaultDecision p;
       Tenants := Tenants p; TierDefaults := TierDefaults p |} in
  {| Version := Version p; Tier := Tier p;
     Selector := if Tier p =s? PolicyTierGlobal then empty_selector else Selector p;
     Rules := map (applyRuleTier (Tier p) (Selector p)) (Rules p);
     InputPolicy := InputPolicy p;
     InputRules := map (applyInputRuleTier (Tier p) (Selector p)) (InputRules p);
     RequireHuman := RequireHuman p; OutputPolicy := OutputPolicy p; OutputRules := OutputRules p;
     DefaultTenant := DefaultTenant p; DefaultDecision := DefaultDecision p; Tenants := Tenants p;
     TierDefaults := normalizeTierDefaults (TierDefaults p) |}.

(** ** Merging *)

(** [seen], the index of the last base rule with each non-empty id. *)
Fixpoint seenIndex {T} (id : T -> string) (i : nat) (base : list T) (seen : gmap string nat)
    : gmap string nat :=
  match base with
  | [] => seen
  | r :: rest =>
      seenIndex id (S i) rest (if negb (id r =s? "") then <[id r := i]> seen else seen)
  end.

Fixpoint mergeLoop {T} (id : T -> string) (base : list T) (seen : gmap string nat) (add : list T)
    : list T :=
  match add with
  | [] => base
  | r :: rest =>
      if negb (id r =s? "") then
        match seen !! id r with
        | Some idx => mergeLoop id (<[idx := r]> base) seen rest
        | None => mergeLoop id (base ++ [r])%list (<[id r := length base]> seen) rest
        end
      else mergeLoop id (base ++ [r])%list seen rest
  end.

Definition MergeRulesByID {T} (base add : list T) (id : T -> string) : list T :=
  if negb (nonempty add) then base
  else mergeLoop id base (seenIndex id 0 base ∅) add.

Definition MergeMCPPolicy (base extra : MCPPolicy) : MCPPolicy :=
  {| AllowServers := (AllowServers base ++ AllowServers extra)%list;
     DenyServers := (DenyServers base ++ DenyServers extra)%list;
     AllowTools := (AllowTools base ++ AllowTools extra)%list;
     DenyTools := (DenyTools base ++ DenyTools extra)%list;
     AllowResources := (AllowResources base ++ AllowResources extra)%list;
     DenyResources := (DenyResources base ++ DenyResources extra)%list;
     AllowActions := (AllowActions base ++ AllowActions extra)%list;
     DenyActions := (DenyActions base ++ DenyActions extra)%list;
     GatewayEnabled := false; UpstreamServers := []; AllowedUpstreams := [] |}.

(** The body of the second loop of [MergeTenantPolicies]. *)
Definition mergeTenant (current : option TenantPolicy) (add : TenantPolicy) : TenantPolicy :=
  match current with
  | None => CloneTenantPolicy add
  | Some merged =>
      {| AllowTopics := (AllowTopics merged ++ AllowTopics add)%list;
         DenyTopics := (DenyTopics merged ++ DenyTopics add)%list;
         AllowedRepoHosts := (AllowedRepoHosts merged ++ AllowedRepoHosts add)%list;
         DeniedRepoHosts := (DeniedRepoHosts merged ++ DeniedRepoHosts add)%list;
         MaxConcurrent :=
           if (0 <? MaxConcurrent add)%Z
              && ((MaxConcurrent merged =? 0)%Z || (MaxConcurrent add <? MaxConcurrent merged)%Z)
           then MaxConcurrent add else MaxConcurrent merged;
         t_MCP := MergeMCPPolicy (t_MCP merged) (t_MCP add) |}
  end.

Section Merge.
  Context `{GoRuntime}.

Definition MergeTenantPolicies (base extra : gmap string TenantPolicy) : gmap string TenantPolicy :=
  let out := range_update (fun _ v => CloneTenantPolicy v) base ∅ in
  range_update mergeTenant extra out.

Definition CloneSafetyPolicy (p : SafetyPolicy) : SafetyPolicy :=
  {| Version := Version p; Tier := Tier p; Selector := TrimPolicySelector (Selector p);
     Rules := ClonePolicyRules (Rules p); InputPolicy := InputPolicy p;
     InputRules := InputRules p; RequireHuman := RequireHuman p; OutputPolicy := OutputPolicy p;
     OutputRules := CloneOutputPolicyRules (OutputRules p); DefaultTenant := DefaultTenant p;
     DefaultDecision := DefaultDecision p;
     Tenants := range_update (fun _ v => CloneTenantPolicy v) (Tenants p) ∅;
     TierDefaults := ClonePolicyTierDefaults (TierDefaults p) |}.

Definition CloneSafetyPolicyWithTierMetadata (p : SafetyPolicy) : SafetyPolicy :=
  applyPolicyTierMetadata (CloneSafetyPolicy p).

Definition asGlobal (p : SafetyPolicy) : SafetyPolicy :=
  {| Version := Version p; Tier := PolicyTierGlobal; Selector := empty_selector; Rules := Rules p;
     InputPolicy := InputPolicy p; InputRules := InputRules p; RequireHuman := RequireHuman p;
     OutputPolicy := OutputPolicy p; OutputRules := OutputRules p;
     DefaultTenant := DefaultTenant p; DefaultDecision := DefaultDecision p;
     Tenants := Tenants p; TierDefaults := TierDefaults p |}.

(** [None] is a nil policy. *)
Definition MergePolicies (base extra : option SafetyPolicy) : option SafetyPolicy :=
  match base, extra with
  | None, None => None
  | None, Some e => Some (asGlobal (CloneSafetyPolicyWithTierMetadata e))
  | Some b, None => Some (asGlobal (CloneSafetyPolicyWithTierMetadata b))
  | Some b, Some e =>
      let out := CloneSafetyPolicyWithTierMetadata b in
      let add := CloneSafetyPolicyWithTierMetadata e in
      Some {|
        Version := if Version out =s? "" then Version add else Version out;
        Tier := PolicyTierGlobal;
        Selector := empty_selector;
        Rules := MergeRulesByID (Rules out) (Rules add) r_ID;
        InputPolicy := InputPolicy out;
        InputRules := MergeRulesByID (InputRules out) (InputRules add) ir_ID;
        RequireHuman := if threshold_is_zero (RequireHuman out) then RequireHuman add
                        else RequireHuman out;
        OutputPolicy := {|
          opc_Enabled := if negb (opc_Enabled (OutputPolicy out)) && opc_Enabled (OutputPolicy add)
                         then true else opc_Enabled (OutputPolicy out);
          opc_FailMode := if TrimSpace (opc_FailMode (OutputPolicy out)) =s? ""
                          then TrimSpace (opc_FailMode (OutputPolicy add))
                          else opc_FailMode (OutputPolicy out) |};
        OutputRules := MergeRulesByID (OutputRules out) (CloneOutputPolicyRules (OutputRules add)) or_ID;
        DefaultTenant := if DefaultTenant out =s? "" then DefaultTenant add else DefaultTenant out;
        DefaultDecision := if TrimSpace (DefaultDecision out) =s? ""
                           then TrimSpace (DefaultDecision add) else DefaultDecision out;
        Tenants := MergeTenantPolicies (Tenants out) (Tenants add);
        TierDefaults := (TierDefaults out ++ TierDefaults add)%list |}
  end.
End Merge.

(** * Properties *)

(** ** Rules by id: last seen wins, in place *)

Section ById.
  Context {T : Type} (id : T -> string).
  Implicit Types (l base add : list T) (r : T) (rid : string).

(** The last rule of the list with the given id. *)
Definition last_id rid l : option T :=
  foldl (fun acc r => if id r =s? rid then Some r else acc) None l.

(** No two positions share a non-empty id. *)
Definition uniq l : Prop :=
  forall i j r s, l !! i = Some r -> l !! j = Some s -> id r = id s -> id r <> "" -> i = j.

(** [seen] is the index of the list. *)
Definition seen_ok l (seen : gmap string nat) : Prop :=
  forall rid i, seen !! rid = Some i <-> rid <> "" /\ exists r, l !! i = Some r /\ id r = rid.

Lemma last_id_app rid l1 l2 :
  last_id rid (l1 ++ l2)%list =
  match last_id rid l2 with Some r => Some r | None => last_id rid l1 end.
Proof.
  unfold last_id. rewrite foldl_app. generalize (foldl (fun acc r => if id r =s? rid then Some r else acc) None l1).
  intros acc. revert acc. induction l2 as [|r l2 IH] using rev_ind; intros acc; [done|].
  rewrite !foldl_app. simpl. destruct (id r =s? rid); [done|]. apply IH.
Qed.

Lemma last_id_snoc rid l r :
  last_id rid (l ++ [r])%list = if id r =s? rid then Some r else last_id rid l.
Proof. rewrite last_id_app. unfold last_id at 1. simpl. by destruct (id r =s? rid). Qed.

Lemma last_id_elem rid l r : last_id rid l = Some r -> r ∈ l /\ id r = rid.
Proof.
  induction l as [|s l IH] using rev_ind; [done|]. rewrite last_id_snoc.
  destruct (String.eqb_spec (id s) rid) as [E|E].
  - intros [= <-]. split; [set_solver | done].
  - intros [Hin Hr]%IH. split; [set_solver | done].
Qed.

Lemma last_id_none rid l : last_id rid l = None <-> forall r, r ∈ l -> id r <> rid.
Proof.
  induction l as [|s l IH] using rev_ind.
  { split; [intros _ r Hr; inversion Hr | done]. }
  rewrite last_id_snoc. destruct (String.eqb_spec (id s) rid) as [E|E]; [set_solver|].
  rewrite IH. set_solver.
Qed.

Lemma last_id_uniq rid l r :
  uniq l -> rid <> "" -> last_id rid l = Some r <-> r ∈ l /\ id r = rid.
Proof.
  intros Hu Hne. split; [apply last_id_elem|]. intros [Hin Hr].
  destruct (last_id rid l) as [s|] eqn:E.
  - apply last_id_elem in E as [Hin' Hs].
    apply list_elem_of_lookup in Hin as [i Hi]. apply list_elem_of_lookup in Hin' as [j Hj].
    assert (i = j) as -> by (eapply Hu; [done|done|congruence|congruence]). congruence.
  - rewrite last_id_none in E. by specialize (E r Hin).
Qed.

Lemma last_id_insert_ne rid l i r0 r :
  l !! i = Some r0 -> id r0 <> rid -> id r <> rid -> last_id rid (<[i := r]> l) = last_id rid l.
Proof.
  intros Hi H0 Hr. rewrite <- (take_drop_middle l i r0 Hi) at 2.
  rewrite insert_take_drop by (by eapply lookup_lt_Some).
  rewrite !(last_id_app rid (list.take i l)).
  change (r :: list.drop (S i) l) with ([r] ++ list.drop (S i) l)%list.
  change (r0 :: list.drop (S i) l) with ([r0] ++ list.drop (S i) l)%list.
  rewrite !last_id_app. unfold last_id at 2 5. simpl. by rewrite (eqb_ne _ _ H0), (eqb_ne _ _ Hr).
Qed.

Lemma seen_ok_snoc l seen r :
  seen_ok l seen -> (id r = "" \/ forall s, s ∈ l -> id s <> id r) ->
  seen_ok (l ++ [r])%list (if negb (id r =s? "") then <[id r := length l]> seen else seen).
Proof.
  intros Hs Hr rid i. setoid_rewrite lookup_snoc_Some.
  destruct (String.eqb_spec (id r) "") as [E|E]; simpl.
  - rewrite (Hs rid i). split.
    + intros (Hne & s & Hi & Hid). split; [done|]. exists s. split; [left|done].
      split; [by eapply lookup_lt_Some | done].
    + intros (Hne & s & [[_ Hi]|[_ <-]] & Hid); [naive_solver | congruence].
  - destruct (decide (id r = rid)) as [<-|Hne].
    + rewrite lookup_insert_eq. destruct Hr as [|Hr]; [done|]. split.
      * intros [= <-]. split; [done|]. exists r. auto.
      * intros (_ & s & [[_ Hi]|[-> _]] & Hid); [|done].
        exfalso. apply (Hr s); [by eapply list_elem_of_lookup_2 | done].
    + rewrite lookup_insert_ne by done. rewrite (Hs rid i). split.
      * intros (? & s & Hi & Hid). split; [done|]. exists s. split; [left|done].
        split; [by eapply lookup_lt_Some | done].
      * intros (? & s & [[_ Hi]|[_ <-]] & Hid); [naive_solver | congruence].
Qed.

Lemma uniq_app_fresh l r l' : uniq (l ++ r :: l')%list -> id r = "" \/ forall s, s ∈ l -> id s <> id r.
Proof.
  intros Hu. destruct (String.eqb_spec (id r) ""); [by left|]. right. intros s Hs Heq.
  apply list_elem_of_lookup in Hs as [i Hi]. pose proof (lookup_lt_Some _ _ _ Hi).
  assert (i = length l); [|lia].
  eapply (Hu i (length l) s r); [by apply lookup_app_l_Some| |done|congruence].
  by rewrite list_lookup_middle.
Qed.

Lemma seenIndex_ok_gen pre l seen :
  seen_ok pre seen -> uniq (pre ++ l)%list ->
  seen_ok (pre ++ l)%list (seenIndex id (length pre) l seen).
Proof.
  revert pre seen. induction l as [|r l IH]; intros pre seen Hs Hu; simpl.
  { by rewrite app_nil_r. }
  pose proof (seen_ok_snoc _ _ r Hs (uniq_app_fresh _ _ _ Hu)) as Hs'.
  rewrite (cons_middle r pre l) in *. rewrite app_assoc in *.
  replace (S (length pre)) with (length (pre ++ [r])%list) by (rewrite length_app; simpl; lia).
  by apply IH.
Qed.

Lemma seenIndex_ok l : uniq l -> seen_ok l (seenIndex id 0 l ∅).
Proof.
  intros Hu. apply (seenIndex_ok_gen [] l ∅); [|done].
  intros rid i. rewrite lookup_empty. split; [done|]. intros (_ & r & Hi & _). done.
Qed.

Lemma uniq_snoc l r :
  uniq l -> (id r = "" \/ forall s, s ∈ l -> id s <> id r) -> uniq (l ++ [r])%list.
Proof.
  intros Hu Hr i j a b Ha Hb Hab Hne.
  apply lookup_snoc_Some in Ha as [[Hi Ha]|[-> ->]]; apply lookup_snoc_Some in Hb as [[Hj Hb]|[-> ->]].
  - by eapply Hu.
  - exfalso. destruct Hr as [|Hr]; [congruence|]. apply (Hr a); [by eapply list_elem_of_lookup_2|done].
  - exfalso. destruct Hr as [|Hr]; [congruence|]. apply (Hr b); [by eapply list_elem_of_lookup_2|done].
  - done.
Qed.

Lemma insert_same_id l i r0 r j :
  l !! i = Some r0 -> id r0 = id r -> id <$> (<[i := r]> l !! j) = id <$> (l !! j).
Proof.
  intros Hi Hr. destruct (decide (i = j)) as [<-|Hne].
  - rewrite list_lookup_insert_eq by (by eapply lookup_lt_Some). rewrite Hi. simpl. by rewrite Hr.
  - by rewrite list_lookup_insert_ne.
Qed.

Lemma uniq_insert l i r0 r :
  uniq l -> l !! i = Some r0 -> id r0 = id r -> uniq (<[i := r]> l).
Proof.
  intros Hu Hi Hr a b x y Hx Hy Hxy Hne.
  pose proof (insert_same_id l i r0 r a Hi Hr) as Ea. pose proof (insert_same_id l i r0 r b Hi Hr) as Eb.
  rewrite Hx in Ea. rewrite Hy in Eb.
  destruct (l !! a) as [x'|] eqn:Ha; [|done]. destruct (l !! b) as [y'|] eqn:Hb; [|done].
  simpl in *. apply (Hu a b x' y'); congruence.
Qed.

Lemma seen_ok_insert l seen i r0 r :
  seen_ok l seen -> l !! i = Some r0 -> id r0 = id r -> seen_ok (<[i := r]> l) seen.
Proof.
  intros Hs Hi Hr rid j. rewrite (Hs rid j).
  pose proof (insert_same_id l i r0 r j Hi Hr) as E.
  split; intros (Hne & s & Hj & Hid); (split; [done|]); rewrite Hj in E; simpl in E.
  - destruct (<[i := r]> l !! j) as [s'|]; [|done]. exists s'. simpl in E. split; congruence.
  - destruct (l !! j) as [s'|]; [|done]. exists s'. simpl in E. split; congruence.
Qed.

(** Each rule of the addition replaces or extends: the loop keeps ids unique,
    keeps the positions of the base, and makes the last rule win. *)
Lemma mergeLoop_spec base seen add :
  uniq base -> seen_ok base seen ->
  let out := mergeLoop id base seen add in
  uniq out /\
  (forall rid, rid <> "" -> last_id rid out = last_id rid (base ++ add)%list) /\
  (forall i r, base !! i = Some r -> id <$> (out !! i) = Some (id r)).
Proof.
  revert base seen. induction add as [|r add IH]; intros base seen Hu Hs; simpl.
  { split; [done|]. split; [by rewrite app_nil_r|]. intros i r ->. done. }
  rewrite (cons_middle r base add), app_assoc.
  destruct (String.eqb_spec (id r) "") as [E|E]; simpl.
  - assert (uniq (base ++ [r])%list) as Hu' by (apply uniq_snoc; auto).
    pose proof (seen_ok_snoc base seen r Hs (or_introl E)) as Hs'.
    rewrite E in Hs'. simpl in Hs'. destruct (IH _ _ Hu' Hs') as (H1 & H2 & H3).
    repeat split; [done|done|]. intros i s Hi. apply H3. by apply lookup_app_l_Some.
  - destruct (seen !! id r) as [idx|] eqn:Es.
    + apply Hs in Es as (_ & r0 & Hi & Hr0).
      assert (uniq (<[idx := r]> base)) as Hu' by (by eapply uniq_insert).
      destruct (IH _ seen Hu') as (H1 & H2 & H3); [by eapply seen_ok_insert|].
      repeat split; [done| |].
      * intros rid Hne. rewrite H2, !last_id_app by done. destruct (last_id rid add); [done|].
        unfold last_id at 2. simpl. destruct (String.eqb_spec (id r) rid) as [<-|Hd].
        -- apply last_id_uniq; [done|done|]. split; [|done].
           eapply list_elem_of_lookup_2, list_lookup_insert_eq. by eapply lookup_lt_Some.
        -- eapply last_id_insert_ne; [done|congruence|done].
      * intros i s Hs'. pose proof (insert_same_id base idx r0 r i Hi Hr0) as Ei.
        rewrite Hs' in Ei. simpl in Ei. destruct (<[idx := r]> base !! i) as [s'|] eqn:Hi'; [|done].
        rewrite (H3 i s' Hi'). exact Ei.
    + assert (forall s, s ∈ base -> id s <> id r) as Hf.
      { intros s [k Hk]%list_elem_of_lookup Heq.
        assert (seen !! id r = Some k) by (apply Hs; eauto). congruence. }
      assert (uniq (base ++ [r])%list) as Hu' by (apply uniq_snoc; auto).
      pose proof (seen_ok_snoc base seen r Hs (or_intror Hf)) as Hs'.
      rewrite (eqb_ne _ _ E) in Hs'. simpl in Hs'. destruct (IH _ _ Hu' Hs') as (H1 & H2 & H3).
      repeat split; [done|done|]. intros i s Hi. apply H3. by apply lookup_app_l_Some.
Qed.

Lemma MergeRulesByID_spec base add :
  uniq base ->
  let out := MergeRulesByID base add id in
  uniq out /\
  (forall rid, rid <> "" -> last_id rid out = last_id rid (base ++ add)%list) /\
  (forall i r, base !! i = Some r -> id <$> (out !! i) = Some (id r)).
Proof.
  intros Hu. unfold MergeRulesByID. destruct add as [|r add]; simpl nonempty; cbn [negb].
  - split; [done|]. split; [by rewrite app_nil_r|]. intros i r ->. done.
  - apply mergeLoop_spec; [done | by apply seenIndex_ok].
Qed.
End ById.

Lemma mergeLoop_elem {T} (id : T -> string) base seen add r :
  r ∈ mergeLoop id base seen add -> r ∈ base \/ r ∈ add.
Proof.
  revert base seen. induction add as [|a add IH]; intros base seen; simpl; [by left|].
  assert (forall b s, r ∈ mergeLoop id b s add -> (r ∈ b -> r ∈ base \/ r = a) ->
                      r ∈ base \/ r ∈ a :: add) as Hgo.
  { intros b s [Hb|Ha]%IH Hsub; [destruct (Hsub Hb) as [ | -> ]|]; set_solver. }
  case_match; [|intros H'; eapply Hgo; [done|set_solver]].
  case_match; intros H'; (eapply Hgo; [done|]); [|set_solver].
  intros [k Hk]%list_elem_of_lookup. apply list_lookup_insert_Some in Hk as [(_ & -> & _)|[_ Hk]];
    [by right | left; by eapply list_elem_of_lookup_2].
Qed.

Lemma MergeRulesByID_elem {T} (id : T -> string) base add r :
  r ∈ MergeRulesByID base add id -> r ∈ base \/ r ∈ add.
Proof. unfold MergeRulesByID. case_match; [by left | apply mergeLoop_elem]. Qed.

(** ** Normal forms *)

Lemma clonePolicyConstraints_id c : clonePolicyConstraints c = c.
Proof. by destruct c as [? [] [] [] ?]. Qed.

Lemma clonePolicyRemediations_id l : clonePolicyRemediations l = l.
Proof. induction l as [|[] l IH]; [done|]. simpl. by rewrite <- IH at 2. Qed.

Lemma cloneDelegationMatch_id d : cloneDelegationMatch d = d.
Proof. by destruct d as [[]|]. Qed.

(** Cloning a match block keeps what the evaluator reads of it. *)
Lemma clonePolicyMatch_matchRule `{GoRuntime} `{FloatParser} m i :
  matchRule (clonePolicyMatch m) i = matchRule m i.
Proof. unfold matchRule. cbn. by rewrite cloneDelegationMatch_id. Qed.

Lemma clonePolicyMatch_idem m : clonePolicyMatch (clonePolicyMatch m) = clonePolicyMatch m.
Proof. unfold clonePolicyMatch; cbn. by rewrite !cloneDelegationMatch_id. Qed.

Lemma NormalizePolicyTier_trimmed t : TrimSpace (NormalizePolicyTier t) = NormalizePolicyTier t.
Proof.
  unfold NormalizePolicyTier. case_match; [done|]. by rewrite TrimSpace_lower, TrimSpace_idem.
Qed.

(** A rule that has been through the clone: trimmed fields, its own tier, and no
    selector on the global tier. *)
Record rule_normal (r : PolicyRule) : Prop := {
  rn_id : TrimSpace (r_ID r) = r_ID r;
  rn_decision : TrimSpace (r_Decision r) = r_Decision r;
  rn_tier : NormalizePolicyTier (r_Tier r) = r_Tier r;
  rn_selector : TrimPolicySelector (r_Selector r) = r_Selector r;
  rn_global : r_Tier r = PolicyTierGlobal -> r_Selector r = empty_selector;
  rn_match : clonePolicyMatch (r_Match r) = r_Match r;
}.

Lemma inheritTier_fix doc t : inheritTier doc t = inheritTier (NormalizePolicyTier doc) t.
Proof.
  unfold inheritTier. case_match; [by rewrite NormalizePolicyTier_idem | done].
Qed.

Lemma inheritTier_normal doc t :
  NormalizePolicyTier t = t -> inheritTier doc t = t.
Proof.
  intros Ht. unfold inheritTier. pose proof (NormalizePolicyTier_nonempty t) as Hne.
  rewrite <- Ht, NormalizePolicyTier_trimmed, (eqb_ne _ _ Hne). apply NormalizePolicyTier_idem.
Qed.

Lemma inheritTier_idem doc t : NormalizePolicyTier (inheritTier doc t) = inheritTier doc t.
Proof. apply NormalizePolicyTier_idem. Qed.

Lemma inheritSelector_trimmed d s t u :
  TrimPolicySelector (inheritSelector d s t u) = inheritSelector d s t u.
Proof. unfold inheritSelector. case_match; [done | apply TrimPolicySelector_Merge]. Qed.

Lemma applyRuleTier_normal d s r : rule_normal (applyRuleTier d s (ClonePolicyRule r)).
Proof.
  constructor; cbn.
  - apply TrimSpace_idem.
  - apply TrimSpace_idem.
  - apply inheritTier_idem.
  - apply inheritSelector_trimmed.
  - intros E. unfold inheritSelector. by rewrite E.
  - apply clonePolicyMatch_idem.
Qed.

Lemma Clone_fixes_normal_rule r :
  rule_normal r ->
  applyRuleTier PolicyTierGlobal empty_selector (ClonePolicyRule r) = r.
Proof.
  intros [Hid Hd Ht Hs Hg Hm]. unfold applyRuleTier, ClonePolicyRule; cbn.
  rewrite clonePolicyConstraints_id, clonePolicyRemediations_id, Hid, Hd, Hm.
  assert (TrimSpace (r_Tier r) = r_Tier r) as E.
  { rewrite <- Ht. apply NormalizePolicyTier_trimmed. }
  rewrite E, inheritTier_normal by done.
  assert (inheritSelector PolicyTierGlobal empty_selector (r_Tier r) (TrimPolicySelector (r_Selector r))
          = r_Selector r) as ->.
  { unfold inheritSelector. rewrite inheritTier_normal by done.
    destruct (String.eqb_spec (r_Tier r) PolicyTierGlobal) as [Eg|]; [by rewrite Hg|].
    by rewrite MergePolicySelector_empty_l, Hs, Hs. }
  by destruct r.
Qed.

Section MergeProperties.
  Context `{GoRuntime}.
  Implicit Types p e out : SafetyPolicy.

Lemma moveScopedDefault_fields p :
  let q := moveScopedDefaultDecision p in
  Tier q = Tier p /\ Selector q = Selector p /\ Rules q = Rules p /\ InputRules q = InputRules p /\
  OutputPolicy q = OutputPolicy p /\ Tenants q = Tenants p /\ OutputRules q = OutputRules p.
Proof. unfold moveScopedDefaultDecision. by case_match. Qed.

Lemma normalised_rules p :
  Rules (CloneSafetyPolicyWithTierMetadata p) =
  map (fun r => applyRuleTier (NormalizePolicyTier (Tier p)) (TrimPolicySelector (Selector p))
                  (ClonePolicyRule r)) (Rules p).
Proof.
  unfold CloneSafetyPolicyWithTierMetadata, applyPolicyTierMetadata. cbn [Rules].
  match goal with |- context [moveScopedDefaultDecision ?q] =>
    destruct (moveScopedDefault_fields q) as (-> & -> & -> & _) end.
  cbn. rewrite TrimPolicySelector_idem. unfold ClonePolicyRules. by rewrite map_map.
Qed.

Lemma normalised_output p :
  OutputPolicy (CloneSafetyPolicyWithTierMetadata p) = OutputPolicy p.
Proof.
  unfold CloneSafetyPolicyWithTierMetadata, applyPolicyTierMetadata. cbn [OutputPolicy].
  match goal with |- context [moveScopedDefaultDecision ?q] =>
    destruct (moveScopedDefault_fields q) as (_ & _ & _ & _ & -> & _) end. done.
Qed.

Lemma normalised_tenants p :
  Tenants (CloneSafetyPolicyWithTierMetadata p) = CloneTenantPolicy <$> Tenants p.
Proof.
  unfold CloneSafetyPolicyWithTierMetadata, applyPolicyTierMetadata. cbn [Tenants].
  match goal with |- context [moveScopedDefaultDecision ?q] =>
    destruct (moveScopedDefault_fields q) as (_ & _ & _ & _ & _ & -> & _) end.
  cbn. apply map_eq. intros k. rewrite range_update_lookup, lookup_fmap, lookup_empty.
  by destruct (Tenants p !! k).
Qed.

Lemma normalised_rules_normal p :
  Forall rule_normal (Rules (CloneSafetyPolicyWithTierMetadata p)).
Proof.
  rewrite normalised_rules. apply Forall_forall. intros r (r0 & -> & _)%list_elem_of_fmap.
  apply applyRuleTier_normal.
Qed.

(** A global policy of normal rules is unchanged by another clone. *)
Lemma normalised_fix p :
  Tier p = PolicyTierGlobal -> Selector p = empty_selector -> Forall rule_normal (Rules p) ->
  Rules (CloneSafetyPolicyWithTierMetadata p) = Rules p.
Proof.
  intros Ht Hs HF. rewrite normalised_rules, Ht, Hs.
  rewrite <- (map_id (Rules p)) at 2. apply map_ext_in. intros r Hin.
  rewrite Forall_forall in HF. apply Clone_fixes_normal_rule, HF. by apply list_elem_of_In.
Qed.

(** The fold over a list of fragments that the bundle compilers perform. *)
Definition mergeFragments (frags : list SafetyPolicy) : option SafetyPolicy :=
  foldl (fun acc f => MergePolicies acc (Some f)) None frags.

Definition fragment_rules (frags : list SafetyPolicy) : list PolicyRule :=
  concat (map (fun f => Rules (CloneSafetyPolicyWithTierMetadata f)) frags).

Record merged_ok (frags : list SafetyPolicy) (out : SafetyPolicy) : Prop := {
  mo_tier : Tier out = PolicyTierGlobal;
  mo_selector : Selector out = empty_selector;
  mo_normal : Forall rule_normal (Rules out);
  mo_unique : uniq r_ID (Rules out);
  mo_last : forall rid, rid <> "" ->
    last_id r_ID rid (Rules out) = last_id r_ID rid (fragment_rules frags);
  mo_output : opc_Enabled (OutputPolicy out) = existsb (fun f => opc_Enabled (OutputPolicy f)) frags;
}.

Lemma merge_step frags out e :
  merged_ok frags out ->
  exists out', MergePolicies (Some out) (Some e) = Some out' /\ merged_ok (frags ++ [e])%list out'.
Proof.
  intros [Ht Hs Hn Hu Hl Ho]. eexists. split; [reflexivity|].
  pose proof (normalised_fix out Ht Hs Hn) as Hr.
  set (add := Rules (CloneSafetyPolicyWithTierMetadata e)).
  destruct (MergeRulesByID_spec r_ID (Rules out) add Hu) as (H1 & H2 & _).
  constructor; cbn [Tier Selector Rules OutputPolicy opc_Enabled]; rewrite ?Hr; try done.
  - apply Forall_forall. intros r [Hb|Ha]%MergeRulesByID_elem.
    + by eapply (proj1 (Forall_forall _ _) Hn).
    + by eapply (proj1 (Forall_forall _ _) (normalised_rules_normal e)).
  - intros rid Hne. fold add. rewrite H2 by done. unfold fragment_rules.
    rewrite map_app, concat_app. simpl. rewrite app_nil_r, !last_id_app. fold add.
    by rewrite Hl.
  - rewrite !normalised_output, Ho, existsb_app. simpl.
    destruct (existsb _ frags), (opc_Enabled (OutputPolicy e)); done.
Qed.

Lemma merge_start e :
  uniq r_ID (Rules (CloneSafetyPolicyWithTierMetadata e)) ->
  exists out, MergePolicies None (Some e) = Some out /\ merged_ok [e] out.
Proof.
  intros Hu. eexists. split; [reflexivity|].
  constructor; cbn [asGlobal Tier Selector Rules OutputPolicy]; try done.
  - apply normalised_rules_normal.
  - intros rid _. unfold fragment_rules. simpl. by rewrite app_nil_r.
  - rewrite normalised_output. simpl. by rewrite orb_false_r.
Qed.

(** Folding fragments is last-writer-wins by rule id.  If the first fragment
    has no duplicate ids, the merged policy has none, the rule under each id is
    the last one that any fragment gives it, every rule is in normal form with
    its own tier, and output scanning is on iff some fragment turns it on. *)
Theorem fragments_last_wins f fs :
  uniq r_ID (Rules (CloneSafetyPolicyWithTierMetadata f)) ->
  exists out, mergeFragments (f :: fs) = Some out /\ merged_ok (f :: fs) out.
Proof.
  intros Hu. induction fs as [|e fs IH] using rev_ind; [by apply merge_start|].
  destruct IH as (out & Hout & Hok). unfold mergeFragments in *.
  change (f :: fs ++ [e])%list with ((f :: fs) ++ [e])%list.
  rewrite foldl_app, Hout. by apply merge_step.
Qed.

(** ** Cloning is idempotent *)

Lemma MergePolicySelector_self s : MergePolicySelector s s = TrimPolicySelector s.
Proof. unfold MergePolicySelector, TrimPolicySelector; cbn. f_equal; by case_match. Qed.

Lemma MergePolicySelector_trim_l a b :
  MergePolicySelector (TrimPolicySelector a) b = MergePolicySelector a b.
Proof. unfold MergePolicySelector. by rewrite TrimPolicySelector_idem. Qed.

(** Inheriting from the same document a second time changes nothing. *)
Lemma inheritSelector_twice d s t u :
  inheritSelector d (if NormalizePolicyTier d =s? PolicyTierGlobal then empty_selector else s)
    (inheritTier d t) (inheritSelector d s t u) = inheritSelector d s t u.
Proof.
  unfold inheritSelector at 1. rewrite (inheritTier_normal d (inheritTier d t)) by apply inheritTier_idem.
  unfold inheritSelector. case_match; [done|]. case_match.
  - by rewrite MergePolicySelector_empty_l, TrimPolicySelector_Merge.
  - by rewrite MergePolicySelector_assoc, MergePolicySelector_self, MergePolicySelector_trim_l.
Qed.

Lemma trim_inheritTier d t : TrimSpace (inheritTier d t) = inheritTier d t.
Proof. apply NormalizePolicyTier_trimmed. Qed.

Lemma applyRuleTier_twice d s r :
  let s' := if NormalizePolicyTier d =s? PolicyTierGlobal then empty_selector else s in
  applyRuleTier d s' (ClonePolicyRule (applyRuleTier d s (ClonePolicyRule r))) =
  applyRuleTier d s (ClonePolicyRule r).
Proof.
  unfold applyRuleTier, ClonePolicyRule. cbn [r_ID r_Tier r_Selector r_Match r_Velocity r_Decision
    r_Reason r_Constraints r_Remediations].
  rewrite !clonePolicyConstraints_id, !clonePolicyRemediations_id, clonePolicyMatch_idem.
  rewrite !TrimSpace_idem, trim_inheritTier, inheritSelector_trimmed, inheritSelector_twice.
  by rewrite inheritTier_normal by apply inheritTier_idem.
Qed.

Lemma applyInputRuleTier_twice d s r :
  let s' := if NormalizePolicyTier d =s? PolicyTierGlobal then empty_selector else s in
  applyInputRuleTier d s' (applyInputRuleTier d s r) = applyInputRuleTier d s r.
Proof.
  simpl. unfold applyInputRuleTier; cbn. rewrite inheritSelector_twice.
  by rewrite inheritTier_normal by apply inheritTier_idem.
Qed.

Lemma normalizeTierDefault_twice d d' :
  normalizeTierDefault d = Some d' ->
  normalizeTierDefault {| td_Tier := TrimSpace (td_Tier d');
                          td_Selector := TrimPolicySelector (td_Selector d');
                          td_Decision := TrimSpace (td_Decision d') |} = Some d'.
Proof.
  unfold normalizeTierDefault. destruct (_ || _) eqn:Eb; [done|]. intros [= <-].
  cbn [td_Tier td_Selector td_Decision].
  by rewrite NormalizePolicyTier_trimmed, NormalizePolicyTier_idem, !TrimSpace_idem, Eb,
    !TrimPolicySelector_idem.
Qed.

Lemma normalizeTierDefaults_twice l :
  normalizeTierDefaults (ClonePolicyTierDefaults (normalizeTierDefaults l)) = normalizeTierDefaults l.
Proof.
  unfold normalizeTierDefaults, ClonePolicyTierDefaults.
  induction l as [|d l IH]; [done|]. cbn [omap list_omap].
  destruct (normalizeTierDefault d) as [d'|] eqn:E; [|exact IH].
  cbn [map omap list_omap]. rewrite (normalizeTierDefault_twice _ _ E). by f_equal.
Qed.

Lemma CloneOutputPolicyRule_idem r :
  CloneOutputPolicyRule (CloneOutputPolicyRule r) = CloneOutputPolicyRule r.
Proof.
  unfold CloneOutputPolicyRule. cbn [or_ID or_Severity or_Decision or_Match].
  by rewrite !TrimSpace_idem.
Qed.

Lemma clone_tenants_idem (m : gmap string TenantPolicy) :
  range_update (fun _ v => CloneTenantPolicy v) (range_update (fun _ v => CloneTenantPolicy v) m ∅) ∅ =
  range_update (fun _ v => CloneTenantPolicy v) m ∅.
Proof.
  apply map_eq. intros k. rewrite !range_update_lookup, lookup_empty. by destruct (m !! k).
Qed.

(** The clone written out: what [applyPolicyTierMetadata] leaves in each field. *)
Definition moves_default p : bool :=
  negb (TrimSpace (DefaultDecision p) =s? "")
  && negb (NormalizePolicyTier (Tier p) =s? PolicyTierGlobal).

Lemma clone_fields p :
  CloneSafetyPolicyWithTierMetadata p =
  {| Version := Version p; Tier := NormalizePolicyTier (Tier p);
     Selector := if NormalizePolicyTier (Tier p) =s? PolicyTierGlobal then empty_selector
                 else TrimPolicySelector (Selector p);
     Rules := map (applyRuleTier (NormalizePolicyTier (Tier p)) (TrimPolicySelector (Selector p)))
                (ClonePolicyRules (Rules p));
     InputPolicy := InputPolicy p;
     InputRules := map (applyInputRuleTier (NormalizePolicyTier (Tier p))
                          (TrimPolicySelector (Selector p))) (InputRules p);
     RequireHuman := RequireHuman p; OutputPolicy := OutputPolicy p;
     OutputRules := CloneOutputPolicyRules (OutputRules p);
     DefaultTenant := DefaultTenant p;
     DefaultDecision := if moves_default p then "" else TrimSpace (DefaultDecision p);
     Tenants := range_update (fun _ v => CloneTenantPolicy v) (Tenants p) ∅;
     TierDefaults := normalizeTierDefaults (ClonePolicyTierDefaults (TierDefaults p) ++
       (if moves_default p
        then [mkPolicyTierDefault (NormalizePolicyTier (Tier p)) (TrimPolicySelector (Selector p))
                (TrimSpace (DefaultDecision p))] else []))%list |}.
Proof.
  unfold CloneSafetyPolicyWithTierMetadata, applyPolicyTierMetadata, CloneSafetyPolicy,
    moveScopedDefaultDecision, moves_default.
  cbn [Version Tier Selector Rules InputPolicy InputRules RequireHuman
    OutputPolicy OutputRules DefaultTenant DefaultDecision Tenants TierDefaults].
  rewrite TrimPolicySelector_idem.
  destruct (TrimSpace (DefaultDecision p) =s? "") eqn:E1,
    (NormalizePolicyTier (Tier p) =s? PolicyTierGlobal) eqn:E2;
    cbn [negb andb orb Version Tier Selector Rules InputPolicy InputRules RequireHuman
    OutputPolicy OutputRules DefaultTenant DefaultDecision Tenants TierDefaults];
    by rewrite ?E2, ?app_nil_r.
Qed.

(** Cloning with tier normalisation is idempotent, so a policy that has been
    merged once is a fixed point: no rule changes tier, selector or decision, and
    no scoped default is added twice, however often the clone is repeated. *)
Theorem clone_idempotent p :
  CloneSafetyPolicyWithTierMetadata (CloneSafetyPolicyWithTierMetadata p) =
  CloneSafetyPolicyWithTierMetadata p.
Proof.
  rewrite (clone_fields p). set (d := NormalizePolicyTier (Tier p)).
  set (s := TrimPolicySelector (Selector p)).
  assert (NormalizePolicyTier d = d) as Hd by apply NormalizePolicyTier_idem.
  assert (TrimPolicySelector (if d =s? PolicyTierGlobal then empty_selector else s) =
          if d =s? PolicyTierGlobal then empty_selector else s) as Hs.
  { case_match; [done | apply TrimPolicySelector_idem]. }
  rewrite clone_fields. cbn [Version Tier Selector Rules InputPolicy InputRules RequireHuman
    OutputPolicy OutputRules DefaultTenant DefaultDecision Tenants TierDefaults].
  rewrite Hd, Hs, clone_tenants_idem. unfold moves_default.
  cbn [Tier DefaultDecision]. fold d. rewrite Hd.
  f_equal.
  - by case_match.
  - unfold ClonePolicyRules. rewrite !map_map. apply map_ext. intros r.
    rewrite <- Hd at 2. apply applyRuleTier_twice.
  - rewrite map_map. apply map_ext. intros r. rewrite <- Hd at 2. apply applyInputRuleTier_twice.
  - unfold CloneOutputPolicyRules. rewrite map_map. apply map_ext. apply CloneOutputPolicyRule_idem.
  - destruct (String.eqb_spec (TrimSpace (DefaultDecision p)) "") as [E|E],
      (d =s? PolicyTierGlobal) eqn:Eg; cbn [negb andb]; rewrite ?TrimSpace_idem, ?andb_false_r, ?E;
      done.
  - match goal with |- normalizeTierDefaults (_ ++ (if ?c then _ else _))%list = _ =>
      assert (c = false) as -> end.
    { destruct (String.eqb_spec (TrimSpace (DefaultDecision p)) "") as [E|E],
        (d =s? PolicyTierGlobal) eqn:Eg; cbn [negb andb];
        rewrite ?TrimSpace_idem, ?andb_false_r, ?E; done. }
    rewrite app_nil_r. apply normalizeTierDefaults_twice.
Qed.

(** ** Tenants *)

Lemma MergeTenantPolicies_lookup base extra t :
  MergeTenantPolicies base extra !! t =
  match extra !! t with
  | Some add => Some (mergeTenant (CloneTenantPolicy <$> base !! t) add)
  | None => CloneTenantPolicy <$> base !! t
  end.
Proof.
  unfold MergeTenantPolicies. rewrite !range_update_lookup, lookup_empty.
  by destruct (extra !! t), (base !! t).
Qed.

(** [tp'] keeps every denial of [tp] and its concurrency bound. *)
Definition tenant_keeps (tp tp' : TenantPolicy) : Prop :=
  DenyTopics tp ⊆ DenyTopics tp' /\ DeniedRepoHosts tp ⊆ DeniedRepoHosts tp' /\
  DenyServers (t_MCP tp) ⊆ DenyServers (t_MCP tp') /\
  DenyTools (t_MCP tp) ⊆ DenyTools (t_MCP tp') /\
  DenyResources (t_MCP tp) ⊆ DenyResources (t_MCP tp') /\
  DenyActions (t_MCP tp) ⊆ DenyActions (t_MCP tp') /\
  ((0 < MaxConcurrent tp)%Z -> (0 < MaxConcurrent tp' <= MaxConcurrent tp)%Z).

(** Merging tenant policies never loses a denial.  Every topic, host, MCP
    server, tool, resource and action denied by either side stays denied, and a
    positive concurrency bound of either side is kept or tightened. *)
Theorem merged_tenant_keeps base extra t tp :
  (forall b, base !! t = Some b -> (0 <= MaxConcurrent b)%Z) ->
  base !! t = Some tp \/ extra !! t = Some tp ->
  exists tp', MergeTenantPolicies base extra !! t = Some tp' /\ tenant_keeps tp tp'.
Proof.
  intros Hpos Hin. rewrite MergeTenantPolicies_lookup. unfold tenant_keeps.
  destruct (extra !! t) as [e|] eqn:Ee; destruct (base !! t) as [b|] eqn:Eb;
    try (specialize (Hpos b eq_refl)); destruct Hin as [[= ->]|[= ->]];
    cbn; eexists; (split; [reflexivity|]); cbn; repeat split; try set_solver; repeat case_match; split_bools;
    repeat match goal with
    | H : (_ && _)%bool = false |- _ => apply andb_false_iff in H
    | H : (_ || _)%bool = true |- _ => apply orb_true_iff in H
    end; lia.
Qed.

(** Two bounds merge to the smaller, in either order. *)
Lemma merged_concurrency a b :
  (0 < MaxConcurrent a)%Z -> (0 < MaxConcurrent b)%Z ->
  MaxConcurrent (mergeTenant (Some a) b) = Z.min (MaxConcurrent a) (MaxConcurrent b).
Proof.
  intros Ha Hb. cbn. destruct (Z.ltb_spec 0 (MaxConcurrent b)); [|lia].
  destruct (Z.eqb_spec (MaxConcurrent a) 0); [lia|]. cbn.
  destruct (Z.ltb_spec (MaxConcurrent b) (MaxConcurrent a)); lia.
Qed.
End MergeProperties.

(** ** What a clone loses *)

(** Cloning or merging a tenant's MCP policy keeps the allow and deny lists
    and drops the gateway switch and the upstream servers, whatever they were. *)
Theorem clone_drops_gateway tp :
  let mcp := t_MCP (CloneTenantPolicy tp) in
  AllowTools mcp = AllowTools (t_MCP tp) /\ DenyTools mcp = DenyTools (t_MCP tp) /\
  GatewayEnabled mcp = false /\ UpstreamServers mcp = [] /\ AllowedUpstreams mcp = [].
Proof. done. Qed.

(** ** Witnesses *)

Definition wit_rule (id decision : string) : PolicyRule :=
  mkPolicyRule id "" empty_selector empty_match None decision "" empty_constraints [].

Definition wit_fragment (rules : list PolicyRule) : SafetyPolicy :=
  {| Version := "1"; Tier := ""; Selector := empty_selector; Rules := rules;
     InputPolicy := mkInputPolicyConfig false "" 0; InputRules := [];
     RequireHuman := zero_threshold; OutputPolicy := mkOutputPolicyConfig false "";
     OutputRules := []; DefaultTenant := ""; DefaultDecision := ""; Tenants := ∅;
     TierDefaults := [] |}.

Definition wit_frags : list SafetyPolicy :=
  [wit_fragment [wit_rule "a" "deny"; wit_rule "b" "allow"]; wit_fragment [wit_rule " a " "allow"]].

Lemma fragments_last_wins_witness :
  exists out, @mergeFragments fwd_runtime wit_frags = Some out /\
    last_id r_ID "a" (Rules out) = Some (applyRuleTier "global" empty_selector (wit_rule "a" "allow")).
Proof.
  destruct (@fragments_last_wins fwd_runtime (wit_fragment [wit_rule "a" "deny"; wit_rule "b" "allow"])
              [wit_fragment [wit_rule " a " "allow"]]) as (out & Hout & Hok).
  - intros [|[|i]] [|[|j]] r s; cbn; intros; simplify_eq; done.
  - exists out. split; [exact Hout|]. rewrite (mo_last _ _ Hok "a") by done. reflexivity.
Defined.

Lemma merged_tenant_keeps_witness :
  exists tp', @MergeTenantPolicies fwd_runtime {["acme" := wit_tenant [] ["job.rm"]]}
    {["acme" := wit_tenant ["job.*"] []]} !! "acme" = Some tp' /\
    tenant_keeps (wit_tenant [] ["job.rm"]) tp'.
Proof.
  apply (@merged_tenant_keeps fwd_runtime {["acme" := wit_tenant [] ["job.rm"]]}
    {["acme" := wit_tenant ["job.*"] []]} "acme" (wit_tenant [] ["job.rm"])).
  - intros b Hb. rewrite lookup_singleton_eq in Hb. injection Hb as <-. cbn. lia.
  - left. reflexivity.
Defined.
