(* ===== verification/GlobalPolicy.v ===== *)
(** * The tiered policy view of the safety kernel

    [core/controlplane/safetykernel]: global_policy.go and global_policy_tiers.go
    (the projection of a merged policy into buckets, overrides and defaults),
    kernel_invariants.go (the security floor), tier_scope.go (the policy that one
    request is evaluated against) and the label helpers of kernel.go.

    A nil [GlobalPolicy] or policy is [None]. *)
From S2P Require Import Prelude.
From S2P Require Import GoStrings.
From S2P Require Import PolicyTypes.
From S2P Require Import PolicyNames.
From S2P Require Import SafetyPolicy.
From S2P Require Import PolicyMerge.

Open Scope string_scope.

Definition EdgeActionTopic : string := "job.edge.action".
Definition PolicyAttachmentID : string := "policy.attachment_id".

Record GlobalPolicy := mkGlobalPolicy {
  g_InputRules : list PolicyRule;
  g_OutputRules : list OutputPolicyRule;
  g_EdgeActionRules : list PolicyRule;
  g_MCPToolRules : list PolicyRule;
  g_WorkflowOverrides : gmap string (list PolicyRule);
  g_JobOverrides : gmap string (list PolicyRule);
  g_Invariants : list PolicyRule;
  g_OutputInvariants : list OutputPolicyRule;
  g_GlobalDefaultDecision : string;
  g_WorkflowDefaultDecisions : gmap string string;
  g_JobDefaultDecisions : gmap string string;
  g_SnapshotVersion : string;
  g_SnapshotHash : string;
  g_WorkflowSnapshot : string;
  g_JobSnapshot : string;
}.

(** ** Classification *)

Definition isEdgeActionRule (rule : PolicyRule) : bool :=
  existsb (fun raw => TrimSpace raw =s? EdgeActionTopic) (m_Topics (r_Match rule)).

Definition isMCPToolRule (rule : PolicyRule) : bool :=
  let mcp := m_MCP (r_Match rule) in
  nonempty (AllowServers mcp) || nonempty (DenyServers mcp) || nonempty (AllowTools mcp)
  || nonempty (DenyTools mcp) || nonempty (AllowResources mcp) || nonempty (DenyResources mcp)
  || nonempty (AllowActions mcp) || nonempty (DenyActions mcp).

Definition isGlobalInvariantDeny (decision : string) : bool :=
  let d := ToLower (TrimSpace decision) in
  (d =s? "deny") || (d =s? "require_approval") || (d =s? "require-approval")
  || (d =s? "require_human") || (d =s? "throttle").

Definition splitGlobalInvariantRules (rules : list PolicyRule)
    : list PolicyRule * list PolicyRule :=
  (List.filter (fun r => isGlobalInvariantDeny (r_Decision r)) rules,
   List.filter (fun r => negb (isGlobalInvariantDeny (r_Decision r))) rules).

Definition concatRules (invariants section : list PolicyRule) : list PolicyRule :=
  let '(denies, allows) := splitGlobalInvariantRules invariants in
  if negb (nonempty denies) && negb (nonempty allows) then section
  else (denies ++ section ++ allows)%list.

Definition appendScopedRule (rules : gmap string (list PolicyRule)) (key : string)
    (rule : PolicyRule) : gmap string (list PolicyRule) :=
  <[key := (get_list rules key ++ [rule])%list]> rules.

Definition appendInputScopedRules (out rules : list PolicyRule) : list PolicyRule :=
  (out ++ List.filter (fun r => negb (isEdgeActionRule r || isMCPToolRule r)) rules)%list.

Definition appendScopedRulesForSection (out rules : list PolicyRule)
    (include : PolicyRule -> bool) : list PolicyRule :=
  (out ++ List.filter include rules)%list.

Definition with_tier (tier : string) (sel : PolicySelector) (rule : PolicyRule) : PolicyRule :=
  {| r_ID := r_ID rule; r_Tier := tier; r_Selector := sel; r_Match := r_Match rule;
     r_Velocity := r_Velocity rule; r_Decision := r_Decision rule; r_Reason := r_Reason rule;
     r_Constraints := r_Constraints rule; r_Remediations := r_Remediations rule |}.

Definition cloneRulesWithTier (rules : list PolicyRule) (tier : string) : list PolicyRule :=
  map (with_tier (NormalizePolicyTier tier) empty_selector) rules.

Definition normalizedOptionalDecision (raw : string) : string :=
  if TrimSpace raw =s? "" then "" else normalizeDecision raw.

Definition scopedDefault (defaults : gmap string string) (rules : gmap string (list PolicyRule))
    (key : string) : option string :=
  let key := TrimSpace key in
  if key =s? "" then None
  else if negb (get_str defaults key =s? "") then Some (get_str defaults key)
  else if nonempty (get_list rules key) then Some "deny"
  else None.

(** ** Projection *)

Definition set_rules (g : GlobalPolicy) (input edge mcp : list PolicyRule)
    (wf job : gmap string (list PolicyRule)) : GlobalPolicy :=
  {| g_InputRules := input; g_OutputRules := g_OutputRules g; g_EdgeActionRules := edge;
     g_MCPToolRules := mcp; g_WorkflowOverrides := wf; g_JobOverrides := job;
     g_Invariants := g_Invariants g; g_OutputInvariants := g_OutputInvariants g;
     g_GlobalDefaultDecision := g_GlobalDefaultDecision g;
     g_WorkflowDefaultDecisions := g_WorkflowDefaultDecisions g;
     g_JobDefaultDecisions := g_JobDefaultDecisions g; g_SnapshotVersion := g_SnapshotVersion g;
     g_SnapshotHash := g_SnapshotHash g; g_WorkflowSnapshot := g_WorkflowSnapshot g;
     g_JobSnapshot := g_JobSnapshot g |}.

Definition set_defaults (g : GlobalPolicy) (wf job : gmap string string) : GlobalPolicy :=
  {| g_InputRules := g_InputRules g; g_OutputRules := g_OutputRules g;
     g_EdgeActionRules := g_EdgeActionRules g; g_MCPToolRules := g_MCPToolRules g;
     g_WorkflowOverrides := g_WorkflowOverrides g; g_JobOverrides := g_JobOverrides g;
     g_Invariants := g_Invariants g; g_OutputInvariants := g_OutputInvariants g;
     g_GlobalDefaultDecision := g_GlobalDefaultDecision g;
     g_WorkflowDefaultDecisions := wf; g_JobDefaultDecisions := job;
     g_SnapshotVersion := g_SnapshotVersion g; g_SnapshotHash := g_SnapshotHash g;
     g_WorkflowSnapshot := g_WorkflowSnapshot g; g_JobSnapshot := g_JobSnapshot g |}.

Definition addGlobalRule (g : GlobalPolicy) (rule : PolicyRule) : GlobalPolicy :=
  let rule := with_tier PolicyTierGlobal empty_selector rule in
  if isEdgeActionRule rule then
    set_rules g (g_InputRules g) (g_EdgeActionRules g ++ [rule])%list (g_MCPToolRules g)
      (g_WorkflowOverrides g) (g_JobOverrides g)
  else if isMCPToolRule rule then
    set_rules g (g_InputRules g) (g_EdgeActionRules g) (g_MCPToolRules g ++ [rule])%list
      (g_WorkflowOverrides g) (g_JobOverrides g)
  else
    set_rules g (g_InputRules g ++ [rule])%list (g_EdgeActionRules g) (g_MCPToolRules g)
      (g_WorkflowOverrides g) (g_JobOverrides g).

Definition addRule (g : GlobalPolicy) (rule : PolicyRule) : GlobalPolicy :=
  let tier := NormalizePolicyTier (r_Tier rule) in
  let rule := with_tier tier (TrimPolicySelector (r_Selector rule)) rule in
  let key := PolicySelectorKey (r_Tier rule) (r_Selector rule) in
  if tier =s? PolicyTierWorkflow then
    if negb (key =s? "") then
      set_rules g (g_InputRules g) (g_EdgeActionRules g) (g_MCPToolRules g)
        (appendScopedRule (g_WorkflowOverrides g) key rule) (g_JobOverrides g)
    else addGlobalRule g rule
  else if tier =s? PolicyTierJob then
    if negb (key =s? "") then
      set_rules g (g_InputRules g) (g_EdgeActionRules g) (g_MCPToolRules g)
        (g_WorkflowOverrides g) (appendScopedRule (g_JobOverrides g) key rule)
    else addGlobalRule g rule
  else addGlobalRule g rule.

Definition addTierDefault (g : GlobalPolicy) (def : PolicyTierDefault) : GlobalPolicy :=
  let decision := normalizedOptionalDecision (td_Decision def) in
  if decision =s? "" then g
  else
    let key := PolicySelectorKey (td_Tier def) (td_Selector def) in
    let t := NormalizePolicyTier (td_Tier def) in
    if t =s? PolicyTierWorkflow then
      if negb (key =s? "")
      then set_defaults g (<[key := decision]> (g_WorkflowDefaultDecisions g)) (g_JobDefaultDecisions g)
      else g
    else if t =s? PolicyTierJob then
      if negb (key =s? "")
      then set_defaults g (g_WorkflowDefaultDecisions g) (<[key := decision]> (g_JobDefaultDecisions g))
      else g
    else g.

Definition addPolicyLevelDefault (g : GlobalPolicy) (policy : SafetyPolicy) : GlobalPolicy :=
  let decision := normalizedOptionalDecision (DefaultDecision policy) in
  if decision =s? "" then g
  else
    let tier := NormalizePolicyTier (Tier policy) in
    if tier =s? PolicyTierGlobal then g
    else addTierDefault g (mkPolicyTierDefault tier (TrimPolicySelector (Selector policy)) decision).

Definition FromSafetyPolicy (policy : option SafetyPolicy) (invariants : list PolicyRule)
    (outputInvariants : list OutputPolicyRule) (snapshot : string) (scopedSnapshots : list string)
    : GlobalPolicy :=
  let g :=
    {| g_InputRules := [];
       g_OutputRules := match policy with Some p => OutputRules p | None => [] end;
       g_EdgeActionRules := []; g_MCPToolRules := []; g_WorkflowOverrides := ∅;
       g_JobOverrides := ∅; g_Invariants := cloneRulesWithTier invariants PolicyTierGlobal;
       g_OutputInvariants := outputInvariants;
       g_GlobalDefaultDecision :=
         match policy with
         | Some p => if NormalizePolicyTier (Tier p) =s? PolicyTierGlobal
                     then normalizedOptionalDecision (DefaultDecision p) else ""
         | None => ""
         end;
       g_WorkflowDefaultDecisions := ∅; g_JobDefaultDecisions := ∅;
       g_SnapshotVersion := snapshot; g_SnapshotHash := snapshot;
       g_WorkflowSnapshot := match scopedSnapshots with s :: _ => TrimSpace s | [] => snapshot end;
       g_JobSnapshot := match scopedSnapshots with _ :: s :: _ => TrimSpace s | _ => snapshot end |} in
  match policy with
  | None => g
  | Some p =>
      let g := addPolicyLevelDefault g p in
      let g := foldl addTierDefault g (TierDefaults p) in
      foldl addRule g (Rules p)
  end.

(** ** Rules for a request *)

Definition rulesForScopedSection (g : GlobalPolicy) (workflowID jobID : string)
    (include : PolicyRule -> bool) (globalRules : list PolicyRule) : list PolicyRule :=
  let workflowID := TrimSpace workflowID in
  let jobID := TrimSpace jobID in
  let '(invariantDenies, invariantAllows) := splitGlobalInvariantRules (g_Invariants g) in
  let rules := invariantDenies in
  let rules := if negb (jobID =s? "")
    then appendScopedRulesForSection rules (get_list (g_JobOverrides g) jobID) include else rules in
  let rules := if negb (workflowID =s? "")
    then appendScopedRulesForSection rules (get_list (g_WorkflowOverrides g) workflowID) include
    else rules in
  (rules ++ globalRules ++ invariantAllows)%list.

Definition RulesForJobWorkflow (g : GlobalPolicy) (workflowID jobID : string) : list PolicyRule :=
  let workflowID := TrimSpace workflowID in
  let jobID := TrimSpace jobID in
  let '(invariantDenies, invariantAllows) := splitGlobalInvariantRules (g_Invariants g) in
  let rules := invariantDenies in
  let rules := if negb (jobID =s? "")
    then appendInputScopedRules rules (get_list (g_JobOverrides g) jobID) else rules in
  let rules := if negb (workflowID =s? "")
    then appendInputScopedRules rules (get_list (g_WorkflowOverrides g) workflowID) else rules in
  (rules ++ g_InputRules g ++ invariantAllows)%list.

(** The variadic accessors; [scope] is [None] without the two scope arguments. *)
Definition RulesForInput (g : GlobalPolicy) (scope : option (string * string)) : list PolicyRule :=
  match scope with
  | Some (workflowID, jobID) => RulesForJobWorkflow g workflowID jobID
  | None => concatRules (g_Invariants g) (g_InputRules g)
  end.

Definition RulesForEdgeAction (g : GlobalPolicy) (scope : option (string * string)) : list PolicyRule :=
  match scope with
  | Some (workflowID, jobID) =>
      rulesForScopedSection g workflowID jobID isEdgeActionRule (g_EdgeActionRules g)
  | None => concatRules (g_Invariants g) (g_EdgeActionRules g)
  end.

Definition RulesForMCPTool (g : GlobalPolicy) (scope : option (string * string)) : list PolicyRule :=
  match scope with
  | Some (workflowID, jobID) =>
      rulesForScopedSection g workflowID jobID isMCPToolRule (g_MCPToolRules g)
  | None => concatRules (g_Invariants g) (g_MCPToolRules g)
  end.

Definition RulesForOutput (g : GlobalPolicy) : list OutputPolicyRule :=
  if negb (nonempty (g_OutputInvariants g)) then g_OutputRules g
  else (g_OutputInvariants g ++ g_OutputRules g)%list.

(** The default and the tier that supplied it. *)
Definition DefaultDecisionForJobWorkflowTier (g : GlobalPolicy) (workflowID jobID : string)
    : string * string :=
  match scopedDefault (g_JobDefaultDecisions g) (g_JobOverrides g) jobID with
  | Some decision => (decision, PolicyTierJob)
  | None =>
      match scopedDefault (g_WorkflowDefaultDecisions g) (g_WorkflowOverrides g) workflowID with
      | Some decision => (decision, PolicyTierWorkflow)
      | None =>
          if negb (g_GlobalDefaultDecision g =s? "")
          then (g_GlobalDefaultDecision g, PolicyTierGlobal)
          else ("deny", PolicyTierGlobal)
      end
  end.

Definition DefaultDecisionForJobWorkflow (g : GlobalPolicy) (workflowID jobID : string) : string :=
  (DefaultDecisionForJobWorkflowTier g workflowID jobID).1.

(** ** Invariants baked into the evaluated policy *)

Definition splitKernelInvariantRulesByDecision (rules : list PolicyRule)
    : list PolicyRule * list PolicyRule :=
  let floor (r : PolicyRule) :=
    let d := ToLower (TrimSpace (r_Decision r)) in
    (d =s? "deny") || (d =s? "require_approval") || (d =s? "require-approval")
    || (d =s? "require_human") || (d =s? "throttle") in
  (List.filter floor rules, List.filter (fun r => negb (floor r)) rules).

Definition applyKernelInvariants `{GoRuntime} (base inv : option SafetyPolicy)
    : option SafetyPolicy :=
  match inv with
  | None => option_map CloneSafetyPolicy base
  | Some inv =>
      let out := match base with Some b => CloneSafetyPolicy b | None => empty_policy end in
      let '(denies, allows) := splitKernelInvariantRulesByDecision (Rules inv) in
      Some {|
        Version := Version out; Tier := Tier out; Selector := Selector out;
        Rules := (denies ++ Rules out ++ allows)%list;
        InputPolicy := InputPolicy out;
        InputRules := (InputRules inv ++ InputRules out)%list;
        RequireHuman := RequireHuman out;
        OutputPolicy := {|
          opc_Enabled := if negb (opc_Enabled (OutputPolicy out)) && opc_Enabled (OutputPolicy inv)
                         then true else opc_Enabled (OutputPolicy out);
          opc_FailMode := if TrimSpace (opc_FailMode (OutputPolicy out)) =s? ""
                          then TrimSpace (opc_FailMode (OutputPolicy inv))
                          else opc_FailMode (OutputPolicy out) |};
        OutputRules := (OutputRules inv ++ OutputRules out)%list;
        DefaultTenant := DefaultTenant out; DefaultDecision := DefaultDecision out;
        Tenants := Tenants out; TierDefaults := TierDefaults out |}
  end.

(** ** Scope of a request *)

Fixpoint pickLabel (labels : gmap string string) (keys : list string) : string :=
  match keys with
  | [] => ""
  | key :: rest =>
      match labels !! key with
      | Some val => if negb (TrimSpace val =s? "") then TrimSpace val else pickLabel labels rest
      | None => pickLabel labels rest
      end
  end.

Definition extractMCPRequest (labels : gmap string string) : MCPRequest :=
  if negb (map_nonempty labels) then empty_mcp_request
  else {| mr_Server := pickLabel labels ["mcp.server"; "mcp_server"; "mcpServer"];
          mr_Tool := pickLabel labels ["mcp.tool"; "mcp_tool"; "mcpTool"];
          mr_Resource := pickLabel labels ["mcp.resource"; "mcp_resource"; "mcpResource"];
          mr_Action := ToLower (pickLabel labels ["mcp.action"; "mcp_action"; "mcpAction"]) |}.

Definition resolvePolicyScope (labels : gmap string string) (reqJobID : string) : string * string :=
  let workflowID := pickLabel labels
    ["workflow_id"; "workflow.id"; "workflow"; "workflow_run_id"; "workflow.run_id"] in
  let jobID := pickLabel labels [PolicyAttachmentID] in
  let jobID := if jobID =s? "" then TrimSpace reqJobID else jobID in
  let jobID := if jobID =s? ""
    then pickLabel labels ["job_id"; "job.id"; "edge.job_id"; "session_id"; "edge.session_id"]
    else jobID in
  (workflowID, jobID).

Definition policyScopeMCPUsed (req : MCPRequest) : bool :=
  negb (TrimSpace (mr_Server req) =s? "") || negb (TrimSpace (mr_Tool req) =s? "")
  || negb (TrimSpace (mr_Resource req) =s? "") || negb (TrimSpace (mr_Action req) =s? "").

Definition scopedPolicyForRequest (base : option SafetyPolicy) (global : option GlobalPolicy)
    (workflowID jobID topic : string) (labels : gmap string string) : option SafetyPolicy :=
  match base, global with
  | Some b, Some g =>
      let '(defaultDecision, defaultTier) := DefaultDecisionForJobWorkflowTier g workflowID jobID in
      let rules :=
        if TrimSpace topic =s? EdgeActionTopic then RulesForEdgeAction g (Some (workflowID, jobID))
        else if policyScopeMCPUsed (extractMCPRequest labels)
        then RulesForMCPTool g (Some (workflowID, jobID))
        else RulesForInput g (Some (workflowID, jobID)) in
      Some {| Version := Version b; Tier := defaultTier; Selector := empty_selector;
              Rules := rules; InputPolicy := mkInputPolicyConfig false "" 0; InputRules := [];
              RequireHuman := zero_threshold; OutputPolicy := mkOutputPolicyConfig false "";
              OutputRules := []; DefaultTenant := DefaultTenant b;
              DefaultDecision := defaultDecision; Tenants := Tenants b; TierDefaults := [] |}
  | _, _ => base
  end.

(** * Properties *)

(** ** Buckets *)

(** Where a rule of the merged policy is filed. *)
Inductive bucket :=
| BInput | BEdge | BMCP | BWorkflow (key : string) | BJob (key : string).

#[export] Instance bucket_eq_dec : EqDecision bucket.
Proof. solve_decision. Defined.

Definition rule_bucket (r : PolicyRule) : bucket :=
  let t := NormalizePolicyTier (r_Tier r) in
  let key := PolicySelectorKey t (r_Selector r) in
  if (t =s? PolicyTierWorkflow) && negb (key =s? "") then BWorkflow key
  else if (t =s? PolicyTierJob) && negb (key =s? "") then BJob key
  else if isEdgeActionRule r then BEdge
  else if isMCPToolRule r then BMCP
  else BInput.

(** The rule as it is stored: with its own tier when scoped, as a global one otherwise. *)
Definition placed (r : PolicyRule) : PolicyRule :=
  match rule_bucket r with
  | BWorkflow _ | BJob _ =>
      with_tier (NormalizePolicyTier (r_Tier r)) (TrimPolicySelector (r_Selector r)) r
  | _ => with_tier PolicyTierGlobal empty_selector r
  end.

Definition bucket_get (g : GlobalPolicy) (b : bucket) : list PolicyRule :=
  match b with
  | BInput => g_InputRules g
  | BEdge => g_EdgeActionRules g
  | BMCP => g_MCPToolRules g
  | BWorkflow key => get_list (g_WorkflowOverrides g) key
  | BJob key => get_list (g_JobOverrides g) key
  end.

Lemma get_list_append m k k' r :
  get_list (appendScopedRule m k r) k' =
  (get_list m k' ++ (if decide (k = k') then [r] else []))%list.
Proof.
  unfold appendScopedRule, get_list. destruct (decide (k = k')) as [->|Hne].
  - by rewrite lookup_insert_eq.
  - by rewrite lookup_insert_ne, app_nil_r.
Qed.

(** Adding a rule appends it to its bucket and touches no other. *)
Lemma addRule_bucket g r b :
  bucket_get (addRule g r) b =
  (bucket_get g b ++ (if decide (rule_bucket r = b) then [placed r] else []))%list.
Proof.
  unfold addRule, placed, rule_bucket. cbn [with_tier r_Tier r_Selector].
  rewrite PolicySelectorKey_trim.
  assert (forall r' : PolicyRule, r_Match r' = r_Match r ->
    bucket_get (addGlobalRule g r') b =
    (bucket_get g b ++
     (if decide ((if isEdgeActionRule r then BEdge else if isMCPToolRule r then BMCP else BInput) = b)
      then [with_tier PolicyTierGlobal empty_selector r'] else []))%list) as Hglob.
  { intros r' Hm. unfold addGlobalRule.
    assert (isEdgeActionRule (with_tier PolicyTierGlobal empty_selector r') = isEdgeActionRule r) as ->
      by (unfold isEdgeActionRule; cbn; by rewrite Hm).
    assert (isMCPToolRule (with_tier PolicyTierGlobal empty_selector r') = isMCPToolRule r) as ->
      by (unfold isMCPToolRule; cbn; by rewrite Hm).
    destruct (isEdgeActionRule r), (isMCPToolRule r), b; cbn; by rewrite ?app_nil_r. }
  set (t := NormalizePolicyTier (r_Tier r)). set (key := PolicySelectorKey t (r_Selector r)).
  destruct (String.eqb_spec t PolicyTierWorkflow) as [Hw|Hw];
    [|destruct (String.eqb_spec t PolicyTierJob) as [Hj|Hj]];
    destruct (String.eqb_spec key "") as [Hk|Hk]; cbn [negb andb];
    rewrite ?Hw, ?Hj; cbn [negb andb];
    try (rewrite Hglob by done; by repeat case_match).
  - destruct b; cbn; rewrite ?app_nil_r; try done; rewrite get_list_append;
      repeat case_decide; simplify_eq; done.
  - destruct b; cbn; rewrite ?app_nil_r; try done; rewrite get_list_append;
      repeat case_decide; simplify_eq; done.
Qed.

Lemma addTierDefault_bucket g d b : bucket_get (addTierDefault g d) b = bucket_get g b.
Proof. unfold addTierDefault. by repeat case_match. Qed.

Lemma addPolicyLevelDefault_bucket g p b : bucket_get (addPolicyLevelDefault g p) b = bucket_get g b.
Proof. unfold addPolicyLevelDefault. repeat case_match; rewrite ?addTierDefault_bucket; done. Qed.

Lemma foldl_addTierDefault_bucket g ds b : bucket_get (foldl addTierDefault g ds) b = bucket_get g b.
Proof.
  revert g. induction ds as [|d ds IH]; intros g; [done|]. simpl. by rewrite IH, addTierDefault_bucket.
Qed.

Lemma foldl_addRule_bucket g rs b :
  bucket_get (foldl addRule g rs) b =
  (bucket_get g b ++ map placed (filter (fun r => rule_bucket r = b) rs))%list.
Proof.
  revert g. induction rs as [|r rs IH]; intros g; simpl; [by rewrite app_nil_r|].
  rewrite IH, addRule_bucket, filter_cons, <- app_assoc. by case_decide.
Qed.

(** Each bucket holds exactly the rules filed under it, in policy order. *)
Lemma FromSafetyPolicy_bucket p inv oinv snap scoped b :
  bucket_get (FromSafetyPolicy (Some p) inv oinv snap scoped) b =
  map placed (filter (fun r => rule_bucket r = b) (Rules p)).
Proof.
  unfold FromSafetyPolicy. rewrite foldl_addRule_bucket, foldl_addTierDefault_bucket,
    addPolicyLevelDefault_bucket. destruct b; cbn; unfold get_list; by rewrite ?lookup_empty.
Qed.

(** The fields that the folds leave alone. *)
Lemma addRule_frame g r :
  g_Invariants (addRule g r) = g_Invariants g /\
  g_JobDefaultDecisions (addRule g r) = g_JobDefaultDecisions g /\
  g_WorkflowDefaultDecisions (addRule g r) = g_WorkflowDefaultDecisions g /\
  g_GlobalDefaultDecision (addRule g r) = g_GlobalDefaultDecision g.
Proof. unfold addRule, addGlobalRule. by repeat case_match. Qed.

Lemma addTierDefault_frame g d :
  g_Invariants (addTierDefault g d) = g_Invariants g /\
  g_GlobalDefaultDecision (addTierDefault g d) = g_GlobalDefaultDecision g.
Proof. unfold addTierDefault. by repeat case_match. Qed.

Lemma foldl_frame {A B} (f : GlobalPolicy -> A -> GlobalPolicy) (proj : GlobalPolicy -> B) l g :
  (forall g x, proj (f g x) = proj g) -> proj (foldl f g l) = proj g.
Proof. intros Hf. revert g. induction l as [|x l IH]; intros g; [done|]. simpl. by rewrite IH, Hf. Qed.

Lemma FromSafetyPolicy_invariants p inv oinv snap scoped :
  g_Invariants (FromSafetyPolicy p inv oinv snap scoped) = cloneRulesWithTier inv PolicyTierGlobal.
Proof.
  unfold FromSafetyPolicy. destruct p as [p|]; [|done].
  rewrite (foldl_frame addRule g_Invariants) by (intros; apply addRule_frame).
  rewrite (foldl_frame addTierDefault g_Invariants) by (intros; apply addTierDefault_frame).
  unfold addPolicyLevelDefault. case_match; [done|]. case_match; [done|].
  by rewrite (proj1 (addTierDefault_frame _ _)).
Qed.

(** ** The rules of a request, tier by tier *)

Definition inv_denies (g : GlobalPolicy) := (splitGlobalInvariantRules (g_Invariants g)).1.
Definition inv_allows (g : GlobalPolicy) := (splitGlobalInvariantRules (g_Invariants g)).2.

(** The section of the request: which rules count, and the global bucket. *)
Definition section_of (g : GlobalPolicy) (topic : string) (labels : gmap string string)
    : (PolicyRule -> bool) * list PolicyRule :=
  if TrimSpace topic =s? EdgeActionTopic then (isEdgeActionRule, g_EdgeActionRules g)
  else if policyScopeMCPUsed (extractMCPRequest labels) then (isMCPToolRule, g_MCPToolRules g)
  else ((fun r => negb (isEdgeActionRule r || isMCPToolRule r)), g_InputRules g).

Definition scoped (m : gmap string (list PolicyRule)) (id : string) (include : PolicyRule -> bool)
    : list PolicyRule :=
  if TrimSpace id =s? "" then [] else List.filter include (get_list m (TrimSpace id)).

(** Floor, job, workflow, global, and the permissive invariants last. *)
Definition tiers (g : GlobalPolicy) (wf job topic : string) (labels : gmap string string)
    : list (list PolicyRule) :=
  let '(include, globals) := section_of g topic labels in
  [inv_denies g; scoped (g_JobOverrides g) job include; scoped (g_WorkflowOverrides g) wf include;
   globals; inv_allows g].

Lemma scoped_section_tiers g wf job include globals :
  rulesForScopedSection g wf job include globals =
  concat [inv_denies g; scoped (g_JobOverrides g) job include;
          scoped (g_WorkflowOverrides g) wf include; globals; inv_allows g].
Proof.
  unfold rulesForScopedSection, scoped, appendScopedRulesForSection, inv_denies, inv_allows. cbn.
  repeat case_match; cbn; by rewrite ?app_nil_r, <- ?app_assoc.
Qed.

Lemma input_section_tiers g wf job :
  RulesForJobWorkflow g wf job =
  rulesForScopedSection g wf job (fun r => negb (isEdgeActionRule r || isMCPToolRule r)) (g_InputRules g).
Proof. reflexivity. Qed.

Lemma scopedPolicy_rules b g wf job topic labels p :
  scopedPolicyForRequest (Some b) (Some g) wf job topic labels = Some p ->
  Rules p = concat (tiers g wf job topic labels) /\ Tenants p = Tenants b /\
  (DefaultDecision p, Tier p) = DefaultDecisionForJobWorkflowTier g wf job.
Proof.
  unfold scopedPolicyForRequest. destruct (DefaultDecisionForJobWorkflowTier g wf job) as [d t].
  intros [= <-]. cbn [Rules Tenants DefaultDecision Tier]. split; [|done].
  unfold tiers, section_of, RulesForEdgeAction, RulesForMCPTool, RulesForInput.
  rewrite input_section_tiers, !scoped_section_tiers. by repeat case_match.
Qed.

Section Decisions.
  Context `{GoRuntime} `{FloatParser}.

Lemma Evaluate_rules p i :
  Rules p <> [] ->
  Evaluate p i = default (DefaultPolicyDecision p) (find_first (rule_hit i) (Rules p)).
Proof. intros Hne. rewrite Evaluate_compose. unfold EffectiveRules. by destruct (Rules p). Qed.

Lemma floor_decision d :
  isGlobalInvariantDeny d = true ->
  normalizeDecision d ∈ ["deny"; "require_approval"; "throttle"].
Proof.
  unfold isGlobalInvariantDeny. rewrite !orb_true_iff, !String.eqb_eq. unfold normalizeDecision.
  intros [[[[-> | ->]| ->]| ->]| ->]; cbn; set_solver.
Qed.

Lemma floor_in_denies g r :
  r ∈ g_Invariants g -> isGlobalInvariantDeny (r_Decision r) = true -> r ∈ inv_denies g.
Proof.
  intros Hr Hd. unfold inv_denies, splitGlobalInvariantRules. cbn.
  apply list_elem_of_In, filter_In. split; [by apply list_elem_of_In | done].
Qed.

Lemma find_first_member i (l : list PolicyRule) r :
  r ∈ l -> rule_spec (r_Match r) i ->
  exists r', r' ∈ l /\ rule_spec (r_Match r') i /\ find_first (rule_hit i) l = Some (BuildDecision r').
Proof.
  intros Hr Hm. destruct (find_first (rule_hit i) l) as [d|] eqn:E.
  - apply find_first_some_in in E as (r' & Hr' & [Hm' ->]%rule_hit_some). eauto.
  - rewrite find_first_none in E. specialize (E r Hr). by apply rule_hit_none in E.
Qed.

(** The security floor cannot be crossed.  When an invariant with a deny,
    approval or throttle decision matches, no job, workflow or global rule, no
    topic and no label changes the outcome: the decision is that of an invariant
    of the floor, and it never allows. *)
Theorem invariant_floor b g wf job topic labels p i r :
  scopedPolicyForRequest (Some b) (Some g) wf job topic labels = Some p ->
  r ∈ g_Invariants g -> isGlobalInvariantDeny (r_Decision r) = true -> rule_spec (r_Match r) i ->
  Decision (Evaluate p i) ∈ ["deny"; "require_approval"; "throttle"] /\
  exists r', r' ∈ g_Invariants g /\ isGlobalInvariantDeny (r_Decision r') = true /\
    rule_spec (r_Match r') i /\ Evaluate p i = BuildDecision r'.
Proof.
  intros (HR & _)%scopedPolicy_rules Hr Hd Hm.
  destruct (find_first_member i (inv_denies g) r) as (r' & Hr' & Hm' & Hf); [by apply floor_in_denies|done|].
  assert (isGlobalInvariantDeny (r_Decision r') = true /\ r' ∈ g_Invariants g) as [Hd' Hin].
  { apply list_elem_of_In, filter_In in Hr' as [Hin ?]. split; [done | by apply list_elem_of_In]. }
  assert (find_first (rule_hit i) (Rules p) = Some (BuildDecision r')) as Hev.
  { rewrite HR, find_first_concat. unfold tiers. destruct (section_of g topic labels).
    simpl. by rewrite Hf. }
  rewrite Evaluate_rules by (intros E; by rewrite E in Hev). rewrite Hev. cbn [default].
  split; [by apply floor_decision | eauto 10].
Qed.

End Decisions.

(** ** Filing and isolation *)

(** The projection files every rule of the merged policy in exactly one
    bucket (input, edge action, MCP tool, one workflow, one job), in policy order
    and with its match, velocity, decision and constraints untouched. *)
Theorem projection_partitions p inv oinv snap scopes b :
  bucket_get (FromSafetyPolicy (Some p) inv oinv snap scopes) b =
    map placed (filter (fun r => rule_bucket r = b) (Rules p)) /\
  forall r, r_Match (placed r) = r_Match r /\ r_Decision (placed r) = r_Decision r /\
    r_Velocity (placed r) = r_Velocity r /\ r_Constraints (placed r) = r_Constraints r.
Proof.
  split; [apply FromSafetyPolicy_bucket|]. intros r. unfold placed. by destruct (rule_bucket r).
Qed.

Lemma elem_of_scoped m id include r :
  r ∈ scoped m id include -> TrimSpace id <> "" /\ r ∈ get_list m (TrimSpace id).
Proof.
  unfold scoped. destruct (String.eqb_spec (TrimSpace id) ""); [intros Hr; inversion Hr|].
  intros Hr. split; [done|]. apply list_elem_of_In, filter_In in Hr as [Hr _]. by apply list_elem_of_In.
Qed.

Lemma elem_of_bucket p inv oinv snap scopes b r :
  r ∈ bucket_get (FromSafetyPolicy (Some p) inv oinv snap scopes) b ->
  exists r0, r0 ∈ Rules p /\ rule_bucket r0 = b /\ r = placed r0.
Proof.
  rewrite FromSafetyPolicy_bucket. intros (r0 & -> & Hr0)%list_elem_of_fmap.
  apply list_elem_of_filter in Hr0 as [Hb Hr0]. eauto.
Qed.

(** Scopes are isolated.  Every rule that a request is evaluated against is
    an invariant, an unscoped rule of the policy, or a rule scoped to the request's
    own job or workflow; rules of other jobs and workflows are never consulted. *)
Theorem scope_isolation p inv oinv snap scopes wf job topic labels r :
  r ∈ concat (tiers (FromSafetyPolicy (Some p) inv oinv snap scopes) wf job topic labels) ->
  (exists r0, r0 ∈ inv /\ r = with_tier PolicyTierGlobal empty_selector r0) \/
  (exists r0, r0 ∈ Rules p /\ r = placed r0 /\
     rule_bucket r0 ∈ [BInput; BEdge; BMCP; BJob (TrimSpace job); BWorkflow (TrimSpace wf)]).
Proof.
  set (g := FromSafetyPolicy (Some p) inv oinv snap scopes).
  assert (forall r, r ∈ g_Invariants g ->
    exists r0, r0 ∈ inv /\ r = with_tier PolicyTierGlobal empty_selector r0) as Hinv.
  { intros r'. unfold g. rewrite FromSafetyPolicy_invariants.
    intros (r0 & -> & Hr0)%list_elem_of_fmap. exists r0. by split. }
  assert (forall b, r ∈ bucket_get g b ->
    b ∈ [BInput; BEdge; BMCP; BJob (TrimSpace job); BWorkflow (TrimSpace wf)] ->
    exists r0, r0 ∈ Rules p /\ r = placed r0 /\
      rule_bucket r0 ∈ [BInput; BEdge; BMCP; BJob (TrimSpace job); BWorkflow (TrimSpace wf)]) as Hb.
  { intros b (r0 & Hr0 & Hbk & ->)%elem_of_bucket Hin. exists r0. by rewrite Hbk. }
  assert (forall f, r ∈ List.filter f (g_Invariants g) -> r ∈ g_Invariants g) as Hsub.
  { intros f Hr. apply list_elem_of_In, filter_In in Hr as [Hr _]. by apply list_elem_of_In. }
  unfold tiers, section_of, inv_denies, inv_allows, splitGlobalInvariantRules. cbn [fst snd]. intros Hr.
  assert (r ∈ g_Invariants g \/ (exists b, r ∈ bucket_get g b /\
    b ∈ [BInput; BEdge; BMCP; BJob (TrimSpace job); BWorkflow (TrimSpace wf)])) as [Hi|(b & Hr' & Hin)].
  { repeat case_match; simplify_eq; cbn [concat] in Hr; rewrite !elem_of_app in Hr;
      destruct Hr as [Hr|[Hr|[Hr|[Hr|[Hr|Hr]]]]];
      try (apply elem_of_scoped in Hr as [_ Hr]);
      first [ inversion Hr; fail
            | left; by eapply Hsub
            | right; exists (BJob (TrimSpace job)); split; [exact Hr | set_solver]
            | right; exists (BWorkflow (TrimSpace wf)); split; [exact Hr | set_solver]
            | right; exists BEdge; split; [exact Hr | set_solver]
            | right; exists BMCP; split; [exact Hr | set_solver]
            | right; exists BInput; split; [exact Hr | set_solver] ]. }
  - left. by apply Hinv.
  - right. by eapply Hb.
Qed.

(** Scoped defaults fail closed.  A job (or, without any job policy, a
    workflow) that has rules of its own but no default of its own denies what
    its rules do not cover, even when an outer tier defaults to allow. *)
Theorem scoped_default_fail_closed g wf job :
  (TrimSpace job <> "" -> get_list (g_JobOverrides g) (TrimSpace job) <> [] ->
   g_JobDefaultDecisions g !! TrimSpace job = None ->
   DefaultDecisionForJobWorkflowTier g wf job = ("deny", PolicyTierJob)) /\
  (TrimSpace wf <> "" -> get_list (g_WorkflowOverrides g) (TrimSpace wf) <> [] ->
   g_WorkflowDefaultDecisions g !! TrimSpace wf = None ->
   get_list (g_JobOverrides g) (TrimSpace job) = [] ->
   g_JobDefaultDecisions g !! TrimSpace job = None ->
   DefaultDecisionForJobWorkflowTier g wf job = ("deny", PolicyTierWorkflow)).
Proof.
  unfold DefaultDecisionForJobWorkflowTier, scopedDefault, get_str. split.
  - intros Hj Hr Hd. rewrite (eqb_ne _ _ Hj), Hd. cbn. apply nonempty_iff in Hr. by rewrite Hr.
  - intros Hw Hr Hd Hjr Hjd. rewrite (eqb_ne _ _ Hw), Hd, Hjd, Hjr. cbn.
    apply nonempty_iff in Hr. rewrite Hr. by destruct (TrimSpace job =s? "").
Qed.

(** ** Witnesses and counterexamples *)

Definition topic_rule (id tier : string) (sel : PolicySelector) (topic decision : string) : PolicyRule :=
  mkPolicyRule id tier sel
    (mkPolicyMatch [] [topic] [] [] [] [] [] [] [] [] ∅ ∅ ∅ None "" None empty_mcp)
    None decision "" empty_constraints [].

Definition ex_policy (default : string) (rules : list PolicyRule) : SafetyPolicy :=
  {| Version := "1"; Tier := ""; Selector := empty_selector; Rules := rules;
     InputPolicy := mkInputPolicyConfig false "" 0; InputRules := [];
     RequireHuman := zero_threshold; OutputPolicy := mkOutputPolicyConfig false "";
     OutputRules := []; DefaultTenant := ""; DefaultDecision := default; Tenants := ∅;
     TierDefaults := [] |}.

Definition ex_job_allow : PolicyRule :=
  topic_rule "job-allow" "job" (mkPolicySelector "" "j1" "") "job.prod" "allow".

Definition ex_global (inv : string) : GlobalPolicy :=
  FromSafetyPolicy (Some (ex_policy "" [ex_job_allow]))
    [topic_rule "no-prod" "" empty_selector "job.prod" inv] [] "" [].

(** The decision for a request on [job.prod] by job [j1]. *)
Definition ex_decide (g : GlobalPolicy) (labels : gmap string string) : string :=
  match scopedPolicyForRequest (Some (ex_policy "" [])) (Some g) "" "j1" "job.prod" labels with
  | Some p => Decision (@Evaluate fwd_runtime wit_parser p
      {| Tenant := "t"; Topic := "job.prod"; Labels := labels; Meta := empty_meta;
         SecretsPresent := false; in_MCP := extractMCPRequest labels; Delegation := None;
         Action := None |})
  | None => ""
  end.

Lemma invariant_floor_witness :
  exists p, scopedPolicyForRequest (Some (ex_policy "" [])) (Some (ex_global "deny")) "" "j1" "job.prod" ∅
            = Some p /\
    Decision (@Evaluate fwd_runtime wit_parser p (wit_input "t" "job.prod"))
      ∈ ["deny"; "require_approval"; "throttle"].
Proof.
  eexists. split; [reflexivity|].
  apply (@invariant_floor fwd_runtime wit_parser (ex_policy "" []) (ex_global "deny") "" "j1" "job.prod" ∅ _
           (wit_input "t" "job.prod") (topic_rule "no-prod" "global" empty_selector "job.prod" "deny")).
  - reflexivity.
  - left.
  - reflexivity.
  - apply (@matchRule_spec fwd_runtime wit_parser). vm_compute. reflexivity.
Defined.


Lemma scope_isolation_witness :
  rule_bucket ex_job_allow = BJob "j1" /\
  ((exists r0, r0 ∈ [topic_rule "no-prod" "" empty_selector "job.prod" "deny"] /\
     placed ex_job_allow = with_tier PolicyTierGlobal empty_selector r0) \/
   (exists r0, r0 ∈ [ex_job_allow] /\ placed ex_job_allow = placed r0 /\
     rule_bucket r0 ∈ [BInput; BEdge; BMCP; BJob (TrimSpace "j1"); BWorkflow (TrimSpace "")])).
Proof.
  split; [reflexivity|].
  apply (scope_isolation (ex_policy "" [ex_job_allow])
    [topic_rule "no-prod" "" empty_selector "job.prod" "deny"] [] "" [] "" "j1" "job.prod" ∅
    (placed ex_job_allow)).
  right. left.
Defined.

Lemma scoped_default_fail_closed_witness :
  DefaultDecisionForJobWorkflowTier (ex_global "deny") "" "j1" = ("deny", PolicyTierJob).
Proof.
  apply (proj1 (scoped_default_fail_closed (ex_global "deny") "" "j1"));
    [discriminate | discriminate | reflexivity].
Defined.

(** [block] is accepted as a synonym of [deny] by the evaluator but not by
    the partition of invariants: an invariant that says [block] is filed with the
    permissive ones, and a job rule that allows the same topic crosses it, while
    the same invariant spelt [deny] holds. *)
Theorem block_invariant_crossed :
  normalizeDecision "block" = "deny" /\
  ex_decide (ex_global "deny") ∅ = "deny" /\ ex_decide (ex_global "block") ∅ = "allow".
Proof. split; [reflexivity|]. split; vm_compute; reflexivity. Qed.

(** The sections are exclusive.  A request that carries an MCP label is
    evaluated against MCP rules only: a global rule that denies the topic stops
    the plain request and not the labelled one, which gets the default. *)
Theorem mcp_label_hides_input_rules :
  let g := FromSafetyPolicy (Some (ex_policy "allow" [topic_rule "no-prod" "" empty_selector "job.prod" "deny"]))
             [] [] "" [] in
  ex_decide g ∅ = "deny" /\ ex_decide g {["mcp.tool" := "fs.read"]} = "allow".
Proof. split; vm_compute; reflexivity. Qed.
