(* ===== verification/Velocity.v ===== *)
(** * Velocity rules ([core/controlplane/safetykernel/velocity.go])

    The sliding-window counter kept in a Redis sorted set per bucket, the two Lua
    scripts over it, and the velocity-aware rule loop of the kernel.

    A bucket is a sorted set, member to score (a Unix second), with the instant
    at which Redis drops it.  Redis executes a script atomically, so one script
    is one step.  Whether the round trip succeeds is an input of each call. *)
From S2P Require Import Prelude.
From S2P Require Import GoStrings.
From S2P Require Import PolicyTypes.
From S2P Require Import PolicyNames.
From S2P Require Import SafetyPolicy.
From Stdlib Require Import Ascii.

Open Scope string_scope.

Record bucket_set := mkBucketSet {
  zmembers : gmap string Z;
  zexpires : option Z;
}.

Abbreviation redis := (gmap string bucket_set).

(** The members Redis still holds under a key at second [now]. *)
Definition zget (st : redis) (now : Z) (key : string) : gmap string Z :=
  match st !! key with
  | None => ∅
  | Some b =>
      match zexpires b with
      | Some e => if (e <=? now)%Z then ∅ else zmembers b
      | None => zmembers b
      end
  end.

(** [ZREMRANGEBYSCORE key -inf window_start] *)
Definition zprune (m : gmap string Z) (window_start : Z) : gmap string Z :=
  filter (fun kv : string * Z => (window_start < kv.2)%Z) m.

Definition velocityLua (st : redis) (key : string) (now window_start : Z) (member : string)
    (window_ttl : Z) : redis * Z :=
  let m := <[member := now]> (zprune (zget st now key) window_start) in
  (<[key := mkBucketSet m (Some (now + window_ttl)%Z)]> st, Z.of_nat (size m)).

(** Pruning keeps the expiry; a key whose set becomes empty is gone. *)
Definition velocityCheckOnlyLua (st : redis) (key : string) (now window_start : Z) : redis * Z :=
  let m := zprune (zget st now key) window_start in
  (if bool_decide (m = ∅) then delete key st
   else <[key := mkBucketSet m (match st !! key with Some b => zexpires b | None => None end)]> st,
   Z.of_nat (size m)).

(** ** Keys *)

Definition sanitize_char (c : Ascii.ascii) : Ascii.ascii :=
  if existsb (Ascii.eqb c) [":"%char; " "%char; "010"%char; "013"%char; "009"%char]
  then "_"%char else c.

Fixpoint sanitizeKeyValue (raw : string) : string :=
  match raw with
  | EmptyString => EmptyString
  | String c r => String (sanitize_char c) (sanitizeKeyValue r)
  end.

Definition velocityKey (ruleID keyValue : string) : string :=
  "cordum:velocity:" +:+ sanitizeKeyValue ruleID +:+ ":" +:+ sanitizeKeyValue keyValue.

(** ** Checks *)

Inductive VelocityError :=
| ErrInvalidConfig (max window : Z)
| ErrRedis.

(** [redis_ok] is false when the round trip fails; the script has then not run. *)
Definition CheckAndRecord (st : redis) (redis_ok : bool) (now : Z)
    (ruleID keyValue requestID : string) (cfg : VelocityConfig)
    : redis * result VelocityError (bool * Z) :=
  if (MaxRequests cfg <=? 0)%Z || (WindowSeconds cfg <=? 0)%Z
  then (st, Err (ErrInvalidConfig (MaxRequests cfg) (WindowSeconds cfg)))
  else
    let windowStart := (now - WindowSeconds cfg)%Z in
    let ttl := (WindowSeconds cfg + 60)%Z in
    if negb redis_ok then (st, Err ErrRedis)
    else
      let '(st, count) := velocityLua st (velocityKey ruleID keyValue) now windowStart requestID ttl in
      (st, Ok ((MaxRequests cfg <? count)%Z, count)).

Definition CheckOnly (st : redis) (redis_ok : bool) (now : Z) (ruleID keyValue : string)
    (cfg : VelocityConfig) : redis * result VelocityError (bool * Z) :=
  if (MaxRequests cfg <=? 0)%Z || (WindowSeconds cfg <=? 0)%Z
  then (st, Err (ErrInvalidConfig (MaxRequests cfg) (WindowSeconds cfg)))
  else
    let windowStart := (now - WindowSeconds cfg)%Z in
    if negb redis_ok then (st, Err ErrRedis)
    else
      let '(st, count) := velocityCheckOnlyLua st (velocityKey ruleID keyValue) now windowStart in
      (st, Ok ((MaxRequests cfg <? count)%Z, count)).

(** [anon] is the random member generated for a request without a job id. *)
Definition resolveVelocityMember (jobID anon : string) : string :=
  if negb (jobID =s? "") then jobID else anon.

Definition hasVelocityRules (rules : list PolicyRule) : bool :=
  existsb (fun r => match r_Velocity r with Some _ => true | None => false end) rules.

(** ** The rule loop *)

Definition Unlimited : Z := -1.

(** What the loop reads of the server and the environment. *)
Record velocity_env := mkVelocityEnv {
  ve_checker : bool;          (* s.velocityChecker != nil *)
  ve_limit : Z;               (* s.velocityRuleLimit() *)
  ve_fail_mode : string;      (* VELOCITY_FAIL_MODE *)
  ve_redis_ok : string -> bool; (* does the round trip for this rule succeed *)
  ve_now : Z;
  ve_anon : string -> string;   (* the random member drawn for this rule *)
}.

Definition velocity_unavailable : PolicyDecision :=
  {| Decision := "require_approval"; Reason := "velocity check unavailable"; RuleID := "";
     RuleTier := PolicyTierGlobal; Constraints := empty_constraints; ApprovalRequired := true;
     Remediations := [] |}.

Definition velocityCheck (env : velocity_env) (dryRun : bool) (jobID keyValue : string)
    (rule : PolicyRule) (v : VelocityConfig) (st : redis) : redis * result VelocityError (bool * Z) :=
  if dryRun then CheckOnly st (ve_redis_ok env (r_ID rule)) (ve_now env) (r_ID rule) keyValue v
  else CheckAndRecord st (ve_redis_ok env (r_ID rule)) (ve_now env) (r_ID rule) keyValue
         (resolveVelocityMember jobID (ve_anon env (r_ID rule))) v.

Section Loop.
  Context `{GoRuntime} `{FloatParser}.

Fixpoint velocityLoop (env : velocity_env) (dryRun : bool) (jobID : string) (input : PolicyInput)
    (count : Z) (rules : list PolicyRule) (st : redis) : redis * option PolicyDecision :=
  match rules with
  | [] => (st, None)
  | rule :: rest =>
      let count := match r_Velocity rule with Some _ => (count + 1)%Z | None => count end in
      if (match r_Velocity rule with Some _ => true | None => false end)
         && negb (ve_limit env =? Unlimited)%Z && (ve_limit env <? count)%Z
      then velocityLoop env dryRun jobID input count rest st
      else if negb (matchRule (r_Match rule) input)
      then velocityLoop env dryRun jobID input count rest st
      else
        match r_Velocity rule with
        | None => (st, Some (BuildDecision rule))
        | Some v =>
            if negb (ve_checker env) then velocityLoop env dryRun jobID input count rest st
            else
              let keyValue := ResolveKey (Some v) input in
              if keyValue =s? "" then velocityLoop env dryRun jobID input count rest st
              else
                let '(st, res) := velocityCheck env dryRun jobID keyValue rule v st in
                match res with
                | inl _ =>
                    if ToLower (TrimSpace (ve_fail_mode env)) =s? "open"
                    then velocityLoop env dryRun jobID input count rest st
                    else (st, Some velocity_unavailable)
                | inr (exceeded, _) =>
                    if negb exceeded then velocityLoop env dryRun jobID input count rest st
                    else (st, Some (BuildDecision rule))
                end
        end
  end.

Definition evaluateRulesWithVelocity (env : velocity_env) (policy : SafetyPolicy)
    (input : PolicyInput) (jobID method : string) (st : redis) : redis * PolicyDecision :=
  let dryRun := (method =s? "simulate") || (method =s? "explain") in
  match velocityLoop env dryRun jobID input 0 (EffectiveRules policy) st with
  | (st, Some d) => (st, d)
  | (st, None) => (st, DefaultPolicyDecision policy)
  end.

(** [break] at the limit: the count never passes it. *)
Fixpoint velocityCount (limit count : Z) (rules : list PolicyRule) : Z :=
  match rules with
  | [] => count
  | rule :: rest =>
      match r_Velocity rule with
      | None => velocityCount limit count rest
      | Some _ =>
          if negb (limit =? Unlimited)%Z && (limit <=? count + 1)%Z then (count + 1)%Z
          else velocityCount limit (count + 1)%Z rest
      end
  end.

Definition effectiveVelocityRuleCount (policy : option SafetyPolicy) (limit : Z) : Z :=
  match policy with
  | None => 0
  | Some p => if (limit =? 0)%Z then 0 else velocityCount limit 0 (EffectiveRules p)
  end.

(** How [evaluate] chooses between the two evaluators. *)
Definition evaluateScoped (env : velocity_env) (policy : SafetyPolicy) (input : PolicyInput)
    (jobID method : string) (st : redis) : redis * PolicyDecision :=
  if (0 <? effectiveVelocityRuleCount (Some policy) (ve_limit env))%Z
  then evaluateRulesWithVelocity env policy input jobID method st
  else (st, Evaluate policy input).
End Loop.

(** * Properties *)

(** ** Equivalence with plain evaluation *)

Section LoopProperties.
  Context `{GoRuntime} `{FloatParser}.

Lemma velocityLoop_free env dry job i count rules st :
  hasVelocityRules rules = false ->
  velocityLoop env dry job i count rules st = (st, find_first (rule_hit i) rules).
Proof.
  revert count. induction rules as [|r rules IH]; intros count Hv; [done|]. simpl in *.
  apply orb_false_iff in Hv as [Hr Hv]. destruct (r_Velocity r) eqn:E; [done|]. simpl.
  unfold rule_hit at 1. destruct (matchRule (r_Match r) i); simpl; [done | by apply IH].
Qed.

(** On a policy without velocity rules the velocity-aware loop is plain
    evaluation, whatever the method, the limit and the Redis state, and it leaves
    that state untouched. *)
Theorem velocity_free_equivalence env p i job method st :
  hasVelocityRules (EffectiveRules p) = false ->
  evaluateRulesWithVelocity env p i job method st = (st, Evaluate p i) /\
  evaluateScoped env p i job method st = (st, Evaluate p i).
Proof.
  intros Hv.
  assert (evaluateRulesWithVelocity env p i job method st = (st, Evaluate p i)) as Heq.
  { unfold evaluateRulesWithVelocity. rewrite velocityLoop_free by done. rewrite Evaluate_compose.
    by destruct (find_first _ _). }
  split; [done|]. unfold evaluateScoped. by case_match.
Qed.
End LoopProperties.

(** ** The sliding window *)

Lemma zprune_empty ws : zprune ∅ ws = ∅.
Proof. apply map_filter_empty. Qed.

Section Window.
  Context (cfg : VelocityConfig) (ruleID keyValue : string).
  Context (Hmax : (0 < MaxRequests cfg)%Z) (Hwin : (0 < WindowSeconds cfg)%Z).

(** The requests of one bucket, oldest first, and the last time of each member. *)
Definition record_all (evs : list (Z * string)) (st : redis) : redis :=
  foldl (fun st '(t, m) => (CheckAndRecord st true t ruleID keyValue m cfg).1) st evs.

Definition lastSeen (evs : list (Z * string)) : gmap string Z :=
  foldl (fun acc '(t, m) => <[m := t]> acc) ∅ evs.

(** Times never decrease and never pass [now]. *)
Fixpoint timed (evs : list (Z * string)) (from now : Z) : Prop :=
  match evs with
  | [] => (from <= now)%Z
  | (t, _) :: rest => (from <= t)%Z /\ timed rest t now
  end.

Definition in_window (now : Z) (m : gmap string Z) : gmap string Z :=
  filter (fun kv : string * Z => (now - WindowSeconds cfg < kv.2)%Z) m.

(** What the bucket holds after [evs], the last at [t]. *)
Definition bucket_inv (evs : list (Z * string)) (t : Z) (st : redis) : Prop :=
  (forall m s, lastSeen evs !! m = Some s -> (s <= t)%Z) /\
  zget st t (velocityKey ruleID keyValue) = in_window t (lastSeen evs) /\
  forall now, (t <= now)%Z ->
    zprune (zget st now (velocityKey ruleID keyValue)) (now - WindowSeconds cfg) =
    in_window now (lastSeen evs).

Lemma zprune_in_window t now m :
  (t <= now)%Z -> zprune (in_window t m) (now - WindowSeconds cfg) = in_window now m.
Proof.
  intros Ht. unfold zprune, in_window. rewrite map_filter_filter. apply map_filter_ext.
  intros i x _. simpl. lia.
Qed.

Lemma in_window_insert now m member :
  <[member := now]> (in_window now m) = in_window now (<[member := now]> m).
Proof. unfold in_window. rewrite map_filter_insert_True; [done | simpl; lia]. Qed.

Lemma in_window_stale now m :
  (forall k s, m !! k = Some s -> (s <= now - WindowSeconds cfg)%Z) -> in_window now m = ∅.
Proof. intros Hm. apply map_empty_filter. intros k s Hk. simpl. specialize (Hm k s Hk). lia. Qed.

Lemma CheckAndRecord_step st t member :
  CheckAndRecord st true t ruleID keyValue member cfg =
  let m := <[member := t]> (zprune (zget st t (velocityKey ruleID keyValue)) (t - WindowSeconds cfg)) in
  (<[velocityKey ruleID keyValue := mkBucketSet m (Some (t + (WindowSeconds cfg + 60))%Z)]> st,
   Ok ((MaxRequests cfg <? Z.of_nat (size m))%Z, Z.of_nat (size m))).
Proof.
  unfold CheckAndRecord. destruct (Z.leb_spec (MaxRequests cfg) 0); [lia|].
  destruct (Z.leb_spec (WindowSeconds cfg) 0); [lia|]. done.
Qed.

Lemma bucket_inv_step evs t0 t member st :
  bucket_inv evs t0 st -> (t0 <= t)%Z ->
  bucket_inv (evs ++ [(t, member)])%list t (CheckAndRecord st true t ruleID keyValue member cfg).1.
Proof.
  intros (Hle & _ & Hprune) Ht. rewrite CheckAndRecord_step. cbn [fst].
  rewrite Hprune by done. rewrite in_window_insert.
  assert (lastSeen (evs ++ [(t, member)])%list = <[member := t]> (lastSeen evs)) as HL
    by (unfold lastSeen; by rewrite foldl_app).
  unfold bucket_inv. rewrite HL. set (L := <[member := t]> (lastSeen evs)).
  assert (forall m s, L !! m = Some s -> (s <= t)%Z) as HLt.
  { intros m s Hm. apply lookup_insert_Some in Hm as [[_ <-]|[_ Hm]]; [lia|].
    specialize (Hle m s Hm). lia. }
  assert (forall now, zget (<[velocityKey ruleID keyValue := mkBucketSet (in_window t L)
      (Some (t + (WindowSeconds cfg + 60))%Z)]> st) now (velocityKey ruleID keyValue) =
      if (t + (WindowSeconds cfg + 60) <=? now)%Z then ∅ else in_window t L) as Hget.
  { intros now. unfold zget. by rewrite lookup_insert_eq. }
  split; [done|]. split.
  - rewrite Hget. destruct (Z.leb_spec (t + (WindowSeconds cfg + 60)) t); [lia | done].
  - intros now Hnow. rewrite Hget.
    destruct (Z.leb_spec (t + (WindowSeconds cfg + 60)) now).
    + rewrite in_window_stale; [apply map_filter_empty|].
      intros k s Hk. specialize (HLt k s Hk). lia.
    + by apply zprune_in_window.
Qed.

Lemma bucket_inv_all evs t0 now pre st :
  bucket_inv pre t0 st -> timed evs t0 now ->
  exists t, (t <= now)%Z /\ bucket_inv (pre ++ evs)%list t (record_all evs st).
Proof.
  revert t0 pre st. induction evs as [|[t m] evs IH]; intros t0 pre st Hinv Ht; simpl in *.
  { exists t0. rewrite app_nil_r. done. }
  destruct Ht as [Ht0 Ht]. rewrite (cons_middle (t, m) pre evs), app_assoc.
  eapply IH; [|done]. by eapply bucket_inv_step.
Qed.

(** The sliding window is exact.  After any time-ordered history of requests
    to a fresh bucket, the next request at [now] is told the number of distinct
    requesters seen in the last [window_seconds] (itself included), and is told it
    exceeded the limit exactly when that number passes [max_requests]; neither
    the pruning nor the key's expiry ever drops a request that still counts. *)
Theorem velocity_window_exact evs from now member st :
  st !! velocityKey ruleID keyValue = None -> timed evs from now ->
  let n := Z.of_nat (size (in_window now (lastSeen (evs ++ [(now, member)])%list))) in
  (CheckAndRecord (record_all evs st) true now ruleID keyValue member cfg).2 =
  Ok ((MaxRequests cfg <? n)%Z, n).
Proof.
  intros Hfresh Ht.
  assert (forall t, zget st t (velocityKey ruleID keyValue) = ∅) as H0.
  { intros t. unfold zget. by rewrite Hfresh. }
  assert (bucket_inv [] from st) as Hinv.
  { split; [done|]. split; [rewrite H0; symmetry; apply map_filter_empty|].
    intros n _. by rewrite H0. }
  destruct (bucket_inv_all evs from now [] st Hinv Ht) as (t & Hle & (_ & _ & Hp)).
  rewrite CheckAndRecord_step. cbn [snd]. simpl in Hp. rewrite Hp by done.
  rewrite in_window_insert. unfold lastSeen. by rewrite foldl_app.
Qed.

Lemma zget_check_only st now t :
  (now <= t)%Z ->
  zprune (zget (CheckOnly st true now ruleID keyValue cfg).1 t (velocityKey ruleID keyValue))
    (t - WindowSeconds cfg) =
  zprune (zget st t (velocityKey ruleID keyValue)) (t - WindowSeconds cfg).
Proof.
  intros Hle. unfold CheckOnly. destruct (_ || _); [done|]. cbn [negb fst].
  set (k := velocityKey ruleID keyValue). set (m := zprune (zget st now k) (now - WindowSeconds cfg)).
  assert (forall x, zprune (zprune x (now - WindowSeconds cfg)) (t - WindowSeconds cfg) =
                    zprune x (t - WindowSeconds cfg)) as Hpp.
  { intros x. unfold zprune. rewrite map_filter_filter. apply map_filter_ext.
    intros i z _. simpl. lia. }
  unfold velocityCheckOnlyLua. fold m. cbn [fst].
  assert (forall e, zget st now k <> ∅ -> st !! k = Some e ->
    zget st now k = zmembers e /\ (forall x, zexpires e = Some x -> (now < x)%Z)) as Hlive.
  { intros e Hne He. unfold zget in *. rewrite He in *. destruct (zexpires e) as [x|]; [|done].
    destruct (Z.leb_spec x now); [done|]. split; [done|]. intros ? [= <-]. done. }
  case_bool_decide as Hm.
  - unfold zget at 1. rewrite lookup_delete_eq, zprune_empty.
    unfold zget. destruct (st !! k) as [e|] eqn:He; [|by rewrite zprune_empty].
    assert (zprune (zmembers e) (t - WindowSeconds cfg) = ∅ \/
            exists x, zexpires e = Some x /\ (x <= now)%Z) as [Hz|(x & Hx & Hxn)].
    { unfold m, zget in Hm. rewrite He in Hm. destruct (zexpires e) as [x|].
      - destruct (Z.leb_spec x now); [right; eauto|]. left. by rewrite <- Hpp, Hm.
      - left. by rewrite <- Hpp, Hm. }
    + destruct (zexpires e); [case_match|]; by rewrite ?Hz, ?zprune_empty.
    + rewrite Hx. destruct (Z.leb_spec x t); [by rewrite zprune_empty | lia].
  - assert (zget st now k <> ∅) as Hne.
    { intros E. apply Hm. unfold m. rewrite E. apply map_filter_empty. }
    destruct (st !! k) as [e|] eqn:He.
    2: { exfalso. apply Hne. unfold zget. by rewrite He. }
    destruct (Hlive e Hne eq_refl) as [Hget Hexp].
    unfold zget. rewrite lookup_insert_eq, He. cbn [zexpires zmembers].
    unfold m. rewrite Hget. destruct (zexpires e); [case_match|]; rewrite ?Hpp; done.
Qed.

(** A dry run ([simulate], [explain]) never advances a window: whatever was
    asked before, a later recorded request gets the verdict and the count it would
    have had without the dry run. *)
Theorem dry_run_transparent st now t member :
  (now <= t)%Z ->
  (CheckAndRecord (CheckOnly st true now ruleID keyValue cfg).1 true t ruleID keyValue member cfg).2 =
  (CheckAndRecord st true t ruleID keyValue member cfg).2.
Proof. intros Hle. rewrite !CheckAndRecord_step. cbn [snd]. by rewrite zget_check_only. Qed.
End Window.

(** ** Witnesses and counterexamples *)

Definition ex_env (limit : Z) : velocity_env :=
  mkVelocityEnv true limit "" (fun _ => true) 1000 (fun _ => "anon").

Definition ex_velocity_policy (v : option VelocityConfig) : SafetyPolicy :=
  {| Version := "1"; Tier := ""; Selector := empty_selector;
     Rules := [mkPolicyRule "burst" "" empty_selector empty_match v "deny" "too many" empty_constraints []];
     InputPolicy := mkInputPolicyConfig false "" 0; InputRules := [];
     RequireHuman := zero_threshold; OutputPolicy := mkOutputPolicyConfig false "";
     OutputRules := []; DefaultTenant := ""; DefaultDecision := "allow"; Tenants := ∅;
     TierDefaults := [] |}.

Definition ex_burst : VelocityConfig := mkVelocityConfig 100 60 "tenant".

Lemma velocity_free_equivalence_witness :
  @evaluateScoped fwd_runtime wit_parser (ex_env 3) (ex_velocity_policy None)
    (wit_input "t" "job.a") "j1" "check" ∅ =
  (∅, @Evaluate fwd_runtime wit_parser (ex_velocity_policy None) (wit_input "t" "job.a")).
Proof.
  apply (@velocity_free_equivalence fwd_runtime wit_parser (ex_env 3) (ex_velocity_policy None)).
  reflexivity.
Defined.

Lemma velocity_window_exact_witness :
  let evs := [(10, "a"); (20, "b"); (20, "a")]%Z in
  (CheckAndRecord (record_all (mkVelocityConfig 2 60 "tenant") "r" "t" evs ∅) true 75 "r" "t" "c"
     (mkVelocityConfig 2 60 "tenant")).2 = Ok (true, 3%Z).
Proof.
  apply (velocity_window_exact (mkVelocityConfig 2 60 "tenant") "r" "t"
           ltac:(reflexivity) ltac:(reflexivity) [(10, "a"); (20, "b"); (20, "a")]%Z 0 75 "c" ∅).
  - reflexivity.
  - simpl. lia.
Defined.

Lemma dry_run_transparent_witness :
  (CheckAndRecord (CheckOnly ∅ true 5 "r" "t" (mkVelocityConfig 2 60 "tenant")).1 true 9 "r" "t" "c"
     (mkVelocityConfig 2 60 "tenant")).2 =
  (CheckAndRecord ∅ true 9 "r" "t" "c" (mkVelocityConfig 2 60 "tenant")).2.
Proof.
  apply (dry_run_transparent (mkVelocityConfig 2 60 "tenant") "r" "t");
    [reflexivity | reflexivity | lia].
Defined.

(** With a velocity-rule limit of zero the loop would skip every velocity
    rule, but the kernel then evaluates without the loop, and the plain evaluator
    fires velocity rules unconditionally: the very first request of a tenant that
    is allowed a hundred per minute is denied. *)
Theorem velocity_limit_zero_fires :
  let p := ex_velocity_policy (Some ex_burst) in
  let i := wit_input "t" "job.a" in
  Decision (@evaluateRulesWithVelocity fwd_runtime wit_parser (ex_env 0) p i "j1" "check" ∅).2 = "allow" /\
  Decision (@evaluateScoped fwd_runtime wit_parser (ex_env 0) p i "j1" "check" ∅).2 = "deny" /\
  Decision (@evaluateScoped fwd_runtime wit_parser (ex_env 3) p i "j1" "check" ∅).2 = "allow".
Proof. vm_compute. repeat split. Qed.

(** Sanitising a bucket key merges distinct buckets: [:] separates the parts
    of a compound key and is replaced by [_], so two tenants with different topics
    can share one window although their resolved keys differ. *)
Theorem velocity_bucket_collision :
  let v := mkVelocityConfig 5 60 "tenant:topic" in
  let i1 := wit_input "a" "job.x_job.y" in
  let i2 := wit_input "a_job.x" "job.y" in
  ResolveKey (Some v) i1 <> ResolveKey (Some v) i2 /\
  velocityKey "r" (ResolveKey (Some v) i1) = velocityKey "r" (ResolveKey (Some v) i2).
Proof. vm_compute. split; [discriminate | reflexivity]. Qed.
