(* ===== verification/ContentPolicy.v ===== *)
(** * Content rules of the safety kernel

    [core/controlplane/safetykernel]: input_policy.go, output_policy.go,
    output_resource.go and the keyword scanner of scanners.go.  Rules are compiled
    once per policy and evaluated against the payload of a request or a result.

    Outside the model, and parameters here: the regular-expression engine, the
    registered scanners, the structured scope evaluator and the resource reader. *)
From S2P Require Import Prelude.
From S2P Require Import GoStrings.
From S2P Require Import GoPath.
From S2P Require Import PolicyTypes.
From S2P Require Import PolicyNames.
From S2P Require Import SafetyPolicy.
From S2P Require Import PolicyMerge.
From Stdlib Require Import Ascii.

Open Scope string_scope.

Definition maxOutputScanBytes : Z := 2 * 1024 * 1024.
Definition maxRegexLen : Z := 256.
Definition maxAlternations : Z := 5.
Definition maxFindingsPerPattern : nat := 10.
Definition maxFindingsPerScanner : nat := 32.

Record outputFinding := mkOutputFinding {
  f_Type : string;
  f_Severity : string;
  f_Detail : string;
  f_Offset : Z;
  f_Length : Z;
  f_Scanner : string;
  f_Confidence : spec_float;
  f_MatchedPattern : string;
}.

Definition zero_conf : spec_float := S754_zero false.
(** The [float32] constants [0.9] and [1.0]. *)
Definition conf_0_9 : spec_float := S754_finite false 15099494 (-24).
Definition conf_1_0 : spec_float := S754_finite false 8388608 (-23).

Definition simple_finding (type severity detail scanner : string) : outputFinding :=
  mkOutputFinding type severity detail 0 0 scanner zero_conf "".

(** Regular expressions: whether a pattern compiles, and the first [n] matches in
    a text as (start, end) pairs; the empty list is Go's nil, "no match". *)
Class Regexp := {
  re_compiles : string -> bool;
  re_find : string -> string -> nat -> list (nat * nat);
}.

Definition re_match `{Regexp} (pat text : string) : bool := nonempty (re_find pat text 1).

(** A registry entry may be a nil scanner. *)
Definition scanner := option (string -> list outputFinding).

Definition blen (s : string) : Z := Z.of_nat (String.length s).

(** ** Shared helpers *)

Definition normalizeSeverity (raw : string) : string :=
  let s := ToLower (TrimSpace raw) in
  if (s =s? "critical") || (s =s? "high") || (s =s? "medium") || (s =s? "low")
  then ToLower (TrimSpace raw) else "high".

Definition normalizeList (values : list string) : list string :=
  List.filter (fun v => negb (v =s? "")) (map TrimSpace values).

Definition normalizeScannerName (raw : string) : string :=
  let name := ToLower (TrimSpace raw) in
  if name =s? "secret_leak" then "secret"
  else if name =s? "code_injection" then "injection"
  else name.

(** The closure [add] of [mergeScannerLists], threading [seen]. *)
Fixpoint addScanners (values : list string) (seen : gset string) (out : list string)
    : gset string * list string :=
  match values with
  | [] => (seen, out)
  | value :: rest =>
      let name := normalizeScannerName value in
      if name =s? "" then addScanners rest seen out
      else if bool_decide (name ∈ seen) then addScanners rest seen out
      else addScanners rest ({[name]} ∪ seen) (out ++ [name])%list
  end.

Definition mergeScannerLists (primary secondary : list string) : list string :=
  let '(seen, out) := addScanners primary ∅ [] in
  (addScanners secondary seen out).2.

Definition containsAnyFold (values required : list string) : bool :=
  if negb (nonempty values) || negb (nonempty required) then false
  else existsb (fun value =>
    existsb (fun req => EqualFold (TrimSpace value) (TrimSpace req)) required) values.

Definition configMatch (pattern value : string) : bool :=
  let pattern := TrimSpace pattern in
  if pattern =s? "" then false else PathMatch pattern value.

Definition matchAny (patterns : list string) (value : string) : bool :=
  if value =s? "" then false else existsb (fun pat => configMatch pat value) patterns.

Definition truncateFinding (raw : string) (limit : nat) : string :=
  let raw := TrimSpace raw in
  if (String.length raw <=? limit)%nat then raw else take limit raw.

(** [[+*]\)[+*?{]], the nested-quantifier heuristic. *)
Fixpoint nestedQuantifier (s : string) : bool :=
  match s with
  | EmptyString => false
  | String a r =>
      (match r with
       | String b (String c _) =>
           (Ascii.eqb a "+" || Ascii.eqb a "*") && Ascii.eqb b ")"
           && (Ascii.eqb c "+" || Ascii.eqb c "*" || Ascii.eqb c "?" || Ascii.eqb c "{")
       | _ => false
       end) || nestedQuantifier r
  end.

Definition countByte (c : ascii) (s : string) : Z :=
  Z.of_nat (List.length (List.filter (Ascii.eqb c) (String.list_ascii_of_string s))).

(** [true] when the pattern is acceptable. *)
Definition validateRegexComplexity (pat : string) : bool :=
  if (maxRegexLen <? blen pat)%Z then false
  else if nestedQuantifier pat then false
  else if (maxAlternations <? countByte "|" pat)%Z then false
  else true.

(** The pattern-compilation loop shared by input and output rules. *)
Definition compilePatterns `{Regexp} (raws : list string) : list string :=
  omap (fun raw =>
    let pat := TrimSpace raw in
    if pat =s? "" then None
    else if negb (validateRegexComplexity pat) then None
    else if negb (re_compiles pat) then None
    else Some pat) raws.

(** [strings.Index] *)
Fixpoint Index (s sub : string) : option nat :=
  if HasPrefix s sub then Some 0%nat
  else match s with
       | EmptyString => None
       | String _ r => option_map S (Index r sub)
       end.

(** ** The keyword scanner *)

Definition keywordFinding (kw : string) (absPos : nat) : outputFinding :=
  mkOutputFinding "keyword_match" "high" ("keyword matched: " +:+ kw) (Z.of_nat absPos)
    (blen (ToLower kw)) "keyword" conf_1_0 (truncateFinding kw 160).

(** The inner loop; every iteration consumes the keyword, which is not empty, so
    the length of the text is enough fuel.  The flag is the early return at the cap. *)
Fixpoint scanKeyword (fuel : nat) (text kw : string) (idx : nat) (findings : list outputFinding)
    : list outputFinding * bool :=
  match fuel with
  | O => (findings, false)
  | S fuel =>
      match Index (drop idx text) (ToLower kw) with
      | None => (findings, false)
      | Some pos =>
          let absPos := (idx + pos)%nat in
          let findings := (findings ++ [keywordFinding kw absPos])%list in
          if (maxFindingsPerScanner <=? List.length findings)%nat then (findings, true)
          else
            let idx := (absPos + String.length (ToLower kw))%nat in
            if (String.length text <=? idx)%nat then (findings, false)
            else scanKeyword fuel text kw idx findings
      end
  end.

Fixpoint scanKeywords (text : string) (kws : list string) (findings : list outputFinding)
    : list outputFinding :=
  match kws with
  | [] => findings
  | kw :: rest =>
      match scanKeyword (S (String.length text)) text kw 0 findings with
      | (findings, true) => findings
      | (findings, false) => scanKeywords text rest findings
      end
  end.

Definition keywordScan (keywords : list string) (content : string) : list outputFinding :=
  let entries := List.filter (fun k => negb (k =s? "")) (map TrimSpace keywords) in
  if (content =s? "") || negb (nonempty entries) then []
  else scanKeywords (ToLower content) entries [].

Fixpoint scanNames (content : string) (names : list string) (scanners : gmap string scanner)
    (out : list outputFinding) : list outputFinding :=
  match names with
  | [] => out
  | name :: rest =>
      match scanners !! normalizeScannerName name with
      | Some (Some scan) =>
          let out := (out ++ scan content)%list in
          if (maxFindingsPerScanner <=? List.length out)%nat then firstn maxFindingsPerScanner out
          else scanNames content rest scanners out
      | _ => scanNames content rest scanners out
      end
  end.

Definition scanWithScanners (content : string) (names : list string) (scanners : gmap string scanner)
    : list outputFinding :=
  if (content =s? "") || negb (nonempty names) || negb (bool_decide (dom scanners ≠ ∅)) then []
  else scanNames content names scanners [].

(** ** Input rules *)

Record compiledInputRule := mkCompiledInputRule {
  ci_id : string;
  ci_tier : string;
  ci_selector : PolicySelector;
  ci_decision : string;
  ci_reason : string;
  ci_severity : string;
  ci_tenants : list string;
  ci_topics : list string;
  ci_capabilities : list string;
  ci_riskTags : list string;
  ci_contentTypes : list string;
  ci_scanners : list string;
  ci_patterns : list string;
  ci_keywords : list string;
  ci_maxBytes : Z;
  ci_scope : option ScopeConfig;
}.

Record inputEvaluateRequest := mkInputEvaluateRequest {
  ie_tenant : string;
  ie_topic : string;
  ie_capabilities : list string;
  ie_riskTags : list string;
  ie_contentType : string;
  ie_content : string;
  ie_inputSize : Z;
}.

Definition validateScopeConfig (cfg : ScopeConfig) : bool :=
  if sc_InstructionPath cfg =s? "" then false
  else if sc_ItemsPath cfg =s? "" then false
  else if negb (sc_OnMissingInput cfg =s? "") && negb (sc_OnMissingInput cfg =s? "deny")
          && negb (sc_OnMissingInput cfg =s? "allow") then false
  else if negb (sc_OnAmbiguous cfg =s? "") && negb (sc_OnAmbiguous cfg =s? "deny")
          && negb (sc_OnAmbiguous cfg =s? "allow") then false
  else true.

Definition input_decision_valid (decision : string) : bool :=
  (decision =s? "deny") || (decision =s? "require_approval") || (decision =s? "require-approval")
  || (decision =s? "require_human").

(** The body of the loop of [compileInputRules]; [None] is a [continue]. *)
Definition compileInputRule `{Regexp} (policy : SafetyPolicy) (rule : InputPolicyRule)
    : option compiledInputRule :=
  let m := ir_Match rule in
  if (match ir_Enabled rule with Some b => negb b | None => false end) then None
  else
    let decision := ToLower (TrimSpace (ir_Decision rule)) in
    if negb (input_decision_valid decision) then None
    else
      let maxBytes := if (im_MaxInputBytes m <? im_InputSizeGt m)%Z then im_InputSizeGt m
                      else im_MaxInputBytes m in
      let patterns := compilePatterns (im_ContentPatterns m) in
      if nonempty (im_ContentPatterns m) && negb (nonempty patterns) then None
      else if (match im_Scope m with Some sc => negb (validateScopeConfig sc) | None => false end)
      then None
      else
        let ruleTier := if TrimSpace (ir_Tier rule) =s? "" then Tier policy else ir_Tier rule in
        let tier := NormalizePolicyTier ruleTier in
        let selector := MergePolicySelector (Selector policy) (ir_Selector rule) in
        let tier := if negb (IsValidPolicyTier tier) then PolicyTierGlobal else tier in
        let selector := if tier =s? PolicyTierGlobal then empty_selector else selector in
        Some {| ci_id := TrimSpace (ir_ID rule); ci_tier := tier; ci_selector := selector;
                ci_decision := decision; ci_reason := TrimSpace (ir_Reason rule);
                ci_severity := normalizeSeverity (ir_Severity rule);
                ci_tenants := normalizeList (im_Tenants m); ci_topics := normalizeList (im_Topics m);
                ci_capabilities := normalizeList (im_Capabilities m);
                ci_riskTags := normalizeList (im_RiskTags m);
                ci_contentTypes := normalizeList (im_ContentTypes m);
                ci_scanners := mergeScannerLists (im_Scanners m) (im_Detectors m);
                ci_patterns := patterns; ci_keywords := normalizeList (im_Keywords m);
                ci_maxBytes := maxBytes; ci_scope := im_Scope m |}.

Definition compileInputRules `{Regexp} (policy : option SafetyPolicy) : list compiledInputRule :=
  match policy with
  | None => []
  | Some p => omap (compileInputRule p) (InputRules p)
  end.

Definition inputRuleAppliesToScope (rule : compiledInputRule) (workflowID jobID : string) : bool :=
  let t := NormalizePolicyTier (ci_tier rule) in
  if t =s? PolicyTierWorkflow then
    let key := PolicySelectorKey PolicyTierWorkflow (ci_selector rule) in
    negb (key =s? "") && (key =s? workflowID)
  else if t =s? PolicyTierJob then
    let key := PolicySelectorKey PolicyTierJob (ci_selector rule) in
    negb (key =s? "") && (key =s? jobID)
  else t =s? PolicyTierGlobal.

Definition selectInputRulesForScope (rules : list compiledInputRule) (workflowID jobID : string)
    : list compiledInputRule :=
  let workflowID := TrimSpace workflowID in
  let jobID := TrimSpace jobID in
  let pick t := List.filter (fun r => inputRuleAppliesToScope r workflowID jobID
                                      && (NormalizePolicyTier (ci_tier r) =s? t)) rules in
  (pick PolicyTierJob ++ pick PolicyTierWorkflow ++ pick PolicyTierGlobal)%list.

Definition inputMetadataMatches (rule : compiledInputRule) (req : inputEvaluateRequest) : bool :=
  if nonempty (ci_tenants rule) && negb (containsAnyFold [ie_tenant req] (ci_tenants rule)) then false
  else if nonempty (ci_topics rule) && negb (matchAny (ci_topics rule) (ie_topic req)) then false
  else if nonempty (ci_capabilities rule)
          && negb (containsAnyFold (ie_capabilities req) (ci_capabilities rule)) then false
  else if nonempty (ci_riskTags rule)
          && negb (containsAnyFold (ie_riskTags req) (ci_riskTags rule)) then false
  else negb (nonempty (ci_contentTypes rule))
       || containsAnyFold [ie_contentType req] (ci_contentTypes rule).

Definition has_scope (rule : compiledInputRule) : bool :=
  match ci_scope rule with Some _ => true | None => false end.

Definition inputRuleContentSensitive (rule : compiledInputRule) : bool :=
  nonempty (ci_scanners rule) || nonempty (ci_patterns rule) || nonempty (ci_keywords rule)
  || has_scope rule.

Definition inputRuleUsesContentMatchers (rule : compiledInputRule) : bool :=
  nonempty (ci_scanners rule) || nonempty (ci_patterns rule) || nonempty (ci_keywords rule).

Definition inputContentIncomplete (req : inputEvaluateRequest) : bool :=
  (blen (ie_content req) <? ie_inputSize req)%Z.

Definition inputTruncatedFailClosedFinding : outputFinding :=
  simple_finding "content_truncated" "high"
    "declared input size exceeds received content; unscanned tail may violate policy - failing closed"
    "size_check".

Definition evaluateInputSizeRule (rule : compiledInputRule) (req : inputEvaluateRequest)
    : bool * list outputFinding :=
  let size := if (ie_inputSize req <=? 0)%Z then blen (ie_content req) else ie_inputSize req in
  if (size <=? ci_maxBytes rule)%Z then (false, [])
  else (true, [simple_finding "input_size_exceeded" (ci_severity rule)
                 "input size exceeds policy limit" "size_check"]).

Definition evaluateMissingInputRule (rule : compiledInputRule) : bool * list outputFinding :=
  if (match ci_scope rule with
      | Some sc => negb (sc_OnMissingInput sc =s? "allow")
      | None => false
      end)
  then (true, [simple_finding "content_required_but_missing" (ci_severity rule)
                 "scope rule requires structured input content but none was provided"
                 "scope_evaluator"])
  else if inputRuleContentSensitive rule then (false, [])
  else (true, []).

Section Input.
  Context `{Regexp}.
  (** The structured scope evaluator: violated, and its (type, detail) findings. *)
  Context (evaluateScope : ScopeConfig -> string -> bool * list (string * string)).
  Context (scanners : gmap string scanner).

(** The scan steps return [None] for the [ok = false] of the Go code. *)
Definition scanInputScope (rule : compiledInputRule) (content : string) : option (list outputFinding) :=
  match ci_scope rule with
  | None => Some []
  | Some sc =>
      let '(violated, scopeFindings) := evaluateScope sc content in
      let findings := map (fun '(ty, detail) =>
        simple_finding ty (ci_severity rule) detail "scope_evaluator") scopeFindings in
      if negb violated && negb (nonempty findings) then None else Some findings
  end.

Definition scanInputPatterns (rule : compiledInputRule) (content : string)
    (findings : list outputFinding) : option (list outputFinding) :=
  if negb (nonempty (ci_patterns rule)) then Some findings
  else
    let findings := (findings ++ map (fun pat =>
      mkOutputFinding "content_pattern_match" (ci_severity rule) "input content matched pattern"
        0 0 "regex" zero_conf pat)
      (List.filter (fun pat => re_match pat content) (ci_patterns rule)))%list in
    if nonempty findings then Some findings else None.

Definition scanInputKeywords (rule : compiledInputRule) (content : string)
    (findings : list outputFinding) : option (list outputFinding) :=
  if negb (nonempty (ci_keywords rule)) then Some findings
  else
    let matches := keywordScan (ci_keywords rule) content in
    if negb (nonempty matches) && negb (nonempty findings) then None
    else Some (findings ++ matches)%list.

Definition scanInputNamedScanners (rule : compiledInputRule) (content : string)
    (findings : list outputFinding) : option (list outputFinding) :=
  if negb (nonempty (ci_scanners rule)) then Some findings
  else
    let matches := scanWithScanners content (ci_scanners rule) scanners in
    if negb (nonempty matches) && negb (nonempty findings) then None
    else Some (findings ++ matches)%list.

Definition evaluateInputContentRule (rule : compiledInputRule) (content : string)
    : bool * list outputFinding :=
  match scanInputScope rule content with
  | None => (false, [])
  | Some findings =>
  match scanInputPatterns rule content findings with
  | None => (false, [])
  | Some findings =>
  match scanInputKeywords rule content findings with
  | None => (false, [])
  | Some findings =>
  match scanInputNamedScanners rule content findings with
  | None => (false, [])
  | Some findings =>
      if inputRuleUsesContentMatchers rule && negb (nonempty findings) then (false, [])
      else (true, findings)
  end end end end.

Definition evaluateInputRule (rule : compiledInputRule) (req : inputEvaluateRequest)
    : bool * list outputFinding :=
  if negb (inputMetadataMatches rule req) then (false, [])
  else if inputRuleContentSensitive rule && inputContentIncomplete req
  then (true, [inputTruncatedFailClosedFinding])
  else if (0 <? ci_maxBytes rule)%Z then evaluateInputSizeRule rule req
  else if ie_content req =s? "" then evaluateMissingInputRule rule
  else evaluateInputContentRule rule (ie_content req).
End Input.

Definition severityRank (s : string) : Z :=
  let s := ToLower (TrimSpace s) in
  if s =s? "low" then 1 else if s =s? "medium" then 2 else if s =s? "high" then 3
  else if s =s? "critical" then 4 else 0.

(** [hasAction] is [action != nil]; [f.Confidence > 0] and the floor are IEEE tests. *)
Definition shouldDowngradeDenyToRequireHuman (rule : compiledInputRule)
    (findings : list outputFinding) (hasAction : bool) (threshold : RequireHumanThreshold) : bool :=
  let minRank := severityRank (MinSeverityForDeny threshold) in
  if DowngradeWhenPromptOnly threshold && negb hasAction then true
  else if (0 <? minRank)%Z
          && (existsb (fun f => (severityRank (f_Severity f) <? minRank)%Z) findings
              || ((0 <? severityRank (ci_severity rule))%Z
                  && (severityRank (ci_severity rule) <? minRank)%Z)) then true
  else if SFltb zero_conf (MinConfidenceForDeny threshold)
          && existsb (fun f => SFltb zero_conf (f_Confidence f)
                               && SFltb (f_Confidence f) (MinConfidenceForDeny threshold)) findings
  then true
  else false.

Definition inputRuleReason (rule : compiledInputRule) (findings : list outputFinding) : string :=
  if negb (ci_reason rule =s? "") && negb (nonempty findings) then ci_reason rule
  else if nonempty findings then
    let parts := map f_Detail findings in
    if negb (ci_reason rule =s? "") then ci_reason rule +:+ ": " +:+ Join parts ", "
    else "input content flagged: " +:+ Join parts ", "
  else ci_reason rule.

(** ** Output rules *)

Inductive OutputDecision := OUTPUT_ALLOW | OUTPUT_QUARANTINE | OUTPUT_REDACT.

#[export] Instance OutputDecision_eq_dec : EqDecision OutputDecision.
Proof. solve_decision. Defined.

Record compiledOutputRule := mkCompiledOutputRule {
  co_id : string;
  co_decision : OutputDecision;
  co_reason : string;
  co_severity : string;
  co_tenants : list string;
  co_topics : list string;
  co_capabilities : list string;
  co_riskTags : list string;
  co_contentTypes : list string;
  co_scanners : list string;
  co_patterns : list string;
  co_keywords : list string;
  co_maxOutputBytes : Z;
  co_hasError : option bool;
}.

(** The fields of the evaluation request that the rules read. *)
Record OutputEvaluateRequest := mkOutputEvaluateRequest {
  oe_Topic : string;
  oe_Tenant : string;
  oe_ErrorMessage : string;
  oe_ErrorCode : string;
  oe_OutputSizeBytes : Z;
  oe_OutputContent : string;
  oe_Capabilities : list string;
  oe_RiskTags : list string;
  oe_ContentType : string;
}.

Record OutputEvaluateResponse := mkOutputEvaluateResponse {
  os_Decision : string;
  os_Reason : string;
  os_RuleID : string;
  os_Findings : list outputFinding;
  os_PolicySnapshot : string;
}.

Record OutputCheckResponse := mkOutputCheckResponse {
  oc_Decision : OutputDecision;
  oc_Reason : string;
  oc_RuleId : string;
  oc_Findings : list outputFinding;
  oc_PolicySnapshot : string;
}.

Definition parseOutputDecision (raw : string) : option OutputDecision :=
  let d := ToLower (TrimSpace raw) in
  if d =s? "allow" then Some OUTPUT_ALLOW
  else if (d =s? "quarantine") || (d =s? "deny") then Some OUTPUT_QUARANTINE
  else if d =s? "redact" then Some OUTPUT_REDACT
  else None.

Definition outputDecisionString (d : OutputDecision) : string :=
  match d with
  | OUTPUT_QUARANTINE => "quarantine"
  | OUTPUT_REDACT => "redact"
  | OUTPUT_ALLOW => "allow"
  end.

Definition compileOutputRule `{Regexp} (rule : OutputPolicyRule) : option compiledOutputRule :=
  let m := or_Match rule in
  if (match or_Enabled rule with Some b => negb b | None => false end) then None
  else
    match parseOutputDecision (or_Decision rule) with
    | None => None
    | Some decision =>
        let maxBytes := if (om_MaxOutputBytes m <? om_OutputSizeGt m)%Z then om_OutputSizeGt m
                        else om_MaxOutputBytes m in
        let patterns := compilePatterns (om_ContentPatterns m) in
        if nonempty (om_ContentPatterns m) && negb (nonempty patterns) then None
        else
          Some {| co_id := TrimSpace (or_ID rule); co_decision := decision;
                  co_reason := TrimSpace (or_Reason rule);
                  co_severity := normalizeSeverity (or_Severity rule);
                  co_tenants := normalizeList (om_Tenants m);
                  co_topics := normalizeList (om_Topics m);
                  co_capabilities := normalizeList (om_Capabilities m);
                  co_riskTags := normalizeList (om_RiskTags m);
                  co_contentTypes := normalizeList (om_ContentTypes m);
                  co_scanners := mergeScannerLists (om_Scanners m) (om_Detectors m);
                  co_patterns := patterns; co_keywords := normalizeList (om_Keywords m);
                  co_maxOutputBytes := maxBytes; co_hasError := om_HasError m |}
    end.

Definition compileOutputRules `{Regexp} (policy : option SafetyPolicy) : list compiledOutputRule :=
  match policy with
  | None => []
  | Some p => omap compileOutputRule (OutputRules p)
  end.

Definition outputPolicyEnabled (policy : option SafetyPolicy) (rules : list compiledOutputRule) : bool :=
  match policy with
  | None => false
  | Some p =>
      if negb (nonempty rules) then false
      else if opc_Enabled (OutputPolicy p) then true
      else TrimSpace (opc_FailMode (OutputPolicy p)) =s? ""
  end.

Definition outputTruncatedFailClosedReason : string :=
  "content truncated; escalating to quarantine for sensitive output scanners".

Definition outputTruncatedInfoFinding : outputFinding :=
  simple_finding "content_truncated" "info"
    "content exceeded max regex input size (2097152 bytes), truncated" "size_check".

Definition outputTruncatedFailClosedFinding : outputFinding :=
  simple_finding "content_truncated" "high"
    "content exceeded max scan size (2 MiB); unscanned tail may contain secrets — failing closed"
    "size_check".

Definition isSensitiveOutputScanner (scanner : string) : bool :=
  let n := normalizeScannerName scanner in
  (n =s? "secret") || (n =s? "pii") || (n =s? "injection") || (n =s? "prompt_injection").

Definition outputRuleUsesSensitiveScanner (rule : compiledOutputRule) : bool :=
  existsb isSensitiveOutputScanner (co_scanners rule).

Definition outputRulesUseSensitiveScanners (rules : list compiledOutputRule) : bool :=
  existsb outputRuleUsesSensitiveScanner rules.

Definition outputDecisionWeakerThanQuarantine (decision : OutputDecision) : bool :=
  negb (bool_decide (decision = OUTPUT_QUARANTINE)).

Definition outputRuleReason (rule : compiledOutputRule) (findings : list outputFinding) : string :=
  let reason := TrimSpace (co_reason rule) in
  if negb (reason =s? "") then reason
  else match findings with
       | f :: _ => f_Detail f
       | [] =>
           match co_decision rule with
           | OUTPUT_QUARANTINE => "output quarantined by policy"
           | OUTPUT_REDACT => "output requires redaction by policy"
           | OUTPUT_ALLOW => "output allowed by policy"
           end
       end.

Definition truncateOutputContent (content : string) : string * bool :=
  if (blen content <=? maxOutputScanBytes)%Z then (content, false)
  else (take (Z.to_nat maxOutputScanBytes) content, true).

Definition outputContentWasTruncated (declaredSize : Z) (content : string) (locallyTruncated : bool)
    : bool :=
  locallyTruncated || (blen content <? declaredSize)%Z.

Section Output.
  Context `{Regexp}.
  Context (scanners : gmap string scanner).
  (** Whether matching this pattern against this text exceeds the time limit. *)
  Context (timed_out : string -> string -> bool).

(** [None] is nil: on a timeout, and when [FindAllStringIndex] finds no match. *)
Definition runRegexWithTimeout (re text : string) (n : nat) : option (list (nat * nat)) :=
  if timed_out re text then None
  else match re_find re text n with [] => None | hits => Some hits end.

Definition regex_timeout_finding (rule : compiledOutputRule) : outputFinding :=
  simple_finding "regex_timeout" "high"
    "regex pattern timed out - possible ReDoS, output quarantined for safety" (co_id rule).

Definition pattern_finding (rule : compiledOutputRule) (text : string) (hit : nat * nat) : outputFinding :=
  mkOutputFinding "pattern_match" (normalizeSeverity (co_severity rule)) "content pattern matched"
    (Z.of_nat hit.1) (Z.of_nat hit.2 - Z.of_nat hit.1) "content_pattern" conf_0_9
    (truncateFinding (String.substring hit.1 (hit.2 - hit.1) text) 160).

(** The hits of one pattern; the flag is the early return at the cap. *)
Fixpoint addHits (rule : compiledOutputRule) (text : string) (hits : list (nat * nat))
    (out : list outputFinding) : list outputFinding * bool :=
  match hits with
  | [] => (out, false)
  | hit :: rest =>
      let out := (out ++ [pattern_finding rule text hit])%list in
      if (maxFindingsPerScanner <=? List.length out)%nat then (out, true)
      else addHits rule text rest out
  end.

Fixpoint scanPatterns (rule : compiledOutputRule) (text : string) (patterns : list string)
    (out : list outputFinding) : list outputFinding :=
  match patterns with
  | [] => out
  | pattern :: rest =>
      match runRegexWithTimeout pattern text maxFindingsPerPattern with
      | None => scanPatterns rule text rest (out ++ [regex_timeout_finding rule])%list
      | Some hits =>
          match addHits rule text hits out with
          | (out, true) => out
          | (out, false) => scanPatterns rule text rest out
          end
      end
  end.

Definition scanWithContentPatterns (content : string) (rule : compiledOutputRule) : list outputFinding :=
  if content =s? "" then [] else scanPatterns rule content (co_patterns rule) [].

(** One content check of [evaluateOutputRule]: [None] rejects the rule. *)
Definition contentStep (enabled : bool) (content : string) (found findings : list outputFinding)
    : option (list outputFinding) :=
  if negb enabled then Some findings
  else if content =s? "" then None
  else if negb (nonempty found) then None
  else Some (findings ++ found)%list.

Definition outputMetadataMatches (rule : compiledOutputRule) (req : OutputEvaluateRequest) : bool :=
  if nonempty (co_tenants rule) && negb (containsAnyFold [oe_Tenant req] (co_tenants rule)) then false
  else if nonempty (co_topics rule) && negb (matchAny (co_topics rule) (oe_Topic req)) then false
  else if nonempty (co_capabilities rule)
          && negb (containsAnyFold (oe_Capabilities req) (co_capabilities rule)) then false
  else if nonempty (co_riskTags rule)
          && negb (containsAnyFold (oe_RiskTags req) (co_riskTags rule)) then false
  else if nonempty (co_contentTypes rule)
          && negb (containsAnyFold [oe_ContentType req] (co_contentTypes rule)) then false
  else if (match co_hasError rule with
           | Some want =>
               let hasError := negb (TrimSpace (oe_ErrorMessage req) =s? "")
                               || negb (TrimSpace (oe_ErrorCode req) =s? "") in
               negb (Bool.eqb hasError want)
           | None => false
           end) then false
  else if (0 <? co_maxOutputBytes rule)%Z
          && (let size := if (oe_OutputSizeBytes req <=? 0)%Z then blen (oe_OutputContent req)
                          else oe_OutputSizeBytes req in
              (size <=? co_maxOutputBytes rule)%Z) then false
  else true.

Definition evaluateOutputRule (rule : compiledOutputRule) (req : OutputEvaluateRequest)
    : bool * list outputFinding :=
  let content := oe_OutputContent req in
  if negb (outputMetadataMatches rule req) then (false, [])
  else
    match contentStep (nonempty (co_patterns rule)) content
            (scanWithContentPatterns content rule) [] with
    | None => (false, [])
    | Some findings =>
    match contentStep (nonempty (co_keywords rule)) content
            (keywordScan (co_keywords rule) content) findings with
    | None => (false, [])
    | Some findings =>
    match contentStep (nonempty (co_scanners rule)) content
            (scanWithScanners content (co_scanners rule) scanners) findings with
    | None => (false, [])
    | Some findings => (true, findings)
    end end end.

(** The rule loop of [EvaluateOutput]. *)
Fixpoint evaluateOutputLoop (rules : list compiledOutputRule) (req : OutputEvaluateRequest)
    (contentTruncated hasSensitiveScanners : bool) (snapshot : string) : option OutputEvaluateResponse :=
  match rules with
  | [] => None
  | rule :: rest =>
      match evaluateOutputRule rule req with
      | (false, _) => evaluateOutputLoop rest req contentTruncated hasSensitiveScanners snapshot
      | (true, findings) =>
          if contentTruncated && hasSensitiveScanners
             && outputDecisionWeakerThanQuarantine (co_decision rule)
          then Some {| os_Decision := "quarantine"; os_Reason := outputTruncatedFailClosedReason;
                       os_RuleID := co_id rule;
                       os_Findings := (findings ++ [outputTruncatedFailClosedFinding])%list;
                       os_PolicySnapshot := snapshot |}
          else
            let findings := if contentTruncated
                            then (findings ++ [outputTruncatedInfoFinding])%list else findings in
            Some {| os_Decision := outputDecisionString (co_decision rule);
                    os_Reason := outputRuleReason rule findings; os_RuleID := co_id rule;
                    os_Findings := findings; os_PolicySnapshot := snapshot |}
      end
  end.

(** [resolved] is the outcome of [resolveEvaluateOutputResource]: the request with
    its bounded content and whether that content is incomplete, or an error. *)
Definition EvaluateOutput (policy : option SafetyPolicy) (rules : list compiledOutputRule)
    (snapshot : string) (resolved : option (OutputEvaluateRequest * bool)) : OutputEvaluateResponse :=
  let allow := mkOutputEvaluateResponse "allow" "" "" [] snapshot in
  match resolved with
  | None => mkOutputEvaluateResponse "quarantine" "output resource rejected" ""
              [simple_finding "resource_rejected" "critical" "output resource rejected" "resource_resolver"]
              snapshot
  | Some (req, contentTruncated) =>
      if negb (outputPolicyEnabled policy rules) then allow
      else
        let hasSensitiveScanners := outputRulesUseSensitiveScanners rules in
        match evaluateOutputLoop rules req contentTruncated hasSensitiveScanners snapshot with
        | Some resp => resp
        | None =>
            if contentTruncated && hasSensitiveScanners
            then mkOutputEvaluateResponse "quarantine" outputTruncatedFailClosedReason ""
                   [outputTruncatedFailClosedFinding] snapshot
            else allow
        end
  end.

(** The rule loop of the gRPC entry point [CheckOutput]. *)
Fixpoint checkOutputLoop (rules : list compiledOutputRule) (req : OutputEvaluateRequest)
    (contentTruncated hasSensitiveScanners : bool) (snapshot : string) : option OutputCheckResponse :=
  match rules with
  | [] => None
  | rule :: rest =>
      match evaluateOutputRule rule req with
      | (false, _) => checkOutputLoop rest req contentTruncated hasSensitiveScanners snapshot
      | (true, findings) =>
          if contentTruncated && hasSensitiveScanners
             && outputDecisionWeakerThanQuarantine (co_decision rule)
          then Some {| oc_Decision := OUTPUT_QUARANTINE; oc_Reason := outputTruncatedFailClosedReason;
                       oc_RuleId := co_id rule;
                       oc_Findings := (findings ++ [outputTruncatedFailClosedFinding])%list;
                       oc_PolicySnapshot := snapshot |}
          else
            let findings := if contentTruncated
                            then (findings ++ [outputTruncatedInfoFinding])%list else findings in
            Some {| oc_Decision := co_decision rule;
                    oc_Reason := outputRuleReason rule findings; oc_RuleId := co_id rule;
                    oc_Findings := findings; oc_PolicySnapshot := snapshot |}
      end
  end.

Definition CheckOutput (policy : option SafetyPolicy) (rules : list compiledOutputRule)
    (snapshot : string) (resolved : option (OutputEvaluateRequest * bool)) : OutputCheckResponse :=
  let allow := mkOutputCheckResponse OUTPUT_ALLOW "" "" [] snapshot in
  match resolved with
  | None => mkOutputCheckResponse OUTPUT_QUARANTINE "output resource rejected" ""
              [simple_finding "resource_rejected" "critical" "output resource rejected" "resource_resolver"]
              snapshot
  | Some (evalReq, contentTruncated) =>
      if negb (outputPolicyEnabled policy rules) then allow
      else
        let hasSensitiveScanners := outputRulesUseSensitiveScanners rules in
        match checkOutputLoop rules evalReq contentTruncated hasSensitiveScanners snapshot with
        | Some resp => resp
        | None =>
            if contentTruncated && hasSensitiveScanners
            then mkOutputCheckResponse OUTPUT_QUARANTINE outputTruncatedFailClosedReason ""
                   [outputTruncatedFailClosedFinding] snapshot
            else allow
        end
  end.
End Output.

(** ** Output content *)

(** [read] is the resource reader's answer for the reference or pointer of the
    request ([None] on an error); [has_ref] tells whether there is one. *)
Definition resolveEvaluateOutputResource (has_ref : bool) (read : option (string * string))
    (req : OutputEvaluateRequest) : option (OutputEvaluateRequest * bool) :=
  let with_content size content ty :=
    mkOutputEvaluateRequest (oe_Topic req) (oe_Tenant req) (oe_ErrorMessage req) (oe_ErrorCode req)
      size content (oe_Capabilities req) (oe_RiskTags req) ty in
  if negb has_ref then
    let '(content, truncated) := truncateOutputContent (oe_OutputContent req) in
    Some (with_content (oe_OutputSizeBytes req) content (oe_ContentType req),
          outputContentWasTruncated (oe_OutputSizeBytes req) content truncated)
  else
    match read with
    | None => None
    | Some (resolved, mediaType) =>
        if resolved =s? "" then None
        else if negb (oe_OutputContent req =s? "") && negb (oe_OutputContent req =s? resolved) then None
        else
          let '(content, truncated) := truncateOutputContent resolved in
          Some (with_content (blen resolved) content
                  (if negb (mediaType =s? "") then mediaType else oe_ContentType req),
                outputContentWasTruncated (blen resolved) content truncated)
    end.

(** Content, whether it is incomplete, and the declared size it leaves behind. *)
Definition contentForScan (pointer : string) (read : option string) (content errorMessage : string)
    (declared : Z) : option (string * bool * Z) :=
  let scan content declared :=
    if negb (content =s? "") then
      let '(c, truncated) := truncateOutputContent content in
      Some (c, outputContentWasTruncated declared c truncated, declared)
    else
      let message := TrimSpace errorMessage in
      if message =s? "" then Some ("", false, declared)
      else
        let '(c, truncated) := truncateOutputContent message in
        Some (c, outputContentWasTruncated declared c truncated, declared) in
  if negb (TrimSpace pointer =s? "") then
    match read with
    | None => None
    | Some resolved =>
        if resolved =s? "" then None
        else if negb (content =s? "") && negb (content =s? resolved) then None
        else scan resolved (blen resolved)
    end
  else scan content declared.

(** * Properties *)

Section OutputProperties.
  Context `{Regexp}.
  Context (scanners : gmap string scanner) (timed_out : string -> string -> bool).

Definition same_response (a : OutputEvaluateResponse) (b : OutputCheckResponse) : Prop :=
  os_Decision a = outputDecisionString (oc_Decision b) /\ os_Reason a = oc_Reason b /\
  os_RuleID a = oc_RuleId b /\ os_Findings a = oc_Findings b /\
  os_PolicySnapshot a = oc_PolicySnapshot b.

Lemma loops_agree rules req tr sens snap :
  match evaluateOutputLoop scanners timed_out rules req tr sens snap,
        checkOutputLoop scanners timed_out rules req tr sens snap with
  | Some a, Some b => same_response a b
  | None, None => True
  | _, _ => False
  end.
Proof.
  induction rules as [|r rules IH]; [done|]. simpl.
  destruct (evaluateOutputRule scanners timed_out r req) as [[] f]; [|done].
  by destruct (tr && sens && outputDecisionWeakerThanQuarantine (co_decision r)).
Qed.

(** The two entry points of output checking agree.  Given the same resolved
    content, the in-process [EvaluateOutput] and the gRPC [CheckOutput] give the
    same decision, reason, rule and findings. *)
Theorem output_entry_points_agree policy rules snap resolved :
  same_response (EvaluateOutput scanners timed_out policy rules snap resolved)
    (CheckOutput scanners timed_out policy rules snap resolved).
Proof.
  unfold EvaluateOutput, CheckOutput. destruct resolved as [[req tr]|]; [|done].
  destruct (negb (outputPolicyEnabled policy rules)); [done|].
  set (sens := outputRulesUseSensitiveScanners rules).
  pose proof (loops_agree rules req tr sens snap) as Hl.
  destruct (evaluateOutputLoop _ _ _ _ _ _ _), (checkOutputLoop _ _ _ _ _ _ _); try done.
  by destruct (tr && sens).
Qed.

Lemma truncated_loop rules req snap resp :
  checkOutputLoop scanners timed_out rules req true true snap = Some resp ->
  oc_Decision resp = OUTPUT_QUARANTINE.
Proof.
  induction rules as [|r rules IH]; simpl; [done|].
  destruct (evaluateOutputRule scanners timed_out r req) as [[] f]; [|done].
  unfold outputDecisionWeakerThanQuarantine. case_bool_decide; simpl; intros [= <-]; done.
Qed.

(** Incomplete content fails closed.  When output policy is enabled, some
    rule uses a sensitive scanner, and the content is truncated or shorter than
    declared, the result is quarantined: no allow or redact rule, matching or
    not, weakens it, and neither does a content error. *)
Theorem truncated_output_quarantined policy rules snap req :
  outputPolicyEnabled policy rules = true -> outputRulesUseSensitiveScanners rules = true ->
  oc_Decision (CheckOutput scanners timed_out policy rules snap (Some (req, true))) = OUTPUT_QUARANTINE /\
  oc_Decision (CheckOutput scanners timed_out policy rules snap None) = OUTPUT_QUARANTINE.
Proof.
  intros He Hs. split; [|done]. unfold CheckOutput. rewrite He, Hs. simpl.
  destruct (checkOutputLoop _ _ _ _ _ _ _) eqn:E; [by eapply truncated_loop | done].
Qed.

(** ** Content patterns *)

Lemma addHits_nonempty r text hits out :
  nonempty out = true \/ hits <> [] -> nonempty (addHits r text hits out).1 = true.
Proof.
  revert out. induction hits as [|h hits IH]; intros out Ho; simpl; [naive_solver|].
  case_match; simpl; [by destruct out|]. apply IH. left. by destruct out.
Qed.

Lemma scanPatterns_nonempty r text pats out :
  nonempty out = true \/ pats <> [] -> nonempty (scanPatterns timed_out r text pats out) = true.
Proof.
  revert out. induction pats as [|p pats IH]; intros out Ho; simpl; [naive_solver|].
  unfold runRegexWithTimeout. destruct (timed_out p text); [apply IH; left; by destruct out|].
  destruct (re_find p text maxFindingsPerPattern) as [|h hits] eqn:E; [apply IH; left; by destruct out|].
  assert (nonempty (addHits r text (h :: hits) out).1 = true) as Hh
    by (apply addHits_nonempty; right; discriminate).
  destruct (addHits r text (h :: hits) out) as [o []]; simpl in *; [done|]. apply IH. by left.
Qed.

(** An output rule's content patterns never exclude anything.  The scanner
    takes the nil result of "no match" for a timeout and reports a finding, so a
    rule with content patterns accepts every non-empty content that its metadata
    accepts, for every regular-expression engine and whether or not it times out. *)
Theorem pattern_rule_always_fires r req :
  outputMetadataMatches r req = true -> co_patterns r <> [] -> co_keywords r = [] ->
  co_scanners r = [] -> oe_OutputContent req <> "" ->
  (evaluateOutputRule scanners timed_out r req).1 = true.
Proof.
  intros Hm Hp Hk Hs Hc. unfold evaluateOutputRule. rewrite Hm, Hk, Hs. simpl negb. cbn match.
  unfold contentStep, scanWithContentPatterns. rewrite (eqb_ne _ _ Hc).
  rewrite scanPatterns_nonempty by auto. by destruct (nonempty (co_patterns r)).
Qed.
End OutputProperties.

(** ** Input rules *)

Section InputProperties.
  Context `{Regexp}.
  Context (evaluateScope : ScopeConfig -> string -> bool * list (string * string)).
  Context (scanners : gmap string scanner).

(** An input rule that looks at content fails closed on incomplete content:
    when its metadata matches and fewer bytes arrived than were declared, it
    matches, whatever the received part contains. *)
Theorem incomplete_input_matches rule req :
  inputMetadataMatches rule req = true -> inputRuleContentSensitive rule = true ->
  (blen (ie_content req) < ie_inputSize req)%Z ->
  evaluateInputRule evaluateScope scanners rule req = (true, [inputTruncatedFailClosedFinding]).
Proof.
  intros Hm Hs Hlt. unfold evaluateInputRule, inputContentIncomplete. rewrite Hm, Hs.
  by destruct (Z.ltb_spec (blen (ie_content req)) (ie_inputSize req)); [|lia].
Qed.

Definition input_rule_wf (r : compiledInputRule) : Prop :=
  input_decision_valid (ci_decision r) = true /\
  ci_tier r ∈ [PolicyTierGlobal; PolicyTierWorkflow; PolicyTierJob] /\
  (ci_tier r = PolicyTierGlobal -> ci_selector r = empty_selector) /\
  ci_severity r ∈ ["critical"; "high"; "medium"; "low"] /\
  NoDup (ci_scanners r) /\
  Forall (fun p => p <> "" /\ validateRegexComplexity p = true /\ re_compiles p = true) (ci_patterns r) /\
  (forall sc, ci_scope r = Some sc -> validateScopeConfig sc = true).

Lemma addScanners_spec vs seen out :
  (forall n, n ∈ out -> n ∈ seen) -> NoDup out ->
  let '(seen', out') := addScanners vs seen out in (forall n, n ∈ out' -> n ∈ seen') /\ NoDup out'.
Proof.
  revert seen out. induction vs as [|v vs IH]; intros seen out Hs Hd; simpl; [done|].
  destruct (normalizeScannerName v =s? ""); [by apply IH|].
  case_bool_decide; [by apply IH|]. apply IH.
  - intros n Hn. set_solver.
  - apply NoDup_app. repeat split; [done| |apply NoDup_singleton].
    intros x Hx ->%list_elem_of_singleton. set_solver.
Qed.

Lemma mergeScannerLists_NoDup a b : NoDup (mergeScannerLists a b).
Proof.
  unfold mergeScannerLists. pose proof (addScanners_spec a ∅ [] ltac:(set_solver) (NoDup_nil_2)) as H1.
  destruct (addScanners a ∅ []) as [s o]. destruct H1 as [Ho Hd].
  pose proof (addScanners_spec b s o Ho Hd) as H2. destruct (addScanners b s o). apply H2.
Qed.

Lemma compilePatterns_wf raws :
  Forall (fun p => p <> "" /\ validateRegexComplexity p = true /\ re_compiles p = true)
    (compilePatterns raws).
Proof.
  apply Forall_forall. intros p (raw & _ & Hp)%list_elem_of_omap. revert Hp. cbv zeta.
  destruct (String.eqb_spec (TrimSpace raw) ""); [done|].
  destruct (validateRegexComplexity (TrimSpace raw)) eqn:Ev; [|done].
  destruct (re_compiles (TrimSpace raw)) eqn:Er; [|done]. by intros [= <-].
Qed.

Lemma normalizeSeverity_canonical s : normalizeSeverity s ∈ ["critical"; "high"; "medium"; "low"].
Proof.
  unfold normalizeSeverity. destruct (_ || _) eqn:E; [|set_solver].
  rewrite !orb_true_iff, !String.eqb_eq in E. set_solver.
Qed.

(** Compilation only keeps sound input rules: the decision is one that the
    kernel acts on, the tier is known and a global rule has no selector, the
    severity is canonical, scanners are distinct, every pattern passed the
    complexity check and compiles, and the scope block is valid. *)
Theorem compiled_input_rules_wf policy r :
  r ∈ compileInputRules policy -> input_rule_wf r.
Proof.
  destruct policy as [p|]; [|intros Hr; inversion Hr]. simpl.
  intros (rule & _ & Hc)%list_elem_of_omap. unfold compileInputRule in Hc.
  destruct (match ir_Enabled rule with Some b => negb b | None => false end); [done|].
  destruct (input_decision_valid _) eqn:Ed; [|done]. cbn [negb] in Hc.
  destruct (nonempty _ && _); [done|].
  destruct (match im_Scope (ir_Match rule) with Some sc => negb (validateScopeConfig sc) | None => false end)
    eqn:Es; [done|]. injection Hc as <-. unfold input_rule_wf. cbn.
  split; [done|]. split; [|split; [|split; [|split; [|split]]]].
  - destruct (IsValidPolicyTier _) eqn:Ev; cbn [negb]; [|set_solver].
    unfold IsValidPolicyTier in Ev. rewrite NormalizePolicyTier_idem in Ev.
    destruct (_ || _ || _) eqn:Et; [|done].
    rewrite !orb_true_iff, !String.eqb_eq in Et. set_solver.
  - intros ->. done.
  - apply normalizeSeverity_canonical.
  - apply mergeScannerLists_NoDup.
  - apply compilePatterns_wf.
  - intros sc Hsc. rewrite Hsc in Es. by apply negb_false_iff in Es.
Qed.

(** The input rules chosen for a request are those of its own job, then those
    of its own workflow, then the global ones, each in policy order; a rule scoped
    to another job or workflow is never chosen. *)
Theorem input_scope_isolation rules wf job r :
  r ∈ selectInputRulesForScope rules wf job <->
  r ∈ rules /\
  (NormalizePolicyTier (ci_tier r) = PolicyTierGlobal \/
   (NormalizePolicyTier (ci_tier r) = PolicyTierWorkflow /\
    PolicySelectorKey PolicyTierWorkflow (ci_selector r) = TrimSpace wf /\ TrimSpace wf <> "") \/
   (NormalizePolicyTier (ci_tier r) = PolicyTierJob /\
    PolicySelectorKey PolicyTierJob (ci_selector r) = TrimSpace job /\ TrimSpace job <> "")).
Proof.
  unfold selectInputRulesForScope. rewrite !elem_of_app, !list_elem_of_In, !filter_In.
  unfold inputRuleAppliesToScope.
  destruct (String.eqb_spec (NormalizePolicyTier (ci_tier r)) PolicyTierWorkflow) as [Ew|Ew];
    [|destruct (String.eqb_spec (NormalizePolicyTier (ci_tier r)) PolicyTierJob) as [Ej|Ej];
      [|destruct (String.eqb_spec (NormalizePolicyTier (ci_tier r)) PolicyTierGlobal) as [Eg|Eg]]];
    rewrite ?Ew, ?Ej, ?Eg; cbn;
    rewrite ?andb_true_iff, ?andb_false_r, ?negb_true_iff, ?String.eqb_eq, ?String.eqb_neq; split;
    intros Hx; intuition (congruence || discriminate).
Qed.
End InputProperties.

(** ** The keyword scanner *)

Lemma Index_Contains s sub : Index s sub = None <-> Contains s sub = false.
Proof.
  induction s as [|c s IH]; cbn [Index Contains].
  - destruct (HasPrefix "" sub); split; intros; simpl in *; congruence.
  - destruct (HasPrefix (String c s) sub); simpl; [split; intros; congruence|].
    rewrite <- IH. destruct (Index s sub); simpl; split; intros; congruence.
Qed.

Lemma scanKeyword_extends fuel text kw idx fs :
  exists extra, (scanKeyword fuel text kw idx fs).1 = (fs ++ extra)%list.
Proof.
  revert idx fs. induction fuel as [|fuel IH]; intros idx fs; cbn [scanKeyword].
  { exists []. by rewrite app_nil_r. }
  destruct (Index _ _) as [pos|]; [|exists []; by rewrite app_nil_r].
  case_match; [by eexists|]. case_match; [by eexists|].
  destruct (IH (idx + pos + String.length (ToLower kw))%nat
    (fs ++ [keywordFinding kw (idx + pos)])%list) as [extra ->].
  rewrite <- app_assoc. by eexists.
Qed.

Lemma scanKeyword_nonempty fuel text kw fs :
  nonempty (scanKeyword (S fuel) text kw 0 fs).1 = nonempty fs || Contains text (ToLower kw).
Proof.
  cbn [scanKeyword]. replace (drop 0 text) with text by (by destruct text).
  destruct (Index text (ToLower kw)) as [pos|] eqn:E.
  - assert (Contains text (ToLower kw) = true) as ->.
    { destruct (Contains text (ToLower kw)) eqn:Ec; [done|]. by apply Index_Contains in Ec; congruence. }
    rewrite orb_true_r.
    case_match; [by destruct fs|]. case_match; [by destruct fs|].
    destruct (scanKeyword_extends fuel text kw (0 + pos + String.length (ToLower kw))
      (fs ++ [keywordFinding kw (0 + pos)])%list) as [extra ->]. by destruct fs.
  - apply Index_Contains in E. rewrite E. by rewrite orb_false_r.
Qed.

(** The cap: below it before, at most at it after, and below it when not capped. *)
Lemma scanKeyword_cap fuel text kw idx fs :
  (List.length fs < maxFindingsPerScanner)%nat ->
  let '(out, capped) := scanKeyword fuel text kw idx fs in
  (List.length out <= maxFindingsPerScanner)%nat /\
  (capped = false -> (List.length out < maxFindingsPerScanner)%nat).
Proof.
  revert idx fs. induction fuel as [|fuel IH]; intros idx fs Hl; cbn [scanKeyword]; [lia|].
  destruct (Index _ _) as [pos|]; [|lia].
  destruct (Nat.leb_spec maxFindingsPerScanner
    (List.length (fs ++ [keywordFinding kw (idx + pos)])%list)) as [Hc|Hc].
  - rewrite length_app in *. simpl in *. lia.
  - destruct (_ <=? _)%nat; [split; [lia | done] | by apply IH].
Qed.

Lemma scanKeywords_spec text kws fs :
  (List.length fs < maxFindingsPerScanner)%nat ->
  (List.length (scanKeywords text kws fs) <= maxFindingsPerScanner)%nat /\
  nonempty (scanKeywords text kws fs) = nonempty fs || existsb (fun k => Contains text (ToLower k)) kws.
Proof.
  revert fs. induction kws as [|kw kws IH]; intros fs Hl; cbn [scanKeywords existsb].
  { rewrite orb_false_r. split; [lia | done]. }
  pose proof (scanKeyword_nonempty (String.length text) text kw fs) as Hn.
  pose proof (scanKeyword_cap (S (String.length text)) text kw 0 fs Hl) as Hc.
  destruct (scanKeyword _ text kw 0 fs) as [out []] eqn:E; cbn [fst] in Hn.
  - split; [lia|]. destruct (scanKeyword_extends (S (String.length text)) text kw 0 fs) as [ex Hex].
    rewrite E in Hex. cbn [fst] in Hex. subst out. rewrite Hn.
    destruct (nonempty fs); [done|]. cbn [orb]. rewrite orb_comm.
    destruct (Contains text (ToLower kw)) eqn:Ec; [by rewrite orb_true_r|].
    exfalso. clear IH Hc. cbn [scanKeyword] in E. replace (drop 0 text) with text in E by (by destruct text).
    apply Index_Contains in Ec. rewrite Ec in E. congruence.
  - destruct Hc as [_ Hc]. destruct (IH out (Hc eq_refl)) as [Hlen ->]. split; [done|].
    by rewrite Hn, orb_assoc.
Qed.

(** More fuel than text changes nothing: the loop always ends by itself. *)
Lemma scanKeyword_fuel f1 f2 text kw idx fs :
  ToLower kw <> "" ->
  (String.length text < f1 + idx)%nat -> (String.length text < f2 + idx)%nat ->
  (idx < String.length text)%nat ->
  scanKeyword f1 text kw idx fs = scanKeyword f2 text kw idx fs.
Proof.
  intros Hk. revert f2 idx fs. induction f1 as [|f1 IH]; intros [|f2] idx fs H1 H2 Hi; try lia.
  cbn [scanKeyword]. destruct (Index _ _) as [pos|]; [|done].
  assert (0 < String.length (ToLower kw))%nat by (destruct (ToLower kw); simpl in *; [done | lia]).
  case_match; [done|]. destruct (Nat.leb_spec (String.length text)
    (idx + pos + String.length (ToLower kw))); [done|]. apply IH; lia.
Qed.

(** The keyword scanner reports a finding exactly when some non-blank keyword
    occurs in the content, ignoring case, and never more than 32 findings. *)
Theorem keyword_scan_complete kws content :
  (List.length (keywordScan kws content) <= maxFindingsPerScanner)%nat /\
  (nonempty (keywordScan kws content) = true <->
   content <> "" /\ exists k, k ∈ kws /\ TrimSpace k <> "" /\
     Contains (ToLower content) (ToLower (TrimSpace k)) = true).
Proof.
  unfold keywordScan. set (entries := List.filter _ _).
  assert (forall P : string -> Prop, (exists k, k ∈ entries /\ P k) <->
    exists k, k ∈ kws /\ TrimSpace k <> "" /\ P (TrimSpace k)) as Hent.
  { intros P. unfold entries. split.
    - intros (k & Hk & HP). apply list_elem_of_In, filter_In in Hk as [Hk Hne].
      apply in_map_iff in Hk as (k0 & <- & Hk0). apply list_elem_of_In in Hk0.
      split_bools. eauto.
    - intros (k & Hk & Hne & HP). exists (TrimSpace k). split; [|done].
      apply list_elem_of_In, filter_In. split; [apply in_map; by apply list_elem_of_In|].
      by rewrite (eqb_ne _ _ Hne). }
  destruct (String.eqb_spec content "") as [->|Hc]; cbn [orb]; [split; [simpl; lia | naive_solver]|].
  destruct (scanKeywords_spec (ToLower content) entries []) as [Hl Hn]; [unfold maxFindingsPerScanner; simpl; lia|].
  destruct (nonempty entries) eqn:Ee; cbn [negb].
  - split; [done|]. rewrite Hn. cbn [nonempty orb]. rewrite existsb_elem, Hent. naive_solver.
  - split; [simpl; lia|]. split; [done|]. intros [_ Hx]. exfalso.
    apply (Hent (fun k => Contains (ToLower content) (ToLower k) = true)) in Hx as (k & Hk & _). destruct entries; [inversion Hk | done].
Qed.

(** ** Witnesses and counterexamples *)

(** An engine whose patterns all compile and never match. *)
Definition no_match_regexp : Regexp :=
  {| re_compiles := fun _ => true; re_find := fun _ _ _ => [] |}.

Definition ex_output_rule (d : OutputDecision) (scanners patterns : list string) : compiledOutputRule :=
  mkCompiledOutputRule "r" d "" "high" [] [] [] [] [] scanners patterns [] 0 None.

Definition ex_output_policy : SafetyPolicy :=
  {| Version := ""; Tier := ""; Selector := empty_selector; Rules := [];
     InputPolicy := mkInputPolicyConfig false "" 0; InputRules := [];
     RequireHuman := zero_threshold; OutputPolicy := mkOutputPolicyConfig true "";
     OutputRules := []; DefaultTenant := ""; DefaultDecision := ""; Tenants := ∅; TierDefaults := [] |}.

Definition ex_output_request (size : Z) (content : string) : OutputEvaluateRequest :=
  mkOutputEvaluateRequest "job.a" "t" "" "" size content [] [] "".

Lemma truncated_output_quarantined_witness :
  oc_Decision (@CheckOutput no_match_regexp ∅ (fun _ _ => false) (Some ex_output_policy)
    [ex_output_rule OUTPUT_REDACT ["secret_leak"] []] "s" (Some (ex_output_request 10 "abc", true)))
  = OUTPUT_QUARANTINE.
Proof.
  apply (@truncated_output_quarantined no_match_regexp ∅ (fun _ _ => false) (Some ex_output_policy));
    reflexivity.
Defined.

Lemma pattern_rule_always_fires_witness :
  (@evaluateOutputRule no_match_regexp ∅ (fun _ _ => false)
    (ex_output_rule OUTPUT_QUARANTINE [] ["AKIA[0-9A-Z]{16}"]) (ex_output_request 5 "hello")).1 = true.
Proof.
  apply (@pattern_rule_always_fires no_match_regexp ∅ (fun _ _ => false));
    [reflexivity | discriminate | reflexivity | reflexivity | discriminate].
Defined.

Definition ex_input_rule : compiledInputRule :=
  mkCompiledInputRule "r" "global" empty_selector "deny" "" "high" [] [] [] [] [] ["secret"] [] [] 0 None.

Lemma incomplete_input_matches_witness :
  @evaluateInputRule no_match_regexp (fun _ _ => (false, [])) ∅ ex_input_rule
    (mkInputEvaluateRequest "t" "job.a" [] [] "" "abc" 10) = (true, [inputTruncatedFailClosedFinding]).
Proof.
  apply (@incomplete_input_matches no_match_regexp); [reflexivity | reflexivity | vm_compute; reflexivity].
Defined.

Definition ex_input_policy_rule (id tier : string) (sel : PolicySelector) (decision : string) : InputPolicyRule :=
  mkInputPolicyRule id tier sel None "" ""
    (mkInputPolicyMatch [] [] [] [] [] [] [] [] [] 0 0 None) decision "".

Definition with_input_rules (p : SafetyPolicy) (rules : list InputPolicyRule) : SafetyPolicy :=
  {| Version := Version p; Tier := Tier p; Selector := Selector p; Rules := Rules p;
     InputPolicy := InputPolicy p; InputRules := rules; RequireHuman := RequireHuman p;
     OutputPolicy := OutputPolicy p; OutputRules := OutputRules p;
     DefaultTenant := DefaultTenant p; DefaultDecision := DefaultDecision p;
     Tenants := Tenants p; TierDefaults := TierDefaults p |}.

Lemma compiled_input_rules_wf_witness :
  exists r, @compileInputRules no_match_regexp
    (Some (with_input_rules ex_output_policy [ex_input_policy_rule " x " "" empty_selector "Deny "])) = [r] /\
    @input_rule_wf no_match_regexp r.
Proof.
  eexists. split; [vm_compute; reflexivity|].
  apply (@compiled_input_rules_wf no_match_regexp
    (Some (with_input_rules ex_output_policy [ex_input_policy_rule " x " "" empty_selector "Deny "]))).
  vm_compute. left.
Defined.

(** The two ways to the content disagree on an empty payload.  With a declared
    size of ten bytes and none received, the in-process path reports incomplete
    content and quarantines under a sensitive scanner, while the gRPC path reports
    complete content and allows. *)
Theorem empty_content_paths_differ :
  let req := ex_output_request 10 "" in
  let rules := [ex_output_rule OUTPUT_QUARANTINE ["secret"] []] in
  (forall r, resolveEvaluateOutputResource false None req = Some r ->
     os_Decision (@EvaluateOutput no_match_regexp ∅ (fun _ _ => false) (Some ex_output_policy) rules "s" (Some r))
       = "quarantine") /\
  contentForScan "" None "" "" 10 = Some ("", false, 10%Z) /\
  oc_Decision (@CheckOutput no_match_regexp ∅ (fun _ _ => false) (Some ex_output_policy) rules "s"
    (Some (req, false))) = OUTPUT_ALLOW.
Proof.
  cbv zeta. split; [|split; reflexivity]. intros r [= <-]. reflexivity.
Qed.
