(* ===== verification/Kernel.v ===== *)
(** * The safety kernel's request path ([core/controlplane/safetykernel/kernel.go])

    [evaluate] end to end: identity, tenant and scope resolution, the decision
    cache, construction of the policy input (server-derived risk tags, secrets,
    agent enrichment), the action gates, tiered policy evaluation with velocity,
    tenant MCP lists, the effective-config overlay, input rules, the response.

    Parameters: the identity normaliser, the effective-config decoder, the risk-tag
    deriver, the agent store, the action extractor and gates, the request digest,
    and what the content rules need.  Metrics, tracing, logging, the shadow
    evaluator and audit emission are effects outside the response and left out. *)
From S2P Require Import Prelude.
From S2P Require Import GoStrings.
From S2P Require Import PolicyTypes.
From S2P Require Import PolicyNames.
From S2P Require Import DelegationPolicy.
From S2P Require Import SafetyPolicy.
From S2P Require Import PolicyMerge.
From S2P Require Import GlobalPolicy.
From S2P Require Import Velocity.
From S2P Require Import ContentPolicy.
From Stdlib Require Import Ascii.

Open Scope string_scope.

Inductive DecisionType :=
| DT_UNSPECIFIED | DT_ALLOW | DT_DENY | DT_REQUIRE_HUMAN | DT_THROTTLE | DT_ALLOW_WITH_CONSTRAINTS.

#[export] Instance DecisionType_eq_dec : EqDecision DecisionType.
Proof. solve_decision. Defined.

Inductive PbActorType := ACTOR_UNSPECIFIED | ACTOR_HUMAN | ACTOR_SERVICE.

Record JobMetadata := mkJobMetadata {
  jm_TenantId : string;
  jm_ActorId : string;
  jm_ActorType : PbActorType;
  jm_IdempotencyKey : string;
  jm_Capability : string;
  jm_RiskTags : list string;
  jm_Requires : list string;
  jm_PackId : string;
}.

Record PolicyCheckRequest := mkPolicyCheckRequest {
  pr_JobId : string;
  pr_Topic : string;
  pr_Tenant : string;
  pr_PrincipalId : string;
  pr_Labels : gmap string string;
  pr_Meta : option JobMetadata;
  pr_Identity : option string;        (* the actor id of a trusted identity *)
  pr_EffectiveConfig : string;
  pr_InputContent : string;
  pr_InputContentType : string;
  pr_InputSizeBytes : Z;
  pr_HasInputRef : bool;
}.

#[export] Instance PbActorType_eq_dec : EqDecision PbActorType.
Proof. solve_decision. Defined.
#[export] Instance JobMetadata_eq_dec : EqDecision JobMetadata.
Proof. solve_decision. Defined.
#[export] Instance PolicyCheckRequest_eq_dec : EqDecision PolicyCheckRequest.
Proof. solve_decision. Defined.

Record PolicyCheckResponse := mkPolicyCheckResponse {
  ps_Decision : DecisionType;
  ps_Reason : string;
  ps_PolicySnapshot : string;
  ps_RuleId : string;
  ps_Constraints : option PolicyConstraints;
  ps_ApprovalRequired : bool;
  ps_ApprovalRef : string;
  ps_Remediations : list PolicyRemediation;
}.

Definition deny_response (reason snapshot : string) : PolicyCheckResponse :=
  mkPolicyCheckResponse DT_DENY reason snapshot "" None false "" [].

(** The part of [config.SafetyConfig] that the overlay reads. *)
Record SafetyConfig := mkSafetyConfig {
  sf_AllowedTopics : list string;
  sf_DeniedTopics : list string;
  sf_MCP : MCPPolicy;
}.

Record AgentIdentity := mkAgentIdentity {
  ai_TenantID : string;
  ai_RiskTier : string;
  ai_DataClassifications : list string;
  ai_Name : string;
  ai_Team : string;
}.

Record cacheEntry := mkCacheEntry {
  ce_resp : PolicyCheckResponse;
  ce_expires : Z;
  ce_policyVersion : Z;
}.

Record agentCacheEntry := mkAgentCacheEntry {
  ac_identity : AgentIdentity;
  ac_expires : Z;
}.

(** The policy the server holds. *)
Record server := mkServer {
  s_policy : option SafetyPolicy;
  s_global : option GlobalPolicy;
  s_snapshot : string;
  s_inputRules : list compiledInputRule;
  s_requireHuman : RequireHumanThreshold;
  s_cacheTTL : Z;
  s_cacheMaxSize : Z;
  s_agentCacheTTL : Z;
  s_policyVersion : Z;
}.

(** What a request changes. *)
Record kstate := mkKState {
  k_cache : gmap string cacheEntry;
  k_agents : gmap string agentCacheEntry;
  k_redis : gmap string bucket_set;
}.

(** ** Request helpers *)

Definition actorTypeString (val : PbActorType) : string :=
  match val with ACTOR_HUMAN => "human" | ACTOR_SERVICE => "service" | ACTOR_UNSPECIFIED => "" end.

Definition policyMetaFromRequest (req : PolicyCheckRequest) : PolicyMeta :=
  match pr_Meta req with
  | None =>
      mkPolicyMeta (match pr_Identity req with
                    | Some a => a
                    | None => if negb (pr_PrincipalId req =s? "") then pr_PrincipalId req else ""
                    end) "" "" "" [] [] "" "" "" [] "" ""
  | Some meta =>
      mkPolicyMeta
        (match pr_Identity req with
         | Some a => a
         | None => if jm_ActorId meta =s? "" then pr_PrincipalId req else jm_ActorId meta
         end)
        (actorTypeString (jm_ActorType meta)) (jm_IdempotencyKey meta) (jm_Capability meta)
        (jm_RiskTags meta) (jm_Requires meta) (jm_PackId meta) "" "" [] "" ""
  end.

Definition secretsPresent (meta : PolicyMeta) (labels : gmap string string) : bool :=
  let v := TrimSpace (get_str labels "secrets_present") in
  if negb (v =s? "") then (v =s? "true") || (v =s? "1") || EqualFold v "yes"
  else existsb (fun tag => EqualFold tag "secrets") (RiskTags meta).

Definition isConstraintsEmpty (c : PolicyConstraints) : bool :=
  (MaxRuntimeMs (Budgets c) =? 0)%Z && (MaxRetries (Budgets c) =? 0)%Z
  && (MaxArtifactBytes (Budgets c) =? 0)%Z && (MaxConcurrentJobs (Budgets c) =? 0)%Z
  && negb (Isolated (Sandbox c)) && negb (nonempty (NetworkAllowlist (Sandbox c)))
  && negb (nonempty (FsReadOnly (Sandbox c))) && negb (nonempty (FsReadWrite (Sandbox c)))
  && negb (nonempty (AllowedTools (Toolchain c))) && negb (nonempty (AllowedCommands (Toolchain c)))
  && (MaxFiles (Diff c) =? 0)%Z && (MaxLines (Diff c) =? 0)%Z
  && negb (nonempty (DenyPathGlobs (Diff c))) && (TrimSpace (RedactionLevel c) =s? "").

(** [None] is a nil message. *)
Definition toProtoConstraints (c : PolicyConstraints) : option PolicyConstraints :=
  if isConstraintsEmpty c then None else Some c.

Definition requestHasAgentID (req : PolicyCheckRequest) : bool :=
  negb (TrimSpace (get_str (pr_Labels req) "agent_id") =s? "").

(** ** The decision cache *)

Definition getCachedDecision (s : server) (now : Z) (key : string) (cache : gmap string cacheEntry)
    : gmap string cacheEntry * option PolicyCheckResponse :=
  match cache !! key with
  | None => (cache, None)
  | Some entry =>
      if negb (ce_policyVersion entry =? s_policyVersion s)%Z then (delete key cache, None)
      else if (ce_expires entry <? now)%Z then (delete key cache, None)
      else (cache, Some (ce_resp entry))
  end.

(** The entry with the earliest expiry, in iteration order. *)
Definition oldestEntry (l : list (string * cacheEntry)) : option (string * Z) :=
  foldl (fun best '(k, e) =>
    match best with
    | None => Some (k, ce_expires e)
    | Some (_, exp) => if (ce_expires e <? exp)%Z then Some (k, ce_expires e) else best
    end) None l.

(** The eviction loop removes one entry per round: the size is enough fuel. *)
Fixpoint evictOldest `{GoRuntime} (fuel : nat) (max : Z) (cache : gmap string cacheEntry)
    : gmap string cacheEntry :=
  match fuel with
  | O => cache
  | S fuel =>
      if (Z.of_nat (size cache) <? max)%Z then cache
      else match oldestEntry (range_map cache) with
           | None => cache
           | Some (k, _) => evictOldest fuel max (delete k cache)
           end
  end.

Definition setCachedDecision `{GoRuntime} (s : server) (now : Z) (key : string)
    (resp : PolicyCheckResponse) (cache : gmap string cacheEntry) : gmap string cacheEntry :=
  if (key =s? "") || (s_cacheTTL s <=? 0)%Z then cache
  else
    let cache :=
      if (0 <? s_cacheMaxSize s)%Z && (s_cacheMaxSize s <=? Z.of_nat (size cache))%Z then
        let swept := filter (fun kv : string * cacheEntry => ~ (ce_expires kv.2 < now)%Z) cache in
        evictOldest (size swept) (s_cacheMaxSize s) swept
      else cache in
    <[key := mkCacheEntry resp (now + s_cacheTTL s) (s_policyVersion s)]> cache.

(** ** Agent enrichment *)

Definition nul : ascii := "000"%char.

Definition agentCacheKey (tenant agentID : string) : string := tenant +:+ String nul agentID.

Definition getAgentFromCache (now : Z) (key : string) (cache : gmap string agentCacheEntry)
    : gmap string agentCacheEntry * option AgentIdentity :=
  match cache !! key with
  | None => (cache, None)
  | Some entry =>
      if (ac_expires entry <? now)%Z then (delete key cache, None) else (cache, Some (ac_identity entry))
  end.

Definition defaultAgentCacheTTL : Z := 30000000000.

Definition putAgentInCache (s : server) (now : Z) (key : string) (agent : AgentIdentity)
    (cache : gmap string agentCacheEntry) : gmap string agentCacheEntry :=
  let ttl := if (s_agentCacheTTL s =? 0)%Z then defaultAgentCacheTTL else s_agentCacheTTL s in
  <[key := mkAgentCacheEntry agent (now + ttl)]> cache.

Definition with_agent_id (m : PolicyMeta) (id : string) : PolicyMeta :=
  mkPolicyMeta (ActorID m) (ActorType m) (IdempotencyKey m) (Capability m) (RiskTags m) (Requires m)
    (PackID m) id (AgentRiskTier m) (AgentDataClassifications m) (AgentName m) (AgentTeam m).

Definition with_agent (m : PolicyMeta) (a : AgentIdentity) : PolicyMeta :=
  mkPolicyMeta (ActorID m) (ActorType m) (IdempotencyKey m) (Capability m) (RiskTags m) (Requires m)
    (PackID m) (AgentID m) (ai_RiskTier a) (ai_DataClassifications a) (ai_Name a) (ai_Team a).

(** [store] is [agentStore.Get] with an empty tenant; errors are [None]. *)
Definition enrichAgentContext (s : server) (store : option (string -> option AgentIdentity)) (now : Z)
    (tenant : string) (labels : gmap string string) (meta : PolicyMeta)
    (cache : gmap string agentCacheEntry) : gmap string agentCacheEntry * PolicyMeta :=
  match store with
  | None => (cache, meta)
  | Some get =>
      if negb (map_nonempty labels) then (cache, meta)
      else
        let agentID := TrimSpace (get_str labels "agent_id") in
        if agentID =s? "" then (cache, meta)
        else
          let meta := with_agent_id meta agentID in
          let tenant := TrimSpace tenant in
          if tenant =s? "" then (cache, meta)
          else
            let key := agentCacheKey tenant agentID in
            match getAgentFromCache now key cache with
            | (cache, Some agent) => (cache, with_agent meta agent)
            | (cache, None) =>
                match get agentID with
                | None => (cache, meta)
                | Some agent =>
                    if negb (TrimSpace (ai_TenantID agent) =s? tenant) then (cache, meta)
                    else (putAgentInCache s now key agent cache, with_agent meta agent)
                end
            end
  end.

(** ** Decision mapping and overlays *)

(** The switch on the policy decision: decision type and reason. *)
Definition mapDecision (d : PolicyDecision) : DecisionType * string :=
  if Decision d =s? "deny" then (DT_DENY, Reason d)
  else if Decision d =s? "require_approval" then (DT_REQUIRE_HUMAN, Reason d)
  else if Decision d =s? "throttle" then (DT_THROTTLE, Reason d)
  else if Decision d =s? "allow_with_constraints" then (DT_ALLOW_WITH_CONSTRAINTS, "")
  else if Decision d =s? "allow" then
    (match toProtoConstraints (Constraints d) with
     | Some _ => DT_ALLOW_WITH_CONSTRAINTS
     | None => DT_ALLOW
     end, "")
  else (DT_DENY, "internal: unknown policy decision string: " +:+ Decision d).

(** The tenant's MCP lists override the decision, not the approval flag. *)
Definition applyTenantMCP (tenants : gmap string TenantPolicy) (tenant : string) (req : MCPRequest)
    (d : PolicyDecision) : PolicyDecision :=
  match tenants !! tenant with
  | None => d
  | Some tp =>
      match MCPAllowed (t_MCP tp) req with
      | (true, _) => d
      | (false, mcpReason) =>
          {| Decision := "deny"; Reason := mcpReason; RuleID := RuleID d; RuleTier := RuleTier d;
             Constraints := Constraints d; ApprovalRequired := ApprovalRequired d;
             Remediations := Remediations d |}
      end
  end.

Definition applyEffectiveConfig (eff : option SafetyConfig) (topic : string) (mcp : MCPRequest)
    (cur : DecisionType * string) : DecisionType * string :=
  match eff with
  | None => cur
  | Some eff =>
      let cur := if matchAny (sf_DeniedTopics eff) topic
        then (DT_DENY, "topic '" +:+ topic +:+ "' denied by effective config") else cur in
      let cur := if nonempty (sf_AllowedTopics eff) && negb (matchAny (sf_AllowedTopics eff) topic)
        then (DT_DENY, "topic '" +:+ topic +:+ "' not allowed by effective config") else cur in
      match MCPAllowed (sf_MCP eff) mcp with
      | (true, _) => cur
      | (false, mcpReason) => (DT_DENY, mcpReason)
      end
  end.

Record ruling := mkRuling {
  rl_decision : DecisionType;
  rl_reason : string;
  rl_ruleID : string;
}.

Section Evaluate.
  Context `{GoRuntime} `{FloatParser} `{Regexp}.
  Context (evaluateScope : ScopeConfig -> string -> bool * list (string * string)).
  Context (scanners : gmap string scanner).

(** The loop over the input rules: the first match decides. *)
Fixpoint inputRuleLoop (rules : list compiledInputRule) (evalReq : inputEvaluateRequest)
    (hasAction : bool) (threshold : RequireHumanThreshold) (cur : ruling) : ruling :=
  match rules with
  | [] => cur
  | rule :: rest =>
      match evaluateInputRule evaluateScope scanners rule evalReq with
      | (false, _) => inputRuleLoop rest evalReq hasAction threshold cur
      | (true, findings) =>
          if ci_decision rule =s? "deny" then
            if shouldDowngradeDenyToRequireHuman rule findings hasAction threshold
            then mkRuling DT_REQUIRE_HUMAN (inputRuleReason rule findings) (ci_id rule)
            else mkRuling DT_DENY (inputRuleReason rule findings) (ci_id rule)
          else if (ci_decision rule =s? "require_approval") || (ci_decision rule =s? "require-approval")
                  || (ci_decision rule =s? "require_human")
          then mkRuling DT_REQUIRE_HUMAN (inputRuleReason rule findings) (ci_id rule)
          else cur
      end
  end.

Definition applyInputRules (rules : list compiledInputRule) (req : PolicyCheckRequest)
    (meta : option JobMetadata) (tenant topic : string) (hasAction : bool)
    (threshold : RequireHumanThreshold) (cur : ruling) : ruling :=
  if negb (nonempty rules) then cur
  else if bool_decide (rl_decision cur = DT_ALLOW)
          || bool_decide (rl_decision cur = DT_ALLOW_WITH_CONSTRAINTS)
          || bool_decide (rl_decision cur = DT_THROTTLE) then
    let inputContent :=
      if pr_InputContent req =s? "" then get_str (pr_Labels req) "_content.prompt"
      else pr_InputContent req in
    inputRuleLoop rules
      {| ie_tenant := tenant; ie_topic := topic;
         ie_capabilities := match meta with Some m => [jm_Capability m] | None => [] end;
         ie_riskTags := match meta with Some m => jm_RiskTags m | None => [] end;
         ie_contentType := pr_InputContentType req; ie_content := inputContent;
         ie_inputSize := pr_InputSizeBytes req |} hasAction threshold cur
  else cur.

(** The collaborators of the request path. *)
Record kernel_env := mkKernelEnv {
  ke_normalizeIdentity : PolicyCheckRequest -> option PolicyCheckRequest;
  ke_parseEffective : string -> option SafetyConfig;
  ke_deriveTags : string -> gmap string string -> string -> option (list string);
  ke_agentStore : option (string -> option AgentIdentity);
  ke_extractAction : PolicyCheckRequest -> option ActionDescriptor;
  ke_gates : PolicyInput -> option (DecisionType * string * string);  (* decision, reason, gate id *)
  ke_digest : PolicyCheckRequest -> option string;
  ke_refVerified : PolicyCheckRequest -> bool;
  ke_hasActionLabel : PolicyCheckRequest -> bool;
  ke_delegationEnabled : bool;
  ke_velocity : velocity_env;
  ke_now : Z;
}.

Definition decisionCacheContentVerified (env : kernel_env) (req : PolicyCheckRequest)
    (contentSensitive : bool) : bool :=
  if pr_HasInputRef req && negb (ke_refVerified env req) then false
  else if negb contentSensitive then true
  else
    let content := if pr_InputContent req =s? "" then get_str (pr_Labels req) "_content.prompt"
                   else pr_InputContent req in
    if content =s? "" then false
    else (pr_InputSizeBytes req =? 0)%Z || (pr_InputSizeBytes req =? blen content)%Z.

Definition cacheKeyForRequest (env : kernel_env) (req : PolicyCheckRequest) (snapshot : string) : string :=
  match ke_digest env req with
  | None => ""
  | Some sum => snapshot +:+ ":" +:+ sum
  end.

Definition actionGateResponse (dec : DecisionType * string * string) (snapshot : string)
    : PolicyCheckResponse :=
  let '(decision, reason, gateID) := dec in
  mkPolicyCheckResponse decision reason snapshot gateID None
    (bool_decide (decision = DT_REQUIRE_HUMAN)) "" [].

Definition with_tags (m : PolicyMeta) (tags : list string) : PolicyMeta :=
  mkPolicyMeta (ActorID m) (ActorType m) (IdempotencyKey m) (Capability m) tags (Requires m)
    (PackID m) (AgentID m) (AgentRiskTier m) (AgentDataClassifications m) (AgentName m) (AgentTeam m).

Definition with_pb_tags (m : JobMetadata) (tags : list string) : JobMetadata :=
  mkJobMetadata (jm_TenantId m) (jm_ActorId m) (jm_ActorType m) (jm_IdempotencyKey m)
    (jm_Capability m) tags (jm_Requires m) (jm_PackId m).

Definition requestTenant (req : PolicyCheckRequest) : string :=
  let tenant := TrimSpace (pr_Tenant req) in
  if tenant =s? "" then match pr_Meta req with Some m => TrimSpace (jm_TenantId m) | None => "" end
  else tenant.

(** The policy input of a request, the protobuf metadata with the derived tags,
    and the agent cache after the enrichment. *)
Definition buildInput (env : kernel_env) (s : server) (req : PolicyCheckRequest)
    (tenant topic : string) (agents : gmap string agentCacheEntry)
    : gmap string agentCacheEntry * PolicyInput * option JobMetadata :=
  let labels := pr_Labels req in
  let meta0 := policyMetaFromRequest req in
  let '(pmeta, pbmeta) :=
    match ke_deriveTags env topic labels (pr_InputContent req) with
    | Some tags => (with_tags meta0 tags, option_map (fun m => with_pb_tags m tags) (pr_Meta req))
    | None => (meta0, pr_Meta req)
    end in
  let secrets := secretsPresent pmeta labels in
  let '(agents, pmeta) := enrichAgentContext s (ke_agentStore env) (ke_now env) tenant labels pmeta agents in
  (agents,
   {| Tenant := tenant; Topic := topic; Labels := labels; Meta := pmeta; SecretsPresent := secrets;
      in_MCP := extractMCPRequest labels;
      Delegation := if ke_delegationEnabled env then DelegationContextFromLabels labels else None;
      Action := ke_extractAction env req |},
   pbmeta).

Definition has_action (input : PolicyInput) : bool :=
  match Action input with Some _ => true | None => false end.

(** From the policy decision to the response. *)
Definition respond (env : kernel_env) (s : server) (req : PolicyCheckRequest)
    (pbmeta : option JobMetadata) (input : PolicyInput) (inputRules : list compiledInputRule)
    (d : PolicyDecision) : PolicyCheckResponse :=
  let '(decision, reason) :=
    applyEffectiveConfig (ke_parseEffective env (pr_EffectiveConfig req)) (Topic input) (in_MCP input)
      (mapDecision d) in
  let r := applyInputRules inputRules req pbmeta (Tenant input) (Topic input) (has_action input)
             (s_requireHuman s) (mkRuling decision reason (RuleID d)) in
  let approvalRequired := ApprovalRequired d || bool_decide (rl_decision r = DT_REQUIRE_HUMAN) in
  mkPolicyCheckResponse (rl_decision r) (rl_reason r) (s_snapshot s) (rl_ruleID r)
    (toProtoConstraints (Constraints d)) approvalRequired
    (if approvalRequired then pr_JobId req else "") (Remediations d).

(** The evaluation after the cache and the request checks.  The flag tells that
    an action gate answered, in which case nothing is cached. *)
Definition evaluateRequest (env : kernel_env) (s : server) (req : PolicyCheckRequest)
    (method tenant topic : string) (evalPolicy : SafetyPolicy) (inputRules : list compiledInputRule)
    (st : kstate) : kstate * PolicyCheckResponse * bool :=
  let '(agents, input, pbmeta) := buildInput env s req tenant topic (k_agents st) in
  match (if has_action input then ke_gates env input else None) with
  | Some dec => (mkKState (k_cache st) agents (k_redis st), actionGateResponse dec (s_snapshot s), true)
  | None =>
      let '(redis, d) :=
        evaluateScoped (ke_velocity env) evalPolicy input (pr_JobId req) method (k_redis st) in
      let d := applyTenantMCP (Tenants evalPolicy) tenant (in_MCP input) d in
      (mkKState (k_cache st) agents redis, respond env s req pbmeta input inputRules d, false)
  end.

Definition clear_ref (r : PolicyCheckResponse) : PolicyCheckResponse :=
  mkPolicyCheckResponse (ps_Decision r) (ps_Reason r) (ps_PolicySnapshot r) (ps_RuleId r)
    (ps_Constraints r) (ps_ApprovalRequired r) "" (ps_Remediations r).

(** A cached response, completed for this request. *)
Definition serve_cached (s : server) (req : PolicyCheckRequest) (r : PolicyCheckResponse)
    : PolicyCheckResponse :=
  mkPolicyCheckResponse (ps_Decision r) (ps_Reason r) (s_snapshot s) (ps_RuleId r) (ps_Constraints r)
    (ps_ApprovalRequired r)
    (if ps_ApprovalRequired r then pr_JobId req else ps_ApprovalRef r) (ps_Remediations r).

Definition evaluate (env : kernel_env) (s : server) (req0 : PolicyCheckRequest) (method : string)
    (st : kstate) : kstate * PolicyCheckResponse :=
  match (match pr_Identity req0 with
         | None => Some req0
         | Some _ => ke_normalizeIdentity env req0
         end) with
  | None => (st, deny_response "identity validation failed" "")
  | Some req =>
      let topic := TrimSpace (pr_Topic req) in
      let tenant := requestTenant req in
      let '(workflowID, scopedJobID) := resolvePolicyScope (pr_Labels req) (pr_JobId req) in
      let evalPolicy := scopedPolicyForRequest (s_policy s) (s_global s) workflowID scopedJobID topic
                          (pr_Labels req) in
      let inputRules := selectInputRulesForScope (s_inputRules s) workflowID scopedJobID in
      let policyHasVelocity :=
        (0 <? effectiveVelocityRuleCount evalPolicy (ve_limit (ke_velocity env)))%Z in
      let cacheable := (0 <? s_cacheTTL s)%Z && negb policyHasVelocity
        && negb (ke_hasActionLabel env req)
        && negb (match ke_agentStore env with Some _ => requestHasAgentID req | None => false end)
        && decisionCacheContentVerified env req (nonempty inputRules) in
      let cacheKey := if cacheable then cacheKeyForRequest env req (s_snapshot s) else "" in
      let '(cache, cached) :=
        if negb (cacheKey =s? "") then getCachedDecision s (ke_now env) cacheKey (k_cache st)
        else (k_cache st, None) in
      let st := mkKState cache (k_agents st) (k_redis st) in
      match cached with
      | Some r => (st, serve_cached s req r)
      | None =>
          match s_policy s, evalPolicy with
          | Some policy, Some evalPolicy =>
              let tenant := if tenant =s? "" then TrimSpace (DefaultTenant policy) else tenant in
              let tenant := if tenant =s? "" then "default" else tenant in
              if topic =s? "" then (st, deny_response "missing topic" "")
              else if negb (HasPrefix topic "job.") then (st, deny_response "unsupported topic" "")
              else
                let '(st, resp, gated) :=
                  evaluateRequest env s req method tenant topic evalPolicy inputRules st in
                if negb gated && negb (cacheKey =s? "") && (0 <? s_cacheTTL s)%Z
                   && negb (ke_hasActionLabel env req)
                then (mkKState (setCachedDecision s (ke_now env) cacheKey (clear_ref resp) (k_cache st))
                        (k_agents st) (k_redis st), resp)
                else (st, resp)
          | _, _ => (st, deny_response "no policy loaded — fail-closed" (s_snapshot s))
          end
      end
  end.
End Evaluate.

(** * Properties *)

(** ** Escalation *)

Definition severity (d : DecisionType) : nat :=
  match d with
  | DT_UNSPECIFIED => 0 | DT_ALLOW => 1 | DT_ALLOW_WITH_CONSTRAINTS => 2 | DT_THROTTLE => 3
  | DT_REQUIRE_HUMAN => 4 | DT_DENY => 5
  end.

Lemma severity_max d : (severity d <= severity DT_DENY)%nat.
Proof. destruct d; simpl; lia. Qed.

Lemma applyEffectiveConfig_escalates eff topic mcp cur :
  (severity cur.1 <= severity (applyEffectiveConfig eff topic mcp cur).1)%nat.
Proof.
  unfold applyEffectiveConfig. destruct eff as [eff|]; [|lia].
  destruct (MCPAllowed (sf_MCP eff) mcp) as [[] ?]; [|apply severity_max].
  destruct (_ && _); [apply severity_max|]. destruct (matchAny _ _); [apply severity_max | lia].
Qed.

Section KernelProperties.
  Context `{GoRuntime} `{FloatParser} `{Regexp}.
  Context (evaluateScope : ScopeConfig -> string -> bool * list (string * string)).
  Context (scanners : gmap string scanner).

Lemma inputRuleLoop_escalates rules evalReq act thr cur :
  (severity (rl_decision cur) <= severity DT_THROTTLE)%nat ->
  (severity (rl_decision cur) <=
   severity (rl_decision (inputRuleLoop evaluateScope scanners rules evalReq act thr cur)))%nat.
Proof.
  intros Hc. induction rules as [|r rules IH]; simpl; [lia|].
  destruct (evaluateInputRule _ _ _ _) as [[] f]; [|done].
  repeat case_match; simpl in *; lia.
Qed.

Lemma applyInputRules_escalates rules req meta tenant topic act thr cur :
  (severity (rl_decision cur) <=
   severity (rl_decision (applyInputRules evaluateScope scanners rules req meta tenant topic act thr cur)))%nat.
Proof.
  unfold applyInputRules. destruct (negb (nonempty rules)); [lia|].
  destruct (_ || _) eqn:E; [|lia]. apply inputRuleLoop_escalates.
  rewrite !orb_true_iff, !bool_decide_eq_true in E. destruct E as [[-> | ->]| ->]; simpl; lia.
Qed.

Lemma overlays_severity env s req pbmeta input rules d :
  (severity (mapDecision d).1 <=
   severity (ps_Decision (respond evaluateScope scanners env s req pbmeta input rules d)))%nat.
Proof.
  unfold respond.
  pose proof (applyEffectiveConfig_escalates (ke_parseEffective env (pr_EffectiveConfig req))
    (Topic input) (in_MCP input) (mapDecision d)) as He.
  destruct (applyEffectiveConfig _ _ _ _) as [dec reason]. cbn [ps_Decision].
  etransitivity; [exact He|].
  apply (applyInputRules_escalates rules req pbmeta (Tenant input) (Topic input) (has_action input)
    (s_requireHuman s) (mkRuling dec reason (RuleID d))).
Qed.

(** C16: overlays only escalate.  The response is never weaker than the policy
    decision it starts from: neither the effective configuration nor the input
    rules turn a denial into an approval, or an approval into an allow. *)
Theorem overlays_only_escalate env s req pbmeta input rules d :
  (severity (mapDecision d).1 <=
   severity (ps_Decision (respond evaluateScope scanners env s req pbmeta input rules d)))%nat.
Proof. apply overlays_severity. Qed.

(** ** The security floor, through velocity and the overlays *)

Definition blocking (d : string) : Prop := d ∈ ["deny"; "require_approval"; "throttle"].

Lemma velocityLoop_floor env dry job i count pre post st r :
  r ∈ pre -> r_Velocity r = None -> rule_spec (r_Match r) i ->
  (forall x, x ∈ pre -> isGlobalInvariantDeny (r_Decision x) = true) ->
  exists st' d, velocityLoop env dry job i count (pre ++ post)%list st = (st', Some d) /\
    blocking (Decision d).
Proof.
  revert count st. induction pre as [|x pre IH]; intros count st Hr Hv Hm Hfl; [inversion Hr|].
  assert (r ∈ pre \/ r = x) as Hcase by set_solver.
  assert (forall count st, r ∈ pre -> exists st' d,
    velocityLoop env dry job i count (pre ++ post)%list st = (st', Some d) /\ blocking (Decision d)) as Hrec.
  { intros c st0 Hin. apply IH; [done..|]. intros y Hy. apply Hfl. by right. }
  assert (blocking (Decision (BuildDecision x))) as Hx by (apply floor_decision, Hfl; left).
  cbn [velocityLoop app]. destruct Hcase as [Hin| ->].
  - destruct (_ && _ && _); [by apply Hrec|].
    destruct (matchRule (r_Match x) i); cbn [negb]; [|by apply Hrec].
    destruct (r_Velocity x) as [v|]; [|eauto].
    destruct (ve_checker env); cbn [negb]; [|by apply Hrec].
    destruct (ResolveKey (Some v) i =s? ""); [by apply Hrec|].
    destruct (velocityCheck env dry job _ x v st) as [st1 [e|[[] n]]]; cbn [negb]; [|eauto|by apply Hrec].
    destruct (_ =s? "open"); [by apply Hrec|]. exists st1, velocity_unavailable. split; [done|].
    unfold blocking. simpl. set_solver.
  - rewrite Hv. cbn [andb]. apply matchRule_spec in Hm. rewrite Hm. eauto.
Qed.

Lemma mapDecision_blocking d :
  blocking (Decision d) -> (severity DT_THROTTLE <= severity (mapDecision d).1)%nat.
Proof.
  unfold blocking, mapDecision. intros Hb. repeat (apply elem_of_cons in Hb as [->|Hb]; [simpl; lia|]).
  inversion Hb.
Qed.

Lemma applyTenantMCP_blocking tenants t req d :
  blocking (Decision d) -> blocking (Decision (applyTenantMCP tenants t req d)).
Proof.
  intros Hb. unfold applyTenantMCP. destruct (tenants !! t) as [tp|]; [|done].
  destruct (MCPAllowed (t_MCP tp) req) as [[] ?]; [done|]. unfold blocking. simpl. set_solver.
Qed.

Lemma evaluateScoped_floor env b g wf job topic labels p i jobid method st r :
  scopedPolicyForRequest (Some b) (Some g) wf job topic labels = Some p ->
  r ∈ g_Invariants g -> isGlobalInvariantDeny (r_Decision r) = true -> r_Velocity r = None ->
  rule_spec (r_Match r) i ->
  blocking (Decision (evaluateScoped env p i jobid method st).2).
Proof.
  intros (HR & _)%scopedPolicy_rules Hr Hd Hv Hm.
  assert (r ∈ inv_denies g) as Hin by (by apply floor_in_denies).
  assert (forall x, x ∈ inv_denies g -> isGlobalInvariantDeny (r_Decision x) = true) as Hfl.
  { intros x Hx. apply list_elem_of_In, filter_In in Hx. apply Hx. }
  assert (exists post, Rules p = (inv_denies g ++ post)%list) as [post Hpost].
  { rewrite HR. unfold tiers. destruct (section_of g topic labels). by eexists. }
  assert (EffectiveRules p = (inv_denies g ++ post)%list) as HE.
  { unfold EffectiveRules. rewrite Hpost. destruct (inv_denies g); [inversion Hin | done]. }
  unfold evaluateScoped. case_match.
  - unfold evaluateRulesWithVelocity. rewrite HE.
    destruct (velocityLoop_floor env ((method =s? "simulate") || (method =s? "explain")) jobid i 0
      (inv_denies g) post st r) as (st' & d & -> & Hb); done.
  - cbn [snd]. rewrite Evaluate_compose, HE, find_first_app.
    destruct (find_first_member i (inv_denies g) r Hin Hm) as (r' & Hr' & _ & ->). cbn.
    apply floor_decision, Hfl, Hr'.
Qed.

End KernelProperties.

(** ** The decision cache *)

Section CacheProperties.
  Context `{GoRuntime}.

(** The entry chosen for eviction is in the cache, and none expires before it. *)
Lemma oldestEntry_spec l :
  match oldestEntry l with
  | None => l = []
  | Some (k, exp) =>
      (exists e, (k, e) ∈ l /\ ce_expires e = exp) /\ forall k' e', (k', e') ∈ l -> (exp <= ce_expires e')%Z
  end.
Proof.
  induction l as [|[k e] l IH] using rev_ind; [done|].
  unfold oldestEntry in *. rewrite foldl_app. simpl.
  destruct (foldl _ None l) as [[k0 exp]|].
  - destruct IH as [(e0 & Hin & He) Hmin]. destruct (Z.ltb_spec (ce_expires e) exp).
    + split; [exists e; split; [set_solver | done]|]. intros k' e' [Hl|Hl]%elem_of_app.
      * specialize (Hmin k' e' Hl). lia.
      * apply list_elem_of_singleton in Hl. simplify_eq. lia.
    + split; [exists e0; split; [set_solver | done]|]. intros k' e' [Hl|Hl]%elem_of_app.
      * by eapply Hmin.
      * apply list_elem_of_singleton in Hl. simplify_eq. lia.
  - subst l. split; [exists e; split; [set_solver | done]|].
    intros k' e' Hl. apply list_elem_of_singleton in Hl. simplify_eq. lia.
Qed.

(** The eviction loop reaches its bound before its fuel runs out. *)
Lemma evictOldest_size fuel max (cache : gmap string cacheEntry) :
  (0 < max)%Z -> (size cache <= fuel)%nat -> (Z.of_nat (size (evictOldest fuel max cache)) < max)%Z.
Proof.
  intros Hm. revert cache. induction fuel as [|fuel IH]; intros cache Hs; cbn [evictOldest]; [lia|].
  destruct (Z.ltb_spec (Z.of_nat (size cache)) max); [done|].
  pose proof (oldestEntry_spec (range_map cache)) as Ho.
  destruct (oldestEntry (range_map cache)) as [[k exp]|].
  - destruct Ho as [(e & Hin & _) _]. apply elem_of_range_map in Hin.
    apply IH. rewrite map_size_delete_Some by eauto. lia.
  - assert (map_to_list cache = []) as Hnil.
    { apply Permutation_nil. by rewrite <- range_map_perm, Ho. }
    apply map_to_list_empty_iff in Hnil. subst cache. rewrite map_size_empty in *. lia.
Qed.

Lemma map_size_insert_le (m : gmap string cacheEntry) k e : (size (<[k := e]> m) <= S (size m))%nat.
Proof. rewrite map_size_insert. destruct (m !! k); cbn; lia. Qed.

(** The decision cache is bounded and serves what was stored.  Storing keeps
    the number of entries within a positive maximum, evicting by expiry; the
    stored response is served under the same policy version until its time to
    live ends, and never after a policy change. *)
Theorem decision_cache_sound s s' now now' key resp cache :
  (0 < s_cacheTTL s)%Z -> key <> "" ->
  ((0 < s_cacheMaxSize s)%Z -> (Z.of_nat (size cache) <= s_cacheMaxSize s)%Z ->
   (Z.of_nat (size (setCachedDecision s now key resp cache)) <= s_cacheMaxSize s)%Z) /\
  (getCachedDecision s' now' key (setCachedDecision s now key resp cache)).2 =
    (if (s_policyVersion s' =? s_policyVersion s)%Z && (now' <=? now + s_cacheTTL s)%Z
     then Some resp else None).
Proof.
  intros Httl Hk. unfold setCachedDecision. rewrite (eqb_ne _ _ Hk).
  destruct (Z.leb_spec (s_cacheTTL s) 0); [lia|]. cbn [orb]. split.
  - intros Hmax Hsz. destruct (Z.ltb_spec 0 (s_cacheMaxSize s)); [|lia]. cbn [andb].
    destruct (Z.leb_spec (s_cacheMaxSize s) (Z.of_nat (size cache))).
    + set (swept := filter _ cache).
      pose proof (evictOldest_size (size swept) (s_cacheMaxSize s) swept Hmax (le_n _)).
      pose proof (map_size_insert_le (evictOldest (size swept) (s_cacheMaxSize s) swept) key
        (mkCacheEntry resp (now + s_cacheTTL s) (s_policyVersion s))). lia.
    + pose proof (map_size_insert_le cache key (mkCacheEntry resp (now + s_cacheTTL s) (s_policyVersion s))).
      lia.
  - unfold getCachedDecision. rewrite lookup_insert_eq. cbn [ce_policyVersion ce_expires ce_resp].
    rewrite Z.eqb_sym. destruct (Z.eqb_spec (s_policyVersion s') (s_policyVersion s)); cbn [negb andb]; [|done].
    destruct (Z.ltb_spec (now + s_cacheTTL s) now'), (Z.leb_spec now' (now + s_cacheTTL s)); (done || lia).
Qed.
End CacheProperties.

(** ** The cache is transparent *)

Section CacheTransparency.
  Context `{GoRuntime} `{FloatParser} `{Regexp}.
  Context (evaluateScope : ScopeConfig -> string -> bool * list (string * string)).
  Context (scanners : gmap string scanner).

(** The kernel with its decision cache switched off. *)
Definition uncached (s : server) : server :=
  mkServer (s_policy s) (s_global s) (s_snapshot s) (s_inputRules s) (s_requireHuman s) 0
    (s_cacheMaxSize s) (s_agentCacheTTL s) (s_policyVersion s).

(** The answer to a request that neither velocity windows nor agent identities
    influence; the flag tells that an action gate gave it. *)
Definition plain_answer (env : kernel_env) (s : server) (req : PolicyCheckRequest)
    (tenant topic : string) (p : SafetyPolicy) (rules : list compiledInputRule)
    : PolicyCheckResponse * bool :=
  let '(_, input, pbmeta) :=
    buildInput (mkKernelEnv (ke_normalizeIdentity env) (ke_parseEffective env) (ke_deriveTags env)
      None (ke_extractAction env) (ke_gates env) (ke_digest env) (ke_refVerified env)
      (ke_hasActionLabel env) (ke_delegationEnabled env) (ke_velocity env) 0) s req tenant topic ∅ in
  match (if has_action input then ke_gates env input else None) with
  | Some dec => (actionGateResponse dec (s_snapshot s), true)
  | None =>
      (respond evaluateScope scanners env s req pbmeta input rules
         (applyTenantMCP (Tenants p) tenant (in_MCP input) (Evaluate p input)), false)
  end.

(** No agent identity is looked up for the request. *)
Definition agent_inert (env : kernel_env) (req : PolicyCheckRequest) : Prop :=
  (match ke_agentStore env with Some _ => requestHasAgentID req | None => false end) = false.

Lemma enrich_inert env s req now tenant meta cache :
  agent_inert env req ->
  enrichAgentContext s (ke_agentStore env) now tenant (pr_Labels req) meta cache = (cache, meta).
Proof.
  unfold agent_inert, enrichAgentContext, requestHasAgentID.
  destruct (ke_agentStore env); [|done]. intros Hn. apply negb_false_iff in Hn. rewrite Hn.
  by destruct (negb _).
Qed.

Lemma evaluateRequest_plain env s req method tenant topic p rules st :
  agent_inert env req ->
  (0 <? effectiveVelocityRuleCount (Some p) (ve_limit (ke_velocity env)))%Z = false ->
  evaluateRequest evaluateScope scanners env s req method tenant topic p rules st =
  (st, (plain_answer env s req tenant topic p rules).1, (plain_answer env s req tenant topic p rules).2).
Proof.
  intros Hi Hv. unfold evaluateRequest, plain_answer, buildInput, evaluateScoped. rewrite Hv.
  cbn [ke_deriveTags ke_agentStore ke_delegationEnabled ke_extractAction enrichAgentContext ke_now].
  destruct (match ke_deriveTags env topic (pr_Labels req) (pr_InputContent req) with
            | Some _ => _ | None => _ end) as [pmeta pbmeta].
  rewrite enrich_inert by done. destruct st as [c a r]. cbn [k_cache k_agents k_redis].
  match goal with |- context [has_action ?i] => set (input := i) end.
  destruct (if has_action input then ke_gates env input else None); reflexivity.
Qed.

(** What a fresh evaluation of a normalised request answers, when the answer may
    be cached. *)
Definition decided (env : kernel_env) (s : server) (req : PolicyCheckRequest)
    : option PolicyCheckResponse :=
  let topic := TrimSpace (pr_Topic req) in
  let tenant := requestTenant req in
  let '(wf, job) := resolvePolicyScope (pr_Labels req) (pr_JobId req) in
  match s_policy s, scopedPolicyForRequest (s_policy s) (s_global s) wf job topic (pr_Labels req) with
  | Some policy, Some p =>
      let tenant := if tenant =s? "" then TrimSpace (DefaultTenant policy) else tenant in
      let tenant := if tenant =s? "" then "default" else tenant in
      if topic =s? "" then None else if negb (HasPrefix topic "job.") then None else
      let '(r, gated) := plain_answer env s req tenant topic p
                           (selectInputRulesForScope (s_inputRules s) wf job) in
      if gated then None else Some r
  | _, _ => None
  end.

(** Every entry of the current policy version holds the answer to the request its
    key was computed from. *)
Definition cache_ok (env : kernel_env) (s : server) (cache : gmap string cacheEntry) : Prop :=
  forall k e, cache !! k = Some e -> ce_policyVersion e = s_policyVersion s ->
  exists req r, cacheKeyForRequest env req (s_snapshot s) = k /\ k <> "" /\
    decided env s req = Some r /\ ce_resp e = clear_ref r.

(** The digest of a request identifies it. *)
Definition digest_identifies (env : kernel_env) : Prop :=
  forall r1 r2 d, ke_digest env r1 = Some d -> ke_digest env r2 = Some d -> r1 = r2.

Lemma key_identifies env snap r1 r2 :
  digest_identifies env -> cacheKeyForRequest env r1 snap <> "" ->
  cacheKeyForRequest env r1 snap = cacheKeyForRequest env r2 snap -> r1 = r2.
Proof.
  intros Hd. unfold cacheKeyForRequest.
  destruct (ke_digest env r1) as [d1|] eqn:E1; [|done].
  destruct (ke_digest env r2) as [d2|] eqn:E2.
  - intros _ E. assert (d1 = d2) as ->; [|by eapply Hd].
    revert E. clear. induction snap as [|c snap IH]; intros E.
    + by injection E.
    + injection E as E. by apply IH.
  - done.
Qed.

Lemma serve_decided s req env tenant topic p rules r :
  plain_answer env s req tenant topic p rules = (r, false) ->
  serve_cached s req (clear_ref r) = r.
Proof.
  unfold plain_answer. destruct (buildInput _ _ _ _ _ _) as [[a input] pbmeta].
  destruct (if has_action input then _ else None); [done|]. intros [= <-].
  unfold respond. destruct (applyEffectiveConfig _ _ _ _) as [d0 reason].
  unfold serve_cached, clear_ref.
  cbn [ps_Decision ps_Reason ps_PolicySnapshot ps_RuleId ps_Constraints ps_ApprovalRequired
       ps_ApprovalRef ps_Remediations].
  by destruct (_ || _).
Qed.

Lemma cache_ok_delete env s k cache : cache_ok env s cache -> cache_ok env s (delete k cache).
Proof. intros Hc k' e Hk. apply lookup_delete_Some in Hk as [_ Hk]. by apply Hc. Qed.

Lemma getCached_ok env s now k cache :
  cache_ok env s cache ->
  cache_ok env s (getCachedDecision s now k cache).1 /\
  forall r, (getCachedDecision s now k cache).2 = Some r ->
    exists req r', cacheKeyForRequest env req (s_snapshot s) = k /\
      decided env s req = Some r' /\ r = clear_ref r'.
Proof.
  intros Hc. unfold getCachedDecision. destruct (cache !! k) as [e|] eqn:E; [|done].
  destruct (Z.eqb_spec (ce_policyVersion e) (s_policyVersion s)) as [Hv|]; cbn [negb];
    [|split; [by apply cache_ok_delete|done]].
  destruct (ce_expires e <? now)%Z; [split; [by apply cache_ok_delete|done]|].
  split; [done|]. intros r [= <-]. destruct (Hc k e E Hv) as (req & r & Hk & _ & Hd & ->). eauto.
Qed.

Lemma evictOldest_subset fuel max (cache : gmap string cacheEntry) k e :
  evictOldest fuel max cache !! k = Some e -> cache !! k = Some e.
Proof.
  revert cache. induction fuel as [|fuel IH]; intros cache; cbn [evictOldest]; [done|].
  destruct (_ <? max)%Z; [done|]. destruct (oldestEntry _) as [[k0 exp]|]; [|done].
  intros Hk. apply IH in Hk. by apply lookup_delete_Some in Hk as [_ Hk].
Qed.

Lemma setCached_ok env s now req r cache :
  cache_ok env s cache -> cacheKeyForRequest env req (s_snapshot s) <> "" ->
  decided env s req = Some r ->
  cache_ok env s (setCachedDecision s now (cacheKeyForRequest env req (s_snapshot s)) (clear_ref r) cache).
Proof.
  intros Hc Hk Hd k e. unfold setCachedDecision. destruct (_ || _); [by apply Hc|].
  intros He Hv. apply lookup_insert_Some in He as [[<- <-]|[_ He]].
  - exists req, r. done.
  - apply Hc; [|done]. destruct (_ && _) in He; [|done].
    apply evictOldest_subset in He. by apply map_lookup_filter_Some in He as [He _].
Qed.

(** The part of [evaluate] behind the cache; the flag tells that the answer may be
    stored. *)
Definition fresh (env : kernel_env) (s : server) (req : PolicyCheckRequest) (method : string)
    (st : kstate) : kstate * PolicyCheckResponse * bool :=
  let topic := TrimSpace (pr_Topic req) in
  let '(wf, job) := resolvePolicyScope (pr_Labels req) (pr_JobId req) in
  match s_policy s, scopedPolicyForRequest (s_policy s) (s_global s) wf job topic (pr_Labels req) with
  | Some policy, Some p =>
      let tenant := if requestTenant req =s? "" then TrimSpace (DefaultTenant policy)
                    else requestTenant req in
      let tenant := if tenant =s? "" then "default" else tenant in
      if topic =s? "" then (st, deny_response "missing topic" "", false)
      else if negb (HasPrefix topic "job.") then (st, deny_response "unsupported topic" "", false)
      else
        let '(st, resp, gated) :=
          evaluateRequest evaluateScope scanners env s req method tenant topic p
            (selectInputRulesForScope (s_inputRules s) wf job) st in
        (st, resp, negb gated)
  | _, _ => (st, deny_response "no policy loaded — fail-closed" (s_snapshot s), false)
  end.

Definition cacheable (env : kernel_env) (s : server) (req : PolicyCheckRequest) : bool :=
  let '(wf, job) := resolvePolicyScope (pr_Labels req) (pr_JobId req) in
  (0 <? s_cacheTTL s)%Z
  && negb (0 <? effectiveVelocityRuleCount
             (scopedPolicyForRequest (s_policy s) (s_global s) wf job (TrimSpace (pr_Topic req))
                (pr_Labels req)) (ve_limit (ke_velocity env)))%Z
  && negb (ke_hasActionLabel env req)
  && negb (match ke_agentStore env with Some _ => requestHasAgentID req | None => false end)
  && decisionCacheContentVerified env req
       (nonempty (selectInputRulesForScope (s_inputRules s) wf job)).

Definition request_key (env : kernel_env) (s : server) (req : PolicyCheckRequest) : string :=
  if cacheable env s req then cacheKeyForRequest env req (s_snapshot s) else "".

Definition normalized (env : kernel_env) (req0 : PolicyCheckRequest) : option PolicyCheckRequest :=
  match pr_Identity req0 with None => Some req0 | Some _ => ke_normalizeIdentity env req0 end.

Definition drop_cache (st : kstate) (cache : gmap string cacheEntry) : kstate :=
  mkKState cache (k_agents st) (k_redis st).

Lemma evaluate_split env s req0 method st :
  evaluate evaluateScope scanners env s req0 method st =
  match normalized env req0 with
  | None => (st, deny_response "identity validation failed" "")
  | Some req =>
      let key := request_key env s req in
      let '(cache, cached) := if negb (key =s? "")
        then getCachedDecision s (ke_now env) key (k_cache st) else (k_cache st, None) in
      match cached with
      | Some r => (drop_cache st cache, serve_cached s req r)
      | None =>
          let '(st1, resp, storable) := fresh env s req method (drop_cache st cache) in
          if storable && negb (key =s? "") && (0 <? s_cacheTTL s)%Z && negb (ke_hasActionLabel env req)
          then (drop_cache st1 (setCachedDecision s (ke_now env) key (clear_ref resp) (k_cache st1)), resp)
          else (st1, resp)
      end
  end.
Proof.
  unfold evaluate, normalized. destruct (match pr_Identity req0 with None => _ | Some _ => _ end) as [req|];
    [|done].
  unfold request_key, cacheable, fresh. destruct (resolvePolicyScope _ _) as [wf job]. cbn zeta.
  match goal with |- context [if ?b then cacheKeyForRequest _ _ _ else ""] => set (c := b) end.
  destruct (if negb _ then getCachedDecision _ _ _ _ else _) as [cache [r|]]; [done|].
  destruct (s_policy s) as [policy|]; [|done]. destruct (scopedPolicyForRequest _ _ _ _ _ _) as [p|]; [|done].
  destruct (TrimSpace (pr_Topic req) =s? ""); [done|]. destruct (negb (HasPrefix _ _)); [done|].
  fold (drop_cache st cache). by destruct (evaluateRequest _ _ _ _ _ _ _ _ _ _ _) as [[st1 resp] gated].
Qed.

Lemma cacheable_inert env s req :
  cacheable env s req = true ->
  agent_inert env req /\
  forall method st, match decided env s req with
    | Some r => fresh env s req method st = (st, r, true)
    | None => exists r, fresh env s req method st = (st, r, false)
    end.
Proof.
  unfold cacheable, decided, fresh. destruct (resolvePolicyScope _ _) as [wf job]. intros Hc.
  rewrite !andb_true_iff, !negb_true_iff in Hc. destruct Hc as ((((_ & Hv) & _) & Ha) & _).
  split; [exact Ha|]. intros method st. destruct (s_policy s) as [policy|]; [|eauto].
  destruct (scopedPolicyForRequest _ _ _ _ _ _) as [p|]; [|eauto].
  destruct (TrimSpace (pr_Topic req) =s? ""); [eauto|]. destruct (negb (HasPrefix _ _)); [eauto|].
  rewrite evaluateRequest_plain by done.
  destruct (plain_answer _ _ _ _ _ _ _) as [r []]; cbn [fst snd negb]; eauto.
Qed.

Lemma fresh_uncached env s req method st : fresh env (uncached s) req method st = fresh env s req method st.
Proof. reflexivity. Qed.

Lemma decided_served env s req r : decided env s req = Some r -> serve_cached s req (clear_ref r) = r.
Proof.
  unfold decided. destruct (resolvePolicyScope _ _) as [wf job].
  destruct (s_policy s) as [policy|]; [|done]. destruct (scopedPolicyForRequest _ _ _ _ _ _) as [p|]; [|done].
  destruct (_ =s? ""); [done|]. destruct (negb (HasPrefix _ _)); [done|].
  destruct (plain_answer _ _ _ _ _ _ _) as [r' []] eqn:E; [done|]. intros [= <-].
  by eapply serve_decided.
Qed.

(** The evaluation behind the cache neither reads nor changes the cache. *)
Lemma fresh_frame env s req method st c :
  (fresh env s req method (drop_cache st c)).1.2 = (fresh env s req method st).1.2 /\
  k_cache (fresh env s req method (drop_cache st c)).1.1 = c.
Proof.
  unfold fresh. destruct (resolvePolicyScope _ _) as [wf job].
  destruct (s_policy s) as [policy|]; [|done]. destruct (scopedPolicyForRequest _ _ _ _ _ _) as [p|]; [|done].
  destruct (_ =s? ""); [done|]. destruct (negb (HasPrefix _ _)); [done|].
  unfold evaluateRequest, drop_cache. cbn [k_agents k_redis k_cache].
  destruct (buildInput _ _ _ _ _ _) as [[agents input] pbmeta].
  destruct (if has_action input then _ else None); [done|].
  by destruct (evaluateScoped _ _ _ _ _ _).
Qed.

Lemma uncached_answer env s req0 method st req :
  normalized env req0 = Some req ->
  (evaluate evaluateScope scanners env (uncached s) req0 method st).2 = (fresh env s req method st).1.2.
Proof.
  intros Hn. rewrite evaluate_split, Hn.
  assert (Hk : request_key env (uncached s) req = "").
  { unfold request_key, cacheable. by destruct (resolvePolicyScope _ _). }
  rewrite Hk. cbn [String.eqb negb]. rewrite fresh_uncached. cbn zeta.
  destruct st as [c a r]. unfold drop_cache. cbn [k_cache k_agents k_redis].
  destruct (fresh env s req method _) as [[st1 resp] b]. rewrite andb_false_r. done.
Qed.

Lemma cache_transparent env s req0 method st :
  digest_identifies env -> cache_ok env s (k_cache st) ->
  (evaluate evaluateScope scanners env s req0 method st).2 =
    (evaluate evaluateScope scanners env (uncached s) req0 method st).2 /\
  cache_ok env s (k_cache (evaluate evaluateScope scanners env s req0 method st).1).
Proof.
  intros Hd Hc. destruct (normalized env req0) as [req|] eqn:Hn.
  2:{ rewrite !evaluate_split, Hn. done. }
  rewrite (uncached_answer env s req0 method st req Hn), evaluate_split, Hn. cbn zeta.
  destruct (String.eqb_spec (request_key env s req) "") as [Hk|Hk]; cbn [negb].
  - destruct (fresh_frame env s req method st (k_cache st)) as [Hr Hf].
    destruct (fresh env s req method (drop_cache st (k_cache st))) as [[st1 resp] b].
    rewrite andb_false_r. cbn [andb fst snd] in *. split; [done|]. by rewrite Hf.
  - assert (Hca : cacheable env s req = true) by (revert Hk; unfold request_key; by destruct (cacheable _ _ _)).
    assert (Hkey : request_key env s req = cacheKeyForRequest env req (s_snapshot s))
      by (unfold request_key; by rewrite Hca).
    destruct (getCached_ok env s (ke_now env) (request_key env s req) (k_cache st) Hc) as [Hc1 Hhit].
    destruct (cacheable_inert env s req Hca) as [_ Hfresh].
    destruct (getCachedDecision _ _ _ _) as [cache [r|]]; cbn [fst snd] in *.
    + destruct (Hhit r eq_refl) as (req' & r' & Hk' & Hd' & ->). rewrite Hkey in *.
      assert (req' = req) as -> by (eapply key_identifies; [done|rewrite Hk'; done|done]).
      specialize (Hfresh method st). rewrite Hd' in Hfresh. rewrite Hfresh.
      split; [by eapply decided_served|done].
    + destruct (fresh_frame env s req method st cache) as [Hr _]. rewrite <- Hr.
      specialize (Hfresh method (drop_cache st cache)).
      destruct (decided env s req) as [r|] eqn:Hdec.
      * rewrite Hfresh. cbn [andb fst snd]. destruct (_ && _); cbn [fst snd]; (split; [done|]).
        -- rewrite Hkey in *. apply setCached_ok; done.
        -- done.
      * destruct Hfresh as [r ->]. done.
Qed.

(** The same collaborators at another time. *)
Definition env_at (env : kernel_env) (now : Z) : kernel_env :=
  mkKernelEnv (ke_normalizeIdentity env) (ke_parseEffective env) (ke_deriveTags env)
    (ke_agentStore env) (ke_extractAction env) (ke_gates env) (ke_digest env) (ke_refVerified env)
    (ke_hasActionLabel env) (ke_delegationEnabled env) (ke_velocity env) now.

(** C37: the decision cache is transparent.  If request digests identify requests
    and every cached entry of the current policy version answers the request it
    was stored for (as in an empty cache), then the kernel answers every request,
    under every method and at every time, exactly as a kernel without a decision
    cache would, and the cache stays that way. *)
Theorem decision_cache_transparent env s req0 method now st :
  digest_identifies env -> cache_ok env s (k_cache st) ->
  (evaluate evaluateScope scanners (env_at env now) s req0 method st).2 =
    (evaluate evaluateScope scanners (env_at env now) (uncached s) req0 method st).2 /\
  cache_ok env s (k_cache (evaluate evaluateScope scanners (env_at env now) s req0 method st).1).
Proof. intros Hd Hc. exact (cache_transparent (env_at env now) s req0 method st Hd Hc). Qed.

(** A policy change starts from a clean slate: entries of other versions are not served. *)
Lemma cache_ok_reload env s (cache : gmap string cacheEntry) :
  (forall k e, cache !! k = Some e -> ce_policyVersion e <> s_policyVersion s) -> cache_ok env s cache.
Proof. intros Hv k e Hk E. by destruct (Hv k e Hk). Qed.
End CacheTransparency.

(** ** Agent enrichment *)

Lemma agentCacheKey_inj t a t' a' :
  sep_free nul t -> sep_free nul t' -> agentCacheKey t a = agentCacheKey t' a' -> t = t' /\ a = a'.
Proof.
  unfold agentCacheKey. revert t'. induction t as [|c t IH]; intros [|c' t'] Ht Ht'; simpl.
  - intros [= ->]. done.
  - intros [= <- _]. exfalso. apply Ht'. by left.
  - intros [= -> _]. exfalso. apply Ht. by left.
  - intros [= <- Heq]. destruct (IH t') as [-> ->]; [|
    | exact Heq | done]; intros Hin; [apply Ht | apply Ht']; by right.
Qed.

(** Every cached agent belongs to the tenant of its key. *)
Definition agents_ok (cache : gmap string agentCacheEntry) : Prop :=
  forall t a e, sep_free nul t -> cache !! agentCacheKey t a = Some e ->
    TrimSpace (ai_TenantID (ac_identity e)) = t.

Lemma agents_ok_delete cache k : agents_ok cache -> agents_ok (delete k cache).
Proof. intros Hok t a e Ht He. apply lookup_delete_Some in He as [_ He]. by eapply Hok. Qed.

(** Agent enrichment is isolated by tenant.  Starting from a cache whose
    entries belong to the tenant of their key, enrichment keeps it so, and the
    agent attributes it adds to a request always come from an agent of the
    request's own tenant; an agent of another tenant adds nothing but its id. *)
Theorem agent_enrichment_isolated s store now tenant labels meta cache cache' meta' :
  agents_ok cache -> sep_free nul tenant ->
  enrichAgentContext s store now tenant labels meta cache = (cache', meta') ->
  agents_ok cache' /\
  (meta' = meta \/ meta' = with_agent_id meta (TrimSpace (get_str labels "agent_id")) \/
   exists a, TrimSpace (ai_TenantID a) = TrimSpace tenant /\
     meta' = with_agent (with_agent_id meta (TrimSpace (get_str labels "agent_id"))) a).
Proof.
  intros Hok Hnul. unfold enrichAgentContext. destruct store as [get|]; [|intros [= <- <-]; auto].
  destruct (negb (map_nonempty labels)); [intros [= <- <-]; auto|].
  set (id := TrimSpace (get_str labels "agent_id")). destruct (id =s? ""); [intros [= <- <-]; auto|].
  destruct (TrimSpace tenant =s? ""); [intros [= <- <-]; auto|].
  assert (sep_free nul (TrimSpace tenant)) as Ht by (by apply TrimSpace_sep_free).
  destruct (getAgentFromCache now _ cache) as [c [a|]] eqn:Eg.
  - intros [= <- <-]. unfold getAgentFromCache in Eg. destruct (cache !! _) as [e|] eqn:El; [|done].
    destruct (_ <? _)%Z; [done|]. injection Eg as <- <-. split; [done|]. right. right.
    eexists. split; [|reflexivity]. by eapply Hok.
  - assert (agents_ok c) as Hc.
    { unfold getAgentFromCache in Eg. destruct (cache !! _); [|by injection Eg as <-].
      destruct (_ <? _)%Z; [|done]. injection Eg as <-. by apply agents_ok_delete. }
    destruct (get id) as [a|]; [|intros [= <- <-]; auto].
    destruct (String.eqb_spec (TrimSpace (ai_TenantID a)) (TrimSpace tenant)) as [Et|Et]; cbn [negb];
      [|intros [= <- <-]; auto].
    intros [= <- <-]. split; [|right; right; eauto].
    intros t b e Hts He. unfold putAgentInCache in He. apply lookup_insert_Some in He as [[Hk <-]|[_ He]]; [|by eapply Hc].
    apply agentCacheKey_inj in Hk as [<- _]; done.
Qed.

(** ** Witnesses and counterexamples *)

Definition ex_env : kernel_env :=
  {| ke_normalizeIdentity := fun r => Some r; ke_parseEffective := fun _ => None;
     ke_deriveTags := fun _ _ _ => None; ke_agentStore := None; ke_extractAction := fun _ => None;
     ke_gates := fun _ => None; ke_digest := fun _ => None; ke_refVerified := fun _ => false;
     ke_hasActionLabel := fun _ => false; ke_delegationEnabled := false;
     ke_velocity := Velocity.ex_env 3; ke_now := 0 |}.

Definition ex_server (p : option SafetyPolicy) (g : option GlobalPolicy) (rules : list compiledInputRule)
    : server :=
  mkServer p g "snap" rules zero_threshold 60 2 0 1.

Definition ex_request (labels : gmap string string) : PolicyCheckRequest :=
  mkPolicyCheckRequest "j1" "job.prod" "t" "" labels None None "" "" "" 0 false.

Definition ex_state : kstate := mkKState ∅ ∅ ∅.

Definition no_scope : ScopeConfig -> string -> bool * list (string * string) := fun _ _ => (false, []).


Lemma decision_cache_sound_witness :
  (getCachedDecision (ex_server None None []) 30 "k"
    (@setCachedDecision fwd_runtime (ex_server None None []) 0 "k" (deny_response "r" "s") ∅)).2
  = Some (deny_response "r" "s").
Proof.
  apply (@decision_cache_sound fwd_runtime (ex_server None None []) (ex_server None None []) 0 30 "k"
    (deny_response "r" "s") ∅); [reflexivity | discriminate].
Defined.

(** A digest that knows one request. *)
Definition ex_digest_env : kernel_env :=
  mkKernelEnv (fun r => Some r) (fun _ => None) (fun _ _ _ => None) None (fun _ => None) (fun _ => None)
    (fun r => if decide (r = ex_request ∅) then Some "digest" else None) (fun _ => false)
    (fun _ => false) false (Velocity.ex_env 3) 0.

Definition ex_cached_server : server := ex_server (Some (ex_policy "allow" [])) None [].

Definition ex_evaluate (s : server) (now : Z) (st : kstate) : kstate * PolicyCheckResponse :=
  @evaluate fwd_runtime wit_parser no_match_regexp no_scope ∅ (env_at ex_digest_env now) s
    (ex_request ∅) "check" st.

(** The second of two equal requests is answered from the cache. *)
Example ex_second_is_cached :
  size (k_cache (ex_evaluate ex_cached_server 0 ex_state).1) = 1%nat.
Proof. by vm_compute. Qed.

Lemma decision_cache_transparent_witness :
  let st1 := (ex_evaluate ex_cached_server 0 ex_state).1 in
  (ex_evaluate ex_cached_server 30 st1).2 = (ex_evaluate (uncached ex_cached_server) 30 st1).2.
Proof.
  assert (Hd : digest_identifies ex_digest_env).
  { intros r1 r2 d. unfold ex_digest_env. cbn [ke_digest]. do 2 case_decide; congruence. }
  apply (@decision_cache_transparent fwd_runtime wit_parser no_match_regexp no_scope ∅ ex_digest_env
    ex_cached_server (ex_request ∅) "check" 30); [exact Hd|].
  apply (@decision_cache_transparent fwd_runtime wit_parser no_match_regexp no_scope ∅ ex_digest_env
    ex_cached_server (ex_request ∅) "check" 0 ex_state); [exact Hd|].
  intros k e Hk. exfalso. revert Hk. unfold ex_state. cbn [k_cache]. rewrite lookup_empty. discriminate.
Defined.

Lemma agent_enrichment_isolated_witness :
  let get := fun _ : string => Some (mkAgentIdentity "other" "low" [] "" "") in
  exists c m, enrichAgentContext (ex_server None None []) (Some get) 0 "t" {["agent_id" := "a1"]} empty_meta ∅
    = (c, m) /\ agents_ok c.
Proof.
  cbv zeta. eexists _, _. split; [reflexivity|].
  eapply (agent_enrichment_isolated (ex_server None None [])
    (Some (fun _ => Some (mkAgentIdentity "other" "low" [] "" ""))) 0 "t" {["agent_id" := "a1"]} empty_meta ∅).
  - intros t a e _ He. rewrite lookup_empty in He. discriminate.
  - intros [Hc|[]]. discriminate.
  - reflexivity.
Defined.

(** A tenant whose MCP lists refuse every tool, under a rule that asks for approval. *)
Definition ex_mcp_policy : SafetyPolicy :=
  {| Version := "1"; Tier := ""; Selector := empty_selector;
     Rules := [topic_rule "ask" "" empty_selector "job.prod" "require_approval"];
     InputPolicy := mkInputPolicyConfig false "" 0; InputRules := [];
     RequireHuman := zero_threshold; OutputPolicy := mkOutputPolicyConfig false "";
     OutputRules := []; DefaultTenant := ""; DefaultDecision := "";
     Tenants := {["t" := mkTenantPolicy [] [] [] [] 0
       (mkMCPPolicy [] [] [] ["fs.read"] [] [] [] [] false [] [])]}; TierDefaults := [] |}.

(** A request that the tenant's MCP lists deny keeps the approval flag of the
    rule they override: the response is a denial that asks for an approval, with
    a reference to approve. *)
Theorem mcp_denial_keeps_approval :
  let resp := (@evaluate fwd_runtime wit_parser no_match_regexp no_scope ∅ ex_env
    (ex_server (Some ex_mcp_policy) None []) (ex_request {["mcp.tool" := "fs.read"]}) "check" ex_state).2 in
  ps_Decision resp = DT_DENY /\ ps_ApprovalRequired resp = true /\ ps_ApprovalRef resp = "j1".
Proof. vm_compute. repeat split. Qed.

(** An invariant input rule that denies, above a job's own rule that asks for approval. *)
Definition ex_input_server : server :=
  let base := with_input_rules (ex_policy "allow" [])
    [ex_input_policy_rule "job-ask" "job" (mkPolicySelector "" "j1" "") "require_approval"] in
  let inv := with_input_rules (ex_policy "" []) [ex_input_policy_rule "floor" "" empty_selector "deny"] in
  let combined := @applyKernelInvariants fwd_runtime (Some base) (Some inv) in
  ex_server combined None (@compileInputRules no_match_regexp combined).

(** Input invariants do not run first.  The overlay puts them ahead of the
    policy's input rules, but the choice for a request moves job rules before
    global ones: a job rule that asks for approval pre-empts an invariant that
    denies the same input, and the response asks for approval. *)
Theorem input_floor_preempted :
  map ci_id (s_inputRules ex_input_server) = ["floor"; "job-ask"] /\
  let resp := (@evaluate fwd_runtime wit_parser no_match_regexp no_scope ∅ ex_env ex_input_server
    (ex_request ∅) "check" ex_state).2 in
  ps_Decision resp = DT_REQUIRE_HUMAN /\ ps_RuleId resp = "job-ask".
Proof. vm_compute. repeat split. Qed.
