(* ===== verification/GoBase64.v ===== *)
(** * Base64 as the job store uses it

    Go's [encoding/base64] raw (unpadded) encodings: [RawURLEncoding] for redis
    keys and field names, [RawStdEncoding] for stored digests and payloads.
    A sextet is six booleans, most significant first.  The decoder is Go's
    non-strict one: it skips newlines and ignores the spare bits of the last
    character.  Main result: decoding inverts encoding, so encoding is
    injective and no two message ids share a field. *)
From Stdlib Require Import Ascii.
From S2P Require Import Prelude.
From S2P Require Import GoStrings.
Open Scope string_scope.

Inductive encoding := RawURLEncoding | RawStdEncoding.

Definition sextet : Type := bool * bool * bool * bool * bool * bool.

Definition sextet_value '((a, b, c, d, e, f) : sextet) : nat :=
  32 * Nat.b2n a + 16 * Nat.b2n b + 8 * Nat.b2n c + 4 * Nat.b2n d + 2 * Nat.b2n e + Nat.b2n f.

Definition nat_sextet (n : nat) : sextet :=
  (Nat.testbit n 5, Nat.testbit n 4, Nat.testbit n 3, Nat.testbit n 2, Nat.testbit n 1,
   Nat.testbit n 0).

(** [A-Z a-z 0-9] and the two characters in which the alphabets differ. *)
Definition encode_sextet (enc : encoding) (s : sextet) : ascii :=
  let n := sextet_value s in
  if (n <? 26)%nat then ascii_of_nat (65 + n)
  else if (n <? 52)%nat then ascii_of_nat (97 + (n - 26))
  else if (n <? 62)%nat then ascii_of_nat (48 + (n - 52))
  else match enc with
       | RawURLEncoding => if (n =? 62)%nat then "-"%char else "_"%char
       | RawStdEncoding => if (n =? 62)%nat then "+"%char else "/"%char
       end.

Definition decode_char (enc : encoding) (c : ascii) : option sextet :=
  let n := nat_of_ascii c in
  if ((65 <=? n) && (n <=? 90))%nat then Some (nat_sextet (n - 65))
  else if ((97 <=? n) && (n <=? 122))%nat then Some (nat_sextet (n - 97 + 26))
  else if ((48 <=? n) && (n <=? 57))%nat then Some (nat_sextet (n - 48 + 52))
  else match enc with
       | RawURLEncoding =>
           if Ascii.eqb c "-" then Some (nat_sextet 62)
           else if Ascii.eqb c "_" then Some (nat_sextet 63) else None
       | RawStdEncoding =>
           if Ascii.eqb c "+" then Some (nat_sextet 62)
           else if Ascii.eqb c "/" then Some (nat_sextet 63) else None
       end.

(** The first sextet of a byte, and what a byte contributes to its neighbours.
    [Ascii] lists its bits least significant first. *)
Definition hi6 '(Ascii _ _ b2 b3 b4 b5 b6 b7) : sextet := (b7, b6, b5, b4, b3, b2).
Definition lo2_hi4 '(Ascii a0 a1 _ _ _ _ _ _) '(Ascii _ _ _ _ b4 b5 b6 b7) : sextet :=
  (a1, a0, b7, b6, b5, b4).
Definition lo4_hi2 '(Ascii b0 b1 b2 b3 _ _ _ _) '(Ascii _ _ _ _ _ _ c6 c7) : sextet :=
  (b3, b2, b1, b0, c7, c6).
Definition lo6 '(Ascii c0 c1 c2 c3 c4 c5 _ _) : sextet := (c5, c4, c3, c2, c1, c0).

Fixpoint EncodeToString (enc : encoding) (s : string) : string :=
  let ch := encode_sextet enc in
  match s with
  | EmptyString => ""
  | String a EmptyString => String (ch (hi6 a)) (String (ch (lo2_hi4 a "000")) "")
  | String a (String b EmptyString) =>
      String (ch (hi6 a)) (String (ch (lo2_hi4 a b)) (String (ch (lo4_hi2 b "000")) ""))
  | String a (String b (String c rest)) =>
      String (ch (hi6 a)) (String (ch (lo2_hi4 a b)) (String (ch (lo4_hi2 b c))
        (String (ch (lo6 c)) (EncodeToString enc rest))))
  end.

(** The bytes that two neighbouring sextets determine. *)
Definition byte1 '((a7, a6, a5, a4, a3, a2) : sextet) '((a1, a0, _, _, _, _) : sextet) : ascii :=
  Ascii a0 a1 a2 a3 a4 a5 a6 a7.
Definition byte2 '((_, _, b7, b6, b5, b4) : sextet) '((b3, b2, b1, b0, _, _) : sextet) : ascii :=
  Ascii b0 b1 b2 b3 b4 b5 b6 b7.
Definition byte3 '((_, _, _, _, c7, c6) : sextet) '((c5, c4, c3, c2, c1, c0) : sextet) : ascii :=
  Ascii c0 c1 c2 c3 c4 c5 c6 c7.

Fixpoint decode_sextets (l : list sextet) : option string :=
  match l with
  | [] => Some ""
  | [_] => None
  | [s1; s2] => Some (String (byte1 s1 s2) "")
  | [s1; s2; s3] => Some (String (byte1 s1 s2) (String (byte2 s2 s3) ""))
  | s1 :: s2 :: s3 :: s4 :: rest =>
      match decode_sextets rest with
      | Some r => Some (String (byte1 s1 s2) (String (byte2 s2 s3) (String (byte3 s3 s4) r)))
      | None => None
      end
  end.

Fixpoint read_sextets (enc : encoding) (s : string) : option (list sextet) :=
  match s with
  | EmptyString => Some []
  | String c rest =>
      if Ascii.eqb c "010" || Ascii.eqb c "013" then read_sextets enc rest
      else match decode_char enc c, read_sextets enc rest with
           | Some x, Some xs => Some (x :: xs)
           | _, _ => None
           end
  end.

Definition DecodeString (enc : encoding) (s : string) : option string :=
  match read_sextets enc s with Some l => decode_sextets l | None => None end.

(** ** Decoding inverts encoding *)

Lemma decode_encode_sextet enc s : decode_char enc (encode_sextet enc s) = Some s.
Proof. by destruct enc, s as [[[[[[] []] []] []] []] []]. Qed.

Lemma encode_sextet_no_newline enc s :
  (Ascii.eqb (encode_sextet enc s) "010" || Ascii.eqb (encode_sextet enc s) "013") = false.
Proof. by destruct enc, s as [[[[[[] []] []] []] []] []]. Qed.

Lemma read_cons enc x s :
  read_sextets enc (String (encode_sextet enc x) s) =
  match read_sextets enc s with Some xs => Some (x :: xs) | None => None end.
Proof. cbn [read_sextets]. by rewrite encode_sextet_no_newline, decode_encode_sextet. Qed.

Lemma byte1_hi a b : byte1 (hi6 a) (lo2_hi4 a b) = a.
Proof. by destruct a, b. Qed.

Lemma byte2_mid a b c : byte2 (lo2_hi4 a b) (lo4_hi2 b c) = b.
Proof. by destruct a, b, c. Qed.

Lemma byte3_lo b c : byte3 (lo4_hi2 b c) (lo6 c) = c.
Proof. by destruct b, c. Qed.

Lemma Decode_Encode enc s : DecodeString enc (EncodeToString enc s) = Some s.
Proof.
  unfold DecodeString. revert s. fix IH 1. intros [|a [|b [|c rest]]]; cbn [EncodeToString].
  - done.
  - rewrite !read_cons. cbn [read_sextets decode_sextets]. by rewrite byte1_hi.
  - rewrite !read_cons. cbn [read_sextets decode_sextets]. by rewrite byte1_hi, byte2_mid.
  - rewrite !read_cons. specialize (IH rest).
    destruct (read_sextets enc (EncodeToString enc rest)) as [l|]; [|done].
    cbn [decode_sextets]. by rewrite IH, byte1_hi, byte2_mid, byte3_lo.
Qed.

Lemma Encode_inj enc s t : EncodeToString enc s = EncodeToString enc t -> s = t.
Proof. intros E. generalize (Decode_Encode enc s). rewrite E, Decode_Encode. congruence. Qed.

Lemma Encode_nonempty enc s : s <> "" -> EncodeToString enc s <> "".
Proof. intros Hs E. apply Hs, (Encode_inj enc). by rewrite E. Qed.
