(* ===== verification/GoSha256.v ===== *)
(** * SHA-256 and HMAC-SHA256

    [crypto/sha256] and [crypto/hmac] as the audit chain uses them, on byte
    strings, with the digest in lower-case hexadecimal ([encoding/hex]).  The
    constants are computed from their definition, the fractional parts of the
    cube and square roots of the first primes.  Two published test vectors check
    the definitions. *)
From Stdlib Require Import Ascii.
From S2P Require Import Prelude.
From S2P Require Import GoStrings.

Open Scope Z_scope.

(** ** Words *)

Definition word (z : Z) : Z := z mod 2 ^ 32.

Definition ROTR (n x : Z) : Z := Z.lor (Z.shiftr x n) (word (Z.shiftl x (32 - n))).

Definition Ch (x y z : Z) : Z := Z.lxor (Z.land x y) (Z.land (2 ^ 32 - 1 - x) z).

Definition Maj (x y z : Z) : Z := Z.lxor (Z.land x y) (Z.lxor (Z.land x z) (Z.land y z)).

Definition xor3 (x y z : Z) : Z := Z.lxor x (Z.lxor y z).

Definition Sigma0 (x : Z) : Z := xor3 (ROTR 2 x) (ROTR 13 x) (ROTR 22 x).

Definition Sigma1 (x : Z) : Z := xor3 (ROTR 6 x) (ROTR 11 x) (ROTR 25 x).

Definition sigma0 (x : Z) : Z := xor3 (ROTR 7 x) (ROTR 18 x) (Z.shiftr x 3).

Definition sigma1 (x : Z) : Z := xor3 (ROTR 17 x) (ROTR 19 x) (Z.shiftr x 10).

(** ** Constants *)

Definition is_prime (n : Z) : bool :=
  forallb (fun d => negb (n mod d =? 0)) (seqZ 2 (Z.sqrt n - 1)).

Definition primes : list Z := Eval vm_compute in List.filter is_prime (seqZ 2 310).

(** The integer cube root, bit by bit. *)
Fixpoint cube_root (bits : nat) (n acc : Z) : Z :=
  match bits with
  | O => acc
  | S b =>
      let r := acc + 2 ^ Z.of_nat b in
      cube_root b n (if r * r * r <=? n then r else acc)
  end.

Definition round_constants : list Z := Eval vm_compute in map (fun p => word (cube_root 36 (p * 2 ^ 96) 0)) primes.

Definition initial_hash : list Z := Eval vm_compute in map (fun p => word (Z.sqrt (p * 2 ^ 64))) (firstn 8 primes).

(** ** The hash *)

Record regs := mkRegs { ra : Z; rb : Z; rc : Z; rd : Z; re : Z; rf : Z; rg : Z; rh : Z }.

Definition round (s : regs) (kw : Z * Z) : regs :=
  let t1 := rh s + Sigma1 (re s) + Ch (re s) (rf s) (rg s) + fst kw + snd kw in
  let t2 := Sigma0 (ra s) + Maj (ra s) (rb s) (rc s) in
  mkRegs (word (t1 + t2)) (ra s) (rb s) (rc s) (word (rd s + t1)) (re s) (rf s) (rg s).

(** The message schedule, newest word first. *)
Fixpoint schedule_words (n : nat) (ws : list Z) : list Z :=
  match n with
  | O => ws
  | S n =>
      let w i := nth i ws 0 in
      schedule_words n (word (sigma1 (w 1%nat) + w 6%nat + sigma0 (w 14%nat) + w 15%nat) :: ws)
  end.

Definition compress (h : regs) (block : list Z) : regs :=
  let ws := rev (schedule_words 48 (rev block)) in
  let s := foldl round h (combine round_constants ws) in
  mkRegs (word (ra h + ra s)) (word (rb h + rb s)) (word (rc h + rc s)) (word (rd h + rd s))
    (word (re h + re s)) (word (rf h + rf s)) (word (rg h + rg s)) (word (rh h + rh s)).

Fixpoint string_bytes (s : string) : list Z :=
  match s with
  | EmptyString => []
  | String c s => Z.of_nat (nat_of_ascii c) :: string_bytes s
  end.

(** The bytes of a number, most significant first. *)
Definition be_bytes (n : nat) (z : Z) : list Z :=
  rev (map (fun i => Z.shiftr z (8 * Z.of_nat i) mod 256) (seq 0 n)).

(** A one bit, zeros up to 56 bytes modulo 64, and the length in bits. *)
Definition pad (msg : list Z) : list Z :=
  let len := Z.of_nat (length msg) in
  (msg ++ 128 :: repeat 0 (Z.to_nat ((55 - len) mod 64)) ++ be_bytes 8 (8 * len))%list.

Fixpoint words_of (bs : list Z) : list Z :=
  match bs with
  | a :: b :: c :: d :: bs => Z.shiftl a 24 + Z.shiftl b 16 + Z.shiftl c 8 + d :: words_of bs
  | _ => []
  end.

Fixpoint blocks (n : nat) (ws : list Z) : list (list Z) :=
  match n with
  | O => []
  | S n => firstn 16 ws :: blocks n (skipn 16 ws)
  end.

Definition regs_of (l : list Z) : regs :=
  let x i := nth (Z.to_nat i) l 0 in mkRegs (x 0) (x 1) (x 2) (x 3) (x 4) (x 5) (x 6) (x 7).

Definition words (r : regs) : list Z := [ra r; rb r; rc r; rd r; re r; rf r; rg r; rh r].

Definition sha256 (msg : list Z) : regs :=
  let ws := words_of (pad msg) in
  foldl compress (regs_of initial_hash) (blocks (length ws / 16) ws).

(** ** Hexadecimal *)

Definition hex_word (z : Z) : string :=
  let d i := hex_digit (Z.to_nat (Z.shiftr z (4 * i) mod 16)) in
  String (d 7) (String (d 6) (String (d 5) (String (d 4) (String (d 3) (String (d 2) (String (d 1) (String (d 0) EmptyString))))))).

Definition hex (r : regs) : string := foldr (fun w s => hex_word w +:+ s) "" (words r).

(** [hex.EncodeToString(sha256.Sum256([]byte(s)))]. *)
Definition sha256_hex (s : string) : string := hex (sha256 (string_bytes s)).

(** [hmac.New(sha256.New, key)] over the message, in hexadecimal. *)
Definition hmac_sha256_hex (key msg : string) : string :=
  let k := string_bytes key in
  let k := if (64 <? length k)%nat then concat (map (be_bytes 4) (words (sha256 k))) else k in
  let k := (k ++ repeat 0 (64 - length k))%list in
  let inner := sha256 (map (Z.lxor 54) k ++ string_bytes msg) in
  hex (sha256 (map (Z.lxor 92) k ++ concat (map (be_bytes 4) (words inner)))).

Lemma sha256_hex_length s : String.length (sha256_hex s) = 64%nat.
Proof. unfold sha256_hex. by destruct (sha256 _). Qed.

Example sha256_abc : sha256_hex "abc" = "ba7816bf8f01cfea414140de5dae2223b00361a396177a9cb410ff61f20015ad".
Proof. vm_compute. reflexivity. Qed.

Example sha256_two_blocks : sha256_hex "abcdbcdecdefdefgefghfghighijhijkijkljklmklmnlmnomnopnopq" =
  "248d6a61d20638b8e5c026930c3e6039a33ce45964ff2167f6ecedd419db06c1".
Proof. vm_compute. reflexivity. Qed.

Example hmac_jefe : hmac_sha256_hex "Jefe" "what do ya want for nothing?" =
  "5bdcc146bf60754e6a042426089575c75a003f089d2739839dec58b964ec3843".
Proof. vm_compute. reflexivity. Qed.
