(* ===== verification/GoJson.v ===== *)
(** * JSON text

    [json.Marshal] of the flat documents the audit chain hashes: objects whose
    members are strings, integers, lists of strings and maps of strings, with
    struct members in declaration order and map keys sorted.  Strings are escaped
    as [encoding/json] does with its default HTML escaping; text is assumed to be
    valid UTF-8, as every decoded JSON string is.  Main result: documents without
    integers are determined by their text. *)
From Stdlib Require Import Ascii.
From S2P Require Import Prelude.
From S2P Require Import GoStrings.

Open Scope string_scope.

(** ** Strings *)

Definition unicode_escape (n : nat) : string :=
  String backslash (String "u" (String "0" (String "0" (String (hex_digit (n / 16)) (String (hex_digit (n mod 16)) EmptyString))))).

Definition escape_char (c : ascii) : string :=
  let n := nat_of_ascii c in
  let two (x : ascii) := String backslash (String x EmptyString) in
  if Ascii.eqb c dquote || Ascii.eqb c backslash then two c
  else if (n =? 8)%nat then two "b"%char
  else if (n =? 12)%nat then two "f"%char
  else if (n =? 10)%nat then two "n"%char
  else if (n =? 13)%nat then two "r"%char
  else if (n =? 9)%nat then two "t"%char
  else if (n <? 32)%nat || (n =? 60)%nat || (n =? 62)%nat || (n =? 38)%nat then unicode_escape n
  else String c EmptyString.

(** The UTF-8 encodings of U+2028 and U+2029 start with these two bytes. *)
Definition sep_1 : ascii := ascii_of_nat 226.
Definition sep_2 : ascii := ascii_of_nat 128.

(** The last digit of the escape of a line or paragraph separator. *)
Definition line_sep (a b c : ascii) : option ascii :=
  if Ascii.eqb a sep_1 && Ascii.eqb b sep_2 then
    if (nat_of_ascii c =? 168)%nat then Some "8"%char
    else if (nat_of_ascii c =? 169)%nat then Some "9"%char else None
  else None.

Fixpoint escape (s : string) : string :=
  match s with
  | EmptyString => EmptyString
  | String a t =>
      match t with
      | String b (String c t') =>
          match line_sep a b c with
          | Some d => String backslash (String "u" (String "2" (String "0" (String "2" (String d EmptyString))))) +:+ escape t'
          | None => escape_char a +:+ escape t
          end
      | _ => escape_char a +:+ escape t
      end
  end.

Definition quoted (s : string) : string := String dquote (escape s +:+ String dquote EmptyString).

(** ** Documents *)

Inductive json : Type :=
| JString (s : string)
| JInt (z : Z)
| JStrings (l : list string)
| JStringMap (l : list (string * string)).

(** [omitempty]. *)
Definition json_empty (v : json) : bool :=
  match v with
  | JString s => s =s? ""
  | JInt z => (z =? 0)%Z
  | JStrings l => negb (nonempty l)
  | JStringMap l => negb (nonempty l)
  end.

Definition member (kv : string * string) : string := quoted (fst kv) +:+ ":" +:+ snd kv.

Definition braces (ms : list (string * string)) : string := "{" +:+ Join (map member ms) "," +:+ "}".

Definition render (v : json) : string :=
  match v with
  | JString s => quoted s
  | JInt z => Itoa z
  | JStrings l => "[" +:+ Join (map quoted l) "," +:+ "]"
  | JStringMap l => braces (map (fun kv => (fst kv, quoted (snd kv))) l)
  end.

(** An object; the flag of a member is [omitempty]. *)
Definition present (m : string * bool * json) : bool := negb (snd (fst m) && json_empty (snd m)).

Definition render_object (ms : list (string * bool * json)) : string :=
  braces (map (fun m => (fst (fst m), render (snd m))) (List.filter present ms)).

(** ** Reading a string back *)

Definition hex_value (c : ascii) : nat :=
  let n := nat_of_ascii c in if (n <? 58)%nat then n - 48 else n - 87.

(** The bytes of an escape [\uabcd]. *)
Definition unicode_value (a b c d : ascii) : string :=
  if Ascii.eqb a "2" then
    String sep_1 (String sep_2 (String (ascii_of_nat (168 + (hex_value d - 8))) EmptyString))
  else String (ascii_of_nat (16 * hex_value c + hex_value d)) EmptyString.

Definition short_value (c : ascii) : ascii :=
  if Ascii.eqb c "b" then ascii_of_nat 8 else if Ascii.eqb c "f" then ascii_of_nat 12
  else if Ascii.eqb c "n" then ascii_of_nat 10 else if Ascii.eqb c "r" then ascii_of_nat 13
  else if Ascii.eqb c "t" then ascii_of_nat 9 else c.

Definition prepend (p : string) (r : option (string * string)) : option (string * string) :=
  match r with Some (s, rest) => Some (p +:+ s, rest) | None => None end.

(** The text up to the closing quote, and what follows it. *)
Fixpoint unescape (s : string) : option (string * string) :=
  match s with
  | EmptyString => None
  | String c r =>
      if Ascii.eqb c dquote then Some (EmptyString, r)
      else if Ascii.eqb c backslash then
        match r with
        | EmptyString => None
        | String e r' =>
            if Ascii.eqb e "u" then
              match r' with
              | String w (String x (String y (String z r''))) => prepend (unicode_value w x y z) (unescape r'')
              | _ => None
              end
            else prepend (String (short_value e) EmptyString) (unescape r')
        end
      else prepend (String c EmptyString) (unescape r)
  end.

Lemma unescape_char c x : unescape (escape_char c +:+ x) = prepend (String c EmptyString) (unescape x).
Proof. destruct c as [[] [] [] [] [] [] [] []]; reflexivity. Qed.

Lemma unescape_sep a b c d x : line_sep a b c = Some d ->
  unescape (String backslash (String "u" (String "2" (String "0" (String "2" (String d EmptyString))))) +:+ x) =
  prepend (String a (String b (String c EmptyString))) (unescape x).
Proof.
  unfold line_sep. destruct (Ascii.eqb_spec a sep_1) as [->|]; [|done]. destruct (Ascii.eqb_spec b sep_2) as [->|]; [|done]. cbn [andb].
  destruct (Nat.eqb_spec (nat_of_ascii c) 168) as [E|_]; [|destruct (Nat.eqb_spec (nat_of_ascii c) 169) as [E|_]; [|done]];
    intros [= <-]; apply (f_equal ascii_of_nat) in E; rewrite ascii_nat_embedding in E; by subst c.
Qed.

Lemma str_cons_app c s t : String c s +:+ t = String c (s +:+ t).
Proof. done. Qed.

Lemma str_nil_app s : "" +:+ s = s.
Proof. done. Qed.

Lemma str_cons_inj c s t : String c s = String c t -> s = t.
Proof. by intros [= ->]. Qed.

(** Concatenations to the right, with the first character in front. *)
Ltac str_norm := repeat (rewrite <- str_app_assoc || rewrite str_cons_app || rewrite str_nil_app).

Lemma escape_cons a t : exists b c t' d,
  (escape (String a t) = escape_char a +:+ escape t \/
   t = String b (String c t') /\ line_sep a b c = Some d /\
   escape (String a t) = String backslash (String "u" (String "2" (String "0" (String "2" (String d EmptyString))))) +:+ escape t').
Proof.
  destruct t as [|b [|c t']]; [by exists a, a, "", a; left..|]. destruct (line_sep a b c) as [d|] eqn:E.
  - exists b, c, t', d. right. cbn [escape]. by rewrite E.
  - exists b, c, t', a. left. cbn [escape]. by rewrite E.
Qed.

Lemma unescape_escape s r : unescape (escape s +:+ String dquote r) = Some (s, r).
Proof.
  induction s as [s IH] using (well_founded_induction (Wf_nat.well_founded_ltof _ String.length)). unfold Wf_nat.ltof in IH.
  destruct s as [|a t]; [done|]. destruct (escape_cons a t) as (b & c & t' & d & [E|(-> & Hsep & E)]); rewrite E, <- str_app_assoc.
  - rewrite unescape_char, IH by (cbn; lia). done.
  - rewrite (unescape_sep _ _ _ _ _ Hsep), IH by (cbn; lia). done.
Qed.

(** ** Texts that determine their documents *)

(** No text of a document is the start of the text of another one. *)
Definition prefix_code {A} (P : A -> Prop) (f : A -> string) : Prop :=
  forall a b x y, P a -> P b -> f a +:+ x = f b +:+ y -> a = b /\ x = y.

Lemma quoted_code : prefix_code (fun _ => True) quoted.
Proof.
  intros a b x y _ _. unfold quoted. str_norm. intros [= E].
  apply (f_equal unescape) in E. rewrite !unescape_escape in E. by injection E as -> ->.
Qed.

(** The list is read back from its elements, as long as the closing character is
    neither the separator nor the quote every element starts with. *)
Lemma list_code {A} (P : A -> Prop) (f : A -> string) (t : ascii) (l l' : list A) x y :
  prefix_code P f -> (forall a, exists s, f a = String dquote s) -> t <> ","%char -> t <> dquote -> Forall P l -> Forall P l' ->
  Join (map f l) "," +:+ String t x = Join (map f l') "," +:+ String t y -> l = l' /\ x = y.
Proof.
  intros Hf Hq Ht Hd Hl. revert l'. induction Hl as [|a l Ha Hl IH]; intros l' Hl'.
  - destruct Hl' as [|b l' _ _]; [by intros [= ->]|]. destruct (Hq b) as [s E]. destruct l'; cbn; rewrite E; str_norm; congruence.
  - destruct Hl' as [|b l' Hb Hl'].
    { destruct (Hq a) as [s E]. destruct l; cbn; rewrite E; str_norm; congruence. }
    assert (forall c k z, exists w, Join (map f (c :: k)) "," +:+ String t z = f c +:+ w /\
      w = match k with [] => String t z | _ => String "," (Join (map f k) "," +:+ String t z) end) as Hsplit.
    { intros c [|c' k] z; [by eexists|]. eexists. split; [|done]. cbn [map Join]. by str_norm. }
    destruct (Hsplit a l x) as (w & -> & Hw), (Hsplit b l' y) as (w' & -> & Hw'). intros [-> E]%Hf; try done. subst.
    destruct l as [|a' l], l' as [|b' l']; [by injection E as ->|congruence|congruence|].
    injection E as E. destruct (IH _ Hl' E) as [-> ->]. done.
Qed.

Definition no_int (v : json) : Prop := match v with JInt _ => False | _ => True end.

Lemma string_member_code : prefix_code (fun _ : string * string => True) (fun kv => member (fst kv, quoted (snd kv))).
Proof.
  intros [k v] [k' v'] x y _ _. unfold member. cbn [fst snd]. str_norm. intros [-> E]%quoted_code; [|done..].
  apply str_cons_inj in E. by apply quoted_code in E as [-> ->].
Qed.

Lemma render_code : prefix_code no_int render.
Proof.
  intros v v' x y Hv Hv'. destruct v as [s|z|l|l], v' as [s'|z'|l'|l']; try done; unfold render, braces; rewrite ?map_map; str_norm; try (unfold quoted; str_norm; congruence).
  - by intros [-> ->]%quoted_code.
  - intros [= E].
    apply (list_code (fun _ => True) quoted) in E as [-> ->]; try done; [apply quoted_code|by eexists|by apply Forall_true..].
  - intros [= E].
    apply (list_code (fun _ => True) (fun kv => member (fst kv, quoted (snd kv)))) in E as [-> ->]; try done;
      [apply string_member_code|by eexists|by apply Forall_true..].
Qed.

Lemma object_code (ms ms' : list (string * bool * json)) :
  Forall (fun m => no_int (snd m)) (List.filter present ms) -> Forall (fun m => no_int (snd m)) (List.filter present ms') ->
  render_object ms = render_object ms' ->
  map (fun m => (fst (fst m), snd m)) (List.filter present ms) = map (fun m => (fst (fst m), snd m)) (List.filter present ms').
Proof.
  unfold render_object, braces. rewrite !map_map. str_norm. intros Hl Hl' [= E].
  set (f := fun kv : string * json => member (fst kv, render (snd kv))). set (g := fun m : string * bool * json => (fst (fst m), snd m)).
  assert (forall l, map (fun m : string * bool * json => member (fst (fst m), render (snd m))) l = map f (map g l)) as Hm
    by (intros l; by rewrite map_map).
  rewrite !Hm in E. apply (list_code (fun kv => no_int (snd kv)) f) in E as [E _]; try done.
  - intros [k v] [k' v'] x y Hv Hv'. unfold f, member. cbn [fst snd]. str_norm. intros [-> E']%quoted_code; [|done..].
    apply str_cons_inj in E'. by apply render_code in E' as [-> ->].
  - intros kv. by eexists.
  - by apply List.Forall_map.
  - by apply List.Forall_map.
Qed.

Definition json_kind (v : json) : nat := match v with JString _ => 0 | JInt _ => 1 | JStrings _ => 2 | JStringMap _ => 3 end.

Lemma json_empty_eq v v' : json_kind v = json_kind v' -> json_empty v = true -> json_empty v' = true -> v = v'.
Proof.
  destruct v as [s|z|l|l], v' as [s'|z'|l'|l']; try done; cbn; intros _.
  - by intros ->%String.eqb_eq ->%String.eqb_eq.
  - by intros ->%Z.eqb_eq ->%Z.eqb_eq.
  - by destruct l, l'.
  - by destruct l, l'.
Qed.

(** Members that were left out were empty: an object of known shape is determined
    by the members it shows. *)
Lemma shown_members (ms ms' : list (string * bool * json)) :
  map (fun m => (fst m, json_kind (snd m))) ms = map (fun m => (fst m, json_kind (snd m))) ms' ->
  NoDup (map (fun m => fst (fst m)) ms) ->
  map (fun m => (fst (fst m), snd m)) (List.filter present ms) = map (fun m => (fst (fst m), snd m)) (List.filter present ms') ->
  ms = ms'.
Proof.
  revert ms'. induction ms as [|[[n o] v] ms IH]; intros [|[[n' o'] v'] ms']; try done. cbn [map fst snd].
  intros [= <- <- Hk Hs] Hnd. apply NoDup_cons in Hnd as [Hn Hnd].
  assert (map (fun m : string * bool * json => fst (fst m)) ms' = map (fun m : string * bool * json => fst (fst m)) ms) as Hnames.
  { transitivity (map (fun p : (string * bool) * nat => fst (fst p)) (map (fun m : string * bool * json => (fst m, json_kind (snd m))) ms')); [by rewrite map_map|].
    by rewrite <- Hs, map_map. }
  assert (forall w l rest, map (fun m : string * bool * json => fst (fst m)) l = map (fun m : string * bool * json => fst (fst m)) ms ->
    map (fun m : string * bool * json => (fst (fst m), snd m)) (List.filter present l) <> (n, w) :: rest) as Habs.
  { intros w l rest Hl E. apply Hn. rewrite <- Hl. assert ((n, w) ∈ map (fun m : string * bool * json => (fst (fst m), snd m)) (List.filter present l)) as Hin
      by (rewrite E; left). apply list_elem_of_fmap in Hin as ([[m b] u] & [= -> ->] & Hin). apply list_elem_of_In, filter_In in Hin as [Hin _].
    apply list_elem_of_fmap. exists (m, b, u). split; [done|]. by apply list_elem_of_In. }
  cbn [List.filter]. destruct (present (n, o, v)) eqn:Ep, (present (n, o, v')) eqn:Ep'; cbn [map fst snd].
  - intros [= <- E]. f_equal. by apply IH.
  - intros E. symmetry in E. by apply Habs in E.
  - intros E. by apply Habs in E.
  - intros E. rewrite (IH ms') by done. f_equal. f_equal. unfold present in Ep, Ep'. cbn in Ep, Ep'.
    apply negb_false_iff, andb_true_iff in Ep as [_ Ep]. apply negb_false_iff, andb_true_iff in Ep' as [_ Ep']. by apply json_empty_eq.
Qed.
