(* ===== verification/JobRuntime.v ===== *)
(** * The runtime hash of a job

    The redis hash [job:{<id>}:runtime] is the authority on a job's dispatch
    fence and state (core/infra/store/job_event_store.go, job_event_fence.go,
    job_runtime_state.go and the dispatch scripts of job_store.go).  Each Lua
    script is one atomic step on the hash; [HGET] of a missing field is [None],
    which differs from every string.  [rop] lists the scripts with their
    arguments and [exec] runs any interleaving of them.  [EXPIRE] is left out:
    the theorems speak about a job within the TTL of its hash.

    Results: a signed message id is consumed at most once whatever is
    interleaved; a result commit is all or nothing; a newer dispatch fences off
    every older attempt; an effect stays in the outbox until it is acknowledged;
    a job that reached a terminal state stays in one unless a rollback of the
    current attempt arrives. *)
From Stdlib Require Import Ascii.
From S2P Require Import Prelude.
From S2P Require Import GoStrings.
From S2P Require Import GoBase64.
Open Scope string_scope.

(** ** Job states *)

Definition JobStatePending : string := "PENDING".
Definition JobStateApproval : string := "APPROVAL_REQUIRED".
Definition JobStateScheduled : string := "SCHEDULED".
Definition JobStateDispatched : string := "DISPATCHED".
Definition JobStateRunning : string := "RUNNING".
Definition JobStateRetrying : string := "RETRYING".
Definition JobStateSucceeded : string := "SUCCEEDED".
Definition JobStateFailed : string := "FAILED".
Definition JobStateCancelled : string := "CANCELLED".
Definition JobStateTimeout : string := "TIMEOUT".
Definition JobStateDenied : string := "DENIED".
Definition JobStateQuarantined : string := "OUTPUT_QUARANTINED".

Definition terminalStates (s : string) : bool :=
  bool_decide (s ∈ [JobStateSucceeded; JobStateFailed; JobStateCancelled; JobStateTimeout;
                    JobStateDenied; JobStateQuarantined]).

Definition allowedTransitions : list (string * list string) :=
  [ ("", [JobStatePending; JobStateApproval; JobStateScheduled; JobStateDispatched;
          JobStateRunning; JobStateFailed; JobStateCancelled]);
    (JobStatePending, [JobStateApproval; JobStateScheduled; JobStateDispatched; JobStateRunning;
          JobStateDenied; JobStateFailed; JobStateTimeout; JobStateSucceeded; JobStateCancelled;
          JobStateRetrying]);
    (JobStateApproval, [JobStatePending; JobStateScheduled; JobStateDispatched; JobStateRunning;
          JobStateDenied; JobStateFailed; JobStateTimeout; JobStateSucceeded;
          JobStateCancelled]);
    (JobStateScheduled, [JobStateScheduled; JobStateDispatched; JobStateRunning; JobStateDenied;
          JobStateFailed; JobStateTimeout; JobStateSucceeded; JobStateCancelled;
          JobStateQuarantined; JobStateRetrying]);
    (JobStateDispatched, [JobStateScheduled; JobStateRunning; JobStateSucceeded; JobStateFailed;
          JobStateCancelled; JobStateTimeout; JobStateQuarantined; JobStateRetrying]);
    (JobStateRunning, [JobStateRunning; JobStateSucceeded; JobStateFailed; JobStateCancelled;
          JobStateTimeout; JobStateQuarantined; JobStateRetrying]);
    (JobStateRetrying, [JobStateScheduled; JobStateDispatched; JobStateRunning; JobStateRetrying;
          JobStateSucceeded; JobStateFailed; JobStateCancelled; JobStateTimeout]);
    (JobStateSucceeded, [JobStateQuarantined]);
    (JobStateFailed, []); (JobStateCancelled, []); (JobStateTimeout, []); (JobStateDenied, []);
    (JobStateQuarantined, []) ].

Definition containsJobState (states : list string) (target : string) : bool :=
  existsb (fun s => s =s? target) states.

Definition isAllowedTransition (from to : string) : bool :=
  match (list_to_map allowedTransitions : gmap string (list string)) !! from with
  | Some allowed => containsJobState allowed to
  | None => false
  end.

Definition isActiveState (state : string) : bool :=
  if state =s? "" then false else negb (terminalStates state).

(** ** Redis hashes *)

Abbreviation hash := (gmap string string).

(** [redis.call('HGET', key, f) == v]. *)
Definition HGET_is (h : hash) (f v : string) : bool := bool_decide (h !! f = Some v).

Definition HSETNX (h : hash) (f v : string) : hash * bool :=
  match h !! f with Some _ => (h, false) | None => (<[f := v]> h, true) end.

(** Redis parses the stored integer strictly: only its canonical decimal form. *)
Definition canonical_int (s : string) : option Z :=
  match Atoi s with
  | Some n => if Itoa n =s? s then Some n else None
  | None => None
  end.

Definition HINCRBY (h : hash) (f : string) (d : Z) : option (hash * Z) :=
  match (match h !! f with None => Some 0%Z | Some s => canonical_int s end) with
  | Some n =>
      let m := (n + d)%Z in
      if ((int64_min <=? m) && (m <=? int64_max))%Z then Some (<[f := Itoa m]> h, m) else None
  | None => None
  end.

(** ** Fields *)

Definition metaFieldDispatchID : string := "dispatch_id".
Definition metaFieldDispatchAttempt : string := "dispatch_attempt".
Definition metaFieldDispatchWorkerID : string := "dispatch_worker_id".
Definition metaFieldDispatchTenant : string := "dispatch_tenant".
Definition runtimeStateField : string := "state".
Definition runtimeResultField : string := "result_ptr".
Definition runtimeEventPrefix : string := "event:".
Definition runtimeEffectPrefix : string := "effect:".

Record fence := mkFence {
  f_DispatchID : string;
  f_Attempt : Z;
  f_WorkerID : string;
  f_Tenant : string;
}.

Record JobResultApply := mkJobResultApply {
  a_JobID : string;
  a_Fence : fence;
  a_MessageID : string;
  a_Digest : string;
  a_Effect : string;
  a_State : string;
  a_ResultPtr : string;
}.

Record JobEffect := mkJobEffect {
  e_JobID : string;
  e_EventID : string;
  e_Digest : string;
  e_Payload : string;
}.

Definition jobRuntimeKey (jobID : string) : string :=
  "job:{" +:+ EncodeToString RawURLEncoding jobID +:+ "}:runtime".

(** The field of a signed message id. *)
Definition event_id (messageID : string) : string := EncodeToString RawURLEncoding messageID.

(** ** The scripts *)

(** The four comparisons that open every fenced script. *)
Definition fence_matches (h : hash) (f : fence) : bool :=
  HGET_is h metaFieldDispatchID (f_DispatchID f)
  && HGET_is h metaFieldDispatchAttempt (Itoa (f_Attempt f))
  && HGET_is h metaFieldDispatchWorkerID (f_WorkerID f)
  && HGET_is h metaFieldDispatchTenant (f_Tenant f).

Definition in_flight (h : hash) : bool :=
  HGET_is h runtimeStateField "DISPATCHED" || HGET_is h runtimeStateField "RUNNING".

Definition beginDispatchScript (h : hash) (dispatchID workerID tenant : string)
    : option (hash * Z) :=
  match HINCRBY h metaFieldDispatchAttempt 1 with
  | Some (h', attempt) =>
      Some (<[metaFieldDispatchTenant := tenant]> (<[metaFieldDispatchWorkerID := workerID]>
             (<[metaFieldDispatchID := dispatchID]> h')), attempt)
  | None => None
  end.

Definition acceptJobEventScript (h : hash) (f : fence) (eventMessageID : string) : hash * Z :=
  if negb (fence_matches h f) then (h, 0%Z) else
  let '(h', added) := HSETNX h (runtimeEventPrefix +:+ eventMessageID) eventMessageID in
  if added then (h', 1%Z) else (h', 0%Z).

Definition acceptSignedJobEventScript (h : hash) (f : fence) (messageID digest : string)
    : hash * Z :=
  let eventField := runtimeEventPrefix +:+ event_id messageID in
  let encodedDigest := EncodeToString RawStdEncoding digest in
  if negb (fence_matches h f) then (h, 0%Z) else
  if negb (in_flight h) then (h, 0%Z) else
  match h !! eventField with
  | Some prior => if prior =s? encodedDigest then (h, 2%Z) else (h, -1)%Z
  | None => (<[eventField := encodedDigest]> h, 1%Z)
  end.

(** The writes of a result commit. *)
Definition commit_result (h : hash) (a : JobResultApply) : hash :=
  let eventID := event_id (a_MessageID a) in
  let h := <[runtimeEffectPrefix +:+ eventID := EncodeToString RawStdEncoding (a_Effect a)]>
             (<[runtimeStateField := a_State a]>
                (<[runtimeEventPrefix +:+ eventID := EncodeToString RawStdEncoding (a_Digest a)]> h)) in
  if a_ResultPtr a =s? "" then h else <[runtimeResultField := a_ResultPtr a]> h.

Definition applyJobResultScript (h : hash) (a : JobResultApply) : hash * Z :=
  if negb (fence_matches h (a_Fence a)) then (h, 0%Z) else
  match h !! (runtimeEventPrefix +:+ event_id (a_MessageID a)) with
  | Some prior =>
      if prior =s? EncodeToString RawStdEncoding (a_Digest a) then (h, 2%Z) else (h, -1)%Z
  | None => if negb (in_flight h) then (h, 0%Z) else (commit_result h a, 1%Z)
  end.

Definition ackJobEffectScript (h : hash) (e : JobEffect) : hash * Z :=
  if negb (HGET_is h (runtimeEventPrefix +:+ e_EventID e)
             (EncodeToString RawStdEncoding (e_Digest e))) then (h, 0%Z) else
  let field := runtimeEffectPrefix +:+ e_EventID e in
  (delete field h, match h !! field with Some _ => 1%Z | None => 0%Z end).

Definition rollbackDispatchScript (h : hash) (dispatchID : string) (attempt : Z) : hash * Z :=
  if negb (HGET_is h metaFieldDispatchID dispatchID) then (h, 0%Z) else
  if negb (HGET_is h metaFieldDispatchAttempt (Itoa attempt)) then (h, 0%Z) else
  (delete metaFieldDispatchTenant (delete metaFieldDispatchWorkerID
     (delete metaFieldDispatchID (<[runtimeStateField := JobStateScheduled]> h))), 1%Z).

(** The states the script itself lists as final. *)
Definition cancel_final : list string :=
  ["SUCCEEDED"; "FAILED"; "CANCELLED"; "TIMEOUT"; "DENIED"; "QUARANTINED"].

Definition cancelAllJobAttemptsScript (h : hash) : hash * string :=
  let cancelled :=
    (delete metaFieldDispatchTenant (delete metaFieldDispatchWorkerID
       (delete metaFieldDispatchID (<[runtimeStateField := JobStateCancelled]> h))),
     JobStateCancelled) in
  match h !! runtimeStateField with
  | Some state => if bool_decide (state ∈ cancel_final) then (h, state) else cancelled
  | None => cancelled
  end.

Definition fence_fields : list string :=
  ["state"; metaFieldDispatchID; metaFieldDispatchAttempt; metaFieldDispatchWorkerID;
   metaFieldDispatchTenant].

Definition migrateRuntimeFenceScript (h : hash) (args : list (string * string)) : hash :=
  fold_left (fun h '(f, v) => if v =s? "" then h else (HSETNX h f v).1) args h.

(** The arguments built from the legacy meta hash. *)
Definition migrate_args (legacy : hash) : list (string * string) :=
  map (fun field => (field, get_str legacy field)) fence_fields.

(** The states from which the transition script lets [target] be reached. *)
Definition prior_states (target : string) : list string :=
  map fst (List.filter (fun '(_, targets) => containsJobState targets target) allowedTransitions).

Definition transitionRuntimeStateScript (h : hash) (target : string) : hash * Z :=
  match h !! runtimeStateField with
  | Some current =>
      if current =s? target then (h, 1%Z)
      else if containsJobState (prior_states target) current
      then (<[runtimeStateField := target]> h, 1%Z)
      else (h, 0%Z)
  | None => (h, 0%Z)
  end.

(** ** Argument checks of the Go methods *)

Definition fence_complete (f : fence) : bool :=
  negb (f_DispatchID f =s? "") && (0 <? f_Attempt f)%Z && negb (f_WorkerID f =s? "")
  && negb (f_Tenant f =s? "").

Definition validateJobResultApply (a : JobResultApply) : bool :=
  negb (a_JobID a =s? "") && fence_complete (a_Fence a) && negb (a_MessageID a =s? "")
  && negb (a_Digest a =s? "") && negb (a_State a =s? "") && negb (a_Effect a =s? "").

(** ** Interleavings *)

Inductive rop :=
| OpMigrate (legacy : hash)
| OpBegin (dispatchID workerID tenant : string)
| OpAcceptEvent (f : fence) (eventMessageID : string)
| OpAcceptSigned (f : fence) (messageID digest : string)
| OpApply (a : JobResultApply)
| OpAck (e : JobEffect)
| OpRollback (dispatchID : string) (attempt : Z)
| OpCancel
| OpTransition (target : string).

(** What a script replies; [RErr] is an aborted script. *)
Inductive reply := RInt (n : Z) | RState (s : string) | RErr.

#[global] Instance reply_eq_dec : EqDecision reply.
Proof. solve_decision. Defined.

Definition int_reply (r : hash * Z) : hash * reply := (r.1, RInt r.2).

Definition run_op (op : rop) (h : hash) : hash * reply :=
  match op with
  | OpMigrate legacy => (migrateRuntimeFenceScript h (migrate_args legacy), RInt 1)
  | OpBegin d w t =>
      match beginDispatchScript h d w t with
      | Some (h', n) => (h', RInt n)
      | None => (h, RErr)
      end
  | OpAcceptEvent f m => int_reply (acceptJobEventScript h f m)
  | OpAcceptSigned f m d => int_reply (acceptSignedJobEventScript h f m d)
  | OpApply a => int_reply (applyJobResultScript h a)
  | OpAck e => int_reply (ackJobEffectScript h e)
  | OpRollback d n => int_reply (rollbackDispatchScript h d n)
  | OpCancel => let '(h', s) := cancelAllJobAttemptsScript h in (h', RState s)
  | OpTransition t => int_reply (transitionRuntimeStateScript h t)
  end.

Fixpoint exec (ops : list rop) (h : hash) : hash :=
  match ops with [] => h | op :: rest => exec rest (run_op op h).1 end.

Fixpoint replies (ops : list rop) (h : hash) : list (rop * reply) :=
  match ops with
  | [] => []
  | op :: rest => (op, (run_op op h).2) :: replies rest (run_op op h).1
  end.

(** The event field an operation consumes. *)
Definition consumes (op : rop) : option string :=
  match op with
  | OpAcceptEvent _ m => Some (runtimeEventPrefix +:+ m)
  | OpAcceptSigned _ m _ => Some (runtimeEventPrefix +:+ event_id m)
  | OpApply a => Some (runtimeEventPrefix +:+ event_id (a_MessageID a))
  | _ => None
  end.

(** The fence an operation presents. *)
Definition presents (op : rop) : option Z :=
  match op with
  | OpAcceptEvent f _ | OpAcceptSigned f _ _ => Some (f_Attempt f)
  | OpApply a => Some (f_Attempt (a_Fence a))
  | OpRollback _ n => Some n
  | _ => None
  end.

(** How often the field [e] was consumed in a run. *)
Definition applications (e : string) (ops : list rop) (h : hash) : nat :=
  length (List.filter (fun '(op, r) =>
    match consumes op, r with
    | Some e', RInt 1 => e =s? e'
    | _, _ => false
    end) (replies ops h)).

(** ** Which fields a step touches *)

Lemma HGET_is_true h f v : HGET_is h f v = true <-> h !! f = Some v.
Proof. apply bool_decide_eq_true. Qed.

Lemma HGET_is_false h f v : HGET_is h f v = false <-> h !! f <> Some v.
Proof. apply bool_decide_eq_false. Qed.

Lemma migrate_step_lookup h f v k :
  ((if v =s? "" then h else (HSETNX h f v).1) : hash) !! k =
  if bool_decide (k = f /\ h !! k = None /\ v <> "") then Some v else h !! k.
Proof.
  destruct (String.eqb_spec v "") as [->|Hv].
  { rewrite bool_decide_eq_false_2; [done|naive_solver]. }
  unfold HSETNX. destruct (h !! f) eqn:E; cbn [fst].
  - rewrite bool_decide_eq_false_2; [done|]. intros (-> & H & _). congruence.
  - destruct (decide (k = f)) as [->|Hne].
    + rewrite lookup_insert_eq, bool_decide_eq_true_2; naive_solver.
    + rewrite lookup_insert_ne by done. rewrite bool_decide_eq_false_2; naive_solver.
Qed.

(** A migration fills absent fence fields and changes nothing else. *)
Lemma migrate_keeps args h k v :
  h !! k = Some v -> migrateRuntimeFenceScript h args !! k = Some v.
Proof.
  unfold migrateRuntimeFenceScript. revert h.
  induction args as [|[f w] args IH]; intros h Hk; [done|]. apply IH.
  rewrite migrate_step_lookup, bool_decide_eq_false_2; [done|]. intros (_ & H & _). congruence.
Qed.

Lemma migrate_other args h k :
  k ∉ map fst args -> migrateRuntimeFenceScript h args !! k = h !! k.
Proof.
  unfold migrateRuntimeFenceScript. revert h.
  induction args as [|[f w] args IH]; intros h Hk; [done|]. cbn [fold_left map fst] in *.
  rewrite not_elem_of_cons in Hk. destruct Hk as [Hf Hk]. rewrite IH by done.
  rewrite migrate_step_lookup, bool_decide_eq_false_2; naive_solver.
Qed.

Lemma migrate_fields legacy : map fst (migrate_args legacy) = fence_fields.
Proof. done. Qed.

Definition is_event (k : string) : Prop := exists x, k = runtimeEventPrefix +:+ x.
Definition is_effect (k : string) : Prop := exists x, k = runtimeEffectPrefix +:+ x.

(** Event and effect fields are none of the fixed fields, nor each other. *)
Lemma prefixed_not_fixed k f :
  is_event k \/ is_effect k ->
  f ∈ [metaFieldDispatchID; metaFieldDispatchAttempt; metaFieldDispatchWorkerID;
       metaFieldDispatchTenant; runtimeStateField; runtimeResultField] ->
  f <> k.
Proof.
  intros [[x ->]|[x ->]] Hf; repeat (rewrite elem_of_cons in Hf; destruct Hf as [->|Hf]);
    try discriminate; by apply elem_of_nil in Hf.
Qed.

Lemma prefixed_not_in k :
  is_event k \/ is_effect k ->
  k ∉ [metaFieldDispatchID; metaFieldDispatchAttempt; metaFieldDispatchWorkerID;
       metaFieldDispatchTenant; runtimeStateField; runtimeResultField].
Proof. intros Hk Hin. by apply (prefixed_not_fixed k k). Qed.

Lemma event_not_effect x y : runtimeEventPrefix +:+ x <> runtimeEffectPrefix +:+ y.
Proof. discriminate. Qed.

Lemma event_inj x y : runtimeEventPrefix +:+ x = runtimeEventPrefix +:+ y -> x = y.
Proof. intros E. cbn in E. by injection E. Qed.

Lemma effect_inj x y : runtimeEffectPrefix +:+ x = runtimeEffectPrefix +:+ y -> x = y.
Proof. intros E. cbn in E. by injection E. Qed.

Lemma migrate_prefixed legacy h k :
  is_event k \/ is_effect k -> migrateRuntimeFenceScript h (migrate_args legacy) !! k = h !! k.
Proof.
  intros Hk. apply migrate_other. rewrite migrate_fields. intros Hin.
  apply (prefixed_not_fixed k k Hk); [|done].
  unfold fence_fields in Hin. set_solver.
Qed.

Lemma begin_lookup h d w t h' n k :
  beginDispatchScript h d w t = Some (h', n) ->
  k ∉ [metaFieldDispatchID; metaFieldDispatchAttempt; metaFieldDispatchWorkerID;
       metaFieldDispatchTenant] ->
  h' !! k = h !! k.
Proof.
  unfold beginDispatchScript, HINCRBY. intros H Hk. repeat case_match; simplify_eq.
  all: rewrite !lookup_insert_ne by set_solver; done.
Qed.

Lemma clear_fence_lookup (h : hash) k :
  k ∉ [metaFieldDispatchID; metaFieldDispatchWorkerID; metaFieldDispatchTenant] ->
  (delete metaFieldDispatchTenant (delete metaFieldDispatchWorkerID
     (delete metaFieldDispatchID h)) : hash) !! k = h !! k.
Proof. intros Hk. by rewrite !lookup_delete_ne by set_solver. Qed.

Lemma commit_lookup h a k :
  commit_result h a !! k =
  if decide (k = runtimeEffectPrefix +:+ event_id (a_MessageID a))
  then Some (EncodeToString RawStdEncoding (a_Effect a))
  else if decide (k = runtimeEventPrefix +:+ event_id (a_MessageID a))
  then Some (EncodeToString RawStdEncoding (a_Digest a))
  else if decide (k = runtimeStateField) then Some (a_State a)
  else if decide (k = runtimeResultField /\ a_ResultPtr a <> "") then Some (a_ResultPtr a)
  else h !! k.
Proof.
  unfold commit_result. destruct (String.eqb_spec (a_ResultPtr a) "") as [Hp|Hp];
    rewrite ?lookup_insert; repeat case_decide; simplify_eq; try done; naive_solver.
Qed.

Lemma commit_state h a : commit_result h a !! runtimeStateField = Some (a_State a).
Proof. rewrite commit_lookup. by repeat (case_decide; [done|]). Qed.

Lemma commit_event h a :
  commit_result h a !! (runtimeEventPrefix +:+ event_id (a_MessageID a)) =
  Some (EncodeToString RawStdEncoding (a_Digest a)).
Proof. rewrite commit_lookup, decide_False by done. by rewrite decide_True. Qed.

Lemma commit_effect h a :
  commit_result h a !! (runtimeEffectPrefix +:+ event_id (a_MessageID a)) =
  Some (EncodeToString RawStdEncoding (a_Effect a)).
Proof. rewrite commit_lookup. by rewrite decide_True. Qed.

Lemma commit_ptr h a :
  a_ResultPtr a <> "" -> commit_result h a !! runtimeResultField = Some (a_ResultPtr a).
Proof. intros Hp. rewrite commit_lookup, !decide_False by done. by rewrite decide_True. Qed.

(** A commit leaves the fence alone. *)
Lemma commit_fence h a f :
  f ∈ [metaFieldDispatchID; metaFieldDispatchAttempt; metaFieldDispatchWorkerID;
       metaFieldDispatchTenant] ->
  commit_result h a !! f = h !! f.
Proof.
  intros Hf. rewrite commit_lookup, !decide_False; [done|..].
  all: repeat (rewrite elem_of_cons in Hf; destruct Hf as [->|Hf]); try naive_solver;
    by apply elem_of_nil in Hf.
Qed.

(** An accepted event binds a field that was free; everything else it leaves. *)
Lemma accept_event_cases h f m :
  acceptJobEventScript h f m = (h, 0%Z) \/
  (h !! (runtimeEventPrefix +:+ m) = None /\
   acceptJobEventScript h f m = (<[runtimeEventPrefix +:+ m := m]> h, 1%Z)).
Proof.
  unfold acceptJobEventScript, HSETNX. destruct (fence_matches h f); cbn [negb]; [|tauto].
  destruct (h !! _); tauto.
Qed.

Lemma accept_signed_cases h f m d :
  (exists n, acceptSignedJobEventScript h f m d = (h, n) /\ n <> 1%Z) \/
  (h !! (runtimeEventPrefix +:+ event_id m) = None /\
   acceptSignedJobEventScript h f m d =
     (<[runtimeEventPrefix +:+ event_id m := EncodeToString RawStdEncoding d]> h, 1%Z)).
Proof.
  unfold acceptSignedJobEventScript. destruct (fence_matches h f); cbn [negb]; [|eauto].
  destruct (in_flight h); cbn [negb]; [|eauto].
  destruct (h !! _) as [p|]; [destruct (p =s? _)|]; eauto.
Qed.

Lemma apply_cases h a :
  (exists n, applyJobResultScript h a = (h, n) /\ n <> 1%Z) \/
  (fence_matches h (a_Fence a) = true /\ in_flight h = true /\
   h !! (runtimeEventPrefix +:+ event_id (a_MessageID a)) = None /\
   applyJobResultScript h a = (commit_result h a, 1%Z)).
Proof.
  unfold applyJobResultScript. destruct (fence_matches h (a_Fence a)); cbn [negb]; [|eauto].
  destruct (h !! _) as [p|]; [destruct (p =s? _); eauto|].
  destruct (in_flight h); cbn [negb]; eauto 6.
Qed.

Lemma cancel_lookup h k :
  k ∉ [metaFieldDispatchID; metaFieldDispatchWorkerID; metaFieldDispatchTenant; runtimeStateField] ->
  (cancelAllJobAttemptsScript h).1 !! k = h !! k.
Proof.
  intros Hk. unfold cancelAllJobAttemptsScript.
  repeat case_match; cbn [fst]; try done;
    rewrite clear_fence_lookup, lookup_insert_ne by set_solver; done.
Qed.

Lemma rollback_lookup h d n k :
  k ∉ [metaFieldDispatchID; metaFieldDispatchWorkerID; metaFieldDispatchTenant; runtimeStateField] ->
  (rollbackDispatchScript h d n).1 !! k = h !! k.
Proof.
  intros Hk. unfold rollbackDispatchScript.
  repeat case_match; cbn [fst]; try done;
    rewrite clear_fence_lookup, lookup_insert_ne by set_solver; done.
Qed.

Lemma transition_lookup h t k :
  k <> runtimeStateField -> (transitionRuntimeStateScript h t).1 !! k = h !! k.
Proof.
  intros Hk. unfold transitionRuntimeStateScript.
  repeat case_match; cbn [fst]; try done; by rewrite lookup_insert_ne by congruence.
Qed.

Lemma ack_lookup h e k :
  k <> runtimeEffectPrefix +:+ e_EventID e -> (ackJobEffectScript h e).1 !! k = h !! k.
Proof.
  intros Hk. unfold ackJobEffectScript. case_match; cbn [fst]; [done|].
  by rewrite lookup_delete_ne by congruence.
Qed.

(** ** Message ids are consumed at most once *)

(** A step binds the event field it consumes, if free, and no other. *)
Lemma event_step op h k :
  is_event k ->
  (run_op op h).1 !! k = h !! k \/
  (h !! k = None /\ consumes op = Some k /\ (run_op op h).2 = RInt 1).
Proof.
  intros Hk. assert (Hx := prefixed_not_in k (or_introl Hk)).
  assert (He : forall x, runtimeEffectPrefix +:+ x <> k).
  { intros x <-. by destruct Hk. }
  destruct op; cbn [run_op].
  - left. by apply migrate_prefixed; left.
  - left. destruct (beginDispatchScript _ _ _ _) as [[h' n]|] eqn:E; [|done].
    eapply begin_lookup; [done|]. set_solver.
  - destruct (accept_event_cases h f eventMessageID) as [->|[Hn ->]]; [by left|].
    destruct (decide (runtimeEventPrefix +:+ eventMessageID = k)) as [<-|Hne]; [by right|].
    left. cbn. by rewrite lookup_insert_ne.
  - destruct (accept_signed_cases h f messageID digest) as [(n & -> & _)|[Hn ->]]; [by left|].
    destruct (decide (runtimeEventPrefix +:+ event_id messageID = k)) as [<-|Hne]; [by right|].
    left. cbn. by rewrite lookup_insert_ne.
  - destruct (apply_cases h a) as [(n & -> & _)|(_ & _ & Hn & ->)]; [by left|].
    destruct (decide (runtimeEventPrefix +:+ event_id (a_MessageID a) = k)) as [<-|Hne];
      [by right|].
    left. cbn [int_reply fst]. rewrite commit_lookup, !decide_False; [done|..].
    + set_solver.
    + set_solver.
    + congruence.
    + intros ->. by eapply He.
  - left. apply ack_lookup. intros ->. by eapply He.
  - left. apply rollback_lookup. set_solver.
  - left. generalize (cancel_lookup h k). destruct (cancelAllJobAttemptsScript h). set_solver.
  - left. apply transition_lookup. set_solver.
Qed.

Lemma event_kept op h k v :
  is_event k -> h !! k = Some v -> (run_op op h).1 !! k = Some v.
Proof. intros Hk Hv. destruct (event_step op h k Hk) as [->|(H & _)]; [done|congruence]. Qed.

Lemma events_kept ops h k v : is_event k -> h !! k = Some v -> exec ops h !! k = Some v.
Proof. intros Hk. revert h. induction ops as [|op ops IH]; intros h Hv; [done|]. by apply IH, event_kept. Qed.

Lemma consume_cases op h e :
  consumes op = Some e ->
  is_event e /\
  ((run_op op h).2 <> RInt 1 \/
   (h !! e = None /\ exists v, (run_op op h).1 !! e = Some v)).
Proof.
  destruct op; cbn [consumes run_op]; intros [= <-]; (split; [by eexists|]).
  - destruct (accept_event_cases h f eventMessageID) as [->|[Hn ->]]; [by left|right].
    split; [done|]. eexists. apply lookup_insert_eq.
  - destruct (accept_signed_cases h f messageID digest) as [(n & -> & ?)|[Hn ->]].
    + left. cbn. congruence.
    + right. split; [done|]. eexists. apply lookup_insert_eq.
  - destruct (apply_cases h a) as [(n & -> & ?)|(_ & _ & Hn & ->)].
    + left. cbn. congruence.
    + right. split; [done|]. cbn [int_reply fst]. rewrite commit_lookup.
      rewrite decide_False by apply event_not_effect. rewrite decide_True by done. eauto.
Qed.

Lemma applications_cons e op ops h :
  applications e (op :: ops) h =
  ((if bool_decide (consumes op = Some e /\ (run_op op h).2 = RInt 1) then 1 else 0)
   + applications e ops (run_op op h).1)%nat.
Proof.
  unfold applications. cbn [replies List.filter].
  destruct (consumes op) as [e'|]; [|by rewrite bool_decide_eq_false_2 by naive_solver].
  destruct (run_op op h).2 as [n|s|] eqn:En;
    try by rewrite bool_decide_eq_false_2 by naive_solver.
  destruct (decide (n = 1%Z)) as [->|Hn].
  - destruct (String.eqb_spec e e') as [->|Hne]; cbn [length].
    + by rewrite bool_decide_eq_true_2.
    + by rewrite bool_decide_eq_false_2 by naive_solver.
  - rewrite bool_decide_eq_false_2 by naive_solver. by destruct n as [|[]|].
Qed.

Lemma applications_bound e ops h v : is_event e -> h !! e = Some v -> applications e ops h = 0%nat.
Proof.
  intros He. revert h. induction ops as [|op ops IH]; intros h Hv; [done|].
  rewrite applications_cons, IH by by apply event_kept.
  rewrite bool_decide_eq_false_2; [done|]. intros [Hc Hr].
  destruct (consume_cases op h e Hc) as (_ & [H|[H _]]); congruence.
Qed.

Lemma applications_le_1 e ops h : (applications e ops h <= 1)%nat.
Proof.
  revert h. induction ops as [|op ops IH]; intros h; [apply Nat.le_0_l|].
  rewrite applications_cons. case_bool_decide as H; [|by apply IH].
  destruct H as [Hc Hr]. destruct (consume_cases op h e Hc) as (He & [H|(_ & v & Hv)]); [done|].
  by rewrite (applications_bound e ops _ v).
Qed.

(** C10: a signed message id is applied at most once.  In any interleaving of the
    store's scripts on a job's hash (dispatches, events, results, rollbacks,
    cancellations, migrations), at most one operation that carries the id is
    answered "applied", and distinct ids never share the field that records it. *)
Theorem message_applied_once m ops h :
  (applications (runtimeEventPrefix +:+ event_id m) ops h <= 1)%nat /\
  forall m', event_id m' = event_id m -> m' = m.
Proof. split; [apply applications_le_1|]. intros m'. apply Encode_inj. Qed.

(** ** A result commit is all or nothing *)

Definition commit_ready (h : hash) (a : JobResultApply) : Prop :=
  let f := a_Fence a in
  h !! metaFieldDispatchID = Some (f_DispatchID f) /\
  h !! metaFieldDispatchAttempt = Some (Itoa (f_Attempt f)) /\
  h !! metaFieldDispatchWorkerID = Some (f_WorkerID f) /\
  h !! metaFieldDispatchTenant = Some (f_Tenant f) /\
  (h !! runtimeStateField = Some JobStateDispatched \/
   h !! runtimeStateField = Some JobStateRunning) /\
  h !! (runtimeEventPrefix +:+ event_id (a_MessageID a)) = None.

Lemma fence_matches_true h f :
  fence_matches h f = true <->
  h !! metaFieldDispatchID = Some (f_DispatchID f) /\
  h !! metaFieldDispatchAttempt = Some (Itoa (f_Attempt f)) /\
  h !! metaFieldDispatchWorkerID = Some (f_WorkerID f) /\
  h !! metaFieldDispatchTenant = Some (f_Tenant f).
Proof. unfold fence_matches. rewrite !andb_true_iff, !HGET_is_true. tauto. Qed.

Lemma in_flight_true h :
  in_flight h = true <->
  h !! runtimeStateField = Some JobStateDispatched \/ h !! runtimeStateField = Some JobStateRunning.
Proof. unfold in_flight. by rewrite orb_true_iff, !HGET_is_true. Qed.

Lemma commit_ready_iff h a : commit_ready h a <-> (applyJobResultScript h a).2 = 1%Z.
Proof.
  unfold commit_ready.
  assert (Hf := fence_matches_true h (a_Fence a)). assert (Hi := in_flight_true h).
  unfold applyJobResultScript. destruct (fence_matches h (a_Fence a)); cbn [negb].
  - destruct (h !! (runtimeEventPrefix +:+ _)) as [p|]; [destruct (p =s? _); naive_solver|].
    destruct (in_flight h); cbn [negb snd]; naive_solver.
  - naive_solver.
Qed.

(** A result is committed iff the presented dispatch id, attempt, worker and
    tenant are the current ones, the job is dispatched or running and the message
    id is new.  A commit writes the state, the digest, the effect and a given
    result pointer and nothing else; every other outcome leaves the hash as it
    was; presenting the committed result again is a duplicate, and presenting
    other bytes under its id a conflict. *)
Theorem result_commit_exact h a :
  let '(h', r) := applyJobResultScript h a in
  (r = 1%Z <-> commit_ready h a) /\
  (r <> 1%Z -> h' = h) /\
  (r = 1%Z ->
     h' !! runtimeStateField = Some (a_State a) /\
     h' !! (runtimeEventPrefix +:+ event_id (a_MessageID a))
       = Some (EncodeToString RawStdEncoding (a_Digest a)) /\
     h' !! (runtimeEffectPrefix +:+ event_id (a_MessageID a))
       = Some (EncodeToString RawStdEncoding (a_Effect a)) /\
     (a_ResultPtr a <> "" -> h' !! runtimeResultField = Some (a_ResultPtr a)) /\
     forall b, a_Fence b = a_Fence a -> a_MessageID b = a_MessageID a ->
       applyJobResultScript h' b =
         (h', if decide (a_Digest b = a_Digest a) then 2%Z else (-1)%Z)).
Proof.
  assert (Hc := commit_ready_iff h a). destruct (apply_cases h a) as [(n & E & Hn)|(Hf & Hi & He & E)];
    rewrite E in *; cbn [snd] in Hc.
  { split; [tauto|]. split; [done|]. tauto. }
  split; [tauto|]. split; [done|]. intros _.
  do 3 (split; [first [apply commit_state | apply commit_event | apply commit_effect]|]).
  split; [apply commit_ptr|].
  intros b Hb Hm. unfold applyJobResultScript. rewrite Hb, Hm.
  replace (fence_matches (commit_result h a) (a_Fence a)) with true.
  2:{ symmetry. rewrite fence_matches_true in *. by rewrite !commit_fence by set_solver. }
  cbn [negb]. rewrite commit_event.
  case_decide as Hd.
  - by rewrite Hd, String.eqb_refl.
  - destruct (String.eqb_spec (EncodeToString RawStdEncoding (a_Digest a))
                (EncodeToString RawStdEncoding (a_Digest b))) as [H|]; [|done].
    apply Encode_inj in H. congruence.
Qed.

(** ** A newer dispatch fences off older attempts *)

Lemma Itoa_inj n m :
  (0 <= n <= int64_max)%Z -> (0 <= m <= int64_max)%Z -> Itoa n = Itoa m -> n = m.
Proof. intros Hn Hm E. generalize (Atoi_Itoa n Hn). rewrite E, Atoi_Itoa by done. congruence. Qed.

Lemma canonical_Itoa n : (0 <= n <= int64_max)%Z -> canonical_int (Itoa n) = Some n.
Proof. intros Hn. unfold canonical_int. by rewrite Atoi_Itoa, String.eqb_refl. Qed.

Lemma HINCRBY_spec h f d h' m :
  HINCRBY h f d = Some (h', m) -> h' = <[f := Itoa m]> h /\ (int64_min <= m <= int64_max)%Z.
Proof.
  unfold HINCRBY. destruct (match h !! f with None => _ | Some s => _ end); [|done].
  destruct (_ && _) eqn:E; [|done]. intros [= <- <-]. split; [done|lia].
Qed.

Lemma begin_attempt h d w t h' n :
  beginDispatchScript h d w t = Some (h', n) ->
  h' !! metaFieldDispatchAttempt = Some (Itoa n) /\ (int64_min <= n <= int64_max)%Z.
Proof.
  unfold beginDispatchScript. destruct (HINCRBY h _ 1) as [[h1 m]|] eqn:E; [|done].
  apply HINCRBY_spec in E as [-> Hm]. intros [= <- <-]. split; [|done].
  by rewrite !lookup_insert_ne, lookup_insert_eq by done.
Qed.

Lemma begin_increments h d w t h' n m :
  (0 <= m <= int64_max)%Z -> h !! metaFieldDispatchAttempt = Some (Itoa m) ->
  beginDispatchScript h d w t = Some (h', n) -> n = (m + 1)%Z.
Proof.
  intros Hm Ha. unfold beginDispatchScript, HINCRBY. rewrite Ha, canonical_Itoa by done.
  destruct (_ && _); by intros [= _ <-].
Qed.

Lemma attempt_step op h n :
  (0 <= n <= int64_max)%Z -> h !! metaFieldDispatchAttempt = Some (Itoa n) ->
  exists m, (n <= m <= int64_max)%Z /\
    (run_op op h).1 !! metaFieldDispatchAttempt = Some (Itoa m).
Proof.
  intros Hn Ha. destruct op; cbn [run_op].
  - exists n. split; [lia|]. by apply migrate_keeps.
  - destruct (beginDispatchScript _ _ _ _) as [[h' m]|] eqn:E; [|eexists; split; [|done]; lia].
    pose proof (begin_increments _ _ _ _ _ _ _ Hn Ha E) as ->.
    apply begin_attempt in E as [E Hr]. exists (n + 1)%Z. split; [lia|done].
  - exists n. split; [lia|]. destruct (accept_event_cases h f eventMessageID) as [->|[_ ->]]; [done|].
    cbn. by rewrite lookup_insert_ne.
  - exists n. split; [lia|].
    destruct (accept_signed_cases h f messageID digest) as [(? & -> & _)|[_ ->]]; [done|].
    cbn. by rewrite lookup_insert_ne.
  - exists n. split; [lia|]. destruct (apply_cases h a) as [(? & -> & _)|(_ & _ & _ & ->)]; [done|].
    cbn [int_reply fst]. by rewrite commit_fence by set_solver.
  - exists n. split; [lia|]. cbn [int_reply fst]. by rewrite ack_lookup.
  - exists n. split; [lia|]. cbn [int_reply fst]. rewrite rollback_lookup by set_solver. done.
  - exists n. split; [lia|]. generalize (cancel_lookup h metaFieldDispatchAttempt).
    destruct (cancelAllJobAttemptsScript h). cbn [fst]. intros ->; [done|]. set_solver.
  - exists n. split; [lia|]. cbn [int_reply fst]. by rewrite transition_lookup.
Qed.

Lemma attempt_monotone ops h n :
  (0 <= n <= int64_max)%Z -> h !! metaFieldDispatchAttempt = Some (Itoa n) ->
  exists m, (n <= m <= int64_max)%Z /\ exec ops h !! metaFieldDispatchAttempt = Some (Itoa m).
Proof.
  revert h n. induction ops as [|op ops IH]; intros h n Hn Ha; [exists n; split; [lia|done]|].
  destruct (attempt_step op h n Hn Ha) as (m & Hm & Ha').
  destruct (IH _ m ltac:(lia) Ha') as (k & Hk & Ha''). exists k. split; [lia|done].
Qed.

Lemma stale_rejected op h k m :
  presents op = Some k -> (0 <= k < m)%Z -> (m <= int64_max)%Z ->
  h !! metaFieldDispatchAttempt = Some (Itoa m) ->
  run_op op h = (h, RInt 0).
Proof.
  intros Hp Hk Hm Ha.
  assert (HF : HGET_is h metaFieldDispatchAttempt (Itoa k) = false).
  { apply HGET_is_false. rewrite Ha. intros [= E]. apply Itoa_inj in E; lia. }
  assert (HM : forall f, f_Attempt f = k -> fence_matches h f = false).
  { intros f Hf. unfold fence_matches. rewrite Hf, HF, andb_false_r. done. }
  destruct op; try discriminate Hp; injection Hp as Hp; cbn [run_op].
  - unfold acceptJobEventScript. by rewrite HM.
  - unfold acceptSignedJobEventScript. by rewrite HM.
  - unfold applyJobResultScript. by rewrite HM.
  - unfold rollbackDispatchScript. subst attempt. rewrite HF.
    destruct (HGET_is h metaFieldDispatchID dispatchID); done.
Qed.

(** Once a dispatch has been given attempt [n], whatever the store does
    afterwards, an event, a signed event, a result or a rollback that presents an
    older attempt is rejected and changes nothing. *)
Theorem newer_dispatch_fences h d w t h1 n ops op k :
  run_op (OpBegin d w t) h = (h1, RInt n) -> presents op = Some k -> (0 <= k < n)%Z ->
  run_op op (exec ops h1) = (exec ops h1, RInt 0).
Proof.
  cbn [run_op]. destruct (beginDispatchScript h d w t) as [[h' m]|] eqn:E; [|by intros [= _ ?]].
  intros [= <- <-] Hp Hk. apply begin_attempt in E as [Ha Hr].
  destruct (attempt_monotone ops h' m ltac:(lia) Ha) as (m' & Hm' & Ha').
  eapply stale_rejected; [done| |..|done]; lia.
Qed.

(** ** Terminal states *)

Definition is_rollback (op : rop) : bool := match op with OpRollback _ _ => true | _ => false end.

(** No rollback of the current attempt takes effect in the run. *)
Definition no_rollback (ops : list rop) (h : hash) : Prop :=
  Forall (fun '(op, r) => is_rollback op = true -> r <> RInt 1) (replies ops h).

Lemma terminal_not_in_flight h s :
  h !! runtimeStateField = Some s -> terminalStates s = true -> in_flight h = false.
Proof.
  intros Hs Ht. apply not_true_is_false. rewrite in_flight_true.
  intros [H|H]; rewrite H in Hs; by simplify_eq.
Qed.

Lemma terminal_successors s t :
  terminalStates s = true -> containsJobState (prior_states t) s = true ->
  s = JobStateSucceeded /\ t = JobStateQuarantined.
Proof.
  unfold terminalStates, prior_states. rewrite bool_decide_eq_true. intros Hs Hc.
  unfold containsJobState in Hc. apply existsb_exists in Hc as (s' & Hin & Heq).
  apply String.eqb_eq in Heq as ->. apply in_map_iff in Hin as ((s1 & ts) & <- & Hin).
  apply filter_In in Hin as [Hin Ht]. cbn [fst] in Hs.
  repeat (rewrite elem_of_cons in Hs; destruct Hs as [->|Hs]);
    [..|by apply elem_of_nil in Hs].
  all: unfold allowedTransitions in Hin; cbn [In] in Hin;
    repeat (destruct Hin as [Hin|Hin]; [injection Hin; intros; subst; try discriminate|]);
    try done.
  split; [done|]. unfold containsJobState in Ht. cbn [existsb] in Ht.
  rewrite orb_false_r in Ht. apply String.eqb_eq in Ht. done.
Qed.

Lemma state_kept_by_fenced op h s :
  h !! runtimeStateField = Some s -> terminalStates s = true ->
  (is_rollback op = true -> (run_op op h).2 <> RInt 1) ->
  exists s', (run_op op h).1 !! runtimeStateField = Some s' /\
    (s' = s \/ (s = JobStateSucceeded /\ s' = JobStateQuarantined)
     \/ (s = JobStateQuarantined /\ s' = JobStateCancelled /\ op = OpCancel)).
Proof.
  intros Hs Ht Hr. pose proof (terminal_not_in_flight h s Hs Ht) as Hi.
  destruct op; cbn [run_op] in *.
  - exists s. split; [by apply migrate_keeps|by left].
  - exists s. split; [|by left].
    destruct (beginDispatchScript _ _ _ _) as [[h' n]|] eqn:E; [|done].
    cbn [fst]. erewrite begin_lookup; [done|done|]. set_solver.
  - exists s. split; [|by left].
    destruct (accept_event_cases h f eventMessageID) as [->|[_ ->]]; [done|].
    cbn. by rewrite lookup_insert_ne.
  - exists s. split; [|by left].
    destruct (accept_signed_cases h f messageID digest) as [(? & -> & _)|[_ ->]]; [done|].
    cbn. by rewrite lookup_insert_ne.
  - exists s. split; [|by left].
    destruct (apply_cases h a) as [(? & -> & _)|(_ & H & _)]; [done|congruence].
  - exists s. split; [|by left]. cbn [int_reply fst]. by rewrite ack_lookup.
  - exists s. split; [|by left]. specialize (Hr eq_refl).
    unfold rollbackDispatchScript in *. repeat case_match; done.
  - unfold cancelAllJobAttemptsScript. rewrite Hs. case_bool_decide as Hc; cbn [fst].
    + exists s. split; [done|by left].
    + exists JobStateCancelled. split.
      { by rewrite clear_fence_lookup, lookup_insert_eq by set_solver. }
      right; right. split; [|done]. unfold terminalStates, cancel_final in *.
      rewrite bool_decide_eq_true in Ht. set_solver.
  - unfold transitionRuntimeStateScript. rewrite Hs. case_match; [exists s; by auto|].
    case_match eqn:Hc; [|exists s; by auto].
    pose proof (terminal_successors _ _ Ht Hc) as [-> ->].
    exists JobStateQuarantined. split; [|by auto]. apply lookup_insert_eq.
Qed.

Lemma terminal_moves_terminal s s' (P : Prop) :
  terminalStates s = true ->
  (s' = s \/ (s = JobStateSucceeded /\ s' = JobStateQuarantined)
   \/ (s = JobStateQuarantined /\ s' = JobStateCancelled /\ P)) ->
  terminalStates s' = true /\
  (s ∈ [JobStateFailed; JobStateCancelled; JobStateTimeout; JobStateDenied] -> s' = s).
Proof.
  intros Ht [->|[[-> ->]|(-> & -> & _)]]; (split; [done|]); intros Hin; try done;
    repeat (rewrite elem_of_cons in Hin; destruct Hin as [Hin|Hin]; [discriminate Hin|]);
    by apply elem_of_nil in Hin.
Qed.

(** Terminal states absorb.  From a terminal state, any interleaving of
    dispatches, events, results, acknowledgements, migrations, cancellations and
    transitions ends in a terminal state, and a failed, cancelled, timed-out or
    denied job keeps its state; only a rollback that names the current dispatch
    can leave the terminal states. *)
Theorem terminal_absorbing ops h s :
  h !! runtimeStateField = Some s -> terminalStates s = true -> no_rollback ops h ->
  exists s', exec ops h !! runtimeStateField = Some s' /\ terminalStates s' = true /\
    (s ∈ [JobStateFailed; JobStateCancelled; JobStateTimeout; JobStateDenied] -> s' = s).
Proof.
  revert h s. induction ops as [|op ops IH]; intros h s Hs Ht Hn; [by exists s|].
  unfold no_rollback in Hn. cbn [replies] in Hn. apply Forall_cons in Hn as [Ho Hn].
  destruct (state_kept_by_fenced op h s Hs Ht Ho) as (s1 & Hs1 & Hc).
  destruct (terminal_moves_terminal s s1 _ Ht Hc) as [Ht1 Hk1].
  destruct (IH _ s1 Hs1 Ht1 Hn) as (s' & Hs' & Ht' & Hk').
  exists s'. split; [done|]. split; [done|]. intros Hin. rewrite Hk'; auto.
  by rewrite (Hk1 Hin).
Qed.

(** ** The effect outbox *)

Definition valid_op (op : rop) : bool :=
  match op with OpApply a => validateJobResultApply a | _ => true end.

(** One field of [appendRuntimeEffects]. *)
Definition readEffect (jobID : string) (fields : hash) (field encoded : string)
    : option JobEffect :=
  let eventID := TrimPrefix field runtimeEffectPrefix in
  match DecodeString RawStdEncoding encoded,
        DecodeString RawStdEncoding (get_str fields (runtimeEventPrefix +:+ eventID)) with
  | Some payload, Some digest =>
      if digest =s? "" then None else Some (mkJobEffect jobID eventID digest payload)
  | _, _ => None
  end.

(** [None] is the error of an undecodable effect; the effects gathered before it
    are dropped by every caller. *)
Fixpoint appendEffects (jobID : string) (fields : hash) (l : list (string * string))
    (effects : list JobEffect) (limit : Z) : option (list JobEffect) :=
  match l with
  | [] => Some effects
  | (field, encoded) :: rest =>
      if negb (HasPrefix field runtimeEffectPrefix) || (limit <=? Z.of_nat (length effects))%Z
      then appendEffects jobID fields rest effects limit
      else match readEffect jobID fields field encoded with
           | Some e => appendEffects jobID fields rest (effects ++ [e]) limit
           | None => None
           end
  end.

Definition appendRuntimeEffects `{GoRuntime} (jobID : string) (fields : hash)
    (effects : list JobEffect) (limit : Z) : option (list JobEffect) :=
  appendEffects jobID fields (range_map fields) effects limit.

(** Every stored effect decodes and its event field holds its digest. *)
Definition outbox_wf (h : hash) : Prop :=
  forall x v, h !! (runtimeEffectPrefix +:+ x) = Some v ->
  exists payload digest,
    DecodeString RawStdEncoding v = Some payload /\
    h !! (runtimeEventPrefix +:+ x) = Some (EncodeToString RawStdEncoding digest) /\
    digest <> "".

(** A step adds the effect it commits, removes the one it acknowledges, and
    leaves the others. *)
Lemma effect_step op h x :
  let k := runtimeEffectPrefix +:+ x in
  (run_op op h).1 !! k = h !! k \/
  (exists a, op = OpApply a /\ x = event_id (a_MessageID a) /\
     h !! (runtimeEventPrefix +:+ x) = None /\ (run_op op h).1 = commit_result h a) \/
  (exists e, op = OpAck e /\ x = e_EventID e /\ (run_op op h).1 !! k = None).
Proof.
  intros k. assert (Hk : is_effect k) by by eexists.
  assert (Hx := prefixed_not_in k (or_intror Hk)).
  destruct op; cbn [run_op].
  - left. by apply migrate_prefixed; right.
  - left. destruct (beginDispatchScript _ _ _ _) as [[h' n]|] eqn:E; [|done].
    eapply begin_lookup; [done|]. set_solver.
  - left. destruct (accept_event_cases h f eventMessageID) as [->|[_ ->]]; [done|].
    cbn [int_reply fst]. by rewrite lookup_insert_ne.
  - left. destruct (accept_signed_cases h f messageID digest) as [(n & -> & _)|[_ ->]]; [done|].
    cbn [int_reply fst]. by rewrite lookup_insert_ne.
  - destruct (apply_cases h a) as [(n & -> & _)|(_ & _ & Hn & ->)]; [by left|].
    destruct (decide (x = event_id (a_MessageID a))) as [->|Hne].
    { right; left. by exists a. }
    left. cbn [int_reply fst]. rewrite commit_lookup, !decide_False; [done|..].
    + set_solver.
    + set_solver.
    + done.
    + intros E. by apply effect_inj in E.
  - destruct (decide (x = e_EventID e)) as [->|Hne].
    + unfold ackJobEffectScript. case_match; [by left|]. right; right.
      exists e. cbn [int_reply fst]. by rewrite lookup_delete_eq.
    + left. apply ack_lookup. intros E. by apply effect_inj in E.
  - left. apply rollback_lookup. set_solver.
  - left. generalize (cancel_lookup h k). destruct (cancelAllJobAttemptsScript h). set_solver.
  - left. apply transition_lookup. set_solver.
Qed.

Lemma validate_digest a : validateJobResultApply a = true -> a_Digest a <> "".
Proof. unfold validateJobResultApply. intros H. split_bools. done. Qed.

Lemma outbox_wf_step op h : valid_op op = true -> outbox_wf h -> outbox_wf (run_op op h).1.
Proof.
  intros Hv Hw x v Hx.
  destruct (effect_step op h x) as [E|[(a & -> & -> & _ & E)|(e & -> & -> & E)]].
  - rewrite E in Hx. destruct (Hw x v Hx) as (p & d & Hp & Hd & Hne).
    exists p, d. split; [done|]. split; [|done]. apply event_kept; [by eexists|done].
  - rewrite E in *. rewrite commit_effect in Hx. injection Hx as <-.
    exists (a_Effect a), (a_Digest a). rewrite Decode_Encode, commit_event.
    by split_and!; [..|apply validate_digest].
  - congruence.
Qed.

Lemma outbox_wf_exec ops h :
  Forall (fun op => valid_op op = true) ops -> outbox_wf h -> outbox_wf (exec ops h).
Proof.
  revert h. induction ops as [|op ops IH]; intros h Hv Hw; [done|].
  apply Forall_cons in Hv as [Ho Hv]. by apply IH, outbox_wf_step.
Qed.

Definition acks (x : string) (op : rop) : bool :=
  match op with OpAck e => e_EventID e =s? x | _ => false end.

Lemma effect_kept ops h x v d :
  Forall (fun op => acks x op = false) ops ->
  h !! (runtimeEventPrefix +:+ x) = Some d -> h !! (runtimeEffectPrefix +:+ x) = Some v ->
  exec ops h !! (runtimeEffectPrefix +:+ x) = Some v.
Proof.
  revert h. induction ops as [|op ops IH]; intros h Ha Hd Hv; [done|].
  apply Forall_cons in Ha as [Ho Ha]. cbn [exec]. apply IH; [done|..].
  - apply event_kept; [by eexists|done].
  - destruct (effect_step op h x) as [E|[(a & -> & -> & Hn & _)|(e & -> & -> & _)]].
    + congruence.
    + congruence.
    + cbn [acks] in Ho. by rewrite String.eqb_refl in Ho.
Qed.

Lemma readEffect_wf jobID h x v :
  outbox_wf h -> h !! (runtimeEffectPrefix +:+ x) = Some v ->
  exists payload digest,
    DecodeString RawStdEncoding v = Some payload /\
    h !! (runtimeEventPrefix +:+ x) = Some (EncodeToString RawStdEncoding digest) /\
    readEffect jobID h (runtimeEffectPrefix +:+ x) v = Some (mkJobEffect jobID x digest payload).
Proof.
  intros Hw Hx. destruct (Hw x v Hx) as (p & d & Hp & Hd & Hne). exists p, d.
  split; [done|]. split; [done|]. unfold readEffect. rewrite TrimPrefix_app, Hp.
  unfold get_str. rewrite Hd. cbn [default from_option]. unfold default, id.
  rewrite Decode_Encode. by rewrite eqb_ne.
Qed.

Lemma appendEffects_spec jobID fields l effects limit :
  (forall f v, (f, v) ∈ l -> HasPrefix f runtimeEffectPrefix = true ->
     is_Some (readEffect jobID fields f v)) ->
  (Z.of_nat (length effects + length l) <= limit)%Z ->
  exists found, appendEffects jobID fields l effects limit = Some (effects ++ found)%list /\
    forall f v e, (f, v) ∈ l -> HasPrefix f runtimeEffectPrefix = true ->
      readEffect jobID fields f v = Some e -> e ∈ found.
Proof.
  revert effects. induction l as [|[f v] l IH]; intros effects Hr Hl.
  { exists []. rewrite app_nil_r. split; [done|]. intros ??? H. by apply elem_of_nil in H. }
  cbn [appendEffects length] in *. destruct (HasPrefix f runtimeEffectPrefix) eqn:Hp; cbn [negb orb].
  - rewrite (proj2 (Z.leb_gt _ _)) by lia.
    destruct (Hr f v) as [e He]; [by left|done|]. rewrite He.
    destruct (IH (effects ++ [e])%list) as (found & -> & Hf).
    { intros f' v' Hin. apply Hr. by right. }
    { rewrite length_app. cbn [length]. lia. }
    exists (e :: found). split; [by rewrite <- app_assoc|].
    intros f' v' e' Hin Hp' He'. apply elem_of_cons in Hin as [[= -> ->]|Hin].
    + apply elem_of_cons. left. congruence.
    + apply elem_of_cons. right. by eapply Hf.
  - destruct (IH effects) as (found & -> & Hf).
    { intros f' v' Hin. apply Hr. by right. }
    { lia. }
    exists found. split; [done|]. intros f' v' e' Hin Hp'.
    apply elem_of_cons in Hin as [[= -> ->]|Hin]; [congruence|by apply Hf].
Qed.

(** The outbox loses nothing.  After a result is committed, whatever runs
    next short of an acknowledgement of that event, reading the job's pending
    effects (with room for the hash's fields) succeeds and contains the effect
    with exactly the committed digest and payload. *)
Theorem effect_survives_until_ack `{GoRuntime} jobID h a h1 ops limit :
  outbox_wf h ->
  validateJobResultApply a = true -> run_op (OpApply a) h = (h1, RInt 1) ->
  Forall (fun op => valid_op op = true /\ acks (event_id (a_MessageID a)) op = false) ops ->
  (Z.of_nat (length (range_map (exec ops h1))) <= limit)%Z ->
  exists found, appendRuntimeEffects jobID (exec ops h1) [] limit = Some found /\
    mkJobEffect jobID (event_id (a_MessageID a)) (a_Digest a) (a_Effect a) ∈ found.
Proof.
  intros Hw Hva Hrun Hops Hlim. apply Forall_and in Hops as [Hv Hk].
  assert (Hw1 : outbox_wf h1).
  { replace h1 with (run_op (OpApply a) h).1 by by rewrite Hrun. by apply outbox_wf_step. }
  apply (outbox_wf_exec ops) in Hw1; [|done].
  destruct (apply_cases h a) as [(n & E & Hn)|(_ & _ & _ & E)];
    cbn [run_op] in Hrun; rewrite E in Hrun; unfold int_reply in Hrun; cbn [fst snd] in Hrun;
    [congruence|injection Hrun as <-].
  pose proof (commit_event h a) as Hev. pose proof (commit_effect h a) as Hef.
  pose proof (effect_kept ops _ _ _ _ Hk Hev Hef) as Hef'.
  pose proof (events_kept ops _ (runtimeEventPrefix +:+ event_id (a_MessageID a)) _
    ltac:(by eexists) Hev) as Hev'.
  destruct (appendEffects_spec jobID (exec ops (commit_result h a)) (range_map (exec ops (commit_result h a))) [] limit)
    as (found & Hfound & Hin).
  { intros f v Hf Hp. apply elem_of_range_map in Hf. apply HasPrefix_app in Hp as [x ->].
    destruct (readEffect_wf jobID _ x v Hw1 Hf) as (? & ? & _ & _ & ->). by eexists. }
  { done. }
  exists found. split; [done|].
  destruct (readEffect_wf jobID _ _ _ Hw1 Hef') as (p & d & Hp & Hd & Hread).
  rewrite Decode_Encode in Hp. injection Hp as <-. rewrite Hev' in Hd. injection Hd as Hd.
  apply Encode_inj in Hd as <-.
  eapply Hin; [by apply elem_of_range_map, Hef'| |by apply Hread].
  unfold HasPrefix. apply prefix_app.
Qed.

(** ** Concrete runs *)

Definition ex_fence (n : Z) : fence := mkFence "d-1" n "worker-a" "acme".

Definition ex_dispatched : hash :=
  list_to_map [("state", "DISPATCHED"); ("dispatch_id", "d-1"); ("dispatch_attempt", "1");
               ("dispatch_worker_id", "worker-a"); ("dispatch_tenant", "acme")].

Definition ex_result (state : string) : JobResultApply :=
  mkJobResultApply "job-1" (ex_fence 1) "msg-1" "digest" "effect" state "ptr-1".

Lemma newer_dispatch_fences_witness :
  run_op (OpApply (ex_result "SUCCEEDED"))
    (exec [OpCancel] (run_op (OpBegin "d-2" "worker-b" "acme") ex_dispatched).1)
  = (exec [OpCancel] (run_op (OpBegin "d-2" "worker-b" "acme") ex_dispatched).1, RInt 0).
Proof.
  apply (newer_dispatch_fences ex_dispatched "d-2" "worker-b" "acme" _ 2 [OpCancel] _ 1);
    [vm_compute; reflexivity | reflexivity | lia].
Defined.

Lemma terminal_absorbing_witness :
  exists s', exec [OpBegin "d-2" "w" "t"; OpTransition "RUNNING"; OpCancel]
      (<["state" := "FAILED"]> ex_dispatched) !! runtimeStateField = Some s' /\
    terminalStates s' = true /\
    ("FAILED" ∈ [JobStateFailed; JobStateCancelled; JobStateTimeout; JobStateDenied] ->
     s' = "FAILED").
Proof.
  apply terminal_absorbing;
    [reflexivity | reflexivity |].
  unfold no_rollback. cbn [replies]. repeat constructor; intros H; discriminate H.
Defined.

Lemma effect_survives_until_ack_witness :
  exists found,
    @appendRuntimeEffects fwd_runtime "job-1"
      (exec [OpRollback "d-1" 1] (commit_result ex_dispatched (ex_result "SUCCEEDED"))) [] 100
      = Some found /\
    mkJobEffect "job-1" (event_id "msg-1") "digest" "effect" ∈ found.
Proof.
  apply (@effect_survives_until_ack fwd_runtime "job-1" ex_dispatched (ex_result "SUCCEEDED")).
  - intros x v H. exfalso. revert H. vm_compute. discriminate.
  - reflexivity.
  - reflexivity.
  - repeat constructor.
  - vm_compute. discriminate.
Defined.

(** A rollback does not look at the state.  A dispatch whose publish was
    reported as failed although the worker got it and finished the job is reset:
    the late rollback turns the succeeded job back into a scheduled one. *)
Theorem late_rollback_revives :
  let committed := exec [OpApply (ex_result JobStateSucceeded)] ex_dispatched in
  committed !! runtimeStateField = Some JobStateSucceeded /\
  (rollbackDispatchScript committed "d-1" 1).2 = 1%Z /\
  (rollbackDispatchScript committed "d-1" 1).1 !! runtimeStateField = Some JobStateScheduled.
Proof. by vm_compute. Qed.

(** Cancelling a job whose output was quarantined overwrites the quarantine.
    The cancel script compares with "QUARANTINED" but the state is called
    "OUTPUT_QUARANTINED", so a terminal state is replaced by CANCELLED. *)
Theorem cancel_overwrites_quarantine (h : hash) :
  h !! runtimeStateField = Some JobStateQuarantined ->
  terminalStates JobStateQuarantined = true /\
  (cancelAllJobAttemptsScript h).2 = JobStateCancelled /\
  (cancelAllJobAttemptsScript h).1 !! runtimeStateField = Some JobStateCancelled.
Proof.
  intros Hs. split; [done|]. unfold cancelAllJobAttemptsScript. rewrite Hs.
  rewrite bool_decide_eq_false_2 by set_solver.
  split; [done|]. cbn [fst]. by rewrite clear_fence_lookup, lookup_insert_eq by set_solver.
Qed.

Lemma cancel_overwrites_quarantine_witness :
  (cancelAllJobAttemptsScript (<["state" := "OUTPUT_QUARANTINED"]> ex_dispatched)).1
    !! runtimeStateField = Some JobStateCancelled.
Proof.
  apply (cancel_overwrites_quarantine (<["state" := "OUTPUT_QUARANTINED"]> ex_dispatched)).
  reflexivity.
Defined.
