(* ===== verification/JobStore.v ===== *)
(** * The redis job store

    core/infra/store/job_store.go around the runtime hash of [JobRuntime]: the
    legacy meta hash, state key, per-state indexes, tenant active sets, recent
    and worker lists, event logs and distributed locks.

    [jredis] is the part of the redis keyspace the store uses, one map per redis
    type, keyed by the real keys.  A [Watch] transaction that redis aborts is an
    error without effect, so each transaction and each script is one step; the
    time [now], the fresh uuid of a dispatch and the lock tokens are arguments.
    Event log entries are kept as (state, timestamp); their JSON rendering, the
    TTLs and redis failures are not modelled.

    Results: after every state change of any job the query views (state key,
    state indexes, active sets) agree with the job's meta hash; each fenced method
    acts on its own job's runtime hash exactly as the scripts of [JobRuntime];
    a lock has at most one holder until it expires. *)
From Stdlib Require Import Ascii.
From S2P Require Import Prelude.
From S2P Require Import GoStrings.
From S2P Require Import GoBase64.
From S2P Require Import JobRuntime.
Open Scope string_scope.

(** ** The keyspace *)

Record jredis := mkJRedis {
  hashes : gmap string hash;
  strs : gmap string string;
  zsets : gmap string (gmap string Z);
  sets : gmap string (gset string);
  lists : gmap string (list (string * Z));
}.

Definition hash_at (st : jredis) (key : string) : hash := default ∅ (hashes st !! key).
Definition zset_at (st : jredis) (key : string) : gmap string Z := default ∅ (zsets st !! key).
Definition set_at (st : jredis) (key : string) : gset string := default ∅ (sets st !! key).
Definition list_at (st : jredis) (key : string) : list (string * Z) := default [] (lists st !! key).

(** [EXISTS]: redis drops a hash with its last field. *)
Definition hash_exists (st : jredis) (key : string) : bool :=
  negb (bool_decide (hash_at st key = ∅)).

Definition put_hash (key : string) (h : hash) (st : jredis) : jredis :=
  mkJRedis (<[key := h]> (hashes st)) (strs st) (zsets st) (sets st) (lists st).

Definition HSet (key : string) (fields : list (string * string)) (st : jredis) : jredis :=
  put_hash key (foldl (fun h '(f, v) => <[f := v]> h) (hash_at st key) fields) st.

Definition HDel (key field : string) (st : jredis) : jredis :=
  put_hash key (delete field (hash_at st key)) st.

Definition SetStr (key v : string) (st : jredis) : jredis :=
  mkJRedis (hashes st) (<[key := v]> (strs st)) (zsets st) (sets st) (lists st).

Definition put_zset (key : string) (z : gmap string Z) (st : jredis) : jredis :=
  mkJRedis (hashes st) (strs st) (<[key := z]> (zsets st)) (sets st) (lists st).

Definition ZAdd (key : string) (score : Z) (member : string) (st : jredis) : jredis :=
  put_zset key (<[member := score]> (zset_at st key)) st.

Definition ZRem (key member : string) (st : jredis) : jredis :=
  put_zset key (delete member (zset_at st key)) st.

(** Rank order of a sorted set: by score, then by member. *)
Definition ranks_above '((k', s') : string * Z) '((k, s) : string * Z) : bool :=
  (s <? s')%Z || ((s =? s')%Z && String.ltb k k').

(** [ZREMRANGEBYRANK key 0 -(n+1)]: keep the [n] highest-ranked members. *)
Definition ZKeep (key : string) (n : nat) (st : jredis) : jredis :=
  let z := zset_at st key in
  put_zset key (filter (fun '(k, s) =>
    (length (List.filter (fun x => ranks_above x (k, s)) (map_to_list z)) < n)%nat) z) st.

Definition SAdd (key member : string) (st : jredis) : jredis :=
  mkJRedis (hashes st) (strs st) (zsets st) (<[key := {[member]} ∪ set_at st key]> (sets st))
    (lists st).

Definition SRem (key member : string) (st : jredis) : jredis :=
  mkJRedis (hashes st) (strs st) (zsets st) (<[key := set_at st key ∖ {[member]}]> (sets st))
    (lists st).

Definition RPush (key : string) (entry : string * Z) (st : jredis) : jredis :=
  mkJRedis (hashes st) (strs st) (zsets st) (sets st)
    (<[key := (list_at st key ++ [entry])%list]> (lists st)).

(** Run [f] when the guard holds. *)
Definition when (b : bool) (f : jredis -> jredis) (st : jredis) : jredis := if b then f st else st.

(** A pipeline runs its commands in order. *)
Definition pipeline (cmds : list (jredis -> jredis)) (st : jredis) : jredis :=
  foldl (fun st cmd => cmd st) st cmds.

(** ** Keys *)

Definition jobStateKey (jobID : string) : string := "job:state:" +:+ jobID.
Definition jobResultPtrKey (jobID : string) : string := "job:result_ptr:" +:+ jobID.
Definition jobMetaKey (jobID : string) : string := "job:meta:" +:+ jobID.
Definition jobEventsKey (jobID : string) : string := "job:events:" +:+ jobID.
Definition tenantActiveKey (tenant : string) : string := "job:tenant:active:" +:+ tenant.
Definition workerJobsKey (workerID : string) : string := "worker:jobs:" +:+ workerID.
Definition deadlineIndexKey : string := "job:deadline".
Definition recentKey : string := "job:recent".

Definition stateIndexKey (state : string) : string :=
  if state =s? "" then "" else "job:index:" +:+ ToLower state.

Definition metaFieldTenant : string := "tenant".
Definition metaFieldWorkerID : string := "worker_id".
Definition metaFieldAttempts : string := "attempts".
Definition metaFieldDeadline : string := "deadline_unix".

Inductive StoreError :=
| ErrArguments
| ErrTransition (from to : string)
| ErrRuntimeTransition (from to : string)
| ErrNotFound
| ErrScript
| ErrJobEventDigestConflict
| ErrMessage (msg : string).

(** ** State changes *)

(** [int] increment: wraps at the machine width. *)
Definition int_incr (n : Z) : Z := if (n =? int64_max)%Z then int64_min else (n + 1)%Z.

Definition metaAttempts (meta : hash) : Z :=
  match meta !! metaFieldAttempts with
  | Some raw => match Atoi raw with Some n => if (0 <=? n)%Z then n else 0%Z | None => 0%Z end
  | None => 0%Z
  end.

Definition SetStateWithContext (now : Z) (jobID state : string) (st : jredis)
    : result StoreError jredis :=
  if (jobID =s? "") || (state =s? "") then Err ErrArguments else
  let metaKey := jobMetaKey jobID in
  let meta := hash_at st metaKey in
  let prevState := get_str meta "state" in
  if negb (isAllowedTransition prevState state) then Err (ErrTransition prevState state) else
  let attempts := metaAttempts meta in
  let attempts := if (state =s? JobStateScheduled) && negb (prevState =s? JobStateScheduled)
                  then int_incr attempts else attempts in
  let tenant := get_str meta metaFieldTenant in
  Ok (pipeline
    [ HSet metaKey [("state", state); ("updated_at", Itoa now); (metaFieldAttempts, Itoa attempts)];
      SetStr (jobStateKey jobID) state;
      when (negb (stateIndexKey prevState =s? "")) (ZRem (stateIndexKey prevState) jobID);
      when (negb (stateIndexKey state =s? "")) (ZAdd (stateIndexKey state) now jobID);
      when (negb (tenant =s? ""))
        (if isActiveState state then SAdd (tenantActiveKey tenant) jobID
         else when (terminalStates state) (SRem (tenantActiveKey tenant) jobID));
      ZAdd recentKey now jobID;
      ZKeep recentKey 1000;
      RPush (jobEventsKey jobID) (state, now);
      when (terminalStates state) (ZRem deadlineIndexKey jobID);
      when (terminalStates state) (HDel metaKey metaFieldDeadline) ] st).

Definition projectedJobStates : list string :=
  [JobStatePending; JobStateApproval; JobStateScheduled; JobStateDispatched; JobStateRunning;
   JobStateRetrying; JobStateSucceeded; JobStateFailed; JobStateCancelled; JobStateTimeout;
   JobStateDenied; JobStateQuarantined].

Definition projectLegacyResultMeta (jobID state resultPtr workerID : string) (now : Z)
    : jredis -> jredis :=
  HSet (jobMetaKey jobID)
    ([(runtimeStateField, state); ("updated_at", Itoa now)]
     ++ (if resultPtr =s? "" then [] else [(runtimeResultField, resultPtr)])
     ++ (if workerID =s? "" then [] else [(metaFieldWorkerID, workerID)])).

Definition projectLegacyWorker (jobID workerID : string) (now : Z) (st : jredis) : jredis :=
  if workerID =s? "" then st else
  pipeline [ZAdd (workerJobsKey workerID) now jobID; ZKeep (workerJobsKey workerID) 1000] st.

Definition projectLegacyResultKeys (jobID state resultPtr : string) (st : jredis) : jredis :=
  let st := SetStr (jobStateKey jobID) state st in
  if resultPtr =s? "" then st else SetStr (jobResultPtrKey jobID) resultPtr st.

Definition projectLegacyResultIndexes (jobID state : string) (now : Z) (st : jredis) : jredis :=
  let st := foldl (fun st candidate =>
              if candidate =s? state then st else ZRem (stateIndexKey candidate) jobID st)
              st projectedJobStates in
  ZAdd recentKey now jobID (ZAdd (stateIndexKey state) now jobID st).

Definition projectLegacyTerminalState (jobID state : string) (st : jredis) : jredis :=
  let tenant := get_str (hash_at st (jobMetaKey jobID)) metaFieldTenant in
  let st := if tenant =s? "" then st
            else if terminalStates state then SRem (tenantActiveKey tenant) jobID st
            else if isActiveState state then SAdd (tenantActiveKey tenant) jobID st
            else st in
  if negb (terminalStates state) then st
  else HDel (jobMetaKey jobID) metaFieldDeadline (ZRem deadlineIndexKey jobID st).

Definition ProjectJobResult (now : Z) (jobID state resultPtr workerID : string) (st : jredis)
    : result StoreError jredis :=
  if (jobID =s? "") || (state =s? "") then Err ErrArguments else
  Ok (pipeline
    [ projectLegacyResultMeta jobID state resultPtr workerID now;
      projectLegacyResultKeys jobID state resultPtr;
      projectLegacyResultIndexes jobID state now;
      projectLegacyWorker jobID workerID now;
      projectLegacyTerminalState jobID state ] st).

(** ** The fenced methods *)

Definition migrateRuntimeFence (jobID : string) (st : jredis) : jredis :=
  let key := jobRuntimeKey jobID in
  put_hash key (migrateRuntimeFenceScript (hash_at st key)
                  (migrate_args (hash_at st (jobMetaKey jobID)))) st.

Definition GetState (jobID : string) (st : jredis) : option string :=
  match hash_at st (jobRuntimeKey jobID) !! runtimeStateField with
  | Some val => Some val
  | None =>
      match hash_at st (jobMetaKey jobID) !! "state" with
      | Some val => Some val
      | None => strs st !! jobStateKey jobID
      end
  end.

(** The store after the call, and what the call returns. *)
Definition BeginDispatch (uuid jobID workerID tenant : string) (st : jredis)
    : jredis * result StoreError (string * Z) :=
  if (jobID =s? "") || (workerID =s? "") || (tenant =s? "") then (st, Err ErrArguments) else
  match GetState jobID st with
  | None => (st, Err ErrNotFound)
  | Some _ =>
      let st := migrateRuntimeFence jobID st in
      let key := jobRuntimeKey jobID in
      match beginDispatchScript (hash_at st key) uuid workerID tenant with
      | Some (h, attempt) => (put_hash key h st, Ok (uuid, attempt))
      | None => (st, Err ErrScript)
      end
  end.

Definition AcceptJobEvent (jobID : string) (f : fence) (eventMessageID : string) (st : jredis)
    : result StoreError (jredis * bool) :=
  if (jobID =s? "") || (f_DispatchID f =s? "") || (f_WorkerID f =s? "") || (f_Tenant f =s? "")
     || (eventMessageID =s? "") then Err ErrArguments else
  let st := migrateRuntimeFence jobID st in
  let key := jobRuntimeKey jobID in
  let '(h, r) := acceptJobEventScript (hash_at st key) f eventMessageID in
  Ok (put_hash key h st, (r =? 1)%Z).

Inductive JobEventApplyDisposition := JobEventRejected | JobEventApplied | JobEventDuplicate.

Definition disposition (r : Z) : result StoreError JobEventApplyDisposition :=
  if (r <? 0)%Z then Err ErrJobEventDigestConflict
  else if (r =? 1)%Z then Ok JobEventApplied
  else if (r =? 2)%Z then Ok JobEventDuplicate
  else Ok JobEventRejected.

Definition AcceptSignedJobEvent (jobID : string) (f : fence) (messageID digest : string)
    (st : jredis) : jredis * result StoreError JobEventApplyDisposition :=
  if (jobID =s? "") || negb (fence_complete f) || (messageID =s? "") || (digest =s? "")
  then (st, Err ErrArguments) else
  let st := migrateRuntimeFence jobID st in
  let key := jobRuntimeKey jobID in
  let '(h, r) := acceptSignedJobEventScript (hash_at st key) f messageID digest in
  (put_hash key h st, disposition r).

Definition ApplyJobResult (a : JobResultApply) (st : jredis)
    : jredis * result StoreError JobEventApplyDisposition :=
  if negb (validateJobResultApply a) then (st, Err ErrArguments) else
  let st := migrateRuntimeFence (a_JobID a) st in
  let key := jobRuntimeKey (a_JobID a) in
  let '(h, r) := applyJobResultScript (hash_at st key) a in
  (put_hash key h st, disposition r).

Definition AckJobEffect (e : JobEffect) (st : jredis) : result StoreError (jredis * bool) :=
  if (e_JobID e =s? "") || (e_EventID e =s? "") || (e_Digest e =s? "") then Err ErrArguments else
  let key := jobRuntimeKey (e_JobID e) in
  let '(h, r) := ackJobEffectScript (hash_at st key) e in
  Ok (put_hash key h st, (r =? 1)%Z).

Definition RollbackDispatch (jobID dispatchID : string) (attempt : Z) (st : jredis)
    : result StoreError (jredis * bool) :=
  if (jobID =s? "") || (dispatchID =s? "") || (attempt <=? 0)%Z then Err ErrArguments else
  let key := jobRuntimeKey jobID in
  let '(h, r) := rollbackDispatchScript (hash_at st key) dispatchID attempt in
  Ok (put_hash key h st, (r =? 1)%Z).

Definition CancelAllJobAttempts (jobID : string) (st : jredis)
    : result StoreError (jredis * string) :=
  if jobID =s? "" then Err ErrArguments else
  let st := migrateRuntimeFence jobID st in
  let key := jobRuntimeKey jobID in
  let '(h, state) := cancelAllJobAttemptsScript (hash_at st key) in
  Ok (put_hash key h st, state).

(** ** Cancelling and setting the state *)

Definition cancelLegacy (now : Z) (jobID currState : string) (st : jredis) : jredis :=
  let metaKey := jobMetaKey jobID in
  let tenant := get_str (hash_at st metaKey) metaFieldTenant in
  pipeline
    [ HSet metaKey [("state", JobStateCancelled); ("updated_at", Itoa now)];
      SetStr (jobStateKey jobID) JobStateCancelled;
      when (negb (stateIndexKey currState =s? "")) (ZRem (stateIndexKey currState) jobID);
      ZAdd (stateIndexKey JobStateCancelled) now jobID;
      when (negb (tenant =s? "")) (SRem (tenantActiveKey tenant) jobID);
      ZAdd recentKey now jobID;
      ZKeep recentKey 1000;
      ZRem deadlineIndexKey jobID;
      HDel metaKey metaFieldDeadline;
      RPush (jobEventsKey jobID) (JobStateCancelled, now) ] st.

Definition CancelJob (now : Z) (jobID : string) (st : jredis) : result StoreError (jredis * string) :=
  if jobID =s? "" then Err ErrArguments else
  if hash_exists st (jobRuntimeKey jobID) then
    match CancelAllJobAttempts jobID st with
    | inl e => Err e
    | inr (st, state) =>
        match ProjectJobResult now jobID state "" "" st with
        | inl e => Err e
        | inr st => Ok (st, state)
        end
    end
  else
    match (match hash_at st (jobMetaKey jobID) !! "state" with
           | Some current => Some current
           | None => strs st !! jobStateKey jobID
           end) with
    | None => Err ErrNotFound
    | Some currState =>
        if terminalStates currState then Ok (st, currState)
        else Ok (cancelLegacy now jobID currState st, JobStateCancelled)
    end.

Definition transitionRuntimeState (jobID target : string) (st : jredis)
    : result StoreError jredis :=
  let key := jobRuntimeKey jobID in
  let '(h, changed) := transitionRuntimeStateScript (hash_at st key) target in
  if (changed =? 1)%Z then Ok (put_hash key h st)
  else Err (ErrRuntimeTransition (get_str h runtimeStateField) target).

(** The store after the call and its error, if any: the runtime hash may have
    moved although the legacy transition is then refused. *)
Definition SetState (now : Z) (jobID state : string) (st : jredis) : jredis * option StoreError :=
  if (jobID =s? "") || (state =s? "") then (st, Some ErrArguments) else
  let legacy_step st :=
    match SetStateWithContext now jobID state st with
    | inl e => (st, Some e)
    | inr st => (st, None)
    end in
  if negb (hash_exists st (jobRuntimeKey jobID)) then legacy_step st else
  match transitionRuntimeState jobID state st with
  | inl e => (st, Some e)
  | inr st =>
      if get_str (hash_at st (jobMetaKey jobID)) runtimeStateField =s? state then (st, None)
      else legacy_step st
  end.

(** ** What the commands do to each observation *)

Definition in_zset (st : jredis) (key member : string) : Prop := member ∈ dom (zset_at st key).
Definition in_set (st : jredis) (key member : string) : Prop := member ∈ set_at st key.

Lemma hash_at_put key h st key' :
  hash_at (put_hash key h st) key' = if decide (key' = key) then h else hash_at st key'.
Proof.
  unfold hash_at, put_hash. cbn [hashes]. case_decide as E.
  - subst. by rewrite lookup_insert_eq.
  - by rewrite lookup_insert_ne by congruence.
Qed.

Lemma zset_at_put key z st key' :
  zset_at (put_zset key z st) key' = if decide (key' = key) then z else zset_at st key'.
Proof.
  unfold zset_at, put_zset. cbn [zsets]. case_decide as E.
  - subst. by rewrite lookup_insert_eq.
  - by rewrite lookup_insert_ne by congruence.
Qed.

Lemma in_ZAdd key score m st key' m' :
  in_zset (ZAdd key score m st) key' m' <-> (key' = key /\ m' = m) \/ in_zset st key' m'.
Proof.
  unfold in_zset, ZAdd. rewrite zset_at_put. case_decide as E; [subst|naive_solver].
  rewrite dom_insert_L. set_solver.
Qed.

Lemma in_ZRem key m st key' m' :
  in_zset (ZRem key m st) key' m' <-> in_zset st key' m' /\ ~ (key' = key /\ m' = m).
Proof.
  unfold in_zset, ZRem. rewrite zset_at_put. case_decide as E; [subst|naive_solver].
  rewrite dom_delete_L. set_solver.
Qed.

Lemma in_ZKeep_other key n st key' m :
  key' <> key -> in_zset (ZKeep key n st) key' m <-> in_zset st key' m.
Proof. intros Hne. unfold in_zset, ZKeep. by rewrite zset_at_put, decide_False. Qed.

Lemma in_SAdd key m st key' m' :
  in_set (SAdd key m st) key' m' <-> (key' = key /\ m' = m) \/ in_set st key' m'.
Proof.
  unfold in_set, set_at, SAdd. cbn [sets]. destruct (decide (key' = key)) as [->|Hne].
  - rewrite lookup_insert_eq. cbn. set_solver.
  - rewrite lookup_insert_ne by congruence. naive_solver.
Qed.

Lemma in_SRem key m st key' m' :
  in_set (SRem key m st) key' m' <-> in_set st key' m' /\ ~ (key' = key /\ m' = m).
Proof.
  unfold in_set, set_at, SRem. cbn [sets]. destruct (decide (key' = key)) as [->|Hne].
  - rewrite lookup_insert_eq. cbn. set_solver.
  - rewrite lookup_insert_ne by congruence. naive_solver.
Qed.

Lemma strs_SetStr key v st key' :
  strs (SetStr key v st) !! key' = if decide (key' = key) then Some v else strs st !! key'.
Proof.
  unfold SetStr. cbn [strs]. case_decide as E.
  - subst. by rewrite lookup_insert_eq.
  - by rewrite lookup_insert_ne by congruence.
Qed.

(** ** Keys are apart *)

Lemma meta_key_inj i j : jobMetaKey i = jobMetaKey j -> i = j.
Proof. unfold jobMetaKey. intros E. cbn in E. by injection E. Qed.

Lemma state_key_inj i j : jobStateKey i = jobStateKey j -> i = j.
Proof. unfold jobStateKey. intros E. cbn in E. by injection E. Qed.

Lemma active_key_inj i j : tenantActiveKey i = tenantActiveKey j -> i = j.
Proof. unfold tenantActiveKey. intros E. cbn in E. by injection E. Qed.

Lemma meta_not_runtime i j : jobMetaKey i <> jobRuntimeKey j.
Proof. discriminate. Qed.

Lemma length_append (a b : string) :
  String.length (a +:+ b) = (String.length a + String.length b)%nat.
Proof. induction a as [|x a IH]; [done|]. change (S (String.length (a +:+ b)) = S (String.length a + String.length b))%nat. by rewrite IH. Qed.

Lemma append_inj_r (a b c : string) : a +:+ c = b +:+ c -> a = b.
Proof.
  revert b. induction a as [|x a IH]; intros [|y b] E; [done|..].
  - exfalso. apply (f_equal String.length) in E. rewrite !length_append in E. cbn in E. lia.
  - exfalso. apply (f_equal String.length) in E. rewrite !length_append in E. cbn in E. lia.
  - cbn [String.append] in E. injection E as -> E. by rewrite (IH b).
Qed.

Lemma runtime_key_inj i j : jobRuntimeKey i = jobRuntimeKey j -> i = j.
Proof.
  unfold jobRuntimeKey. intros E. injection E as E.
  apply (append_inj_r (EncodeToString RawURLEncoding i) (EncodeToString RawURLEncoding j)) in E.
  by apply Encode_inj in E.
Qed.

Lemma index_key_inj s t :
  s ∈ projectedJobStates -> t ∈ projectedJobStates -> stateIndexKey s = stateIndexKey t -> s = t.
Proof.
  intros Hs Ht. assert (HF : Forall (fun s => Forall (fun t =>
    stateIndexKey s = stateIndexKey t -> s = t) projectedJobStates) projectedJobStates).
  { repeat constructor; vm_compute; congruence. }
  rewrite Forall_forall in HF. specialize (HF s Hs). rewrite Forall_forall in HF. by apply HF.
Qed.

Lemma projected_nonempty s : s ∈ projectedJobStates -> s <> "".
Proof.
  intros Hs. assert (HF : Forall (fun s => s <> "") projectedJobStates)
    by (repeat constructor; discriminate).
  rewrite Forall_forall in HF. by apply HF.
Qed.

Lemma index_key_other s k :
  s ∈ projectedJobStates -> (exists w, k = workerJobsKey w) \/ k = recentKey \/ k = deadlineIndexKey ->
  stateIndexKey s <> k.
Proof.
  intros Hs Hk. unfold stateIndexKey. rewrite eqb_ne by by apply projected_nonempty.
  destruct Hk as [[w ->]|[->| ->]]; discriminate.
Qed.

Lemma transition_targets_projected from to :
  isAllowedTransition from to = true -> to ∈ projectedJobStates.
Proof.
  assert (HF : Forall (fun '(_, ts) => Forall (fun t => t ∈ projectedJobStates) ts)
                 allowedTransitions).
  { apply (bool_decide_unpack _). by vm_compute. }
  unfold isAllowedTransition. destruct (_ !! from) as [ts|] eqn:E; [|done].
  apply elem_of_list_to_map_2 in E. rewrite Forall_forall in HF. specialize (HF _ E). cbn in HF.
  unfold containsJobState. intros Hc. apply existsb_exists in Hc as (t & Hin & Heq).
  apply String.eqb_eq in Heq as ->. rewrite Forall_forall in HF.
  apply HF. by apply list_elem_of_In.
Qed.

(** ** The query views of a job agree with its meta hash *)

Definition meta_state (st : jredis) (j : string) : option string :=
  hash_at st (jobMetaKey j) !! "state".

Definition meta_tenant (st : jredis) (j : string) : string :=
  get_str (hash_at st (jobMetaKey j)) metaFieldTenant.

Record job_views (st : jredis) (j : string) : Prop := {
  v_known : forall s, meta_state st j = Some s -> s ∈ projectedJobStates;
  v_runtime : forall s, hash_at st (jobRuntimeKey j) !! runtimeStateField = Some s ->
    s ∈ projectedJobStates;
  v_key : strs st !! jobStateKey j = meta_state st j;
  v_index : forall s, s ∈ projectedJobStates ->
    (in_zset st (stateIndexKey s) j <-> meta_state st j = Some s);
  v_active : meta_tenant st j <> "" ->
    (in_set st (tenantActiveKey (meta_tenant st j)) j <->
     exists s, meta_state st j = Some s /\ isActiveState s = true);
}.

(** [st'] is [st] with job [j] moved to state [s] in every view. *)
Record moved (st : jredis) (j s : string) (st' : jredis) : Prop := {
  mv_state : meta_state st' j = Some s;
  mv_tenant : meta_tenant st' j = meta_tenant st j;
  mv_meta : forall i, i <> j -> hash_at st' (jobMetaKey i) = hash_at st (jobMetaKey i);
  mv_runtime : forall i, hash_at st' (jobRuntimeKey i) = hash_at st (jobRuntimeKey i);
  mv_key : forall i, strs st' !! jobStateKey i = if decide (i = j) then Some s else strs st !! jobStateKey i;
  mv_index : forall i t, t ∈ projectedJobStates ->
    (in_zset st' (stateIndexKey t) i <-> if decide (i = j) then t = s else in_zset st (stateIndexKey t) i);
  mv_active : forall i t, t <> "" ->
    (in_set st' (tenantActiveKey t) i <->
     if decide (i = j /\ t = meta_tenant st j) then isActiveState s = true
     else in_set st (tenantActiveKey t) i);
}.

Lemma moved_views st j s st' i :
  s ∈ projectedJobStates -> moved st j s st' -> job_views st i -> job_views st' i.
Proof.
  intros Hs Hm Hv. destruct (decide (i = j)) as [->|Hne].
  - constructor.
    + intros s'. rewrite (mv_state _ _ _ _ Hm). congruence.
    + rewrite (mv_runtime _ _ _ _ Hm). apply Hv.
    + rewrite (mv_key _ _ _ _ Hm), decide_True by done. by rewrite (mv_state _ _ _ _ Hm).
    + intros t Ht. rewrite (mv_index _ _ _ _ Hm), decide_True, (mv_state _ _ _ _ Hm) by done.
      naive_solver.
    + rewrite (mv_tenant _ _ _ _ Hm). intros Ht.
      rewrite (mv_active _ _ _ _ Hm), decide_True, (mv_state _ _ _ _ Hm) by done. naive_solver.
  - assert (E : meta_state st' i = meta_state st i)
      by (unfold meta_state; by rewrite (mv_meta _ _ _ _ Hm)).
    assert (Et : meta_tenant st' i = meta_tenant st i)
      by (unfold meta_tenant; by rewrite (mv_meta _ _ _ _ Hm)).
    destruct Hv as [H1 H2 H3 H4 H5]. constructor; rewrite ?E, ?Et; try done.
    + by rewrite (mv_runtime _ _ _ _ Hm).
    + by rewrite (mv_key _ _ _ _ Hm), decide_False.
    + intros t Ht. rewrite (mv_index _ _ _ _ Hm), decide_False by done. by apply H4.
    + intros Ht. rewrite (mv_active _ _ _ _ Hm), decide_False by naive_solver. by apply H5.
Qed.

(** A step that only touches a runtime hash. *)
Lemma runtime_views key st h j i :
  key = jobRuntimeKey j ->
  (forall s, h !! runtimeStateField = Some s -> s ∈ projectedJobStates) ->
  job_views st i -> job_views (put_hash key h st) i.
Proof.
  intros -> Hh [H1 H2 H3 H4 H5].
  assert (E : hash_at (put_hash (jobRuntimeKey j) h st) (jobMetaKey i) = hash_at st (jobMetaKey i)).
  { rewrite hash_at_put, decide_False; [done|apply meta_not_runtime]. }
  constructor; unfold meta_state, meta_tenant in *; rewrite ?E; try done.
  rewrite hash_at_put. case_decide; [done|apply H2].
Qed.

(** ** The operations move a job in every view *)

Ltac fold_pipeline :=
  unfold pipeline, when; cbn [foldl].

Lemma HSet_lookup key fields st f :
  hash_at (HSet key fields st) key !! f =
  (foldl (fun h '(f, v) => <[f := v]> h) (hash_at st key) fields) !! f.
Proof. unfold HSet. by rewrite hash_at_put, decide_True. Qed.

(** Leaving the old index and joining the new one, seen from any job. *)
Lemma reindexed st j prev s now :
  s ∈ projectedJobStates -> (prev = "" \/ prev ∈ projectedJobStates) ->
  (forall t, t ∈ projectedJobStates -> in_zset st (stateIndexKey t) j -> t = prev) ->
  forall i t, t ∈ projectedJobStates ->
  (in_zset (ZAdd (stateIndexKey s) now j
     (if negb (stateIndexKey prev =s? "") then ZRem (stateIndexKey prev) j st else st))
     (stateIndexKey t) i
   <-> if decide (i = j) then t = s else in_zset st (stateIndexKey t) i).
Proof.
  intros Hs Hp Hold i t Ht. rewrite in_ZAdd.
  assert (Hk : stateIndexKey t = stateIndexKey s <-> t = s).
  { split; [by apply index_key_inj|by intros ->]. }
  destruct Hp as [->|Hp].
  - change (stateIndexKey "") with "". cbn [String.eqb negb]. case_decide as E.
    + subst i. split; [|naive_solver]. intros [[H _]|H]; [by apply Hk|].
      apply Hold in H; [|done]. subst t. by apply projected_nonempty in Ht.
    + naive_solver.
  - destruct (String.eqb_spec (stateIndexKey prev) "") as [H|_]; cbn [negb].
    { exfalso. unfold stateIndexKey in H. rewrite eqb_ne in H by by apply projected_nonempty.
      discriminate H. }
    rewrite in_ZRem. case_decide as E; [|naive_solver]. subst i. split; [|naive_solver].
    intros [[H _]|[H Hn]]; [by apply Hk|]. apply Hold in H; [|done]. subst t. naive_solver.
Qed.

Lemma clear_deadline_lookup (b : bool) key st k f :
  f <> metaFieldDeadline ->
  hash_at (if b then HDel key metaFieldDeadline st else st) k !! f = hash_at st k !! f.
Proof.
  intros Hf. destruct b; [|done]. unfold HDel. rewrite hash_at_put. case_decide; [|done].
  subst. by rewrite lookup_delete_ne by congruence.
Qed.

(** The hash part of a move: writes to the meta hash of [j] that set its state,
    keep its tenant and stay out of the other hashes. *)
Lemma meta_write_moves (b : bool) st j s fields st' :
  (forall k, hash_at st' k =
     hash_at (if b then HDel (jobMetaKey j) metaFieldDeadline (HSet (jobMetaKey j) fields st)
              else HSet (jobMetaKey j) fields st) k) ->
  (forall h : hash, foldl (fun h '(f, v) => <[f := v]> h) h fields !! "state" = Some s) ->
  (forall h : hash, foldl (fun h '(f, v) => <[f := v]> h) h fields !! metaFieldTenant
     = h !! metaFieldTenant) ->
  meta_state st' j = Some s /\ meta_tenant st' j = meta_tenant st j /\
  (forall i, i <> j -> hash_at st' (jobMetaKey i) = hash_at st (jobMetaKey i)) /\
  (forall i, hash_at st' (jobRuntimeKey i) = hash_at st (jobRuntimeKey i)).
Proof.
  intros E Hs Ht. split_and!.
  - unfold meta_state. rewrite E, clear_deadline_lookup by done. by rewrite HSet_lookup.
  - unfold meta_tenant, get_str. rewrite E, clear_deadline_lookup by done.
    by rewrite HSet_lookup, Ht.
  - intros i Hi. rewrite E. unfold HDel, HSet.
    assert (jobMetaKey i <> jobMetaKey j) by (intros H; by apply meta_key_inj in H).
    destruct b; by rewrite !hash_at_put, !decide_False.
  - intros i. rewrite E. unfold HDel, HSet. destruct b; by rewrite !hash_at_put, !decide_False.
Qed.

(** The index part, with the bookkeeping in the recent and deadline sets. *)
Lemma index_write_moves (b : bool) st j s prev now st' :
  s ∈ projectedJobStates -> (prev = "" \/ prev ∈ projectedJobStates) ->
  (forall t, t ∈ projectedJobStates -> in_zset st (stateIndexKey t) j -> t = prev) ->
  (forall k m, in_zset st' k m <->
     in_zset (let st1 := ZKeep recentKey 1000 (ZAdd recentKey now j
                (ZAdd (stateIndexKey s) now j
                  (if negb (stateIndexKey prev =s? "") then ZRem (stateIndexKey prev) j st
                   else st))) in
              if b then ZRem deadlineIndexKey j st1 else st1) k m) ->
  forall i t, t ∈ projectedJobStates ->
    (in_zset st' (stateIndexKey t) i <->
     if decide (i = j) then t = s else in_zset st (stateIndexKey t) i).
Proof.
  intros Hs Hp Hold E i t Ht. rewrite E, <- (reindexed st j prev s now Hs Hp Hold i t Ht).
  assert (Hd : stateIndexKey t <> deadlineIndexKey) by (apply index_key_other; auto).
  assert (Hr : stateIndexKey t <> recentKey) by (apply index_key_other; auto).
  cbn zeta. destruct b; rewrite ?in_ZRem, in_ZKeep_other, in_ZAdd by done; naive_solver.
Qed.

(** The active-set part. *)
Lemma active_write_moves st j s tenant st' :
  s ∈ projectedJobStates -> tenant = meta_tenant st j ->
  (forall k m, in_set st' k m <->
     in_set (if tenant =s? "" then st
             else if terminalStates s then SRem (tenantActiveKey tenant) j st
             else SAdd (tenantActiveKey tenant) j st) k m) ->
  forall i t, t <> "" ->
    (in_set st' (tenantActiveKey t) i <->
     if decide (i = j /\ t = meta_tenant st j) then isActiveState s = true
     else in_set st (tenantActiveKey t) i).
Proof.
  intros Hs -> E i t Ht. rewrite E. unfold isActiveState.
  rewrite (eqb_ne s "") by by apply projected_nonempty.
  destruct (String.eqb_spec (meta_tenant st j) "") as [He|He].
  { rewrite decide_False; [done|]. intros [_ ->]. done. }
  assert (Hk : tenantActiveKey t = tenantActiveKey (meta_tenant st j) <-> t = meta_tenant st j).
  { split; [apply active_key_inj|by intros ->]. }
  destruct (terminalStates s); rewrite ?in_SRem, ?in_SAdd, Hk; case_decide; naive_solver.
Qed.

Lemma prev_state_known st j :
  job_views st j ->
  (get_str (hash_at st (jobMetaKey j)) "state" = "" \/
   get_str (hash_at st (jobMetaKey j)) "state" ∈ projectedJobStates) /\
  forall t, t ∈ projectedJobStates -> in_zset st (stateIndexKey t) j ->
    t = get_str (hash_at st (jobMetaKey j)) "state".
Proof.
  intros Hv. unfold get_str. fold (meta_state st j). split.
  - destruct (meta_state st j) as [s|] eqn:E; [right; by apply (v_known _ _ Hv)|by left].
  - intros t Ht Hin. apply (v_index _ _ Hv) in Hin; [|done]. by rewrite Hin.
Qed.

(** The state-key part. *)
Lemma key_write_moves st j s st' :
  (forall k, strs st' !! jobStateKey k = strs (SetStr (jobStateKey j) s st) !! jobStateKey k) ->
  forall i, strs st' !! jobStateKey i = if decide (i = j) then Some s else strs st !! jobStateKey i.
Proof.
  intros E i. rewrite E, strs_SetStr. destruct (decide (i = j)) as [->|Hne].
  - by rewrite decide_True.
  - rewrite decide_False; [done|]. intros H. by apply state_key_inj in H.
Qed.

(** The guards of a move are three tests; in each case the observation is
    untouched by the other commands. *)
Ltac move_cases prev st j s :=
  destruct (stateIndexKey prev =s? ""), (meta_tenant st j =s? ""), (terminalStates s); reflexivity.

Lemma SetStateWithContext_moved now j s st st' :
  job_views st j -> SetStateWithContext now j s st = Ok st' ->
  s ∈ projectedJobStates /\ moved st j s st'.
Proof.
  intros Hv. unfold SetStateWithContext. destruct (_ || _); [done|].
  destruct (isAllowedTransition _ s) eqn:Ha; cbn [negb]; [|done].
  pose proof (transition_targets_projected _ _ Ha) as Hs.
  destruct (prev_state_known st j Hv) as [Hp Hold].
  set (prev := get_str _ "state") in *. set (attempts := if _ && _ then _ else _).
  assert (Hidx : (stateIndexKey s =s? "") = false).
  { unfold stateIndexKey. by rewrite (eqb_ne s "") by by apply projected_nonempty. }
  intros [= <-]. split; [done|]. rewrite Hidx. cbn [negb].
  assert (Hact : isActiveState s = negb (terminalStates s)).
  { unfold isActiveState. by rewrite (eqb_ne s "") by by apply projected_nonempty. }
  rewrite Hact. unfold pipeline. cbn [foldl].
  fold (meta_tenant st j). match goal with |- moved _ _ _ ?x => set (st' := x) end.
  pose (fields := [("state", s); ("updated_at", Itoa now); (metaFieldAttempts, Itoa attempts)]).
  assert (Hw := meta_write_moves (terminalStates s) st j s fields st').
  destruct Hw as (H1 & H2 & H3 & H4).
  { intros k. unfold st', fields, when.
    move_cases prev st j s. }
  { intros h. cbn. by rewrite !lookup_insert_ne, lookup_insert_eq by done. }
  { intros h. cbn. by rewrite !lookup_insert_ne by done. }
  constructor; [done|done|done|done|..].
  - apply key_write_moves. intros k. unfold st', when. move_cases prev st j s.
  - apply (index_write_moves (terminalStates s) st j s prev now); [done|done|done|].
    intros k m. unfold st', when.
    move_cases prev st j s.
  - apply (active_write_moves st j s (meta_tenant st j)); [done|done|].
    intros k m. unfold st', when.
    move_cases prev st j s.
Qed.

Lemma cancelLegacy_moved now j curr st :
  job_views st j -> meta_state st j = Some curr -> moved st j JobStateCancelled (cancelLegacy now j curr st).
Proof.
  intros Hv Hc. pose proof (v_known _ _ Hv _ Hc) as Hk.
  assert (Hs : JobStateCancelled ∈ projectedJobStates) by (apply (bool_decide_unpack _); by vm_compute).
  set (st' := cancelLegacy now j curr st). unfold cancelLegacy, pipeline in st'. cbn [foldl] in st'.
  fold (meta_tenant st j) in st'.
  pose (fields := [("state", JobStateCancelled); ("updated_at", Itoa now)]).
  destruct (meta_write_moves true st j JobStateCancelled fields st') as (H1 & H2 & H3 & H4).
  { intros k. unfold st', fields, when. move_cases curr st j JobStateCancelled. }
  { intros h. cbn. by rewrite !lookup_insert_ne, lookup_insert_eq by done. }
  { intros h. cbn. by rewrite !lookup_insert_ne by done. }
  constructor; [done|done|done|done|..].
  - apply key_write_moves. intros k. unfold st', when. move_cases curr st j JobStateCancelled.
  - apply (index_write_moves true st j JobStateCancelled curr now); [done|by right|..].
    + intros t Ht Hin. apply (v_index _ _ Hv) in Hin; [|done]. congruence.
    + intros k m. unfold st', when. move_cases curr st j JobStateCancelled.
  - apply (active_write_moves st j JobStateCancelled (meta_tenant st j)); [done|done|].
    intros k m. change (terminalStates JobStateCancelled) with true.
    unfold st', when. move_cases curr st j JobStateCancelled.
Qed.

Lemma clear_indexes_in st j s l i t :
  t ∈ projectedJobStates -> (forall c, c ∈ l -> c ∈ projectedJobStates) ->
  in_zset (foldl (fun st c => if c =s? s then st else ZRem (stateIndexKey c) j st) st l)
    (stateIndexKey t) i
  <-> in_zset st (stateIndexKey t) i /\ ~ (i = j /\ t <> s /\ t ∈ l).
Proof.
  intros Ht. revert st. induction l as [|c l IH]; intros st Hl; cbn [foldl].
  { split; [intros H; split; [done|]|naive_solver]. intros (_ & _ & H'). by apply elem_of_nil in H'. }
  rewrite IH by (intros c' Hc'; apply Hl; by apply elem_of_cons; right). rewrite elem_of_cons.
  destruct (String.eqb_spec c s) as [->|Hne]; [naive_solver|]. rewrite in_ZRem.
  assert (stateIndexKey t = stateIndexKey c <-> t = c).
  { split; [|by intros ->]. apply index_key_inj; [done|]. apply Hl, elem_of_cons. by left. }
  naive_solver.
Qed.

Lemma project_index st j s now i t :
  s ∈ projectedJobStates -> t ∈ projectedJobStates ->
  (in_zset (projectLegacyResultIndexes j s now st) (stateIndexKey t) i <->
   if decide (i = j) then t = s else in_zset st (stateIndexKey t) i).
Proof.
  intros Hs Ht. unfold projectLegacyResultIndexes. rewrite !in_ZAdd, clear_indexes_in by done.
  assert (stateIndexKey t <> recentKey) by (apply index_key_other; auto).
  assert (stateIndexKey t = stateIndexKey s <-> t = s)
    by (split; [by apply index_key_inj|by intros ->]).
  destruct (decide (i = j)), (decide (t = s)); intuition congruence.
Qed.

Lemma project_index_frame j s now st :
  hashes (projectLegacyResultIndexes j s now st) = hashes st /\
  strs (projectLegacyResultIndexes j s now st) = strs st /\
  sets (projectLegacyResultIndexes j s now st) = sets st.
Proof.
  unfold projectLegacyResultIndexes. unfold ZAdd, put_zset. cbn [hashes strs sets].
  generalize projectedJobStates as l. intros l. revert st.
  induction l as [|c l IH]; intros st; [done|]. cbn [foldl]. destruct (IH (if c =s? s then st else ZRem (stateIndexKey c) j st)) as (-> & -> & ->).
  by destruct (c =s? s).
Qed.

(** The first four stages of a projection. *)
Definition projected_views (now : Z) (j s ptr w : string) (st : jredis) : jredis :=
  projectLegacyWorker j w now (projectLegacyResultIndexes j s now
    (projectLegacyResultKeys j s ptr (projectLegacyResultMeta j s ptr w now st))).

Definition project_fields (now : Z) (s ptr w : string) : list (string * string) :=
  [(runtimeStateField, s); ("updated_at", Itoa now)]
  ++ (if ptr =s? "" then [] else [(runtimeResultField, ptr)])
  ++ (if w =s? "" then [] else [(metaFieldWorkerID, w)]).

Lemma projected_views_frame now j s ptr w st :
  (forall k, hash_at (projected_views now j s ptr w st) k =
     hash_at (HSet (jobMetaKey j) (project_fields now s ptr w) st) k) /\
  (forall k, strs (projected_views now j s ptr w st) !! jobStateKey k =
     strs (SetStr (jobStateKey j) s st) !! jobStateKey k) /\
  (forall k m, in_set (projected_views now j s ptr w st) k m <-> in_set st k m) /\
  (forall i t, s ∈ projectedJobStates -> t ∈ projectedJobStates ->
     (in_zset (projected_views now j s ptr w st) (stateIndexKey t) i <->
      if decide (i = j) then t = s else in_zset st (stateIndexKey t) i)).
Proof.
  unfold projected_views. set (st1 := projectLegacyResultKeys _ _ _ _).
  destruct (project_index_frame j s now st1) as (Hh & Hk & Hs).
  split_and!.
  - intros k. transitivity (hash_at st1 k).
    { unfold projectLegacyWorker, hash_at. destruct (w =s? ""); by rewrite <- Hh. }
    unfold st1, projectLegacyResultKeys. by destruct (ptr =s? "").
  - intros k. transitivity (strs st1 !! jobStateKey k).
    { unfold projectLegacyWorker. destruct (w =s? ""); by rewrite <- Hk. }
    unfold st1, projectLegacyResultKeys. destruct (ptr =s? ""); [done|].
    by rewrite strs_SetStr, decide_False.
  - intros k m. transitivity (in_set st1 k m).
    { unfold projectLegacyWorker, in_set, set_at. destruct (w =s? ""); by rewrite <- Hs. }
    unfold st1, projectLegacyResultKeys. by destruct (ptr =s? "").
  - intros i t Hps Ht. transitivity (in_zset (projectLegacyResultIndexes j s now st1) (stateIndexKey t) i).
    + unfold projectLegacyWorker, pipeline. destruct (w =s? ""); [done|]. cbn [foldl].
      assert (stateIndexKey t <> workerJobsKey w) by (apply index_key_other; eauto).
      rewrite in_ZKeep_other, in_ZAdd by done. intuition congruence.
    + rewrite project_index by done. unfold st1, projectLegacyResultKeys. by destruct (ptr =s? "").
Qed.

Lemma project_fields_lookup now s ptr w (h : hash) :
  let h' := foldl (fun h '(f, v) => <[f := v]> h) h (project_fields now s ptr w) in
  h' !! "state" = Some s /\ h' !! metaFieldTenant = h !! metaFieldTenant.
Proof.
  unfold project_fields. change runtimeStateField with "state".
  destruct (ptr =s? ""), (w =s? ""); cbn [app foldl]; cbn zeta; split;
    rewrite ?lookup_insert_ne, ?lookup_insert_eq by done; done.
Qed.

Lemma ProjectJobResult_moved now j s ptr w st st' :
  s ∈ projectedJobStates -> ProjectJobResult now j s ptr w st = Ok st' -> moved st j s st'.
Proof.
  intros Hs. unfold ProjectJobResult. destruct (_ || _); [done|]. intros [= <-].
  unfold pipeline. cbn [foldl]. fold (projected_views now j s ptr w st).
  destruct (projected_views_frame now j s ptr w st) as (Eh & Ek & Es & Ez).
  set (st4 := projected_views now j s ptr w st) in *. unfold projectLegacyTerminalState.
  assert (Et : get_str (hash_at st4 (jobMetaKey j)) metaFieldTenant = meta_tenant st j).
  { unfold get_str. rewrite Eh, HSet_lookup.
    by rewrite (proj2 (project_fields_lookup now s ptr w _)). }
  rewrite Et. match goal with |- moved _ _ _ ?x => set (st' := x) end.
  assert (Hact : isActiveState s = negb (terminalStates s)).
  { unfold isActiveState. by rewrite (eqb_ne s "") by by apply projected_nonempty. }
  destruct (meta_write_moves (terminalStates s) st j s (project_fields now s ptr w) st')
    as (H1 & H2 & H3 & H4); [|apply project_fields_lookup..|].
  { intros k. unfold st'. rewrite Hact. unfold HDel. destruct (terminalStates s), (meta_tenant st j =s? "");
      cbn [negb]; rewrite ?hash_at_put; repeat case_decide; try apply Eh; f_equal; apply Eh. }
  constructor; [done|done|done|done|..].
  - apply key_write_moves. intros k. unfold st'. rewrite Hact.
    destruct (terminalStates s), (meta_tenant st j =s? ""); apply Ek.
  - intros i t Ht. rewrite <- (Ez i t Hs Ht). unfold st'. rewrite Hact.
    assert (stateIndexKey t <> deadlineIndexKey) by (apply index_key_other; auto).
    destruct (terminalStates s), (meta_tenant st j =s? ""); cbn [negb]; try reflexivity;
      (transitivity (in_zset (ZRem deadlineIndexKey j st4) (stateIndexKey t) i); [reflexivity|]);
      rewrite in_ZRem; naive_solver.
  - apply (active_write_moves st j s (meta_tenant st j)); [done|done|].
    intros k m. unfold st'. rewrite Hact.
    destruct (terminalStates s), (meta_tenant st j =s? ""); cbn [negb]; try apply Es.
    + transitivity (in_set (SRem (tenantActiveKey (meta_tenant st j)) j st4) k m); [reflexivity|].
      by rewrite !in_SRem, Es.
    + by rewrite !in_SAdd, Es.
Qed.

(** ** Calls, and the scripts they run *)

Inductive store_call :=
| CallSetState (now : Z) (jobID state : string)
| CallSetStateWithContext (now : Z) (jobID state : string)
| CallCancelJob (now : Z) (jobID : string)
| CallProject (now : Z) (jobID state resultPtr workerID : string)
| CallBegin (uuid jobID workerID tenant : string)
| CallAcceptEvent (jobID : string) (f : fence) (eventMessageID : string)
| CallAcceptSigned (jobID : string) (f : fence) (messageID digest : string)
| CallApply (a : JobResultApply)
| CallAck (e : JobEffect)
| CallRollback (jobID dispatchID : string) (attempt : Z)
| CallCancelAll (jobID : string).

Definition settle {A} (st : jredis) (r : result StoreError (jredis * A)) : jredis :=
  match r with inl _ => st | inr (st', _) => st' end.

Definition run_call (c : store_call) (st : jredis) : jredis :=
  match c with
  | CallSetState now j s => (SetState now j s st).1
  | CallSetStateWithContext now j s =>
      match SetStateWithContext now j s st with inl _ => st | inr st' => st' end
  | CallCancelJob now j => settle st (CancelJob now j st)
  | CallProject now j s p w =>
      match ProjectJobResult now j s p w st with inl _ => st | inr st' => st' end
  | CallBegin u j w t => (BeginDispatch u j w t st).1
  | CallAcceptEvent j f m => settle st (AcceptJobEvent j f m st)
  | CallAcceptSigned j f m d => (AcceptSignedJobEvent j f m d st).1
  | CallApply a => (ApplyJobResult a st).1
  | CallAck e => settle st (AckJobEffect e st)
  | CallRollback j d n => settle st (RollbackDispatch j d n st)
  | CallCancelAll j => settle st (CancelAllJobAttempts j st)
  end.

Definition call_job (c : store_call) : string :=
  match c with
  | CallSetState _ j _ | CallSetStateWithContext _ j _ | CallCancelJob _ j
  | CallProject _ j _ _ _ | CallBegin _ j _ _ | CallAcceptEvent j _ _
  | CallAcceptSigned j _ _ _ | CallRollback j _ _ | CallCancelAll j => j
  | CallApply a => a_JobID a
  | CallAck e => e_JobID e
  end.

(** The scripts a call runs on its job's runtime hash. *)
Definition call_ops (c : store_call) (st : jredis) : list rop :=
  let meta := hash_at st (jobMetaKey (call_job c)) in
  let exists_ := hash_exists st (jobRuntimeKey (call_job c)) in
  match c with
  | CallSetState _ j s =>
      if (j =s? "") || (s =s? "") || negb exists_ then [] else [OpTransition s]
  | CallSetStateWithContext _ _ _ | CallProject _ _ _ _ _ => []
  | CallCancelJob _ j => if (j =s? "") || negb exists_ then [] else [OpMigrate meta; OpCancel]
  | CallBegin u j w t =>
      if (j =s? "") || (w =s? "") || (t =s? "") then [] else
      match GetState j st with None => [] | Some _ => [OpMigrate meta; OpBegin u w t] end
  | CallAcceptEvent j f m =>
      if (j =s? "") || (f_DispatchID f =s? "") || (f_WorkerID f =s? "") || (f_Tenant f =s? "")
         || (m =s? "") then [] else [OpMigrate meta; OpAcceptEvent f m]
  | CallAcceptSigned j f m d =>
      if (j =s? "") || negb (fence_complete f) || (m =s? "") || (d =s? "") then []
      else [OpMigrate meta; OpAcceptSigned f m d]
  | CallApply a =>
      if negb (validateJobResultApply a) then [] else [OpMigrate meta; OpApply a]
  | CallAck e =>
      if (e_JobID e =s? "") || (e_EventID e =s? "") || (e_Digest e =s? "") then [] else [OpAck e]
  | CallRollback j d n =>
      if (j =s? "") || (d =s? "") || (n <=? 0)%Z then [] else [OpRollback d n]
  | CallCancelAll j => if j =s? "" then [] else [OpMigrate meta; OpCancel]
  end.

Lemma hash_at_put_eq key h st : hash_at (put_hash key h st) key = h.
Proof. by rewrite hash_at_put, decide_True. Qed.

(** The legacy state changes leave every hash but the job's meta hash alone. *)
Lemma SetStateWithContext_hash now j s st st' k :
  SetStateWithContext now j s st = Ok st' -> k <> jobMetaKey j -> hash_at st' k = hash_at st k.
Proof.
  unfold SetStateWithContext. destruct (_ || _); [done|]. destruct (negb _); [done|].
  set (attempts := if _ && _ then _ else _). set (fields := [_; _; _]).
  intros [= <-] Hk. unfold pipeline, when. cbn [foldl].
  set (prev := get_str (hash_at st (jobMetaKey j)) "state").
  set (tenant := get_str (hash_at st (jobMetaKey j)) metaFieldTenant).
  transitivity (hash_at (if terminalStates s
     then HDel (jobMetaKey j) metaFieldDeadline (HSet (jobMetaKey j) fields st)
     else HSet (jobMetaKey j) fields st) k).
  { destruct (stateIndexKey prev =s? ""), (stateIndexKey s =s? ""), (tenant =s? ""),
      (isActiveState s), (terminalStates s); reflexivity. }
  unfold HDel, HSet. destruct (terminalStates s); by rewrite !hash_at_put, !decide_False.
Qed.

Lemma cancelLegacy_hash now j curr st k :
  k <> jobMetaKey j -> hash_at (cancelLegacy now j curr st) k = hash_at st k.
Proof.
  intros Hk. unfold cancelLegacy, pipeline, when. cbn [foldl].
  transitivity (hash_at (HDel (jobMetaKey j) metaFieldDeadline
    (HSet (jobMetaKey j) [("state", JobStateCancelled); ("updated_at", Itoa now)] st)) k).
  { destruct (negb (stateIndexKey curr =s? "")), (negb (get_str _ _ =s? "")); reflexivity. }
  unfold HDel, HSet. by rewrite !hash_at_put, !decide_False.
Qed.

Lemma ProjectJobResult_hash now j s p w st st' k :
  ProjectJobResult now j s p w st = Ok st' -> k <> jobMetaKey j -> hash_at st' k = hash_at st k.
Proof.
  unfold ProjectJobResult. destruct (_ || _); [done|]. intros [= <-] Hk.
  unfold pipeline. cbn [foldl]. fold (projected_views now j s p w st).
  destruct (projected_views_frame now j s p w st) as (Eh & _).
  set (st4 := projected_views now j s p w st) in *.
  transitivity (hash_at st4 k).
  - unfold projectLegacyTerminalState, HDel.
    destruct (get_str _ _ =s? ""), (terminalStates s), (isActiveState s); cbn [negb];
      rewrite ?hash_at_put, ?decide_False by done; reflexivity.
  - rewrite Eh. unfold HSet. by rewrite hash_at_put, decide_False.
Qed.

Lemma migrate_put jobID st :
  migrateRuntimeFence jobID st =
  put_hash (jobRuntimeKey jobID)
    (run_op (OpMigrate (hash_at st (jobMetaKey jobID))) (hash_at st (jobRuntimeKey jobID))).1 st.
Proof. done. Qed.

(** A store whose job [j] ran [ops], the other runtime hashes being as before. *)
Definition ran (j : string) (ops : list rop) (st st' : jredis) : Prop :=
  hash_at st' (jobRuntimeKey j) = exec ops (hash_at st (jobRuntimeKey j)) /\
  forall i, i <> j -> hash_at st' (jobRuntimeKey i) = hash_at st (jobRuntimeKey i).

Lemma ran_nil j st st' :
  (forall k, k <> jobMetaKey j -> hash_at st' k = hash_at st k) -> ran j [] st st'.
Proof. intros H. split; [|intros i _]; apply H; discriminate. Qed.

Lemma ran_put j op st :
  ran j [op] st (put_hash (jobRuntimeKey j) (run_op op (hash_at st (jobRuntimeKey j))).1 st).
Proof.
  split; [by rewrite hash_at_put_eq|]. intros i Hi. rewrite hash_at_put, decide_False; [done|].
  intros H. by apply runtime_key_inj in H.
Qed.

Lemma ran_app j ops1 ops2 st st1 st2 :
  ran j ops1 st st1 -> ran j ops2 st1 st2 -> ran j (ops1 ++ ops2)%list st st2.
Proof.
  intros [H1 F1] [H2 F2]. split; [|intros i Hi; by rewrite F2, F1].
  rewrite H2, H1. clear. generalize (hash_at st (jobRuntimeKey j)). induction ops1; intros h; cbn; auto.
Qed.

(** Migrate, then one script. *)
Lemma ran_migrated j op st h r :
  let st1 := migrateRuntimeFence j st in
  run_op op (hash_at st1 (jobRuntimeKey j)) = (h, r) ->
  ran j [OpMigrate (hash_at st (jobMetaKey j)); op] st (put_hash (jobRuntimeKey j) h st1).
Proof.
  intros st1 E. apply (ran_app j [_] [op] st st1).
  - apply ran_put.
  - replace h with (run_op op (hash_at st1 (jobRuntimeKey j))).1 by by rewrite E. apply ran_put.
Qed.

Lemma ran_legacy_step now j s st :
  ran j [] st (match SetStateWithContext now j s st with inl e => (st, Some e) | inr st' => (st', None) end).1.
Proof.
  destruct (SetStateWithContext now j s st) as [e|st'] eqn:E; cbn [fst]; [by apply ran_nil|].
  apply ran_nil. intros k. by apply (SetStateWithContext_hash now j s).
Qed.

Lemma ran_SetState now j s st : ran j (call_ops (CallSetState now j s) st) st (SetState now j s st).1.
Proof.
  unfold SetState, call_ops. cbn [call_job].
  destruct ((j =s? "") || (s =s? "")); cbn [orb]; [by apply ran_nil|].
  destruct (hash_exists st (jobRuntimeKey j)); cbn [negb]; [|apply ran_legacy_step].
  unfold transitionRuntimeState.
  pose proof (ran_put j (OpTransition s) st) as Hput. cbn [run_op int_reply fst] in Hput.
  destruct (transitionRuntimeStateScript _ s) as [h r] eqn:E. cbn [int_reply fst] in Hput.
  destruct (Z.eqb_spec r 1) as [->|Hr].
  - destruct (_ =s? s); [exact Hput|].
    apply (ran_app j [_] [] st _ _ Hput). apply ran_legacy_step.
  - cbn [fst]. replace h with (hash_at st (jobRuntimeKey j)) in Hput.
    2:{ revert E. unfold transitionRuntimeStateScript. repeat case_match; naive_solver. }
    destruct Hput as [H1 H2]. rewrite hash_at_put_eq in H1. split; [done|]. done.
Qed.

Lemma ran_CancelAll j st st' s :
  CancelAllJobAttempts j st = Ok (st', s) ->
  ran j [OpMigrate (hash_at st (jobMetaKey j)); OpCancel] st st'.
Proof.
  unfold CancelAllJobAttempts. destruct (j =s? ""); [done|].
  destruct (cancelAllJobAttemptsScript _) as [h s'] eqn:E. intros [= <- <-].
  apply (ran_migrated j OpCancel st h (RState s')). cbn [run_op]. by rewrite E.
Qed.

Lemma ran_CancelJob now j st :
  ran j (call_ops (CallCancelJob now j) st) st (settle st (CancelJob now j st)).
Proof.
  unfold CancelJob, call_ops. cbn [call_job].
  destruct (String.eqb_spec j "") as [->|Hj]; cbn [orb]; [by apply ran_nil|].
  destruct (hash_exists st (jobRuntimeKey j)); cbn [negb].
  - destruct (CancelAllJobAttempts j st) as [e|[st1 s]] eqn:E.
    { revert E. unfold CancelAllJobAttempts. rewrite eqb_ne by done. by case_match. }
    pose proof (ran_CancelAll _ _ _ _ E) as Hr.
    assert (Hs : s <> "").
    { revert E. unfold CancelAllJobAttempts. rewrite eqb_ne by done.
      unfold cancelAllJobAttemptsScript. destruct (_ !! _) as [s0|]; [|by intros [= _ <-]].
      case_bool_decide as Hin; [|by intros [= _ <-]]. intros [= _ <-] ->. by vm_compute in Hin; set_solver. }
    destruct (ProjectJobResult now j s "" "" st1) as [e|st2] eqn:E2.
    { revert E2. unfold ProjectJobResult. by rewrite (eqb_ne j ""), (eqb_ne s "") by done. }
    apply (ran_app j [_; _] [] st _ _ Hr), ran_nil. intros k. by eapply ProjectJobResult_hash.
  - destruct (match _ !! _ with Some c => Some c | None => _ end) as [c|]; [|by apply ran_nil].
    destruct (terminalStates c); [by apply ran_nil|]. apply ran_nil. intros k. apply cancelLegacy_hash.
Qed.

Lemma ran_Begin u j w t st :
  ran j (call_ops (CallBegin u j w t) st) st (BeginDispatch u j w t st).1.
Proof.
  unfold BeginDispatch, call_ops. cbn [call_job]. destruct (_ || _); [by apply ran_nil|].
  destruct (GetState j st); [|by apply ran_nil].
  destruct (beginDispatchScript _ u w t) as [[h n]|] eqn:E.
  - apply (ran_migrated j (OpBegin u w t) st h (RInt n)). cbn [run_op]. by rewrite E.
  - cbn [fst]. set (st1 := migrateRuntimeFence j st) in *.
    assert (Hm : ran j [OpMigrate (hash_at st (jobMetaKey j))] st st1) by apply ran_put.
    destruct Hm as [H1 H2]. split; [|done]. cbn [exec] in *. rewrite <- H1.
    cbn [run_op]. by rewrite E.
Qed.

(** C21: the store's methods run the scripts.  A call changes the runtime hash of
    its own job as the listed scripts do, one after the other (first the
    migration of the legacy fence, where the method has it), and leaves the
    runtime hash of every other job alone; so everything proved of [exec] holds
    of the methods. *)
Theorem methods_refine_scripts c st :
  hash_at (run_call c st) (jobRuntimeKey (call_job c)) =
    exec (call_ops c st) (hash_at st (jobRuntimeKey (call_job c))) /\
  forall i, i <> call_job c ->
    hash_at (run_call c st) (jobRuntimeKey i) = hash_at st (jobRuntimeKey i).
Proof.
  enough (ran (call_job c) (call_ops c st) st (run_call c st)) by done.
  destruct c; cbn [call_job run_call].
  - apply ran_SetState.
  - cbn [call_ops]. pose proof (ran_legacy_step now jobID state st) as H.
    by destruct (SetStateWithContext now jobID state st).
  - apply ran_CancelJob.
  - cbn [call_ops]. destruct (ProjectJobResult _ _ _ _ _ _) eqn:E; apply ran_nil; [done|].
    intros k. by eapply ProjectJobResult_hash.
  - apply ran_Begin.
  - unfold AcceptJobEvent, call_ops. cbn [call_job]. destruct (_ || _); [by apply ran_nil|].
    destruct (acceptJobEventScript _ _ _) as [h r] eqn:E.
    apply (ran_migrated jobID (OpAcceptEvent f eventMessageID) st h (RInt r)).
    cbn [run_op]. by rewrite E.
  - unfold AcceptSignedJobEvent, call_ops. cbn [call_job]. destruct (_ || _); [by apply ran_nil|].
    destruct (acceptSignedJobEventScript _ _ _ _) as [h r] eqn:E.
    apply (ran_migrated jobID (OpAcceptSigned f messageID digest) st h (RInt r)).
    cbn [run_op]. by rewrite E.
  - unfold ApplyJobResult, call_ops. cbn [call_job]. destruct (negb _); [by apply ran_nil|].
    destruct (applyJobResultScript _ _) as [h r] eqn:E.
    apply (ran_migrated (a_JobID a) (OpApply a) st h (RInt r)). cbn [run_op]. by rewrite E.
  - unfold AckJobEffect, call_ops. cbn [call_job]. destruct (_ || _); [by apply ran_nil|].
    pose proof (ran_put (e_JobID e) (OpAck e) st) as H. cbn [run_op] in H.
    by destruct (ackJobEffectScript _ _).
  - unfold RollbackDispatch, call_ops. cbn [call_job]. destruct (_ || _); [by apply ran_nil|].
    pose proof (ran_put jobID (OpRollback dispatchID attempt) st) as H. cbn [run_op] in H.
    by destruct (rollbackDispatchScript _ _ _).
  - unfold call_ops. cbn [call_job]. destruct (CancelAllJobAttempts jobID st) as [e|[st1 s]] eqn:E.
    + revert E. unfold CancelAllJobAttempts. destruct (jobID =s? ""); [|by case_match].
      intros _. by apply ran_nil.
    + pose proof (ran_CancelAll _ _ _ _ E). revert E. unfold CancelAllJobAttempts.
      by destruct (jobID =s? "").
Qed.

(** ** The views agree after every call *)

Definition known (h : hash) : Prop :=
  forall s, h !! runtimeStateField = Some s -> s ∈ projectedJobStates.

(** The states a call brings in are job states. *)
Definition known_op (op : rop) : Prop :=
  match op with
  | OpMigrate legacy => known legacy
  | OpApply a => a_State a ∈ projectedJobStates
  | _ => True
  end.

Definition known_call (c : store_call) : Prop :=
  match c with
  | CallProject _ _ s _ _ => s ∈ projectedJobStates
  | CallApply a => a_State a ∈ projectedJobStates
  | _ => True
  end.

Lemma migrate_state h legacy :
  migrateRuntimeFenceScript h (migrate_args legacy) !! runtimeStateField =
  match h !! runtimeStateField with
  | Some s => Some s
  | None => if get_str legacy "state" =s? "" then None else Some (get_str legacy "state")
  end.
Proof.
  destruct (h !! runtimeStateField) as [s|] eqn:E; [by apply migrate_keeps|].
  unfold migrate_args, fence_fields. cbn [map]. unfold migrateRuntimeFenceScript. cbn [fold_left].
  set (h1 := if get_str legacy "state" =s? "" then h else _).
  change (migrateRuntimeFenceScript h1
    (map (fun f => (f, get_str legacy f)) [metaFieldDispatchID; metaFieldDispatchAttempt;
       metaFieldDispatchWorkerID; metaFieldDispatchTenant]) !! runtimeStateField =
    if get_str legacy "state" =s? "" then None else Some (get_str legacy "state")).
  rewrite migrate_other by (cbn; set_solver). unfold h1, HSETNX.
  change "state" with runtimeStateField. rewrite E.
  destruct (_ =s? ""); [done|]. cbn [fst]. apply lookup_insert_eq.
Qed.

Lemma prior_states_projected t s :
  containsJobState (prior_states t) s = true -> t ∈ projectedJobStates.
Proof.
  unfold containsJobState at 1, prior_states. intros H. apply existsb_exists in H as (s' & Hin & _).
  apply in_map_iff in Hin as ((s1 & ts) & _ & Hin). apply filter_In in Hin as [Hin Hc].
  assert (HF : Forall (fun '(_, ts) => Forall (fun t => t ∈ projectedJobStates) ts)
                 allowedTransitions) by (apply (bool_decide_unpack _); by vm_compute).
  rewrite Forall_forall in HF. specialize (HF _ (proj2 (list_elem_of_In _ _) Hin)). cbn in HF.
  unfold containsJobState in Hc. apply existsb_exists in Hc as (t' & Hin' & Heq).
  apply String.eqb_eq in Heq as ->. rewrite Forall_forall in HF. by apply HF, list_elem_of_In.
Qed.

Lemma run_op_known op h : known h -> known_op op -> known (run_op op h).1.
Proof.
  intros Hk Ho. destruct op; cbn [run_op known_op] in *.
  - intros s. cbn [fst]. rewrite migrate_state. destruct (h !! _) eqn:E; [intros [= <-]; by apply Hk|].
    unfold get_str. destruct (legacy !! "state") eqn:El; [|done]. cbn.
    case_match; [done|]. intros [= <-]. by apply Ho.
  - destruct (beginDispatchScript _ _ _ _) as [[h' n]|] eqn:E; [|done].
    intros s. cbn [fst]. erewrite begin_lookup; [apply Hk|done|]. set_solver.
  - destruct (accept_event_cases h f eventMessageID) as [->|[_ ->]]; [done|].
    intros s. cbn [int_reply fst]. rewrite lookup_insert_ne by done. apply Hk.
  - destruct (accept_signed_cases h f messageID digest) as [(n & -> & _)|[_ ->]]; [done|].
    intros s. cbn [int_reply fst]. rewrite lookup_insert_ne by done. apply Hk.
  - destruct (apply_cases h a) as [(n & -> & _)|(_ & _ & _ & ->)]; [done|].
    intros s. cbn [int_reply fst]. rewrite commit_state. by intros [= <-].
  - intros s. cbn [int_reply fst]. rewrite ack_lookup by done. apply Hk.
  - unfold rollbackDispatchScript. repeat case_match; [done|done|].
    intros s. cbn [int_reply fst]. rewrite clear_fence_lookup, lookup_insert_eq by set_solver.
    intros [= <-]. by apply (bool_decide_unpack _); vm_compute.
  - unfold cancelAllJobAttemptsScript. repeat case_match; simplify_eq; try done;
      intros s'; cbn [fst]; rewrite clear_fence_lookup, lookup_insert_eq by set_solver;
      intros [= <-]; by apply (bool_decide_unpack _); vm_compute.
  - unfold transitionRuntimeStateScript. repeat case_match; [done| |done|done].
    intros s'. cbn [int_reply fst]. rewrite lookup_insert_eq. intros [= <-].
    by eapply prior_states_projected.
Qed.

Lemma views_put op j st i :
  known_op op -> job_views st j -> job_views st i ->
  job_views (put_hash (jobRuntimeKey j) (run_op op (hash_at st (jobRuntimeKey j))).1 st) i.
Proof.
  intros Ho Hj. apply (runtime_views _ _ _ j); [done|]. apply run_op_known; [|done].
  intros s. apply (v_runtime _ _ Hj).
Qed.

Lemma views_migrate j st i :
  job_views st j -> job_views st i -> job_views (migrateRuntimeFence j st) i.
Proof.
  intros Hj Hi. rewrite migrate_put. apply views_put; [|done|done].
  intros s Hs. by apply (v_known _ _ Hj).
Qed.

Lemma views_migrated j op st i h r :
  known_op op -> job_views st j -> job_views st i ->
  run_op op (hash_at (migrateRuntimeFence j st) (jobRuntimeKey j)) = (h, r) ->
  job_views (put_hash (jobRuntimeKey j) h (migrateRuntimeFence j st)) i.
Proof.
  intros Ho Hj Hi E.
  replace h with (run_op op (hash_at (migrateRuntimeFence j st) (jobRuntimeKey j))).1 by by rewrite E.
  by apply views_put; [|apply views_migrate..].
Qed.

Definition views (st : jredis) : Prop := forall j, job_views st j.

Lemma views_legacy_step now j s st :
  views st ->
  views (match SetStateWithContext now j s st with inl e => (st, Some e) | inr st' => (st', None) end).1.
Proof.
  intros Hv i. destruct (SetStateWithContext now j s st) as [e|st'] eqn:E; cbn [fst]; [apply Hv|].
  destruct (SetStateWithContext_moved _ _ _ _ _ (Hv j) E) as [Hs Hm]. by eapply moved_views.
Qed.

Lemma views_SetState now j s st : views st -> views (SetState now j s st).1.
Proof.
  intros Hv. unfold SetState. destruct (_ || _); [done|].
  destruct (hash_exists _ _); cbn [negb]; [|by apply views_legacy_step].
  unfold transitionRuntimeState.
  assert (Hp : views (put_hash (jobRuntimeKey j)
     (run_op (OpTransition s) (hash_at st (jobRuntimeKey j))).1 st)).
  { intros i. by apply views_put. }
  cbn [run_op] in Hp. destruct (transitionRuntimeStateScript _ s) as [h r]. cbn [int_reply fst] in Hp.
  destruct (r =? 1)%Z; [|done]. destruct (_ =s? s); [done|]. by apply views_legacy_step.
Qed.

Lemma views_CancelAll j st st' s :
  views st -> CancelAllJobAttempts j st = Ok (st', s) -> views st' /\ s ∈ projectedJobStates.
Proof.
  intros Hv. unfold CancelAllJobAttempts. destruct (j =s? ""); [done|].
  destruct (cancelAllJobAttemptsScript _) as [h s'] eqn:E. intros [= <- <-]. split.
  - intros i. apply (views_migrated j OpCancel _ _ _ (RState s')); [done|apply Hv..|].
    cbn [run_op]. by rewrite E.
  - pose proof (v_runtime _ _ (views_migrate j st j (Hv j) (Hv j))) as Hk. revert E.
    unfold cancelAllJobAttemptsScript. destruct (_ !! _) as [s0|] eqn:E0.
    + specialize (Hk s0 eq_refl). case_bool_decide; intros [= _ <-]; [done|].
      by apply (bool_decide_unpack _); vm_compute.
    + intros [= _ <-]. by apply (bool_decide_unpack _); vm_compute.
Qed.

Lemma views_CancelJob now j st : views st -> views (settle st (CancelJob now j st)).
Proof.
  intros Hv. unfold CancelJob. destruct (j =s? ""); [done|]. destruct (hash_exists _ _).
  - destruct (CancelAllJobAttempts j st) as [e|[st1 s]] eqn:E; [done|].
    destruct (views_CancelAll _ _ _ _ Hv E) as [Hv1 Hs].
    destruct (ProjectJobResult _ _ _ _ _ _) as [e|st2] eqn:E2; [done|].
    intros i. eapply moved_views; [done| |apply Hv1]. by eapply ProjectJobResult_moved.
  - rewrite (v_key _ _ (Hv j)). fold (meta_state st j).
    destruct (meta_state st j) as [c|] eqn:E; [|done]. destruct (terminalStates c); [done|].
    intros i. eapply moved_views; [|by apply cancelLegacy_moved|apply Hv].
    by apply (bool_decide_unpack _); vm_compute.
Qed.

Lemma views_call c st : views st -> known_call c -> views (run_call c st).
Proof.
  intros Hv Hc. destruct c; cbn [run_call known_call] in *.
  - by apply views_SetState.
  - pose proof (views_legacy_step now jobID state st Hv).
    by destruct (SetStateWithContext now jobID state st).
  - by apply views_CancelJob.
  - destruct (ProjectJobResult _ _ _ _ _ _) eqn:E; [done|]. intros i.
    eapply moved_views; [done| |apply Hv]. by eapply ProjectJobResult_moved.
  - unfold BeginDispatch. destruct (_ || _); [done|]. destruct (GetState _ _); [|done].
    destruct (beginDispatchScript _ _ _ _) as [[h n]|] eqn:E; intros i.
    + apply (views_migrated jobID (OpBegin uuid workerID tenant) _ _ _ (RInt n)); [done|apply Hv..|].
      cbn [run_op]. by rewrite E.
    + by apply views_migrate.
  - unfold AcceptJobEvent. destruct (_ || _); [done|].
    destruct (acceptJobEventScript _ _ _) as [h r] eqn:E. intros i.
    apply (views_migrated jobID (OpAcceptEvent f eventMessageID) _ _ _ (RInt r)); [done|apply Hv..|].
    cbn [run_op]. by rewrite E.
  - unfold AcceptSignedJobEvent. destruct (_ || _); [done|].
    destruct (acceptSignedJobEventScript _ _ _ _) as [h r] eqn:E. intros i.
    apply (views_migrated jobID (OpAcceptSigned f messageID digest) _ _ _ (RInt r)); [done|apply Hv..|].
    cbn [run_op]. by rewrite E.
  - unfold ApplyJobResult. destruct (negb _); [done|].
    destruct (applyJobResultScript _ _) as [h r] eqn:E. intros i.
    apply (views_migrated (a_JobID a) (OpApply a) _ _ _ (RInt r)); [done|apply Hv..|].
    cbn [run_op]. by rewrite E.
  - unfold AckJobEffect. destruct (_ || _); [done|].
    assert (H := fun i => views_put (OpAck e) (e_JobID e) st i I (Hv _) (Hv i)). cbn [run_op] in H.
    by destruct (ackJobEffectScript _ _).
  - unfold RollbackDispatch. destruct (_ || _); [done|].
    assert (H := fun i => views_put (OpRollback dispatchID attempt) jobID st i I (Hv _) (Hv i)).
    cbn [run_op] in H. by destruct (rollbackDispatchScript _ _ _).
  - destruct (CancelAllJobAttempts jobID st) as [e|[st1 s]] eqn:E; [done|].
    by destruct (views_CancelAll _ _ _ _ Hv E).
Qed.

(** The query views never drift.  Starting from a store whose views agree
    (an empty one, for instance), after any sequence of calls on any jobs, each
    job's state key equals the state of its meta hash, the job is in exactly the
    index of that state, and, when its tenant is set, it is in the tenant's
    active set iff that state is not terminal. *)
Theorem query_views_agree calls st :
  views st -> Forall known_call calls ->
  views (foldl (fun st c => run_call c st) st calls).
Proof.
  revert st. induction calls as [|c calls IH]; intros st Hv Hc; [done|].
  apply Forall_cons in Hc as [H1 H2]. cbn [foldl]. by apply IH; [apply views_call|].
Qed.

(** ** Distributed locks

    A lock is a redis string with an expiry, in milliseconds. *)

Abbreviation locks := (gmap string (string * Z)).

Definition lock_holder (now : Z) (key : string) (l : locks) : option string :=
  match l !! key with
  | Some (token, expires) => if (now <? expires)%Z then Some token else None
  | None => None
  end.

Inductive LockError := ErrTokenRequired | ErrNotOwned | ErrKeyTokenRequired.

(** [""] is "not acquired". *)
Definition TryAcquireLock (now : Z) (uuid key : string) (ttl : Z) (l : locks) : locks * string :=
  let ttl := if (ttl <=? 0)%Z then 30000%Z else ttl in
  match lock_holder now key l with
  | Some _ => (l, "")
  | None => (<[key := (uuid, (now + ttl)%Z)]> l, uuid)
  end.

Definition owns (now : Z) (key token : string) (l : locks) : bool :=
  bool_decide (lock_holder now key l = Some token).

Definition ReleaseLock (now : Z) (key token : string) (l : locks) : locks * option LockError :=
  if key =s? "" then (l, None)
  else if token =s? "" then (l, Some ErrTokenRequired)
  else if owns now key token l then (delete key l, None)
  else (l, Some ErrNotOwned).

(** [PEXPIRE] with a non-positive timeout deletes the key. *)
Definition RenewLock (now : Z) (key token : string) (ttl : Z) (l : locks)
    : locks * option LockError :=
  if (key =s? "") || (token =s? "") then (l, Some ErrKeyTokenRequired)
  else if owns now key token l
  then (if (ttl <=? 0)%Z then delete key l else <[key := (token, (now + ttl)%Z)]> l, None)
  else (l, Some ErrNotOwned).

Inductive lock_op :=
| LAcquire (uuid key : string) (ttl : Z)
| LRelease (key token : string)
| LRenew (key token : string) (ttl : Z).

Definition lock_step (now : Z) (op : lock_op) (l : locks) : locks :=
  match op with
  | LAcquire u k ttl => (TryAcquireLock now u k ttl l).1
  | LRelease k t => (ReleaseLock now k t l).1
  | LRenew k t ttl => (RenewLock now k t ttl l).1
  end.

Definition lock_run (ops : list (Z * lock_op)) (l : locks) : locks :=
  foldl (fun l '(now, op) => lock_step now op l) l ops.

(** Other parties do not know the holder's token. *)
Definition foreign (key token : string) (op : lock_op) : Prop :=
  match op with
  | LAcquire _ _ _ => True
  | LRelease k t | LRenew k t _ => k = key -> t <> token
  end.

Lemma foreign_keeps now key token expires op l :
  (now < expires)%Z -> foreign key token op -> l !! key = Some (token, expires) ->
  lock_step now op l !! key = Some (token, expires).
Proof.
  intros Hn Hf Hl.
  assert (Hh : lock_holder now key l = Some token).
  { unfold lock_holder. rewrite Hl. by rewrite (proj2 (Z.ltb_lt _ _)). }
  destruct op as [u k ttl|k t|k t ttl]; cbn [lock_step foreign] in *.
  - unfold TryAcquireLock. destruct (decide (k = key)) as [->|Hne]; [by rewrite Hh|].
    destruct (lock_holder now k l); [done|]. cbn [fst]. by rewrite lookup_insert_ne.
  - unfold ReleaseLock, owns. repeat case_match; cbn [fst]; try done.
    destruct (decide (k = key)) as [->|Hne]; [|by rewrite lookup_delete_ne].
    rewrite bool_decide_eq_true in *. exfalso. apply Hf; [done|congruence].
  - unfold RenewLock, owns. destruct (_ || _); [done|]. case_bool_decide as Ho; [|done].
    assert (k <> key) by (intros ->; apply Hf; [done|congruence]).
    cbn [fst]. case_match; [by rewrite lookup_delete_ne|by rewrite lookup_insert_ne].
Qed.

Lemma foreign_keeps_run key token expires ops l :
  Forall (fun '(t, op) => (t < expires)%Z /\ foreign key token op) ops ->
  l !! key = Some (token, expires) -> lock_run ops l !! key = Some (token, expires).
Proof.
  unfold lock_run. revert l. induction ops as [|[t op] ops IH]; intros l Hops Hl; [done|].
  apply Forall_cons in Hops as [[Hlt Hf] Hops]. cbn [foldl].
  apply IH; [done|]. by apply foreign_keeps.
Qed.

(** A lock has one holder.  Once a caller has acquired a lock, then until the
    TTL it asked for has passed, and as long as nobody else uses its token,
    whatever other callers do the lock stays its own: no other acquisition
    succeeds and its own renewals and release do. *)
Theorem lock_exclusive now key token ttl l l1 ops later :
  token <> "" -> (0 < ttl)%Z -> TryAcquireLock now token key ttl l = (l1, token) ->
  Forall (fun '(t, op) => (t < now + ttl)%Z /\ foreign key token op) ops ->
  (later < now + ttl)%Z ->
  let l2 := lock_run ops l1 in
  lock_holder later key l2 = Some token /\
  (forall u ttl', TryAcquireLock later u key ttl' l2 = (l2, "")) /\
  (key <> "" -> (ReleaseLock later key token l2).2 = None /\
     forall ttl', (RenewLock later key token ttl' l2).2 = None).
Proof.
  intros Ht Httl Ha Hops Hlater l2.
  assert (H1 : l1 !! key = Some (token, (now + ttl)%Z)).
  { revert Ha. unfold TryAcquireLock. rewrite (proj2 (Z.leb_gt _ _)) by lia.
    destruct (lock_holder now key l); [congruence|]. intros [= <-]. apply lookup_insert_eq. }
  assert (H2 : l2 !! key = Some (token, (now + ttl)%Z)).
  { by apply foreign_keeps_run. }
  assert (Hh : lock_holder later key l2 = Some token).
  { unfold lock_holder. rewrite H2. by rewrite (proj2 (Z.ltb_lt _ _)). }
  split; [done|]. split.
  - intros u ttl'. unfold TryAcquireLock. by rewrite Hh.
  - intros Hk. unfold ReleaseLock, RenewLock, owns. rewrite (eqb_ne key ""), (eqb_ne token "") by done.
    cbn [orb]. by rewrite bool_decide_eq_true_2.
Qed.

(** ** Concrete runs *)

Definition ex_store : jredis := mkJRedis ∅ ∅ ∅ ∅ ∅.

Lemma ex_store_views : views ex_store.
Proof.
  intros j. constructor; unfold meta_state, meta_tenant, hash_at, get_str, ex_store; cbn [hashes strs].
  - intros s. rewrite lookup_empty. cbn. by rewrite lookup_empty.
  - intros s. rewrite lookup_empty. cbn. by rewrite lookup_empty.
  - by rewrite !lookup_empty.
  - intros s _. unfold in_zset, zset_at. cbn [zsets]. rewrite !lookup_empty. cbn.
    rewrite dom_empty_L, lookup_empty. split; [set_solver|done].
  - rewrite lookup_empty. cbn. by rewrite lookup_empty.
Qed.

(** Submitted, dispatched, finished by its worker and projected; another job cancelled. *)
Definition ex_calls : list store_call :=
  [ CallSetState 1 "job-1" JobStatePending; CallSetState 2 "job-1" JobStateScheduled;
    CallBegin "d-1" "job-1" "worker-a" "acme"; CallSetState 3 "job-1" JobStateDispatched;
    CallApply (ex_result JobStateSucceeded);
    CallProject 4 "job-1" JobStateSucceeded "ptr-1" "worker-a";
    CallSetState 5 "job-2" JobStatePending; CallCancelJob 6 "job-2" ].

Example ex_calls_run :
  let st := foldl (fun st c => run_call c st) ex_store ex_calls in
  GetState "job-1" st = Some JobStateSucceeded /\ GetState "job-2" st = Some JobStateCancelled.
Proof. by vm_compute. Qed.

Lemma query_views_agree_witness : views (foldl (fun st c => run_call c st) ex_store ex_calls).
Proof.
  apply query_views_agree; [apply ex_store_views|].
  repeat constructor; (apply (bool_decide_unpack _); vm_compute; exact I).
Defined.

Lemma lock_exclusive_witness :
  let l2 := lock_run [(10%Z, LRelease "lock" "other"); (20%Z, LAcquire "b" "lock" 5)]
              (TryAcquireLock 0 "a" "lock" 100 ∅).1 in
  lock_holder 99 "lock" l2 = Some "a" /\
  (forall u ttl', TryAcquireLock 99 u "lock" ttl' l2 = (l2, "")) /\
  ("lock" <> "" -> (ReleaseLock 99 "lock" "a" l2).2 = None /\
     forall ttl', (RenewLock 99 "lock" "a" ttl' l2).2 = None).
Proof.
  apply (lock_exclusive 0 "lock" "a" 100 ∅ _ _ 99).
  - discriminate.
  - lia.
  - vm_compute. reflexivity.
  - repeat constructor; try lia. discriminate.
  - lia.
Defined.
