(* ===== verification/GoValues.v ===== *)
(** * Dynamic values of Go

    What the workflow engine does with values of type [any]: maps with string
    keys ([amap], a Go [map[string]any]), type assertions, conversion to
    [float64], [fmt.Sprint], truth of an expression result, and the change of
    representation when a document is written to redis as JSON and read back.

    An [amap] is an association list without duplicate keys; the operations keep
    it so, and theorems speak of it through [aget] only.  Instants and durations
    are [Z] in nanoseconds. *)
From S2P Require Import Prelude.
From S2P Require Import GoStrings.
From S2P Require Import PolicyTypes.
From Stdlib Require Import Ascii.

Open Scope string_scope.

(** ** Maps with string keys *)

Definition amap : Type := list (string * any).

Fixpoint aget {V} (m : list (string * V)) (k : string) : option V :=
  match m with
  | [] => None
  | (k', v) :: m => if k' =s? k then Some v else aget m k
  end.

Fixpoint aset {V} (m : list (string * V)) (k : string) (v : V) : list (string * V) :=
  match m with
  | [] => [(k, v)]
  | (k', v') :: m => if k' =s? k then (k, v) :: m else (k', v') :: aset m k v
  end.

Fixpoint adel {V} (m : list (string * V)) (k : string) : list (string * V) :=
  match m with
  | [] => []
  | (k', v') :: m => if k' =s? k then adel m k else (k', v') :: adel m k
  end.

Lemma aget_aset_eq {V} (m : list (string * V)) k v : aget (aset m k v) k = Some v.
Proof.
  induction m as [|[k' v'] m IH]; simpl; [by rewrite String.eqb_refl|].
  destruct (k' =s? k) eqn:E; simpl; [by rewrite String.eqb_refl|by rewrite E].
Qed.

Lemma aget_aset_ne {V} (m : list (string * V)) k k' v : k <> k' -> aget (aset m k v) k' = aget m k'.
Proof.
  intros Hne. induction m as [|[k0 v0] m IH]; simpl; [by rewrite eqb_ne|].
  destruct (k0 =s? k) eqn:E; simpl.
  - apply String.eqb_eq in E as ->. by rewrite eqb_ne.
  - by rewrite IH.
Qed.

Lemma aget_adel_eq {V} (m : list (string * V)) k : aget (adel m k) k = None.
Proof. induction m as [|[k' v'] m IH]; simpl; [done|]. destruct (k' =s? k) eqn:E; simpl; [done|by rewrite E]. Qed.

Lemma aget_adel_ne {V} (m : list (string * V)) k k' : k <> k' -> aget (adel m k) k' = aget m k'.
Proof.
  intros Hne. induction m as [|[k0 v0] m IH]; simpl; [done|].
  destruct (k0 =s? k) eqn:E; simpl; [|by rewrite IH].
  apply String.eqb_eq in E as ->. by rewrite IH, eqb_ne.
Qed.

#[export] Hint Rewrite @aget_aset_eq @aget_adel_eq : cordum_rw.

(** The entries of a map in the order the runtime ranges over them. *)
Definition range_amap `{GoRuntime} {V} (m : list (string * V)) : list (string * V) :=
  range_map (list_to_map m : gmap string V).

(** [v.(string)], [v.(map[string]any)]. *)
Definition as_string (v : any) : option string := match v with AnyString s => Some s | _ => None end.
Definition as_map (v : any) : option amap := match v with AnyMap m => Some m | _ => None end.

(** [s, _ := m[k].(string)]: the zero value unless the entry is a string. *)
Definition aget_string (m : amap) (k : string) : string :=
  match aget m k with Some (AnyString s) => s | _ => "" end.

Definition is_nil (v : any) : bool := match v with AnyNil => true | _ => false end.

(** ** Numbers *)

Definition int64_to_float (z : Z) : spec_float := binary_normalize 53 1024 z 0 false.

(** [float64(f)] of a [float32]. *)
Definition float32_to_64 (f : spec_float) : spec_float :=
  match f with
  | S754_finite s m e => binary_normalize 53 1024 (if s then Z.neg m else Z.pos m) e s
  | _ => f
  end.

Definition float_zero : spec_float := S754_zero false.
Definition float_one : spec_float := int64_to_float 1.

(** [math.Mod(v, 1) == 0] for a float: whether it is a whole number. *)
Definition float_integral (f : spec_float) : bool :=
  match f with
  | S754_zero _ => true
  | S754_finite _ m e =>
      if (0 <=? e)%Z then true else (Z.pos m mod 2 ^ (- e) =? 0)%Z
  | _ => false
  end.

(** [int64(f)]: truncation; out of range values give the minimum, as on amd64. *)
Definition float_to_int64 (f : spec_float) : Z :=
  match f with
  | S754_zero _ => 0
  | S754_finite s m e =>
      let mag := (if (0 <=? e)%Z then Z.pos m * 2 ^ e else Z.pos m / 2 ^ (- e))%Z in
      let z := (if s then - mag else mag)%Z in
      if ((int64_min <=? z) && (z <=? int64_max))%Z then z else int64_min
  | _ => int64_min
  end.

(** Wrap-around of 64-bit signed arithmetic. *)
Definition wrap64 (z : Z) : Z := ((z + 2 ^ 63) mod 2 ^ 64 - 2 ^ 63)%Z.

Lemma wrap64_id z : (int64_min <= z <= int64_max)%Z -> wrap64 z = z.
Proof. unfold wrap64, int64_min, int64_max. intros. rewrite Z.mod_small; lia. Qed.

(** ** Printing

    [strconv.FormatFloat(f, 'g', -1, 64)], the shortest decimal that reads back
    as [f]: every result holds for any such function. *)
Class FloatPrinter := FormatFloat : spec_float -> string.

Fixpoint insert_key {V} (kv : string * V) (l : list (string * V)) : list (string * V) :=
  match l with
  | [] => [kv]
  | kv' :: l' => if String.leb (fst kv) (fst kv') then kv :: l else kv' :: insert_key kv l'
  end.

Definition sort_keys {V} (l : list (string * V)) : list (string * V) := foldr insert_key [] l.

Lemma insert_key_perm {V} (kv : string * V) l : insert_key kv l ≡ₚ kv :: l.
Proof.
  induction l as [|kv' l IH]; [done|]. cbn. destruct (String.leb _ _); [done|]. rewrite IH. apply Permutation_swap.
Qed.

Lemma sort_keys_perm {V} (l : list (string * V)) : sort_keys l ≡ₚ l.
Proof. unfold sort_keys. induction l as [|kv l IH]; [done|]. cbn [foldr]. by rewrite insert_key_perm, IH. Qed.

Section Printing.
Context `{FloatPrinter}.

(** [fmt.Sprint(v)]; maps print with sorted keys. *)
Fixpoint Sprint (v : any) : string :=
  match v with
  | AnyNil => "<nil>"
  | AnyBool b => if b then "true" else "false"
  | AnyInt z | AnyInt32 z | AnyInt64 z | AnyIntK _ z => Itoa z
  | AnyFloat32 f | AnyFloat64 f => FormatFloat f
  | AnyNumber s | AnyString s => s
  | AnyList l => "[" +:+ Join (map Sprint l) " " +:+ "]"
  | AnyStrings l => "[" +:+ Join l " " +:+ "]"
  | AnyInts l => "[" +:+ Join (map Itoa l) " " +:+ "]"
  | AnyMap m =>
      "map[" +:+ Join (map (fun '(k, s) => k +:+ ":" +:+ s)
                         (sort_keys (map (fun kv => (fst kv, Sprint (snd kv))) m))) " " +:+ "]"
  | AnyStringMap m => "map[" +:+ Join (map (fun '(k, s) => k +:+ ":" +:+ s) (sort_keys m)) " " +:+ "]"
  end.

End Printing.

(** ** Truth of an expression result: [truthy] of eval.go *)
Definition truthy (v : any) : bool :=
  match v with
  | AnyNil => false
  | AnyBool b => b
  | AnyString s => negb (s =s? "")
  | AnyFloat64 f | AnyFloat32 f => negb (SFeqb f float_zero)
  | AnyInt z | AnyInt64 z | AnyIntK K_uint z | AnyIntK K_uint64 z => negb (z =? 0)%Z
  | _ => true
  end.

(** ** The value after a JSON round trip

    Marshalling to redis and reading back: every number becomes a [float64],
    every slice a [[]any], every map a [map[string]any]. *)
Section Json.
Context `{FloatParser}.

Fixpoint json_any (v : any) : any :=
  match v with
  | AnyInt z | AnyInt32 z | AnyInt64 z | AnyIntK _ z => AnyFloat64 (int64_to_float z)
  | AnyFloat32 f => AnyFloat64 (float32_to_64 f)
  | AnyNumber s => match ParseFloat s with Some f => AnyFloat64 f | None => AnyNil end
  | AnyList l => AnyList (map json_any l)
  | AnyStrings l => AnyList (map AnyString l)
  | AnyInts l => AnyList (map (fun z => AnyFloat64 (int64_to_float z)) l)
  | AnyMap m => AnyMap (map (fun kv => (fst kv, json_any (snd kv))) m)
  | AnyStringMap m => AnyMap (map (fun kv => (fst kv, AnyString (snd kv))) m)
  | _ => v
  end.

Definition json_amap (m : amap) : amap := map (fun kv => (fst kv, json_any (snd kv))) m.

Lemma aget_json_amap m k : aget (json_amap m) k = json_any <$> aget m k.
Proof. induction m as [|[k' v] m IH]; simpl; [done|]. by destruct (k' =s? k). Qed.

End Json.
