(* ===== verification/AuditChain.v ===== *)
(** * The audit chain

    core/audit/chain.go and chain_verify.go: every audit event of a tenant is
    appended to a redis stream, linked to its predecessor by the SHA-256 of its
    canonical JSON, under a head pointer that a Lua script advances by
    compare-and-set; a verifier walks the stream and reports whether it is intact.

    Redis is a map from keys to strings and streams.  Other writers act between
    the read of the head and the script of an attempt; what they do is a list of
    attempts of their own.  A time stamp is the text [time.Time] marshals to.
    Decoding JSON is the parameter [unmarshal] of the verifier. *)
From Stdlib Require Import Ascii.
From S2P Require Import Prelude.
From S2P Require Import GoStrings.
From S2P Require Import GoSha256.
From S2P Require Import GoJson.
From S2P Require Import GoValues.

Open Scope string_scope.

(** ** Events *)

Record SIEMEvent := mkSIEMEvent {
  se_Timestamp : string;
  se_EventType : string;
  se_Severity : string;
  se_TenantID : string;
  se_AgentID : string;
  se_AgentName : string;
  se_AgentRiskTier : string;
  se_JobID : string;
  se_Action : string;
  se_Decision : string;
  se_MatchedRule : string;
  se_Reason : string;
  se_RiskTags : list string;
  se_Capabilities : list string;
  se_PolicyVersion : string;
  se_Identity : string;
  se_Extra : gmap string string;
  se_Seq : Z;
  se_EventHash : string;
  se_PrevHash : string;
  se_HMAC : string;
}.

(** The event with its chain fields replaced. *)
Definition set_chain (seq : Z) (eventHash prevHash hmac : string) (e : SIEMEvent) : SIEMEvent :=
  mkSIEMEvent (se_Timestamp e) (se_EventType e) (se_Severity e) (se_TenantID e) (se_AgentID e) (se_AgentName e)
    (se_AgentRiskTier e) (se_JobID e) (se_Action e) (se_Decision e) (se_MatchedRule e) (se_Reason e) (se_RiskTags e)
    (se_Capabilities e) (se_PolicyVersion e) (se_Identity e) (se_Extra e) seq eventHash prevHash hmac.

(** The members of the JSON object; the flag is [omitempty]. *)
Definition event_members (e : SIEMEvent) : list (string * bool * json) :=
  [("timestamp", false, JString (se_Timestamp e)); ("event_type", false, JString (se_EventType e));
   ("severity", false, JString (se_Severity e)); ("tenant_id", false, JString (se_TenantID e));
   ("agent_id", true, JString (se_AgentID e)); ("agent_name", true, JString (se_AgentName e));
   ("agent_risk_tier", true, JString (se_AgentRiskTier e)); ("job_id", true, JString (se_JobID e));
   ("action", false, JString (se_Action e)); ("decision", true, JString (se_Decision e));
   ("matched_rule", true, JString (se_MatchedRule e)); ("reason", true, JString (se_Reason e));
   ("risk_tags", true, JStrings (se_RiskTags e)); ("capabilities", true, JStrings (se_Capabilities e));
   ("policy_version", true, JString (se_PolicyVersion e)); ("identity", true, JString (se_Identity e));
   ("extra", true, JStringMap (sort_keys (map_to_list (se_Extra e)))); ("seq", true, JInt (se_Seq e));
   ("event_hash", true, JString (se_EventHash e)); ("prev_hash", true, JString (se_PrevHash e));
   ("hmac", true, JString (se_HMAC e))].

(** [json.Marshal(event)]. *)
Definition marshal (e : SIEMEvent) : string := render_object (event_members e).

(** The clone both hashes are computed over. *)
Definition cleared (e : SIEMEvent) : SIEMEvent := set_chain 0 "" (se_PrevHash e) "" e.

Definition computeEventHash (e : SIEMEvent) : string := sha256_hex (marshal (cleared e)).

Definition computeEventHMAC (e : SIEMEvent) (key : string) : string := hmac_sha256_hex key (marshal (cleared e)).

Definition VerifyEventHash (e : SIEMEvent) : bool := se_EventHash e =s? computeEventHash e.

Definition VerifyEventHMAC (e : SIEMEvent) (key : string) : bool :=
  (se_HMAC e =s? "") || (key =s? "") || (se_HMAC e =s? computeEventHMAC e key).

(** ** Redis *)

Record entry := mkEntry { en_ID : Z * Z; en_Seq : string; en_Event : option string }.

Inductive rvalue : Type :=
| RString (s : string)
| RStream (es : list entry).

Abbreviation redis := (gmap string rvalue).

Definition wrong_type : string := "WRONGTYPE Operation against a key holding the wrong kind of value".

(** [GET]: [None] is [redis.Nil]. *)
Definition rget (k : string) (r : redis) : result string (option string) :=
  match r !! k with
  | None => Ok None
  | Some (RString s) => Ok (Some s)
  | Some (RStream _) => Err wrong_type
  end.

Definition rstream (k : string) (r : redis) : result string (list entry) :=
  match r !! k with
  | None => Ok []
  | Some (RStream es) => Ok es
  | Some (RString _) => Err wrong_type
  end.

(** The id [XADD key *] takes at a time in milliseconds. *)
Definition next_id (now : Z) (es : list entry) : Z * Z :=
  match last es with
  | None => (now, 0%Z)
  | Some e => if (fst (en_ID e) <? now)%Z then (now, 0%Z) else (fst (en_ID e), (snd (en_ID e) + 1)%Z)
  end.

(** ** Appending *)

Definition ChainKeyPrefix : string := "audit:chain:".

Definition chainMaxCASRetries : nat := 1024.

Definition chainHashHexLen : nat := 64.

Definition StreamKey (prefix tenant : string) : string := prefix +:+ tenant.

Definition HeadKey (prefix tenant : string) : string := prefix +:+ "head:" +:+ tenant.

(** Committed or missed. *)
Definition chainAppendScript (now : Z) (headKey streamKey expected newSeq newHash doc : string) (r : redis) : result string (redis * bool) :=
  match rget headKey r with
  | Err e => Err e
  | Ok head =>
      if negb (default "" head =s? expected) then Ok (r, false)
      else match rstream streamKey r with
           | Err e => Err e
           | Ok es =>
               if (expected =s? "") && nonempty es then Ok (r, false)
               else
                 let r := <[streamKey := RStream (es ++ [mkEntry (next_id now es) newSeq (Some doc)])]> r in
                 Ok (<[headKey := RString (newSeq +:+ ":" +:+ newHash)]> r, true)
           end
  end.

Definition parseChainHead (raw : string) : result string (Z * string) :=
  if raw =s? "" then Ok (0%Z, "")
  else match cut_first ":" raw with
       | None => Err ("head missing separator: " +:+ Quote raw)
       | Some (seq, hash) =>
           match Atoi seq with
           | None => Err "parse seq"
           | Some n =>
               if (n <? 0)%Z then Err ("negative seq: " +:+ Itoa n)
               else if negb (hash =s? "") && negb (String.length hash =? chainHashHexLen)%nat
               then Err ("hash wrong length: got " +:+ Itoa (Z.of_nat (String.length hash)) +:+ " want 64")
               else Ok (n, hash)
           end
       end.

(** The event linked to the head that was read. *)
Definition link_event (key rawHead : string) (event : SIEMEvent) : result string SIEMEvent :=
  match parseChainHead rawHead with
  | Err e => Err ("audit chain: parse head: " +:+ e)
  | Ok (headSeq, headHash) =>
      let event := set_chain (wrap64 (headSeq + 1)) (se_EventHash event) headHash (se_HMAC event) event in
      let event := set_chain (se_Seq event) (computeEventHash event) headHash (se_HMAC event) event in
      Ok (if key =s? "" then event
          else set_chain (se_Seq event) (se_EventHash event) headHash (computeEventHMAC event key) event)
  end.

(** The script of an attempt, with the head that was read before. *)
Definition run_script (now : Z) (prefix rawHead : string) (event : SIEMEvent) (r : redis) : result string (redis * bool) :=
  chainAppendScript now (HeadKey prefix (se_TenantID event)) (StreamKey prefix (se_TenantID event)) rawHead
    (Itoa (se_Seq event)) (se_EventHash event) (marshal event) r.

(** An attempt of some writer, whatever head it works with. *)
Record attempt := mkAttempt { at_Key : string; at_Event : SIEMEvent; at_Head : string; at_Now : Z }.

Definition run_attempt (prefix : string) (r : redis) (a : attempt) : redis :=
  if se_TenantID (at_Event a) =s? "" then r
  else match link_event (at_Key a) (at_Head a) (at_Event a) with
       | Err _ => r
       | Ok event => match run_script (at_Now a) prefix (at_Head a) event r with Ok (r, _) => r | Err _ => r end
       end.

Definition run_attempts (prefix : string) (r : redis) (l : list attempt) : redis := foldl (run_attempt prefix) r l.

Record Chainer := mkChainer {
  ch_prefix : string;
  ch_hmacKey : string;
  ch_cache : option (string * string);
}.

Definition set_cache (v : option (string * string)) (c : Chainer) : Chainer := mkChainer (ch_prefix c) (ch_hmacKey c) v.

Definition cachedHead (c : Chainer) (tenant : string) : option string :=
  match ch_cache c with
  | Some (t, raw) => if t =s? tenant then Some raw else None
  | None => None
  end.

Definition storeCachedHead (tenant rawHead : string) (c : Chainer) : Chainer := set_cache (Some (tenant, rawHead)) c.

Definition invalidateCachedHead (tenant rawHead : string) (c : Chainer) : Chainer :=
  match ch_cache c with
  | Some (t, raw) => if (t =s? tenant) && (raw =s? rawHead) then set_cache None c else c
  | None => c
  end.

(** What the services do during the attempts of a call: the errors of the
    context, of the read, of the script (with whether it ran although its reply
    was lost) and of the pause, the clock, and the attempts of the other writers
    between the read and the script. *)
Record append_env := mkAppendEnv {
  ae_ctx : nat -> option string;
  ae_get : nat -> option string;
  ae_script : nat -> option (string * bool);
  ae_sleep : nat -> option string;
  ae_now : nat -> Z;
  ae_others : nat -> list attempt;
}.

Definition ErrTenantRequired : string := "audit chain: event TenantID is required".
Definition ErrCASExhausted : string := "audit chain: CAS retry budget exhausted".

(** The head from the cache, else from redis. *)
Definition read_head (env : append_env) (i : nat) (c : Chainer) (tenant : string) (r : redis) : result string string :=
  match cachedHead c tenant with
  | Some raw => Ok raw
  | None =>
      match ae_get env i with
      | Some e => Err ("audit chain: read head: " +:+ e)
      | None => match rget (HeadKey (ch_prefix c) tenant) r with
                | Err e => Err ("audit chain: read head: " +:+ e)
                | Ok head => Ok (default "" head)
                end
      end
  end.

Fixpoint append_loop (env : append_env) (n i : nat) (c : Chainer) (event : SIEMEvent) (r : redis) :
    option string * SIEMEvent * Chainer * redis :=
  match n with
  | O => (Some ErrCASExhausted, event, c, r)
  | S n =>
      match ae_ctx env i with
      | Some e => (Some e, event, c, r)
      | None =>
          match read_head env i c (se_TenantID event) r with
          | Err e => (Some e, event, c, r)
          | Ok rawHead =>
              match link_event (ch_hmacKey c) rawHead event with
              | Err e => (Some e, event, c, r)
              | Ok event =>
                  let r := run_attempts (ch_prefix c) r (ae_others env i) in
                  let ran := run_script (ae_now env i) (ch_prefix c) rawHead event r in
                  match ae_script env i, ran with
                  | Some (e, lost), _ =>
                      (Some ("audit chain: script run: " +:+ e), event, c,
                       match lost, ran with true, Ok (r, _) => r | _, _ => r end)
                  | None, Err e => (Some ("audit chain: script run: " +:+ e), event, c, r)
                  | None, Ok (r, true) =>
                      (None, event, storeCachedHead (se_TenantID event) (Itoa (se_Seq event) +:+ ":" +:+ se_EventHash event) c, r)
                  | None, Ok (r, false) =>
                      let c := invalidateCachedHead (se_TenantID event) rawHead c in
                      let event := set_chain 0 "" "" "" event in
                      match ae_sleep env i with
                      | Some e => (Some e, event, c, r)
                      | None => append_loop env n (S i) c event r
                      end
                  end
              end
          end
      end
  end.

Definition Append (env : append_env) (c : Chainer) (event : SIEMEvent) (r : redis) : option string * SIEMEvent * Chainer * redis :=
  if se_TenantID event =s? "" then (Some ErrTenantRequired, event, c, r)
  else append_loop env chainMaxCASRetries 0 c event r.

(** The pause after attempt [i], in nanoseconds; [draw n] is [rand.Int64N(n)]. *)
Definition chainCASBackoffMin : Z := 50000.
Definition chainCASBackoffMax : Z := 4000000.

Definition cas_base (i : nat) : Z :=
  let base := if (64 <=? i)%nat then 0%Z else wrap64 (Z.shiftl chainCASBackoffMin (Z.of_nat i)) in
  if (base <=? 0)%Z || (chainCASBackoffMax <? base)%Z then chainCASBackoffMax else base.

Definition sleepCASBackoff (i : nat) (draw : Z -> Z) : Z :=
  Z.min chainCASBackoffMax (draw (cas_base i) + chainCASBackoffMin).

(** ** Verifying *)

Inductive VerifyStatus : Set := VerifyStatusOK | VerifyStatusCompromised | VerifyStatusPartial.

Inductive VerifyGapType : Set :=
| GapTypeMissing | GapTypeOutOfOrder | GapTypeHashMismatch | GapTypeRetentionTrimmed | GapTypeHMACMismatch.

#[export] Instance VerifyStatus_eq_dec : EqDecision VerifyStatus.
Proof. solve_decision. Defined.

Record VerifyGap := mkVerifyGap { vg_AtSeq : Z; vg_Type : VerifyGapType }.

(** The report; [RetentionWindowHours] is filled in by the callers. *)
Record VerifyResult := mkVerifyResult {
  vr_Status : VerifyStatus;
  vr_TotalEvents : Z;
  vr_VerifiedEvents : Z;
  vr_Gaps : list VerifyGap;
  vr_RetentionBoundarySeq : Z;
  vr_FirstSeq : Z;
  vr_LastSeq : Z;
  vr_HMACVerified : Z;
  vr_HMACSkipped : Z;
  vr_HMACSeen : bool;
}.

Record VerifyOptions := mkVerifyOptions {
  vo_SinceMs : Z;
  vo_UntilMs : Z;
  vo_Limit : Z;
  vo_RetentionBoundarySeq : Z;
  vo_HMACKey : string;
}.

Definition DefaultVerifyLimit : Z := 10000.
Definition MaxVerifyLimit : Z := 100000.
Definition maxRetentionTrimmedGaps : Z := 1000.

Definition verify_limit (opts : VerifyOptions) : nat :=
  let limit := if (vo_Limit opts <=? 0)%Z then DefaultVerifyLimit else vo_Limit opts in
  Z.to_nat (Z.min limit MaxVerifyLimit).

(** The bounds [SinceMs-0] and [UntilMs-18446744073709551615] of the range. *)
Definition in_window (opts : VerifyOptions) (e : entry) : bool :=
  ((vo_SinceMs opts <=? 0) || (vo_SinceMs opts <=? fst (en_ID e)))%Z
  && ((vo_UntilMs opts <=? 0) || (fst (en_ID e) <=? vo_UntilMs opts))%Z.

(** [xRevBefore] on the two numbers of an id; [None] is ["+"]. *)
Definition xRevBefore (id : Z * Z) : option (Z * Z) :=
  let '(ms, seq) := id in
  if (int64_max <? ms)%Z || (int64_max <? seq)%Z then None
  else if (0 <? seq)%Z then Some (ms, (seq - 1)%Z)
  else if (0 <? ms)%Z then Some ((ms - 1)%Z, (2 ^ 64 - 1)%Z)
  else None.

Definition id_le (a b : Z * Z) : bool := ((fst a <? fst b) || ((fst a =? fst b) && (snd a <=? snd b)))%Z.

(** [XREVRANGE stream bound - COUNT 1]. *)
Definition rev_first (bound : option (Z * Z)) (es : list entry) : option entry :=
  last (List.filter (fun e => match bound with None => true | Some b => id_le (en_ID e) b end) es).

Definition gap (seq : Z) (ty : VerifyGapType) (v : VerifyResult) : VerifyResult :=
  mkVerifyResult (vr_Status v) (vr_TotalEvents v) (vr_VerifiedEvents v) (vr_Gaps v ++ [mkVerifyGap seq ty])
    (vr_RetentionBoundarySeq v) (vr_FirstSeq v) (vr_LastSeq v) (vr_HMACVerified v) (vr_HMACSkipped v) (vr_HMACSeen v).

Definition set_status (s : VerifyStatus) (v : VerifyResult) : VerifyResult :=
  mkVerifyResult s (vr_TotalEvents v) (vr_VerifiedEvents v) (vr_Gaps v) (vr_RetentionBoundarySeq v) (vr_FirstSeq v)
    (vr_LastSeq v) (vr_HMACVerified v) (vr_HMACSkipped v) (vr_HMACSeen v).

Definition compromised (seq : Z) (ty : VerifyGapType) (v : VerifyResult) : VerifyResult :=
  gap seq ty (set_status VerifyStatusCompromised v).

(** Gaps of one kind at the sequence numbers from [first], [n] of them. *)
Definition gaps_from (first : Z) (n : nat) (ty : VerifyGapType) (v : VerifyResult) : VerifyResult :=
  foldl (fun v i => gap i ty v) v (seqZ first (Z.of_nat n)).

Definition count_event (first : bool) (seq : Z) (v : VerifyResult) : VerifyResult :=
  mkVerifyResult (vr_Status v) (vr_TotalEvents v + 1) (vr_VerifiedEvents v) (vr_Gaps v) (vr_RetentionBoundarySeq v)
    (if first then seq else vr_FirstSeq v) seq (vr_HMACVerified v) (vr_HMACSkipped v) (vr_HMACSeen v).

Definition count_verified (v : VerifyResult) : VerifyResult :=
  mkVerifyResult (vr_Status v) (vr_TotalEvents v) (vr_VerifiedEvents v + 1) (vr_Gaps v) (vr_RetentionBoundarySeq v)
    (vr_FirstSeq v) (vr_LastSeq v) (vr_HMACVerified v) (vr_HMACSkipped v) (vr_HMACSeen v).

Definition count_hmac (verified skipped : Z) (seen : bool) (v : VerifyResult) : VerifyResult :=
  mkVerifyResult (vr_Status v) (vr_TotalEvents v) (vr_VerifiedEvents v) (vr_Gaps v) (vr_RetentionBoundarySeq v)
    (vr_FirstSeq v) (vr_LastSeq v) (vr_HMACVerified v + verified) (vr_HMACSkipped v + skipped) (vr_HMACSeen v || seen).

Section Verify.
Context (unmarshal : string -> option SIEMEvent).

Definition stored_event (e : entry) : option SIEMEvent := en_Event e ≫= unmarshal.

(** The state of the walk: the hash and number of the previous event, if there is
    one ([prevSeq] is zero before), and the report so far. *)
Record walk := mkWalk { wk_prev : option (string * Z); wk_result : VerifyResult }.

Definition prev_seq (w : walk) : Z := match wk_prev w with Some (_, n) => n | None => 0%Z end.

(** The numbers between the previous event and this one. *)
Definition check_order (prev : option (string * Z)) (seq : Z) (v : VerifyResult) : VerifyResult :=
  match prev with
  | None => v
  | Some (_, prevSeq) =>
      if (seq <? prevSeq)%Z then compromised seq GapTypeOutOfOrder v
      else if (wrap64 (prevSeq + 1) <? seq)%Z
      then gaps_from (wrap64 (prevSeq + 1)) (Z.to_nat (seq - wrap64 (prevSeq + 1))) GapTypeMissing (set_status VerifyStatusCompromised v)
      else v
  end.

Definition check_hash (prev : option (string * Z)) (ev : SIEMEvent) (v : VerifyResult) : VerifyResult :=
  if negb (VerifyEventHash ev) then compromised (se_Seq ev) GapTypeHashMismatch v
  else match prev with
       | Some (prevHash, _) => if se_PrevHash ev =s? prevHash then count_verified v else compromised (se_Seq ev) GapTypeHashMismatch v
       | None => count_verified v
       end.

Definition check_hmac (key : string) (ev : SIEMEvent) (v : VerifyResult) : VerifyResult :=
  let tagged := negb (se_HMAC ev =s? "") in
  let v := count_hmac 0 0 tagged v in
  if key =s? "" then v
  else if negb tagged then count_hmac 0 1 false v
  else if VerifyEventHMAC ev key then count_hmac 1 0 false v
  else compromised (se_Seq ev) GapTypeHMACMismatch v.

Definition check_first (opts : VerifyOptions) (first : bool) (seq : Z) (v : VerifyResult) : VerifyResult :=
  if first && (vo_SinceMs opts =? 0)%Z && (1 <? seq)%Z
  then gaps_from 1 (Z.to_nat (Z.min (seq - 1) maxRetentionTrimmedGaps)) GapTypeRetentionTrimmed v
  else v.

Definition verify_entry (opts : VerifyOptions) (w : walk) (ie : nat * entry) : walk :=
  let '(i, e) := ie in
  let v := wk_result w in
  match stored_event e with
  | None => mkWalk (wk_prev w) (compromised (wrap64 (prev_seq w + 1)) GapTypeHashMismatch v)
  | Some ev =>
      let first := (i =? 0)%nat in
      let v := check_first opts first (se_Seq ev) (count_event first (se_Seq ev) v) in
      let v := check_order (wk_prev w) (se_Seq ev) v in
      let v := check_hash (wk_prev w) ev v in
      mkWalk (Some (se_EventHash ev, se_Seq ev)) (check_hmac (vo_HMACKey opts) ev v)
  end.

(** The event before the window, when there is a lower bound: what the first
    event is compared with, and the status.  [rev_fails] is an error of the read. *)
Definition bootstrap (opts : VerifyOptions) (rev_fails : bool) (es window : list entry) : option (string * Z) * VerifyStatus :=
  match window with
  | [] => (None, VerifyStatusOK)
  | e :: _ =>
      if (vo_SinceMs opts <=? 0)%Z || rev_fails then (None, VerifyStatusOK)
      else match rev_first (xRevBefore (en_ID e)) es with
           | None => (None, VerifyStatusPartial)
           | Some p =>
               match stored_event p with
               | None => (None, VerifyStatusOK)
               | Some ev => if VerifyEventHash ev then (Some (se_EventHash ev, se_Seq ev), VerifyStatusOK) else (None, VerifyStatusPartial)
               end
           end
  end.

Definition VerifyChain (opts : VerifyOptions) (rev_fails : bool) (streamKey : string) (r : redis) : result string VerifyResult :=
  match rstream streamKey r with
  | Err e => Err ("xrange " +:+ streamKey +:+ ": " +:+ e)
  | Ok es =>
      let window := firstn (verify_limit opts) (List.filter (in_window opts) es) in
      let '(prev, status) := bootstrap opts rev_fails es window in
      let start := mkVerifyResult status 0 0 [] (vo_RetentionBoundarySeq opts) 0 0 0 0 false in
      let v := wk_result (foldl (verify_entry opts) (mkWalk prev start) (imap pair window)) in
      Ok (match vr_Status v with
          | VerifyStatusOK => if nonempty (vr_Gaps v) then set_status VerifyStatusPartial v else v
          | _ => v
          end)
  end.

End Verify.
