(* ===== verification/AuditTamper.v ===== *)
(** * Tampering with the audit chain

    What a clean report of [VerifyChain] says about the events of a stream: their
    content hashes to their recorded hashes, each carries the hash of the one
    before, and so the last hash pins down all the content before it, unless two
    different canonical texts with the same SHA-256 digest are at hand. *)
From Stdlib Require Import Ascii.
From S2P Require Import Prelude.
From S2P Require Import GoStrings.
From S2P Require Import GoSha256.
From S2P Require Import GoJson.
From S2P Require Import GoValues.
From S2P Require Import AuditChain.

Open Scope string_scope.

(** ** The canonical text determines the content *)

Lemma sorted_map_inj (m m' : gmap string string) : sort_keys (map_to_list m) = sort_keys (map_to_list m') -> m = m'.
Proof. intros E. apply map_to_list_inj. by rewrite <- (sort_keys_perm (map_to_list m)), E, sort_keys_perm. Qed.

Lemma cleared_no_int e : Forall (fun m => no_int (snd m)) (List.filter present (event_members (cleared e))).
Proof.
  apply List.Forall_forall. intros m [Hin Hp]%filter_In. unfold event_members in Hin. cbn [In] in Hin.
  repeat (destruct Hin as [<-|Hin]; [done|]). done.
Qed.

Lemma event_members_names e : NoDup (map (fun m => fst (fst m)) (event_members e)).
Proof. apply (bool_decide_unpack _). vm_compute. exact I. Qed.

Lemma event_members_inj a b : event_members a = event_members b -> a = b.
Proof.
  destruct a, b. unfold event_members. cbn. intros [= -> -> -> -> -> -> -> -> -> -> -> -> -> -> -> -> Hextra -> -> -> ->].
  apply sorted_map_inj in Hextra as ->. done.
Qed.

Lemma canonical_inj a b : marshal (cleared a) = marshal (cleared b) -> cleared a = cleared b.
Proof.
  intros E. apply event_members_inj, shown_members; [done|apply event_members_names|].
  apply object_code; [apply cleared_no_int..|done].
Qed.

(** ** What a clean report says *)

Definition clean (v : VerifyResult) : Prop := vr_Status v = VerifyStatusOK /\ vr_Gaps v = [].

Lemma clean_gap n ty v : clean (gap n ty v) -> False.
Proof. intros [_ H]. cbn in H. by destruct (vr_Gaps v). Qed.

Lemma clean_compromised n ty v : clean (compromised n ty v) -> False.
Proof. apply clean_gap. Qed.

Lemma clean_gaps_from first n ty v : clean (gaps_from first n ty v) -> clean v.
Proof.
  unfold gaps_from. generalize (seqZ first (Z.of_nat n)). intros l. revert v.
  induction l as [|i l IH]; intros v; [done|]. cbn [foldl]. by intros H%IH%clean_gap.
Qed.

Lemma clean_check_first opts first n v : clean (check_first opts first n v) -> clean v.
Proof. unfold check_first. case_match; [apply clean_gaps_from|done]. Qed.

Lemma clean_check_order prev n v : clean (check_order prev n v) -> clean v.
Proof.
  unfold check_order. repeat case_match; try done.
  - by intros ?%clean_compromised.
  - by intros [? _]%clean_gaps_from.
Qed.

Lemma clean_check_hash prev ev v : clean (check_hash prev ev v) ->
  clean v /\ VerifyEventHash ev = true /\ (forall h n, prev = Some (h, n) -> se_PrevHash ev = h).
Proof.
  unfold check_hash. destruct (VerifyEventHash ev); cbn [negb]; [|by intros ?%clean_compromised].
  destruct prev as [[h n]|]; [|naive_solver].
  destruct (se_PrevHash ev =s? h) eqn:E; [|by intros ?%clean_compromised].
  apply String.eqb_eq in E. naive_solver.
Qed.

Lemma clean_check_hmac key ev v : clean (check_hmac key ev v) -> clean v.
Proof. unfold check_hmac. repeat case_match; first [by intros ?%clean_compromised | done]. Qed.

(** Each event hashes to its recorded hash and carries the hash of the one before. *)
Fixpoint chained (prev : option string) (evs : list SIEMEvent) : Prop :=
  match evs with
  | [] => True
  | ev :: evs =>
      VerifyEventHash ev = true /\ (forall h, prev = Some h -> se_PrevHash ev = h) /\ chained (Some (se_EventHash ev)) evs
  end.

Section Clean.
Context (unmarshal : string -> option SIEMEvent).

Lemma clean_entry opts w ie : clean (wk_result (verify_entry unmarshal opts w ie)) ->
  clean (wk_result w) /\
  exists ev, stored_event unmarshal (snd ie) = Some ev /\ VerifyEventHash ev = true
    /\ (forall h n, wk_prev w = Some (h, n) -> se_PrevHash ev = h)
    /\ wk_prev (verify_entry unmarshal opts w ie) = Some (se_EventHash ev, se_Seq ev).
Proof.
  destruct ie as [i e]. unfold verify_entry. cbn [snd]. destruct (stored_event unmarshal e) as [ev|]; cbn [wk_result wk_prev].
  - intros [Hc [Hh Hp]]%clean_check_hmac%clean_check_hash. apply clean_check_order, clean_check_first in Hc. eauto 10.
  - by intros ?%clean_compromised.
Qed.

Lemma clean_walk opts ies w : clean (wk_result (foldl (verify_entry unmarshal opts) w ies)) ->
  exists evs, mapM (fun ie => stored_event unmarshal (snd ie)) ies = Some evs /\ chained (fst <$> wk_prev w) evs.
Proof.
  revert w. induction ies as [|ie ies IH]; intros w; cbn [foldl]; [eexists; by split|].
  intros H. destruct (IH _ H) as (evs & Hm & Hch). clear IH.
  assert (Hc : clean (wk_result (verify_entry unmarshal opts w ie))).
  { revert H. generalize (verify_entry unmarshal opts w ie). clear.
    induction ies as [|ie ies IH]; intros w; cbn [foldl]; [done|]. by intros [? _]%IH%clean_entry. }
  apply clean_entry in Hc as (_ & ev & Hev & Hh & Hp & Hw). exists (ev :: evs). cbn [mapM]. rewrite Hev. cbn [mbind option_bind].
  rewrite Hm. cbn. rewrite Hw in Hch. repeat split; [done| |done].
  intros h. destruct (wk_prev w) as [[h' n]|]; cbn; [|done]. intros [= ->]. by eapply Hp.
Qed.

(** The options that select the whole stream. *)
Definition whole (opts : VerifyOptions) (es : list entry) : Prop :=
  (vo_SinceMs opts <= 0)%Z /\ (vo_UntilMs opts <= 0)%Z /\ (length es <= verify_limit opts)%nat.

Lemma whole_window opts es : whole opts es -> firstn (verify_limit opts) (List.filter (in_window opts) es) = es.
Proof.
  intros (H1 & H2 & H3). rewrite (forallb_filter_id (in_window opts)).
  - by apply firstn_all2.
  - apply forallb_forall. intros e _. unfold in_window. by rewrite (proj2 (Z.leb_le _ _) H1), (proj2 (Z.leb_le _ _) H2).
Qed.

Lemma whole_bootstrap opts rev_fails es : whole opts es -> bootstrap unmarshal opts rev_fails es es = (None, VerifyStatusOK).
Proof. intros (H1 & _). unfold bootstrap. destruct es; [done|]. by rewrite (proj2 (Z.leb_le _ _) H1). Qed.

Lemma mapM_imap_snd {A B} (f : A -> option B) (l : list A) : mapM (fun ia => f (snd ia)) (imap pair l) = mapM f l.
Proof.
  assert (H : forall g : nat -> nat, mapM (fun ia => f (snd ia)) (imap (fun i a => (g i, a)) l) = mapM f l).
  { induction l as [|a l IH]; intros g; [done|]. cbn [imap mapM snd]. destruct (f a); [|done]. cbn. by rewrite <- (IH (g ∘ S)). }
  apply (H id).
Qed.

Lemma verified_chained opts rev_fails k r es v : rstream k r = Ok es -> whole opts es ->
  VerifyChain unmarshal opts rev_fails k r = Ok v -> vr_Status v = VerifyStatusOK ->
  exists evs, mapM (stored_event unmarshal) es = Some evs /\ chained None evs.
Proof.
  intros Hs Hw. unfold VerifyChain. rewrite Hs, (whole_window _ _ Hw), (whole_bootstrap _ _ _ Hw). intros [= <-] Hst.
  match type of Hst with vr_Status (match vr_Status ?v with _ => _ end) = _ => assert (Hc : clean v) end.
  { revert Hst. unfold clean. case_match eqn:E; [|congruence..]. destruct (vr_Gaps _); [done|]. done. }
  apply clean_walk in Hc as (evs & Hm & Hch). exists evs. split; [|done].
  by rewrite <- Hm, mapM_imap_snd.
Qed.

End Clean.

(** ** The last hash determines the content *)

(** Two canonical texts with the same digest. *)
Definition collision (evs evs' : list SIEMEvent) : Prop :=
  exists a b, a ∈ evs /\ b ∈ evs' /\ marshal (cleared a) <> marshal (cleared b) /\
              sha256_hex (marshal (cleared a)) = sha256_hex (marshal (cleared b)).

Definition last_hash (evs : list SIEMEvent) : option string := se_EventHash <$> last evs.

Definition end_hash (prev : option string) (evs : list SIEMEvent) : option string :=
  match last evs with Some ev => Some (se_EventHash ev) | None => prev end.

Lemma end_hash_cons prev e evs : end_hash prev (e :: evs) = end_hash (Some (se_EventHash e)) evs.
Proof. unfold end_hash. rewrite last_cons. by destruct (last evs). Qed.

Lemma chained_snoc prev evs ev : chained prev (evs ++ [ev])%list ->
  chained prev evs /\ VerifyEventHash ev = true /\ (forall h, end_hash prev evs = Some h -> se_PrevHash ev = h).
Proof.
  revert prev. induction evs as [|e evs IH]; intros prev; cbn [app chained]; [naive_solver|].
  intros (H1 & H2 & (H3 & H4 & H5)%IH). rewrite end_hash_cons. eauto.
Qed.

Lemma chained_pinned evs evs' : chained None evs -> chained None evs' -> (length evs <= length evs')%nat ->
  last_hash evs = last_hash evs' -> collision evs evs' \/ exists pre : list SIEMEvent, map cleared evs' = (pre ++ map cleared evs)%list.
Proof.
  revert evs'. induction evs as [|a evs IH] using rev_ind; intros evs' Hc Hc' Hlen Hlast.
  { right. exists (map cleared evs'). by rewrite app_nil_r. }
  destruct evs' as [|b evs' _] using rev_ind; [rewrite length_app in Hlen; cbn in Hlen; lia|].
  rewrite !length_app in Hlen. cbn in Hlen. unfold last_hash in Hlast. rewrite !last_snoc in Hlast. cbn in Hlast.
  apply chained_snoc in Hc as (Hc & Ha & Hpa), Hc' as (Hc' & Hb & Hpb).
  unfold VerifyEventHash in Ha, Hb. apply String.eqb_eq in Ha, Hb.
  destruct (decide (marshal (cleared a) = marshal (cleared b))) as [E|E].
  2: { left. exists a, b. rewrite !elem_of_app, !list_elem_of_singleton. repeat split; auto.
       unfold computeEventHash in *. congruence. }
  apply canonical_inj in E. assert (Hprev : se_PrevHash a = se_PrevHash b) by (by apply (f_equal se_PrevHash) in E).
  rewrite !map_app. cbn [map]. rewrite E.
  destruct (decide (evs = [])) as [-> |Hne]; [right; by exists (map cleared evs')|].
  destruct (IH evs' Hc Hc' ltac:(lia)) as [(x & y & Hx & Hy & Hxy)|[pre Hpre]].
  - apply last_is_Some in Hne as [a' La]. assert (is_Some (last evs')) as [b' Lb].
    { apply last_is_Some. intros ->. destruct evs; [done|]. cbn in Hlen. lia. }
    unfold end_hash, last_hash in *. rewrite La, Lb in *. cbn. by rewrite <- (Hpa _ eq_refl), <- (Hpb _ eq_refl), Hprev.
  - left. exists x, y. rewrite !elem_of_app. auto.
  - right. exists pre. by rewrite Hpre, app_assoc.
Qed.
