(* ===== verification/AuditAppend.v ===== *)
(** * Appending to the audit chain

    What the writers keep true of a tenant's stream and head pointer, whatever
    heads they hold in their caches and however their reads and scripts
    interleave: the stream is a chain from the genesis, and the head names its
    last event.  A chain the writers built is verified without a finding. *)
From Stdlib Require Import Ascii.
From S2P Require Import Prelude.
From S2P Require Import GoStrings.
From S2P Require Import GoSha256.
From S2P Require Import GoJson.
From S2P Require Import GoValues.
From S2P Require Import AuditChain.
From S2P Require Import AuditTamper.

Open Scope string_scope.

#[local] Opaque computeEventHash computeEventHMAC marshal Itoa.

(** ** The chain of a tenant *)

(** The content of an event, without its place in a chain. *)
Definition content (e : SIEMEvent) : SIEMEvent := set_chain 0 "" "" "" e.

(** The events from number [n] on, the first of them after one with hash [prev]. *)
Fixpoint linked (key prev : string) (n : Z) (evs : list SIEMEvent) : Prop :=
  match evs with
  | [] => True
  | e :: evs =>
      se_Seq e = n /\ se_PrevHash e = prev /\ se_EventHash e = computeEventHash e /\
      (key <> "" -> se_HMAC e = computeEventHMAC e key) /\ linked key (se_EventHash e) (n + 1) evs
  end.

Definition head_value (e : SIEMEvent) : string := Itoa (se_Seq e) +:+ ":" +:+ se_EventHash e.

Record chain_at (key prefix tenant : string) (r : redis) (evs : list SIEMEvent) : Prop := mkChainAt {
  ca_stream : exists es, rstream (StreamKey prefix tenant) r = Ok es /\ map en_Event es = map (fun e => Some (marshal e)) evs;
  ca_linked : linked key "" 1 evs;
  ca_tenant : Forall (fun e => se_TenantID e = tenant) evs;
  ca_head : rget (HeadKey prefix tenant) r = Ok (head_value <$> last evs);
}.

(** A tenant whose stream is nobody's head: the name does not start with [head:]. *)
Definition plain_tenant (t : string) : Prop := HasPrefix t "head:" = false.

(** A writer with the key of the deployment. *)
Definition honest (key : string) (a : attempt) : Prop := at_Key a = key /\ plain_tenant (se_TenantID (at_Event a)).

(** ** Keys *)

Lemma append_inj_l p s t : p +:+ s = p +:+ t -> s = t.
Proof. induction p as [|c p IH]; [done|]. rewrite !str_cons_app. intros H%str_cons_inj. auto. Qed.

Lemma plain_not_head t u : plain_tenant t -> t <> "head:" +:+ u.
Proof. unfold plain_tenant. intros H ->. unfold HasPrefix in H. by rewrite prefix_app in H. Qed.

Lemma stream_key_head p t u : plain_tenant t -> StreamKey p t <> HeadKey p u.
Proof. intros H E%append_inj_l. by apply (plain_not_head t u). Qed.

Lemma head_key_inj p t u : HeadKey p t = HeadKey p u -> t = u.
Proof. by intros ?%append_inj_l%append_inj_l. Qed.

(** ** The head of a chain *)

Lemma linked_snoc key prev n evs e : linked key prev n (evs ++ [e])%list <->
  linked key prev n evs /\ se_Seq e = (n + Z.of_nat (length evs))%Z /\ Some (se_PrevHash e) = end_hash (Some prev) evs /\
  se_EventHash e = computeEventHash e /\ (key <> "" -> se_HMAC e = computeEventHMAC e key).
Proof.
  revert prev n. induction evs as [|x evs IH]; intros prev n; cbn [app linked length].
  - unfold end_hash. cbn [last length Z.of_nat]. rewrite Z.add_0_r. split; [intros (? & -> & ? & ? & _)|intros (_ & ? & [= ->] & ? & ?)]; auto.
  - rewrite IH, end_hash_cons. replace (n + Z.of_nat (S (length evs)))%Z with (n + 1 + Z.of_nat (length evs))%Z by lia. tauto.
Qed.

Lemma computeEventHash_length e : String.length (computeEventHash e) = chainHashHexLen.
Proof. apply sha256_hex_length. Qed.

Lemma parse_head_value n h : (0 <= n <= int64_max)%Z -> String.length h = chainHashHexLen ->
  parseChainHead (Itoa n +:+ ":" +:+ h) = Ok (n, h).
Proof.
  intros Hn Hh. unfold parseChainHead. change (":" +:+ h) with (String ":" h).
  destruct (Itoa n +:+ String ":" h =s? "") eqn:E.
  { apply String.eqb_eq in E. by destruct (Itoa n). }
  rewrite cut_first_app by (apply Itoa_sep_free; [done|lia]). rewrite Atoi_Itoa by done.
  destruct (Z.ltb_spec n 0); [lia|]. by rewrite Hh, Nat.eqb_refl, andb_false_r.
Qed.

(** What the head of a chain parses to. *)
Lemma chain_head_parses key p t r evs : chain_at key p t r evs -> (Z.of_nat (length evs) <= int64_max)%Z ->
  exists h, parseChainHead (default "" (head_value <$> last evs)) = Ok (Z.of_nat (length evs), h) /\ Some h = end_hash (Some "") evs.
Proof.
  intros [_ Hl _ _] Hlen. destruct evs as [|e evs _] using rev_ind; [by exists ""|].
  apply linked_snoc in Hl as (_ & Hs & _ & Hh & _). exists (se_EventHash e). unfold end_hash.
  rewrite last_snoc. cbn [fmap option_fmap option_map default from_option]. split; [|done].
  rewrite length_app in Hlen. cbn in Hlen. unfold head_value, id.
  rewrite parse_head_value; [|lia|rewrite Hh; apply computeEventHash_length].
  rewrite Hs, length_app. cbn. f_equal. f_equal. lia.
Qed.

(** ** One attempt *)

Lemma link_event_tenant key raw e e' : link_event key raw e = Ok e' -> content e' = content e.
Proof. unfold link_event. destruct (parseChainHead raw) as [|[n h]]; [done|]. intros [= <-]. by destruct (key =s? ""). Qed.

Lemma content_tenant e e' : content e' = content e -> se_TenantID e' = se_TenantID e.
Proof. by intros H%(f_equal se_TenantID). Qed.

(** An event linked to the head of a chain extends it. *)
Lemma link_event_extends key p t r evs e e' : chain_at key p t r evs -> (Z.of_nat (length evs) < int64_max)%Z ->
  link_event key (default "" (head_value <$> last evs)) e = Ok e' -> linked key "" 1 (evs ++ [e'])%list.
Proof.
  intros Hca Hlen. destruct (chain_head_parses _ _ _ _ _ Hca ltac:(lia)) as (h & Hp & Hh).
  unfold link_event. rewrite Hp. intros [= <-]. apply linked_snoc. split; [apply Hca|].
  assert (Hw : wrap64 (Z.of_nat (length evs) + 1) = (1 + Z.of_nat (length evs))%Z).
  { rewrite wrap64_id; unfold int64_min, int64_max in *; lia. }
  destruct (key =s? "") eqn:Ek; cbn [se_Seq se_PrevHash se_EventHash se_HMAC set_chain]; repeat split; try done.
  by apply String.eqb_eq in Ek as ->.
Qed.

Lemma rget_insert_ne k k' v r : k <> k' -> rget k (<[k' := v]> r) = rget k r.
Proof. intros H. unfold rget. by rewrite lookup_insert_ne by congruence. Qed.

Lemma rstream_insert_ne k k' v r : k <> k' -> rstream k (<[k' := v]> r) = rstream k r.
Proof. intros H. unfold rstream. by rewrite lookup_insert_ne by congruence. Qed.

(** The script of an event on the chain of its tenant: it misses when the head is
    another than the one it was linked to, and extends the chain otherwise. *)
Lemma run_script_chain key p r evs now raw e e' : plain_tenant (se_TenantID e) ->
  chain_at key p (se_TenantID e) r evs -> (Z.of_nat (length evs) < int64_max)%Z -> link_event key raw e = Ok e' ->
  if raw =s? default "" (head_value <$> last evs)
  then exists r', run_script now p raw e' r = Ok (r', true) /\ chain_at key p (se_TenantID e) r' (evs ++ [e'])%list
  else run_script now p raw e' r = Ok (r, false).
Proof.
  intros Hpl Hca Hlen Hlink. pose proof (content_tenant _ _ (link_event_tenant _ _ _ _ Hlink)) as Ht.
  unfold run_script, chainAppendScript. rewrite Ht, (ca_head _ _ _ _ _ Hca).
  destruct (raw =s? _) eqn:E.
  2: { rewrite String.eqb_sym in E. by rewrite E. }
  apply String.eqb_eq in E as ->. rewrite String.eqb_refl. cbn [negb].
  destruct (ca_stream _ _ _ _ _ Hca) as (es & Hes & Hmap). rewrite Hes.
  assert (Hguard : (default "" (head_value <$> last evs) =s? "") && nonempty es = false).
  { destruct evs as [|x l _] using rev_ind; [by destruct es|]. rewrite last_snoc. cbn [fmap option_fmap option_map default from_option].
    apply andb_false_iff. left. apply String.eqb_neq. unfold head_value, id. by destruct (Itoa _). }
  rewrite Hguard. eexists. split; [done|].
  pose proof (stream_key_head p _ (se_TenantID e) Hpl) as Hne. constructor.
  - eexists. rewrite rstream_insert_ne by done. unfold rstream. rewrite lookup_insert_eq. split; [done|].
    by rewrite !map_app, Hmap.
  - by eapply link_event_extends.
  - apply Forall_app. split; [apply Hca|by constructor].
  - unfold rget. by rewrite lookup_insert_eq, last_snoc.
Qed.

(** Writers of other tenants leave the chain alone. *)
Lemma run_script_other key p t r evs now raw e r' b : plain_tenant t -> plain_tenant (se_TenantID e) -> se_TenantID e <> t ->
  run_script now p raw e r = Ok (r', b) -> chain_at key p t r evs -> chain_at key p t r' evs.
Proof.
  intros Hp Hp' Hne. unfold run_script, chainAppendScript. destruct (rget _ r); [done|]. case_match; [congruence|].
  destruct (rstream _ r); [done|]. case_match; [congruence|]. intros [= <- _] [(es & Hes & Hm) Hl Ht Hh].
  pose proof (stream_key_head p _ (se_TenantID e) Hp). pose proof (stream_key_head p _ t Hp').
  constructor; [|done..|].
  - exists es. split; [|done]. rewrite !rstream_insert_ne; [done| |done]. intros E%append_inj_l. congruence.
  - rewrite !rget_insert_ne; [done|congruence|]. intros E%head_key_inj. congruence.
Qed.

Lemma run_attempt_chain key p t r evs a : plain_tenant t -> honest key a -> chain_at key p t r evs ->
  (Z.of_nat (length evs) < int64_max)%Z ->
  exists new, chain_at key p t (run_attempt p r a) (evs ++ new)%list /\ (length new <= 1)%nat.
Proof.
  intros Hp [<- Hpa] Hca Hlen. unfold run_attempt.
  assert (Hno : exists new, chain_at (at_Key a) p t r (evs ++ new)%list /\ (length new <= 1)%nat).
  { exists []. rewrite app_nil_r. split; [done|cbn; lia]. }
  destruct (_ =s? ""); [done|]. destruct (link_event _ _ _) as [|e'] eqn:Hl; [done|].
  pose proof (content_tenant _ _ (link_event_tenant _ _ _ _ Hl)) as Ht.
  destruct (decide (se_TenantID (at_Event a) = t)) as [<-|Hne].
  - pose proof (run_script_chain _ _ _ _ (at_Now a) _ _ _ Hpa Hca Hlen Hl) as H.
    destruct (_ =s? default _ _); [|by rewrite H]. destruct H as (r' & -> & H). exists [e']. split; [done|cbn; lia].
  - destruct (run_script _ _ _ _ r) as [|[r' b]] eqn:Hr; [done|]. exists []. rewrite app_nil_r. split; [|cbn; lia].
    rewrite <- Ht in Hpa, Hne. by eapply run_script_other.
Qed.

Lemma run_attempts_chain key p t l : forall r evs, plain_tenant t -> Forall (honest key) l -> chain_at key p t r evs ->
  (Z.of_nat (length evs + length l) <= int64_max)%Z ->
  exists new, chain_at key p t (run_attempts p r l) (evs ++ new)%list /\ (length new <= length l)%nat.
Proof.
  induction l as [|a l IH]; intros r evs Hp Hl Hca Hlen.
  { exists []. rewrite app_nil_r. split; [done|cbn; lia]. }
  apply Forall_cons in Hl as [Ha Hl]. cbn [length] in Hlen.
  destruct (run_attempt_chain key p t r evs a) as (new & Hca' & Hn); [done..|lia|].
  destruct (IH _ _ Hp Hl Hca') as (new' & Hca'' & Hn'); [rewrite length_app; lia|].
  exists (new ++ new')%list. rewrite app_assoc. split; [done|]. rewrite length_app. cbn [length]. lia.
Qed.

(** What a script that was run leaves of any tenant's chain. *)
Lemma run_script_any key p t r evs now raw e e' r' b : plain_tenant t -> plain_tenant (se_TenantID e) ->
  chain_at key p t r evs -> (Z.of_nat (length evs) < int64_max)%Z -> link_event key raw e = Ok e' ->
  run_script now p raw e' r = Ok (r', b) ->
  exists new, chain_at key p t r' (evs ++ new)%list /\ (length new <= (if b then 1 else 0))%nat /\
    (b = true -> se_TenantID e = t -> last new = Some e').
Proof.
  intros Hpt Hpe Hca Hlen Hl Hr. pose proof (content_tenant _ _ (link_event_tenant _ _ _ _ Hl)) as Ht.
  destruct (decide (se_TenantID e = t)) as [<-|Hne].
  - pose proof (run_script_chain _ _ _ _ now _ _ _ Hpe Hca Hlen Hl) as H. rewrite Hr in H. destruct (_ =s? _).
    + destruct H as (r2 & [= <- ->] & H). by exists [e'].
    + injection H as -> ->. exists []. by rewrite app_nil_r.
  - exists []. rewrite app_nil_r. rewrite <- Ht in Hpe, Hne. split; [by eapply run_script_other|]. split; [cbn; lia|congruence].
Qed.

(** ** Appending *)

Section Append.
Context (env : append_env) (key : string).

(** The attempts of the others during attempts [i], ..., [i + n - 1]. *)
Definition others_from (n i : nat) : nat := sum_list (map (fun j => length (ae_others env j)) (seq i n)).

Hypothesis others_honest : forall i, Forall (honest key) (ae_others env i).

(** What a call leaves of the chain of [t]: it only grows, and when the call
    succeeded and the event is one of [t]'s, the event is its last. *)
Definition appended (p t : string) (evs : list SIEMEvent) (event : SIEMEvent) (out : option string * SIEMEvent * Chainer * redis) : Prop :=
  let '(err, event', _, r) := out in
  exists new, chain_at key p t r (evs ++ new)%list /\ content event' = content event /\
    (err = None -> se_TenantID event = t -> last new = Some event').

Lemma appended_same p t evs event err e c r : chain_at key p t r evs -> content e = content event ->
  appended p t evs event (Some err, e, c, r).
Proof. intros H E. exists []. rewrite app_nil_r. split; [done|]. split; [done|discriminate]. Qed.

Lemma appended_more p t evs more event out : appended p t (evs ++ more)%list event out -> appended p t evs event out.
Proof.
  destruct out as [[[err e] c] r]. intros (new & H & E & Hl). exists (more ++ new)%list.
  rewrite app_assoc. split; [done|]. split; [done|]. intros H1 H2. by rewrite last_app, (Hl H1 H2).
Qed.

Lemma append_loop_chain p t n : forall i c event r evs, ch_hmacKey c = key -> ch_prefix c = p ->
  plain_tenant t -> plain_tenant (se_TenantID event) -> chain_at key p t r evs ->
  (Z.of_nat (length evs + others_from n i + n) <= int64_max)%Z ->
  appended p t evs event (append_loop env n i c event r).
Proof.
  induction n as [|n IH]; intros i c event r evs Hk Hp Hpt Hpe Hca Hlen; [by apply appended_same|].
  cbn [append_loop]. destruct (ae_ctx env i); [by apply appended_same|].
  destruct (read_head env i c _ r) as [|raw]; [by apply appended_same|].
  destruct (link_event _ raw event) as [|event'] eqn:Hlink; [by apply appended_same|].
  pose proof (link_event_tenant _ _ _ _ Hlink) as Hcont. pose proof (content_tenant _ _ Hcont) as Ht.
  change (others_from (S n) i) with (length (ae_others env i) + others_from n (S i))%nat in Hlen.
  destruct (run_attempts_chain key p t (ae_others env i) r evs) as (more & Hca' & Hm); [done..|lia|].
  apply (appended_more _ _ _ more). rewrite Hp, Hk in *.
  set (r1 := run_attempts p r (ae_others env i)) in *. clearbody r1. clear Hca.
  assert (Hlen' : (Z.of_nat (length (evs ++ more)) + Z.of_nat (others_from n (S i)) + Z.of_nat n < int64_max)%Z).
  { rewrite length_app. lia. }
  clear Hlen. set (evs1 := (evs ++ more)%list) in *. clearbody evs1.
  assert (Hran : forall r2 b, run_script (ae_now env i) p raw event' r1 = Ok (r2, b) ->
    exists new, chain_at key p t r2 (evs1 ++ new)%list /\ (length new <= (if b then 1 else 0))%nat /\
      (b = true -> se_TenantID event = t -> last new = Some event')).
  { intros r2 b. apply run_script_any; auto. lia. }
  assert (Hfail : forall err r2 b, run_script (ae_now env i) p raw event' r1 = Ok (r2, b) ->
    appended p t evs1 event (Some err, event', c, r2)).
  { intros err r2 b (new & Hnew & _)%Hran. exists new. by split; [|split; [|discriminate]]. }
  destruct (ae_script env i) as [[e lost]|].
  { destruct lost; [|by apply appended_same]. destruct (run_script _ _ _ _ r1) as [|[r2 b]]; [by apply appended_same|eauto]. }
  destruct (run_script _ _ _ _ r1) as [|[r2 b]] eqn:Hr; [by apply appended_same|].
  destruct (Hran _ _ eq_refl) as (new & Hnew & Hn & Hlast). destruct b.
  - exists new. auto.
  - apply (appended_more _ _ _ new). assert (new = []) as -> by (destruct new; [done|cbn in Hn; lia]).
    rewrite app_nil_r in *. destruct (ae_sleep env i); [by apply appended_same|].
    specialize (IH (S i) (invalidateCachedHead (se_TenantID event') raw c) (content event') r2 evs1).
    unfold appended in *. destruct (append_loop _ _ _ _ _ _) as [[[err ev2] c2] r3]. 
    destruct IH as (new & H1 & H2 & H3).
    + unfold invalidateCachedHead. by repeat case_match.
    + unfold invalidateCachedHead. by repeat case_match.
    + done.
    + cbn. by rewrite Ht.
    + done.
    + lia.
    + exists new. split; [done|]. split; [by rewrite H2|]. intros E1 E2. apply H3; [done|]. cbn. by rewrite Ht.
Qed.

(** A call is sure to commit at an attempt nobody disturbs, once its cache no
    longer hides the head. *)
Hypothesis no_ctx_error : forall i, ae_ctx env i = None.
Hypothesis no_read_error : forall i, ae_get env i = None.
Hypothesis no_script_error : forall i, ae_script env i = None.
Hypothesis no_sleep_error : forall i, ae_sleep env i = None.

Lemma invalidated c t raw : (forall raw', cachedHead c t = Some raw' -> raw' = raw) -> cachedHead (invalidateCachedHead t raw c) t = None.
Proof.
  unfold cachedHead, invalidateCachedHead. destruct (ch_cache c) as [[t' raw']|] eqn:E; [|by rewrite E].
  destruct (t' =s? t) eqn:Et; cbn [andb]; [|by rewrite E, Et].
  intros H. specialize (H _ eq_refl) as ->. by rewrite String.eqb_refl.
Qed.

Lemma linkable raw e x : parseChainHead raw = Ok x -> exists e', link_event key raw e = Ok e'.
Proof. intros H. unfold link_event. rewrite H. destruct x. eauto. Qed.

Lemma append_loop_commits n : forall i j c event r evs, ch_hmacKey c = key ->
  plain_tenant (se_TenantID event) -> chain_at key (ch_prefix c) (se_TenantID event) r evs ->
  (Z.of_nat (length evs + others_from n i + n) <= int64_max)%Z ->
  (forall raw, cachedHead c (se_TenantID event) = Some raw -> exists x, parseChainHead raw = Ok x) ->
  (i <= j < i + n)%nat -> ae_others env j = [] -> (cachedHead c (se_TenantID event) = None \/ i < j)%nat ->
  exists event' c' r', append_loop env n i c event r = (None, event', c', r').
Proof.
  induction n as [|n IH]; intros i j c event r evs Hk Hp Hca Hlen Hcache Hj Hquiet Hfresh; [lia|].
  cbn [append_loop]. rewrite no_ctx_error, no_script_error, no_sleep_error.
  change (others_from (S n) i) with (length (ae_others env i) + others_from n (S i))%nat in Hlen.
  assert (exists raw, read_head env i c (se_TenantID event) r = Ok raw /\ (exists x, parseChainHead raw = Ok x)
    /\ (forall raw', cachedHead c (se_TenantID event) = Some raw' -> raw' = raw)
    /\ (cachedHead c (se_TenantID event) = None -> raw = default "" (head_value <$> last evs))) as (raw & -> & [x Hx] & Hraw & Hraw').
  { unfold read_head. destruct (cachedHead c _) as [raw|]; [exists raw; naive_solver|].
    rewrite no_read_error, (ca_head _ _ _ _ _ Hca). eexists. split; [done|].
    destruct (chain_head_parses _ _ _ _ _ Hca) as (h & Hh & _); [lia|]. split; [eauto|]. done. }
  rewrite Hk. destruct (linkable raw event x Hx) as [event' Hlink]. rewrite Hlink.
  pose proof (content_tenant _ _ (link_event_tenant _ _ _ _ Hlink)) as Ht.
  destruct (run_attempts_chain key (ch_prefix c) _ (ae_others env i) r evs Hp) as (more & Hca' & Hm); [done..|lia|].
  pose proof (run_script_chain key _ _ _ (ae_now env i) raw event event' Hp Hca' ltac:(rewrite length_app; lia) Hlink) as Hrun.
  destruct (raw =s? _) eqn:Eraw; [destruct Hrun as (r' & -> & _); eauto|]. rewrite Hrun.
  destruct (decide (i = j)) as [<-|Hne].
  { exfalso. destruct Hfresh as [Hnone|]; [|lia]. rewrite Hquiet in Hca', Hm. cbn in Hm.
    destruct more; [|cbn in Hm; lia]. rewrite app_nil_r in Eraw. rewrite (Hraw' Hnone), String.eqb_refl in Eraw. done. }
  rewrite Ht in *. pose proof (invalidated c _ raw Hraw) as Hinv.
  apply (IH (S i) j _ _ _ (evs ++ more)%list); cbn [se_TenantID set_chain]; rewrite ?Ht, ?length_app; try done; try lia.
  - unfold invalidateCachedHead. by repeat case_match.
  - replace (ch_prefix (invalidateCachedHead (se_TenantID event) raw c)) with (ch_prefix c); [done|].
    unfold invalidateCachedHead. by repeat case_match.
  - rewrite Hinv. done.
  - by left.
Qed.

End Append.

(** ** Verifying what was appended *)

Lemma linked_take key prev n k evs : linked key prev n evs -> linked key prev n (firstn k evs).
Proof. revert prev n k. induction evs as [|e evs IH]; intros prev n [|k]; cbn; naive_solver. Qed.

(** The report on the first [m] events of an intact chain. *)
Definition intact (m : Z) (v : VerifyResult) : Prop := clean v /\ vr_TotalEvents v = m /\ vr_VerifiedEvents v = m.

Section Honest.
Context (unmarshal : string -> option SIEMEvent) (opts : VerifyOptions) (key : string).
Hypothesis same_key : vo_HMACKey opts = "" \/ vo_HMACKey opts = key.

Lemma check_hmac_honest ev v m : (key <> "" -> se_HMAC ev = computeEventHMAC ev key) -> intact m v ->
  intact m (check_hmac (vo_HMACKey opts) ev v).
Proof.
  intros Hh Hv. unfold check_hmac. destruct same_key as [-> | ->]; [done|].
  destruct (key =s? "") eqn:Ek; [done|]. apply String.eqb_neq in Ek. case_match; [done|].
  unfold VerifyEventHMAC. rewrite (Hh Ek), String.eqb_refl, !orb_true_r. done.
Qed.

(** The event numbered [n], after the walk has seen the one before it. *)
Definition seen (prev : string) (n : Z) (w : walk) : Prop :=
  wk_prev w = Some (prev, (n - 1)%Z) \/ wk_prev w = None /\ n = 1%Z.

Lemma verify_entry_honest prev n ev i e w m : (1 <= n <= int64_max)%Z -> seen prev n w -> (i = 0%nat -> n = 1%Z) ->
  intact m (wk_result w) -> stored_event unmarshal e = Some ev ->
  linked key prev n [ev] ->
  let w' := verify_entry unmarshal opts w (i, e) in seen (se_EventHash ev) (n + 1) w' /\ intact (m + 1) (wk_result w').
Proof.
  intros Hn Hseen Hi Hv He (Hs & Hp & Hh & Hm & _). unfold verify_entry. rewrite He. cbn zeta. cbn [wk_prev wk_result].
  split; [left; cbn; f_equal; f_equal; lia|]. apply check_hmac_honest; [done|].
  assert (Hf : check_first opts (i =? 0)%nat (se_Seq ev) (count_event (i =? 0)%nat (se_Seq ev) (wk_result w))
    = count_event (i =? 0)%nat (se_Seq ev) (wk_result w)).
  { unfold check_first. destruct (i =? 0)%nat eqn:Ei; [|done]. apply Nat.eqb_eq in Ei. rewrite Hs, (Hi Ei). by rewrite andb_false_r. }
  rewrite Hf. destruct Hv as ([Hst Hg] & Ht & Hv). unfold check_hash. unfold VerifyEventHash. rewrite Hh, String.eqb_refl. cbn [negb].
  destruct Hseen as [-> |[-> Hn1]].
  - rewrite Hp, String.eqb_refl. unfold check_order. rewrite Hs, wrap64_id by (unfold int64_min, int64_max in *; lia).
    destruct (Z.ltb_spec n (n - 1)); [lia|]. destruct (Z.ltb_spec (n - 1 + 1) n); [lia|].
    repeat split; cbn; congruence.
  - repeat split; cbn; congruence.
Qed.

Lemma walk_honest evs : forall es (g : nat -> nat) prev n w m, linked key prev n evs -> (1 <= n)%Z ->
  (n + Z.of_nat (length evs) <= int64_max + 1)%Z -> seen prev n w -> (g 0%nat = 0%nat -> n = 1%Z) -> (forall i, g (S i) <> 0%nat) ->
  intact m (wk_result w) -> map (stored_event unmarshal) es = map Some evs ->
  intact (m + Z.of_nat (length evs)) (wk_result (foldl (verify_entry unmarshal opts) w (imap (fun i e => (g i, e)) es))).
Proof.
  induction evs as [|ev evs IH]; intros es g prev n w m Hl Hn Hlen Hseen Hg Hg' Hv Hes; (destruct es as [|e es]; [|]); try done.
  { cbn. by rewrite Z.add_0_r. }
  cbn in Hes. injection Hes as He Hes. cbn [length] in Hlen. destruct Hl as (H1 & H2 & H3 & H4 & Hl).
  cbn [imap foldl]. destruct (verify_entry_honest prev n ev (g 0%nat) e w m) as [Hseen' Hv']; try done; [lia|].
  replace (m + Z.of_nat (length (ev :: evs)))%Z with (m + 1 + Z.of_nat (length evs))%Z by (cbn; lia).
  apply (IH es (g ∘ S) (se_EventHash ev) (n + 1)%Z); try done; try lia.
  - intros H. by apply Hg' in H.
  - intros i. apply Hg'.
Qed.

End Honest.
