(* ===== verification/AuditTheorems.v ===== *)
(** * The audit chain: what holds of it

    A small deployment to evaluate the definitions on, the properties of appending
    and verifying, and what the verifier does not notice. *)
From Stdlib Require Import Ascii.
From S2P Require Import Prelude.
From S2P Require Import GoStrings.
From S2P Require Import GoSha256.
From S2P Require Import GoJson.
From S2P Require Import GoValues.
From S2P Require Import AuditChain.
From S2P Require Import AuditTamper.
From S2P Require Import AuditAppend.

Open Scope string_scope.

(** ** A deployment *)

Definition demo_key : string := "an audit key of thirty-two bytes".

Definition demo_event (tenant action : string) : SIEMEvent :=
  mkSIEMEvent "2026-01-02T03:04:05Z" "policy.decision" "info" tenant "" "" "" "job-1" action "deny" "" "it's <over> the limit"
    ["pii"] [] "v1" "" (<["b" := "2"]> (<["a" := "1"]> ∅)) 0 "" "" "".

Definition demo_chainer : Chainer := mkChainer ChainKeyPrefix demo_key None.

Definition quiet : append_env :=
  mkAppendEnv (fun _ => None) (fun _ => None) (fun _ => None) (fun _ => None) (fun i => Z.of_nat i) (fun _ => []).

(** Another writer commits between the read and the script of the first attempt. *)
Definition busy : append_env :=
  mkAppendEnv (fun _ => None) (fun _ => None) (fun _ => None) (fun _ => None) (fun i => Z.of_nat i)
    (fun i => match i with O => [mkAttempt demo_key (demo_event "acme" "other") "" 7] | _ => [] end).

Definition after (out : option string * SIEMEvent * Chainer * redis) : redis := snd out.
Definition committed (out : option string * SIEMEvent * Chainer * redis) : SIEMEvent := snd (fst (fst out)).

Definition append_1 := Append quiet demo_chainer (demo_event "acme" "first") ∅.
Definition append_2 := Append quiet (snd (fst append_1)) (demo_event "acme" "second") (after append_1).

Definition ev_1 : SIEMEvent := Eval vm_compute in committed append_1.
Definition ev_2 : SIEMEvent := Eval vm_compute in committed append_2.

(** The stream of a list of events, as a writer without the script leaves it. *)
Definition stream_of (evs : list SIEMEvent) : redis :=
  <[StreamKey ChainKeyPrefix "acme" := RStream (imap (fun i e => mkEntry (Z.of_nat i, 0%Z) (Itoa (se_Seq e)) (Some (marshal e))) evs)]> ∅.

(** A decoder that knows the documents of some events. *)
Fixpoint decode_of (evs : list SIEMEvent) (doc : string) : option SIEMEvent :=
  match evs with
  | [] => None
  | e :: evs => if doc =s? marshal e then Some e else decode_of evs doc
  end.

Definition all_of_it (key : string) : VerifyOptions := mkVerifyOptions 0 0 0 0 key.

Definition status_of (v : result string VerifyResult) : option VerifyStatus :=
  match v with Ok v => Some (vr_Status v) | Err _ => None end.
Definition report_of (v : result string VerifyResult) : option (VerifyStatus * Z * Z * Z) :=
  match v with Ok v => Some (vr_Status v, vr_TotalEvents v, vr_VerifiedEvents v, vr_HMACSkipped v) | Err _ => None end.

(** A conjunction of closed equations, each by evaluation. *)
Ltac by_evaluation :=
  lazymatch goal with
  | |- _ /\ _ => split; by_evaluation
  | |- True => exact I
  | |- _ = _ => vm_compute; reflexivity
  | |- _ -> _ => intros _; by_evaluation
  end.

Lemma empty_chain key p t : chain_at key p t ∅ [].
Proof. constructor; [by exists []|done|constructor|done]. Qed.

(** ** Tampering *)

(** C7: Tamper evidence.  When two streams both verify as OK over their whole
    length (no time filter, within the limit) and end in the same event hash,
    every event they have in common positions counted from the end has the same
    content: the shorter one is, up to sequence numbers and tags, the tail of the
    longer one.  The only way out is a SHA-256 collision between the canonical
    texts of two of their events, which the statement exhibits. *)
Theorem chain_tamper_evident (unmarshal : string -> option SIEMEvent) opts fails fails' k k' (r r' : redis) es es' v v' :
  rstream k r = Ok es -> rstream k' r' = Ok es' -> whole opts es -> whole opts es' ->
  VerifyChain unmarshal opts fails k r = Ok v -> vr_Status v = VerifyStatusOK ->
  VerifyChain unmarshal opts fails' k' r' = Ok v' -> vr_Status v' = VerifyStatusOK ->
  exists evs evs', mapM (stored_event unmarshal) es = Some evs /\ mapM (stored_event unmarshal) es' = Some evs' /\
    ((length evs <= length evs')%nat -> last_hash evs = last_hash evs' ->
     collision evs evs' \/ exists pre, map cleared evs' = (pre ++ map cleared evs)%list).
Proof.
  intros Hs Hs' Hw Hw' Hv Hok Hv' Hok'.
  destruct (verified_chained _ _ _ _ _ _ _ Hs Hw Hv Hok) as (evs & Hm & Hc).
  destruct (verified_chained _ _ _ _ _ _ _ Hs' Hw' Hv' Hok') as (evs' & Hm' & Hc').
  exists evs, evs'. split; [done|]. split; [done|]. by apply chained_pinned.
Qed.

Lemma chain_tamper_evident_witness : exists evs evs',
  mapM (stored_event (decode_of [ev_1; ev_2])) (imap (fun i e => mkEntry (Z.of_nat i, 0%Z) (Itoa (se_Seq e)) (Some (marshal e))) [ev_1; ev_2]) = Some evs /\
  mapM (stored_event (decode_of [ev_1; ev_2])) (imap (fun i e => mkEntry (Z.of_nat i, 0%Z) (Itoa (se_Seq e)) (Some (marshal e))) [ev_1; ev_2]) = Some evs' /\
    ((length evs <= length evs')%nat -> last_hash evs = last_hash evs' ->
     collision evs evs' \/ exists pre, map cleared evs' = (pre ++ map cleared evs)%list).
Proof.
  eapply (chain_tamper_evident (decode_of [ev_1; ev_2]) (all_of_it demo_key) false false (StreamKey ChainKeyPrefix "acme")
    (StreamKey ChainKeyPrefix "acme") (stream_of [ev_1; ev_2]) (stream_of [ev_1; ev_2])).
  1-2: vm_compute; reflexivity.
  1-2: split; [|split]; apply Z.leb_le || apply Nat.leb_le; vm_compute; reflexivity.
  all: vm_compute; reflexivity.
Defined.

(** ** Appending *)

Lemma nonempty_tenant e : se_TenantID e <> "" -> (se_TenantID e =s? "") = false.
Proof. by intros H%String.eqb_neq. Qed.

(** C17: Appending keeps every chain.  Whatever head the writer has cached, whatever
    the other writers commit between its reads and its scripts, and whichever read,
    script or reply fails: the stream of every plain tenant (one whose name does not
    start with [head:]) remains a chain from the genesis with consecutive numbers,
    links, hashes and tags, extended at its end only, and the head pointer names its
    last event.  When [Append] reports success the event, with its content
    unchanged, is the last one of its tenant's chain. *)
Theorem append_keeps_chain (env : append_env) (c : Chainer) (event : SIEMEvent) (t : string) (r : redis) evs :
  (forall i, Forall (honest (ch_hmacKey c)) (ae_others env i)) ->
  plain_tenant t -> plain_tenant (se_TenantID event) -> chain_at (ch_hmacKey c) (ch_prefix c) t r evs ->
  (Z.of_nat (length evs + others_from env chainMaxCASRetries 0 + chainMaxCASRetries) <= int64_max)%Z ->
  let '(err, event', c', r') := Append env c event r in
  exists new, chain_at (ch_hmacKey c) (ch_prefix c) t r' (evs ++ new)%list /\ content event' = content event /\
    (err = None -> se_TenantID event = t -> last new = Some event').
Proof.
  intros Ho Hp Hpe Hca Hlen. fold (appended (ch_hmacKey c) (ch_prefix c) t evs event (Append env c event r)).
  unfold Append. destruct (_ =s? ""); [by apply appended_same|]. by apply append_loop_chain.
Qed.

Lemma append_keeps_chain_witness :
  let '(err, event', c', r') := Append busy demo_chainer (demo_event "acme" "first") ∅ in
  exists new, chain_at demo_key ChainKeyPrefix "acme" r' ([] ++ new)%list /\ content event' = content (demo_event "acme" "first") /\
    (err = None -> "acme" = "acme" -> last new = Some event').
Proof.
  apply (append_keeps_chain busy demo_chainer (demo_event "acme" "first") "acme" ∅ []).
  - intros [|i]; repeat constructor.
  - reflexivity.
  - reflexivity.
  - apply empty_chain.
  - apply Z.leb_le. vm_compute. reflexivity.
Defined.

(** Progress under contention.  When nothing fails, a call commits its event as
    soon as one attempt after the first is undisturbed, whatever the others do
    during the remaining ones and however stale the cached head it starts from
    (as long as it can be parsed): it never reports that the retry budget is
    exhausted, and the event ends up at the end of the chain. *)
Theorem append_commits (env : append_env) (c : Chainer) (event : SIEMEvent) (r : redis) evs j :
  (forall i, ae_ctx env i = None) -> (forall i, ae_get env i = None) ->
  (forall i, ae_script env i = None) -> (forall i, ae_sleep env i = None) ->
  (forall i, Forall (honest (ch_hmacKey c)) (ae_others env i)) ->
  (1 <= j < chainMaxCASRetries)%nat -> ae_others env j = [] ->
  (forall raw, cachedHead c (se_TenantID event) = Some raw -> exists x, parseChainHead raw = Ok x) ->
  se_TenantID event <> "" -> plain_tenant (se_TenantID event) ->
  chain_at (ch_hmacKey c) (ch_prefix c) (se_TenantID event) r evs ->
  (Z.of_nat (length evs + others_from env chainMaxCASRetries 0 + chainMaxCASRetries) <= int64_max)%Z ->
  exists event' c' r' new, Append env c event r = (None, event', c', r') /\ content event' = content event /\
    chain_at (ch_hmacKey c) (ch_prefix c) (se_TenantID event) r' (evs ++ new ++ [event'])%list.
Proof.
  intros H1 H2 H3 H4 Ho Hj Hq Hcache Hne Hp Hca Hlen. unfold Append. rewrite (nonempty_tenant _ Hne).
  destruct (append_loop_commits env (ch_hmacKey c) Ho H1 H2 H3 H4 chainMaxCASRetries 0 j c event r evs)
    as (event' & c' & r' & E); first [done | lia | right; lia | idtac].
  pose proof (append_loop_chain env (ch_hmacKey c) Ho (ch_prefix c) (se_TenantID event) chainMaxCASRetries 0 c event r evs) as H.
  rewrite E in *. destruct H as (new & Hnew & Hcont & Hlast); [done..|]. specialize (Hlast eq_refl eq_refl).
  destruct new as [|x new _] using rev_ind; [done|]. rewrite last_snoc in Hlast. injection Hlast as ->.
  exists event', c', r', new. auto.
Qed.

Lemma append_commits_witness : exists event' c' r' new,
  Append busy demo_chainer (demo_event "acme" "first") ∅ = (None, event', c', r') /\ content event' = content (demo_event "acme" "first") /\
  chain_at demo_key ChainKeyPrefix "acme" r' ([] ++ new ++ [event'])%list.
Proof.
  apply (append_commits busy demo_chainer (demo_event "acme" "first") ∅ [] 1); try (intros; reflexivity).
  - intros [|i]; repeat constructor.
  - split; apply Nat.leb_le; vm_compute; reflexivity.
  - discriminate.
  - discriminate.
  - apply empty_chain.
  - apply Z.leb_le. vm_compute. reflexivity.
Defined.

(** ** Verifying *)

(** A chain the writers built is verified.  Under a decoder that reads back the
    stored documents, and with the writers' key or none, [VerifyChain] without time
    filters reports OK, no gap, and every event up to the limit verified. *)
Theorem honest_chain_verifies (unmarshal : string -> option SIEMEvent) opts fails key p t (r : redis) evs :
  Forall (fun e => unmarshal (marshal e) = Some e) evs -> vo_HMACKey opts = "" \/ vo_HMACKey opts = key ->
  (vo_SinceMs opts <= 0)%Z -> (vo_UntilMs opts <= 0)%Z -> (Z.of_nat (length evs) <= int64_max)%Z ->
  chain_at key p t r evs ->
  exists v, VerifyChain unmarshal opts fails (StreamKey p t) r = Ok v /\ vr_Status v = VerifyStatusOK /\ vr_Gaps v = [] /\
    vr_TotalEvents v = Z.of_nat (verify_limit opts `min` length evs) /\ vr_VerifiedEvents v = vr_TotalEvents v.
Proof.
  intros Hdec Hkey Hs Hu Hlen [(es & Hes & Hmap) Hl _ _]. unfold VerifyChain. rewrite Hes.
  assert (Hflt : List.filter (in_window opts) es = es).
  { apply forallb_filter_id, forallb_forall. intros e _. unfold in_window.
    by rewrite (proj2 (Z.leb_le _ _) Hs), (proj2 (Z.leb_le _ _) Hu). }
  rewrite Hflt. set (lim := verify_limit opts).
  assert (Hboot : bootstrap unmarshal opts fails es (firstn lim es) = (None, VerifyStatusOK)).
  { unfold bootstrap. destruct (firstn lim es); [done|]. by rewrite (proj2 (Z.leb_le _ _) Hs). }
  rewrite Hboot.
  assert (Hst : map (stored_event unmarshal) (firstn lim es) = map Some (firstn lim evs)).
  { rewrite <- !firstn_map. f_equal. clear -Hdec Hmap. revert es Hmap.
    induction Hdec as [|e evs He _ IH]; intros [|x es] Hm; try done. cbn in Hm. injection Hm as Hx Hm.
    cbn. rewrite (IH _ Hm). unfold stored_event. rewrite Hx. cbn. by rewrite He. }
  pose proof (walk_honest unmarshal opts key Hkey (firstn lim evs) (firstn lim es) id "" 1
    (mkWalk None (mkVerifyResult VerifyStatusOK 0 0 [] (vo_RetentionBoundarySeq opts) 0 0 0 0 false)) 0) as Hw.
  destruct Hw as ([Hok Hg] & Ht & Hv); try done.
  - by apply linked_take.
  - rewrite length_firstn. lia.
  - by right.
  - eexists. split; [done|]. rewrite Z.add_0_l, length_firstn in *.
    change (imap pair (firstn lim es)) with (imap (fun i e => (id i, e)) (firstn lim es)).
    rewrite Hok, Hg. cbn [nonempty]. rewrite Hok, Hg, Ht, Hv. auto.
Qed.

Lemma honest_chain_verifies_witness : exists v,
  VerifyChain (decode_of [ev_1; ev_2]) (all_of_it demo_key) false (StreamKey ChainKeyPrefix "acme") (after append_2) = Ok v /\
  vr_Status v = VerifyStatusOK /\ vr_Gaps v = [] /\
  vr_TotalEvents v = Z.of_nat (verify_limit (all_of_it demo_key) `min` 2) /\ vr_VerifiedEvents v = vr_TotalEvents v.
Proof.
  apply (honest_chain_verifies (decode_of [ev_1; ev_2]) (all_of_it demo_key) false demo_key ChainKeyPrefix "acme" (after append_2) [ev_1; ev_2]).
  - repeat constructor; vm_compute; reflexivity.
  - right. reflexivity.
  - apply Z.leb_le. reflexivity.
  - apply Z.leb_le. reflexivity.
  - apply Z.leb_le. reflexivity.
  - constructor.
    + eexists. split; vm_compute; reflexivity.
    + cbn [linked]. by_evaluation.
    + repeat constructor.
    + vm_compute. reflexivity.
Defined.

(** ** What the verifier does not notice *)

(** The events a writer without the key leaves: linked and hashed, with no tag. *)
Definition forged (prev : string) (n : Z) (e : SIEMEvent) : SIEMEvent :=
  set_chain n (computeEventHash (set_chain 0 "" prev "" e)) prev "" e.

Definition forged_1 : SIEMEvent := Eval vm_compute in forged "" 1 (demo_event "acme" "forged").
Definition forged_2 : SIEMEvent := Eval vm_compute in forged (se_EventHash forged_1) 2 (demo_event "acme" "forged too").

(** The same events under other sequence numbers. *)
Definition renumber (n : Z) (e : SIEMEvent) : SIEMEvent := set_chain n (se_EventHash e) (se_PrevHash e) (se_HMAC e) e.

Definition check_stream (key : string) (evs : list SIEMEvent) : option (VerifyStatus * Z * Z * Z) :=
  report_of (VerifyChain (decode_of evs) (all_of_it key) false (StreamKey ChainKeyPrefix "acme") (stream_of evs)).

(** A stream rewritten by someone without the key, who leaves the tags out, verifies
    as OK with the key: the events are only counted as skipped. *)
Theorem untagged_forgery_verifies : check_stream demo_key [forged_1; forged_2] = Some (VerifyStatusOK, 2%Z, 2%Z, 2%Z).
Proof. vm_compute. reflexivity. Qed.

(** The sequence number is in neither hash, and the first event may carry any
    previous hash: a stream whose oldest event was cut off and whose others were
    renumbered from one verifies as OK, tags included. *)
Theorem renumbered_cut_verifies :
  check_stream demo_key [ev_1; ev_2] = Some (VerifyStatusOK, 2%Z, 2%Z, 0%Z) /\
  check_stream demo_key [renumber 1 ev_2] = Some (VerifyStatusOK, 1%Z, 1%Z, 0%Z).
Proof. split; vm_compute; reflexivity. Qed.

(** Two events with the same number are not a gap. *)
Theorem duplicate_seq_verifies : check_stream demo_key [ev_1; renumber 1 ev_2] = Some (VerifyStatusOK, 2%Z, 2%Z, 0%Z).
Proof. vm_compute. reflexivity. Qed.

(** Without its last event the stream still verifies as OK: the head pointer, which
    names the missing event, is not read. *)
Theorem truncated_tail_verifies :
  let r := <[StreamKey ChainKeyPrefix "acme" := RStream [mkEntry (0%Z, 0%Z) "1" (Some (marshal ev_1))]]> (after append_2) in
  rget (HeadKey ChainKeyPrefix "acme") r = Ok (Some (head_value ev_2)) /\
  status_of (VerifyChain (decode_of [ev_1; ev_2]) (all_of_it demo_key) false (StreamKey ChainKeyPrefix "acme") r) = Some VerifyStatusOK.
Proof. split; vm_compute; reflexivity. Qed.

(** A tenant named [head:acme] has the head pointer of [acme] for its stream: once
    [acme] has an event, every append of the other tenant fails, and in the other
    order every append of [acme] does. *)
Theorem head_tenant_collides :
  StreamKey ChainKeyPrefix "head:acme" = HeadKey ChainKeyPrefix "acme" /\
  fst (fst (fst (Append quiet demo_chainer (demo_event "head:acme" "x") (after append_1)))) = Some ("audit chain: script run: " +:+ wrong_type) /\
  fst (fst (fst (Append quiet demo_chainer (demo_event "acme" "x") (after (Append quiet demo_chainer (demo_event "head:acme" "x") ∅)))))
    = Some ("audit chain: read head: " +:+ wrong_type).
Proof. split; [|split]; vm_compute; reflexivity. Qed.

(** The gaps between two events are listed one by one, however many there are. *)
Theorem missing_gaps_unbounded prev p v n : (0 <= p)%Z -> (p + 1 < n <= int64_max)%Z ->
  length (vr_Gaps (check_order (Some (prev, p)) n v)) = (length (vr_Gaps v) + Z.to_nat (n - p - 1))%nat.
Proof.
  intros Hp Hn. unfold check_order. rewrite wrap64_id by (unfold int64_min, int64_max in *; lia).
  destruct (Z.ltb_spec n p); [lia|]. destruct (Z.ltb_spec (p + 1) n); [|lia]. unfold gaps_from.
  replace (n - p - 1)%Z with (n - (p + 1))%Z by lia. rewrite Z2Nat.id by lia.
  set (v' := set_status _ v). replace (length (vr_Gaps v)) with (length (vr_Gaps v')) by done.
  rewrite <- (length_seqZ (p + 1) (n - (p + 1))). generalize (seqZ (p + 1) (n - (p + 1))) as l. generalize v'. clear.
  intros v l. revert v. induction l as [|i l IH]; intros v; cbn [foldl length]; [lia|].
  rewrite IH. cbn. rewrite length_app. cbn. lia.
Qed.
