(* ===== verification/GoJsonAny.v ===== *)
(** * JSON text of dynamic values

    [json.Marshal] of a value of type [any]: objects with sorted keys, strings
    escaped as in [GoJson], floats printed by the class [JsonFloat].  NaN and the
    infinities, and a [json.Number] that is not one, are errors.  Main result: a value
    made of what a JSON decoder produces is determined by its text, up to the order of
    object keys. *)
From Stdlib Require Import Ascii.
From S2P Require Import Prelude.
From S2P Require Import GoStrings.
From S2P Require Import PolicyTypes.
From S2P Require Import GoValues.
From S2P Require Import GoJson.

Open Scope string_scope.

(** ** Text *)

(** The shortest decimals that read back as the number, for 64 and for 32 bits. *)
Class JsonFloat := mkJsonFloat { json_float64 : spec_float -> string; json_float32 : spec_float -> string }.

Definition finite (f : spec_float) : bool := match f with S754_zero _ | S754_finite _ _ _ => true | _ => false end.

(** *** [isValidNumber] of encoding/json *)

Fixpoint skip_digits (s : string) : string :=
  match s with String c r => if is_digit c then skip_digits r else s | EmptyString => EmptyString end.

Definition starts_digit (s : string) : bool := match s with String c _ => is_digit c | _ => false end.

Definition skip_exponent (s : string) : option string :=
  match s with
  | String c r =>
      if Ascii.eqb c "e"%char || Ascii.eqb c "E"%char then
        let r := match r with String d r' => if Ascii.eqb d "+"%char || Ascii.eqb d "-"%char then r' else r | _ => r end in
        if starts_digit r then Some (skip_digits r) else None
      else Some s
  | EmptyString => Some s
  end.

Definition skip_fraction (s : string) : string :=
  match s with
  | String c r => if Ascii.eqb c "."%char && starts_digit r then skip_digits r else s
  | EmptyString => s
  end.

Definition isValidNumber (s : string) : bool :=
  let s := match s with String c r => if Ascii.eqb c "-"%char then r else s | _ => s end in
  match s with
  | String c r =>
      let rest := if Ascii.eqb c "0"%char then Some r else if is_digit c then Some (skip_digits r) else None in
      match rest with
      | Some rest => match skip_exponent (skip_fraction rest) with Some EmptyString => true | _ => false end
      | None => false
      end
  | EmptyString => false
  end.

(** *** Values *)

Definition brackets (l : list string) : string := "[" +:+ Join l "," +:+ "]".

(** The texts of all elements, if none is an error. *)
Fixpoint all_texts {A} (l : list (option A)) : option (list A) :=
  match l with
  | [] => Some []
  | None :: _ => None
  | Some a :: l => match all_texts l with Some l => Some (a :: l) | None => None end
  end.

Definition int_kind_index (k : int_kind) : nat :=
  match k with K_int8 => 0 | K_int16 => 1 | K_uint => 2 | K_uint8 => 3 | K_uint16 => 4 | K_uint32 => 5 | K_uint64 => 6 end.

Section Marshal.
Context `{JsonFloat}.

Fixpoint MarshalAny (v : any) : option string :=
  match v with
  | AnyNil => Some "null"
  | AnyBool b => Some (if b then "true" else "false")
  | AnyInt z | AnyInt32 z | AnyInt64 z | AnyIntK _ z => Some (Itoa z)
  | AnyFloat32 f => if finite f then Some (json_float32 f) else None
  | AnyFloat64 f => if finite f then Some (json_float64 f) else None
  | AnyNumber s => if s =s? "" then Some "0" else if isValidNumber s then Some s else None
  | AnyString s => Some (quoted s)
  | AnyList l => brackets <$> all_texts (map MarshalAny l)
  | AnyStrings l => Some (brackets (map quoted l))
  | AnyInts l => Some (brackets (map Itoa l))
  | AnyMap m =>
      (fun ts => braces (sort_keys ts)) <$> all_texts (map (fun kv => (fun t => (fst kv, t)) <$> MarshalAny (snd kv)) m)
  | AnyStringMap m => Some (braces (sort_keys (map (fun kv => (fst kv, quoted (snd kv))) m)))
  end.

(** [json.Unmarshal] of the text of a value into an [any]; [None] for a number
    outside the range of [float64]. *)
Fixpoint RoundTrip `{FloatParser} (v : any) : option any :=
  match v with
  | AnyInt z | AnyInt32 z | AnyInt64 z | AnyIntK _ z => Some (AnyFloat64 (int64_to_float z))
  | AnyFloat32 f => AnyFloat64 <$> ParseFloat (json_float32 f)
  | AnyNumber s => AnyFloat64 <$> ParseFloat (if s =s? "" then "0" else s)
  | AnyList l => AnyList <$> all_texts (map RoundTrip l)
  | AnyStrings l => Some (AnyList (map AnyString l))
  | AnyInts l => Some (AnyList (map (fun z => AnyFloat64 (int64_to_float z)) l))
  | AnyMap m => AnyMap <$> all_texts (map (fun kv => (fun x => (fst kv, x)) <$> RoundTrip (snd kv)) m)
  | AnyStringMap m => Some (AnyMap (map (fun kv => (fst kv, AnyString (snd kv))) m))
  | _ => Some v
  end.

End Marshal.

(** [reflect.DeepEqual] of two values. *)
Fixpoint DeepEqual (a b : any) {struct a} : bool :=
  match a, b with
  | AnyNil, AnyNil => true
  | AnyBool x, AnyBool y => Bool.eqb x y
  | AnyInt x, AnyInt y | AnyInt32 x, AnyInt32 y | AnyInt64 x, AnyInt64 y => (x =? y)%Z
  | AnyIntK k x, AnyIntK k' y => bool_decide (int_kind_index k = int_kind_index k') && (x =? y)%Z
  | AnyFloat32 x, AnyFloat32 y | AnyFloat64 x, AnyFloat64 y => SFeqb x y
  | AnyNumber x, AnyNumber y | AnyString x, AnyString y => x =s? y
  | AnyList l, AnyList l' =>
      (fix equal (l l' : list any) : bool :=
         match l, l' with [], [] => true | x :: l, y :: l' => DeepEqual x y && equal l l' | _, _ => false end) l l'
  | AnyStrings l, AnyStrings l' => bool_decide (l = l')
  | AnyInts l, AnyInts l' => bool_decide (l = l')
  | AnyMap m, AnyMap m' =>
      (length m =? length m')%nat
      && forallb (fun kv => match aget m' (fst kv) with Some y => DeepEqual (snd kv) y | None => false end) m
  | AnyStringMap m, AnyStringMap m' =>
      (length m =? length m')%nat && forallb (fun kv => bool_decide (aget m' (fst kv) = Some (snd kv))) m
  | _, _ => false
  end.

(** ** What a decoder produces *)

(** The same value with the keys of every object in order. *)
Fixpoint in_order (v : any) : any :=
  match v with
  | AnyList l => AnyList (map in_order l)
  | AnyStrings l => AnyList (map AnyString l)
  | AnyMap m => AnyMap (sort_keys (map (fun kv => (fst kv, in_order (snd kv))) m))
  | AnyStringMap m => AnyMap (sort_keys (map (fun kv => (fst kv, AnyString (snd kv))) m))
  | _ => v
  end.

(** Numbers are [float64]; lists and maps of strings are those Go code builds. *)
Fixpoint decoded (v : any) : bool :=
  match v with
  | AnyNil | AnyBool _ | AnyString _ | AnyStrings _ | AnyStringMap _ => true
  | AnyFloat64 f => valid_binary 53 1024 f && finite f
  | AnyList l => forallb decoded l
  | AnyMap m => forallb (fun kv => decoded (snd kv)) m
  | _ => false
  end.

Fixpoint all_chars (p : ascii -> bool) (s : string) : bool :=
  match s with EmptyString => true | String c r => p c && all_chars p r end.

(** A number's text has only these characters, and two numbers have two texts. *)
Definition number_char (c : ascii) : bool :=
  is_digit c || Ascii.eqb c "-"%char || Ascii.eqb c "+"%char || Ascii.eqb c "."%char || Ascii.eqb c "e"%char.

Class JsonFloatLaws `{JsonFloat} := mkJsonFloatLaws {
  json_float_chars : forall f c r, finite f = true -> json_float64 f = String c r -> is_digit c = true \/ c = "-"%char;
  json_float_number : forall f, finite f = true -> json_float64 f <> "" /\ all_chars number_char (json_float64 f) = true;
  json_float_inj : forall f g, valid_binary 53 1024 f = true -> valid_binary 53 1024 g = true -> finite f = true -> finite g = true ->
                     json_float64 f = json_float64 g -> f = g;
}.

(** ** Texts determine values *)

(** What may follow a value. *)
Definition ended (x : string) : Prop :=
  match x with EmptyString => True | String c _ => c = ","%char \/ c = "]"%char \/ c = "}"%char end.

Lemma number_ended c : number_char c = true -> c <> ","%char /\ c <> "]"%char /\ c <> "}"%char.
Proof. destruct c as [[] [] [] [] [] [] [] []]; vm_compute; intros; split_and!; congruence. Qed.

Lemma number_text s t x y :
  all_chars number_char s = true -> all_chars number_char t = true -> ended x -> ended y -> s +:+ x = t +:+ y -> s = t /\ x = y.
Proof.
  assert (Hstop : forall c r z, number_char c = true -> ended z -> String c r <> z).
  { intros c r [|c' z] Hc Hz E; [done|]. injection E as -> ->. destruct (number_ended _ Hc) as (? & ? & ?). by destruct Hz as [|[|]]. }
  revert t. induction s as [|c s IH]; intros [|d t] Hs Ht Hx Hy E; cbn [all_chars] in *; rewrite ?str_cons_app, ?str_nil_app in E.
  - done.
  - apply andb_true_iff in Ht as [Hd _]. by destruct (Hstop d (t +:+ y) x Hd Hx).
  - apply andb_true_iff in Hs as [Hc _]. by destruct (Hstop c (s +:+ x) y Hc Hy).
  - apply andb_true_iff in Hs as [_ Hs], Ht as [_ Ht]. injection E as -> E. by destruct (IH t Hs Ht Hx Hy E) as [-> ->].
Qed.

(** A list of texts, each determined by what it is a text of, is read back from its
    elements. *)
Definition coded {A} (f : A -> string) (Q : A -> Prop) (a : A) : Prop :=
  forall b x y, Q b -> ended x -> ended y -> f a +:+ x = f b +:+ y -> a = b /\ x = y.

Lemma join_split {A} (f : A -> string) t (a : A) l z :
  Join (map f (a :: l)) "," +:+ String t z
  = f a +:+ match l with [] => String t z | _ => String "," (Join (map f l) "," +:+ String t z) end.
Proof. destruct l as [|a' l]; cbn [map Join]; [done|by str_norm]. Qed.

Lemma sequence_code {A} (f : A -> string) (Q : A -> Prop) (t : ascii) (l l' : list A) x y :
  (t = "]"%char \/ t = "}"%char) -> (forall a z, Q a -> exists c r, f a +:+ z = String c r /\ c <> t) ->
  Forall (coded f Q) l -> Forall Q l -> Forall Q l' ->
  Join (map f l) "," +:+ String t x = Join (map f l') "," +:+ String t y -> l = l' /\ x = y.
Proof.
  intros Ht Hne Hc. assert (Hend : forall k z, ended match k : list A with [] => String t z | _ => String "," (Join (map f k) "," +:+ String t z) end).
  { intros [|b k] z; cbn; [by right|by left]. }
  revert l'. induction Hc as [|a l Ha Hc IH]; intros l' Hl Hl' E.
  - destruct Hl' as [|b l' Hb _]; [by injection E as ->|]. rewrite join_split in E. cbn [map Join] in E. rewrite str_nil_app in E.
    match type of E with _ = f b +:+ ?z => destruct (Hne b z Hb) as (c & r & Eb & ?) end. rewrite Eb in E. by injection E as <- _.
  - apply Forall_cons in Hl as [Hqa Hl]. destruct Hl' as [|b l' Hb Hl'].
    { rewrite join_split in E. cbn [map Join] in E. rewrite str_nil_app in E. 
      match type of E with f a +:+ ?z = _ => destruct (Hne a z Hqa) as (c & r & Ea & ?) end. rewrite Ea in E. by injection E as -> _. }
    rewrite !join_split in E. destruct (Ha _ _ _ Hb (Hend l x) (Hend l' y) E) as [<- E'].
    destruct l as [|a1 l], l' as [|b1 l']; [by injection E' as ->|injection E' as -> _; by destruct Ht|injection E' as <- _; by destruct Ht|].
    apply str_cons_inj in E'. by destruct (IH _ Hl Hl' E') as [-> ->].
Qed.

(** Induction that reaches the elements of lists and objects. *)
Lemma any_nested_ind (P : any -> Prop) :
  (forall v, match v with AnyList _ | AnyMap _ => True | _ => P v end) ->
  (forall l, Forall P l -> P (AnyList l)) -> (forall m, Forall (fun kv => P (snd kv)) m -> P (AnyMap m)) -> forall v, P v.
Proof.
  intros Hleaf Hlist Hmap. fix IH 1. intros v. pose proof (Hleaf v) as Hv. destruct v as [| | | | | | | | | |l| | |m|]; try exact Hv.
  - apply Hlist. clear Hv. induction l as [|a l IHl]; constructor; [apply IH|exact IHl].
  - apply Hmap. clear Hv. induction m as [|[k a] m IHm]; constructor; [apply IH|exact IHm].
Qed.

Ltac any_induction v := pattern v; revert v; refine (any_nested_ind _ _ _ _); cbv beta.

(** Values whose objects are written as they stand. *)
Fixpoint plain_value (v : any) : bool :=
  match v with
  | AnyNil | AnyBool _ | AnyString _ => true
  | AnyFloat64 f => valid_binary 53 1024 f && finite f
  | AnyList l => forallb plain_value l
  | AnyMap m => forallb (fun kv => plain_value (snd kv)) m
  | _ => false
  end.

Lemma sort_keys_map {V W} (g : V -> W) (l : list (string * V)) :
  sort_keys (map (fun kv => (fst kv, g (snd kv))) l) = map (fun kv => (fst kv, g (snd kv))) (sort_keys l).
Proof.
  unfold sort_keys. induction l as [|kv l IH]; [done|]. cbn [map foldr]. rewrite IH. generalize (foldr insert_key [] l). intros k.
  induction k as [|kv' k IHk]; [done|]. cbn [map insert_key fst]. destruct (String.leb _ _); [done|]. cbn [map]. by rewrite IHk.
Qed.

Lemma all_texts_map {A B} (f : A -> B) (l : list A) : all_texts (map (fun a => Some (f a)) l) = Some (map f l).
Proof. induction l as [|a l IH]; [done|]. cbn. by rewrite IH. Qed.

Section Codes.
Context `{JsonFloatLaws}.

Fixpoint text (v : any) : string :=
  match v with
  | AnyNil => "null"
  | AnyBool b => if b then "true" else "false"
  | AnyFloat64 f => json_float64 f
  | AnyString s => quoted s
  | AnyList l => brackets (map text l)
  | AnyMap m => braces (map (fun kv => (fst kv, text (snd kv))) m)
  | _ => ""
  end.

Lemma decoded_plain v : decoded v = true -> plain_value (in_order v) = true.
Proof.
  assert (Hsort : forall m : list (string * any), forallb (fun kv => plain_value (snd kv)) (sort_keys m) = forallb (fun kv => plain_value (snd kv)) m).
  { intros m. apply eq_true_iff_eq. rewrite !forallb_forall. split; intros Hall kv Hin; apply Hall; revert Hin; rewrite <- !list_elem_of_In; by rewrite sort_keys_perm. }
  any_induction v; [intros v; destruct v as [| | | | | | |f| | | |l| | |m]; try done|intros l IH|intros m IH]; cbn [decoded in_order plain_value].
  - intros _. apply forallb_forall. by intros ? (? & <- & _)%in_map_iff.
  - intros _. rewrite Hsort. apply forallb_forall. by intros ? (? & <- & _)%in_map_iff.
  - rewrite !forallb_forall. intros Hd ? (v & <- & Hin)%in_map_iff. rewrite Forall_forall in IH. apply IH; [by apply list_elem_of_In|by apply Hd].
  - rewrite Hsort, !forallb_forall. intros Hd ? (kv & <- & Hin)%in_map_iff. cbn [snd]. rewrite Forall_forall in IH. apply IH; [by apply list_elem_of_In|by apply Hd].
Qed.

Lemma marshal_text v : decoded v = true -> MarshalAny v = Some (text (in_order v)).
Proof.
  any_induction v; [intros v; destruct v as [| | | | | | |f| | | |l| | |m]; try done|intros l IH|intros m IH]; cbn [decoded MarshalAny in_order text].
  - by intros [_ ->]%andb_true_iff.
  - by rewrite map_map.
  - intros _. do 2 f_equal. by rewrite !sort_keys_map, map_map.
  - intros Hd. rewrite forallb_forall in Hd. assert (map MarshalAny l = map (fun v => Some (text (in_order v))) l) as ->.
    { apply map_ext_in. intros v Hin. rewrite Forall_forall in IH. apply IH; [by apply list_elem_of_In|by apply Hd]. }
    by rewrite all_texts_map, map_map.
  - intros Hd. rewrite forallb_forall in Hd.
    assert (map (fun kv => (fun t => (fst kv, t)) <$> MarshalAny (snd kv)) m = map (fun kv => Some (fst kv, text (in_order (snd kv)))) m) as ->.
    { apply map_ext_in. intros kv Hin. rewrite Forall_forall in IH. rewrite IH; [done|by apply list_elem_of_In|by apply Hd]. }
    rewrite all_texts_map. cbn. do 2 f_equal. rewrite (sort_keys_map in_order), map_map. apply (sort_keys_map (fun v => text (in_order v))).
Qed.

Lemma text_start v z : plain_value v = true -> exists c r, text v +:+ z = String c r /\ c <> "]"%char /\ c <> "}"%char.
Proof.
  destruct v as [|[]| | | | | |f| |s|l| | |m|]; cbn [plain_value text]; try done; intros Hp; try (eexists _, _; split; [reflexivity|done]).
  apply andb_true_iff in Hp as [_ Hf]. destruct (json_float_number f Hf) as [Hne Hall]. destruct (json_float64 f) as [|c r] eqn:E; [done|].
  exists c, (r +:+ z). split; [done|]. cbn [all_chars] in Hall. apply andb_true_iff in Hall as [Hc _]. by destruct (number_ended _ Hc) as (_ & ? & ?).
Qed.

Lemma float_head f z : finite f = true -> exists c r, json_float64 f +:+ z = String c r /\ (is_digit c = true \/ c = "-"%char).
Proof.
  intros Hf. destruct (json_float_number f Hf) as [Hne _]. destruct (json_float64 f) as [|c r] eqn:E; [done|].
  exists c, (r +:+ z). split; [done|]. by apply (json_float_chars f c r).
Qed.

(** The text of a number is the text of nothing else. *)
Ltac not_a_number E f Hf :=
  let c := fresh in let r := fresh in let E' := fresh in
  first [match type of E with json_float64 f +:+ ?z = _ => destruct (float_head f z Hf) as (c & r & E' & [?|?]) end
        |match type of E with _ = json_float64 f +:+ ?z => destruct (float_head f z Hf) as (c & r & E' & [?|?]) end];
  rewrite E' in E; revert E; unfold quoted, brackets, braces; str_norm; intros [= ? ?]; subst; discriminate.

Lemma plain_Forall l : forallb plain_value l = true -> Forall (fun v => plain_value v = true) l.
Proof. intros Hl. rewrite forallb_forall in Hl. apply Forall_forall. intros v Hv. by apply Hl, list_elem_of_In. Qed.

Lemma text_coded v : plain_value v = true -> coded text (fun b => plain_value b = true) v.
Proof.
  any_induction v; [intros v; destruct v as [|b| | | | | |f| |s| | | | |]; try done|intros l IH|intros m IH]; cbn [plain_value]; intros Hp w x y Hw Hx Hy E;
    destruct w as [|b'| | | | | |g| |s'|l'| | |m'|]; try done; cbn [text plain_value] in *;
    try (apply andb_true_iff in Hp as [Hvf Hf]); try (apply andb_true_iff in Hw as [Hvg Hg]);
    try (destruct b); try (destruct b'); try (not_a_number E f Hf); try (not_a_number E g Hg);
    try (unfold quoted, brackets, braces, dquote in E; revert E; str_norm; discriminate).
  - revert E. str_norm. by intros [= ->].
  - revert E. str_norm. by intros [= ->].
  - revert E. str_norm. by intros [= ->].
  - destruct (number_text _ _ _ _ (proj2 (json_float_number f Hf)) (proj2 (json_float_number g Hg)) Hx Hy E) as [Hfg ->].
    by rewrite (json_float_inj f g) by done.
  - by destruct (quoted_code s s' x y I I E) as [-> ->].
  - revert E. unfold brackets. str_norm. intros E. apply str_cons_inj in E.
    apply (sequence_code text (fun v => plain_value v = true)) in E as [-> ->]; [done|by left| | |by apply plain_Forall..].
    + intros a z (c & r & -> & ? & ?)%(fun Ha => text_start a z Ha). by exists c, r.
    + apply plain_Forall in Hp. rewrite Forall_forall in Hp, IH |- *. intros v Hv. apply IH; [done|]. by apply Hp.
  - revert E. unfold braces. rewrite !map_map. str_norm. intros E. apply str_cons_inj in E. rewrite forallb_forall in Hp, Hw.
    apply (sequence_code (fun kv => member (fst kv, text (snd kv))) (fun kv => plain_value (snd kv) = true)) in E as [-> ->]; [done|by right| | | |].
    + intros [k v] z _. by eexists _, _.
    + rewrite Forall_forall in IH |- *. intros [k v] Hin [k' v'] x' y' Hv' Hx' Hy'. unfold member. cbn [fst snd]. str_norm. intros [-> E']%quoted_code; [|done..].
      apply str_cons_inj in E'. 
      destruct (IH (k', v) Hin (Hp (k', v) (proj1 (list_elem_of_In _ _) Hin)) v' x' y' Hv' Hx' Hy' E') as [Hvv ->]. cbn [snd] in Hvv. by subst.
    + apply Forall_forall. intros kv Hkv. by apply Hp, list_elem_of_In.
    + apply Forall_forall. intros kv Hkv. by apply Hw, list_elem_of_In.
Qed.

(** Equal texts, equal values up to the order of keys. *)
Lemma marshal_inj v w : decoded v = true -> decoded w = true -> MarshalAny v = MarshalAny w -> in_order v = in_order w.
Proof.
  intros Hv Hw. rewrite !marshal_text by done. intros [= E].
  assert (E' : text (in_order v) +:+ "" = text (in_order w) +:+ "") by by rewrite E.
  by destruct (text_coded (in_order v) (decoded_plain v Hv) (in_order w) "" "" (decoded_plain w Hw) I I E').
Qed.

End Codes.
