(* ===== verification/ActionGates.v ===== *)
(** * Action gates: tenants, MCP calls, mutations, provenance

    core/policy/actiongates: types.go, tenant_gate.go, mcp_gate.go, mutation_gate.go,
    provenance_gate.go and approval_binding.go.  A gate looks at the action of a policy
    input and answers with a decision; [DT_UNSPECIFIED] is "not my business".

    The stores a gate asks are functions; an approval lookup and the clock are given
    the gate that asks, since two gates may see different states.  The [Constraints] of
    a decision, which no gate sets, are left out. *)
From Stdlib Require Import Ascii.
From S2P Require Import Prelude.
From S2P Require Import GoStrings.
From S2P Require Import GoPath.
From S2P Require Import GoSha256.
From S2P Require Import PolicyTypes.
From S2P Require Import Kernel.
From S2P Require Import GoValues.
From S2P Require Import GoJsonAny.

Open Scope string_scope.

(** ** Decisions *)

Definition GateIDTenant : string := "actiongate.tenant".
Definition GateIDFile : string := "actiongate.file".
Definition GateIDURL : string := "actiongate.url".
Definition GateIDMCP : string := "actiongate.mcp".
Definition GateIDMutation : string := "actiongate.mutation".
Definition GateIDProvenance : string := "actiongate.provenance".

Definition CodeUnauthorized : string := "unauthorized".
Definition CodeAccessDenied : string := "access_denied".
Definition CodeNotFound : string := "not_found".
Definition CodeConflict : string := "conflict".
Definition CodeInternalError : string := "internal_error".
Definition CodeServiceUnavailable : string := "service_unavailable".
Definition CodeResolverError : string := "RESOLVER_ERROR".
Definition CodeRequireHuman : string := "require_human".

Record ActionGateDecision := mkGateDecision {
  gd_Decision : DecisionType;
  gd_GateID : string;
  gd_Code : string;
  gd_Reason : string;
  gd_SubReason : string;
  gd_Extra : gmap string string;
}.

Definition zero_decision : ActionGateDecision := mkGateDecision DT_UNSPECIFIED "" "" "" "" ∅.

Definition Fired (d : ActionGateDecision) : bool := negb (bool_decide (gd_Decision d = DT_UNSPECIFIED)).

Definition Allowed (d : ActionGateDecision) : bool :=
  match gd_Decision d with DT_ALLOW | DT_ALLOW_WITH_CONSTRAINTS => true | _ => false end.

(** [auth.AuthContext], with the fields a gate reads. *)
Record AuthContext := mkAuthContext { ac_Tenant : string; ac_PrincipalID : string; ac_Role : string; ac_AllowCrossTenant : bool }.

(** [actx == nil || strings.TrimSpace(actx.Tenant) == ""]. *)
Definition authenticated (actx : option AuthContext) : option AuthContext :=
  match actx with Some a => if TrimSpace (ac_Tenant a) =s? "" then None else Some a | None => None end.

(** ** Tenants *)

Definition largeEnumPageSize : Z := 10000.
Definition largeEnumInClauseSize : Z := 1000.

Fixpoint span_chars (p : ascii -> bool) (s : string) : string * string :=
  match s with
  | EmptyString => (EmptyString, EmptyString)
  | String c r => if p c then let '(a, b) := span_chars p r in (String c a, b) else (EmptyString, s)
  end.

Definition tenant_char (c : ascii) : bool := is_alnum c || Ascii.eqb c "-"%char.

(** The first group of [^(tnt_[A-Za-z0-9-]+)_]. *)
Definition tenantPrefixRe (s : string) : option string :=
  if negb (HasPrefix s "tnt_") then None
  else match span_chars tenant_char (drop 4 s) with
       | (String c k, String d _) => if Ascii.eqb d "_"%char then Some ("tnt_" +:+ String c k) else None
       | _ => None
       end.

Definition denyTenant (authTenant reason subReason : string) (extra : gmap string string) : ActionGateDecision :=
  mkGateDecision DT_DENY GateIDTenant CodeAccessDenied reason subReason
    (extra ∪ {["gate" := GateIDTenant; "sub_reason" := subReason; "auth_tenant" := authTenant]}).

Definition roleHasCompliance (role : string) : bool :=
  let r := ToLower role in Contains r "compliance" || Contains r "legal".

Definition wildcardKeys : list string := ["owner_id"; "tenant_id"; "tenant"; "owner"; "account_id"; "org_id"].

Definition matchWildcardOwnerFilter (filters : gmap string string) (wildcards : list string) : option string :=
  match List.find (fun k => match filters !! k with Some v => (v =s? "*") || (v =s? "%") || Contains v "%" | None => false end) wildcardKeys with
  | Some k => Some ("wildcard_owner:" +:+ k)
  | None =>
      match List.find (fun k => existsb (EqualFold k) wildcardKeys) wildcards with
      | Some k => Some ("wildcard_owner:" +:+ k)
      | None =>
          match filters !! "raw_where" with
          | Some raw =>
              let lower := ToLower (RemoveByte raw " "%char) in
              if Contains lower "1=1" || Contains lower "or1=1" || Contains lower "true=true" then Some "wildcard_owner:raw_where" else None
          | None => None
          end
      end
  end.

Definition deleted_at_bypass (v : string) : option string :=
  let lv := ToLower (TrimSpace v) in
  if (lv =s? "any") || (lv =s? "*") || (lv =s? "") then Some "archived_bypass:deleted_at_any"
  else if Contains lv "is null" && Contains lv "is not null" then Some "archived_bypass:contradictory" else None.

Definition matchArchivedBypass (filters : gmap string string) : option string :=
  if match filters !! "include_archived" with Some v => EqualFold v "true" || (v =s? "1") | None => false end
  then Some "archived_bypass:include_archived"
  else match match filters !! "deleted_at" with Some v => deleted_at_bypass v | None => None end with
       | Some r => Some r
       | None => match filters !! "status" with
                 | Some v => if EqualFold (TrimSpace v) "any" then Some "archived_bypass:status_any" else None
                 | None => None
                 end
       end.

Definition readInt (args : gmap string any) (key : string) : option Z :=
  match args !! key with
  | Some (AnyInt n) | Some (AnyInt32 n) | Some (AnyInt64 n) => Some n
  | Some (AnyFloat32 f) | Some (AnyFloat64 f) => Some (float_to_int64 f)
  | Some (AnyString s) => Atoi (TrimSpace s)
  | _ => None
  end.

Definition exceeds (args : gmap string any) (key : string) (bound : Z) : bool :=
  match readInt args key with Some n => (bound <? n)%Z | None => false end.

Definition matchLargeEnumeration (args : gmap string any) : option string :=
  if exceeds args "page_size" largeEnumPageSize then Some "large_enumeration:page_size"
  else if exceeds args "limit" largeEnumPageSize then Some "large_enumeration:limit"
  else if exceeds args "in_clause_size" largeEnumInClauseSize then Some "large_enumeration:in_clause"
  else None.

(** The resource belongs to another tenant, by its owner or by its identifier. *)
Definition foreign_owner (actx : AuthContext) (r : option ActionTargetResource) : bool :=
  match r with
  | Some r => negb (tr_OwnerTenant r =s? "") && negb (tr_OwnerTenant r =s? ac_Tenant actx) && negb (ac_AllowCrossTenant actx)
  | None => false
  end.

Definition foreign_prefix (actx : AuthContext) (r : option ActionTargetResource) : option string :=
  match r with
  | Some r => if tr_ID r =s? "" then None
              else match tenantPrefixRe (tr_ID r) with
                   | Some p => if negb (p =s? ac_Tenant actx) && negb (ac_AllowCrossTenant actx) then Some p else None
                   | None => None
                   end
  | None => None
  end.

Definition resource_type (act : ActionDescriptor) : string := match TargetResource act with Some r => tr_Type r | None => "" end.

Definition TenantGate (actx : option AuthContext) (act : ActionDescriptor) : ActionGateDecision :=
  if negb (Kind act =s? ActionKindTenantQuery) && negb (Kind act =s? ActionKindMutation) then zero_decision
  else match authenticated actx with
       | None => mkGateDecision DT_DENY GateIDTenant CodeUnauthorized "authentication required" "missing_auth"
                   {["gate" := GateIDTenant; "sub_reason" := "missing_auth"]}
       | Some a =>
           let authTenant := ac_Tenant a in
           if foreign_owner a (TargetResource act)
           then denyTenant authTenant "tenant boundary violation" "cross_tenant:owner_mismatch"
                  {["resource_type" := resource_type act; "auth_tenant" := authTenant]}
           else match foreign_prefix a (TargetResource act) with
                | Some p => denyTenant authTenant "tenant boundary violation" "cross_tenant:prefixed_id_mismatch"
                              {["resource_type" := resource_type act; "detected_prefix" := p]}
                | None =>
                    match (if ac_AllowCrossTenant a then None else matchWildcardOwnerFilter (Filters act) (Wildcards act)) with
                    | Some reason => denyTenant authTenant "tenant boundary violation" reason ∅
                    | None =>
                        match (if roleHasCompliance (ac_Role a) then None else matchArchivedBypass (Filters act)) with
                        | Some reason => denyTenant authTenant "archived record query denied" reason ∅
                        | None =>
                            match matchLargeEnumeration (Args act) with
                            | Some reason => mkGateDecision DT_REQUIRE_HUMAN GateIDTenant CodeRequireHuman "large enumeration requires human approval" reason
                                               {["gate" := GateIDTenant; "sub_reason" := reason; "auth_tenant" := authTenant]}
                            | None => mkGateDecision DT_ALLOW GateIDTenant "" "" "" ∅
                            end
                        end
                    end
                end
       end.

(** ** Approvals *)

(** [edge.EdgeApproval], with the fields a gate or a chain verifier reads. *)
Record EdgeApproval := mkEdgeApproval {
  ea_ApprovalRef : string;
  ea_TenantID : string;
  ea_Requester : string;
  ea_ResolverID : string;
  ea_Status : string;
  ea_Decision : string;
  ea_ActionHash : string;
  ea_CreatedAt : option Z;  (* [None] is the zero time *)
  ea_ExpiresAt : option Z;
  ea_ResolvedAt : option Z;
  ea_ConsumedAt : option Z;
}.

Definition ApprovalStatusApproved : string := "approved".
Definition ApprovalDecisionApprove : string := "approve".

Definition sanitizeErr (err : string) : string :=
  TrimSpace (ReplaceByte (ReplaceByte err (ascii_of_nat 13) " "%char) (ascii_of_nat 10) " "%char).

(** *** The hash of an action *)

Fixpoint insert_string (s : string) (l : list string) : list string :=
  match l with [] => [s] | t :: l' => if String.leb s t then s :: l else t :: insert_string s l' end.
Definition sortedCopy (l : list string) : list string := foldr insert_string [] l.

Definition opt_member (present : bool) (k : string) (v : any) : amap := if present then [(k, v)] else [].

Definition canonicalPayload (act : ActionDescriptor) : amap :=
  ([("kind", AnyString (Kind act)); ("verb", AnyString (Verb act))]
   ++ opt_member (negb (ad_Server act =s? "")) "server" (AnyString (ad_Server act))
   ++ opt_member (negb (ad_Tool act =s? "")) "tool" (AnyString (ad_Tool act))
   ++ opt_member (negb (TargetPath act =s? "")) "target_path" (AnyString (TargetPath act))
   ++ opt_member (negb (TargetURL act =s? "")) "target_url" (AnyString (TargetURL act))
   ++ match TargetResource act with
      | Some r => [("target_resource", AnyMap [("type", AnyString (tr_Type r)); ("id", AnyString (tr_ID r)); ("owner_tenant", AnyString (tr_OwnerTenant r))])]
      | None => []
      end
   ++ opt_member (negb (bool_decide (Filters act = ∅))) "filters" (AnyStringMap (map_to_list (Filters act)))
   ++ opt_member (negb (bool_decide (Wildcards act = []))) "wildcards" (AnyStrings (sortedCopy (Wildcards act)))
   ++ opt_member (negb (bool_decide (map_to_list (Args act) = []))) "args" (AnyMap (map_to_list (Args act)))
   ++ opt_member (negb (bool_decide (ad_RiskTags act = []))) "risk_tags" (AnyStrings (sortedCopy (ad_RiskTags act))))%list.

Definition CanonicalActionHash `{JsonFloat} (act : ActionDescriptor) : string :=
  match MarshalAny (AnyMap (canonicalPayload act)) with Some buf => sha256_hex buf | None => "" end.

(** *** Binding an approval to an action *)

Record approvalBindingFailure := mkBindingFailure { bf_Decision : DecisionType; bf_Code : string; bf_Reason : string; bf_SubReason : string }.

Definition approvalBindingAccessDenied (reason subReason : string) : approvalBindingFailure :=
  mkBindingFailure DT_DENY CodeAccessDenied reason subReason.
Definition approvalBindingConflict (subReason : string) : approvalBindingFailure :=
  mkBindingFailure DT_DENY CodeConflict "approval cannot be used for this action" subReason.
Definition approvalLookupFailure (err : string) : approvalBindingFailure :=
  mkBindingFailure DT_DENY CodeInternalError "approval lookup failed" ("approval_lookup_failed:" +:+ sanitizeErr err).

(** [None]: the approval holds. *)
Definition validateApprovalBinding (now : Z) (approval : EdgeApproval) (actx : AuthContext) (actionHash : string) : option approvalBindingFailure :=
  if negb (ea_TenantID approval =s? ac_Tenant actx) then Some (approvalBindingAccessDenied "approval is for a different tenant" "approval_tenant_mismatch")
  else if negb (ea_ResolverID approval =s? "") && (ea_ResolverID approval =s? ac_PrincipalID actx)
  then Some (approvalBindingAccessDenied "self-approval is not allowed" "self_approval")
  else if negb (ea_Status approval =s? ApprovalStatusApproved) then Some (approvalBindingConflict ("approval_status_" +:+ ea_Status approval))
  else if negb (ea_Decision approval =s? ApprovalDecisionApprove) then Some (approvalBindingConflict ("approval_decision_" +:+ ea_Decision approval))
  else if bool_decide (ea_ConsumedAt approval <> None) then Some (approvalBindingConflict "approval_consumed")
  else if match ea_ExpiresAt approval with Some e => (e <? now)%Z | None => false end then Some (approvalBindingConflict "approval_expired")
  else if negb (ea_ActionHash approval =s? actionHash) then Some (approvalBindingConflict "approval_mismatch")
  else None.

(** [LookupByApprovalRef]: the gate that asks, the tenant, the reference. *)
Definition ApprovalLookup : Type := string -> string -> string -> result string (option EdgeApproval).

Definition bindApprovalRef `{JsonFloat} (gate : string) (now : Z) (lookup : option ApprovalLookup) (actx : AuthContext) (act : ActionDescriptor)
    (approvalRef : string) : result approvalBindingFailure EdgeApproval :=
  let ref := TrimSpace approvalRef in
  if ref =s? "" then Err (mkBindingFailure DT_REQUIRE_HUMAN CodeRequireHuman "action requires backend-verified human approval" "missing_approval")
  else match lookup with
       | None => Err (mkBindingFailure DT_DENY CodeInternalError "approval lookup unavailable" "approval_lookup_failed:nil_lookup")
       | Some lookup =>
           match lookup gate (ac_Tenant actx) ref with
           | Err e => Err (approvalLookupFailure e)
           | Ok None => Err (mkBindingFailure DT_DENY CodeNotFound "no approval record for this action" "approval_not_found")
           | Ok (Some approval) =>
               match validateApprovalBinding now approval actx (CanonicalActionHash act) with
               | Some failure => Err failure
               | None => Ok approval
               end
           end
       end.

(** ** Mutations *)

Definition destructiveVerbs : list string :=
  ["delete"; "drop"; "truncate"; "export"; "payment"; "admin_grant"; "admin_revoke"; "role_assign"; "role_remove"; "license_create";
   "license_revoke"; "license_change"; "key_rotate"; "key_delete"; "secrets_write"; "secrets_delete"; "config_write"; "config_delete";
   "backup_restore"; "tenant_create"; "tenant_delete"].

Definition IsDestructiveVerb (v : string) : bool := existsb (fun d => d =s? v) destructiveVerbs.

Definition with_target_type (act : ActionDescriptor) (m : gmap string string) : gmap string string :=
  if resource_type act =s? "" then m else <["target_type" := resource_type act]> m.

Definition mutExtra (act : ActionDescriptor) (sub : string) : gmap string string :=
  with_target_type act {["gate" := GateIDMutation; "sub_reason" := sub; "verb" := Verb act]}.

Definition mutDecision (decision : DecisionType) (act : ActionDescriptor) (code reason sub : string) : ActionGateDecision :=
  mkGateDecision decision GateIDMutation code reason sub (mutExtra act sub).

(** [ResourceExists]. *)
Definition ResourceLookup : Type := string -> ActionTargetResource -> result string bool.

Definition resource_to_check (act : ActionDescriptor) : option ActionTargetResource :=
  match TargetResource act with Some r => if TrimSpace (tr_ID r) =s? "" then None else Some r | None => None end.

Definition claimed_ref (act : ActionDescriptor) : string := match ApprovalClaim act with Some c => ApprovalRef c | None => "" end.

Definition MutationGate `{JsonFloat} (approvals : option ApprovalLookup) (resources : option ResourceLookup) (now : Z) (actx : option AuthContext)
    (act : ActionDescriptor) : ActionGateDecision :=
  if negb (Kind act =s? ActionKindMutation) || negb (IsDestructiveVerb (Verb act)) then zero_decision
  else match authenticated actx with
       | None => mutDecision DT_DENY act CodeUnauthorized "authentication required" "missing_auth"
       | Some a =>
           if TrimSpace (claimed_ref act) =s? "" then mutDecision DT_REQUIRE_HUMAN act CodeRequireHuman "destructive action requires human approval" "missing_approval"
           else match bindApprovalRef GateIDMutation now approvals a act (claimed_ref act) with
                | Err f => mutDecision (bf_Decision f) act (bf_Code f) (bf_Reason f) (bf_SubReason f)
                | Ok approval =>
                    let allow := mkGateDecision DT_ALLOW GateIDMutation "" "destructive action authorized by backend approval" "approved"
                                   (<["single_use" := "true"]> (<["approval_ref" := ea_ApprovalRef approval]> (mutExtra act "approved"))) in
                    match resources, resource_to_check act with
                    | Some exists_, Some r =>
                        match exists_ (ac_Tenant a) r with
                        | Err e => mutDecision DT_DENY act CodeServiceUnavailable "target lookup unavailable" ("resource_lookup_failed:" +:+ sanitizeErr e)
                        | Ok false => mutDecision DT_DENY act CodeNotFound "target resource not found" "resource_not_found"
                        | Ok true => allow
                        end
                    | _, _ => allow
                    end
                end
       end.

(** ** Provenance *)

Definition RiskTagRequiresProvenance : string := "requires_provenance".
Definition UnverifiedClaimReason : string := "approval claim text is not a substitute for a backend-verified approval record".

Definition ChainStatusOK : string := "ok".
Definition ChainStatusPartial : string := "partial".
Definition ChainStatusCompromised : string := "compromised".

Record ChainVerifyOutcome := mkChainOutcome { co_Status : string; co_HasEvidenceGap : bool; co_Detail : string }.

(** [VerifyForApproval]. *)
Definition ChainVerifier : Type := string -> EdgeApproval -> result string ChainVerifyOutcome.

Definition requiresProvenance (act : ActionDescriptor) : bool :=
  ((Kind act =s? ActionKindMutation) && IsDestructiveVerb (Verb act))
  || existsb (fun tag => EqualFold (TrimSpace tag) RiskTagRequiresProvenance) (ad_RiskTags act).

Definition provExtra (act : ActionDescriptor) (sub : string) : gmap string string :=
  let m := {["gate" := GateIDProvenance; "sub_reason" := sub; "kind" := Kind act]} in
  with_target_type act (if Verb act =s? "" then m else <["verb" := Verb act]> m).

Definition provDecision (decision : DecisionType) (act : ActionDescriptor) (code reason sub : string) : ActionGateDecision :=
  mkGateDecision decision GateIDProvenance code reason sub (provExtra act sub).

Definition chainDetail (o : ChainVerifyOutcome) : string :=
  let d := TrimSpace (co_Detail o) in if d =s? "" then co_Status o else co_Status o +:+ ":" +:+ d.

Definition sanitizeClaimLen (s : string) : string :=
  let n := String.length s in
  if (n =? 0)%nat then "0" else if (n <=? 32)%nat then "<=32" else if (n <=? 128)%nat then "<=128" else if (n <=? 512)%nat then "<=512" else ">512".

Definition with_extra (f : gmap string string -> gmap string string) (d : ActionGateDecision) : ActionGateDecision :=
  mkGateDecision (gd_Decision d) (gd_GateID d) (gd_Code d) (gd_Reason d) (gd_SubReason d) (f (gd_Extra d)).

(** The answer once the chain has been asked about the approval. *)
Definition chain_decision (act : ActionDescriptor) (answer : result string ChainVerifyOutcome) : ActionGateDecision :=
  match answer with
  | Err e => provDecision DT_DENY act CodeServiceUnavailable "audit chain verification failed" ("audit_chain_verify_failed:" +:+ sanitizeErr e)
  | Ok outcome =>
      if co_Status outcome =s? ChainStatusCompromised
      then provDecision DT_DENY act CodeInternalError "audit chain reports tampering" ("audit_chain_compromised:" +:+ chainDetail outcome)
      else if co_HasEvidenceGap outcome
      then provDecision DT_DENY act CodeInternalError "audit evidence for this approval is missing" ("audit_evidence_missing:" +:+ chainDetail outcome)
      else provDecision DT_ALLOW act "" "approval backed by verified audit chain" ("provenance_ok:" +:+ co_Status outcome)
  end.

Definition ProvenanceGate `{JsonFloat} (approvals : option ApprovalLookup) (verifier : option ChainVerifier) (now : Z) (actx : option AuthContext)
    (act : ActionDescriptor) : ActionGateDecision :=
  if negb (requiresProvenance act) then zero_decision
  else match authenticated actx with
       | None => provDecision DT_DENY act CodeUnauthorized "authentication required" "missing_auth"
       | Some a =>
           let text := match ApprovalClaim act with Some c => ClaimText c | None => "" end in
           let hasClaimText := negb (TrimSpace text =s? "") in
           let hasApprovalRef := negb (TrimSpace (claimed_ref act) =s? "") in
           if hasClaimText && negb hasApprovalRef
           then with_extra (fun m => <["claim_chars" := sanitizeClaimLen text]> (<["claim_present" := "true"]> m))
                  (provDecision DT_DENY act CodeAccessDenied UnverifiedClaimReason "unverified_claim")
           else if negb hasApprovalRef
           then provDecision DT_REQUIRE_HUMAN act CodeRequireHuman "action requires backend-verified human approval" "missing_approval"
           else if bool_decide (is_Some approvals) then
             match bindApprovalRef GateIDProvenance now approvals a act (claimed_ref act) with
             | Err f => provDecision (bf_Decision f) act (bf_Code f) (bf_Reason f) (bf_SubReason f)
             | Ok approval =>
                 match verifier with
                 | None => provDecision DT_DENY act CodeServiceUnavailable "audit chain verifier unavailable" "audit_chain_verifier_unavailable"
                 | Some verify => chain_decision act (verify (ac_Tenant a) approval)
                 end
             end
           else provDecision DT_DENY act CodeInternalError "approval lookup unavailable" "approval_lookup_failed:nil_lookup"
       end.

(** ** MCP calls *)

(** [mcp.AgentIdentity], the allow lists of the caller. *)
Record MCPIdentity := mkMCPIdentity {
  mi_AllowedServers : list string;
  mi_AllowedTools : list string;
  mi_AllowedResources : list string;
  mi_Entitlements : list string;
}.

Record DangerousParamRule := mkDangerousParam { dp_Name : string; dp_Value : any }.

Record MCPGateOptions := mkMCPOptions {
  mo_Identities : option (string -> string -> result string (option MCPIdentity));
  mo_Reachability : option (string -> result string bool);
  mo_Dangerous : gmap string (list DangerousParamRule);
  mo_ToolGlobs : list string;
  mo_MutationArgKeys : list string;
  mo_MutationFieldGlobs : list string;
  mo_FailClosedTaintLookup : bool;
}.

Definition RiskTagSessionPromptInjection : string := "session:prompt-injection".
Definition defaultDestructiveToolGlobs : list string := ["*delete*"; "*remove*"; "*archive*"].
Definition defaultDestructiveMutationArgKeys : list string := ["query"; "mutation"; "gql"; "graphql"].
Definition defaultDestructiveMutationFieldGlobs : list string := ["delete_*"; "archive_*"; "remove_*"; "delete"; "archive"; "remove"].
Definition maxArgMutationScanBytes : nat := Z.to_nat 16384.

Definition normalizeStringList (values defaults : list string) : list string :=
  match List.filter (fun v => negb (v =s? "")) (map TrimSpace values) with [] => defaults | l => l end.
Definition normalizeDestructiveToolGlobs (globs : list string) : list string := normalizeStringList globs defaultDestructiveToolGlobs.

(** Some pattern matches the value; an empty value matches none. *)
Definition globAdmits (patterns : list string) (value : string) : bool :=
  let value := TrimSpace value in
  negb (value =s? "") && existsb (fun p => let p := TrimSpace p in negb (p =s? "") && PathMatch p value) patterns.

Definition hasEntitlement (have : list string) (required : string) : bool :=
  let want := TrimSpace required in (want =s? "") || existsb (fun e => EqualFold (TrimSpace e) want) have.

Definition containsRiskTag (tags : list string) (want : string) : bool := existsb (fun t => EqualFold t want) tags.

(** *** GraphQL documents in the arguments *)

Definition word_char (c : ascii) : bool := is_alnum c || Ascii.eqb c "_"%char.
Definition regexp_space (c : ascii) : bool :=
  let n := nat_of_ascii c in (n =? 9)%nat || (n =? 10)%nat || (n =? 12)%nat || (n =? 13)%nat || (n =? 32)%nat.

(** [\bmutation\b] somewhere; [before] is the character before. *)
Fixpoint mutation_keyword (before : bool) (s : string) : bool :=
  (negb before && HasPrefix s "mutation" && negb (match drop 8 s with String c _ => word_char c | EmptyString => false end))
  || match s with EmptyString => false | String c r => mutation_keyword (word_char c) r end.

(** The identifiers that [graphqlFieldInvocationRe] finds: each is followed by blanks,
    if any, and an opening parenthesis.  [name] is the identifier read so far, [blank]
    whether blanks followed it. *)
Fixpoint field_invocations (name : string) (blank : bool) (s : string) : list string :=
  match s with
  | EmptyString => []
  | String c r =>
      if word_char c then
        let name := if blank then "" else name in
        field_invocations (if (name =s? "") && is_digit c then "" else name +:+ String c EmptyString) false r
      else if Ascii.eqb c "("%char then
        if name =s? "" then field_invocations "" false r else name :: field_invocations "" false r
      else if regexp_space c && negb (name =s? "") then field_invocations name true r
      else field_invocations "" false r
  end.

Definition mutation_fields (doc : string) : list string :=
  let lower := ToLower (take maxArgMutationScanBytes doc) in
  if mutation_keyword false lower then field_invocations "" false lower else [].

(** The first destructive field of the document in this argument. *)
Definition destructive_field (args : gmap string any) (fieldGlobs : list string) (key : string) : option string :=
  match args !! key with
  | Some (AnyString doc) => if TrimSpace doc =s? "" then None else List.find (globAdmits fieldGlobs) (mutation_fields doc)
  | _ => None
  end.

Definition matchesDestructiveMutationArgs (args : gmap string any) (argKeys fieldGlobs : list string) : option string :=
  find_first (destructive_field args fieldGlobs) argKeys.

(** *** Dangerous parameters *)

Section Parameters.
Context `{GoRuntime} `{FloatParser} `{JsonFloat}.

Definition jsonRoundTripValue (v : any) : any :=
  match MarshalAny v with None => v | Some _ => default v (RoundTrip v) end.

Definition normalizeDangerousParamRules (rules : gmap string (list DangerousParamRule)) : gmap string (list DangerousParamRule) :=
  map (fun r => mkDangerousParam (dp_Name r) (jsonRoundTripValue (dp_Value r))) <$> rules.

Definition toFloat64 (v : any) : option spec_float :=
  match v with
  | AnyFloat64 f => Some f
  | AnyFloat32 f => Some (float32_to_64 f)
  | AnyInt z | AnyInt32 z | AnyInt64 z | AnyIntK _ z => Some (int64_to_float z)
  | AnyNumber s => ParseFloat s
  | _ => None
  end.

Definition dangerousParamMatches (actual want : any) : bool :=
  DeepEqual actual want
  || match toFloat64 actual, toFloat64 want with
     | Some a, Some w => SFeqb a w
     | _, _ => match MarshalAny actual, MarshalAny want with Some a, Some w => a =s? w | _, _ => false end
     end.

Definition dangerous_rule (args : gmap string any) (rule : DangerousParamRule) : option string :=
  let name := TrimSpace (dp_Name rule) in
  if name =s? "" then None
  else match args !! name with
       | Some actual => if dangerousParamMatches actual (dp_Value rule) then Some ("dangerous_param:" +:+ name) else None
       | None => None
       end.

Definition matchDangerousParams (rules : gmap string (list DangerousParamRule)) (tool : string) (args : gmap string any) : option string :=
  find_first (fun '(pattern, set) =>
    let p := TrimSpace pattern in
    if negb (p =s? "") && PathMatch p (TrimSpace tool) then find_first (dangerous_rule args) set else None) (range_map rules).

(** *** The gate *)

Definition taint_extra (t : ActionSessionTaint) (m : gmap string string) : gmap string string :=
  let put k v m := if v =s? "" then m else <[k := v]> m in
  put "taint_source_tool" (tn_SourceTool t) (put "taint_snippet" (tn_Snippet t) (put "taint_pattern" (tn_Pattern t) m)).

Definition mcpExtra (act : ActionDescriptor) (sub : string) : gmap string string :=
  let m := {["gate" := GateIDMCP; "sub_reason" := sub]} in
  let m := if ad_Server act =s? "" then m else <["server" := ad_Server act]> m in
  let m := if ad_Tool act =s? "" then m else <["tool" := ad_Tool act]> m in
  match SessionTaint act with Some t => taint_extra t m | None => m end.

Definition mcpDecision (decision : DecisionType) (act : ActionDescriptor) (code reason sub : string) : ActionGateDecision :=
  mkGateDecision decision GateIDMCP code reason sub (mcpExtra act sub).

(** What made the call destructive: the name of the tool or a mutation in an argument. *)
Definition destructiveCall (opts : MCPGateOptions) (act : ActionDescriptor) : option string :=
  if globAdmits (normalizeDestructiveToolGlobs (mo_ToolGlobs opts)) (ad_Tool act) then Some (ad_Tool act)
  else (fun field => "mutation:" +:+ field)
       <$> matchesDestructiveMutationArgs (Args act) (normalizeStringList (mo_MutationArgKeys opts) defaultDestructiveMutationArgKeys)
             (normalizeStringList (mo_MutationFieldGlobs opts) defaultDestructiveMutationFieldGlobs).

Definition caller_agent (meta : PolicyMeta) (labels : gmap string string) : string :=
  let id := TrimSpace (AgentID meta) in if id =s? "" then TrimSpace (get_str labels "agent_id") else id.

(** What the allow lists of the identity object to. *)
Definition not_admitted (rules : gmap string (list DangerousParamRule)) (id : MCPIdentity) (act : ActionDescriptor) : option (string * string) :=
  if negb (globAdmits (mi_AllowedServers id) (ad_Server act)) then Some ("MCP server is not allow-listed for this identity", "server_not_allowlisted")
  else if negb (globAdmits (mi_AllowedTools id) (ad_Tool act)) then Some ("MCP tool is not allow-listed for this identity", "tool_not_allowlisted")
  else if negb (TargetURL act =s? "") && negb (globAdmits (mi_AllowedResources id) (TargetURL act))
  then Some ("MCP resource is not allow-listed for this identity", "resource_not_allowlisted")
  else if negb (TrimSpace (RequiredEntitlement act) =s? "") && negb (hasEntitlement (mi_Entitlements id) (RequiredEntitlement act))
  then Some ("identity lacks required entitlement", "unlicensed")
  else (fun sub => ("action carries a dangerous parameter", sub)) <$> matchDangerousParams rules (ad_Tool act) (Args act).

(** The decision of a destructive call in a session that is or may be tainted. *)
Definition taint_decision (opts : MCPGateOptions) (act : ActionDescriptor) : option ActionGateDecision :=
  let tainted := containsRiskTag (ad_RiskTags act) RiskTagSessionPromptInjection in
  if negb (tainted || (mo_FailClosedTaintLookup opts && TaintLookupFailed act)) then None
  else (fun hit => with_extra (<["taint_destructive_match" := hit]>)
          (if tainted
           then mcpDecision DT_DENY act CodeAccessDenied
                  "destructive action blocked: session tainted by prompt injection detected in a prior tool result" "session_tainted_prompt_injection"
           else mcpDecision DT_REQUIRE_HUMAN act CodeRequireHuman
                  "destructive action held: session taint store unavailable, cannot confirm session is clean" "taint_lookup_unavailable_failclosed"))
       <$> destructiveCall opts act.

Definition reach_decision (opts : MCPGateOptions) (act : ActionDescriptor) : option ActionGateDecision :=
  match mo_Reachability opts with
  | Some probe =>
      if TrimSpace (ad_Server act) =s? "" then None
      else match probe (ad_Server act) with
           | Err e => Some (mcpDecision DT_DENY act CodeServiceUnavailable "MCP server reachability probe failed" ("reachability_probe_failed:" +:+ sanitizeErr e))
           | Ok false => Some (mcpDecision DT_DENY act CodeServiceUnavailable "MCP server is currently unreachable" "server_unreachable")
           | Ok true => None
           end
  | None => None
  end.

Definition MCPGate (opts : MCPGateOptions) (actx : option AuthContext) (meta : PolicyMeta) (labels : gmap string string) (act : ActionDescriptor)
    : ActionGateDecision :=
  if negb (Kind act =s? ActionKindMCPCall) then zero_decision
  else match authenticated actx with
       | None => mcpDecision DT_DENY act CodeUnauthorized "authentication required" "missing_auth"
       | Some a =>
           let agentID := caller_agent meta labels in
           if agentID =s? "" then mcpDecision DT_DENY act CodeUnauthorized "agent identity required for mcp_call" "missing_agent_id"
           else match mo_Identities opts with
                | None => mcpDecision DT_DENY act CodeInternalError "identity resolver unavailable" "identity_resolver_unavailable"
                | Some resolve =>
                    match resolve (ac_Tenant a) agentID with
                    | Err e => mcpDecision DT_DENY act CodeInternalError "identity resolution failed" ("identity_lookup_failed:" +:+ sanitizeErr e)
                    | Ok None => mcpDecision DT_DENY act CodeUnauthorized "agent identity not found" "no_identity"
                    | Ok (Some id) =>
                        match not_admitted (normalizeDangerousParamRules (mo_Dangerous opts)) id act with
                        | Some (reason, sub) => mcpDecision DT_DENY act CodeAccessDenied reason sub
                        | None =>
                            match taint_decision opts act with
                            | Some d => d
                            | None => match reach_decision opts act with
                                      | Some d => d
                                      | None => mcpDecision DT_ALLOW act "" "mcp call authorized" "allowed"
                                      end
                            end
                        end
                    end
                end
       end.

End Parameters.
