(* ===== verification/FileGate.v ===== *)
(** * The file gate

    core/policy/actiongates/file_gate.go.  A requested path is decoded, checked for
    null bytes, traversal and devices, brought to a canonical form and compared with
    credential files and sensitive places.  Regular expressions are the functions that
    find the same matches.  The Go library functions used ([url.QueryUnescape],
    [path.Clean], [strings.TrimRight] with a cutset) come first. *)
From Stdlib Require Import Ascii.
From S2P Require Import Prelude.
From S2P Require Import GoStrings.
From S2P Require Import PolicyTypes.
From S2P Require Import Kernel.
From S2P Require Import ActionGates.

Open Scope string_scope.

(** ** Library functions *)

Definition slash : ascii := "/"%char.

Definition unhex (c : ascii) : option nat :=
  let n := nat_of_ascii c in
  if is_digit c then Some (n - 48)
  else if (97 <=? n)%nat && (n <=? 102)%nat then Some (n - 87)
  else if (65 <=? n)%nat && (n <=? 70)%nat then Some (n - 55) else None.

(** [url.QueryUnescape]. *)
Fixpoint QueryUnescape (s : string) : option string :=
  match s with
  | EmptyString => Some EmptyString
  | String c r =>
      if Ascii.eqb c "%"%char then
        match r with
        | String a (String b r') =>
            match unhex a, unhex b with
            | Some x, Some y => String (ascii_of_nat (16 * x + y)) <$> QueryUnescape r'
            | _, _ => None
            end
        | _ => None
        end
      else String (if Ascii.eqb c "+"%char then " "%char else c) <$> QueryUnescape r
  end.

(** [strings.TrimRight(s, cutset)]. *)
Fixpoint TrimRightSet (cut : ascii -> bool) (s : string) : string :=
  match s with
  | EmptyString => EmptyString
  | String c r => match TrimRightSet cut r with
                  | EmptyString => if cut c then EmptyString else String c EmptyString
                  | r => String c r
                  end
  end.

(** [path.Clean]: the segments that remain, the last one first. *)
Fixpoint clean_segments (rooted : bool) (out segs : list string) : list string :=
  match segs with
  | [] => out
  | s :: segs =>
      if (s =s? "") || (s =s? ".") then clean_segments rooted out segs
      else if s =s? ".." then
        match out with
        | [] => clean_segments rooted (if rooted then [] else [".."]) segs
        | d :: out' => clean_segments rooted (if d =s? ".." then ".." :: out else out') segs
        end
      else clean_segments rooted (s :: out) segs
  end.

Definition Clean (s : string) : string :=
  let rooted := HasPrefix s "/" in
  let segs := reverse (clean_segments rooted [] (Split s slash)) in
  if rooted then "/" +:+ Join segs "/" else match segs with [] => "." | _ => Join segs "/" end.

(** ** Checks before the canonical form *)

Definition containsEncodedNull (s : string) : bool := let l := ToLower s in Contains l "%00" || Contains l "%2500".

Definition null_byte : string := String (ascii_of_nat 0) EmptyString.

Definition to_slashes (s : string) : string := ReplaceByte s backslash slash.

Definition hasTraversalSegment (s : string) : bool :=
  let n := to_slashes s in
  Contains n "/../" || HasSuffix n "/.." || HasPrefix n "../" || (n =s? "..") || (HasPrefix n "~/" && Contains (drop 2 n) "..").

Definition isDOSDeviceNamespace (s : string) : bool :=
  let n := to_slashes s in
  if negb (HasPrefix n "//./") && negb (HasPrefix n "//.") then false
  else let rest := TrimPrefix (TrimPrefix (TrimPrefix n "//./") "//.") "/" in
       (rest =s? "") || negb (Contains rest ":").

(** Three rounds of decoding at most. *)
Fixpoint url_decode (rounds : nat) (s : string) : string :=
  match rounds with
  | O => s
  | S rounds => match QueryUnescape s with Some u => if u =s? s then s else url_decode rounds u | None => s end
  end.

(** ** The canonical form *)

Definition name_start (c : ascii) : bool := word_char c && negb (is_digit c).
Definition name_char (name : string) (c : ascii) : bool := if name =s? "" then name_start c else word_char c.

Definition windows_env (name : string) : string :=
  let name := ToLower name in
  if name =s? "userprofile" then "C:\Users\_user_"
  else if name =s? "homepath" then "\Users\_user_"
  else if name =s? "appdata" then "C:\Users\_user_\AppData\Roaming"
  else if name =s? "localappdata" then "C:\Users\_user_\AppData\Local"
  else if name =s? "programdata" then "C:\ProgramData"
  else if (name =s? "windir") || (name =s? "systemroot") then "C:\Windows"
  else if name =s? "system32" then "C:\Windows\System32"
  else "\_env_" +:+ name +:+ "_\".

(** [windowsEnvRe.ReplaceAllStringFunc]; [pending] is the name read since a percent
    sign. *)
Fixpoint expand_windows (pending : option string) (s : string) : string :=
  match s with
  | EmptyString => match pending with Some n => "%" +:+ n | None => "" end
  | String c r =>
      match pending with
      | None => if Ascii.eqb c "%"%char then expand_windows (Some "") r else String c (expand_windows None r)
      | Some n =>
          if Ascii.eqb c "%"%char then
            if n =s? "" then "%" +:+ expand_windows (Some "") r else windows_env n +:+ expand_windows None r
          else if name_char n c then expand_windows (Some (n +:+ String c EmptyString)) r
          else "%" +:+ n +:+ String c (expand_windows None r)
      end
  end.
Definition expandWindowsEnv : string -> string := expand_windows None.

Definition posix_env (name : string) : string :=
  let name := ToLower name in if name =s? "home" then "/home/_user_" else "/_env_" +:+ name +:+ "_".

(** A dollar sign and a brace that started no name. *)
Definition dollar (brace : bool) : string := if brace then "${" else "$".

(** [posixEnvRe.ReplaceAllStringFunc]; [pending] is what was read since a dollar sign:
    whether a brace was, and the name. *)
Fixpoint expand_posix (pending : option (bool * string)) (s : string) : string :=
  match s with
  | EmptyString => match pending with Some (b, n) => if n =s? "" then dollar b else posix_env n | None => "" end
  | String c r =>
      let next := if Ascii.eqb c "$"%char then expand_posix (Some (false, "")) r else String c (expand_posix None r) in
      match pending with
      | None => next
      | Some (b, n) =>
          if name_char n c then expand_posix (Some (b, n +:+ String c EmptyString)) r
          else if n =s? "" then
            if negb b && Ascii.eqb c "{"%char then expand_posix (Some (true, "")) r else dollar b +:+ next
          else if Ascii.eqb c "}"%char then posix_env n +:+ expand_posix None r
          else posix_env n +:+ next
      end
  end.
Definition expandPosixEnv : string -> string := expand_posix None.

Definition trim_segment (p : string) : string :=
  if (p =s? ".") || (p =s? "..") then p
  else let t := TrimRightSet (fun c => Ascii.eqb c "."%char || Ascii.eqb c " "%char) p in
       if t =s? "" then TrimRightSet (fun c => Ascii.eqb c " "%char) p else t.

Definition trimTrailingDotSpaceSegments (s : string) : string := Join (map trim_segment (Split s slash)) "/".

Definition canonicalizeFilePath (s : string) : string :=
  let s := expandPosixEnv (expandWindowsEnv s) in
  let s := if HasPrefix s "\\?\" || HasPrefix s "//?/" then TrimPrefix (TrimPrefix s "\\?\") "//?/" else s in
  let s := ToLower (to_slashes s) in
  let s := if HasPrefix s "~/" then "/home/_user_/" +:+ TrimPrefix s "~/" else s in
  Clean (trimTrailingDotSpaceSegments s).

(** ** Credential files *)

Definition envSecretTemplateSuffixes : list string := [".example"; ".sample"; ".template"; ".dist"; ".defaults"].

Definition matchEnvCredential (base : string) : option string :=
  if negb (base =s? ".env") && negb (HasPrefix base ".env.") then None
  else if existsb (fun suf => base =s? ".env" +:+ suf) envSecretTemplateSuffixes then None else Some "credential:dotenv".

Definition credentialExact : list (string * string) :=
  [("id_rsa", "credential:ssh_rsa"); ("id_rsa.pub", "credential:ssh_rsa_pub"); ("id_ed25519", "credential:ssh_ed25519");
   ("id_ed25519.pub", "credential:ssh_ed25519_pub"); ("id_dsa", "credential:ssh_dsa"); ("id_ecdsa", "credential:ssh_ecdsa");
   (".npmrc", "credential:npmrc"); (".netrc", "credential:netrc"); (".pgpass", "credential:pgpass");
   (".dockerconfigjson", "credential:docker_pull_secret"); ("credentials.json", "credential:gcp_or_generic_creds");
   ("keystore.jks", "credential:jks"); ("truststore.jks", "credential:jks")].

Definition credentialSuffix : list (string * string) :=
  [(".pem", "credential:pem"); (".key", "credential:key"); (".kdbx", "credential:kdbx"); (".pgp", "credential:pgp"); (".gpg", "credential:gpg");
   (".asc", "credential:pgp_asc"); (".p12", "credential:pkcs12"); (".pfx", "credential:pkcs12")].

Definition credentialPrefix : list (string * string * string) :=
  [("service_account", ".json", "credential:gcp_service_account"); ("service-account", ".json", "credential:gcp_service_account")].

Definition when_some (b : bool) (r : string) : option string := if b then Some r else None.

Definition basename (canon : string) : string := match cut_last slash canon with Some (_, b) => b | None => canon end.

Definition matchCredentialBasename (canon : string) : option string :=
  let base := basename canon in
  if base =s? "" then None
  else match matchEnvCredential base with
       | Some r => Some r
       | None =>
           match find_first (fun '(name, r) => when_some (base =s? name) r) credentialExact with
           | Some r => Some r
           | None =>
               match find_first (fun '(suf, r) => when_some (HasSuffix base suf) r) credentialSuffix with
               | Some r => Some r
               | None => find_first (fun '(p, suf, r) => when_some (HasPrefix base p && HasSuffix base suf) r) credentialPrefix
               end
           end
       end.

(** ** Sensitive places *)

Definition stripDriveLetter (canon : string) : string :=
  let '(first, rest) := if HasPrefix canon "/" then ("/", drop 1 canon) else ("", canon) in
  match rest with
  | String d (String c r) =>
      if Ascii.eqb c ":"%char && (97 <=? nat_of_ascii d)%nat && (nat_of_ascii d <=? 122)%nat then r else canon
  | _ => canon
  end.

Definition windowsHiveRoots : list string := ["windows"; "windows.old"; "_env_windows_.~bt"; "_env_windows_.~ws"].
Definition hives : list (string * string) :=
  [("sam", "sensitive_path:windows_sam"); ("security", "sensitive_path:windows_security_hive");
   ("system", "sensitive_path:windows_system_hive"); ("software", "sensitive_path:windows_software_hive")].

Fixpoint all_digits (s : string) : bool := match s with EmptyString => true | String c r => is_digit c && all_digits r end.

(** A hive, its transaction log or its backup. *)
Definition hive_file (name hive : string) : bool :=
  HasPrefix name hive
  && (let rest := drop (String.length hive) name in
      (rest =s? "") || (rest =s? ".sav") || (HasPrefix rest ".log" && all_digits (drop 4 rest))).

Definition no_newline (s : string) : bool := negb (Contains s (String (ascii_of_nat 10) EmptyString)).

(** What follows [/<root>/system32/config/]. *)
Definition config_subtree (stripped : string) : option (list string) :=
  match Split stripped slash with
  | e :: root :: sys :: cfg :: rest =>
      if (e =s? "") && existsb (fun r => root =s? r) windowsHiveRoots && (sys =s? "system32") && (cfg =s? "config") then Some rest else None
  | _ => None
  end.

(** [windowsHiveRe]. *)
Definition hive_match (rest : list string) : option string :=
  let tries l := match l with
                 | name :: tail => if forallb no_newline tail then find_first (fun '(h, r) => when_some (hive_file name h) r) hives else None
                 | [] => None
                 end in
  match rest with
  | "regback" :: l => match tries l with Some r => Some r | None => tries rest end
  | _ => tries rest
  end.

Fixpoint trim_digits (s : string) : string :=
  match s with
  | EmptyString => EmptyString
  | String c r => match trim_digits r with EmptyString => if is_digit c then EmptyString else String c EmptyString | r => String c r end
  end.

(** A name that ends in [suf], with something before it. *)
Definition proper_suffix (s suf : string) : bool := HasSuffix s suf && (String.length suf <? String.length s)%nat.

(** The last segment of [windowsHiveCLFSRe]. *)
Definition clfs_file (name : string) : bool :=
  existsb (fun ext =>
    HasSuffix name ext && (let g := TrimSuffix name ext in proper_suffix g ".tm" || proper_suffix (trim_digits g) ".tmcontainer"))
    [".blf"; ".regtrans-ms"].

Definition clfs_match (rest : list string) : bool :=
  match rest with [name] => clfs_file name | ["txr"; name] => clfs_file name | _ => false end.

Definition matchWindowsRegistryHive (canon : string) : option string :=
  match config_subtree (stripDriveLetter canon) with
  | None => None
  | Some rest => match hive_match rest with
                 | Some r => Some r
                 | None => when_some (clfs_match rest) "sensitive_path:windows_registry_clfs"
                 end
  end.

(** Prefix, writes only, reason. *)
Definition sensitivePaths : list (string * bool * string) :=
  [("/etc/shadow", false, "sensitive_path:etc_shadow"); ("/etc/sudoers", false, "sensitive_path:etc_sudoers");
   ("/etc/master.passwd", false, "sensitive_path:bsd_master_passwd"); ("/etc/security/", false, "sensitive_path:etc_security");
   ("/var/lib/secrets/", false, "sensitive_path:var_lib_secrets"); ("/proc/self/environ", false, "sensitive_path:proc_environ");
   ("/proc/self/cgroup", false, "sensitive_path:proc_cgroup"); ("/root/.ssh/", false, "sensitive_path:ssh");
   ("/root/.aws/", false, "sensitive_path:aws_creds"); ("/root/.docker/", false, "sensitive_path:docker_config");
   ("/root/.kube/", false, "sensitive_path:kube_config");
   ("/etc/passwd", true, "sensitive_path:etc_passwd_write"); ("/etc/group", true, "sensitive_path:etc_group_write");
   ("/etc/hosts", true, "sensitive_path:etc_hosts_write"); ("/boot/", true, "sensitive_path:boot_write"); ("/sbin/", true, "sensitive_path:sbin_write")].

(** At the prefix or below it. *)
Definition under (canon prefix : string) : bool :=
  (prefix =s? canon)
  || (HasPrefix canon prefix
      && ((prefix =s? "") || HasSuffix prefix "/" || (String.length canon =? String.length prefix)%nat
          || match drop (String.length prefix) canon with String c _ => Ascii.eqb c slash | EmptyString => false end)).

Definition suspects : list (string * string * string) :=
  [("/home/", "/.ssh/", "sensitive_path:user_ssh"); ("/home/", "/.aws/", "sensitive_path:user_aws_creds");
   ("/home/", "/.docker/", "sensitive_path:user_docker_config"); ("/home/", "/.kube/", "sensitive_path:user_kube_config");
   ("/users/", "/.ssh/", "sensitive_path:user_ssh"); ("/users/", "/.aws/", "sensitive_path:user_aws_creds");
   ("/users/", "/.docker/", "sensitive_path:user_docker_config"); ("/users/", "/.kube/", "sensitive_path:user_kube_config")].

Definition user_dir (canon : string) (s : string * string * string) : option string :=
  let '(root, sub, r) := s in
  if negb (HasPrefix canon root) then None
  else match cut_first slash (drop (String.length root) canon) with
       | Some (_, tail) => when_some (HasPrefix (String slash tail) sub) r
       | None => None
       end.

Definition matchHomeUserCredentialDir (canon : string) : option string := find_first (user_dir (stripDriveLetter canon)) suspects.

Definition matchSensitivePath (canon : string) (write : bool) : option string :=
  match matchWindowsRegistryHive canon with
  | Some r => Some r
  | None =>
      match find_first (fun '(prefix, writeOnly, r) => when_some (negb (writeOnly && negb write) && under canon prefix) r) sensitivePaths with
      | Some r => Some r
      | None => matchHomeUserCredentialDir canon
      end
  end.

(** ** The gate *)

Definition isWriteVerb (v : string) : bool := (v =s? "write") || IsDestructiveVerb v.

Definition deny_file (code reason subReason raw : string) : ActionGateDecision :=
  mkGateDecision DT_DENY GateIDFile code reason subReason
    {["gate" := GateIDFile; "sub_reason" := subReason; "target_len" := Itoa (Z.of_nat (String.length raw))]}.

Definition FileGate (act : ActionDescriptor) : ActionGateDecision :=
  if negb (Kind act =s? ActionKindFile) then zero_decision
  else
    let raw := TrimSpace (TargetPath act) in
    if raw =s? "" then zero_decision
    else if Contains raw null_byte || containsEncodedNull raw then deny_file CodeAccessDenied "filesystem access denied" "null_byte" raw
    else
      let decoded := url_decode 3 raw in
      if hasTraversalSegment decoded then deny_file CodeAccessDenied "filesystem traversal denied" "traversal" raw
      else if isDOSDeviceNamespace decoded then deny_file CodeAccessDenied "device access denied" "device_namespace" raw
      else
        let canon := canonicalizeFilePath decoded in
        match matchCredentialBasename canon with
        | Some reason => deny_file CodeAccessDenied "credential file access denied" reason raw
        | None =>
            match matchSensitivePath canon (isWriteVerb (Verb act)) with
            | Some reason => deny_file CodeAccessDenied "filesystem access denied" reason raw
            | None => mkGateDecision DT_ALLOW GateIDFile "" "" "" ∅
            end
        end.
