(* ===== verification/FileTheorems.v ===== *)
(** * The file gate on every spelling of a path

    A path has many spellings: either separator, several of them, dot segments, upper
    and lower case, dots and blanks at the end of a segment, a drive letter.
    [file_gate_decides] says that the gate's decision depends on the path alone, and is
    a denial exactly when the segments of the path are sensitive.  The last section
    shows what the gate misses. *)
From Stdlib Require Import Ascii.
From S2P Require Import Prelude.
From S2P Require Import GoStrings.
From S2P Require Import GoJson.
From S2P Require Import GoJsonAny.
From S2P Require Import PolicyTypes.
From S2P Require Import Kernel.
From S2P Require Import ActionGates.
From S2P Require Import FileGate.

Open Scope string_scope.

(** ** Strings and their parts *)

Lemma app_nil_str s : s +:+ "" = s.
Proof. induction s as [|c s IH]; [done|]. by rewrite str_cons_app, IH. Qed.

Lemma HasPrefix_iff s p : HasPrefix s p = true <-> exists r, s = p +:+ r.
Proof. split; [apply HasPrefix_app|]. intros [r ->]. apply prefix_app. Qed.

Lemma drop_length_app s p : drop (String.length s) (s +:+ p) = p.
Proof. apply drop_app. Qed.

Lemma str_length_app s t : String.length (s +:+ t) = (String.length s + String.length t)%nat.
Proof. induction s as [|c s IH]; [done|]. rewrite str_cons_app. cbn. by rewrite IH. Qed.

Lemma take_drop_str n s : take n s +:+ drop n s = s.
Proof. revert s. induction n as [|n IH]; intros [|c s]; try done. cbn [take drop]. by rewrite str_cons_app, IH. Qed.

Lemma HasSuffix_iff s p : HasSuffix s p = true <-> exists a, s = a +:+ p.
Proof.
  unfold HasSuffix. rewrite andb_true_iff, Nat.leb_le, String.eqb_eq. split.
  - intros [_ E]. exists (take (String.length s - String.length p) s). by rewrite <- E at 2; rewrite take_drop_str.
  - intros [a ->]. rewrite str_length_app. split; [lia|]. replace (String.length a + String.length p - String.length p)%nat with (String.length a) by lia. apply drop_app.
Qed.

Lemma Contains_iff s sub : Contains s sub = true <-> exists a b, s = a +:+ sub +:+ b.
Proof.
  induction s as [|c s IH]; cbn [Contains]; rewrite orb_true_iff, HasPrefix_iff.
  - split; [intros [[r E]|]; [by exists "", r|done]|]. intros (a & b & E). left. destruct a as [|d a]; [by exists b|]. by rewrite str_cons_app in E.
  - rewrite IH. split.
    + intros [[r E]|(a & b & ->)]; [by exists "", r|by exists (String c a), b].
    + intros ([|d a] & b & E); [left; by exists b|]. rewrite str_cons_app in E. injection E as -> ->. right. by exists a, b.
Qed.

(** A text without the separator goes in front of the first part. *)
Lemma Split_before s c t h l : sep_free c s -> Split t c = h :: l -> Split (s +:+ t) c = (s +:+ h) :: l.
Proof.
  induction s as [|a s IH]; intros Hs Ht; [done|]. rewrite str_cons_app. cbn [Split].
  destruct (Ascii.eqb_spec a c) as [->|Hne]; [exfalso; apply Hs; by left|]. rewrite IH; [done| |done]. intros Hin. apply Hs. by right.
Qed.

Lemma Join_app_cons l x k sep : l <> [] -> Join (l ++ x :: k) sep = Join l sep +:+ sep +:+ Join (x :: k) sep.
Proof.
  induction l as [|a l IH]; [done|]. intros _. destruct l as [|b l]; [done|].
  cbn [app]. change (Join (a :: b :: (l ++ x :: k)%list) sep) with (a +:+ sep +:+ Join ((b :: l) ++ x :: k) sep). rewrite IH by done.
  change (Join (a :: b :: l) sep) with (a +:+ sep +:+ Join (b :: l) sep). by rewrite <- !str_app_assoc.
Qed.

(** A segment [..] is found wherever it is. *)
Lemma traversal_iff n :
  (Contains n "/../" || HasSuffix n "/.." || HasPrefix n "../" || (n =s? "..")) = true <-> ".." ∈ Split n slash.
Proof.
  rewrite !orb_true_iff, Contains_iff, HasSuffix_iff, HasPrefix_iff, String.eqb_eq. split.
  - intros [[[(a & b & ->)|[a ->]]|[r ->]]| ->].
    + change ("/../" +:+ b) with (String slash (".." +:+ String slash b)). rewrite !Split_app. set_solver.
    + change "/.." with (String slash ".."). rewrite Split_app. set_solver.
    + change ("../" +:+ r) with (".." +:+ String slash r). rewrite Split_app. set_solver.
    + set_solver.
  - intros (l & k & E)%list_elem_of_split. assert (En : n = Join (Split n slash) "/") by (symmetry; apply (Join_Split n slash)).
    rewrite En, E. clear En E. destruct l as [|a l].
    + destruct k as [|x k]; [by right|]. left; right. by eexists.
    + rewrite Join_app_cons by done. destruct k as [|x k]; [left; left; right; by eexists|].
      left; left; left. eexists _, (Join (x :: k) "/"). reflexivity.
Qed.

(** ** Paths as segments *)

Definition path_string (segs : list string) : string := foldr (fun s acc => String slash (s +:+ acc)) "" segs.

Lemma path_join s segs : path_string (s :: segs) = "/" +:+ Join (s :: segs) "/".
Proof. revert s. induction segs as [|t segs IH]; intros s; cbn [path_string foldr]; [by rewrite app_nil_str|]. cbn [path_string foldr] in IH. by rewrite IH. Qed.

Lemma path_split segs : Forall (sep_free slash) segs -> Split (path_string segs) slash = "" :: segs.
Proof.
  intros H. destruct segs as [|s segs]; [done|]. rewrite path_join. change ("/" +:+ Join (s :: segs) "/") with ("" +:+ String slash (Join (s :: segs) "/")).
  rewrite Split_app. f_equal. by apply (Split_Join slash).
Qed.

Lemma path_string_app l k : path_string (l ++ k) = path_string l +:+ path_string k.
Proof. induction l as [|s l IH]; [done|]. unfold path_string in *. cbn [app foldr]. rewrite IH, str_cons_app. by rewrite <- str_app_assoc. Qed.

(** *** Cleaning *)

Definition keep : list string -> list string := List.filter (fun s => negb ((s =s? "") || (s =s? "."))).

Lemma clean_keep rooted out l : ".." ∉ l -> clean_segments rooted out l = (reverse (keep l) ++ out)%list.
Proof.
  revert out. induction l as [|s l IH]; intros out Hn; [done|]. apply not_elem_of_cons in Hn as [Hs Hn]. cbn [clean_segments keep List.filter].
  destruct ((s =s? "") || (s =s? ".")); cbn [negb]; [by apply IH|]. rewrite eqb_ne by done. rewrite IH by done. by rewrite reverse_cons, <- app_assoc.
Qed.

Lemma Clean_segments s :
  ".." ∉ Split s slash ->
  Clean s = (if HasPrefix s "/" then "/" +:+ Join (keep (Split s slash)) "/"
             else match keep (Split s slash) with [] => "." | l => Join l "/" end).
Proof. intros Hn. unfold Clean. rewrite clean_keep, app_nil_r, reverse_involutive by done. by destruct (keep _). Qed.

(** ** Spellings *)

Definition is_sep (c : ascii) : bool := Ascii.eqb c slash || Ascii.eqb c backslash.
Definition dot_or_blank (c : ascii) : bool := Ascii.eqb c "."%char || Ascii.eqb c " "%char.

(** Not a separator, nor a character with a meaning of its own. *)
Definition ordinary (c : ascii) : bool :=
  negb (existsb (Ascii.eqb c) ["/"; "\"; "%"; "$"; "+"; "?"; ":"; "000"]%char).

(** A dot segment, or a segment in any case with dots and blanks at its end. *)
Inductive spells_word : string -> list string -> Prop :=
| word_dot : spells_word "." []
| word_segment w seg tail :
    all_chars ordinary w = true -> ToLower w = seg +:+ tail -> all_chars dot_or_blank tail = true ->
    seg <> "" -> TrimRightSet dot_or_blank seg = seg -> spells_word w [seg].

Inductive spells : string -> list string -> Prop :=
| spells_end seps : all_chars is_sep seps = true -> spells seps []
| spells_segment seps w rest l k :
    seps <> "" -> all_chars is_sep seps = true -> spells_word w l -> spells rest k -> spells (seps +:+ w +:+ rest) (l ++ k).

(** No drive, or a letter and a colon. *)
Definition drive (d : string) : Prop :=
  d = "" \/ exists c, d = String c ":" /\ (97 <= nat_of_ascii (lower_char c) <= 122)%nat.

Definition lowered (s : string) : string := ToLower (to_slashes s).

Lemma ToLower_app s t : ToLower (s +:+ t) = ToLower s +:+ ToLower t.
Proof. induction s as [|c s IH]; [done|]. rewrite !str_cons_app. cbn [ToLower]. by rewrite IH, str_cons_app. Qed.

Lemma to_slashes_app s t : to_slashes (s +:+ t) = to_slashes s +:+ to_slashes t.
Proof. unfold to_slashes. induction s as [|c s IH]; [done|]. rewrite !str_cons_app. cbn [ReplaceByte]. by rewrite IH, str_cons_app. Qed.

Lemma lowered_app s t : lowered (s +:+ t) = lowered s +:+ lowered t.
Proof. unfold lowered. by rewrite to_slashes_app, ToLower_app. Qed.

Lemma all_chars_app p s t : all_chars p (s +:+ t) = all_chars p s && all_chars p t.
Proof. induction s as [|c s IH]; [done|]. rewrite str_cons_app. cbn [all_chars]. by rewrite IH, andb_assoc. Qed.

Lemma all_chars_impl (p q : ascii -> bool) s : (forall c, p c = true -> q c = true) -> all_chars p s = true -> all_chars q s = true.
Proof. intros Hpq. induction s as [|c s IH]; [done|]. cbn [all_chars]. rewrite !andb_true_iff. intros [? ?]. auto. Qed.

Lemma all_chars_sep_free p c s : p c = false -> all_chars p s = true -> sep_free c s.
Proof.
  intros Hc. induction s as [|a s IH]; [by intros _ []|]. cbn [all_chars]. intros [Ha Hs]%andb_true_iff [->|Hin]; [congruence|]. by apply (IH Hs).
Qed.

Lemma seps_lowered seps : all_chars is_sep seps = true -> all_chars (Ascii.eqb slash) (lowered seps) = true.
Proof.
  unfold lowered, to_slashes. induction seps as [|c s IH]; [done|]. cbn [all_chars ReplaceByte ToLower]. intros [Hc Hs]%andb_true_iff.
  rewrite IH by done. rewrite andb_true_r. unfold is_sep in Hc. apply orb_true_iff in Hc as [->%Ascii.eqb_eq| ->%Ascii.eqb_eq]; done.
Qed.

Lemma ordinary_slashes w : all_chars ordinary w = true -> to_slashes w = w.
Proof.
  unfold to_slashes. induction w as [|c w IH]; [done|]. cbn [all_chars ReplaceByte]. intros [Hc Hw]%andb_true_iff. rewrite IH by done.
  destruct (Ascii.eqb_spec c backslash) as [->|]; done.
Qed.

Lemma lower_ordinary c : ordinary (lower_char c) = ordinary c.
Proof. destruct c as [[] [] [] [] [] [] [] []]; reflexivity. Qed.

Lemma ToLower_ordinary w : all_chars ordinary (ToLower w) = all_chars ordinary w.
Proof. induction w as [|c w IH]; [done|]. cbn [ToLower all_chars]. by rewrite lower_ordinary, IH. Qed.

(** What the segments of a word become. *)
Lemma TrimRightSet_tail cut s t : all_chars cut t = true -> TrimRightSet cut (s +:+ t) = TrimRightSet cut s.
Proof.
  intros Ht. induction s as [|c s IH]; [|rewrite str_cons_app; cbn [TrimRightSet]; by rewrite IH].
  rewrite str_nil_app. induction t as [|c t IH]; [done|]. cbn [all_chars] in Ht. apply andb_true_iff in Ht as [Hc Ht]. cbn [TrimRightSet]. rewrite IH by done.
  cbn [TrimRightSet]. by rewrite Hc.
Qed.

Lemma word_trim w l : spells_word w l ->
  keep [trim_segment (lowered w)] = l /\ sep_free slash (lowered w) /\ sep_free slash (trim_segment (lowered w)) /\ trim_segment (lowered w) <> ".."
  /\ lowered w <> ".." /\ Forall (fun s => all_chars ordinary s = true /\ s <> "") l.
Proof.
  intros [|w' seg tail Hw Hl Ht Hne Htr].
  - split_and!; try done; by intros [|[]].
  - assert (E : lowered w' = seg +:+ tail) by (unfold lowered; by rewrite ordinary_slashes).
    assert (Ho : all_chars ordinary (seg +:+ tail) = true) by (rewrite <- Hl, ToLower_ordinary; done).
    assert (Hnd : forall d, all_chars dot_or_blank d = true -> seg +:+ tail <> d).
    { intros d Hd Ed. rewrite <- Ed, all_chars_app in Hd. apply andb_true_iff in Hd as [Hd _].
      pose proof (TrimRightSet_tail dot_or_blank "" seg Hd) as Et. rewrite str_nil_app, Htr in Et. done. }
    assert (Et : trim_segment (lowered w') = seg).
    { unfold trim_segment. rewrite E, !eqb_ne by (by apply Hnd). cbn [orb]. fold dot_or_blank.
      rewrite TrimRightSet_tail, Htr by done. by rewrite eqb_ne. }
    assert (Hsd : forall d, all_chars dot_or_blank d = true -> seg <> d).
    { intros d Hd Ed. pose proof (TrimRightSet_tail dot_or_blank "" d Hd) as Et'. rewrite str_nil_app, <- Ed, Htr in Et'. done. }
    rewrite all_chars_app in Ho. apply andb_true_iff in Ho as [Hos Hot].
    rewrite Et. split_and!.
    + unfold keep. cbn [List.filter]. by rewrite !eqb_ne by (done || by apply Hsd).
    + rewrite E. apply sep_free_app; by apply (all_chars_sep_free ordinary).
    + by apply (all_chars_sep_free ordinary).
    + by apply Hsd.
    + rewrite E. by apply Hnd.
    + by repeat constructor.
Qed.

Lemma Split_slashes s t : all_chars (Ascii.eqb slash) s = true -> Split (s +:+ t) slash = (replicate (String.length s) "" ++ Split t slash)%list.
Proof.
  induction s as [|c s IH]; [done|]. cbn [all_chars]. intros [<-%Ascii.eqb_eq Hs]%andb_true_iff. rewrite str_cons_app.
  change (Split (String slash (s +:+ t)) slash) with ("" :: Split (s +:+ t) slash). by rewrite IH.
Qed.

Lemma keep_app l k : keep (l ++ k) = (keep l ++ keep k)%list.
Proof. unfold keep. induction l as [|s l IH]; [done|]. cbn [app List.filter]. destruct (negb _); cbn [app]; by rewrite IH. Qed.

Lemma keep_blanks n : keep (map trim_segment (replicate n "")) = [].
Proof. by induction n. Qed.

(** A segment as it stands in a path. *)
Definition plain_part (x : string) : Prop := x <> ".." /\ trim_segment x <> ".." /\ sep_free slash (trim_segment x).

Lemma blank_part : plain_part "".
Proof. repeat split; [done..|by intros []]. Qed.

Lemma body_split body segs : spells body segs -> exists l,
  Split (lowered body) slash = "" :: l /\ keep (map trim_segment l) = segs /\ Forall plain_part l /\ Forall (fun s => all_chars ordinary s = true /\ s <> "") segs.
Proof.
  induction 1 as [seps Hs|seps w rest l k Hne Hs Hw _ (r & Er & Ek & Hr & Ho)].
  - exists (replicate (String.length (lowered seps)) ""). rewrite <- (app_nil_str (lowered seps)) at 1. rewrite Split_slashes by by apply seps_lowered.
    split_and!; [by rewrite replicate_cons_app|apply keep_blanks|apply Forall_replicate, blank_part|done].
  - destruct (word_trim w l Hw) as (El & Hf & Hft & Hnd & Hnd' & Hol). rewrite !lowered_app, Split_slashes by by apply seps_lowered.
    rewrite (Split_before _ _ _ _ _ Hf Er), app_nil_str. destruct (lowered seps) as [|c s] eqn:Es.
    { exfalso. apply Hne. destruct seps; [done|]. unfold lowered, to_slashes in Es. by cbn in Es. }
    exists (replicate (String.length s) "" ++ lowered w :: r)%list. split_and!; [done| | |by apply Forall_app_2].
    + rewrite map_app, keep_app, keep_blanks. cbn [map app]. change (trim_segment (lowered w) :: map trim_segment r) with ([trim_segment (lowered w)] ++ map trim_segment r)%list. by rewrite keep_app, El, Ek.
    + apply Forall_app. split; [apply Forall_replicate, blank_part|]. by constructor.
Qed.

(** *** What decoding and expansion leave alone *)

Definition inert_char (c : ascii) : bool := negb (existsb (Ascii.eqb c) ["%"; "$"; "+"; "?"; "000"]%char).

Lemma spells_inert body segs : spells body segs -> all_chars inert_char body = true.
Proof.
  assert (Hs : forall c, is_sep c = true -> inert_char c = true) by (intros c; destruct c as [[] [] [] [] [] [] [] []]; done).
  assert (Ho : forall c, ordinary c = true -> inert_char c = true) by (intros c; destruct c as [[] [] [] [] [] [] [] []]; done).
  induction 1 as [seps|seps w rest l k _ Hseps Hw _ IH]; [by apply (all_chars_impl is_sep)|].
  rewrite !all_chars_app, IH, (all_chars_impl is_sep inert_char seps), andb_true_r by done.
  destruct Hw as [|w seg tail Hw _ _ _ _]; [done|]. by apply (all_chars_impl ordinary).
Qed.

Lemma drive_inert d : drive d -> all_chars inert_char d = true.
Proof. intros [->|(c & -> & Hc)]; [done|]. destruct c as [[] [] [] [] [] [] [] []]; try done; exfalso; vm_compute in Hc; lia. Qed.

Lemma inert_unescape s : all_chars inert_char s = true -> QueryUnescape s = Some s.
Proof.
  induction s as [|c s IH]; [done|]. cbn [all_chars QueryUnescape]. intros [Hc Hs]%andb_true_iff. rewrite IH by done.
  destruct (Ascii.eqb_spec c "%"%char) as [->|]; [done|]. destruct (Ascii.eqb_spec c "+"%char) as [->|]; done.
Qed.

Lemma inert_windows s : all_chars inert_char s = true -> expandWindowsEnv s = s.
Proof.
  unfold expandWindowsEnv. induction s as [|c s IH]; [done|]. cbn [all_chars expand_windows]. intros [Hc Hs]%andb_true_iff. rewrite IH by done.
  destruct (Ascii.eqb_spec c "%"%char) as [->|]; done.
Qed.

Lemma inert_posix s : all_chars inert_char s = true -> expandPosixEnv s = s.
Proof.
  unfold expandPosixEnv. induction s as [|c s IH]; [done|]. cbn [all_chars expand_posix]. intros [Hc Hs]%andb_true_iff. rewrite IH by done.
  destruct (Ascii.eqb_spec c "$"%char) as [->|]; done.
Qed.

Lemma inert_free s c a b : all_chars inert_char s = true -> inert_char c = false -> s <> a +:+ String c b.
Proof. intros Hs Hc ->. rewrite all_chars_app in Hs. apply andb_true_iff in Hs as [_ Hs]. cbn [all_chars] in Hs. by rewrite Hc in Hs. Qed.

Lemma inert_prefix s p c q : all_chars inert_char s = true -> inert_char c = false -> HasPrefix s (p +:+ String c q) = false.
Proof.
  intros Hs Hc. apply not_true_iff_false. intros [r ->]%HasPrefix_iff. apply (inert_free _ c p (q +:+ r) Hs Hc). by rewrite <- str_app_assoc, str_cons_app.
Qed.

(** *** The canonical form of a spelling *)

Lemma spelled_start d body segs :
  drive d -> spells body segs -> segs <> [] ->
  exists c r, lowered (d +:+ body) = String c r /\ c <> "~"%char /\ (d <> "" -> c <> slash) /\ c <> "."%char.
Proof.
  intros Hd Hb Hne. rewrite lowered_app. destruct Hd as [->|(c & -> & Hc)].
  - destruct (body_split _ _ Hb) as (l & E & Ek & _). destruct (lowered body) as [|c r] eqn:Eb.
    { cbn in E. injection E as <-. cbn in Ek. by subst. }
    exists c, r. cbn [Split] in E. destruct (Ascii.eqb_spec c slash) as [->|]; [done|]. destruct (Split r slash); by injection E.
  - exists (lower_char c), (":" +:+ lowered body). unfold lowered, to_slashes. cbn [ReplaceByte ToLower]. change (Ascii.eqb ":" backslash) with false. cbn [ToLower].
    destruct (Ascii.eqb_spec c backslash) as [->|]; [vm_compute in Hc; lia|]. split; [done|].
    split_and!; [intros E|intros _ E|intros E]; rewrite E in Hc; vm_compute in Hc; lia.
Qed.

Lemma canonical_path d body segs :
  drive d -> spells body segs -> segs <> [] -> canonicalizeFilePath (d +:+ body) = ToLower d +:+ path_string segs.
Proof.
  intros Hd Hb Hne. destruct (body_split _ _ Hb) as (l & El & Ek & Hl & _).
  assert (Hi : all_chars inert_char (d +:+ body) = true) by by rewrite all_chars_app, drive_inert, (spells_inert body segs).
  destruct (spelled_start d body segs Hd Hb Hne) as (c & r & Ec & Ht & Hs & _).
  unfold canonicalizeFilePath. rewrite inert_windows, inert_posix by done.
  rewrite (inert_prefix _ "\\" "?" "\"), (inert_prefix _ "//" "?" "/") by done. cbn [orb]. fold (lowered (d +:+ body)).
  assert (HasPrefix (lowered (d +:+ body)) "~/" = false) as ->.
  { rewrite Ec. apply not_true_iff_false. intros [r' E]%HasPrefix_iff. rewrite str_cons_app in E. by injection E as -> _. }
  assert (Hd' : sep_free slash (lowered d) /\ trim_segment (lowered d) = ToLower d /\ lowered d = ToLower d /\ ToLower d <> ".." /\ (d <> "" -> keep [ToLower d] = [ToLower d])).
  { destruct Hd as [->|(x & -> & Hx)]; [split_and!; [by intros []|done..]|].
    assert (E : lowered (String x ":") = String (lower_char x) ":").
    { unfold lowered, to_slashes. cbn. destruct (Ascii.eqb_spec x backslash) as [->|]; [vm_compute in Hx; lia|done]. }
    rewrite E. cbn [ToLower]. change (lower_char ":") with ":"%char. split_and!; [|unfold trim_segment; by rewrite !eqb_ne by done|done|done|].
    - intros [E'|[E'|[]]]; [rewrite E' in Hx; vm_compute in Hx; lia|done].
    - intros _. unfold keep. cbn [List.filter]. by rewrite !eqb_ne. }
  destruct Hd' as (Hfd & Htd & Eld & Hdd & Hkd).
  unfold trimTrailingDotSpaceSegments. rewrite lowered_app, (Split_before _ _ _ _ _ Hfd El), app_nil_str. cbn [map]. rewrite Htd.
  set (parts := ToLower d :: map trim_segment l).
  assert (Hfree : Forall (sep_free slash) parts).
  { constructor; [by rewrite <- Eld|]. apply Forall_map. eapply Forall_impl; [exact Hl|]. by intros x (_ & _ & ?). }
  assert (Esp : Split (Join parts "/") slash = parts) by by apply (Split_Join slash).
  rewrite Clean_segments, Esp; [|rewrite Esp].
  2: { unfold parts. rewrite elem_of_cons. intros [E|(x & E & Hx)%list_elem_of_fmap]; [by rewrite <- E in Hdd|].
       rewrite Forall_forall in Hl. by destruct (Hl x Hx) as (_ & Hn & _). }
  assert (Hkeep : keep parts = (if bool_decide (d = "") then segs else ToLower d :: segs)).
  { unfold parts. change (ToLower d :: map trim_segment l) with ([ToLower d] ++ map trim_segment l)%list. rewrite keep_app, Ek.
    case_bool_decide as E; [by subst d|by rewrite Hkd]. }
  rewrite Hkeep. destruct segs as [|s segs]; [done|]. case_bool_decide as E.
  - subst d. assert (l <> []) by by intros ->. unfold parts. destruct l as [|x l]; [done|]. rewrite path_join.
    assert (HasPrefix (Join (ToLower "" :: map trim_segment (x :: l)) "/") "/" = true) as ->; [|done]. apply HasPrefix_iff. by eexists.
  - assert (HasPrefix (Join parts "/") "/" = false) as ->.
    { apply not_true_iff_false. intros [r' E']%HasPrefix_iff. rewrite E' in Esp. destruct Hd as [->|(x & -> & _)]; [done|]. by cbn in Esp. }
    rewrite path_join. done.
Qed.

(** ** What is sensitive, by segments *)

Definition found {A} (o : option A) : bool := match o with Some _ => true | None => false end.

Definition credential_name (base : string) : bool :=
  (((base =s? ".env") || HasPrefix base ".env.") && negb (existsb (fun suf => base =s? ".env" +:+ suf) envSecretTemplateSuffixes))
  || existsb (fun '(name, _) => base =s? name) credentialExact
  || existsb (fun '(suf, _) => HasSuffix base suf) credentialSuffix
  || existsb (fun '(p, suf, _) => HasPrefix base p && HasSuffix base suf) credentialPrefix.

(** The registry of Windows. *)
Definition registry (segs : list string) : bool :=
  match segs with
  | root :: sys :: cfg :: rest =>
      existsb (fun r => root =s? r) windowsHiveRoots && (sys =s? "system32") && (cfg =s? "config") && (found (hive_match rest) || clfs_match rest)
  | _ => false
  end.

(** What follows [p] in the path. *)
Fixpoint strip_path (p segs : list string) : option (list string) :=
  match p, segs with
  | [], _ => Some segs
  | a :: p, b :: segs => if a =s? b then strip_path p segs else None
  | _ :: _, [] => None
  end.

(** A place, whether it is sensitive itself or only what it holds, writes only. *)
Definition places : list (list string * bool * bool) :=
  [(["etc"; "shadow"], true, false); (["etc"; "sudoers"], true, false); (["etc"; "master.passwd"], true, false); (["etc"; "security"], false, false);
   (["var"; "lib"; "secrets"], false, false); (["proc"; "self"; "environ"], true, false); (["proc"; "self"; "cgroup"], true, false);
   (["root"; ".ssh"], false, false); (["root"; ".aws"], false, false); (["root"; ".docker"], false, false); (["root"; ".kube"], false, false);
   (["etc"; "passwd"], true, true); (["etc"; "group"], true, true); (["etc"; "hosts"], true, true); (["boot"], false, true); (["sbin"], false, true)].

Definition within (segs p : list string) (itself : bool) : bool :=
  match strip_path p segs with Some [] => itself | Some _ => true | None => false end.

Definition placed (write : bool) (segs : list string) : bool :=
  existsb (fun '(p, itself, writeOnly) => negb (writeOnly && negb write) && within segs p itself) places.

(** Keys and credentials in the home of a user. *)
Definition profile (segs : list string) : bool :=
  match segs with
  | root :: _ :: sub :: _ :: _ => existsb (fun r => root =s? r) ["home"; "users"] && existsb (fun s => sub =s? s) [".ssh"; ".aws"; ".docker"; ".kube"]
  | _ => false
  end.

Definition sensitive (d : string) (write : bool) (segs : list string) : bool :=
  credential_name (List.last segs "") || registry segs || ((d =s? "") && placed write segs) || profile segs.

(** Two separators and a dot. *)
Definition device (d body : string) : bool := (d =s? "") && HasPrefix (to_slashes body) "//.".

(** ** The matchers on canonical paths *)

Lemma found_first {A B} (f : A -> option B) l : found (find_first f l) = existsb (fun x => found (f x)) l.
Proof. induction l as [|x l IH]; [done|]. cbn [find_first existsb]. by destruct (f x). Qed.

Lemma found_when b r : found (when_some b r) = b.
Proof. by destruct b. Qed.

Lemma found_or {A} (o p : option A) : found (match o with Some x => Some x | None => p end) = found o || found p.
Proof. by destruct o. Qed.

Lemma existsb_ext' {A} (f g : A -> bool) l : (forall x, f x = g x) -> existsb f l = existsb g l.
Proof. intros H. induction l as [|x l IH]; [done|]. cbn. by rewrite H, IH. Qed.

Lemma credential_spec base : base <> "" -> sep_free slash base -> found (matchCredentialBasename base) = credential_name base.
Proof.
  intros Hne Hf. unfold matchCredentialBasename, basename. rewrite cut_last_none, eqb_ne by done. rewrite !found_or, !found_first. unfold credential_name.
  rewrite <- !orb_assoc. f_equal; [|f_equal; [|f_equal]]; try (apply existsb_ext'; intros x; by repeat destruct x as [x ?]; rewrite found_when).
  unfold matchEnvCredential. destruct (base =s? ".env"), (HasPrefix base ".env."), (existsb _ _); done.
Qed.

Lemma basename_last p segs : segs <> [] -> Forall (sep_free slash) segs -> basename (p +:+ path_string segs) = List.last segs "".
Proof.
  intros Hne Hf. destruct (exists_last Hne) as (l & s & ->). rewrite List.last_last, path_string_app. cbn [path_string foldr]. rewrite app_nil_str, str_app_assoc.
  apply Forall_app in Hf as [_ Hf]. unfold basename. rewrite cut_last_app; [done|]. by inversion Hf.
Qed.

Lemma credential_at p segs : segs <> [] -> Forall (sep_free slash) segs -> List.last segs "" <> "" ->
  found (matchCredentialBasename (p +:+ path_string segs)) = credential_name (List.last segs "").
Proof.
  intros Hne Hf Hl. assert (Hs : sep_free slash (List.last segs "")).
  { destruct (exists_last Hne) as (l & s & ->). rewrite List.last_last. by apply Forall_app in Hf as [_ [? _]%Forall_cons]. }
  rewrite <- credential_spec by done. unfold matchCredentialBasename. rewrite basename_last by done. unfold basename. by rewrite cut_last_none.
Qed.

Lemma strip_path_iff p segs r : strip_path p segs = Some r <-> segs = (p ++ r)%list.
Proof.
  revert segs. induction p as [|a p IH]; intros segs; cbn [strip_path app]; [naive_solver|]. destruct segs as [|b segs]; [done|].
  destruct (String.eqb_spec a b) as [->|]; [rewrite IH; naive_solver|naive_solver].
Qed.

Lemma within_iff segs p itself : within segs p itself = true <-> exists r, segs = (p ++ r)%list /\ (r = [] -> itself = true).
Proof.
  unfold within. destruct (strip_path p segs) as [r|] eqn:E.
  - apply strip_path_iff in E as ->. destruct r as [|x r].
    + split; [intros ->; by exists []|]. intros (r & E & H). apply app_inv_head in E as <-. by apply H.
    + split; [by exists (x :: r)|done].
  - split; [done|]. intros (r & Hr%strip_path_iff & _). congruence.
Qed.

Lemma under_iff canon prefix : prefix <> "" ->
  under canon prefix = true <-> exists r, canon = prefix +:+ r /\ (HasSuffix prefix "/" = true \/ r = "" \/ exists r', r = String slash r').
Proof.
  intros Hne. unfold under. rewrite (eqb_ne prefix "") by done. cbn [orb]. split.
  - destruct (String.eqb_spec prefix canon) as [<-|Hd]; [intros _; exists ""; split; [by rewrite app_nil_str|auto]|].
    cbn [orb]. intros [[r ->]%HasPrefix_iff H]%andb_true_iff. exists r. split; [done|]. rewrite drop_length_app, str_length_app in H.
    apply orb_true_iff in H as [[H|H%Nat.eqb_eq]%orb_true_iff|H]; [by left| |].
    + right; left. destruct r; [done|]. cbn in H. lia.
    + right; right. destruct r as [|c r]; [done|]. apply Ascii.eqb_eq in H as ->. by exists r.
  - intros (r & -> & H). apply orb_true_iff. destruct H as [H|[->|[r' ->]]].
    + right. by rewrite (proj2 (HasPrefix_iff _ _)), H by by eexists.
    + left. rewrite app_nil_str. apply String.eqb_refl.
    + right. rewrite (proj2 (HasPrefix_iff _ _)), drop_length_app by by eexists. cbn. by rewrite !orb_true_r.
Qed.

(** A rule for a place and what it holds. *)
Lemma under_place segs p (itself : bool) :
  Forall (sep_free slash) segs -> Forall (sep_free slash) p -> p <> [] -> HasSuffix (path_string p) "/" = false ->
  under (path_string segs) (path_string p +:+ (if itself then "" else "/")) = within segs p itself.
Proof.
  intros Hs Hp Hne Hsuf. apply eq_true_iff_eq. rewrite within_iff, under_iff.
  2: { destruct p as [|x p]; [done|]. rewrite path_join. by rewrite str_cons_app. }
  assert (Hsplit : forall r, path_string segs = path_string p +:+ String slash r -> segs = (p ++ Split r slash)%list).
  { intros r E. apply (f_equal (fun s => Split s slash)) in E. rewrite Split_app, !path_split in E by done. by injection E. }
  assert (Hinj : path_string segs = path_string p -> segs = p).
  { intros E. apply (f_equal (fun s => Split s slash)) in E. rewrite !path_split in E by done. by injection E. }
  destruct itself; split.
  - intros (r & E & H). rewrite app_nil_str in *. destruct H as [H|[->|[r' ->]]]; [congruence| |].
    + exists []. split; [rewrite app_nil_r; apply Hinj; by rewrite E, app_nil_str|done].
    + by exists (Split r' slash); split; [apply Hsplit|].
  - intros (r & -> & _). exists (path_string r). split; [by rewrite path_string_app, app_nil_str|]. right. destruct r as [|x r]; [by left|right]. by eexists.
  - intros (r & E & _). exists (Split r slash). rewrite <- str_app_assoc in E. split; [by apply Hsplit|]. intros En. by apply Split_nonempty in En.
  - intros (r & -> & H). destruct r as [|x r]; [by specialize (H eq_refl)|]. exists (x +:+ path_string r). split.
    + rewrite path_string_app, <- str_app_assoc. done.
    + left. apply HasSuffix_iff. by exists (path_string p).
Qed.

Lemma strip_drive d segs :
  drive d -> Forall (fun s => all_chars ordinary s = true /\ s <> "") segs -> segs <> [] -> stripDriveLetter (ToLower d +:+ path_string segs) = path_string segs.
Proof.
  intros Hd Hs Hne. destruct segs as [|s segs]; [done|]. apply Forall_cons in Hs as [[Hs Hn] _]. unfold stripDriveLetter. destruct Hd as [->|(c & -> & Hc)].
  - cbn [ToLower]. rewrite str_nil_app. cbn [path_string foldr]. rewrite (proj2 (HasPrefix_iff _ "/")) by by eexists. cbn [drop].
    destruct s as [|a [|b s]]; [done| |]; rewrite !str_cons_app, ?str_nil_app; cbn [all_chars] in Hs.
    + by destruct segs as [|t segs].
    + apply andb_true_iff in Hs as [_ [Hb _]%andb_true_iff]. destruct (Ascii.eqb_spec b ":"%char) as [->|]; done.
  - cbn [ToLower]. rewrite !str_cons_app, str_nil_app. change (lower_char ":") with ":"%char.
    assert (HasPrefix (String (lower_char c) (String ":" (path_string (s :: segs)))) "/" = false) as ->.
    { apply not_true_iff_false. intros [r E]%HasPrefix_iff. rewrite str_cons_app in E. injection E as E _. rewrite E in Hc. vm_compute in Hc. lia. }
    change (Ascii.eqb ":" ":") with true. by rewrite !(proj2 (Nat.leb_le _ _)) by lia.
Qed.

Lemma cut_first_free c s b r : cut_first c s = Some (b, r) -> sep_free c b.
Proof.
  revert b. induction s as [|a s IH]; intros b; cbn [cut_first]; [done|]. destruct (Ascii.eqb_spec a c) as [->|Hne]; [intros [= <- _]; by intros []|].
  destruct (cut_first c s) as [[b' r']|]; [|done]. intros [= <- ->]. intros [->|Hin]; [done|]. by apply (IH b').
Qed.

(** A rule for a directory of a user's home. *)
Lemma user_dir_iff segs root sub r :
  Forall (sep_free slash) segs -> sep_free slash root -> sep_free slash sub ->
  found (user_dir (path_string segs) ("/" +:+ root +:+ "/", "/" +:+ sub +:+ "/", r)) = true <-> exists u x l, segs = root :: u :: sub :: x :: l.
Proof.
  intros Hs Hr Hsub. unfold user_dir. split.
  - destruct (HasPrefix _ _) eqn:Hp; cbn [negb]; [|done]. apply HasPrefix_iff in Hp as [t Et]. rewrite Et, drop_length_app.
    assert (E : segs = root :: Split t slash).
    { apply (f_equal (fun s => Split s slash)) in Et. rewrite path_split in Et by done.
      replace (("/" +:+ root +:+ "/") +:+ t) with ("" +:+ String slash (root +:+ String slash t)) in Et by by rewrite <- !str_app_assoc.
      rewrite !Split_app, (Split_single slash root) in Et by done. by injection Et. }
    destruct (cut_first slash t) as [[u tail]|] eqn:Ec; [|done]. rewrite found_when. intros [q Eq]%HasPrefix_iff.
    pose proof (cut_first_some _ _ _ _ Ec) as ->. rewrite str_cons_app in Eq. injection Eq as Eq. rewrite <- str_app_assoc, str_nil_app in Eq. subst tail.
    rewrite Split_app, <- str_app_assoc in E.
    change ("/" +:+ q) with (String slash q) in E. rewrite Split_app, (Split_single slash sub) in E by done.
    rewrite (Split_single slash u) in E by by apply (cut_first_free _ _ _ _ Ec).
    destruct (Split q slash) as [|x l] eqn:Eq; [by apply Split_nonempty in Eq|]. by exists u, x, l.
  - intros (u & x & l & ->). cbn [path_string foldr]. fold (path_string l).
    apply Forall_cons in Hs as [_ [Hu _]%Forall_cons].
    replace (String slash (root +:+ String slash (u +:+ String slash (sub +:+ String slash (x +:+ path_string l)))))
      with (("/" +:+ root +:+ "/") +:+ u +:+ String slash (sub +:+ String slash (x +:+ path_string l))) by by rewrite <- !str_app_assoc.
    rewrite (proj2 (HasPrefix_iff _ _)) by by eexists. cbn [negb]. rewrite drop_length_app, cut_first_app, found_when by done.
    apply HasPrefix_iff. exists (x +:+ path_string l). by rewrite <- !str_app_assoc.
Qed.

Definition in_home (root sub : string) (segs : list string) : bool :=
  match segs with a :: _ :: b :: _ :: _ => (a =s? root) && (b =s? sub) | _ => false end.

Lemma user_dir_spec segs root sub r :
  Forall (sep_free slash) segs -> sep_free slash root -> sep_free slash sub ->
  found (user_dir (path_string segs) ("/" +:+ root +:+ "/", "/" +:+ sub +:+ "/", r)) = in_home root sub segs.
Proof.
  intros Hs Hr Hsub. apply eq_true_iff_eq. rewrite user_dir_iff by done. unfold in_home. split.
  - intros (u & x & l & ->). by rewrite !String.eqb_refl.
  - destruct segs as [|a [|u [|b [|x l]]]]; try done. intros [->%String.eqb_eq ->%String.eqb_eq]%andb_true_iff. by exists u, x, l.
Qed.

Lemma plain_sep_free s : all_chars ordinary s = true -> sep_free slash s.
Proof. by apply all_chars_sep_free. Qed.
#[local] Hint Resolve plain_sep_free : core.

Lemma profile_spec segs : Forall (sep_free slash) segs -> found (find_first (user_dir (path_string segs)) suspects) = profile segs.
Proof.
  intros Hs. rewrite found_first.
  assert (E : existsb (fun x => found (user_dir (path_string segs) x)) suspects
              = existsb (fun '(root, sub) => in_home root sub segs) (list_prod ["home"; "users"] [".ssh"; ".aws"; ".docker"; ".kube"])).
  { unfold suspects. cbn [existsb list_prod map app]. 
    do 8 (apply (f_equal2 orb); [lazymatch goal with |- found (user_dir _ (_, _, ?r)) = in_home ?a ?b _ =>
      exact (user_dir_spec segs a b r Hs (plain_sep_free a eq_refl) (plain_sep_free b eq_refl)) end|]). done. }
  rewrite E. unfold in_home, profile. destruct segs as [|a [|u [|b [|x l]]]]; try done. cbn [existsb list_prod map app]. rewrite !orb_false_r.
  by destruct (a =s? "home"), (a =s? "users"), (b =s? ".ssh"), (b =s? ".aws"), (b =s? ".docker"), (b =s? ".kube").
Qed.

Definition place_rules : list (string * bool) := map (fun '(p, itself, w) => (path_string p +:+ (if itself : bool then "" else "/"), w)) places.

Lemma rules_of_places : map (fun '(p, w, _) => (p, w)) sensitivePaths = place_rules.
Proof. reflexivity. Qed.

Lemma existsb_map' {A B} (f : A -> B) g l : existsb g (map f l) = existsb (fun x => g (f x)) l.
Proof. induction l as [|x l IH]; [done|]. cbn. by rewrite IH. Qed.

Lemma rules_under canon write :
  found (find_first (fun '(prefix, writeOnly, r) => when_some (negb (writeOnly && negb write) && under canon prefix) r) sensitivePaths)
  = existsb (fun '(prefix, writeOnly) => negb (writeOnly && negb write) && under canon prefix) place_rules.
Proof. rewrite found_first, <- rules_of_places, existsb_map'. apply existsb_ext'. intros [[p w] r]. apply found_when. Qed.

(** The rules of a drive-less path. *)
Lemma placed_spec segs write : Forall (sep_free slash) segs ->
  existsb (fun '(prefix, writeOnly) => negb (writeOnly && negb write) && under (path_string segs) prefix) place_rules = placed write segs.
Proof.
  intros Hs. unfold place_rules, placed. rewrite existsb_map'.
  assert (Hall : Forall (fun '(p, _, _) => Forall (fun s => all_chars ordinary s = true) p /\ p <> [] /\ HasSuffix (path_string p) "/" = false) places)
    by (unfold places; repeat constructor; try done).
  induction Hall as [|[[p itself] w] l (Hp & Hne & Hsuf) _ IH]; [done|]. cbn [existsb]. rewrite IH. f_equal. f_equal. apply under_place; try done.
  eapply Forall_impl; [exact Hp|]. auto.
Qed.

(** No rule names a drive. *)
Lemma placed_drive c rest write : c <> slash ->
  existsb (fun '(prefix, writeOnly) => negb (writeOnly && negb write) && under (String c rest) prefix) place_rules = false.
Proof.
  intros Hc. apply not_true_iff_false. intros ([p w] & Hin & [_ Hu]%andb_true_iff)%existsb_exists.
  assert (Hp : exists q, p = String slash q).
  { apply in_map_iff in Hin as ([[[|x q] i] w'] & [= <- _] & Hx); [|by eexists]. exfalso. unfold places in Hx. cbn in Hx. intuition discriminate. }
  destruct Hp as [q ->]. apply under_iff in Hu as (r & E & _); [|done]. rewrite str_cons_app in E. by injection E.
Qed.

Lemma registry_spec d segs :
  drive d -> Forall (fun s => all_chars ordinary s = true /\ s <> "") segs -> segs <> [] ->
  found (matchWindowsRegistryHive (ToLower d +:+ path_string segs)) = registry segs.
Proof.
  intros Hd Hs Hne. unfold matchWindowsRegistryHive. rewrite strip_drive by done. unfold config_subtree.
  rewrite path_split by (eapply Forall_impl; [exact Hs|]; intros s [? _]; auto). change ("" =s? "") with true. cbn [andb]. unfold registry.
  destruct segs as [|root [|sys [|cfg rest]]]; try done. destruct (existsb _ _ && _ && _); [|done]. by rewrite found_or, found_when.
Qed.

Lemma sensitive_spec d segs write :
  drive d -> Forall (fun s => all_chars ordinary s = true /\ s <> "") segs -> segs <> [] ->
  found (matchCredentialBasename (ToLower d +:+ path_string segs)) || found (matchSensitivePath (ToLower d +:+ path_string segs) write) = sensitive d write segs.
Proof.
  intros Hd Hs Hne. assert (Hf : Forall (sep_free slash) segs) by (eapply Forall_impl; [exact Hs|]; intros s [? _]; auto).
  assert (Hl : List.last segs "" <> "").
  { destruct (exists_last Hne) as (l & s & ->). rewrite List.last_last. by apply Forall_app in Hs as [_ [[_ ?] _]%Forall_cons]. }
  unfold matchSensitivePath, matchHomeUserCredentialDir. rewrite !found_or, credential_at, registry_spec, rules_under, strip_drive, profile_spec by done.
  unfold sensitive. rewrite <- !orb_assoc. f_equal. f_equal. f_equal. destruct Hd as [->|(c & -> & Hc)].
  - cbn [ToLower]. rewrite str_nil_app. by apply placed_spec.
  - cbn [ToLower]. rewrite str_cons_app. cbn [String.eqb andb]. apply placed_drive. intros E. rewrite E in Hc. vm_compute in Hc. lia.
Qed.

(** ** The checks before *)

Lemma ToLower_Split s : Split (ToLower s) slash = map ToLower (Split s slash).
Proof.
  induction s as [|c s IH]; [done|]. cbn [ToLower Split]. rewrite IH.
  assert (Ascii.eqb (lower_char c) slash = Ascii.eqb c slash) as -> by (destruct c as [[] [] [] [] [] [] [] []]; reflexivity).
  destruct (Ascii.eqb c slash); [done|]. by destruct (Split s slash).
Qed.

Lemma no_traversal d body segs : drive d -> spells body segs -> segs <> [] -> hasTraversalSegment (d +:+ body) = false.
Proof.
  intros Hd Hb Hne. destruct (spelled_start d body segs Hd Hb Hne) as (c & r & Ec & Ht & _). destruct (body_split _ _ Hb) as (l & El & _ & Hl & _).
  unfold hasTraversalSegment. apply orb_false_iff. split.
  - apply not_true_iff_false. rewrite traversal_iff. intros Hin. apply (list_elem_of_fmap_2 ToLower) in Hin.
    change (ToLower <$> Split (to_slashes (d +:+ body)) slash) with (map ToLower (Split (to_slashes (d +:+ body)) slash)) in Hin. rewrite <- ToLower_Split in Hin.
    fold (lowered (d +:+ body)) in Hin. rewrite lowered_app in Hin.
    assert (Hdl : sep_free slash (lowered d) /\ lowered d <> "..").
    { destruct Hd as [->|(x & -> & Hx)]; [split; [by intros []|done]|]. unfold lowered, to_slashes. cbn [ReplaceByte ToLower].
      destruct (Ascii.eqb_spec x backslash) as [->|]; [exfalso; vm_compute in Hx; lia|]. split; [|done].
      intros [E|[E|[]]]; [rewrite E in Hx; vm_compute in Hx; lia|done]. }
    destruct Hdl as [Hf Hdd]. rewrite (Split_before _ _ _ _ _ Hf El), app_nil_str in Hin. apply elem_of_cons in Hin as [E|Hin]; [by rewrite <- E in Hdd|].
    rewrite Forall_forall in Hl. by destruct (Hl _ Hin) as [? _].
  - destruct (HasPrefix _ "~/") eqn:E; [|done]. exfalso. apply HasPrefix_iff in E as [t E]. unfold lowered in Ec. rewrite E in Ec.
    rewrite str_cons_app in Ec. cbn [ToLower] in Ec. by injection Ec as <- _.
Qed.

Lemma spells_no_colon body segs : spells body segs -> sep_free ":"%char (to_slashes body).
Proof.
  intros Hb. assert (Hc : all_chars (fun c => negb (Ascii.eqb c ":"%char)) body = true).
  { assert (Hs : forall c, is_sep c = true -> negb (Ascii.eqb c ":"%char) = true) by (intros c; destruct c as [[] [] [] [] [] [] [] []]; done).
    assert (Ho : forall c, ordinary c = true -> negb (Ascii.eqb c ":"%char) = true) by (intros c; destruct c as [[] [] [] [] [] [] [] []]; done).
    induction Hb as [seps|seps w rest l k _ Hseps Hw _ IH]; [by apply (all_chars_impl is_sep)|].
    rewrite !all_chars_app, IH, (all_chars_impl is_sep _ seps), andb_true_r by done.
    destruct Hw as [|w seg tail Hw _ _ _ _]; [done|]. by apply (all_chars_impl ordinary). }
  clear Hb. unfold to_slashes. induction body as [|c body IH]; [by intros []|]. cbn [all_chars ReplaceByte] in *. apply andb_true_iff in Hc as [Hc Hb].
  intros [E|Hin]; [|by apply IH]. destruct (Ascii.eqb c backslash); [done|]. by subst c.
Qed.

Lemma TrimPrefix_tail s p : exists x, s = x +:+ TrimPrefix s p.
Proof. unfold TrimPrefix. destruct (HasPrefix s p); [|by exists ""]. exists (take (String.length p) s). by rewrite take_drop_str. Qed.

Lemma not_free c s t : ~ sep_free c (s +:+ String c t).
Proof. intros H. apply H. induction s as [|a s IH]; [by left|]. right. apply IH. intros Hin. apply H. rewrite str_cons_app. by right. Qed.

Lemma device_spec d body segs : drive d -> spells body segs -> isDOSDeviceNamespace (d +:+ body) = device d body.
Proof.
  intros Hd Hb. unfold isDOSDeviceNamespace, device. destruct Hd as [->|(c & -> & Hc)].
  - cbn [String.eqb andb]. rewrite str_nil_app. destruct (HasPrefix (to_slashes body) "//.") eqn:E.
    + rewrite andb_false_r. apply orb_true_iff. right. apply negb_true_iff, not_true_iff_false. intros (a & b & Ec)%Contains_iff.
      destruct (TrimPrefix_tail (to_slashes body) "//./") as [x Ex].
      destruct (TrimPrefix_tail (TrimPrefix (to_slashes body) "//./") "//.") as [y Ey].
      destruct (TrimPrefix_tail (TrimPrefix (TrimPrefix (to_slashes body) "//./") "//.") "/") as [z Ez].
      apply (not_free ":"%char (x +:+ y +:+ z +:+ a) b). rewrite <- !str_app_assoc. change (String ":" b) with (":" +:+ b). rewrite <- Ec, <- Ez, <- Ey, <- Ex.
      by apply (spells_no_colon body segs).
    + destruct (HasPrefix (to_slashes body) "//./") eqn:E'; [|done]. exfalso. apply not_true_iff_false in E. apply E.
      apply HasPrefix_iff in E' as [r ->]. apply HasPrefix_iff. by exists ("/" +:+ r).
  - cbn [String.eqb andb]. rewrite to_slashes_app. unfold to_slashes. cbn [ReplaceByte]. rewrite str_cons_app.
    destruct (Ascii.eqb_spec c backslash) as [->|Hn]; [exfalso; vm_compute in Hc; lia|].
    assert (Hns : forall p q, HasPrefix (String c p) (String slash q) = false).
    { intros p q. apply not_true_iff_false. intros [r E]%HasPrefix_iff. rewrite str_cons_app in E. injection E as -> _. vm_compute in Hc. lia. }
    by rewrite !Hns.
Qed.

Lemma inert_null s : all_chars inert_char s = true -> Contains s null_byte || containsEncodedNull s = false.
Proof.
  intros Hs. assert (Hl : all_chars inert_char (ToLower s) = true).
  { clear -Hs. induction s as [|c s IH]; [done|]. cbn [all_chars ToLower] in *. apply andb_true_iff in Hs as [Hc Hs]. rewrite IH, andb_true_r by done.
    destruct c as [[] [] [] [] [] [] [] []]; done. }
  assert (Hno : forall t c q, all_chars inert_char t = true -> inert_char c = false -> Contains t (String c q) = false).
  { intros t c q Ht Hc. apply not_true_iff_false. intros (a & b & E)%Contains_iff. rewrite str_cons_app in E. by apply (inert_free t c a (q +:+ b)). }
  unfold containsEncodedNull, null_byte. by rewrite !Hno.
Qed.

Lemma inert_decoded s n : all_chars inert_char s = true -> url_decode n s = s.
Proof. intros Hs. destruct n as [|n]; [done|]. cbn [url_decode]. by rewrite inert_unescape, String.eqb_refl. Qed.


Definition file_action (path verb : string) : ActionDescriptor :=
  mkActionDescriptor ActionKindFile verb "" "" path "" None ∅ [] ∅ [] "" None None false.


(** ** What the gate misses *)

(** A null byte encoded three times. *)
Theorem triple_encoded_null :
  url_decode 3 "/etc/shadow%252500.txt" = "/etc/shadow" +:+ null_byte +:+ ".txt"
  /\ gd_Decision (FileGate (file_action "/etc/shadow%252500.txt" "read")) = DT_ALLOW.
Proof. by vm_compute. Qed.

(** The prefix of a literal path with both kinds of separators. *)
Theorem mixed_literal_prefix :
  gd_Decision (FileGate (file_action "\\?\C:\Windows\System32\config\SAM" "read")) = DT_DENY
  /\ gd_Decision (FileGate (file_action "\\?/C:/Windows/System32/config/SAM" "read")) = DT_ALLOW.
Proof. by vm_compute. Qed.

(** A directory is not one of the things it holds. *)
Theorem key_directory_unprotected :
  gd_Decision (FileGate (file_action "/root/.ssh/config" "delete")) = DT_DENY
  /\ gd_Decision (FileGate (file_action "/root/.ssh/" "delete")) = DT_ALLOW.
Proof. by vm_compute. Qed.

(** A segment [".. "] is a name of its own on POSIX; trimmed, it takes the path out of
    the directory that the rules protect. *)
Theorem trimming_allows_more :
  found (matchSensitivePath (Clean "/root/.ssh/.. /key") false) = true
  /\ gd_Decision (FileGate (file_action "/root/.ssh/.. /key" "read")) = DT_ALLOW.
Proof. by vm_compute. Qed.
