(* ===== verification/UrlGate.v ===== *)
(** * The URL gate

    core/policy/actiongates/url_gate.go and url_gate_resolver_cache.go: outbound
    requests to metadata services, private addresses and known drop boxes, with a
    bounded cache of resolved hosts.

    An address is its sixteen bytes, as in [net.IP].  [net.ParseIP] and the tests on
    addresses are written out; [url.Parse], whose grammar of hosts varies with the
    toolchain, is the parameter [UrlParser].  A cache is the list of its entries, the
    most recently used first: the Go map holds the same entries by key. *)
From Stdlib Require Import Ascii.
From S2P Require Import Prelude.
From S2P Require Import GoStrings.
From S2P Require Import PolicyTypes.
From S2P Require Import Kernel.
From S2P Require Import ActionGates.
From S2P Require Import FileGate.

Open Scope string_scope.

(** ** Addresses *)

Definition IP : Type := list Z.

Definition octet (s : string) : option Z :=
  match s with
  | EmptyString => None
  | String c r =>
      if Ascii.eqb c "0"%char && negb (r =s? "") then None
      else match parse_digits 0 s with Some n => if (n <=? 255)%Z then Some n else None | None => None end
  end.

Definition parseIPv4 (s : string) : option (list Z) :=
  match Split s "."%char with
  | [a; b; c; d] => match octet a, octet b, octet c, octet d with Some a, Some b, Some c, Some d => Some [a; b; c; d] | _, _, _, _ => None end
  | _ => None
  end.

Fixpoint hex_run (acc : Z) (n : nat) (s : string) : Z * nat * string :=
  match s with
  | EmptyString => (acc, n, EmptyString)
  | String c r => match unhex c with Some d => hex_run (16 * acc + Z.of_nat d) (S n) r | None => (acc, n, s) end
  end.

(** The fields of an IPv6 address that are left; [out] holds the bytes before, [gap]
    the place of the double colon. *)
Fixpoint v6_fields (fuel : nat) (out : list Z) (gap : option nat) (s : string) : option (list Z * option nat * string) :=
  match fuel with
  | O => Some (out, gap, s)
  | S fuel =>
      let '(acc, digits, rest) := hex_run 0 0 s in
      if (digits =? 0)%nat || (4 <? digits)%nat then None
      else if HasPrefix rest "." then
        if bool_decide (gap = None) && negb (length out =? 12)%nat then None
        else if (12 <? length out)%nat then None
        else (fun v4 => (out ++ v4, gap, "")%list) <$> parseIPv4 s
      else
        let out := (out ++ [acc / 256; acc mod 256]%Z)%list in
        match rest with
        | EmptyString => Some (out, gap, "")
        | String c s =>
            if negb (Ascii.eqb c ":"%char) then None
            else match s with
                 | EmptyString => None
                 | String d r =>
                     if Ascii.eqb d ":"%char then
                       if bool_decide (gap <> None) then None
                       else if r =s? "" then Some (out, Some (length out), "") else v6_fields fuel out (Some (length out)) r
                     else v6_fields fuel out gap s
                 end
        end
  end.

Definition parseIPv6 (s : string) : option (list Z) :=
  if s =s? "::" then Some (replicate 16 0%Z)
  else
    let '(gap, body) := if HasPrefix s "::" then (Some 0%nat, drop 2 s) else (None, s) in
    match v6_fields 8 [] gap body with
    | Some (out, gap, EmptyString) =>
        if (length out <? 16)%nat then (fun g => firstn g out ++ replicate (16 - length out) 0%Z ++ skipn g out)%list <$> gap
        else if bool_decide (gap = None) then Some out else None
    | _ => None
    end.

(** The first of ['.'], [':'] and ['%'] decides; an address with a zone is refused. *)
Fixpoint first_of (l : list ascii) (s : string) : option ascii :=
  match s with EmptyString => None | String c r => if existsb (Ascii.eqb c) l then Some c else first_of l r end.

Definition ParseIP (s : string) : option IP :=
  match first_of ["."; ":"; "%"]%char s with
  | Some "."%char => (fun v4 => replicate 10 0 ++ [255; 255] ++ v4)%Z%list <$> parseIPv4 s
  | Some ":"%char => if Contains s "%" then None else parseIPv6 s
  | _ => None
  end.

Definition To4 (ip : IP) : option (list Z) :=
  if bool_decide (firstn 12 ip = replicate 10 0 ++ [255; 255])%Z%list then Some (skipn 12 ip) else None.

Definition byte_at (ip : IP) (i : nat) : Z := nth i ip 0%Z.

Definition IsLoopback (ip : IP) : bool :=
  match To4 ip with Some v4 => (byte_at v4 0 =? 127)%Z | None => bool_decide (ip = replicate 15 0 ++ [1])%Z%list end.
Definition IsLinkLocalUnicast (ip : IP) : bool :=
  match To4 ip with
  | Some v4 => (byte_at v4 0 =? 169)%Z && (byte_at v4 1 =? 254)%Z
  | None => (byte_at ip 0 =? 254)%Z && (Z.land (byte_at ip 1) 192 =? 128)%Z
  end.
Definition IsLinkLocalMulticast (ip : IP) : bool :=
  match To4 ip with
  | Some v4 => (byte_at v4 0 =? 224)%Z && (byte_at v4 1 =? 0)%Z && (byte_at v4 2 =? 0)%Z
  | None => (byte_at ip 0 =? 255)%Z && (Z.land (byte_at ip 1) 15 =? 2)%Z
  end.
Definition IsUnspecified (ip : IP) : bool :=
  match To4 ip with Some v4 => bool_decide (v4 = [0; 0; 0; 0]%Z) | None => bool_decide (ip = replicate 16 0%Z) end.
Definition IsPrivate (ip : IP) : bool :=
  match To4 ip with
  | Some v4 => (byte_at v4 0 =? 10)%Z || ((byte_at v4 0 =? 172)%Z && (Z.land (byte_at v4 1) 240 =? 16)%Z) || ((byte_at v4 0 =? 192)%Z && (byte_at v4 1 =? 168)%Z)
  | None => (Z.land (byte_at ip 0) 254 =? 252)%Z
  end.
Definition IsMulticast (ip : IP) : bool :=
  match To4 ip with Some v4 => (Z.land (byte_at v4 0) 240 =? 224)%Z | None => (byte_at ip 0 =? 255)%Z end.

(** *** The text of an address *)

Definition hex_digit (n : Z) : string := String (ascii_of_nat (Z.to_nat (if n <? 10 then 48 + n else 87 + n)%Z)) "".
Definition hex_field (v : Z) : string :=
  (if (4096 <=? v)%Z then hex_digit (v / 4096) else "") +:+ (if (256 <=? v)%Z then hex_digit (v / 256 mod 16) else "")
  +:+ (if (16 <=? v)%Z then hex_digit (v / 16 mod 16) else "") +:+ hex_digit (v mod 16).

Definition field (ip : IP) (i : nat) : Z := (256 * byte_at ip (2 * i) + byte_at ip (2 * i + 1))%Z.

Fixpoint zero_run (ip : IP) (fuel i : nat) : nat :=
  match fuel with O => O | S fuel => if (field ip i =? 0)%Z then S (zero_run ip fuel (S i)) else O end.

(** The first of the longest runs of zero fields, of two at least. *)
Definition longest_run (ip : IP) : option (nat * nat) :=
  fold_left (fun best i => let l := zero_run ip (8 - i) i in
                           if (2 <=? l)%nat && (match best with Some (_, n) => n | None => 0 end <? l)%nat then Some (i, l) else best) (seq 0 8) None.

Definition fields_text (ip : IP) (from n : nat) : string := Join (map (fun i => hex_field (field ip i)) (seq from n)) ":".

Definition ip_String (ip : IP) : string :=
  match To4 ip with
  | Some v4 => Join (map Itoa v4) "."
  | None => match longest_run ip with
            | Some (start, n) => fields_text ip 0 start +:+ "::" +:+ fields_text ip (start + n) (8 - (start + n))
            | None => fields_text ip 0 8
            end
  end.

(** ** Address classes *)

Definition metadataHosts : list (string * string) :=
  [("metadata.google.internal", "gcp"); ("metadata.azure.com", "azure"); ("169.254.169.254", "aws"); ("169.254.170.2", "aws_ecs");
   ("100.100.100.200", "alibaba"); ("fd00:ec2::254", "aws_v6"); ("fd00:ec2:0:0:0:0:0:254", "aws_v6");
   ("fe80::a9fe:a9fe", "azure_link_local_v6"); ("fe80:0:0:0:0:0:a9fe:a9fe", "azure_link_local_v6")].

Definition metadata_host (host : string) : option string := find_first (fun '(h, sub) => when_some (h =s? host) sub) metadataHosts.

Definition unmapIPv4InIPv6 (host : string) : string :=
  if negb (Contains host ":") then host
  else match ParseIP host with Some ip => if bool_decide (is_Some (To4 ip)) then ip_String ip else host | None => host end.

Definition privateIPClass (ip : IP) : option string :=
  if IsLoopback ip then Some "loopback"
  else if IsLinkLocalUnicast ip || IsLinkLocalMulticast ip then Some "link_local"
  else if IsUnspecified ip then Some "unspecified"
  else if bool_decide (To4 ip = None) && (Z.land (byte_at ip 0) 254 =? 252)%Z then Some "unique_local"
  else if IsPrivate ip then Some "rfc1918"
  else if IsMulticast ip then Some "multicast"
  else None.

Definition resolvedIPClass (ip : IP) : option string :=
  match privateIPClass ip with
  | Some class => Some class
  | None => (fun sub => "metadata_service:" +:+ sub) <$> metadata_host (ip_String ip)
  end.

(** ** Hosts *)

Definition exfilHostPatterns : list (string * string) :=
  [("webhook.site", "exfil_host:webhook_site"); (".ngrok.io", "exfil_host:ngrok_io"); (".ngrok-free.app", "exfil_host:ngrok_free");
   (".serveo.net", "exfil_host:serveo"); (".pipedream.net", "exfil_host:pipedream"); (".requestbin.com", "exfil_host:requestbin");
   (".beeceptor.com", "exfil_host:beeceptor"); (".burpcollaborator.net", "exfil_host:burp"); ("burpcollaborator.net", "exfil_host:burp");
   ("canarytokens.com", "exfil_host:canarytokens"); (".canarytokens.com", "exfil_host:canarytokens"); (".interactsh.com", "exfil_host:interactsh")].

Definition matchExfilHost (host : string) : option string :=
  find_first (fun '(pattern, r) => when_some ((pattern =s? host) || (HasPrefix pattern "." && HasSuffix host pattern)) r) exfilHostPatterns.

Definition rebindDomains : list string := [".nip.io"; ".sslip.io"; ".xip.io"].
Definition isRebindWildcardHost (host : string) : bool := existsb (HasSuffix host) rebindDomains.

Definition pastePatterns : list (string * string * string) :=
  [("pastebin.com", "/api/", "paste:pastebin_api"); ("gist.github.com", "/api/", "paste:gist_api")].
Definition matchPaste (host path : string) : option string :=
  find_first (fun '(h, p, r) => when_some ((host =s? h) && HasPrefix path p) r) pastePatterns.

(** ** The URL *)

Record URL := mkURL { u_Scheme : string; u_User : bool; u_Host : string; u_Path : string; u_RawQuery : string }.

(** [url.Parse]. *)
Class UrlParser := { ParseURL : string -> option URL }.

Definition validOptionalPort (port : string) : bool :=
  match port with EmptyString => true | String c r => Ascii.eqb c ":"%char && all_digits r end.

Definition Hostname (u : URL) : string :=
  let host := match cut_last ":"%char (u_Host u) with
              | Some (h, p) => if validOptionalPort (String ":" p) then h else u_Host u
              | None => u_Host u
              end in
  if HasPrefix host "[" && HasSuffix host "]" then TrimSuffix (drop 1 host) "]" else host.

(** The values of [url.ParseQuery]: parts that do not parse are skipped. *)
Definition query_value (part : string) : option string :=
  if Contains part ";" || (part =s? "") then None
  else let '(key, value) := match cut_first "="%char part with Some kv => kv | None => (part, "") end in
       match QueryUnescape key, QueryUnescape value with Some _, Some v => Some v | _, _ => None end.

Definition Query (u : URL) : list string := omap query_value (Split (u_RawQuery u) "&"%char).

Definition promptExfilQueryLenThreshold : nat := Z.to_nat 1024.
Definition json_key (s : string) : string := String dquote (s +:+ String dquote EmptyString).
Definition promptStashKeys : list string := map json_key ["messages"; "system"; "prompt"; "context_window"; "tools"; "conversation"].

Definition looksLikeJSONWithStashKey (s : string) : bool :=
  (Contains s "{" || Contains s "[") && existsb (Contains s) promptStashKeys.

Definition hasPromptExfilSignature (u : URL) : bool :=
  existsb (fun v => negb (String.length v <? promptExfilQueryLenThreshold)%nat && looksLikeJSONWithStashKey v) (Query u).

(** ** The cache of resolved hosts *)

Record resolverCacheEntry := mkResolverCacheEntry { ce_key : string; ce_ips : list IP; ce_expiry : Z }.

Definition resolverCache : Type := list resolverCacheEntry.

Definition cache_find (c : resolverCache) (key : string) : option resolverCacheEntry := List.find (fun e => ce_key e =s? key) c.
Definition cache_remove (c : resolverCache) (key : string) : resolverCache := List.filter (fun e => negb (ce_key e =s? key)) c.

Definition cache_get (c : resolverCache) (key : string) (now : Z) : resolverCache * option (list IP) :=
  match cache_find c key with
  | None => (c, None)
  | Some e => if negb (now <? ce_expiry e)%Z then (cache_remove c key, None) else (e :: cache_remove c key, Some (ce_ips e))
  end.

(** The cache and the number of entries evicted. *)
Definition cache_put (max : Z) (c : resolverCache) (key : string) (ips : list IP) (expiry : Z) : resolverCache * nat :=
  if (max <=? 0)%Z then (c, O)
  else if bool_decide (is_Some (cache_find c key)) then (mkResolverCacheEntry key ips expiry :: cache_remove c key, O)
  else let c := mkResolverCacheEntry key ips expiry :: c in (firstn (Z.to_nat max) c, (length c - Z.to_nat max)%nat).

(** [net.SplitHostPort], its host. *)
Definition SplitHostPort (hostport : string) : option string :=
  match cut_last ":"%char hostport with
  | None => None
  | Some (before, _) =>
      if HasPrefix hostport "[" then
        match cut_first "]"%char hostport with
        | Some (inner, after) =>
            if HasPrefix after ":" && negb (Contains (drop 1 after) ":") && negb (Contains (drop 1 inner) "[") && negb (Contains after "[")
               && negb (Contains after "]")
            then Some (drop 1 inner) else None
        | None => None
        end
      else if Contains before ":" || Contains hostport "[" || Contains hostport "]" then None else Some before
  end.

Definition normalizeResolverCacheKey (host : string) : string :=
  let trimmed := TrimSpace host in
  if trimmed =s? "" then ""
  else
    let trimmed := default trimmed (SplitHostPort trimmed) in
    let trimmed := if HasPrefix trimmed "[" then match cut_last "]"%char trimmed with Some (b, _) => drop 1 b | None => trimmed end else trimmed in
    ToLower trimmed.

Definition errResolverNoAddresses : string := "resolver returned no addresses".
Definition errResolverInvalidAddress : string := "resolver returned invalid address".

Definition parseResolvedIPs (values : list string) : result string (list IP) :=
  match values with
  | [] => Err errResolverNoAddresses
  | _ => match mapM (fun v => ParseIP (TrimSpace v)) values with Some ips => Ok ips | None => Err errResolverInvalidAddress end
  end.

(** ** The gate *)

Record URLGateOptions := mkURLOptions {
  uo_DomainSeen : option (string -> bool);
  uo_ResolverTTL : Z;
  uo_ResolverCacheMax : Z;
}.

Definition ResolverCacheTTL : Z := 300000000000.
Definition MaxResolverCacheEntries : Z := 2048.

Record URLGateConfig := mkURLGate { ug_domainSeen : option (string -> bool); ug_resCacheTTL : Z; ug_max : Z }.

Definition NewURLGate (o : URLGateOptions) : URLGateConfig :=
  mkURLGate (uo_DomainSeen o) (if (uo_ResolverTTL o <=? 0)%Z then ResolverCacheTTL else uo_ResolverTTL o)
    (if (uo_ResolverCacheMax o <=? 0)%Z then MaxResolverCacheEntries else uo_ResolverCacheMax o).

(** What the world answers during one evaluation: the resolver, and the clock when the
    cache is asked, asked again and written. *)
Record url_call := mkUrlCall { uc_lookup : string -> result string (list string); uc_asked : Z; uc_again : Z; uc_stored : Z }.

Definition resolveOrFail (g : URLGateConfig) (call : url_call) (c : resolverCache) (host : string) : resolverCache * result string (list IP) :=
  let key := normalizeResolverCacheKey host in
  match cache_get c key (uc_asked call) with
  | (c, Some ips) => (c, Ok ips)
  | (c, None) =>
      match cache_get c key (uc_again call) with
      | (c, Some ips) => (c, Ok ips)
      | (c, None) =>
          match uc_lookup call key with
          | Err e => (c, Err e)
          | Ok values =>
              match parseResolvedIPs values with
              | Err e => (c, Err e)
              | Ok ips => (fst (cache_put (ug_max g) c key ips (uc_stored call + ug_resCacheTTL g)%Z), Ok ips)
              end
          end
      end
  end.

Definition deny_url (code reason subReason raw host : string) (hasUserinfo : bool) : ActionGateDecision :=
  let extra := {["gate" := GateIDURL; "sub_reason" := subReason; "host" := host; "raw_len" := Itoa (Z.of_nat (String.length raw))]} in
  mkGateDecision DT_DENY GateIDURL code reason subReason (if hasUserinfo then <["userinfo_present" := "true"]> extra else extra).

Definition denyUnsafeResolvedHost (g : URLGateConfig) (call : url_call) (c : resolverCache) (host prefix raw : string) (hasUserinfo : bool)
    : resolverCache * option ActionGateDecision :=
  let '(c, r) := resolveOrFail g call c host in
  (c, match r with
      | Err _ => Some (deny_url CodeResolverError "unable to validate destination host" (prefix +:+ ":resolver_error") raw host hasUserinfo)
      | Ok ips =>
          (fun class => deny_url CodeAccessDenied (if prefix =s? "dns_rebind" then "dns rebinding denied" else "private destination host denied")
                          (prefix +:+ ":" +:+ class) raw host hasUserinfo) <$> find_first resolvedIPClass ips
      end).

(** The checks on the URL alone. *)
Definition url_checks (act : ActionDescriptor) (raw : string) (u : URL) (host : string) : option ActionGateDecision :=
  let hasUserinfo := u_User u in
  match metadata_host host with
  | Some sub => Some (deny_url CodeAccessDenied "metadata service access denied" ("metadata_service:" +:+ sub) raw host hasUserinfo)
  | None =>
      match (match ParseIP host with Some ip => privateIPClass ip | None => None end) with
      | Some class => Some (deny_url CodeAccessDenied "metadata service access denied" ("metadata_service:" +:+ class) raw host hasUserinfo)
      | None =>
          match matchExfilHost host with
          | Some r => Some (deny_url CodeAccessDenied "exfiltration destination denied" r raw host hasUserinfo)
          | None =>
              match (if isWriteVerb (Verb act) then matchPaste host (u_Path u) else None) with
              | Some r => Some (deny_url CodeAccessDenied "paste destination denied" r raw host hasUserinfo)
              | None => if hasPromptExfilSignature u
                        then Some (deny_url CodeAccessDenied "prompt context exfiltration denied" "prompt_exfil" raw host hasUserinfo) else None
              end
          end
      end
  end.

Definition pii_upload (g : URLGateConfig) (act : ActionDescriptor) (host : string) : bool :=
  isWriteVerb (Verb act) && containsRiskTag (ad_RiskTags act) "data:pii"
  && negb (match ug_domainSeen g with Some seen => seen host | None => false end).

Definition url_outcome (g : URLGateConfig) (act : ActionDescriptor) (host : string) : ActionGateDecision :=
  if pii_upload g act host
  then mkGateDecision DT_REQUIRE_HUMAN GateIDURL CodeRequireHuman "human approval required for PII upload to new destination" "pii_post:new_host"
         {["gate" := GateIDURL; "sub_reason" := "pii_post:new_host"; "host" := host]}
  else mkGateDecision DT_ALLOW GateIDURL "" "" "" ∅.

Definition URLGate `{UrlParser} (g : URLGateConfig) (call : url_call) (act : ActionDescriptor) (c : resolverCache) : resolverCache * ActionGateDecision :=
  if negb (Kind act =s? ActionKindURL) then (c, zero_decision)
  else
    let raw := TrimSpace (TargetURL act) in
    if raw =s? "" then (c, zero_decision)
    else match ParseURL raw with
         | None => (c, deny_url CodeAccessDenied "malformed URL denied" "malformed_url" raw "" false)
         | Some u =>
             let scheme := ToLower (TrimSpace (u_Scheme u)) in
             if negb (scheme =s? "http") && negb (scheme =s? "https")
             then (c, deny_url CodeAccessDenied "unsupported URL scheme denied" "unsupported_scheme" raw (ToLower (Hostname u)) (u_User u))
             else if (u_Host u =s? "") || (Hostname u =s? "") then (c, deny_url CodeAccessDenied "URL host required" "missing_host" raw "" (u_User u))
             else
               let host := unmapIPv4InIPv6 (ToLower (Hostname u)) in
               match url_checks act raw u host with
               | Some d => (c, d)
               | None =>
                   match ParseIP host with
                   | Some _ => (c, url_outcome g act host)
                   | None =>
                       let prefix := if isRebindWildcardHost host then "dns_rebind" else "dns_resolution" in
                       match denyUnsafeResolvedHost g call c host prefix raw (u_User u) with
                       | (c, Some d) => (c, d)
                       | (c, None) => (c, url_outcome g act host)
                       end
                   end
               end
         end.
