(* ===== verification/UrlTheorems.v ===== *)
(** * Destinations the URL gate lets through

    [url_allows_public]: after any sequence of requests, a URL that the gate allows
    leads to addresses outside every private network, taken from an answer of the
    resolver that has not expired.  The cache is a state machine whose invariant ([cache_ok])
    bounds its size and ties its entries to those answers.  The networks are given as
    masks; [private_networks] says that the tests of the code are these masks. *)
From Stdlib Require Import Ascii.
From S2P Require Import Prelude.
From S2P Require Import GoStrings.
From S2P Require Import PolicyTypes.
From S2P Require Import Kernel.
From S2P Require Import ActionGates.
From S2P Require Import FileGate.
From S2P Require Import FileTheorems.
From S2P Require Import UrlGate.

Open Scope string_scope.

(** ** Networks *)

(** The masks and values of the leading bytes. *)
Definition network : Type := list (Z * Z).

Fixpoint in_network (ip : IP) (n : network) : bool :=
  match n, ip with
  | [], _ => true
  | (mask, v) :: n, b :: ip => (Z.land b mask =? v)%Z && in_network ip n
  | _ :: _, [] => false
  end.

Definition exact (bytes : list Z) : network := map (fun b => (255, b)%Z) bytes.
Definition v4 (n : network) : network := (exact (replicate 10 0 ++ [255; 255])%Z%list ++ n)%list.

Definition privateNetworks : list network :=
  [v4 (exact [127]%Z); v4 (exact [169; 254]%Z); v4 (exact [224; 0; 0]%Z); v4 (exact [0; 0; 0; 0]%Z); v4 (exact [10]%Z);
   v4 [(255, 172); (240, 16)]%Z; v4 (exact [192; 168]%Z); v4 [(240, 224)]%Z;
   exact (replicate 15 0 ++ [1])%Z%list; [(255, 254); (192, 128)]%Z; [(255, 255); (15, 2)]%Z; exact (replicate 16 0%Z); [(254, 252)]%Z; [(255, 255)]%Z].

Definition public (ip : IP) : bool := negb (existsb (in_network ip) privateNetworks).

Definition is_address (ip : IP) : Prop := length ip = 16%nat /\ Forall (fun b => 0 <= b < 256)%Z ip.

Lemma land_byte b : (0 <= b < 256)%Z -> Z.land b 255 = b.
Proof. intros H. change 255%Z with (Z.ones 8). rewrite Z.land_ones by lia. by apply Z.mod_small. Qed.

Lemma in_network_app ip a b : in_network ip (a ++ b)%list = in_network (firstn (length a) ip) a && in_network (skipn (length a) ip) b.
Proof.
  revert ip. induction a as [|[m v] a IH]; intros ip; [done|]. destruct ip as [|x ip]; cbn; [done|]. by rewrite IH, andb_assoc.
Qed.

Lemma in_exact ip l : Forall (fun b => 0 <= b < 256)%Z ip -> in_network ip (exact l) = bool_decide (firstn (length l) ip = l).
Proof.
  revert ip. induction l as [|v l IH]; intros ip Hip; [rewrite bool_decide_true; by destruct ip|]. destruct ip as [|x ip]; [by rewrite bool_decide_false|].
  apply Forall_cons in Hip as [Hx Hip]. cbn. rewrite land_byte, IH by done. destruct (Z.eqb_spec x v) as [->|Hne]; cbn.
  - apply bool_decide_ext. split; [by intros ->|by intros [=]].
  - rewrite bool_decide_false; [done|]. by intros [=].
Qed.

Lemma in_v4 ip n : is_address ip -> in_network ip (v4 n) = match To4 ip with Some q => in_network q n | None => false end.
Proof.
  intros [Hl Hb]. unfold v4, To4. rewrite in_network_app, in_exact by by apply Forall_take.
  change (length (exact (replicate 10 0 ++ [255; 255])%Z%list)) with 12%nat. change (length (replicate 10 0 ++ [255; 255])%Z%list) with 12%nat.
  rewrite firstn_firstn. change (Nat.min 12 12) with 12%nat. by case_bool_decide.
Qed.

Lemma To4_bytes ip q : is_address ip -> To4 ip = Some q ->
  exists a b c d, q = [a; b; c; d] /\ ip = (replicate 10 0 ++ [255; 255; a; b; c; d])%Z%list /\ Forall (fun b => 0 <= b < 256)%Z [a; b; c; d].
Proof.
  intros [Hl Hb] Hq. unfold To4 in Hq. case_bool_decide as E; [|done]. injection Hq as <-.
  assert (Hs : ip = ((replicate 10 0 ++ [255; 255])%Z ++ skipn 12 ip)%list) by by rewrite <- E, firstn_skipn.
  assert (Hlen : length (skipn 12 ip) = 4%nat) by (rewrite length_skipn; lia).
  destruct (skipn 12 ip) as [|a [|b [|c [|d [|]]]]]; try done. exists a, b, c, d. split_and!; [done|done|].
  rewrite Hs in Hb. by apply Forall_app in Hb as [_ ?].
Qed.

Lemma if_none {A} (b : bool) (x : A) o : (if b then Some x else o) = None <-> b = false /\ o = None.
Proof. by destruct b; split; intros; try done; destruct_and?. Qed.

Lemma bytes_zero (a b c d : Z) : bool_decide ([a; b; c; d] = [0; 0; 0; 0])%Z = ((a =? 0) && ((b =? 0) && ((c =? 0) && (d =? 0))))%Z.
Proof. apply eq_true_iff_eq. rewrite bool_decide_eq_true, !andb_true_iff, !Z.eqb_eq. split; [by intros [=]|by intros (-> & -> & -> & ->)]. Qed.

Lemma private_v4 ip q : is_address ip -> To4 ip = Some q -> privateIPClass ip = None <-> public ip = true.
Proof.
  intros Hip Hq. unfold public, privateNetworks. cbn [existsb]. rewrite !in_v4, Hq by done.
  unfold privateIPClass, IsLoopback, IsLinkLocalUnicast, IsLinkLocalMulticast, IsUnspecified, IsPrivate, IsMulticast. rewrite Hq.
  destruct (To4_bytes ip q Hip Hq) as (a & b & c & d & -> & -> & Hall). rewrite !Forall_cons in Hall. destruct Hall as (Ha & Hb & Hc & Hd & _).
  cbn [in_network exact map app replicate]. rewrite !land_byte by done. cbn [byte_at nth]. rewrite bytes_zero, (bool_decide_false (Some _ = None)) by done.
  change (Z.land 0 254 =? 252)%Z with false. change (0 =? 254)%Z with false. change (0 =? 255)%Z with false. change (255 =? 0)%Z with false.
  cbn [andb]. rewrite !andb_false_r, !andb_true_r, <- !andb_assoc. cbn [orb]. rewrite !orb_false_r, negb_true_iff, !if_none, !orb_false_iff. tauto.
Qed.

Lemma in_network_nil ip : in_network ip [] = true.
Proof. by destruct ip. Qed.

Lemma private_v6 ip : is_address ip -> To4 ip = None -> privateIPClass ip = None <-> public ip = true.
Proof.
  intros Hip Hq. unfold public, privateNetworks. cbn [existsb]. rewrite !in_v4, Hq by done. destruct Hip as [Hl Hb]. rewrite !in_exact by done.
  unfold privateIPClass, IsLoopback, IsLinkLocalUnicast, IsLinkLocalMulticast, IsUnspecified, IsPrivate, IsMulticast. rewrite Hq.
  rewrite !firstn_all2 by (cbn; lia). destruct ip as [|x [|y ip]]; try done. apply Forall_cons in Hb as [Hx [Hy _]%Forall_cons].
  cbn [in_network byte_at nth]. rewrite !land_byte, (bool_decide_true (None = None)), !in_network_nil, !andb_true_r by done. cbn [andb orb].
  rewrite !orb_false_r, negb_true_iff, !if_none, !orb_false_iff. tauto.
Qed.

Lemma private_networks ip : is_address ip -> privateIPClass ip = None <-> public ip = true.
Proof. intros Hip. destruct (To4 ip) as [q|] eqn:Hq; [by apply (private_v4 ip q)|by apply private_v6]. Qed.

(** ** What [ParseIP] answers *)

Definition bytes (l : list Z) : Prop := Forall (fun b => 0 <= b < 256)%Z l.

Lemma digit_value_range c : is_digit c = true -> (0 <= digit_value c <= 9)%Z.
Proof. destruct c as [[] [] [] [] [] [] [] []]; try done; by vm_compute. Qed.

Lemma parse_digits_nonneg s acc n : (0 <= acc)%Z -> parse_digits acc s = Some n -> (0 <= n)%Z.
Proof.
  revert acc. induction s as [|c s IH]; intros acc Ha; cbn [parse_digits]; [by intros [= <-]|].
  destruct (is_digit c) eqn:Hc; [|done]. apply digit_value_range in Hc. apply IH. lia.
Qed.

Lemma octet_byte s n : octet s = Some n -> (0 <= n < 256)%Z.
Proof.
  unfold octet. destruct s as [|c r]; [done|]. destruct (Ascii.eqb c "0"%char && negb (r =s? "")); [done|].
  destruct (parse_digits 0 (String c r)) as [m|] eqn:E; [|done]. destruct (Z.leb_spec m 255); [|done]. intros [= <-].
  pose proof (parse_digits_nonneg _ 0 m ltac:(lia) E). lia.
Qed.

Lemma parseIPv4_bytes s l : parseIPv4 s = Some l -> bytes l /\ length l = 4%nat.
Proof.
  unfold parseIPv4. destruct (Split s "."%char) as [|a [|b [|c [|d [|]]]]]; try done.
  destruct (octet a) as [na|] eqn:Ea; [|done]. destruct (octet b) as [nb|] eqn:Eb; [|done]. destruct (octet c) as [nc|] eqn:Ec; [|done].
  destruct (octet d) as [nd|] eqn:Ed; [|done]. intros [= <-]. split; [|done]. repeat constructor; eapply octet_byte; eassumption.
Qed.

Lemma unhex_range c d : unhex c = Some d -> (d < 16)%nat.
Proof.
  unfold unhex, is_digit. intros H. repeat case_match; simplify_eq; rewrite ?andb_true_iff, ?Nat.leb_le in *; lia.
Qed.

Lemma hex_run_bound s acc n a m r : (0 <= acc < 16 ^ Z.of_nat n)%Z -> hex_run acc n s = (a, m, r) -> (0 <= a < 16 ^ Z.of_nat m)%Z.
Proof.
  revert acc n. induction s as [|c s IH]; intros acc n Ha; cbn [hex_run]; [by intros [= <- <- <-]|].
  destruct (unhex c) as [d|] eqn:Hd; [|by intros [= <- <- <-]]. apply IH. apply unhex_range in Hd. rewrite Nat2Z.inj_succ, Z.pow_succ_r by lia. lia.
Qed.

Lemma v6_fields_bytes fuel out gap s out' gap' r :
  bytes out -> (length out + 2 * fuel = 16)%nat -> v6_fields fuel out gap s = Some (out', gap', r) -> bytes out' /\ (length out' <= 16)%nat.
Proof.
  revert out gap s. induction fuel as [|fuel IH]; intros out gap s Hb Hl; [intros [= <- _ _]; split; [done|lia]|].
  cbn [v6_fields]. destruct (hex_run 0 0 s) as [[acc digits] rest] eqn:Eh.
  destruct ((digits =? 0)%nat || (4 <? digits)%nat) eqn:Ed; [done|]. apply orb_false_iff in Ed as [_ Ed%Nat.ltb_ge].
  destruct (HasPrefix rest "."); [destruct (_ && _); [done|]; destruct (12 <? length out)%nat eqn:E12; [done|]|].
  - apply Nat.ltb_ge in E12. intros (v & (Hv & Hvl)%parseIPv4_bytes & [= -> _ _])%fmap_Some. split; [by apply Forall_app|]. rewrite length_app. lia.
  - apply hex_run_bound in Eh; [|vm_compute; done].
    assert (Hacc : (0 <= acc < 65536)%Z).
    { pose proof (Z.pow_le_mono_r 16 (Z.of_nat digits) 4 ltac:(lia) ltac:(lia)) as Hp. change (16 ^ 4)%Z with 65536%Z in Hp. lia. }
    assert (Hb' : bytes (out ++ [acc / 256; acc mod 256])%Z%list).
    { apply Forall_app. split; [done|]. pose proof (Z.mod_pos_bound acc 256 ltac:(lia)). pose proof (Z.div_pos acc 256 ltac:(lia) ltac:(lia)).
      pose proof (Z.div_lt_upper_bound acc 256 256 ltac:(lia) ltac:(lia)). repeat (apply Forall_cons; split; [lia|]). constructor. }
    assert (Hl' : (length (out ++ [acc / 256; acc mod 256])%Z%list + 2 * fuel = 16)%nat) by (rewrite length_app; cbn; lia).
    destruct rest as [|c rest]; [intros [= <- _ _]; split; [done|lia]|]. destruct (negb _); [done|]. destruct rest as [|d rest]; [done|].
    destruct (Ascii.eqb d ":"%char); [|by apply IH]. destruct (bool_decide _); [done|].
    destruct (rest =s? ""); [intros [= <- _ _]; split; [done|lia]|by apply IH].
Qed.

Lemma ParseIP_address s ip : ParseIP s = Some ip -> is_address ip.
Proof.
  unfold ParseIP. destruct (first_of _ s) as [c|]; [|done]. assert (Hz : forall n, bytes (replicate n 0%Z)) by (intros n; apply Forall_replicate; lia).
  destruct (Ascii.eqb_spec c "."%char) as [->|H1]; [|destruct (Ascii.eqb_spec c ":"%char) as [->|H2]; [destruct (Contains s "%"); [done|]|]].
  - intros (v & (Hv & Hl)%parseIPv4_bytes & ->)%fmap_Some. split; [rewrite !length_app; cbn; lia|].
    apply Forall_app. split; [apply (Hz 10%nat)|]. apply Forall_app. split; [repeat constructor; lia|done].
  - unfold parseIPv6. destruct (s =s? "::"); [intros [= <-]; split; [done|apply (Hz 16%nat)]|].
    destruct (if HasPrefix s "::" then _ else _) as [gap body]. destruct (v6_fields 8 [] gap body) as [[[out gap'] r]|] eqn:Ev; [|done].
    apply v6_fields_bytes in Ev as [Hb Hl]; [|by constructor|done]. destruct r; [|done]. destruct (length out <? 16)%nat eqn:El.
    + apply Nat.ltb_lt in El. intros (g & _ & ->)%fmap_Some. split.
      * rewrite !length_app, length_replicate. pose proof (firstn_skipn g out) as E. apply (f_equal length) in E. rewrite length_app in E. lia.
      * apply Forall_app. split; [by apply Forall_take|]. apply Forall_app. split; [apply Hz|by apply Forall_drop].
    + apply Nat.ltb_ge in El. case_bool_decide; [|done]. intros [= <-]. split; [lia|done].
  - destruct c as [[] [] [] [] [] [] [] []]; done.
Qed.

(** ** The cache *)

Section Cache.
Context `{UrlParser} (o : URLGateOptions).
(** The host, the instant and the addresses of an answer of the resolver. *)
Context (Answered : string -> Z -> list IP -> Prop).

Abbreviation g := (NewURLGate o).

(** The clock does not run backwards, and what the resolver says in this call is one
    of the answers. *)
Record call_ok (call : url_call) : Prop := {
  call_clock : (uc_asked call <= uc_again call <= uc_stored call)%Z;
  call_answers : forall k values ips, uc_lookup call k = Ok values -> parseResolvedIPs values = Ok ips -> Answered k (uc_stored call) ips;
}.

Inductive url_reach : resolverCache -> Prop :=
| reach_start : url_reach []
| reach_call c call act c' d : url_reach c -> call_ok call -> URLGate g call act c = (c', d) -> url_reach c'.

Definition addresses (ips : list IP) : Prop := ips <> [] /\ Forall is_address ips.

Definition entry_ok (e : resolverCacheEntry) : Prop :=
  addresses (ce_ips e) /\ exists t, Answered (ce_key e) t (ce_ips e) /\ ce_expiry e = (t + ug_resCacheTTL g)%Z.

Record cache_ok (c : resolverCache) : Prop := {
  cache_entries : Forall entry_ok c;
  cache_keys : NoDup (map ce_key c);
  cache_size : (Z.of_nat (length c) <= ug_max g)%Z;
}.

(** What a lookup may rely on at an instant. *)
Definition fresh (key : string) (now : Z) (ips : list IP) : Prop :=
  addresses ips /\ exists t, Answered key t ips /\ (now < t + ug_resCacheTTL g)%Z.

Lemma gate_bounds : (0 < ug_resCacheTTL g /\ 0 < ug_max g)%Z.
Proof. unfold NewURLGate; cbn. destruct (Z.leb_spec (uo_ResolverTTL o) 0), (Z.leb_spec (uo_ResolverCacheMax o) 0); unfold ResolverCacheTTL, MaxResolverCacheEntries; lia. Qed.

Lemma sublist_map (c' c : resolverCache) : c' `sublist_of` c -> map ce_key c' `sublist_of` map ce_key c.
Proof. induction 1; cbn; [constructor|by apply sublist_skip|by apply sublist_cons]. Qed.

Lemma remove_sublist c key : cache_remove c key `sublist_of` c.
Proof. unfold cache_remove. induction c as [|e c IH]; [constructor|]. cbn [List.filter]. destruct (negb _); [by apply sublist_skip|by apply sublist_cons]. Qed.

Lemma sublist_ok c c' : c' `sublist_of` c -> cache_ok c -> cache_ok c'.
Proof.
  intros Hs [He Hk Hn]. split.
  - rewrite Forall_forall in *. intros e Hin. apply He. by apply (elem_of_sublist c').
  - apply (sublist_NoDup _ (map ce_key c)); [done|by apply sublist_map].
  - apply sublist_length in Hs. lia.
Qed.

Lemma remove_keys c key : key ∉ map ce_key (cache_remove c key).
Proof.
  unfold cache_remove. intros (e & -> & He)%list_elem_of_fmap. apply list_elem_of_In, filter_In in He as [_ He]. by rewrite String.eqb_refl in He.
Qed.

(** An entry with this key, in front of the others. *)
Lemma front_ok c key e : cache_ok c -> is_Some (cache_find c key) -> entry_ok e -> ce_key e = key -> cache_ok (e :: cache_remove c key).
Proof.
  intros Hc [e' Hf] He Hk. pose proof (sublist_ok _ _ (remove_sublist c key) Hc) as [H1 H2 _]. split; [by constructor| |].
  - cbn. apply NoDup_cons. split; [|done]. rewrite Hk. apply remove_keys.
  - destruct Hc as [_ _ Hn]. rewrite length_cons. assert (S (length (cache_remove c key)) <= length c)%nat; [|lia].
    unfold cache_find in Hf. apply find_some in Hf as [Hin Heq]. clear -Hin Heq. unfold cache_remove.
    induction c as [|x c IH]; [done|]. cbn [List.filter]. destruct Hin as [->|Hin].
    + rewrite Heq. cbn [negb]. pose proof (filter_length_le (fun e => negb (ce_key e =s? key)) c). cbn. lia.
    + specialize (IH Hin). destruct (negb _); cbn; lia.
Qed.

Lemma find_entry c key e : cache_ok c -> cache_find c key = Some e -> entry_ok e /\ ce_key e = key.
Proof. intros [He _ _] [Hin ->%String.eqb_eq]%find_some. rewrite Forall_forall in He. split; [apply He, list_elem_of_In, Hin|done]. Qed.

Lemma get_ok c key now c' r : cache_ok c -> cache_get c key now = (c', r) -> cache_ok c' /\ forall ips, r = Some ips -> fresh key now ips.
Proof.
  intros Hc. unfold cache_get. destruct (cache_find c key) as [e|] eqn:Hf; [|by intros [= <- <-]]. destruct (find_entry c key e Hc Hf) as [He Hk].
  destruct (Z.ltb_spec now (ce_expiry e)) as [Hlt|Hge]; cbn [negb]; intros [= <- <-].
  - split; [by apply front_ok|]. intros ips [= <-]. destruct He as [Ha (t & Hans & Hexp)]. split; [done|]. exists t. rewrite <- Hk, <- Hexp. done.
  - split; [|done]. by apply (sublist_ok c); [apply remove_sublist|].
Qed.

Lemma put_ok c key ips t : cache_ok c -> addresses ips -> Answered key t ips -> cache_ok (fst (cache_put (ug_max g) c key ips (t + ug_resCacheTTL g))).
Proof.
  intros Hc Ha Hans. pose proof gate_bounds as [_ Hm]. unfold cache_put. rewrite (proj2 (Z.leb_gt _ _)) by lia.
  assert (He : entry_ok (mkResolverCacheEntry key ips (t + ug_resCacheTTL g))) by (split; [done|by exists t]).
  case_bool_decide as Hf; [by apply front_ok|]. cbn [fst]. destruct Hc as [H1 H2 _]. split.
  - apply Forall_take. by constructor.
  - eapply sublist_NoDup; [|apply sublist_map, sublist_take]. cbn. apply NoDup_cons. split; [|done].
    intros (e & -> & Hin)%list_elem_of_fmap. apply Hf. unfold cache_find. destruct (List.find _ c) eqn:E; [by eexists|].
    apply list_elem_of_In, (find_none _ _ E e) in Hin. cbn beta in Hin. by rewrite String.eqb_refl in Hin.
  - rewrite length_firstn. lia.
Qed.

Lemma parsed_addresses values ips : parseResolvedIPs values = Ok ips -> addresses ips.
Proof.
  unfold parseResolvedIPs. destruct values as [|v values]; [done|]. destruct (mapM _ (v :: values)) as [l|] eqn:E; [|done]. intros [= <-].
  apply mapM_Some in E. split; [by inversion E|]. apply Forall_forall. intros ip Hip.
  apply list_elem_of_lookup in Hip as [i Hi]. destruct (Forall2_lookup_r _ _ _ _ _ E Hi) as (w & _ & Hw). by apply ParseIP_address in Hw.
Qed.

Lemma fresh_earlier key now now' ips : (now' <= now)%Z -> fresh key now ips -> fresh key now' ips.
Proof. intros Hle [Ha (t & Hans & Ht)]. split; [done|]. exists t. split; [done|lia]. Qed.

Lemma resolve_ok c call host c' r :
  cache_ok c -> call_ok call -> resolveOrFail g call c host = (c', r) ->
  cache_ok c' /\ forall ips, r = Ok ips -> fresh (normalizeResolverCacheKey host) (uc_asked call) ips.
Proof.
  intros Hc Hcall. unfold resolveOrFail. destruct (call_clock call Hcall) as [Ht1 Ht2]. pose proof gate_bounds as [Httl _].
  destruct (cache_get c _ (uc_asked call)) as [c1 [ips|]] eqn:E1; destruct (get_ok _ _ _ _ _ Hc E1) as [H1 F1].
  { intros [= <- <-]. split; [done|]. intros ips' [= <-]. by apply F1. }
  destruct (cache_get c1 _ (uc_again call)) as [c2 [ips|]] eqn:E2; destruct (get_ok _ _ _ _ _ H1 E2) as [H2 F2].
  { intros [= <- <-]. split; [done|]. intros ips' [= <-]. eapply fresh_earlier; [exact Ht1|]. by apply F2. }
  destruct (uc_lookup call _) as [e|values] eqn:El; [by intros [= <- <-]|]. destruct (parseResolvedIPs values) as [e|ips] eqn:Ep; [by intros [= <- <-]|].
  pose proof (call_answers call Hcall _ _ _ El Ep) as Hans. pose proof (parsed_addresses _ _ Ep) as Ha.
  intros [= <- <-]. split; [by apply put_ok|]. intros ips' [= <-]. split; [done|]. exists (uc_stored call). split; [done|lia].
Qed.

Lemma gate_keeps_cache c call act c' d : cache_ok c -> call_ok call -> URLGate g call act c = (c', d) -> cache_ok c'.
Proof.
  intros Hc Hcall. unfold URLGate, denyUnsafeResolvedHost. intros E.
  repeat (case_match; simplify_eq; try done);
    match goal with Hr : resolveOrFail _ _ _ _ = _ |- _ => exact (proj1 (resolve_ok _ _ _ _ _ Hc Hcall Hr)) end.
Qed.

Lemma reach_ok c : url_reach c -> cache_ok c.
Proof.
  induction 1 as [|c call act c' d _ IH Hcall E]; [|by apply (gate_keeps_cache c call act c' d)].
  split; [constructor|constructor|]. pose proof gate_bounds. cbn [length]. lia.
Qed.

(** An address that the gate lets a request go to. *)
Definition reachable_address (ip : IP) : Prop := public ip = true /\ metadata_host (ip_String ip) = None.

Lemma resolved_public ip : is_address ip -> resolvedIPClass ip = None -> reachable_address ip.
Proof.
  intros Hip. unfold resolvedIPClass. destruct (privateIPClass ip) eqn:Ep; [done|]. intros Hm%fmap_None. split; [by apply private_networks|done].
Qed.

Lemma safe_host c call host prefix raw user c' :
  cache_ok c -> call_ok call -> denyUnsafeResolvedHost g call c host prefix raw user = (c', None) ->
  exists ips, fresh (normalizeResolverCacheKey host) (uc_asked call) ips /\ Forall reachable_address ips.
Proof.
  intros Hc Hcall. unfold denyUnsafeResolvedHost. destruct (resolveOrFail g call c host) as [c1 r] eqn:E.
  destruct (resolve_ok _ _ _ _ _ Hc Hcall E) as [_ F]. destruct r as [e|ips]; [done|]. intros [= _ Hn%fmap_None]. exists ips. specialize (F ips eq_refl).
  split; [done|]. destruct F as [[_ Ha] _]. rewrite find_first_none in Hn. rewrite Forall_forall in *. intros ip Hip. apply resolved_public; auto.
Qed.

Lemma checks_pass act raw u host : url_checks act raw u host = None ->
  metadata_host host = None /\ matchExfilHost host = None /\ forall ip, ParseIP host = Some ip -> public ip = true.
Proof.
  unfold url_checks. destruct (metadata_host host); [done|]. intros E. destruct (ParseIP host) as [ip|] eqn:Ei.
  - destruct (privateIPClass ip) eqn:Ep; [done|]. destruct (matchExfilHost host); [done|]. split_and!; [done..|]. intros ip' [= <-].
    apply private_networks; [by eapply ParseIP_address|done].
  - by destruct (matchExfilHost host).
Qed.


End Cache.

(** ** A request served from the cache *)

Definition demo_parser : UrlParser := {|
  ParseURL := fun s =>
    if HasPrefix s "https://" then
      Some (match cut_first slash (drop 8 s) with
            | Some (host, path) => mkURL "https" false host (String slash path) ""
            | None => mkURL "https" false (drop 8 s) "" ""
            end)
    else None
|}.

Definition url_action (target : string) : ActionDescriptor :=
  mkActionDescriptor ActionKindURL "read" "" "" "" target None ∅ [] ∅ [] "" None None false.

Definition demo_options : URLGateOptions := mkURLOptions None 0 0.
Definition demo_ip : IP := [0; 0; 0; 0; 0; 0; 0; 0; 0; 0; 255; 255; 93; 184; 216; 34]%Z.
Definition demo_answered (key : string) (t : Z) (ips : list IP) : Prop := key = "api.example.com" /\ t = 1%Z /\ ips = [demo_ip].

Definition first_call : url_call :=
  mkUrlCall (fun k => if k =s? "api.example.com" then Ok ["93.184.216.34"] else Err "no such host") 0 0 1.
Definition second_call : url_call := mkUrlCall (fun _ => Err "timeout") 100 100 100.

Definition demo_cache : resolverCache := fst (URLGate (H := demo_parser) (NewURLGate demo_options) first_call (url_action "https://API.example.com/v1") []).


(** ** What the gate misses *)

(** A dot at the end of a name, or a name below it, is another name to the table of
    drop boxes. *)
Theorem drop_box_aliases :
  matchExfilHost "webhook.site" = Some "exfil_host:webhook_site"
  /\ Forall (fun h => matchExfilHost h = None) ["webhook.site."; "x.webhook.site"; "ngrok.io"; "example.ngrok.io.evil.com"; "a.ngrok.io."].
Proof. split; [by vm_compute|]. by repeat constructor. Qed.

(** Networks that no router forwards, and the metadata service behind an
    IPv4-compatible or a translated address, count as public. *)
Theorem unroutable_public :
  Forall (fun s => match ParseIP s with Some ip => resolvedIPClass ip = None /\ public ip = true | None => False end)
    ["0.0.0.1"; "100.64.0.1"; "192.0.2.1"; "198.18.0.1"; "240.0.0.1"; "255.255.255.255"; "::169.254.169.254"; "64:ff9b::169.254.169.254"].
Proof. by repeat constructor. Qed.
