(* ===== verification/GatePipeline.v ===== *)
(** * The pipeline of action gates and its place in the safety kernel

    core/policy/actiongates/pipeline.go and wire.go, and kernel_actiongate.go and
    kernel_actiongate_wire.go of core/controlplane/safetykernel.  The state a pipeline
    carries is the resolver cache of its URL gate.  [gate_ctx] is the request's context:
    who is authenticated, whether it has been cancelled when a gate is about to run, and
    what the clock and the resolver answer then.  Decoding the JSON of a descriptor is
    the parameter [DescriptorJson]. *)
From Stdlib Require Import Ascii.
From S2P Require Import Prelude.
From S2P Require Import GoStrings.
From S2P Require Import PolicyTypes.
From S2P Require Import Kernel.
From S2P Require Import GoValues.
From S2P Require Import GoJsonAny.
From S2P Require Import AuditChain.
From S2P Require Import ActionGates.
From S2P Require Import FileGate.
From S2P Require Import UrlGate.

Open Scope string_scope.

(** ** Gates in order *)

Record ActionGate := mkGate { ag_ID : string; ag_Evaluate : PolicyInput -> resolverCache -> resolverCache * ActionGateDecision }.

Definition NewPipeline (gates : list (option ActionGate)) : list ActionGate := omap id gates.

Definition cancelled_decision (g : ActionGate) : ActionGateDecision :=
  mkGateDecision DT_DENY (ag_ID g) CodeInternalError "context canceled before pipeline completed" "context_canceled"
    {["gate" := ag_ID g; "sub_reason" := "context_canceled"]}.

(** The loop over the gates; [merged] collects the breadcrumbs of those that allow. *)
Fixpoint run_gates (cancelled : string -> bool) (gates : list ActionGate) (input : PolicyInput) (c : resolverCache) (merged : gmap string string)
    : resolverCache * (ActionGateDecision * bool) :=
  match gates with
  | [] => (c, (mkGateDecision DT_UNSPECIFIED "" "" "" "" merged, false))
  | g :: gates =>
      if cancelled (ag_ID g) then (c, (cancelled_decision g, true))
      else let '(c, dec) := ag_Evaluate g input c in
           if negb (Fired dec) then run_gates cancelled gates input c merged
           else if Allowed dec then run_gates cancelled gates input c (gd_Extra dec ∪ merged)
           else (c, (dec, true))
  end.

Definition Run (cancelled : string -> bool) (p : list ActionGate) (input : PolicyInput) (c : resolverCache)
    : resolverCache * (ActionGateDecision * bool) :=
  match p, Action input with
  | [], _ | _, None => (c, (zero_decision, false))
  | _, Some _ => run_gates cancelled p input c ∅
  end.

(** ** The production pipeline *)

Record gate_ctx := mkGateCtx {
  gc_auth : option AuthContext;
  gc_cancelled : string -> bool;
  gc_now : string -> Z;
  gc_url : url_call;
}.

Record ProductionPipelineOptions := mkPipelineOptions {
  po_Approvals : option ApprovalLookup;
  po_Resources : option ResourceLookup;
  po_MCP : MCPGateOptions;
  po_ChainVerifier : option ChainVerifier;
  po_DomainSeen : option (string -> bool);
}.

Definition no_options : ProductionPipelineOptions := mkPipelineOptions None None (mkMCPOptions None None ∅ [] [] [] false) None None.

(** A gate whose [Evaluate] returns at once without an action. *)
Definition on_action (act : ActionDescriptor -> resolverCache -> resolverCache * ActionGateDecision) (input : PolicyInput) (c : resolverCache)
    : resolverCache * ActionGateDecision :=
  match Action input with Some a => act a c | None => (c, zero_decision) end.

Section Production.
Context `{GoRuntime} `{FloatParser} `{JsonFloat} `{UrlParser}.

Definition tenant_gate (ctx : gate_ctx) : ActionGate :=
  mkGate GateIDTenant (on_action (fun act c => (c, TenantGate (gc_auth ctx) act))).
Definition file_gate : ActionGate := mkGate GateIDFile (on_action (fun act c => (c, FileGate act))).
Definition url_gate (opts : ProductionPipelineOptions) (ctx : gate_ctx) : ActionGate :=
  mkGate GateIDURL (on_action (URLGate (NewURLGate (mkURLOptions (po_DomainSeen opts) 0 0)) (gc_url ctx))).
Definition mcp_gate (opts : ProductionPipelineOptions) (ctx : gate_ctx) : ActionGate :=
  mkGate GateIDMCP (fun input => on_action (fun act c => (c, MCPGate (po_MCP opts) (gc_auth ctx) (Meta input) (Labels input) act)) input).
Definition mutation_gate (opts : ProductionPipelineOptions) (ctx : gate_ctx) : ActionGate :=
  mkGate GateIDMutation
    (on_action (fun act c => (c, MutationGate (po_Approvals opts) (po_Resources opts) (gc_now ctx GateIDMutation) (gc_auth ctx) act))).
Definition provenance_gate (opts : ProductionPipelineOptions) (ctx : gate_ctx) : ActionGate :=
  mkGate GateIDProvenance
    (on_action (fun act c => (c, ProvenanceGate (po_Approvals opts) (po_ChainVerifier opts) (gc_now ctx GateIDProvenance) (gc_auth ctx) act))).

Definition BuildProductionPipeline (opts : ProductionPipelineOptions) (ctx : gate_ctx) : list ActionGate :=
  NewPipeline [Some (tenant_gate ctx); Some file_gate; Some (url_gate opts ctx); Some (mcp_gate opts ctx); Some (mutation_gate opts ctx);
               Some (provenance_gate opts ctx)].

(** *** In the kernel, without stores *)

Definition kernel_gates (ctx : gate_ctx) (c : resolverCache) (input : PolicyInput) : option (DecisionType * string * string) :=
  match snd (Run (gc_cancelled ctx) (BuildProductionPipeline no_options ctx) input c) with
  | (dec, true) => Some (gd_Decision dec, gd_Reason dec, gd_GateID dec)
  | (_, false) => None
  end.

End Production.

(** *** The descriptor of a request *)

(** [json.Unmarshal] into a descriptor. *)
Class DescriptorJson := { UnmarshalDescriptor : string -> option ActionDescriptor }.

Definition LabelActionDescriptorJSON : string := "_action.descriptor_json".
Definition ActionArgsMaxSerializedBytes : Z := 65536.

Definition actionDescriptorFromRequest `{DescriptorJson} (req : PolicyCheckRequest) : option ActionDescriptor :=
  match pr_Labels req !! LabelActionDescriptorJSON with
  | None => None
  | Some raw =>
      if raw =s? "" then None
      else if (ActionArgsMaxSerializedBytes <? Z.of_nat (String.length raw))%Z then None
      else UnmarshalDescriptor raw
  end.

Definition requestHasActionDescriptorLabel (req : PolicyCheckRequest) : bool :=
  bool_decide (is_Some (pr_Labels req !! LabelActionDescriptorJSON)).

(** ** The audit event *)

Definition SeverityHigh : string := "HIGH".
Definition SeverityMedium : string := "MEDIUM".
Definition EventActionGateDenied : string := "actiongate.denied".

Definition high_needles : list string :=
  ["cross_tenant"; "self_approval"; "credential_path"; "credential_pattern"; "exfil_destination"; "metadata_service"; "prompt_exfil"; "approval_tenant_mismatch"].

Definition containsAny (s : string) (needles : list string) : bool := existsb (fun n => negb (n =s? "") && Contains s n) needles.

Definition actionGateSeverity (dec : ActionGateDecision) : string :=
  if bool_decide (gd_Decision dec = DT_REQUIRE_HUMAN) then SeverityMedium
  else if containsAny (gd_SubReason dec) high_needles then SeverityHigh else SeverityMedium.

Definition fill (k v : string) (m : gmap string string) : gmap string string :=
  if (get_str m k =s? "") && negb (v =s? "") then <[k := v]> m else m.

(** [DecisionType.String()]. *)
Definition decision_name (d : DecisionType) : string :=
  match d with
  | DT_UNSPECIFIED => "DECISION_TYPE_UNSPECIFIED" | DT_ALLOW => "DECISION_TYPE_ALLOW" | DT_DENY => "DECISION_TYPE_DENY"
  | DT_REQUIRE_HUMAN => "DECISION_TYPE_REQUIRE_HUMAN" | DT_THROTTLE => "DECISION_TYPE_THROTTLE"
  | DT_ALLOW_WITH_CONSTRAINTS => "DECISION_TYPE_ALLOW_WITH_CONSTRAINTS"
  end.

Definition actionGateAuditEvent (now : string) (req : PolicyCheckRequest) (input : PolicyInput) (dec : ActionGateDecision) : SIEMEvent :=
  let tenant := if Tenant input =s? "" then pr_Tenant req else Tenant input in
  let extra := fill "sub_reason" (gd_SubReason dec) (fill "gate" (gd_GateID dec) (gd_Extra dec)) in
  let extra := match Action input with Some act => with_target_type act extra | None => extra end in
  mkSIEMEvent now EventActionGateDenied (actionGateSeverity dec) tenant (AgentID (Meta input)) "" "" (pr_JobId req) (gd_GateID dec)
    (decision_name (gd_Decision dec)) (gd_GateID dec) (gd_Reason dec) [] [] "" "" extra 0 "" "" "".

(** ** Settings of the gateway and of the environment

    An environment is what [os.LookupEnv] answers. *)

Definition environ : Type := string -> option string.
Definition Getenv (env : environ) (key : string) : string := default "" (env key).

Definition env_Bool (env : environ) (key : string) : bool :=
  let val := TrimSpace (Getenv env key) in
  negb (val =s? "") && existsb (fun t => ToLower val =s? t) ["1"; "true"; "yes"; "y"; "on"].

Definition IsProduction (env : environ) : bool :=
  env_Bool env "CORDUM_PRODUCTION" || (let mode := ToLower (TrimSpace (Getenv env "CORDUM_ENV")) in (mode =s? "prod") || (mode =s? "production")).

Definition envMCPTaintFailClosedDestructive : string := "CORDUM_MCP_TAINT_FAILCLOSED_DESTRUCTIVE".

Definition ResolveFailClosedDestructiveOnTaintLookupError (env : environ) : bool :=
  match env envMCPTaintFailClosedDestructive with
  | None => IsProduction env
  | Some raw =>
      let v := ToLower (TrimSpace raw) in
      if v =s? "" then IsProduction env
      else if existsb (fun t => v =s? t) ["1"; "true"; "t"; "yes"; "y"; "on"] then true
      else if existsb (fun t => v =s? t) ["0"; "false"; "f"; "no"; "n"; "off"] then false
      else IsProduction env
  end.

Definition failClosedDestructiveTaintFromEnv (env : environ) : bool :=
  existsb (fun t => ToLower (TrimSpace (Getenv env envMCPTaintFailClosedDestructive)) =s? t) ["1"; "true"; "t"; "yes"; "y"; "on"].

Definition splitCommaEnv (env : environ) (name : string) : list string :=
  let raw := TrimSpace (Getenv env name) in
  if raw =s? "" then [] else List.filter (fun p => negb (p =s? "")) (map TrimSpace (Split raw ","%char)).

(** [wireActionGatePipeline] of the gateway, with its stores as arguments. *)
Definition gateway_options (env : environ) (approvals : ApprovalLookup) (identities : string -> string -> result string (option MCPIdentity)) (verifier : ChainVerifier)
    : ProductionPipelineOptions :=
  mkPipelineOptions (Some approvals) None
    (mkMCPOptions (Some identities) None ∅ (splitCommaEnv env "CORDUM_MCP_DESTRUCTIVE_TOOL_GLOBS") (splitCommaEnv env "CORDUM_MCP_DESTRUCTIVE_MUTATION_ARG_KEYS")
       (splitCommaEnv env "CORDUM_MCP_DESTRUCTIVE_MUTATION_GLOBS") (failClosedDestructiveTaintFromEnv env))
    (Some verifier) None.

(** Client labels never carry a descriptor, and neither does a request that the
    gateway's own gates let pass. *)
Definition stripReservedActionDescriptorLabel (labels : gmap string string) : gmap string string := delete LabelActionDescriptorJSON labels.

Definition stripGatewayForwardedActionDescriptor (req : PolicyCheckRequest) : PolicyCheckRequest :=
  if requestHasActionDescriptorLabel req
  then mkPolicyCheckRequest (pr_JobId req) (pr_Topic req) (pr_Tenant req) (pr_PrincipalId req) (delete LabelActionDescriptorJSON (pr_Labels req)) (pr_Meta req)
         (pr_Identity req) (pr_EffectiveConfig req) (pr_InputContent req) (pr_InputContentType req) (pr_InputSizeBytes req) (pr_HasInputRef req)
  else req.
