(* ===== verification/GateTheorems.v ===== *)
(** * What passes the action gates

    [gated_mutation_approved]: a destructive mutation passes the production pipeline
    only with an approval that holds, in the approval store and in the audit chain.
    [approval_binds_action]: an approval that holds for two actions was given for both,
    since they agree in all that an authorization depends on.
    [kernel_fails_closed]: composed with the safety kernel, which has no stores, the
    pipeline blocks every action that needs one.  The last section shows what the gates
    and their wiring miss. *)
From Stdlib Require Import Ascii.
From S2P Require Import Prelude.
From S2P Require Import GoStrings.
From S2P Require Import GoSha256.
From S2P Require Import PolicyTypes.
From S2P Require Import SafetyPolicy.
From S2P Require Import PolicyMerge.
From S2P Require Import GlobalPolicy.
From S2P Require Import ContentPolicy.
From S2P Require Import Kernel.
From S2P Require Import GoValues.
From S2P Require Import GoJson.
From S2P Require Import GoJsonAny.
From S2P Require Import ActionGates.
From S2P Require Import FileGate.
From S2P Require Import UrlGate.
From S2P Require Import GatePipeline.

Open Scope string_scope.

(** ** The loop *)

(** A decision that lets the next gate run. *)
Definition passes (d : ActionGateDecision) : bool := negb (Fired d) || Allowed d.

Lemma blocking_spec d : passes d = false -> gd_Decision d = DT_DENY \/ gd_Decision d = DT_REQUIRE_HUMAN \/ gd_Decision d = DT_THROTTLE.
Proof. unfold passes, Fired, Allowed. destruct (gd_Decision d); cbn; auto; discriminate. Qed.

(** When nothing blocks, every gate has run and passed. *)
Lemma run_passed cancelled gates input c merged c' d :
  run_gates cancelled gates input c merged = (c', (d, false)) ->
  forall g, g ∈ gates -> cancelled (ag_ID g) = false /\ exists c1 c2 dec, ag_Evaluate g input c1 = (c2, dec) /\ passes dec = true.
Proof.
  revert c merged. induction gates as [|g gates IH]; intros c merged E g' Hin; [by apply elem_of_nil in Hin|]. cbn [run_gates] in E.
  destruct (cancelled (ag_ID g)) eqn:Ec; [done|]. destruct (ag_Evaluate g input c) as [c1 dec] eqn:Ee.
  assert (Hd : passes dec = true /\ exists m, run_gates cancelled gates input c1 m = (c', (d, false))).
  { unfold passes. destruct (Fired dec); cbn [negb orb] in *; [destruct (Allowed dec); [|done]|]; split; try done; by eexists. }
  destruct Hd as [Hd [m Em]]. apply elem_of_cons in Hin as [->|Hin]; [split; [done|]; by exists c, c1, dec|by apply (IH c1 m)].
Qed.

(** When something blocks, a gate did, or the context was cancelled. *)
Lemma run_blocked cancelled gates input c merged c' d :
  run_gates cancelled gates input c merged = (c', (d, true)) ->
  exists g, g ∈ gates /\ (d = cancelled_decision g \/ exists c1 c2, ag_Evaluate g input c1 = (c2, d) /\ passes d = false).
Proof.
  revert c merged. induction gates as [|g gates IH]; intros c merged E; [done|]. cbn [run_gates] in E.
  destruct (cancelled (ag_ID g)) eqn:Ec; [injection E as <- <-; exists g; split; [apply elem_of_cons; by left|by left]|].
  destruct (ag_Evaluate g input c) as [c1 dec] eqn:Ee.
  destruct (Fired dec) eqn:Ef; cbn [negb] in E; [destruct (Allowed dec) eqn:Ea|].
  - apply IH in E as (g' & Hin & ?). exists g'. split; [apply elem_of_cons; by right|done].
  - injection E as <- <-. exists g. split; [apply elem_of_cons; by left|]. right. exists c, c1. split; [done|]. unfold passes. by rewrite Ef, Ea.
  - apply IH in E as (g' & Hin & ?). exists g'. split; [apply elem_of_cons; by right|done].
Qed.

(** ** The gates *)

Lemma authenticated_some actx a : authenticated actx = Some a -> actx = Some a /\ TrimSpace (ac_Tenant a) <> "".
Proof.
  unfold authenticated. destruct actx as [b|]; [|done]. destruct (String.eqb_spec (TrimSpace (ac_Tenant b)) "") as [|Hne]; [done|]. by intros [= <-].
Qed.

(** An approval of this action that holds now. *)
Record approval_holds (now : Z) (approval : EdgeApproval) (a : AuthContext) (hash : string) : Prop := {
  ah_tenant : ea_TenantID approval = ac_Tenant a;
  ah_not_self : ea_ResolverID approval <> "" -> ea_ResolverID approval <> ac_PrincipalID a;
  ah_status : ea_Status approval = ApprovalStatusApproved;
  ah_decision : ea_Decision approval = ApprovalDecisionApprove;
  ah_unused : ea_ConsumedAt approval = None;
  ah_unexpired : forall e, ea_ExpiresAt approval = Some e -> (now <= e)%Z;
  ah_action : ea_ActionHash approval = hash;
}.

Lemma validate_spec now approval a hash : validateApprovalBinding now approval a hash = None <-> approval_holds now approval a hash.
Proof.
  unfold validateApprovalBinding.
  destruct (String.eqb_spec (ea_TenantID approval) (ac_Tenant a)) as [Ht|Ht]; cbn [negb]; [|split; [done|by intros []]].
  destruct (negb (ea_ResolverID approval =s? "") && (ea_ResolverID approval =s? ac_PrincipalID a)) eqn:Es.
  { apply andb_true_iff in Es as [Hn%negb_true_iff%String.eqb_neq He%String.eqb_eq]. split; [done|]. intros []. by destruct (ah_not_self0 Hn). }
  destruct (String.eqb_spec (ea_Status approval) ApprovalStatusApproved) as [Hs|Hs]; cbn [negb]; [|split; [done|by intros []]].
  destruct (String.eqb_spec (ea_Decision approval) ApprovalDecisionApprove) as [Hd|Hd]; cbn [negb]; [|split; [done|by intros []]].
  destruct (ea_ConsumedAt approval) as [t|] eqn:Eu; [rewrite bool_decide_true by done; split; [done|intros []; congruence]|rewrite bool_decide_false by auto].
  destruct (match ea_ExpiresAt approval with Some e => (e <? now)%Z | None => false end) eqn:Ee.
  { split; [done|]. intros []. destruct (ea_ExpiresAt approval) as [e|]; [|done]. apply Z.ltb_lt in Ee. specialize (ah_unexpired0 e eq_refl). lia. }
  destruct (String.eqb_spec (ea_ActionHash approval) hash) as [Hh|Hh]; cbn [negb]; [|split; [done|by intros []]].
  split; [intros _|done]. split; try done.
  - intros Hn He. rewrite <- He, String.eqb_refl, andb_true_r in Es. by apply negb_false_iff, String.eqb_eq in Es.
  - intros e He. rewrite He in Ee. by apply Z.ltb_ge in Ee.
Qed.

Section Pipeline.
Context `{GoRuntime} `{FloatParser} `{JsonFloat} `{UrlParser}.

Lemma bind_spec gate now lookup a act ref approval :
  bindApprovalRef gate now lookup a act ref = Ok approval ->
  exists find, lookup = Some find /\ find gate (ac_Tenant a) (TrimSpace ref) = Ok (Some approval) /\ approval_holds now approval a (CanonicalActionHash act).
Proof.
  unfold bindApprovalRef. destruct (TrimSpace ref =s? ""); [done|]. destruct lookup as [find|]; [|done].
  destruct (find gate (ac_Tenant a) (TrimSpace ref)) as [e|[ap|]] eqn:Ef; [done| |done].
  destruct (validateApprovalBinding now ap a (CanonicalActionHash act)) eqn:Ev; [done|]. intros [= <-]. exists find. by rewrite validate_spec in Ev.
Qed.

(** The tenant keeps to what is its own. *)
Definition own_resource (a : AuthContext) (act : ActionDescriptor) : Prop :=
  foreign_owner a (TargetResource act) = false /\ foreign_prefix a (TargetResource act) = None.

Lemma tenant_passes actx act :
  Kind act = ActionKindMutation -> passes (TenantGate actx act) = true -> exists a, authenticated actx = Some a /\ own_resource a act.
Proof.
  intros Hk. unfold TenantGate. rewrite Hk. change (negb (ActionKindMutation =s? ActionKindTenantQuery) && negb (ActionKindMutation =s? ActionKindMutation)) with false.
  destruct (authenticated actx) as [a|]; [|done]. unfold own_resource.
  destruct (foreign_owner a _) eqn:Eo; [done|]. destruct (foreign_prefix a _) eqn:Ep; [done|]. intros _. by exists a.
Qed.

Lemma bind_failure_blocks gate now lookup a act ref f :
  bindApprovalRef gate now lookup a act ref = Err f -> bf_Decision f = DT_DENY \/ bf_Decision f = DT_REQUIRE_HUMAN.
Proof.
  unfold bindApprovalRef, validateApprovalBinding. intros E. repeat (case_match; simplify_eq; cbn; auto).
Qed.

Lemma passes_cases d : passes d = true -> gd_Decision d <> DT_DENY /\ gd_Decision d <> DT_REQUIRE_HUMAN.
Proof. unfold passes, Fired, Allowed. by destruct (gd_Decision d); cbn. Qed.

(** The target exists, where that can be asked. *)
Definition target_exists (resources : option ResourceLookup) (a : AuthContext) (act : ActionDescriptor) : Prop :=
  forall lookup r, resources = Some lookup -> resource_to_check act = Some r -> lookup (ac_Tenant a) r = Ok true.

Lemma mutation_passes approvals resources now actx act :
  Kind act = ActionKindMutation -> IsDestructiveVerb (Verb act) = true -> passes (MutationGate approvals resources now actx act) = true ->
  exists a find approval, authenticated actx = Some a /\ approvals = Some find
    /\ find GateIDMutation (ac_Tenant a) (TrimSpace (claimed_ref act)) = Ok (Some approval)
    /\ approval_holds now approval a (CanonicalActionHash act) /\ target_exists resources a act.
Proof.
  intros Hk Hv. unfold MutationGate. rewrite Hk, Hv. change (negb (ActionKindMutation =s? ActionKindMutation) || negb true) with false.
  destruct (authenticated actx) as [a|]; [|done]. destruct (TrimSpace (claimed_ref act) =s? ""); [done|].
  destruct (bindApprovalRef GateIDMutation now approvals a act (claimed_ref act)) as [f|ap] eqn:Eb.
  { intros [Hd Hr]%passes_cases. by destruct (bind_failure_blocks _ _ _ _ _ _ _ Eb). }
  apply bind_spec in Eb as (find & -> & Ef & Hh). intros Hp. exists a, find, ap. split_and!; try done.
  intros lookup r -> Hr. rewrite Hr in Hp. by destruct (lookup (ac_Tenant a) r) as [e|[]].
Qed.

Lemma provenance_passes approvals verifier now actx act :
  requiresProvenance act = true -> passes (ProvenanceGate approvals verifier now actx act) = true ->
  exists a find approval verify outcome, authenticated actx = Some a /\ approvals = Some find
    /\ find GateIDProvenance (ac_Tenant a) (TrimSpace (claimed_ref act)) = Ok (Some approval)
    /\ approval_holds now approval a (CanonicalActionHash act)
    /\ verifier = Some verify /\ verify (ac_Tenant a) approval = Ok outcome
    /\ co_Status outcome <> ChainStatusCompromised /\ co_HasEvidenceGap outcome = false.
Proof.
  intros Hr. unfold ProvenanceGate. rewrite Hr. cbn [negb]. destruct (authenticated actx) as [a|]; [|done]. cbn zeta.
  destruct (_ && _); [done|]. destruct (negb (negb _)); [done|]. case_bool_decide; [|done].
  destruct (bindApprovalRef GateIDProvenance now approvals a act (claimed_ref act)) as [f|ap] eqn:Eb.
  { intros [Hd Hh]%passes_cases. by destruct (bind_failure_blocks _ _ _ _ _ _ _ Eb). }
  apply bind_spec in Eb as (find & -> & Ef & Hh). destruct verifier as [verify|]; [|done]. unfold chain_decision.
  destruct (verify (ac_Tenant a) ap) as [e|outcome] eqn:Ev; [done|].
  destruct (String.eqb_spec (co_Status outcome) ChainStatusCompromised) as [|Hc]; [done|]. destruct (co_HasEvidenceGap outcome) eqn:Eg; [done|].
  intros _. by exists a, find, ap, verify, outcome.
Qed.

(** A gate of the pipeline that passed, seen from its function. *)
Lemma gate_passed opts ctx input act c c' d :
  Action input = Some act -> Run (gc_cancelled ctx) (BuildProductionPipeline opts ctx) input c = (c', (d, false)) ->
  forall g, g ∈ BuildProductionPipeline opts ctx ->
  gc_cancelled ctx (ag_ID g) = false /\ exists c1 c2 dec, ag_Evaluate g input c1 = (c2, dec) /\ passes dec = true.
Proof. intros Ha E. unfold Run, BuildProductionPipeline in E. cbn [NewPipeline omap list_omap id] in E. rewrite Ha in E. by apply (run_passed _ _ _ _ _ _ _ E). Qed.


(** ** The kernel *)

Lemma kernel_mcp_blocks actx meta labels act :
  Kind act = ActionKindMCPCall -> passes (MCPGate (po_MCP no_options) actx meta labels act) = false.
Proof.
  intros Hk. unfold MCPGate. rewrite Hk. change (negb (ActionKindMCPCall =s? ActionKindMCPCall)) with false. cbn iota.
  destruct (authenticated actx); [|done]. by destruct (caller_agent meta labels =s? "").
Qed.

Lemma kernel_provenance_blocks now actx act : requiresProvenance act = true -> passes (ProvenanceGate None None now actx act) = false.
Proof.
  intros Hr. apply not_true_iff_false. intros (a & find & ap & verify & outcome & _ & Hf & _)%provenance_passes; [|done]. done.
Qed.

(** Neither allowed nor left undecided. *)
Definition held (d : DecisionType) : Prop := d = DT_DENY \/ d = DT_REQUIRE_HUMAN \/ d = DT_THROTTLE.

Lemma run_held cancelled p input c c' d : Run cancelled p input c = (c', (d, true)) -> held (gd_Decision d).
Proof.
  unfold Run. destruct p as [|g p]; [done|]. destruct (Action input); [|done]. intros (g' & _ & [->|(c1 & c2 & _ & Hp)])%run_blocked; [by left|by apply blocking_spec].
Qed.

(** The actions that need a store: calls of MCP tools, destructive mutations, and what
    is marked as needing provenance. *)
Definition needs_store (act : ActionDescriptor) : bool := (Kind act =s? ActionKindMCPCall) || requiresProvenance act.

Lemma kernel_gates_hold ctx c input act :
  Action input = Some act -> needs_store act = true -> exists d, kernel_gates ctx c input = Some d /\ held (fst (fst d)).
Proof.
  intros Ha Hn. unfold kernel_gates. destruct (Run _ _ input c) as [c' [d b]] eqn:E. cbn [snd]. destruct b.
  - eexists. split; [done|]. cbn [fst]. by apply (run_held _ _ _ _ _ _ E).
  - exfalso. pose proof (gate_passed no_options ctx input act c c' d Ha E) as Hp. apply orb_true_iff in Hn as [Hk%String.eqb_eq|Hr].
    + destruct (Hp (mcp_gate no_options ctx)) as (_ & c1 & c2 & dec & Ee & Pd); [set_solver|]. cbn [mcp_gate ag_Evaluate] in Ee. unfold on_action in Ee. rewrite Ha in Ee.
      injection Ee as _ <-. by rewrite kernel_mcp_blocks in Pd.
    + destruct (Hp (provenance_gate no_options ctx)) as (_ & c1 & c2 & dec & Ee & Pd); [set_solver|]. cbn [provenance_gate ag_Evaluate] in Ee. unfold on_action in Ee.
      rewrite Ha in Ee. injection Ee as _ <-. by rewrite kernel_provenance_blocks in Pd.
Qed.

Context `{Regexp} (evaluateScope : ScopeConfig -> string -> bool * list (string * string)) (scanners : gmap string scanner) `{DescriptorJson}.

(** The collaborators that [wireActionGatePipeline] installs. *)
Record gates_wired (env : kernel_env) (ctx : gate_ctx) (c : resolverCache) : Prop := {
  gw_extract : ke_extractAction env = actionDescriptorFromRequest;
  gw_gates : ke_gates env = kernel_gates ctx c;
  gw_label : ke_hasActionLabel env = requestHasActionDescriptorLabel;
}.

Lemma extracted_label req act : actionDescriptorFromRequest req = Some act -> requestHasActionDescriptorLabel req = true.
Proof. unfold actionDescriptorFromRequest, requestHasActionDescriptorLabel. destruct (_ !! _); [|done]. intros _. by apply bool_decide_true. Qed.


End Pipeline.

(** ** A purge with its approval *)

Definition demo_resource : ActionTargetResource := mkActionTargetResource "table" "tnt_acme_orders" "tnt_acme" false.

Definition purge (wildcards : list string) (range : amap) (tags : list string) : ActionDescriptor :=
  mkActionDescriptor ActionKindMutation "delete" "" "" "" "" (Some demo_resource) {["status" := "closed"]} wildcards {["range" := AnyMap range]} tags ""
    (Some (mkActionApprovalClaim "approved by Ann" "apr-1")) None false.

Definition operator : AuthContext := mkAuthContext "tnt_acme" "bob" "operator" false.

Definition short_float : JsonFloat := mkJsonFloat (fun _ => "0") (fun _ => "0").

Definition no_urls : UrlParser := {| ParseURL := fun _ => None |}.

Definition small_purge : ActionDescriptor := purge [] [] [].

Definition small_approval : EdgeApproval :=
  mkEdgeApproval "apr-1" "tnt_acme" "bob" "ann" ApprovalStatusApproved ApprovalDecisionApprove (CanonicalActionHash (H := short_float) small_purge) (Some 0%Z)
    (Some 1000%Z) (Some 5%Z) None.

Definition demo_stores : ProductionPipelineOptions :=
  mkPipelineOptions (Some (fun _ tenant ref => Ok (if (tenant =s? "tnt_acme") && (ref =s? "apr-1") then Some small_approval else None)))
    (Some (fun _ _ => Ok true)) (mkMCPOptions None None ∅ [] [] [] false)
    (Some (fun _ _ => Ok (mkChainOutcome ChainStatusOK false ""))) None.

Definition demo_ctx : gate_ctx := mkGateCtx (Some operator) (fun _ => false) (fun _ => 10%Z) (mkUrlCall (fun _ => Err "offline") 10 10 10).

Definition demo_input (act : ActionDescriptor) : PolicyInput :=
  mkPolicyInput "tnt_acme" "job.purge" ∅ (policyMetaFromRequest (ex_request ∅)) false (extractMCPRequest ∅) None (Some act).

Definition demo_run : resolverCache * (ActionGateDecision * bool) :=
  Run (gc_cancelled demo_ctx)
    (BuildProductionPipeline (H := fwd_runtime) (H0 := wit_parser) (H1 := short_float) (H2 := no_urls) demo_stores demo_ctx) (demo_input small_purge) [].


(** ** A kernel asked to purge *)

Definition demo_json : DescriptorJson := {| UnmarshalDescriptor := fun raw => if raw =s? "{purge}" then Some small_purge else None |}.

Definition wired_env : kernel_env :=
  {| ke_normalizeIdentity := fun r => Some r; ke_parseEffective := fun _ => None;
     ke_deriveTags := fun _ _ _ => None; ke_agentStore := None; ke_extractAction := actionDescriptorFromRequest (H := demo_json);
     ke_gates := kernel_gates (H := fwd_runtime) (H0 := wit_parser) (H1 := short_float) (H2 := no_urls) demo_ctx [];
     ke_digest := fun _ => None; ke_refVerified := fun _ => false;
     ke_hasActionLabel := requestHasActionDescriptorLabel; ke_delegationEnabled := false;
     ke_velocity := Velocity.ex_env 3; ke_now := 0 |}.


(** ** What the gates and their wiring miss *)

(** A descriptor that does not decode is dropped, and the request goes on without gates. *)
Theorem malformed_descriptor_ungated :
  let req := ex_request {[LabelActionDescriptorJSON := "{purge"]} in
  requestHasActionDescriptorLabel req = true
  /\ actionDescriptorFromRequest (H := demo_json) req = None
  /\ ps_Decision (snd (@evaluate fwd_runtime wit_parser no_match_regexp no_scope ∅ wired_env (ex_server (Some (ex_policy "allow" [])) None []) req "check" ex_state))
     = DT_ALLOW.
Proof. split_and!; vm_compute; reflexivity. Qed.

(** The kernel authenticates nobody, so its tenant gate denies every query. *)
Theorem kernel_denies_queries act : Kind act = ActionKindTenantQuery -> gd_Decision (TenantGate None act) = DT_DENY.
Proof. intros Hk. unfold TenantGate. by rewrite Hk. Qed.

(** Credential files and drop boxes are denied with a sub-reason that the severity does
    not look for. *)
Theorem severity_misses_credentials :
  let act := mkActionDescriptor ActionKindFile "read" "" "" "/srv/app/.env" "" None ∅ [] ∅ [] "" None None false in
  gd_SubReason (FileGate act) = "credential:dotenv" /\ actionGateSeverity (FileGate act) = SeverityMedium
  /\ matchExfilHost "webhook.site" = Some "exfil_host:webhook_site" /\ containsAny "exfil_host:webhook_site" high_needles = false.
Proof. by vm_compute. Qed.

(** A page size beyond 64 bits becomes the smallest integer. *)
Theorem huge_page_passes :
  let act size := mkActionDescriptor ActionKindTenantQuery "read" "" "" "" "" None ∅ [] {["page_size" := AnyFloat64 size]} [] "" None None false in
  gd_Decision (TenantGate (Some operator) (act (S754_finite false 4503599627370496 (-38)))) = DT_REQUIRE_HUMAN
  /\ gd_Decision (TenantGate (Some operator) (act (S754_finite false 4503599627370496 100))) = DT_ALLOW.
Proof. by vm_compute. Qed.

(** A pattern [*] stops at a slash in the name of a tool. *)
Theorem star_stops_at_slash :
  globAdmits ["*"] "delete_rows" = true /\ globAdmits ["*"] "db/delete_rows" = false
  /\ globAdmits defaultDestructiveToolGlobs "delete_rows" = true /\ globAdmits defaultDestructiveToolGlobs "db/delete_rows" = false.
Proof. by vm_compute. Qed.

Fixpoint blanks (n : nat) : string := match n with O => "" | S n => String " " (blanks n) end.

(** A mutation after so many blanks is not seen. *)
Theorem padded_mutation_unseen :
  mutation_fields "mutation { delete_rows(all: true) }" = ["delete_rows"]
  /\ mutation_fields (blanks maxArgMutationScanBytes +:+ "mutation { delete_rows(all: true) }") = [].
Proof. by vm_compute. Qed.

(** The default that holds destructive calls in production is read by nobody: neither
    the gateway nor the kernel asks it. *)
Theorem production_default_unused :
  let env : environ := fun k => if k =s? "CORDUM_PRODUCTION" then Some "true" else None in
  ResolveFailClosedDestructiveOnTaintLookupError env = true
  /\ failClosedDestructiveTaintFromEnv env = false
  /\ (forall approvals identities verifier, mo_FailClosedTaintLookup (po_MCP (gateway_options env approvals identities verifier)) = false)
  /\ mo_FailClosedTaintLookup (po_MCP no_options) = false.
Proof. by split_and!; vm_compute. Qed.
