(* ===== verification/GateBinding.v ===== *)
(** * What an approval binds

    [approval_binds_action]: the hash in an approval determines every field of the
    action that an authorization depends on, up to the order of sets and of object keys,
    unless two texts with the same SHA-256 hash have been found. *)
From Stdlib Require Import Ascii.
From S2P Require Import Prelude.
From S2P Require Import GoStrings.
From S2P Require Import GoSha256.
From S2P Require Import PolicyTypes.
From S2P Require Import Kernel.
From S2P Require Import GoValues.
From S2P Require Import GoJson.
From S2P Require Import GoJsonAny.
From S2P Require Import ActionGates.
From S2P Require Import GateTheorems.

Open Scope string_scope.

(** ** Association lists *)

Lemma aget_elem {V} (m : list (string * V)) k v : NoDup (map fst m) -> aget m k = Some v <-> (k, v) ∈ m.
Proof.
  induction m as [|[k' v'] m IH]; cbn [map aget fst]; intros Hnd; [by rewrite elem_of_nil|]. apply NoDup_cons in Hnd as [Hn Hnd]. rewrite elem_of_cons.
  destruct (String.eqb_spec k' k) as [->|Hne]; [|rewrite IH by done; split; [by right|by intros [[=]|]]].
  split; [intros [= ->]; by left|]. intros [[= ->]|Hin]; [done|]. exfalso. apply Hn. apply list_elem_of_fmap. by exists (k, v).
Qed.

Lemma aget_perm {V} (m m' : list (string * V)) k : NoDup (map fst m) -> m ≡ₚ m' -> aget m k = aget m' k.
Proof.
  intros Hnd Hp. assert (Hnd' : NoDup (map fst m')) by (assert (map fst m ≡ₚ map fst m') as <- by (by apply Permutation_map); done).
  apply option_eq. intros v. by rewrite !aget_elem, Hp.
Qed.

Lemma aget_map_snd {V W} (g : V -> W) (m : list (string * V)) k : aget (map (fun kv => (fst kv, g (snd kv))) m) k = g <$> aget m k.
Proof. induction m as [|[k' v] m IH]; [done|]. cbn. by destruct (k' =s? k). Qed.

Lemma aget_app {V} (m m' : list (string * V)) k : aget (m ++ m')%list k = match aget m k with Some v => Some v | None => aget m' k end.
Proof. induction m as [|[k' v] m IH]; [done|]. cbn. by destruct (k' =s? k). Qed.

Lemma aget_map_to_list {V} (m : gmap string V) k : aget (map_to_list m) k = m !! k.
Proof. apply option_eq. intros v. by rewrite aget_elem, elem_of_map_to_list by apply NoDup_fst_map_to_list. Qed.

Lemma keys_map_snd {V W} (g : V -> W) (m : list (string * V)) : map fst (map (fun kv => (fst kv, g (snd kv))) m) = map fst m.
Proof. by rewrite map_map. Qed.

(** Two objects with the same keys in order hold the same values. *)
Lemma sorted_objects {V W} (g : V -> W) (m m' : list (string * V)) k :
  NoDup (map fst m) ->
  sort_keys (map (fun kv => (fst kv, g (snd kv))) m) = sort_keys (map (fun kv => (fst kv, g (snd kv))) m') -> g <$> aget m k = g <$> aget m' k.
Proof.
  intros Hnd E. rewrite <- !aget_map_snd. apply aget_perm; [by rewrite keys_map_snd|]. by rewrite <- (sort_keys_perm (map _ m)), E, sort_keys_perm.
Qed.

(** ** The payload *)

Lemma aget_opt b k v k' : aget (opt_member b k v) k' = if b && (k =s? k') then Some v else None.
Proof. by destruct b; cbn. Qed.

Definition payload_keys : list string :=
  ["kind"; "verb"; "server"; "tool"; "target_path"; "target_url"; "target_resource"; "filters"; "wildcards"; "args"; "risk_tags"].

Lemma opt_keys b k v : map fst (opt_member b k v) `sublist_of` [k].
Proof. destruct b; [done|]. apply sublist_nil_l. Qed.

Lemma payload_NoDup act : NoDup (map fst (canonicalPayload act)).
Proof.
  apply (sublist_NoDup _ payload_keys); [by apply (bool_decide_unpack _)|]. unfold canonicalPayload. rewrite !map_app.
  change payload_keys with (["kind"; "verb"] ++ ["server"] ++ ["tool"] ++ ["target_path"] ++ ["target_url"] ++ ["target_resource"] ++ ["filters"] ++ ["wildcards"]
    ++ ["args"] ++ ["risk_tags"])%list.
  repeat (apply sublist_app; [try apply opt_keys|]); [done| |apply opt_keys]. destruct (TargetResource act); [done|apply sublist_nil_l].
Qed.

Definition args_decoded (act : ActionDescriptor) : Prop := map_Forall (fun _ v => decoded v = true) (Args act).

Lemma payload_decoded act : args_decoded act -> decoded (AnyMap (canonicalPayload act)) = true.
Proof.
  intros Ha. cbn [decoded]. unfold canonicalPayload. rewrite !forallb_app.
  assert (Ho : forall b k v, decoded v = true -> forallb (fun kv => decoded (snd kv)) (opt_member b k v) = true) by (intros [] k v Hv; cbn; by rewrite ?Hv).
  rewrite !Ho by done. assert (E : forallb (fun kv => decoded (snd kv)) (match TargetResource act with
    | Some r => [("target_resource", AnyMap [("type", AnyString (tr_Type r)); ("id", AnyString (tr_ID r)); ("owner_tenant", AnyString (tr_OwnerTenant r))])]
    | None => [] end) = true) by by destruct (TargetResource act).
  rewrite E, (Ho _ "args"), (Ho _ "risk_tags"); [done|done|]. cbn [decoded]. apply forallb_forall. intros [k v] Hin%list_elem_of_In%elem_of_map_to_list. by apply (Ha k v).
Qed.

(** The member of the payload under a key. *)
Definition payload_field (act : ActionDescriptor) (k : string) : option any := in_order <$> aget (canonicalPayload act) k.

Definition text_field (s : string) : option any := if s =s? "" then None else Some (AnyString s).
Definition strings_field (l : list string) : option any := match l with [] => None | _ => Some (AnyList (map AnyString (sortedCopy l))) end.

Ltac payload_simpl :=
  unfold payload_field, canonicalPayload, text_field, strings_field; rewrite ?aget_app, ?aget_opt;
  lazymatch goal with |- context [TargetResource ?a] => destruct (TargetResource a) end; cbn [aget String.eqb Ascii.eqb Bool.eqb andb]; rewrite ?andb_false_r, ?andb_true_r.

Lemma field_kind act : payload_field act "kind" = Some (AnyString (Kind act)) /\ payload_field act "verb" = Some (AnyString (Verb act)).
Proof. done. Qed.

Lemma field_texts act :
  payload_field act "server" = text_field (ad_Server act) /\ payload_field act "tool" = text_field (ad_Tool act)
  /\ payload_field act "target_path" = text_field (TargetPath act) /\ payload_field act "target_url" = text_field (TargetURL act).
Proof. split_and!; payload_simpl; by destruct (_ =s? ""). Qed.

Lemma field_sets act :
  payload_field act "wildcards" = strings_field (Wildcards act) /\ payload_field act "risk_tags" = strings_field (ad_RiskTags act).
Proof. split; payload_simpl; first [by destruct (Wildcards act)|by destruct (ad_RiskTags act)]. Qed.

Definition resource_any (r : ActionTargetResource) : any :=
  AnyMap [("type", AnyString (tr_Type r)); ("id", AnyString (tr_ID r)); ("owner_tenant", AnyString (tr_OwnerTenant r))].

Lemma field_resource act : payload_field act "target_resource" = (fun r => in_order (resource_any r)) <$> TargetResource act.
Proof. payload_simpl; done. Qed.

Lemma field_maps act :
  payload_field act "filters" = (if bool_decide (Filters act = ∅) then None else Some (in_order (AnyStringMap (map_to_list (Filters act)))))
  /\ payload_field act "args" = (if bool_decide (map_to_list (Args act) = []) then None else Some (in_order (AnyMap (map_to_list (Args act))))).
Proof. split; payload_simpl; by destruct (bool_decide _). Qed.

(** ** From fields to the action *)

Lemma text_field_inj s t : text_field s = text_field t -> s = t.
Proof. unfold text_field. destruct (String.eqb_spec s ""), (String.eqb_spec t ""); by intros [=]; subst. Qed.

Lemma insert_string_perm s l : insert_string s l ≡ₚ s :: l.
Proof. induction l as [|t l IH]; [done|]. cbn. destruct (String.leb s t); [done|]. rewrite IH. constructor. Qed.

Lemma sortedCopy_perm l : sortedCopy l ≡ₚ l.
Proof. unfold sortedCopy. induction l as [|s l IH]; [done|]. cbn. by rewrite insert_string_perm, IH. Qed.

Lemma AnyString_inj l k : map AnyString l = map AnyString k -> l = k.
Proof. revert k. induction l as [|s l IH]; intros [|t k]; try done. cbn. intros [= -> E]. f_equal. by apply IH. Qed.

Lemma strings_field_perm l k : strings_field l = strings_field k -> l ≡ₚ k.
Proof.
  unfold strings_field. destruct l as [|x l], k as [|y k]; try done. intros E.
  assert (E' : sortedCopy (x :: l) = sortedCopy (y :: k)) by (apply AnyString_inj; congruence). by rewrite <- (sortedCopy_perm (x :: l)), E', sortedCopy_perm.
Qed.

(** What names a resource. *)
Definition named (r : ActionTargetResource) : string * string * string := (tr_Type r, tr_ID r, tr_OwnerTenant r).

Lemma resource_field_inj (r r' : option ActionTargetResource) :
  ((fun r => in_order (resource_any r)) <$> r) = ((fun r => in_order (resource_any r)) <$> r') -> named <$> r = named <$> r'.
Proof.
  destruct r as [r|], r' as [r'|]; try done. intros E.
  assert (Hsort : forall r, in_order (resource_any r) = AnyMap [("id", AnyString (tr_ID r)); ("owner_tenant", AnyString (tr_OwnerTenant r)); ("type", AnyString (tr_Type r))]) by reflexivity.
  assert (E' : in_order (resource_any r) = in_order (resource_any r')) by (unfold fmap, option_fmap, option_map in E; congruence).
  rewrite !Hsort in E'. unfold named. cbn. congruence.
Qed.

Lemma filters_field_inj (f f' : gmap string string) :
  (if bool_decide (f = ∅) then None else Some (in_order (AnyStringMap (map_to_list f))))
  = (if bool_decide (f' = ∅) then None else Some (in_order (AnyStringMap (map_to_list f')))) -> f = f'.
Proof.
  do 2 case_bool_decide; subst; try done. intros E. assert (E' : in_order (AnyStringMap (map_to_list f)) = in_order (AnyStringMap (map_to_list f'))) by congruence.
  clear E. cbn [in_order] in E'. apply map_eq. intros k. rewrite <- !aget_map_to_list.
  assert (Hs : AnyString <$> aget (map_to_list f) k = AnyString <$> aget (map_to_list f') k).
  { apply sorted_objects; [apply NoDup_fst_map_to_list|congruence]. }
  destruct (aget (map_to_list f) k), (aget (map_to_list f') k); cbn in Hs; congruence.
Qed.

Lemma args_field_inj (m m' : gmap string any) :
  (if bool_decide (map_to_list m = []) then None else Some (in_order (AnyMap (map_to_list m))))
  = (if bool_decide (map_to_list m' = []) then None else Some (in_order (AnyMap (map_to_list m')))) -> in_order <$> m = in_order <$> m'.
Proof.
  intros E. apply map_eq. intros k. rewrite !lookup_fmap, <- !aget_map_to_list. revert E.
  do 2 case_bool_decide; try done; [by rewrite H, H0|]. intros E.
  assert (E' : in_order (AnyMap (map_to_list m)) = in_order (AnyMap (map_to_list m'))) by congruence. cbn [in_order] in E'.
  apply sorted_objects; [apply NoDup_fst_map_to_list|congruence].
Qed.

(** Two actions that an authorization cannot tell apart. *)
Record same_authorization (act act' : ActionDescriptor) : Prop := {
  sa_kind : Kind act = Kind act';
  sa_verb : Verb act = Verb act';
  sa_server : ad_Server act = ad_Server act';
  sa_tool : ad_Tool act = ad_Tool act';
  sa_path : TargetPath act = TargetPath act';
  sa_url : TargetURL act = TargetURL act';
  sa_resource : named <$> TargetResource act = named <$> TargetResource act';
  sa_filters : Filters act = Filters act';
  sa_wildcards : Wildcards act ≡ₚ Wildcards act';
  sa_args : in_order <$> Args act = in_order <$> Args act';
  sa_tags : ad_RiskTags act ≡ₚ ad_RiskTags act';
}.

Lemma payload_determines act act' : (forall k, payload_field act k = payload_field act' k) -> same_authorization act act'.
Proof.
  intros Hf. destruct (field_kind act) as [K V], (field_kind act') as [K' V']. destruct (field_texts act) as (S & T & P & U), (field_texts act') as (S' & T' & P' & U').
  destruct (field_sets act) as [W R], (field_sets act') as [W' R']. destruct (field_maps act) as [F A], (field_maps act') as [F' A'].
  pose proof (field_resource act) as X. pose proof (field_resource act') as X'.
  split; [rewrite Hf in K; congruence|rewrite Hf in V; congruence|apply text_field_inj; congruence..|apply resource_field_inj; by rewrite <- X, <- X'|
          apply filters_field_inj; by rewrite <- F, <- F'|apply strings_field_perm; congruence|apply args_field_inj; by rewrite <- A, <- A'|apply strings_field_perm; congruence].
Qed.


(** ** A formatter that keeps numbers apart *)

(** The binary digits of a number, the lowest first. *)
Fixpoint pos_text (p : positive) : string :=
  match p with xH => "1" | xO p => String "0" (pos_text p) | xI p => String "1" (pos_text p) end.

Definition int_text (z : Z) : string := match z with Z0 => "+" | Zpos p => String "+" (pos_text p) | Zneg p => String "-" (pos_text p) end.

Definition float_text (f : spec_float) : string :=
  match f with
  | S754_zero s => (if s then "-" else "") +:+ "0."
  | S754_finite s m e => (if s then "-" else "") +:+ pos_text m +:+ String "e" (int_text e)
  | _ => ""
  end.

Definition bin_float : JsonFloat := mkJsonFloat float_text float_text.

Lemma pos_text_head p : exists c r, pos_text p = String c r /\ (c = "0"%char \/ c = "1"%char).
Proof. destruct p; cbn; eexists _, _; split; try done; auto. Qed.

Lemma pos_text_inj p q : pos_text p = pos_text q -> p = q.
Proof.
  revert q. induction p as [p IH|p IH|]; intros [q|q|]; cbn; try done; try (intros [= E]; f_equal; by apply IH);
    intros [= E]; [destruct (pos_text_head p) as (c & r & E' & _)|destruct (pos_text_head q) as (c & r & E' & _)]; congruence.
Qed.

Lemma pos_text_code p q x y : pos_text p +:+ String "e" x = pos_text q +:+ String "e" y -> p = q /\ x = y.
Proof.
  revert q. induction p as [p IH|p IH|]; intros [q|q|]; cbn [pos_text]; rewrite ?str_cons_app, ?str_nil_app; intros E; injection E as E; try done;
    try (destruct (IH q E) as [-> ->]; done);
    try (destruct (pos_text_head p) as (c & r & E' & [->| ->]); rewrite E', str_cons_app in E; discriminate);
    try (destruct (pos_text_head q) as (c & r & E' & [->| ->]); rewrite E', str_cons_app in E; discriminate).
Qed.

Lemma int_text_inj a b : int_text a = int_text b -> a = b.
Proof.
  destruct a as [|p|p], b as [|q|q]; cbn; try done; try (intros [= E]; f_equal; by apply pos_text_inj);
    intros [= E]; [destruct (pos_text_head q) as (c & r & E' & _)|destruct (pos_text_head p) as (c & r & E' & _)]; congruence.
Qed.

Lemma pos_text_chars p : all_chars number_char (pos_text p) = true.
Proof. by induction p. Qed.

Lemma zero_not_finite m r t : "0." +:+ r <> pos_text m +:+ String "e" t.
Proof.
  destruct m as [m|m|]; cbn [pos_text]; rewrite !str_cons_app; intros E; injection E as E; try done.
  destruct (pos_text_head m) as (c & s & E' & [->| ->]); rewrite E', str_cons_app in E; discriminate.
Qed.

#[export] Instance bin_float_laws : JsonFloatLaws (H := bin_float).
Proof.
  assert (Hp : forall m t c r, pos_text m +:+ t = String c r -> is_digit c = true).
  { intros m t c r E. destruct (pos_text_head m) as (d & s & E' & Hd). rewrite E', str_cons_app in E. injection E as <- _. by destruct Hd as [->| ->]. }
  assert (Hm : forall m t r, "-" +:+ r <> pos_text m +:+ t).
  { intros m t r E. symmetry in E. rewrite str_cons_app in E. by apply Hp in E. }
  split; cbn [json_float64 bin_float].
  - intros f c r Hf. destruct f as [s| | |s m e]; try done; cbn [float_text]; destruct s; rewrite ?str_cons_app, ?str_nil_app; intros E.
    + injection E as <- _. by right.
    + injection E as <- _. by left.
    + injection E as <- _. by right.
    + left. by apply (Hp m (String "e" (int_text e)) c r).
  - intros f Hf. assert (Hi : forall z, all_chars number_char (int_text z) = true) by (intros [|p|p]; cbn; by rewrite ?pos_text_chars).
    assert (Hx : forall m t, all_chars number_char t = true -> all_chars number_char (pos_text m +:+ t) = true).
    { intros m t Ht. induction m as [m IH|m IH|]; cbn [pos_text]; rewrite str_cons_app; cbn [all_chars]; by rewrite ?IH. }
    destruct f as [s| | |s m e]; try done; cbn [float_text]; [by destruct s|]. destruct (pos_text_head m) as (d & t & E & _).
    assert (Hxe : all_chars number_char (pos_text m +:+ String "e" (int_text e)) = true) by (apply Hx; cbn [all_chars]; by rewrite Hi).
    destruct s; rewrite ?str_cons_app, ?str_nil_app; cbn [all_chars]; rewrite Hxe; [done|]. split; [by rewrite E, str_cons_app|done].
  - intros f g _ _ Hf Hg E. destruct f as [s| | |s m e]; try done; destruct g as [s'| | |s' m' e']; try done; cbn [float_text] in E.
    + by destruct s, s'.
    + exfalso. destruct s, s'; rewrite ?str_cons_app, ?str_nil_app in E; [injection E as E; by apply (zero_not_finite m' "" (int_text e'))|by apply Hm in E| |by apply (zero_not_finite m' "" (int_text e'))]. discriminate.
    + exfalso. symmetry in E. destruct s, s'; rewrite ?str_cons_app, ?str_nil_app in E; [injection E as E; by apply (zero_not_finite m "" (int_text e))|discriminate|by apply Hm in E|by apply (zero_not_finite m "" (int_text e))].
    + destruct s, s'; rewrite ?str_cons_app, ?str_nil_app in E; [injection E as E|by apply Hm in E|symmetry in E; by apply Hm in E|];
        apply pos_text_code in E as [-> E%int_text_inj]; by subst.
Qed.

(** ** An approved purge, asked for twice *)

Definition purge_asked : ActionDescriptor := purge ["a"; "b"] [("from", AnyString "2024"); ("to", AnyFloat64 (S754_finite false 5629499534213120 (-50)))] ["pii"; "bulk"].
Definition purge_run : ActionDescriptor := purge ["b"; "a"] [("to", AnyFloat64 (S754_finite false 5629499534213120 (-50))); ("from", AnyString "2024")] ["bulk"; "pii"].

Definition purge_approval : EdgeApproval :=
  mkEdgeApproval "apr-1" "tnt_acme" "bob" "ann" ApprovalStatusApproved ApprovalDecisionApprove (CanonicalActionHash (H := bin_float) purge_asked) (Some 0%Z) (Some 1000%Z)
    (Some 5%Z) None.

Lemma purge_hash : CanonicalActionHash (H := bin_float) purge_asked = CanonicalActionHash (H := bin_float) purge_run.
Proof. unfold CanonicalActionHash. by assert (MarshalAny (H := bin_float) (AnyMap (canonicalPayload purge_asked)) = MarshalAny (H := bin_float) (AnyMap (canonicalPayload purge_run))) as -> by (vm_compute; reflexivity). Qed.

Lemma purge_approved now act : (now <= 1000)%Z -> CanonicalActionHash (H := bin_float) purge_asked = CanonicalActionHash (H := bin_float) act ->
  approval_holds now purge_approval operator (CanonicalActionHash (H := bin_float) act).
Proof.
  intros Hn Hh. split; [reflexivity|intros _; discriminate|reflexivity|reflexivity|reflexivity|intros e He|exact Hh]. cbn [purge_approval ea_ExpiresAt] in He. by injection He as <-.
Qed.

