(* ===== verification/GateEvidence.v ===== *)
(** * The evidence behind an approval

    core/controlplane/gateway/actiongate_chain_verifier.go: how the gateway answers the
    provenance gate.  It verifies the tenant's audit chain over the life of the approval
    and looks in it for the event that recorded the approval.  Redis is read several
    times, and every read may see another state.

    [approval_evidenced]: what the provenance gate allows with this verifier has that
    event in the chain. *)
From Stdlib Require Import Ascii Sorted.
From S2P Require Import Prelude.
From S2P Require Import GoStrings.
From S2P Require Import PolicyTypes.
From S2P Require Import Kernel.
From S2P Require Import GoJsonAny.
From S2P Require Import AuditChain.
From S2P Require Import AuditTheorems.
From S2P Require Import ActionGates.
From S2P Require Import GateTheorems.

Open Scope string_scope.

Definition approvalEvidenceScanMaxEvents : Z := MaxVerifyLimit.
Definition approvalEvidenceScanPageSize : Z := DefaultVerifyLimit.
Definition maxVerifySinceUntilSpread : Z := 30 * 24 * 3600 * 1000000000.
Definition EventEdgeApprovalResolved : string := "edge.approval_resolved".

(** ** The span to verify *)

Definition maxApprovalBound (now : Z) (bounds : list (option Z)) : Z :=
  fold_left (fun m b => match b with Some t => if (m <? t)%Z then t else m | None => m end) bounds now.

Definition unixMilliNonNegative (t : Z) : Z := let ms := Z.quot t 1000000 in if (ms <? 0)%Z then 0 else ms.

Definition auditVerifyOptionsForApproval (approval : EdgeApproval) (now : Z) : VerifyOptions :=
  let end_ := maxApprovalBound now [ea_ResolvedAt approval; ea_ConsumedAt approval] in
  let start := match ea_CreatedAt approval with
               | Some s => if (maxVerifySinceUntilSpread <? end_ - s)%Z then (end_ - maxVerifySinceUntilSpread)%Z else s
               | None => (end_ - maxVerifySinceUntilSpread)%Z
               end in
  let end_ := if (end_ <? start)%Z then start else end_ in
  mkVerifyOptions (unixMilliNonNegative start) (unixMilliNonNegative end_) 0 0 "".

(** ** The outcome of the verification *)

Definition normalizeVerifyStatus (v : VerifyResult) : VerifyStatus :=
  if bool_decide (vr_Status v = VerifyStatusPartial) && (vr_FirstSeq v =? 1)%Z && negb (nonempty (vr_Gaps v)) then VerifyStatusOK else vr_Status v.

Definition chainStatusFromAudit (s : VerifyStatus) : string :=
  match s with VerifyStatusOK => ChainStatusOK | VerifyStatusPartial => ChainStatusPartial | VerifyStatusCompromised => ChainStatusCompromised end.

Definition verifyResultHasEvidenceGap (v : VerifyResult) : bool :=
  (vr_TotalEvents v =? 0)%Z || existsb (fun g => match vg_Type g with GapTypeMissing | GapTypeOutOfOrder => true | _ => false end) (vr_Gaps v).

Definition gap_name (t : VerifyGapType) : string :=
  match t with
  | GapTypeMissing => "missing" | GapTypeOutOfOrder => "out_of_order" | GapTypeHashMismatch => "hash_mismatch"
  | GapTypeRetentionTrimmed => "retention_trimmed" | GapTypeHMACMismatch => "hmac_mismatch"
  end.

Definition verifyResultDetail (v : VerifyResult) : string :=
  if (vr_TotalEvents v =? 0)%Z then "no_events"
  else match vr_Gaps v with
       | [] => "events=" +:+ Itoa (vr_TotalEvents v)
       | g :: _ => "gap=" +:+ gap_name (vg_Type g) +:+ ":seq=" +:+ Itoa (vg_AtSeq g)
       end.

Definition chainOutcomeFromVerifyResult (v : VerifyResult) (hmacChecked : bool) : ChainVerifyOutcome :=
  mkChainOutcome
    (if vr_HMACSeen v && negb hmacChecked then ChainStatusCompromised else chainStatusFromAudit (normalizeVerifyStatus v))
    (verifyResultHasEvidenceGap v) (verifyResultDetail v).

(** ** The search for the event *)

Definition approvalEvidenceApprovedDecision (decision : string) : bool :=
  let d := ToLower (TrimSpace decision) in (d =s? "approved") || (d =s? "approve").

Definition approvalEvidenceEventType (eventType : string) : bool := TrimSpace eventType =s? EventEdgeApprovalResolved.

(** The event says that this approval was given for this action. *)
Definition records_approval (approval : EdgeApproval) (ev : SIEMEvent) : bool :=
  approvalEvidenceEventType (se_EventType ev) && (TrimSpace (se_TenantID ev) =s? TrimSpace (ea_TenantID approval))
  && approvalEvidenceApprovedDecision (se_Decision ev)
  && (TrimSpace (get_str (se_Extra ev) "approval_ref") =s? TrimSpace (ea_ApprovalRef approval))
  && (TrimSpace (get_str (se_Extra ev) "action_hash") =s? TrimSpace (ea_ActionHash approval)).

Definition verifyScanLimit (opts : VerifyOptions) : Z :=
  if (vo_Limit opts <=? 0)%Z then DefaultVerifyLimit else if (MaxVerifyLimit <? vo_Limit opts)%Z then MaxVerifyLimit else vo_Limit opts.

Definition approvalEvidenceScanCap (opts : VerifyOptions) : Z :=
  if (0 <? vo_Limit opts)%Z then verifyScanLimit opts else approvalEvidenceScanMaxEvents.

Definition approvalRefDetailPrefix (ref : string) : string :=
  let ref := TrimSpace ref in if ref =s? "" then "missing_ref" else take 16 ref.

(** What the verifier reads: the stream when it asks for its first entry, when it
    verifies and at each page of the search, whether the read before the window fails,
    and whether the request has been cancelled before a page. *)
Record evidence_env := mkEvidenceEnv {
  ee_boundary : redis;
  ee_verify : redis;
  ee_rev_fails : bool;
  ee_page : nat -> redis;
  ee_cancelled : nat -> option string;
}.

Section Verifier.
Context (unmarshal : string -> option SIEMEvent).

Definition approvalEvidenceEntryMatches (approval : EdgeApproval) (e : entry) : bool :=
  match en_Event e with
  | Some payload => if payload =s? "" then false else match unmarshal payload with Some ev => records_approval approval ev | None => false end
  | None => false
  end.

(** [XRANGE stream (cursor max COUNT n]. *)
Definition page_of (opts : VerifyOptions) (cursor : option (Z * Z)) (n : Z) (es : list entry) : list entry :=
  firstn (Z.to_nat n)
    (List.filter (fun e => in_window opts e && match cursor with Some c => negb (id_le (en_ID e) c) | None => true end) es).

(** The pages from the [i]-th on.  A page is never empty when the search goes on, so
    as many steps as entries may be scanned are enough. *)
Fixpoint scan_evidence (env : evidence_env) (streamKey : string) (opts : VerifyOptions) (approval : EdgeApproval) (max : Z)
    (fuel i : nat) (scanned : Z) (cursor : option (Z * Z)) : result string bool :=
  match fuel with
  | O => Ok false
  | S fuel =>
      if negb (scanned <? max)%Z then Ok false
      else match ee_cancelled env i with
           | Some e => Err ("scan approval evidence: " +:+ e)
           | None =>
               match rstream streamKey (ee_page env i) with
               | Err e => Err ("scan approval evidence: " +:+ e)
               | Ok es =>
                   let entries := page_of opts cursor (Z.min approvalEvidenceScanPageSize (max - scanned)) es in
                   match last entries with
                   | None => Ok false
                   | Some final =>
                       if existsb (approvalEvidenceEntryMatches approval) entries then Ok true
                       else scan_evidence env streamKey opts approval max fuel (S i) (scanned + Z.of_nat (length entries)) (Some (en_ID final))
                   end
               end
           end
  end.

Definition approvalEvidenceExists (env : evidence_env) (streamKey : string) (opts : VerifyOptions) (approval : EdgeApproval) : result string bool :=
  if (TrimSpace (ea_ApprovalRef approval) =s? "") || (TrimSpace (ea_ActionHash approval) =s? "") then Ok false
  else let max := approvalEvidenceScanCap opts in scan_evidence env streamKey opts approval max (Z.to_nat max) 0 0 None.

(** ** The verifier *)

Definition readRetentionBoundary (streamKey : string) (r : redis) : result string Z :=
  match rstream streamKey r with
  | Err e => Err e
  | Ok [] => Ok 0%Z
  | Ok (e :: _) => match Atoi (en_Seq e) with Some n => Ok n | None => Err "strconv.ParseInt: parsing: invalid syntax" end
  end.

Definition errAuditChainVerifierUnavailable : string := "audit chain verifier unavailable".

Definition verify_options (c : Chainer) (approval : EdgeApproval) (now boundary : Z) : VerifyOptions :=
  let o := auditVerifyOptionsForApproval approval now in
  mkVerifyOptions (vo_SinceMs o) (vo_UntilMs o) (approvalEvidenceScanCap o) boundary (ch_hmacKey c).

Definition VerifyForApproval (c : Chainer) (env : evidence_env) (now : Z) (tenant : string) (approval : EdgeApproval) : result string ChainVerifyOutcome :=
  if tenant =s? "" then Err (errAuditChainVerifierUnavailable +:+ ": missing tenant or approval")
  else
    let streamKey := StreamKey (ch_prefix c) tenant in
    match readRetentionBoundary streamKey (ee_boundary env) with
    | Err e => Err ("read retention boundary: " +:+ e)
    | Ok boundary =>
        let opts := verify_options c approval now boundary in
        match VerifyChain unmarshal opts (ee_rev_fails env) streamKey (ee_verify env) with
        | Err e => Err e
        | Ok v =>
            let outcome := chainOutcomeFromVerifyResult v (negb (ch_hmacKey c =s? "")) in
            match approvalEvidenceExists env streamKey opts approval with
            | Err e => Err e
            | Ok true => Ok outcome
            | Ok false =>
                Ok (mkChainOutcome (co_Status outcome) true
                      (if co_Status outcome =s? ChainStatusCompromised then co_Detail outcome
                       else "approval_evidence_missing:" +:+ approvalRefDetailPrefix (ea_ApprovalRef approval)))
            end
        end
    end.

(** ** The search *)

Lemma page_length opts cursor n es : (Z.of_nat (length (page_of opts cursor n es)) <= Z.max 0 n)%Z.
Proof. unfold page_of. rewrite length_firstn. lia. Qed.

Lemma last_nonempty {A} (l : list A) x : last l = Some x -> (0 < Z.of_nat (length l))%Z.
Proof. destruct l; [done|]. cbn [length]. lia. Qed.

(** The steps are enough: more of them change nothing. *)
Lemma scan_enough env streamKey opts approval max fuel fuel' i scanned cursor :
  (max - scanned <= Z.of_nat fuel)%Z -> (max - scanned <= Z.of_nat fuel')%Z ->
  scan_evidence env streamKey opts approval max fuel i scanned cursor = scan_evidence env streamKey opts approval max fuel' i scanned cursor.
Proof.
  revert fuel' i scanned cursor. induction fuel as [|fuel IH]; intros fuel' i scanned cursor H H'.
  - destruct fuel' as [|fuel']; [done|]. cbn [scan_evidence]. by rewrite (proj2 (Z.ltb_ge scanned max)) by lia.
  - destruct fuel' as [|fuel']; [cbn [scan_evidence]; by rewrite (proj2 (Z.ltb_ge scanned max)) by lia|]. cbn [scan_evidence].
    destruct (negb _); [done|]. destruct (ee_cancelled env i); [done|]. destruct (rstream streamKey (ee_page env i)) as [e|es]; [done|].
    destruct (last _) as [final|] eqn:El; [|done]. destruct (existsb _ _); [done|]. apply last_nonempty in El. apply IH; lia.
Qed.

(** What the search finds is there. *)
Lemma scan_found env streamKey opts approval max fuel i scanned cursor :
  scan_evidence env streamKey opts approval max fuel i scanned cursor = Ok true ->
  exists j es e, rstream streamKey (ee_page env j) = Ok es /\ e ∈ es /\ in_window opts e = true /\ approvalEvidenceEntryMatches approval e = true.
Proof.
  revert i scanned cursor. induction fuel as [|fuel IH]; intros i scanned cursor; [done|]. cbn [scan_evidence].
  destruct (negb _); [done|]. destruct (ee_cancelled env i); [done|]. destruct (rstream streamKey (ee_page env i)) as [e|es] eqn:Es; [done|].
  destruct (last _); [|done]. destruct (existsb _ _) eqn:Ex; [|by apply IH]. intros _.
  apply existsb_exists in Ex as (x & Hin & Hm). unfold page_of in Hin. apply list_elem_of_In, elem_of_take in Hin as (k & Hk & _).
  apply list_elem_of_lookup_2, list_elem_of_In, filter_In in Hk as [Hin [Hw _]%andb_true_iff]. exists i, es, x. by rewrite list_elem_of_In.
Qed.

(** In a stream at rest, the pages together are the window: the search finds the event
    exactly when it is among the first entries of the window. *)
Definition id_lt (a b : entry) : Prop := id_le (en_ID b) (en_ID a) = false.

Lemma id_lt_le a b : id_lt a b -> id_le (en_ID a) (en_ID b) = true.
Proof.
  unfold id_lt, id_le. destruct (en_ID a) as [m s], (en_ID b) as [m' s']. cbn [fst snd]. intros [H1%Z.ltb_ge H2]%orb_false_iff.
  apply orb_true_iff. apply andb_false_iff in H2 as [H2%Z.eqb_neq|H2%Z.leb_gt]; [left; apply Z.ltb_lt; lia|].
  destruct (Z.ltb_spec m m'); [by left|right]. apply andb_true_iff. split; [apply Z.eqb_eq; lia|apply Z.leb_le; lia].
Qed.

Lemma id_le_refl e : id_le (en_ID e) (en_ID e) = true.
Proof. unfold id_le. rewrite Z.eqb_refl, Z.leb_refl. by rewrite orb_true_r. Qed.

(** What comes after the last entry of a page. *)
Lemma after_page (l : list entry) n final :
  StronglySorted id_lt l -> last (firstn n l) = Some final -> List.filter (fun e => negb (id_le (en_ID e) (en_ID final))) l = skipn n l.
Proof.
  intros Hs. revert n. induction Hs as [|a l Hs IH Ha]; intros n; [by destruct n|]. destruct n as [|n]; [done|]. cbn [firstn skipn List.filter].
  rewrite Forall_forall in Ha. destruct (firstn n l) as [|b k] eqn:En.
  - intros [= <-]. rewrite id_le_refl. cbn [negb]. assert (Hn : n = O \/ l = []) by (destruct n, l; naive_solver).
    assert (List.filter (fun e => negb (id_le (en_ID e) (en_ID a))) l = l) as ->.
    { clear -Ha. induction l as [|b l IHl]; [done|]. cbn [List.filter]. rewrite (Ha b) by (apply elem_of_cons; by left). cbn [negb]. f_equal. apply IHl.
      intros x Hx. apply Ha, elem_of_cons. by right. }
    destruct Hn as [->| ->]; [done|by rewrite skipn_nil].
  - rewrite <- En. intros Hl. rewrite last_cons in Hl. destruct (last (firstn n l)) as [x|] eqn:Ex; [|apply last_None in Ex; congruence]. injection Hl as ->.
    assert (Hin : final ∈ l).
    { rewrite last_lookup in Ex. apply list_elem_of_lookup_2, elem_of_take in Ex as (j & Hj & _). by apply list_elem_of_lookup_2 in Hj. }
    rewrite (id_lt_le a final) by by apply Ha. cbn [negb]. by apply IH.
Qed.

Definition beyond (opts : VerifyOptions) (cursor : option (Z * Z)) (es : list entry) : list entry :=
  List.filter (fun e => in_window opts e && match cursor with Some c => negb (id_le (en_ID e) c) | None => true end) es.

Lemma filter_sorted {A} (R : A -> A -> Prop) (f : A -> bool) l : StronglySorted R l -> StronglySorted R (List.filter f l).
Proof.
  induction 1 as [|a l Hs IH Ha]; [constructor|]. cbn [List.filter]. destruct (f a); [|done]. constructor; [done|].
  rewrite Forall_forall in *. intros x Hx. apply Ha. apply list_elem_of_In, filter_In in Hx as [Hx _]. by apply list_elem_of_In.
Qed.

Lemma id_le_trans a b c : id_le a b = true -> id_le b c = true -> id_le a c = true.
Proof.
  unfold id_le. rewrite !orb_true_iff, !andb_true_iff, !Z.ltb_lt, !Z.eqb_eq, !Z.leb_le. lia.
Qed.

(** Moving the cursor to the end of a page leaves what follows it. *)
Lemma beyond_page opts cursor es n final :
  StronglySorted id_lt es -> last (firstn n (beyond opts cursor es)) = Some final -> beyond opts (Some (en_ID final)) es = skipn n (beyond opts cursor es).
Proof.
  intros Hs Hl. rewrite <- (after_page _ n final) by (done || by apply filter_sorted).
  assert (Hc : forall c, cursor = Some c -> id_le (en_ID final) c = false).
  { intros c ->. rewrite last_lookup in Hl. apply list_elem_of_lookup_2, elem_of_take in Hl as (j & Hj%list_elem_of_lookup_2 & _).
    apply list_elem_of_In, filter_In in Hj as [_ [_ Hj%negb_true_iff]%andb_true_iff]. done. }
  unfold beyond. clear Hs Hl. induction es as [|e es IH]; [done|]. cbn [List.filter]. rewrite IH.
  destruct (in_window opts e); cbn [andb]; [|done]. destruct (id_le (en_ID e) (en_ID final)) eqn:Ef; cbn [negb].
  - destruct cursor as [c|]; cbn [List.filter]; [|by rewrite Ef]. destruct (negb (id_le (en_ID e) c)); [|done]. cbn [List.filter]. by rewrite Ef.
  - assert (match cursor with Some c => negb (id_le (en_ID e) c) | None => true end = true) as ->; [|cbn [List.filter]; by rewrite Ef].
    destruct cursor as [c|]; [|done]. apply negb_true_iff, not_true_iff_false. intros Hle.
    assert (Hlt : id_le c (en_ID final) = true).
    { specialize (Hc c eq_refl). unfold id_le in *. rewrite orb_true_iff, andb_true_iff, Z.ltb_lt, Z.eqb_eq, Z.leb_le.
      apply orb_false_iff in Hc as [H1%Z.ltb_ge H2]. apply andb_false_iff in H2 as [H2%Z.eqb_neq|H2%Z.leb_gt]; lia. }
    rewrite (id_le_trans _ _ _ Hle Hlt) in Ef. done.
Qed.

Lemma scan_spec env streamKey opts approval max es fuel i scanned cursor :
  (forall j, ee_cancelled env j = None) -> (forall j, rstream streamKey (ee_page env j) = Ok es) -> StronglySorted id_lt es ->
  (max - scanned <= Z.of_nat fuel)%Z ->
  scan_evidence env streamKey opts approval max fuel i scanned cursor
  = Ok (existsb (approvalEvidenceEntryMatches approval) (firstn (Z.to_nat (max - scanned)) (beyond opts cursor es))).
Proof.
  intros Hc Hr Hs. revert i scanned cursor. induction fuel as [|fuel IH]; intros i scanned cursor Hf; cbn [scan_evidence].
  { replace (Z.to_nat (max - scanned)) with O by lia. done. }
  destruct (Z.ltb_spec scanned max) as [Hlt|]; cbn [negb]; [|replace (Z.to_nat (max - scanned)) with O by lia; done].
  rewrite Hc, Hr. set (n := Z.min approvalEvidenceScanPageSize (max - scanned)). set (F := beyond opts cursor es).
  assert (Hn : (0 < n <= max - scanned)%Z) by (unfold n, approvalEvidenceScanPageSize, DefaultVerifyLimit; lia).
  change (page_of opts cursor n es) with (firstn (Z.to_nat n) F).
  assert (Hsplit : firstn (Z.to_nat (max - scanned)) F = (firstn (Z.to_nat n) F ++ firstn (Z.to_nat (max - scanned - n)) (skipn (Z.to_nat n) F))%list).
  { rewrite take_take_drop. f_equal. lia. }
  destruct (last (firstn (Z.to_nat n) F)) as [final|] eqn:El.
  - rewrite Hsplit, existsb_app. destruct (existsb _ (firstn (Z.to_nat n) F)); [done|]. cbn [orb].
    pose proof (last_nonempty _ _ El) as Hpos. rewrite IH by lia. unfold F in El. rewrite (beyond_page opts cursor es _ final Hs El). fold F. do 2 f_equal.
    rewrite length_firstn. destruct (decide (Z.to_nat n <= length F)%nat); [f_equal; lia|]. rewrite (drop_ge F) by lia. by rewrite !firstn_nil.
  - apply last_None in El. rewrite Hsplit, El. assert (F = []) as ->; [|by rewrite skipn_nil, firstn_nil].
    destruct F as [|e F']; [done|]. exfalso. destruct (Z.to_nat n) eqn:En; [lia|done].
Qed.

(** The event of an approval, in the stream as the search saw it. *)
Definition evidence (env : evidence_env) (streamKey : string) (opts : VerifyOptions) (approval : EdgeApproval) : Prop :=
  exists j es e payload ev,
    rstream streamKey (ee_page env j) = Ok es /\ e ∈ es /\ in_window opts e = true
    /\ en_Event e = Some payload /\ unmarshal payload = Some ev /\ records_approval approval ev = true.

Lemma exists_evidence env streamKey opts approval : approvalEvidenceExists env streamKey opts approval = Ok true -> evidence env streamKey opts approval.
Proof.
  unfold approvalEvidenceExists. destruct (_ || _); [done|]. intros (j & es & e & Hs & Hin & Hw & Hm)%scan_found.
  unfold approvalEvidenceEntryMatches in Hm. destruct (en_Event e) as [payload|] eqn:Ee; [|done]. destruct (payload =s? ""); [done|].
  destruct (unmarshal payload) as [ev|] eqn:Eu; [|done]. by exists j, es, e, payload, ev.
Qed.

(** The chain, as the verification reported it, backs the approval. *)
Definition chain_backs (c : Chainer) (v : VerifyResult) : Prop :=
  vr_Status v <> VerifyStatusCompromised /\ (vr_HMACSeen v = true -> ch_hmacKey c <> "") /\ vr_TotalEvents v <> 0%Z
  /\ Forall (fun g => vg_Type g <> GapTypeMissing /\ vg_Type g <> GapTypeOutOfOrder) (vr_Gaps v).

Lemma outcome_backs c v :
  co_Status (chainOutcomeFromVerifyResult v (negb (ch_hmacKey c =s? ""))) <> ChainStatusCompromised ->
  co_HasEvidenceGap (chainOutcomeFromVerifyResult v (negb (ch_hmacKey c =s? ""))) = false -> chain_backs c v.
Proof.
  unfold chainOutcomeFromVerifyResult, verifyResultHasEvidenceGap. cbn [co_Status co_HasEvidenceGap]. rewrite negb_involutive.
  intros Hs [Ht%Z.eqb_neq Hg]%orb_false_iff. destruct (vr_HMACSeen v && (ch_hmacKey c =s? "")) eqn:Eh; [done|]. split_and!.
  - intros Hc. apply Hs. unfold normalizeVerifyStatus. rewrite Hc. by rewrite bool_decide_false.
  - intros Hseen Hk. rewrite Hseen, Hk in Eh. done.
  - done.
  - apply Forall_forall. intros g Hin. apply not_true_iff_false in Hg.
    split; intros Ht'; apply Hg; apply existsb_exists; exists g; (split; [by apply list_elem_of_In|by rewrite Ht']).
Qed.

Context `{JsonFloat}.

(** C11: an allowed action has its approval in the audit chain.  With the gateway's
    verifier, the provenance gate lets an action pass only if the approval that the
    store returned holds for it and the tenant's audit stream, over the life of that
    approval, verifies: it is not compromised, misses no event and has none out of
    order, and its signatures, if there are any, were checked; and the search found in
    it the event of the resolution, for the same tenant, approval reference and action
    hash. *)
Theorem approval_evidenced lookup c env clock now actx act :
  requiresProvenance act = true ->
  passes (ProvenanceGate (Some lookup) (Some (VerifyForApproval c env clock)) now actx act) = true ->
  exists a approval boundary v,
    let opts := verify_options c approval clock boundary in
    let streamKey := StreamKey (ch_prefix c) (ac_Tenant a) in
    actx = Some a /\ lookup GateIDProvenance (ac_Tenant a) (TrimSpace (claimed_ref act)) = Ok (Some approval)
    /\ approval_holds now approval a (CanonicalActionHash act)
    /\ VerifyChain unmarshal opts (ee_rev_fails env) streamKey (ee_verify env) = Ok v /\ chain_backs c v
    /\ evidence env streamKey opts approval.
Proof.
  intros Hr Hp. apply provenance_passes in Hp as (a & find & ap & verify & outcome & Ha & [= <-] & Hl & Hh & [= <-] & Hv & Hs & Hg); [|done].
  apply authenticated_some in Ha as [Ha _]. unfold VerifyForApproval in Hv. destruct (ac_Tenant a =s? ""); [done|].
  destruct (readRetentionBoundary _ _) as [e|boundary]; [done|].
  destruct (VerifyChain _ _ _ _ _) as [e|v] eqn:Ev; [done|]. destruct (approvalEvidenceExists _ _ _ _) as [e|found] eqn:Ee; [done|].
  destruct found; [|by injection Hv as <-]. injection Hv as <-. exists a, ap, boundary, v. split_and!; try done.
  - by apply outcome_backs.
  - by apply exists_evidence.
Qed.

(** In a stream at rest, the search is exact. *)
Lemma evidence_search_exact env streamKey opts approval es :
  (forall j, ee_cancelled env j = None) -> (forall j, rstream streamKey (ee_page env j) = Ok es) -> StronglySorted id_lt es ->
  approvalEvidenceExists env streamKey opts approval
  = Ok (negb (TrimSpace (ea_ApprovalRef approval) =s? "") && negb (TrimSpace (ea_ActionHash approval) =s? "")
        && existsb (approvalEvidenceEntryMatches approval) (firstn (Z.to_nat (approvalEvidenceScanCap opts)) (List.filter (in_window opts) es))).
Proof.
  intros Hc Hr Hs. unfold approvalEvidenceExists. destruct (TrimSpace (ea_ApprovalRef approval) =s? ""), (TrimSpace (ea_ActionHash approval) =s? ""); try done.
  cbn [orb negb andb]. rewrite (scan_spec _ _ _ _ _ es) by (done || lia). rewrite Z.sub_0_r. do 3 f_equal. unfold beyond.
  clear Hr Hs. induction es as [|e es IH]; [done|]. cbn [List.filter]. rewrite andb_true_r. by rewrite IH.
Qed.

End Verifier.

(** ** An approval with its event *)

Definition resolved_event : SIEMEvent :=
  mkSIEMEvent "2026-01-02T03:04:05Z" EventEdgeApprovalResolved "info" "tnt_acme" "" "" "" "" "approve" "approved" "" "" [] [] "" "ann"
    {["approval_ref" := "apr-1"; "action_hash" := ea_ActionHash small_approval]} 0 "" "" "".

Definition recorded := Append quiet demo_chainer resolved_event ∅.
Definition resolved_stored : SIEMEvent := Eval vm_compute in committed recorded.
Definition audit_state : redis := Eval vm_compute in after recorded.

Definition demo_evidence : evidence_env := mkEvidenceEnv audit_state audit_state false (fun _ => audit_state) (fun _ => None).

Definition demo_lookup : ApprovalLookup := fun _ tenant ref => Ok (if (tenant =s? "tnt_acme") && (ref =s? "apr-1") then Some small_approval else None).

Definition demo_provenance (approvals : ApprovalLookup) (env : evidence_env) : ActionGateDecision :=
  ProvenanceGate (H := short_float) (Some approvals) (Some (VerifyForApproval (decode_of [resolved_stored]) demo_chainer env 10)) 10 (Some operator) small_purge.

Lemma approval_evidenced_witness :
  passes (demo_provenance demo_lookup demo_evidence) = true
  /\ exists opts streamKey approval, evidence (decode_of [resolved_stored]) demo_evidence streamKey opts approval.
Proof.
  assert (Hp : passes (demo_provenance demo_lookup demo_evidence) = true) by (vm_compute; reflexivity). split; [exact Hp|].
  destruct (approval_evidenced (H := short_float) (decode_of [resolved_stored]) demo_lookup demo_chainer demo_evidence 10 10 (Some operator) small_purge eq_refl Hp)
    as (a & ap & boundary & v & _ & _ & _ & _ & _ & He).
  eexists _, _, _. exact He.
Defined.

(** An empty stream backs nothing. *)
Example unrecorded_denied :
  gd_SubReason (demo_provenance demo_lookup (mkEvidenceEnv ∅ ∅ false (fun _ => ∅) (fun _ => None))) = "audit_evidence_missing:ok:approval_evidence_missing:apr-1".
Proof. vm_compute. reflexivity. Qed.
