(* ===== verification/Licensing.v ===== *)
(** * Licensing and entitlements

    core/licensing: plans and their default limits (tiers.go), the enforcement of
    numeric limits (enforce.go), the expiry phases of a licence (expiry.go), the
    merge of a licence's claims into the defaults of its plan (resolver.go), and
    the break-glass permissions (breakglass.go).

    The Go code sets and merges the fields of [Entitlements] by reflection over
    the struct; here the merge is written out field by field.  Times are
    nanoseconds; parsing RFC 3339 text, loading the licence and verifying its
    signature are parameters. *)
From S2P Require Import Prelude.
From S2P Require Import GoStrings.
From S2P Require Import GoValues.
From Stdlib Require Import Ascii.

Open Scope string_scope.

(** ** Plans *)

Definition Unlimited : Z := -1.

Inductive Plan : Set := PlanCommunity | PlanTeam | PlanEnterprise.
Inductive ApprovalMode : Set := ApprovalModeSingle | ApprovalModeMulti | ApprovalModeCustom.

Definition string_of_mode (m : ApprovalMode) : string :=
  match m with ApprovalModeSingle => "single" | ApprovalModeMulti => "multi" | ApprovalModeCustom => "custom" end.

Definition ParsePlan (raw : string) : Plan :=
  let s := ToLower (TrimSpace raw) in
  if s =s? "enterprise" then PlanEnterprise else if s =s? "team" then PlanTeam else PlanCommunity.

Definition ParseApprovalMode (raw : string) : ApprovalMode :=
  let s := ToLower (TrimSpace raw) in
  if s =s? "custom" then ApprovalModeCustom else if s =s? "multi" then ApprovalModeMulti else ApprovalModeSingle.

Definition approvalModeRank (raw : string) : Z :=
  match ParseApprovalMode raw with ApprovalModeCustom => 3 | ApprovalModeMulti => 2 | ApprovalModeSingle => 1 end.

Definition Licensed (p : Plan) : bool := match p with PlanCommunity => false | _ => true end.

Definition DisplayName (p : Plan) : string :=
  match p with PlanEnterprise => "Enterprise" | PlanTeam => "Team" | PlanCommunity => "Community" end.

Record TierDefaultSpec := mkTierDefaultSpec {
  ts_MaxWorkers : Z;
  ts_MaxConcurrentJobs : Z;
  ts_RequestsPerSecond : Z;
  ts_AuditRetentionDays : Z;
  ts_MaxWorkflowSteps : Z;
  ts_MaxActiveWorkflows : Z;
  ts_MaxTenants : Z;
  ts_MaxSchemaCount : Z;
  ts_MaxPromptChars : Z;
  ts_MaxBodyBytes : Z;
  ts_MaxArtifactBytes : Z;
  ts_MaxPolicyBundles : Z;
  ts_ApprovalMode : ApprovalMode;
  ts_Audit : bool;
  ts_RBAC : bool;
  ts_SSO : bool;
  ts_SAML : bool;
  ts_SCIM : bool;
  ts_SIEMExport : bool;
  ts_LegalHold : bool;
  ts_VelocityRules : bool;
  ts_BreakGlassAdmin : bool;
  ts_AgentIdentity : bool;
  ts_SupportSLA : bool;
}.

(** [en_present]: the JSON keys the claim set, [None] for values built in code. *)
Record Entitlements := mkEntitlements {
  en_ApprovalMode : string;
  en_TelemetryMode : string;
  en_MaxWorkers : Z;
  en_RequestsPerSecond : Z;
  en_MaxConcurrentJobs : Z;
  en_MaxWorkflowSteps : Z;
  en_MaxActiveWorkflows : Z;
  en_MaxTenants : Z;
  en_MaxSchemaCount : Z;
  en_MaxPromptChars : Z;
  en_MaxBodyBytes : Z;
  en_MaxArtifactBytes : Z;
  en_MaxPolicyBundles : Z;
  en_AuditRetentionDays : Z;
  en_SSO : bool;
  en_SAML : bool;
  en_SCIM : bool;
  en_RBAC : bool;
  en_Audit : bool;
  en_AuditExport : bool;
  en_SIEMExport : bool;
  en_LegalHold : bool;
  en_VelocityRules : bool;
  en_BreakGlassAdmin : bool;
  en_AgentIdentity : bool;
  en_Features : option (gmap string bool);
  en_Limits : option (gmap string Z);
  en_present : option (gset string);
}.

Definition TierDefaults (p : Plan) : TierDefaultSpec :=
  match p with
  | PlanCommunity =>
      mkTierDefaultSpec 3 3 500 7 Unlimited Unlimited Unlimited Unlimited Unlimited Unlimited
        Unlimited 0 ApprovalModeSingle true false false false false false false false true
        false false
  | PlanTeam =>
      mkTierDefaultSpec 25 25 2000 90 Unlimited Unlimited Unlimited Unlimited Unlimited
        Unlimited Unlimited Unlimited ApprovalModeMulti true false false false false false
        false false true false false
  | PlanEnterprise =>
      mkTierDefaultSpec Unlimited Unlimited 10000 Unlimited Unlimited Unlimited Unlimited
        Unlimited Unlimited Unlimited Unlimited Unlimited ApprovalModeCustom true true true
        true true true true true true true true
  end.

(** [applyTierDefaultSpec] on the zero value: the fields the specification names;
    [SIEMExport] sets [AuditExport] as well, and no field takes [SupportSLA]. *)
Definition applyTierDefaultSpec (s : TierDefaultSpec) : Entitlements :=
  mkEntitlements (string_of_mode (ts_ApprovalMode s)) "" (ts_MaxWorkers s)
    (ts_RequestsPerSecond s) (ts_MaxConcurrentJobs s) (ts_MaxWorkflowSteps s)
    (ts_MaxActiveWorkflows s) (ts_MaxTenants s) (ts_MaxSchemaCount s) (ts_MaxPromptChars s)
    (ts_MaxBodyBytes s) (ts_MaxArtifactBytes s) (ts_MaxPolicyBundles s)
    (ts_AuditRetentionDays s) (ts_SSO s) (ts_SAML s) (ts_SCIM s) (ts_RBAC s) (ts_Audit s)
    (ts_SIEMExport s) (ts_SIEMExport s) (ts_LegalHold s) (ts_VelocityRules s)
    (ts_BreakGlassAdmin s) (ts_AgentIdentity s) None None None.

Definition DefaultEntitlements (p : Plan) : Entitlements := applyTierDefaultSpec (TierDefaults p).

(** ** Merging a claim into the defaults *)

Definition mergeLimitValues (current next : Z) : Z :=
  if (current =? Unlimited)%Z || (next =? Unlimited)%Z then Unlimited
  else if (current <? next)%Z then next else current.

(** [mergeValue] at a string, an approval mode, a boolean and a map. *)
Definition merge_string (dst src : string) : string :=
  let next := TrimSpace src in
  if next =s? "" then dst else if TrimSpace dst =s? "" then next else dst.
Definition merge_mode (dst src : string) : string :=
  let next := TrimSpace src in
  if next =s? "" then dst
  else if (approvalModeRank (TrimSpace dst) <? approvalModeRank next)%Z then next else dst.
Definition merge_bool (dst src : bool) : bool := if src then true else dst.
Definition merge_map {A} (dst src : option A) : option A := match dst with None => src | Some _ => dst end.

Definition wasSet (e : Entitlements) (jsonKey : string) : bool :=
  match en_present e with None => false | Some s => bool_decide (jsonKey ∈ s) end.

(** A scalar limit: [mergeValue], then [applyPresentLimits]. *)
Definition merge_limit (override : Entitlements) (jsonKey : string) (dst src : Z) : Z :=
  if wasSet override jsonKey then src else mergeLimitValues dst src.

Definition mergeEntitlements (base override : Entitlements) : Entitlements :=
  mkEntitlements
    (merge_mode (en_ApprovalMode base) (en_ApprovalMode override))
    (merge_string (en_TelemetryMode base) (en_TelemetryMode override))
    (merge_limit override "max_workers" (en_MaxWorkers base) (en_MaxWorkers override))
    (merge_limit override "requests_per_second" (en_RequestsPerSecond base) (en_RequestsPerSecond override))
    (merge_limit override "max_concurrent_jobs" (en_MaxConcurrentJobs base) (en_MaxConcurrentJobs override))
    (merge_limit override "max_workflow_steps" (en_MaxWorkflowSteps base) (en_MaxWorkflowSteps override))
    (merge_limit override "max_active_workflows" (en_MaxActiveWorkflows base) (en_MaxActiveWorkflows override))
    (merge_limit override "max_tenants" (en_MaxTenants base) (en_MaxTenants override))
    (merge_limit override "max_schema_count" (en_MaxSchemaCount base) (en_MaxSchemaCount override))
    (merge_limit override "max_prompt_chars" (en_MaxPromptChars base) (en_MaxPromptChars override))
    (merge_limit override "max_body_bytes" (en_MaxBodyBytes base) (en_MaxBodyBytes override))
    (merge_limit override "max_artifact_bytes" (en_MaxArtifactBytes base) (en_MaxArtifactBytes override))
    (merge_limit override "max_policy_bundles" (en_MaxPolicyBundles base) (en_MaxPolicyBundles override))
    (merge_limit override "audit_retention_days" (en_AuditRetentionDays base) (en_AuditRetentionDays override))
    (merge_bool (en_SSO base) (en_SSO override))
    (merge_bool (en_SAML base) (en_SAML override))
    (merge_bool (en_SCIM base) (en_SCIM override))
    (merge_bool (en_RBAC base) (en_RBAC override))
    (merge_bool (en_Audit base) (en_Audit override))
    (merge_bool (en_AuditExport base) (en_AuditExport override))
    (merge_bool (en_SIEMExport base) (en_SIEMExport override))
    (merge_bool (en_LegalHold base) (en_LegalHold override))
    (merge_bool (en_VelocityRules base) (en_VelocityRules override))
    (merge_bool (en_BreakGlassAdmin base) (en_BreakGlassAdmin override))
    (merge_bool (en_AgentIdentity base) (en_AgentIdentity override))
    (merge_map (en_Features base) (en_Features override))
    (merge_map (en_Limits base) (en_Limits override))
    (en_present base).

(** The scalar limits with their JSON keys. *)
Definition limit_fields : list (string * (Entitlements -> Z)) :=
  [("max_workers", en_MaxWorkers); ("requests_per_second", en_RequestsPerSecond);
   ("max_concurrent_jobs", en_MaxConcurrentJobs); ("max_workflow_steps", en_MaxWorkflowSteps);
   ("max_active_workflows", en_MaxActiveWorkflows); ("max_tenants", en_MaxTenants);
   ("max_schema_count", en_MaxSchemaCount); ("max_prompt_chars", en_MaxPromptChars);
   ("max_body_bytes", en_MaxBodyBytes); ("max_artifact_bytes", en_MaxArtifactBytes);
   ("max_policy_bundles", en_MaxPolicyBundles); ("audit_retention_days", en_AuditRetentionDays)].

(** ** Enforcement *)

Record TierLimitError := mkTierLimitError {
  tl_Limit : string;
  tl_Allowed : Z;
  tl_Current : Z;
  tl_UpgradeURL : string;
}.

Definition DefaultUpgradeURL : string := "https://cordum.io/pricing".

Definition newTierLimitError (limit : string) (current allowed : Z) : TierLimitError :=
  mkTierLimitError limit allowed current DefaultUpgradeURL.

Definition TierLimitError_Error (e : TierLimitError) : string :=
  tl_Limit e +:+ " exceeds allowed limit (" +:+ Itoa (tl_Current e) +:+ " > " +:+ Itoa (tl_Allowed e) +:+ ")"
  +:+ (if tl_UpgradeURL e =s? "" then "" else "; upgrade: " +:+ tl_UpgradeURL e).

Definition normalizeName (name : string) : string :=
  ReplaceByte (ReplaceByte (TrimSpace (ToLower name)) "-" "_") " " "_".

Definition checkNumericLimit (limit : string) (current allowed : Z) : option TierLimitError :=
  if (allowed =? Unlimited)%Z || (current <=? allowed)%Z then None
  else Some (newTierLimitError limit current allowed).

Definition effectiveLimit (primary : Z) (extras : option (gmap string Z)) (keys : list string) : Z :=
  if negb (primary =? 0)%Z then primary
  else default 0%Z (find_first (fun key => default ∅ extras !! normalizeName key) keys).

Definition CheckWorkerLimit (current : Z) (e : Entitlements) : option TierLimitError :=
  checkNumericLimit "max_workers" current (en_MaxWorkers e).
Definition CheckJobConcurrency (current : Z) (e : Entitlements) : option TierLimitError :=
  checkNumericLimit "max_concurrent_jobs" current (en_MaxConcurrentJobs e).
Definition CheckWorkflowSteps (current : Z) (e : Entitlements) : option TierLimitError :=
  checkNumericLimit "max_workflow_steps" current
    (effectiveLimit (en_MaxWorkflowSteps e) (en_Limits e) ["max_workflow_steps"]).
Definition CheckActiveWorkflows (current : Z) (e : Entitlements) : option TierLimitError :=
  checkNumericLimit "max_active_workflows" current
    (effectiveLimit (en_MaxActiveWorkflows e) (en_Limits e) ["max_active_workflows"]).
Definition CheckPolicyBundleLimit (current : Z) (e : Entitlements) : option TierLimitError :=
  checkNumericLimit "max_policy_bundles" current
    (effectiveLimit (en_MaxPolicyBundles e) (en_Limits e) ["max_policy_bundles"]).
Definition CheckSchemaCount (current : Z) (e : Entitlements) : option TierLimitError :=
  checkNumericLimit "max_schema_count" current
    (effectiveLimit (en_MaxSchemaCount e) (en_Limits e) ["max_schema_count"; "max_schemas"]).
Definition CheckRateLimitRPS (current : Z) (e : Entitlements) : option TierLimitError :=
  checkNumericLimit "requests_per_second" current
    (effectiveLimit (en_RequestsPerSecond e) (en_Limits e)
       ["requests_per_second"; "rate_limit_rps"; "max_requests_per_second"]).
Definition CheckArtifactSize (current : Z) (e : Entitlements) : option TierLimitError :=
  let allowed := if (en_MaxArtifactBytes e =? 0)%Z then en_MaxBodyBytes e else en_MaxArtifactBytes e in
  checkNumericLimit "max_artifact_bytes" current (effectiveLimit allowed (en_Limits e) ["max_artifact_bytes"]).

Definition CheckApprovalMode (requested allowed : string) : option TierLimitError :=
  let r := approvalModeRank (string_of_mode (ParseApprovalMode requested)) in
  let a := approvalModeRank (string_of_mode (ParseApprovalMode allowed)) in
  if (r <=? a)%Z then None else Some (newTierLimitError "approval_mode" r a).

Definition FeatureEnabled (e : Entitlements) (name : string) : bool :=
  let n := normalizeName name in
  if n =s? "sso" then en_SSO e else if n =s? "saml" then en_SAML e
  else if n =s? "scim" then en_SCIM e else if n =s? "rbac" then en_RBAC e
  else if n =s? "audit" then en_Audit e else if n =s? "audit_export" then en_AuditExport e
  else if n =s? "siem_export" then en_SIEMExport e else if n =s? "legal_hold" then en_LegalHold e
  else if n =s? "velocity_rules" then en_VelocityRules e
  else if n =s? "break_glass_admin" then en_BreakGlassAdmin e
  else if n =s? "agent_identity" then en_AgentIdentity e
  else match en_Features e with None => false | Some f => default false (f !! n) end.

(** ** Expiry *)

(** A claim: the fields that decide the plan, the entitlements and the window. *)
Record Claims := mkClaims {
  cl_OrgID : string;
  cl_LicenseID : string;
  cl_Plan : string;
  cl_Entitlements : option Entitlements;
  cl_NotBefore : string;
  cl_ExpiresAt : string;
  cl_GraceDays : option Z;
}.

Definition claims_feature (c : Claims) (name : string) : bool :=
  match cl_Entitlements c with None => false | Some e => FeatureEnabled e name end.

Definition defaultGraceDays : Z := 14.

Definition EffectiveGraceDays (c : Claims) : Z :=
  match cl_GraceDays c with
  | None => defaultGraceDays
  | Some d => if (d =? 0)%Z then defaultGraceDays else if (d <? 0)%Z then 0%Z else d
  end.

Inductive ExpiryState : Set := ExpiryStateValid | ExpiryStateWarning | ExpiryStateGrace | ExpiryStateDegraded.

#[export] Instance ExpiryState_eq_dec : EqDecision ExpiryState.
Proof. solve_decision. Defined.

Record ExpiryStatus := mkExpiryStatus {
  es_State : ExpiryState;
  es_DaysRemaining : Z;
  es_ExpiresAt : option Z;
  es_GraceEndsAt : option Z;
  es_SSOConfigured : bool;
}.

Inductive LicenseError : Set := ErrLicenseWindowInvalid | ErrLicenseNotActive | ErrLicenseExpired.

Definition ns_second : Z := 1000000000.
Definition day : Z := 86400 * ns_second.

(** [t.Sub(u)] saturates at the range of a duration. *)
Definition time_sub (t u : Z) : Z := Z.max int64_min (Z.min int64_max (t - u)).

Definition remainingDays (now target : Z) : Z :=
  if negb (now <? target)%Z then 0%Z
  else Z.quot (wrap64 (time_sub target now + day - 1)) day.

Definition inWarningWindow (daysRemaining : Z) : bool :=
  if (daysRemaining <=? 0)%Z then false else (daysRemaining <=? 30)%Z.

(** The digits of [parseUnix], accumulated in an [int64]. *)
Fixpoint parse_unix (seconds : Z) (s : string) : option Z :=
  match s with
  | EmptyString => Some seconds
  | String c s => if is_digit c then parse_unix (wrap64 (seconds * 10 + digit_value c)) s else None
  end.

Section Expiry.
Context (parse_rfc3339 : string -> option Z).

Definition parseTime (raw : string) : option Z :=
  let raw := TrimSpace raw in
  if raw =s? "" then None
  else match parse_rfc3339 raw with
       | Some ts => Some ts
       | None => (fun s => s * ns_second)%Z <$> parse_unix 0 raw
       end.

(** The status, and the error returned beside it. *)
Definition ExpiryPhase (c : Claims) (now : Z) : ExpiryStatus * option LicenseError :=
  let sso := claims_feature c "sso" || claims_feature c "saml" in
  let ts := TrimSpace (cl_ExpiresAt c) in
  if ts =s? "" then (mkExpiryStatus ExpiryStateValid 0 None None sso, None)
  else match parseTime ts with
       | None => (mkExpiryStatus ExpiryStateValid 0 None None sso, Some ErrLicenseWindowInvalid)
       | Some expiresAt =>
           if (expiresAt <? now)%Z then
             let graceDays := EffectiveGraceDays c in
             let graceEndsAt := (expiresAt + graceDays * day)%Z in
             if (0 <? graceDays)%Z && negb (graceEndsAt <? now)%Z
             then (mkExpiryStatus ExpiryStateGrace (remainingDays now graceEndsAt) (Some expiresAt) (Some graceEndsAt) sso, None)
             else (mkExpiryStatus ExpiryStateDegraded 0 (Some expiresAt) (Some graceEndsAt) sso, Some ErrLicenseExpired)
           else
             let days := remainingDays now expiresAt in
             (mkExpiryStatus (if inWarningWindow days then ExpiryStateWarning else ExpiryStateValid)
                days (Some expiresAt) None sso, None)
       end.

(** The status, whether the licence is in its grace window, and the error. *)
Definition ValidateWindow (c : Claims) (now : Z) : ExpiryStatus * bool * option LicenseError :=
  let phase := let '(status, err) := ExpiryPhase c now in
               if bool_decide (es_State status = ExpiryStateGrace) then (status, true, None) else (status, false, err) in
  let zero := mkExpiryStatus ExpiryStateValid 0 None None false in
  let ts := TrimSpace (cl_NotBefore c) in
  if ts =s? "" then phase
  else match parseTime ts with
       | None => (zero, false, Some ErrLicenseWindowInvalid)
       | Some notBefore => if (now <? notBefore)%Z then (zero, false, Some ErrLicenseNotActive) else phase
       end.

Definition EffectiveEntitlements (status : ExpiryStatus) (current : Entitlements) : Entitlements :=
  if bool_decide (es_State status = ExpiryStateDegraded) then DefaultEntitlements PlanCommunity else current.

Definition BreakGlassAdminRequired (status : ExpiryStatus) : bool :=
  bool_decide (es_State status = ExpiryStateDegraded) && es_SSOConfigured status.

(** ** The resolver *)

(** What the resolver holds. *)
Record Snapshot := mkSnapshot {
  sn_Plan : Plan;
  sn_Entitlements : Entitlements;
  sn_Status : string;
}.

Definition licenseStatus (s : ExpiryState) : string :=
  match s with
  | ExpiryStateWarning => "warning" | ExpiryStateGrace => "grace"
  | ExpiryStateDegraded => "degraded" | ExpiryStateValid => "active"
  end.

(** What loading the licence gave: a load error, no licence, or the claims with
    whether a public key could be loaded and the signature verified. *)
Inductive Loaded :=
| LoadError
| NoLicense
| LoadedLicense (c : Claims) (key_ok signature_ok : bool).

Definition storeCommunityFallback (status : string) : Snapshot :=
  mkSnapshot PlanCommunity (DefaultEntitlements PlanCommunity) status.

Definition zero_entitlements : Entitlements :=
  mkEntitlements "" "" 0 0 0 0 0 0 0 0 0 0 0 0 false false false false false false false false false false false
    None None None.

Definition Init (loaded : Loaded) (now : Z) : Snapshot :=
  match loaded with
  | LoadError => storeCommunityFallback "fallback"
  | NoLicense => storeCommunityFallback "active"
  | LoadedLicense c key_ok signature_ok =>
      if negb key_ok then storeCommunityFallback "fallback"
      else if negb signature_ok then storeCommunityFallback "fallback"
      else match ValidateWindow c now with
           | (_, _, Some _) => storeCommunityFallback "fallback"
           | (status, _, None) =>
               let plan := ParsePlan (TrimSpace (cl_Plan c)) in
               mkSnapshot plan
                 (mergeEntitlements (DefaultEntitlements plan) (default zero_entitlements (cl_Entitlements c)))
                 (licenseStatus (es_State status))
           end
  end.

End Expiry.

(** ** Break-glass permissions *)

Inductive BreakGlassState : Set :=
| BreakGlassStateValid | BreakGlassStateGrace | BreakGlassStateDegraded | BreakGlassStateInvalid.

Definition NormalizeBreakGlassState (raw : string) : BreakGlassState :=
  let s := TrimSpace (ToLower raw) in
  if existsb (String.eqb s) [""; "active"; "valid"; "warning"] then BreakGlassStateValid
  else if s =s? "grace" then BreakGlassStateGrace
  else if s =s? "degraded" then BreakGlassStateDegraded
  else BreakGlassStateInvalid.

Definition IsAllowedUnderLicenseState (state : BreakGlassState) (permission : string) : bool :=
  let permission := TrimSpace (ToLower permission) in
  if permission =s? "" then true else
  match state with
  | BreakGlassStateValid => true
  | BreakGlassStateGrace =>
      HasPrefix permission "auth." || HasSuffix permission ".read"
      || existsb (String.eqb permission)
           ["license.rotate"; "system.health"; "system.status"; "audit.export"; "audit.verify"; "telemetry.export";
            "mcp.verify"; "packs.verify"]
  | BreakGlassStateDegraded | BreakGlassStateInvalid =>
      existsb (String.eqb permission) ["license.rotate"; "auth.login"; "auth.session"; "system.health"]
  end.

(** * Theorems *)

(** ** Limits *)

(** Whether a limit admits a use. *)
Definition admits (limit current : Z) : Prop := limit = Unlimited \/ (current <= limit)%Z.

Lemma checkNumericLimit_iff l current allowed : checkNumericLimit l current allowed = None <-> admits allowed current.
Proof.
  unfold checkNumericLimit, admits, Unlimited. destruct (allowed =? -1)%Z eqn:E1; cbn; [split; [lia|done]|].
  destruct (current <=? allowed)%Z eqn:E2; split; [lia|done|done|lia].
Qed.

Lemma merge_limit_admits o k dst src current :
  (0 <= current)%Z -> (wasSet o k = false -> (-1 <= dst)%Z /\ (-1 <= src)%Z) ->
  admits (merge_limit o k dst src) current <->
  (if wasSet o k then admits src current else admits dst current \/ admits src current).
Proof.
  unfold merge_limit, mergeLimitValues, admits, Unlimited. intros Hc Hr. destruct (wasSet o k); [done|].
  destruct (Hr eq_refl). destruct (dst =? -1)%Z eqn:E1, (src =? -1)%Z eqn:E2; cbn; try lia.
  destruct (dst <? src)%Z eqn:E3; lia.
Qed.

(** The limits of a licence.  For every numeric limit and every non-negative
    use, the merged entitlements admit the use exactly when: the claim admits it,
    for a limit the claim sets explicitly (so a claim may restrict below the plan,
    zero included); the plan or the claim admits it otherwise. *)
Theorem license_limits_exact (plan : Plan) (claim : Entitlements) (key : string) (field : Entitlements -> Z) (current : Z) :
  (key, field) ∈ limit_fields -> (0 <= current)%Z -> (-1 <= field claim)%Z ->
  admits (field (mergeEntitlements (DefaultEntitlements plan) claim)) current <->
  (if wasSet claim key then admits (field claim) current
   else admits (field (DefaultEntitlements plan)) current \/ admits (field claim) current).
Proof.
  intros Hin Hc Hf. assert (-1 <= field (DefaultEntitlements plan))%Z as Hd.
  { unfold limit_fields in Hin. destruct plan; set_unfold; destruct_or!; simplify_eq; unfold Unlimited in *; vm_compute; congruence. }
  unfold limit_fields in Hin. set_unfold. destruct_or!; simplify_eq; by apply merge_limit_admits.
Qed.

Definition five_workers : Entitlements :=
  mkEntitlements "" "" 5 0 0 0 0 0 0 0 0 0 0 0 false false false false false false false false false false false
    None None (Some {["max_workers"]}).

Lemma license_limits_exact_witness :
  ~ admits (en_MaxWorkers (mergeEntitlements (DefaultEntitlements PlanTeam) five_workers)) 6.
Proof.
  intros H. apply (license_limits_exact PlanTeam five_workers "max_workers" en_MaxWorkers 6) in H;
    [|set_solver|lia|cbn; lia].
  vm_compute in H. destruct H as [H|H]; [discriminate H|by apply H].
Defined.

(** ** Fail closed *)

(** The licence resolver fails closed.  Whatever was loaded, the installation
    gets the community entitlements unless a licence was loaded with a public key,
    its signature verified, and it is inside its window or its grace period at
    this time; and a licence past its grace period always falls back. *)
Theorem resolver_fails_closed (parse : string -> option Z) (loaded : Loaded) (now : Z) :
  sn_Entitlements (Init parse loaded now) = DefaultEntitlements PlanCommunity \/
  exists c, loaded = LoadedLicense c true true /\
    snd (ValidateWindow parse c now) = None /\
    (forall t, parseTime parse (TrimSpace (cl_ExpiresAt c)) = Some t ->
               TrimSpace (cl_ExpiresAt c) <> "" -> (now <= t + EffectiveGraceDays c * day)%Z).
Proof.
  destruct loaded as [| |c [] []]; cbn; auto. destruct (ValidateWindow parse c now) as [[st g] [e|]] eqn:E; auto.
  right. exists c. rewrite E. split_and!; [done..|]. intros t Ht Hne.
  assert (es_State (fst (ExpiryPhase parse c now)) = ExpiryStateGrace \/ snd (ExpiryPhase parse c now) = None) as Hp.
  { revert E. unfold ValidateWindow. destruct (ExpiryPhase parse c now) as [st' e'].
    destruct (TrimSpace (cl_NotBefore c) =s? "") eqn:?.
    - case_bool_decide; intros; simplify_eq; auto.
    - destruct (parseTime parse (TrimSpace (cl_NotBefore c))); [|done]. destruct (_ <? _)%Z; [done|].
      case_bool_decide; intros; simplify_eq; auto. }
  revert Hp. unfold ExpiryPhase. rewrite (eqb_ne _ _ Hne), Ht. assert (0 <= EffectiveGraceDays c)%Z.
  { unfold EffectiveGraceDays, defaultGraceDays. destruct (cl_GraceDays c); repeat case_match; lia. }
  destruct (t <? now)%Z eqn:E1; cbn; [|unfold day, ns_second; nia].
  destruct (0 <? EffectiveGraceDays c)%Z, (t + EffectiveGraceDays c * day <? now)%Z eqn:E2; cbn; intros [?|?]; try done; lia.
Qed.

(** ** The phases of a licence *)

Definition phase_rank (s : ExpiryState) : Z :=
  match s with ExpiryStateValid => 0 | ExpiryStateWarning => 1 | ExpiryStateGrace => 2 | ExpiryStateDegraded => 3 end.

Lemma remainingDays_near now target :
  (now < target <= now + 200 * 365 * day)%Z ->
  remainingDays now target = ((target - now + day - 1) / day)%Z.
Proof.
  intros Hr. unfold remainingDays, time_sub. rewrite (proj2 (Z.ltb_lt now target)) by lia. cbn [negb].
  unfold int64_min, int64_max. rewrite wrap64_id by (unfold int64_min, int64_max, day, ns_second in *; lia).
  rewrite Z.quot_div_nonneg by (unfold day, ns_second in *; lia). f_equal. unfold day, ns_second in *; lia.
Qed.

(** A duration of more than thirty days is outside the warning window, also when
    rounding it up overflows. *)
Lemma warning_far d : (31 * day <= d <= int64_max)%Z -> inWarningWindow (Z.quot (wrap64 (d + day - 1)) day) = false.
Proof.
  intros Hd. unfold inWarningWindow. destruct (decide (d + day - 1 <= int64_max)%Z).
  - rewrite wrap64_id by (unfold int64_min, int64_max, day, ns_second in *; lia).
    rewrite Z.quot_div_nonneg by (unfold int64_max, day, ns_second in *; lia).
    assert (31 <= (d + day - 1) / day)%Z by (apply Z.div_le_lower_bound; unfold day, ns_second in *; lia).
    destruct (_ <=? 0)%Z eqn:?; [done|]. apply Z.leb_gt. lia.
  - assert (wrap64 (d + day - 1) = d + day - 1 - 2 ^ 64)%Z as ->.
    { unfold wrap64. replace (d + day - 1 + 2 ^ 63)%Z with (d + day - 1 + 2 ^ 63 - 2 ^ 64 + 1 * 2 ^ 64)%Z by lia.
      rewrite Z.mod_add by lia. rewrite Z.mod_small; unfold int64_max, day, ns_second in *; lia. }
    assert (Z.quot (d + day - 1 - 2 ^ 64) day <= 0)%Z as Hq.
    { rewrite <- (Z.opp_involutive (d + day - 1 - 2 ^ 64)), Z.quot_opp_l by (unfold day, ns_second; lia).
      apply Z.opp_nonpos_nonneg, Z.quot_pos; unfold int64_max, day, ns_second in *; lia. }
    by rewrite (proj2 (Z.leb_le _ _)).
Qed.

Lemma warning_iff now target :
  (now <= target)%Z -> inWarningWindow (remainingDays now target) = bool_decide (now < target <= now + 30 * day)%Z.
Proof.
  intros Hle. destruct (decide (target <= now + 200 * 365 * day)%Z) as [Hn|Hf].
  - unfold inWarningWindow. destruct (decide (now = target)) as [->|].
    + unfold remainingDays. rewrite Z.ltb_irrefl. cbn. symmetry. apply bool_decide_eq_false. lia.
    + rewrite remainingDays_near by lia.
      assert (0 < (target - now + day - 1) / day)%Z by (apply Z.div_str_pos; unfold day, ns_second; lia).
      rewrite (proj2 (Z.leb_gt _ _)) by lia.
      assert ((target - now + day - 1) / day <= 30 <-> target <= now + 30 * day)%Z as Hiff.
      { split; intros Hd.
        - pose proof (Z.mul_succ_div_gt (target - now + day - 1) day ltac:(unfold day, ns_second; lia)).
          unfold day, ns_second in *. lia.
        - apply Z.lt_succ_r. apply Z.div_lt_upper_bound; unfold day, ns_second in *; lia. }
      case_bool_decide; [apply Z.leb_le|apply Z.leb_gt]; lia.
  - rewrite bool_decide_eq_false_2 by (unfold day, ns_second in *; lia).
    unfold remainingDays. rewrite (proj2 (Z.ltb_lt now target)) by (unfold day, ns_second in *; lia).
    apply warning_far. unfold time_sub, int64_min, int64_max, day, ns_second in *. lia.
Qed.

Lemma ExpiryPhase_rank parse c now t :
  TrimSpace (cl_ExpiresAt c) <> "" -> parseTime parse (TrimSpace (cl_ExpiresAt c)) = Some t ->
  phase_rank (es_State (fst (ExpiryPhase parse c now))) =
  (if bool_decide (t + EffectiveGraceDays c * day < now) then 3
   else if bool_decide (t < now) then 2
   else if bool_decide (t < now + 30 * day \/ t = now + 30 * day) && bool_decide (now < t) then 1 else 0)%Z.
Proof.
  intros Hne Ht. unfold ExpiryPhase. rewrite (eqb_ne _ _ Hne), Ht.
  assert (0 <= EffectiveGraceDays c)%Z.
  { unfold EffectiveGraceDays, defaultGraceDays. destruct (cl_GraceDays c); repeat case_match; lia. }
  assert (0 < day)%Z by (unfold day, ns_second; lia).
  destruct (t <? now)%Z eqn:E1.
  - destruct (0 <? EffectiveGraceDays c)%Z eqn:E2, (t + EffectiveGraceDays c * day <? now)%Z eqn:E3; cbn;
      repeat case_bool_decide; try lia; nia.
  - cbn. rewrite warning_iff by lia. repeat case_bool_decide; cbn; try lia; try nia.
Qed.

(** The phases of a licence only move forward.  As time passes, a licence
    with a readable expiry goes from valid to warning (within thirty days of the
    expiry), to grace (after it), to degraded (after the grace period), and never
    back, except that at the very instant of the expiry no day is left and the
    licence reads as valid; it is in grace exactly from the expiry to the end of
    the grace period and degraded exactly after it. *)
Theorem expiry_phases_advance (parse : string -> option Z) (c : Claims) (t now later : Z) :
  TrimSpace (cl_ExpiresAt c) <> "" -> parseTime parse (TrimSpace (cl_ExpiresAt c)) = Some t ->
  (now <= later)%Z -> later <> t ->
  let phase at_ := es_State (fst (ExpiryPhase parse c at_)) in
  (phase_rank (phase now) <= phase_rank (phase later))%Z /\
  (phase now = ExpiryStateGrace <-> (t < now <= t + EffectiveGraceDays c * day)%Z) /\
  (phase now = ExpiryStateDegraded <-> (t + EffectiveGraceDays c * day < now)%Z).
Proof.
  intros Hne Ht Hle Hlt. cbv zeta.
  assert (0 <= EffectiveGraceDays c * day)%Z.
  { apply Z.mul_nonneg_nonneg; [|unfold day, ns_second; lia].
    unfold EffectiveGraceDays, defaultGraceDays. destruct (cl_GraceDays c); repeat case_match; lia. }
  pose proof (ExpiryPhase_rank parse c now t Hne Ht) as R1.
  pose proof (ExpiryPhase_rank parse c later t Hne Ht) as R2.
  assert (0 < 30 * day)%Z by (unfold day, ns_second; lia).
  split_and!.
  - rewrite R1, R2. repeat case_bool_decide; cbn; lia.
  - destruct (es_State (fst (ExpiryPhase parse c now))); cbn in R1; revert R1;
      repeat case_bool_decide; cbn; intros; split; intros; try done; try lia.
  - destruct (es_State (fst (ExpiryPhase parse c now))); cbn in R1; revert R1;
      repeat case_bool_decide; cbn; intros; split; intros; try done; try lia.
Qed.

Definition year2000 : Z := 946684800 * ns_second.

Lemma expiry_phases_advance_witness :
  let c := mkClaims "" "" "team" None "" "946684800" None in
  es_State (fst (ExpiryPhase (fun _ => None) c (year2000 + day))) = ExpiryStateGrace.
Proof.
  cbv zeta. apply (expiry_phases_advance (fun _ => None) _ year2000 _ (year2000 + day)); [discriminate|reflexivity|lia|unfold day, ns_second; lia|].
  vm_compute. split; [reflexivity|discriminate].
Defined.

(** At the instant of its expiry a licence is valid again, without a warning. *)
Theorem expiry_instant_valid :
  let c := mkClaims "" "" "team" None "" "946684800" None in
  es_State (fst (ExpiryPhase (fun _ => None) c (year2000 - 1))) = ExpiryStateWarning /\
  es_State (fst (ExpiryPhase (fun _ => None) c year2000)) = ExpiryStateValid.
Proof. vm_compute. split; reflexivity. Qed.

(** A licence that expires in the year 9999 has a negative number of days left:
    the difference saturates at the range of a duration and rounding it up to
    whole days overflows. *)
Theorem far_expiry_negative_days :
  let expires := 253402300799%Z in
  let c := mkClaims "" "" "enterprise" None "" (Itoa expires) None in
  es_DaysRemaining (fst (ExpiryPhase (fun _ => None) c year2000)) = (-106750)%Z.
Proof. vm_compute. reflexivity. Qed.

(** ** Break glass *)

(** The break-glass permissions shrink with the licence.  What is allowed
    under a degraded or invalid licence is allowed in the grace period, and what
    is allowed there is allowed under a valid licence; an invalid licence allows
    what a degraded one does. *)
Theorem break_glass_shrinks (permission : string) :
  (IsAllowedUnderLicenseState BreakGlassStateDegraded permission = true ->
   IsAllowedUnderLicenseState BreakGlassStateGrace permission = true) /\
  (IsAllowedUnderLicenseState BreakGlassStateGrace permission = true ->
   IsAllowedUnderLicenseState BreakGlassStateValid permission = true) /\
  IsAllowedUnderLicenseState BreakGlassStateInvalid permission =
    IsAllowedUnderLicenseState BreakGlassStateDegraded permission.
Proof.
  unfold IsAllowedUnderLicenseState. set (p := TrimSpace (ToLower permission)). destruct (p =s? ""); [done|].
  split_and!; [|done..]. intros (x & Hx & E)%existsb_exists. apply String.eqb_eq in E as ->.
  cbn in Hx. by destruct Hx as [<-|[<-|[<-|[<-|[]]]]].
Qed.
