(* ===== verification/WorkflowModels.v ===== *)
(** * The workflow data model

    core/workflow/models.go: workflow definitions, runs and step runs, and the
    parts of [pb.JobRequest] and [pb.JobResult] the engine fills and reads.

    A Go map that is only read through its zero value is an association list or
    a [gmap] with [nil] as the empty one; [st_Input], [sr_Error] and [run_Context]
    tell [nil] from empty, as the code does.  [Run.Steps] maps a step id to its step run.
    A child entry of a step run is a pointer: [ChildShared] is one to the same
    object as [Run.Steps] has under the same key, which is how the engine links
    children ([parent.Children[id] = child; run.Steps[id] = child]); [ChildOwn] is
    an object of its own, as after reading a run back from redis.  Values inside
    contexts and outputs are immutable trees: two paths that hold the same Go map
    are two copies of it here. *)
From S2P Require Import Prelude.
From S2P Require Import GoStrings.
From S2P Require Import PolicyTypes.
From S2P Require Import GoValues.

Open Scope string_scope.

(** ** Enumerations *)

Inductive StepType : Set :=
| StepTypeWorker | StepTypeApproval | StepTypeCondition | StepTypeDelay | StepTypeNotify
| StepTypeSwitch | StepTypeParallel | StepTypeLoop | StepTypeTransform | StepTypeStorage
| StepTypeSubWorkflow
| StepTypeGeneric (name : string).

Inductive RunStatus : Set :=
| RunStatusPending | RunStatusRunning | RunStatusWaiting | RunStatusSucceeded
| RunStatusFailed | RunStatusDenied | RunStatusCancelled | RunStatusTimedOut.

(** [StepStatusNone] is the zero value [""]. *)
Inductive StepStatus : Set :=
| StepStatusNone | StepStatusPending | StepStatusRunning | StepStatusWaiting
| StepStatusSucceeded | StepStatusFailed | StepStatusDenied | StepStatusCancelled
| StepStatusTimedOut | StepStatusSkipped.

#[export] Instance StepType_eq_dec : EqDecision StepType.
Proof. solve_decision. Defined.
#[export] Instance RunStatus_eq_dec : EqDecision RunStatus.
Proof. solve_decision. Defined.
#[export] Instance StepStatus_eq_dec : EqDecision StepStatus.
Proof. solve_decision. Defined.

Definition string_of_run_status (s : RunStatus) : string :=
  match s with
  | RunStatusPending => "pending" | RunStatusRunning => "running"
  | RunStatusWaiting => "waiting" | RunStatusSucceeded => "succeeded"
  | RunStatusFailed => "failed" | RunStatusDenied => "denied"
  | RunStatusCancelled => "cancelled" | RunStatusTimedOut => "timed_out"
  end.

Definition string_of_step_status (s : StepStatus) : string :=
  match s with
  | StepStatusNone => "" | StepStatusPending => "pending" | StepStatusRunning => "running"
  | StepStatusWaiting => "waiting" | StepStatusSucceeded => "succeeded"
  | StepStatusFailed => "failed" | StepStatusDenied => "denied"
  | StepStatusCancelled => "cancelled" | StepStatusTimedOut => "timed_out"
  | StepStatusSkipped => "skipped"
  end.

(** [pb.JobStatus]. *)
Inductive JobStatus : Set :=
| JOB_STATUS_UNSPECIFIED | JOB_STATUS_PENDING | JOB_STATUS_SCHEDULED | JOB_STATUS_DISPATCHED
| JOB_STATUS_RUNNING | JOB_STATUS_SUCCEEDED | JOB_STATUS_FAILED | JOB_STATUS_CANCELLED
| JOB_STATUS_TIMEOUT | JOB_STATUS_DENIED | JOB_STATUS_FAILED_RETRYABLE | JOB_STATUS_FAILED_FATAL.

#[export] Instance JobStatus_eq_dec : EqDecision JobStatus.
Proof. solve_decision. Defined.

(** ** Definitions *)

Record RetryConfig := mkRetryConfig {
  MaxRetries : Z;
  InitialBackoffSec : Z;
  MaxBackoffSec : Z;
  Multiplier : spec_float;
}.

Record StepMeta := mkStepMeta {
  sm_ActorId : string;
  sm_ActorType : string;
  sm_IdempotencyKey : string;
  sm_PackId : string;
  sm_Capability : string;
  sm_RiskTags : list string;
  sm_Requires : list string;
  sm_Labels : gmap string string;
}.

Record Step := mkStep {
  st_ID : string;
  st_Name : string;
  st_Type : StepType;
  st_WorkerID : string;
  st_Topic : string;
  st_DependsOn : list string;
  st_Condition : string;
  st_ForEach : string;
  st_MaxParallel : Z;
  st_Input : option amap;
  st_InputSchema : amap;
  st_InputSchemaID : string;
  st_OutputPath : string;
  st_ResultDataPath : string;
  st_OutputSchema : amap;
  st_OutputSchemaID : string;
  st_Meta : option StepMeta;
  st_OnError : string;
  st_Retry : option RetryConfig;
  st_TimeoutSec : Z;
  st_DelaySec : Z;
  st_DelayUntil : string;
  st_RouteLabels : gmap string string;
  st_PolicyGate : string;
}.

(** A worker step with nothing configured, to build examples from. *)
Definition plain_step (id : string) (ty : StepType) (deps : list string) (onError : string) : Step :=
  mkStep id "" ty "" "" deps "" "" 0 None [] "" "" "" [] "" None onError None 0 0 "" ∅ "".

Definition set_st_Input (v : option amap) (s : Step) : Step :=
  mkStep (st_ID s) (st_Name s) (st_Type s) (st_WorkerID s) (st_Topic s) (st_DependsOn s)
    (st_Condition s) (st_ForEach s) (st_MaxParallel s) v (st_InputSchema s) (st_InputSchemaID
    s) (st_OutputPath s) (st_ResultDataPath s) (st_OutputSchema s) (st_OutputSchemaID s)
    (st_Meta s) (st_OnError s) (st_Retry s) (st_TimeoutSec s) (st_DelaySec s) (st_DelayUntil s)
    (st_RouteLabels s) (st_PolicyGate s).

Definition set_st_Condition (v : string) (s : Step) : Step :=
  mkStep (st_ID s) (st_Name s) (st_Type s) (st_WorkerID s) (st_Topic s) (st_DependsOn s) v
    (st_ForEach s) (st_MaxParallel s) (st_Input s) (st_InputSchema s) (st_InputSchemaID s)
    (st_OutputPath s) (st_ResultDataPath s) (st_OutputSchema s) (st_OutputSchemaID s) (st_Meta
    s) (st_OnError s) (st_Retry s) (st_TimeoutSec s) (st_DelaySec s) (st_DelayUntil s)
    (st_RouteLabels s) (st_PolicyGate s).

Definition set_st_ForEach (v : string) (s : Step) : Step :=
  mkStep (st_ID s) (st_Name s) (st_Type s) (st_WorkerID s) (st_Topic s) (st_DependsOn s)
    (st_Condition s) v (st_MaxParallel s) (st_Input s) (st_InputSchema s) (st_InputSchemaID s)
    (st_OutputPath s) (st_ResultDataPath s) (st_OutputSchema s) (st_OutputSchemaID s) (st_Meta
    s) (st_OnError s) (st_Retry s) (st_TimeoutSec s) (st_DelaySec s) (st_DelayUntil s)
    (st_RouteLabels s) (st_PolicyGate s).

Definition set_st_MaxParallel (v : Z) (s : Step) : Step :=
  mkStep (st_ID s) (st_Name s) (st_Type s) (st_WorkerID s) (st_Topic s) (st_DependsOn s)
    (st_Condition s) (st_ForEach s) v (st_Input s) (st_InputSchema s) (st_InputSchemaID s)
    (st_OutputPath s) (st_ResultDataPath s) (st_OutputSchema s) (st_OutputSchemaID s) (st_Meta
    s) (st_OnError s) (st_Retry s) (st_TimeoutSec s) (st_DelaySec s) (st_DelayUntil s)
    (st_RouteLabels s) (st_PolicyGate s).

Definition set_st_Retry (v : option RetryConfig) (s : Step) : Step :=
  mkStep (st_ID s) (st_Name s) (st_Type s) (st_WorkerID s) (st_Topic s) (st_DependsOn s)
    (st_Condition s) (st_ForEach s) (st_MaxParallel s) (st_Input s) (st_InputSchema s)
    (st_InputSchemaID s) (st_OutputPath s) (st_ResultDataPath s) (st_OutputSchema s)
    (st_OutputSchemaID s) (st_Meta s) (st_OnError s) v (st_TimeoutSec s) (st_DelaySec s)
    (st_DelayUntil s) (st_RouteLabels s) (st_PolicyGate s).

Definition set_st_OutputPath (v : string) (s : Step) : Step :=
  mkStep (st_ID s) (st_Name s) (st_Type s) (st_WorkerID s) (st_Topic s) (st_DependsOn s)
    (st_Condition s) (st_ForEach s) (st_MaxParallel s) (st_Input s) (st_InputSchema s)
    (st_InputSchemaID s) v (st_ResultDataPath s) (st_OutputSchema s) (st_OutputSchemaID s)
    (st_Meta s) (st_OnError s) (st_Retry s) (st_TimeoutSec s) (st_DelaySec s) (st_DelayUntil s)
    (st_RouteLabels s) (st_PolicyGate s).

Record Workflow := mkWorkflow {
  wf_ID : string;
  wf_OrgID : string;
  wf_TeamID : string;
  wf_Name : string;
  wf_Description : string;
  wf_Version : string;
  wf_TimeoutSec : Z;
  wf_Steps : gmap string Step;
  wf_Config : amap;
  wf_InputSchema : amap;
  wf_Parameters : list amap;
  wf_PolicyOverride : string;
  wf_CreatedBy : string;
  wf_CreatedAt : Z;
  wf_UpdatedAt : Z;
}.

Definition plain_workflow (id : string) (timeout : Z) (steps : list Step) : Workflow :=
  mkWorkflow id "" "" "" "" "" timeout (list_to_map (map (fun s => (st_ID s, s)) steps)) [] [] [] "" "" 0 0.

(** ** Runs *)

(** [*pb.IdentityBinding]: the fields the engine compares. *)
Record IdentityBinding := mkIdentityBinding {
  ib_TenantId : string;
  ib_PrincipalId : string;
  ib_ActorId : string;
  ib_DelegationId : string;
}.

#[export] Instance IdentityBinding_eq_dec : EqDecision IdentityBinding.
Proof. solve_decision. Defined.

(** The pointer under a key of [StepRun.Children]. *)
Inductive child_ref (A : Type) : Type :=
| ChildShared
| ChildOwn (a : A).
Arguments ChildShared {A}.
Arguments ChildOwn {A} a.

#[warnings="-register-all"]
Inductive StepRun := mkStepRun {
  sr_StepID : string;
  sr_Status : StepStatus;
  sr_StartedAt : option Z;
  sr_CompletedAt : option Z;
  sr_NextAttemptAt : option Z;
  sr_Attempts : Z;
  sr_Input : amap;
  sr_Output : any;
  sr_Error : option amap;
  sr_JobID : string;
  sr_Item : any;
  sr_Children : list (string * child_ref StepRun);
  sr_ResolvedItems : option (list any);
  sr_SkipReason : string;
  sr_AuditHash : string;
}.

(** [&StepRun{StepID: id}] and [&StepRun{StepID: id, Status: s}]. *)
Definition new_step_run_status (id : string) (s : StepStatus) : StepRun :=
  mkStepRun id s None None None 0 [] AnyNil None "" AnyNil [] None "" "".
Definition new_step_run (id : string) : StepRun := new_step_run_status id StepStatusNone.

Definition set_sr_Status (v : StepStatus) (s : StepRun) : StepRun :=
  mkStepRun (sr_StepID s) v (sr_StartedAt s) (sr_CompletedAt s) (sr_NextAttemptAt s)
    (sr_Attempts s) (sr_Input s) (sr_Output s) (sr_Error s) (sr_JobID s) (sr_Item s)
    (sr_Children s) (sr_ResolvedItems s) (sr_SkipReason s) (sr_AuditHash s).

Definition set_sr_StartedAt (v : option Z) (s : StepRun) : StepRun :=
  mkStepRun (sr_StepID s) (sr_Status s) v (sr_CompletedAt s) (sr_NextAttemptAt s) (sr_Attempts
    s) (sr_Input s) (sr_Output s) (sr_Error s) (sr_JobID s) (sr_Item s) (sr_Children s)
    (sr_ResolvedItems s) (sr_SkipReason s) (sr_AuditHash s).

Definition set_sr_CompletedAt (v : option Z) (s : StepRun) : StepRun :=
  mkStepRun (sr_StepID s) (sr_Status s) (sr_StartedAt s) v (sr_NextAttemptAt s) (sr_Attempts s)
    (sr_Input s) (sr_Output s) (sr_Error s) (sr_JobID s) (sr_Item s) (sr_Children s)
    (sr_ResolvedItems s) (sr_SkipReason s) (sr_AuditHash s).

Definition set_sr_NextAttemptAt (v : option Z) (s : StepRun) : StepRun :=
  mkStepRun (sr_StepID s) (sr_Status s) (sr_StartedAt s) (sr_CompletedAt s) v (sr_Attempts s)
    (sr_Input s) (sr_Output s) (sr_Error s) (sr_JobID s) (sr_Item s) (sr_Children s)
    (sr_ResolvedItems s) (sr_SkipReason s) (sr_AuditHash s).

Definition set_sr_Attempts (v : Z) (s : StepRun) : StepRun :=
  mkStepRun (sr_StepID s) (sr_Status s) (sr_StartedAt s) (sr_CompletedAt s) (sr_NextAttemptAt
    s) v (sr_Input s) (sr_Output s) (sr_Error s) (sr_JobID s) (sr_Item s) (sr_Children s)
    (sr_ResolvedItems s) (sr_SkipReason s) (sr_AuditHash s).

Definition set_sr_Input (v : amap) (s : StepRun) : StepRun :=
  mkStepRun (sr_StepID s) (sr_Status s) (sr_StartedAt s) (sr_CompletedAt s) (sr_NextAttemptAt
    s) (sr_Attempts s) v (sr_Output s) (sr_Error s) (sr_JobID s) (sr_Item s) (sr_Children s)
    (sr_ResolvedItems s) (sr_SkipReason s) (sr_AuditHash s).

Definition set_sr_Output (v : any) (s : StepRun) : StepRun :=
  mkStepRun (sr_StepID s) (sr_Status s) (sr_StartedAt s) (sr_CompletedAt s) (sr_NextAttemptAt
    s) (sr_Attempts s) (sr_Input s) v (sr_Error s) (sr_JobID s) (sr_Item s) (sr_Children s)
    (sr_ResolvedItems s) (sr_SkipReason s) (sr_AuditHash s).

Definition set_sr_Error (v : option amap) (s : StepRun) : StepRun :=
  mkStepRun (sr_StepID s) (sr_Status s) (sr_StartedAt s) (sr_CompletedAt s) (sr_NextAttemptAt
    s) (sr_Attempts s) (sr_Input s) (sr_Output s) v (sr_JobID s) (sr_Item s) (sr_Children s)
    (sr_ResolvedItems s) (sr_SkipReason s) (sr_AuditHash s).

Definition set_sr_JobID (v : string) (s : StepRun) : StepRun :=
  mkStepRun (sr_StepID s) (sr_Status s) (sr_StartedAt s) (sr_CompletedAt s) (sr_NextAttemptAt
    s) (sr_Attempts s) (sr_Input s) (sr_Output s) (sr_Error s) v (sr_Item s) (sr_Children s)
    (sr_ResolvedItems s) (sr_SkipReason s) (sr_AuditHash s).

Definition set_sr_Item (v : any) (s : StepRun) : StepRun :=
  mkStepRun (sr_StepID s) (sr_Status s) (sr_StartedAt s) (sr_CompletedAt s) (sr_NextAttemptAt
    s) (sr_Attempts s) (sr_Input s) (sr_Output s) (sr_Error s) (sr_JobID s) v (sr_Children s)
    (sr_ResolvedItems s) (sr_SkipReason s) (sr_AuditHash s).

Definition set_sr_Children (v : list (string * child_ref StepRun)) (s : StepRun) : StepRun :=
  mkStepRun (sr_StepID s) (sr_Status s) (sr_StartedAt s) (sr_CompletedAt s) (sr_NextAttemptAt
    s) (sr_Attempts s) (sr_Input s) (sr_Output s) (sr_Error s) (sr_JobID s) (sr_Item s) v
    (sr_ResolvedItems s) (sr_SkipReason s) (sr_AuditHash s).

Definition set_sr_ResolvedItems (v : option (list any)) (s : StepRun) : StepRun :=
  mkStepRun (sr_StepID s) (sr_Status s) (sr_StartedAt s) (sr_CompletedAt s) (sr_NextAttemptAt
    s) (sr_Attempts s) (sr_Input s) (sr_Output s) (sr_Error s) (sr_JobID s) (sr_Item s)
    (sr_Children s) v (sr_SkipReason s) (sr_AuditHash s).

Definition set_sr_SkipReason (v : string) (s : StepRun) : StepRun :=
  mkStepRun (sr_StepID s) (sr_Status s) (sr_StartedAt s) (sr_CompletedAt s) (sr_NextAttemptAt
    s) (sr_Attempts s) (sr_Input s) (sr_Output s) (sr_Error s) (sr_JobID s) (sr_Item s)
    (sr_Children s) (sr_ResolvedItems s) v (sr_AuditHash s).

Definition set_sr_AuditHash (v : string) (s : StepRun) : StepRun :=
  mkStepRun (sr_StepID s) (sr_Status s) (sr_StartedAt s) (sr_CompletedAt s) (sr_NextAttemptAt
    s) (sr_Attempts s) (sr_Input s) (sr_Output s) (sr_Error s) (sr_JobID s) (sr_Item s)
    (sr_Children s) (sr_ResolvedItems s) (sr_SkipReason s) v.

(** A run.  [TotalCost], which no code of the package reads or writes, is left out. *)
Record WorkflowRun := mkWorkflowRun {
  run_ID : string;
  run_WorkflowID : string;
  run_OrgID : string;
  run_TeamID : string;
  run_Input : amap;
  run_Context : option amap;
  run_Status : RunStatus;
  run_StartedAt : option Z;
  run_CompletedAt : option Z;
  run_Output : amap;
  run_Error : amap;
  run_Steps : gmap string StepRun;
  run_TriggeredBy : string;
  run_Identity : option IdentityBinding;
  run_CreatedAt : Z;
  run_UpdatedAt : Z;
  run_Labels : gmap string string;
  run_Metadata : gmap string string;
  run_IdempotencyKey : string;
  run_RerunOf : string;
  run_RerunStep : string;
  run_DryRun : bool;
}.

Definition set_run_Context (v : option amap) (r : WorkflowRun) : WorkflowRun :=
  mkWorkflowRun (run_ID r) (run_WorkflowID r) (run_OrgID r) (run_TeamID r) (run_Input r) v
    (run_Status r) (run_StartedAt r) (run_CompletedAt r) (run_Output r) (run_Error r)
    (run_Steps r) (run_TriggeredBy r) (run_Identity r) (run_CreatedAt r) (run_UpdatedAt r)
    (run_Labels r) (run_Metadata r) (run_IdempotencyKey r) (run_RerunOf r) (run_RerunStep r)
    (run_DryRun r).

Definition set_run_Status (v : RunStatus) (r : WorkflowRun) : WorkflowRun :=
  mkWorkflowRun (run_ID r) (run_WorkflowID r) (run_OrgID r) (run_TeamID r) (run_Input r)
    (run_Context r) v (run_StartedAt r) (run_CompletedAt r) (run_Output r) (run_Error r)
    (run_Steps r) (run_TriggeredBy r) (run_Identity r) (run_CreatedAt r) (run_UpdatedAt r)
    (run_Labels r) (run_Metadata r) (run_IdempotencyKey r) (run_RerunOf r) (run_RerunStep r)
    (run_DryRun r).

Definition set_run_StartedAt (v : option Z) (r : WorkflowRun) : WorkflowRun :=
  mkWorkflowRun (run_ID r) (run_WorkflowID r) (run_OrgID r) (run_TeamID r) (run_Input r)
    (run_Context r) (run_Status r) v (run_CompletedAt r) (run_Output r) (run_Error r)
    (run_Steps r) (run_TriggeredBy r) (run_Identity r) (run_CreatedAt r) (run_UpdatedAt r)
    (run_Labels r) (run_Metadata r) (run_IdempotencyKey r) (run_RerunOf r) (run_RerunStep r)
    (run_DryRun r).

Definition set_run_CompletedAt (v : option Z) (r : WorkflowRun) : WorkflowRun :=
  mkWorkflowRun (run_ID r) (run_WorkflowID r) (run_OrgID r) (run_TeamID r) (run_Input r)
    (run_Context r) (run_Status r) (run_StartedAt r) v (run_Output r) (run_Error r) (run_Steps
    r) (run_TriggeredBy r) (run_Identity r) (run_CreatedAt r) (run_UpdatedAt r) (run_Labels r)
    (run_Metadata r) (run_IdempotencyKey r) (run_RerunOf r) (run_RerunStep r) (run_DryRun r).

Definition set_run_Error (v : amap) (r : WorkflowRun) : WorkflowRun :=
  mkWorkflowRun (run_ID r) (run_WorkflowID r) (run_OrgID r) (run_TeamID r) (run_Input r)
    (run_Context r) (run_Status r) (run_StartedAt r) (run_CompletedAt r) (run_Output r) v
    (run_Steps r) (run_TriggeredBy r) (run_Identity r) (run_CreatedAt r) (run_UpdatedAt r)
    (run_Labels r) (run_Metadata r) (run_IdempotencyKey r) (run_RerunOf r) (run_RerunStep r)
    (run_DryRun r).

Definition set_run_Steps (v : gmap string StepRun) (r : WorkflowRun) : WorkflowRun :=
  mkWorkflowRun (run_ID r) (run_WorkflowID r) (run_OrgID r) (run_TeamID r) (run_Input r)
    (run_Context r) (run_Status r) (run_StartedAt r) (run_CompletedAt r) (run_Output r)
    (run_Error r) v (run_TriggeredBy r) (run_Identity r) (run_CreatedAt r) (run_UpdatedAt r)
    (run_Labels r) (run_Metadata r) (run_IdempotencyKey r) (run_RerunOf r) (run_RerunStep r)
    (run_DryRun r).

Definition set_run_UpdatedAt (v : Z) (r : WorkflowRun) : WorkflowRun :=
  mkWorkflowRun (run_ID r) (run_WorkflowID r) (run_OrgID r) (run_TeamID r) (run_Input r)
    (run_Context r) (run_Status r) (run_StartedAt r) (run_CompletedAt r) (run_Output r)
    (run_Error r) (run_Steps r) (run_TriggeredBy r) (run_Identity r) (run_CreatedAt r) v
    (run_Labels r) (run_Metadata r) (run_IdempotencyKey r) (run_RerunOf r) (run_RerunStep r)
    (run_DryRun r).

(** A fresh run, to build examples from. *)
Definition plain_run (id wf : string) (st : RunStatus) (steps : list (string * StepRun)) : WorkflowRun :=
  mkWorkflowRun id wf "" "" [] None st None None [] [] (list_to_map steps) "" None 0 0 ∅ ∅ "" "" "" false.

(** The context read as a map: a [nil] map reads as empty. *)
Definition run_ctx (r : WorkflowRun) : amap := default [] (run_Context r).

(** [run.Steps[id] = sr]. *)
Definition set_step (id : string) (sr : StepRun) (r : WorkflowRun) : WorkflowRun :=
  set_run_Steps (<[id := sr]> (run_Steps r)) r.

(** [run.Steps[id]], [nil] when absent. *)
Definition step_run (r : WorkflowRun) (id : string) : option StepRun := run_Steps r !! id.

(** The status of a step of a run, [""] when it has no step run. *)
Definition status_of (r : WorkflowRun) (id : string) : StepStatus :=
  match step_run r id with Some sr => sr_Status sr | None => StepStatusNone end.

(** The object behind a child pointer. *)
Definition deref_child (r : WorkflowRun) (id : string) (c : child_ref StepRun) : option StepRun :=
  match c with ChildShared => step_run r id | ChildOwn sr => Some sr end.

(** [parent.Children[id]]. *)
Definition child_of (r : WorkflowRun) (parent : StepRun) (id : string) : option StepRun :=
  aget (sr_Children parent) id ≫= deref_child r id.

(** [parent.Children[id] = child] where [run.Steps[id] = child] as well. *)
Definition link_child (id : string) (parent : StepRun) : StepRun :=
  set_sr_Children (aset (sr_Children parent) id ChildShared) parent.

(** ** Jobs *)

(** [pb.JobMetadata]. *)
Record JobMetadata := mkJobMetadata {
  jm_TenantId : string;
  jm_ActorId : string;
  jm_ActorType : string;
  jm_IdempotencyKey : string;
  jm_PackId : string;
  jm_Capability : string;
  jm_RiskTags : list string;
  jm_Requires : list string;
  jm_Labels : gmap string string;
}.

Definition empty_metadata : JobMetadata := mkJobMetadata "" "" "" "" "" "" [] [] ∅.

Inductive JobPriority : Set := JOB_PRIORITY_BATCH | JOB_PRIORITY_INTERACTIVE | JOB_PRIORITY_CRITICAL.

(** [pb.DispatchIdentity]. *)
Record DispatchIdentity := mkDispatchIdentity { di_DispatchId : string; di_Attempt : Z; di_AssignedWorkerId : string }.

(** [pb.JobRequest], the fields the workflow engine and the scheduler use. *)
Record JobRequest := mkJobRequest {
  jr_JobId : string;
  jr_Topic : string;
  jr_Priority : JobPriority;
  jr_AdapterId : string;
  jr_WorkflowId : string;
  jr_MemoryId : string;
  jr_Env : gmap string string;
  jr_Labels : gmap string string;
  jr_TenantId : string;
  jr_PrincipalId : string;
  jr_DeadlineMs : option Z;
  jr_Meta : option JobMetadata;
  jr_ContextPtr : string;
  jr_Identity : option IdentityBinding;
  jr_ContextRef : option string;
  jr_Dispatch : option DispatchIdentity;
}.

Definition set_jr_Topic (v : string) (q : JobRequest) : JobRequest :=
  mkJobRequest (jr_JobId q) v (jr_Priority q) (jr_AdapterId q) (jr_WorkflowId q) (jr_MemoryId
    q) (jr_Env q) (jr_Labels q) (jr_TenantId q) (jr_PrincipalId q) (jr_DeadlineMs q) (jr_Meta
    q) (jr_ContextPtr q) (jr_Identity q) (jr_ContextRef q) (jr_Dispatch q).

Definition set_jr_Priority (v : JobPriority) (q : JobRequest) : JobRequest :=
  mkJobRequest (jr_JobId q) (jr_Topic q) v (jr_AdapterId q) (jr_WorkflowId q) (jr_MemoryId q)
    (jr_Env q) (jr_Labels q) (jr_TenantId q) (jr_PrincipalId q) (jr_DeadlineMs q) (jr_Meta q)
    (jr_ContextPtr q) (jr_Identity q) (jr_ContextRef q) (jr_Dispatch q).

Definition set_jr_AdapterId (v : string) (q : JobRequest) : JobRequest :=
  mkJobRequest (jr_JobId q) (jr_Topic q) (jr_Priority q) v (jr_WorkflowId q) (jr_MemoryId q)
    (jr_Env q) (jr_Labels q) (jr_TenantId q) (jr_PrincipalId q) (jr_DeadlineMs q) (jr_Meta q)
    (jr_ContextPtr q) (jr_Identity q) (jr_ContextRef q) (jr_Dispatch q).

Definition set_jr_Env (v : gmap string string) (q : JobRequest) : JobRequest :=
  mkJobRequest (jr_JobId q) (jr_Topic q) (jr_Priority q) (jr_AdapterId q) (jr_WorkflowId q)
    (jr_MemoryId q) v (jr_Labels q) (jr_TenantId q) (jr_PrincipalId q) (jr_DeadlineMs q)
    (jr_Meta q) (jr_ContextPtr q) (jr_Identity q) (jr_ContextRef q) (jr_Dispatch q).

Definition set_jr_Labels (v : gmap string string) (q : JobRequest) : JobRequest :=
  mkJobRequest (jr_JobId q) (jr_Topic q) (jr_Priority q) (jr_AdapterId q) (jr_WorkflowId q)
    (jr_MemoryId q) (jr_Env q) v (jr_TenantId q) (jr_PrincipalId q) (jr_DeadlineMs q) (jr_Meta
    q) (jr_ContextPtr q) (jr_Identity q) (jr_ContextRef q) (jr_Dispatch q).

Definition set_jr_TenantId (v : string) (q : JobRequest) : JobRequest :=
  mkJobRequest (jr_JobId q) (jr_Topic q) (jr_Priority q) (jr_AdapterId q) (jr_WorkflowId q)
    (jr_MemoryId q) (jr_Env q) (jr_Labels q) v (jr_PrincipalId q) (jr_DeadlineMs q) (jr_Meta q)
    (jr_ContextPtr q) (jr_Identity q) (jr_ContextRef q) (jr_Dispatch q).

Definition set_jr_PrincipalId (v : string) (q : JobRequest) : JobRequest :=
  mkJobRequest (jr_JobId q) (jr_Topic q) (jr_Priority q) (jr_AdapterId q) (jr_WorkflowId q)
    (jr_MemoryId q) (jr_Env q) (jr_Labels q) (jr_TenantId q) v (jr_DeadlineMs q) (jr_Meta q)
    (jr_ContextPtr q) (jr_Identity q) (jr_ContextRef q) (jr_Dispatch q).

Definition set_jr_DeadlineMs (v : option Z) (q : JobRequest) : JobRequest :=
  mkJobRequest (jr_JobId q) (jr_Topic q) (jr_Priority q) (jr_AdapterId q) (jr_WorkflowId q)
    (jr_MemoryId q) (jr_Env q) (jr_Labels q) (jr_TenantId q) (jr_PrincipalId q) v (jr_Meta q)
    (jr_ContextPtr q) (jr_Identity q) (jr_ContextRef q) (jr_Dispatch q).

Definition set_jr_Meta (v : option JobMetadata) (q : JobRequest) : JobRequest :=
  mkJobRequest (jr_JobId q) (jr_Topic q) (jr_Priority q) (jr_AdapterId q) (jr_WorkflowId q)
    (jr_MemoryId q) (jr_Env q) (jr_Labels q) (jr_TenantId q) (jr_PrincipalId q) (jr_DeadlineMs
    q) v (jr_ContextPtr q) (jr_Identity q) (jr_ContextRef q) (jr_Dispatch q).

Definition set_jr_ContextPtr (v : string) (q : JobRequest) : JobRequest :=
  mkJobRequest (jr_JobId q) (jr_Topic q) (jr_Priority q) (jr_AdapterId q) (jr_WorkflowId q)
    (jr_MemoryId q) (jr_Env q) (jr_Labels q) (jr_TenantId q) (jr_PrincipalId q) (jr_DeadlineMs
    q) (jr_Meta q) v (jr_Identity q) (jr_ContextRef q) (jr_Dispatch q).

Definition set_jr_Identity (v : option IdentityBinding) (q : JobRequest) : JobRequest :=
  mkJobRequest (jr_JobId q) (jr_Topic q) (jr_Priority q) (jr_AdapterId q) (jr_WorkflowId q)
    (jr_MemoryId q) (jr_Env q) (jr_Labels q) (jr_TenantId q) (jr_PrincipalId q) (jr_DeadlineMs
    q) (jr_Meta q) (jr_ContextPtr q) v (jr_ContextRef q) (jr_Dispatch q).

Definition set_jr_Dispatch (v : option DispatchIdentity) (q : JobRequest) : JobRequest :=
  mkJobRequest (jr_JobId q) (jr_Topic q) (jr_Priority q) (jr_AdapterId q) (jr_WorkflowId q)
    (jr_MemoryId q) (jr_Env q) (jr_Labels q) (jr_TenantId q) (jr_PrincipalId q) (jr_DeadlineMs q)
    (jr_Meta q) (jr_ContextPtr q) (jr_Identity q) (jr_ContextRef q) v.

(** [pb.JobResult], the fields the workflow engine reads; [res_HasRef] is [ResultRef != nil]. *)
Record JobResult := mkJobResult {
  res_JobId : string;
  res_Status : JobStatus;
  res_ResultPtr : string;
  res_HasRef : bool;
  res_ErrorMessage : string;
  res_Identity : option IdentityBinding;
}.

(** ** Terminal states *)

Definition isTerminalStepStatus (s : StepStatus) : bool :=
  match s with
  | StepStatusSucceeded | StepStatusFailed | StepStatusDenied | StepStatusCancelled
  | StepStatusTimedOut => true
  | _ => false
  end.

Definition isTerminalRunStatus (s : RunStatus) : bool :=
  match s with
  | RunStatusSucceeded | RunStatusFailed | RunStatusDenied | RunStatusCancelled
  | RunStatusTimedOut => true
  | _ => false
  end.

Definition isActiveRunStatus (s : RunStatus) : bool := negb (isTerminalRunStatus s).

(** ** Projections of the setters *)

Lemma step_run_set_step_eq id sr r : step_run (set_step id sr r) id = Some sr.
Proof. apply lookup_insert_eq. Qed.

Lemma step_run_set_step_ne id id' sr r : id <> id' -> step_run (set_step id sr r) id' = step_run r id'.
Proof. apply lookup_insert_ne. Qed.

#[export] Hint Rewrite step_run_set_step_eq : cordum_rw.
