(* ===== verification/JobIdentity.v ===== *)
(** * Production identity of job requests

    core/protocol/identity/normalize.go: every place of a job request that repeats
    the identity of the caller (tenant, principal, actor, delegation) is checked
    against the authenticated binding and then overwritten with it.  A request of
    the workflow engine has no compensation, which the Go code treats the same way. *)
From S2P Require Import Prelude.
From S2P Require Import GoStrings.
From S2P Require Import WorkflowModels.

Open Scope string_scope.

Record mirror := mkMirror { mi_path : string; mi_got : string; mi_want : string }.

Definition ErrIncompleteProductionIdentity : string := "identity: production authority is incomplete".
Definition ErrProductionIdentityMismatch : string := "identity: production identity mirror mismatch".

(** The authority is the binding itself: all of its fields are kept. *)
Definition newAuthority (binding : option IdentityBinding) : result string IdentityBinding :=
  match binding with
  | None => Err ErrIncompleteProductionIdentity
  | Some b =>
      match List.find (fun fv => TrimSpace (snd fv) =s? "")
              [("tenant_id", ib_TenantId b); ("principal_id", ib_PrincipalId b); ("actor_id", ib_ActorId b)] with
      | Some (path, _) => Err (ErrIncompleteProductionIdentity +:+ ": " +:+ path)
      | None => Ok b
      end
  end.

Definition metadataMirrors (prefix : string) (meta : option JobMetadata) (auth : IdentityBinding) : list mirror :=
  match meta with
  | None => []
  | Some m => [mkMirror (prefix +:+ ".tenant_id") (jm_TenantId m) (ib_TenantId auth);
               mkMirror (prefix +:+ ".actor_id") (jm_ActorId m) (ib_ActorId auth)]
  end.

Definition environmentMirrors (prefix : string) (env : gmap string string) (auth : IdentityBinding) : list mirror :=
  [mkMirror (prefix +:+ ".tenant_id") (get_str env "tenant_id") (ib_TenantId auth);
   mkMirror (prefix +:+ ".principal_id") (get_str env "principal_id") (ib_PrincipalId auth);
   mkMirror (prefix +:+ ".actor_id") (get_str env "actor_id") (ib_ActorId auth);
   mkMirror (prefix +:+ ".delegation_id") (get_str env "delegation_id") (ib_DelegationId auth)].

Definition bindingMirrors (prefix : string) (binding : option IdentityBinding) (auth : IdentityBinding) : list mirror :=
  match binding with
  | None => []
  | Some b => [mkMirror (prefix +:+ ".tenant_id") (ib_TenantId b) (ib_TenantId auth);
               mkMirror (prefix +:+ ".principal_id") (ib_PrincipalId b) (ib_PrincipalId auth);
               mkMirror (prefix +:+ ".actor_id") (ib_ActorId b) (ib_ActorId auth);
               mkMirror (prefix +:+ ".delegation_id") (ib_DelegationId b) (ib_DelegationId auth)]
  end.

Definition request_mirrors (req : JobRequest) (auth : IdentityBinding) : list mirror :=
  ([mkMirror "request.tenant_id" (jr_TenantId req) (ib_TenantId auth);
    mkMirror "request.principal_id" (jr_PrincipalId req) (ib_PrincipalId auth)]
   ++ metadataMirrors "request.meta" (jr_Meta req) auth
   ++ environmentMirrors "request.env" (jr_Env req) auth
   ++ bindingMirrors "request.identity" (jr_Identity req) auth)%list.

Definition mirror_bad (m : mirror) : bool := negb (mi_got m =s? "") && negb (mi_got m =s? mi_want m).

Definition rejectMismatches (checks : list mirror) : option string :=
  match List.find mirror_bad checks with
  | Some m => Some (ErrProductionIdentityMismatch +:+ ": " +:+ mi_path m)
  | None => None
  end.

Definition validateRequestMirrors (req : JobRequest) (auth : IdentityBinding) : option string :=
  rejectMismatches (request_mirrors req auth).

Definition fillMetadata (meta : option JobMetadata) (auth : IdentityBinding) : JobMetadata :=
  let m := default empty_metadata meta in
  mkJobMetadata (ib_TenantId auth) (ib_ActorId auth) (jm_ActorType m) (jm_IdempotencyKey m) (jm_PackId m)
    (jm_Capability m) (jm_RiskTags m) (jm_Requires m) (jm_Labels m).

Definition fillEnvironment (env : gmap string string) (auth : IdentityBinding) : gmap string string :=
  let env := <["actor_id" := ib_ActorId auth]> (<["principal_id" := ib_PrincipalId auth]>
               (<["tenant_id" := ib_TenantId auth]> env)) in
  if ib_DelegationId auth =s? "" then env else <["delegation_id" := ib_DelegationId auth]> env.

(** [fillRequestMirrors]; [fillBinding] gives the authority's own fields either way. *)
Definition fillRequestMirrors (req : JobRequest) (auth : IdentityBinding) : JobRequest :=
  set_jr_Identity (Some auth) (set_jr_Env (fillEnvironment (jr_Env req) auth)
    (set_jr_Meta (Some (fillMetadata (jr_Meta req) auth))
       (set_jr_PrincipalId (ib_PrincipalId auth) (set_jr_TenantId (ib_TenantId auth) req)))).

Definition NormalizeProductionJobRequest (req : JobRequest) (authoritative : option IdentityBinding) : result string JobRequest :=
  match newAuthority authoritative with
  | Err e => Err e
  | Ok auth =>
      match validateRequestMirrors req auth with
      | Some e => Err e
      | None => Ok (fillRequestMirrors req auth)
      end
  end.

(** * Theorems *)

Lemma newAuthority_ok b auth :
  newAuthority b = Ok auth ->
  b = Some auth /\ TrimSpace (ib_TenantId auth) <> "" /\ TrimSpace (ib_PrincipalId auth) <> "" /\ TrimSpace (ib_ActorId auth) <> "".
Proof.
  destruct b as [b|]; [|done]. cbn [newAuthority List.find snd].
  destruct (TrimSpace (ib_TenantId b) =s? "") eqn:E1; [discriminate|].
  destruct (TrimSpace (ib_PrincipalId b) =s? "") eqn:E2; [discriminate|].
  destruct (TrimSpace (ib_ActorId b) =s? "") eqn:E3; [discriminate|]. intros [= <-]. split_bools. auto.
Qed.

Lemma find_none_forall {A} (f : A -> bool) l : List.find f l = None <-> Forall (fun x => f x = false) l.
Proof.
  split.
  - intros Hf. apply Forall_forall. intros x Hx. eapply find_none; [done|by apply list_elem_of_In].
  - induction 1 as [|x l Hx _ IH]; cbn; [done|]. by rewrite Hx.
Qed.

Lemma mirror_ok_iff m : mirror_bad m = false <-> mi_got m = "" \/ mi_got m = mi_want m.
Proof.
  unfold mirror_bad. rewrite andb_false_iff, !negb_false_iff, !String.eqb_eq. done.
Qed.

Lemma fillEnvironment_idem env auth : fillEnvironment (fillEnvironment env auth) auth = fillEnvironment env auth.
Proof.
  apply map_eq. intros k. unfold fillEnvironment. destruct (ib_DelegationId auth =s? ""); rewrite !lookup_insert;
    repeat case_decide; done.
Qed.

Lemma fillRequestMirrors_idem req auth : fillRequestMirrors (fillRequestMirrors req auth) auth = fillRequestMirrors req auth.
Proof.
  destruct req as [q1 q2 q3 q4 q5 q6 q7 q8 q9 q10 q11 q12 q13 q14 q15 q16]. cbv [fillRequestMirrors set_jr_Identity set_jr_Env set_jr_Meta set_jr_PrincipalId set_jr_TenantId
    jr_JobId jr_Topic jr_Priority jr_AdapterId jr_WorkflowId jr_MemoryId jr_Env jr_Labels jr_TenantId jr_PrincipalId
    jr_DeadlineMs jr_Meta jr_ContextPtr jr_Identity jr_ContextRef jr_Dispatch]. by rewrite fillEnvironment_idem.
Qed.


