(* ===== verification/JobMeta.v ===== *)
(** * Job metadata

    core/infra/store/job_store.go beside the state of a job: the metadata written
    at submission, the stored request, deadlines, traces, attempts, the worker and
    agent of a job, result pointers, output decisions and idempotency keys; and
    core/protocol/reqhash, the hash an approval is bound to.

    The operations act on the keyspace of [JobStore]; a pipeline is one step, and
    time to live is not modelled.  The encodings of the protobuf library are the
    class [ProtoCodec]. *)
From Stdlib Require Import Ascii.
From S2P Require Import Prelude.
From S2P Require Import GoStrings.
From S2P Require Import PolicyTypes.
From S2P Require Import GoSha256.
From S2P Require Import GoJson.
From S2P Require Import JobRuntime.
From S2P Require Import JobStore.
From S2P Require Import GoValues.
From S2P Require Import WorkflowModels.
From S2P Require Import JobIdentity.

Open Scope string_scope.

(** The protobuf library: protojson of a request and of constraints, and the
    deterministic wire form; [None] is an error. *)
Class ProtoCodec := {
  request_json : JobRequest -> option string;
  request_of_json : string -> option JobRequest;
  constraints_json : PolicyConstraints -> option string;
  constraints_of_json : string -> option PolicyConstraints;
  remediations_json : list PolicyRemediation -> option string;
  remediations_of_json : string -> option (list PolicyRemediation);
  request_wire : JobRequest -> option string;
}.

(** ** Keys and fields *)

Definition jobRequestKey (jobID : string) : string := "job:req:" +:+ jobID.
Definition jobDecisionKey (jobID : string) : string := "job:decisions:" +:+ jobID.
Definition outputDecisionKey (jobID : string) : string := "job:" +:+ jobID +:+ ":output_decision".
Definition jobIdempotencyKey (key : string) : string := "job:idempotency:" +:+ key.

Definition jobIdempotencyKeyScoped (tenant key : string) : string :=
  let tenant := TrimSpace tenant in
  let key := TrimSpace key in
  if key =s? "" then "" else if tenant =s? "" then jobIdempotencyKey key else jobIdempotencyKey (tenant +:+ ":" +:+ key).

Definition metaFieldTopic : string := "topic".
Definition metaFieldPrincipal : string := "principal".
Definition metaFieldTeam : string := "team".
Definition metaFieldMemory : string := "memory_id".
Definition metaFieldTraceID : string := "trace_id".
Definition metaFieldLabels : string := "labels".
Definition metaFieldActorID : string := "actor_id".
Definition metaFieldActorType : string := "actor_type".
Definition metaFieldIdempotencyKey : string := "idempotency_key".
Definition metaFieldCapability : string := "capability".
Definition metaFieldRiskTags : string := "risk_tags".
Definition metaFieldRequires : string := "requires".
Definition metaFieldPackID : string := "pack_id".
Definition metaFieldAgentID : string := "agent_id".
Definition metaFieldAgentName : string := "agent_name".
Definition metaFieldAgentRiskTier : string := "agent_risk_tier".
Definition metaFieldSubmittedBy : string := "submitted_by".
Definition metaFieldDelegationLineage : string := "delegation_lineage".
Definition metaFieldDelegationDispatch : string := "delegation_dispatch_token".
Definition metaFieldOutputSafety : string := "output_safety".

Definition LabelBusMsgID : string := "cordum.bus_msg_id".
Definition PolicyAttachmentID : string := "policy.attachment_id".
Definition EffectiveConfigEnvVar : string := "CORDUM_EFFECTIVE_CONFIG".
Definition DefaultTenant : string := "default".

(** ** Reading *)

(** [GET] and [HGET]: [None] is [redis.Nil]. *)
Definition Get (key : string) (st : jredis) : option string := strs st !! key.
Definition HGet (key field : string) (st : jredis) : option string := hash_at st key !! field.

Definition GetTopic (jobID : string) (st : jredis) : option string := HGet (jobMetaKey jobID) metaFieldTopic st.
Definition GetTenant (jobID : string) (st : jredis) : option string := HGet (jobMetaKey jobID) metaFieldTenant st.

Definition GetTraceID (jobID : string) (st : jredis) : result StoreError (option string) :=
  if jobID =s? "" then Err ErrArguments else Ok (HGet (jobMetaKey jobID) metaFieldTraceID st).

Definition parseInt (raw : string) : Z := if raw =s? "" then 0%Z else default 0%Z (Atoi raw).

(** [None] is [redis.Nil]. *)
Definition GetAttempts (jobID : string) (st : jredis) : option Z := parseInt <$> HGet (jobMetaKey jobID) metaFieldAttempts st.

Definition CountActiveByTenant (tenant : string) (st : jredis) : result StoreError Z :=
  if tenant =s? "" then Err ErrArguments else Ok (Z.of_nat (size (set_at st (tenantActiveKey tenant)))).

Definition GetResultPtr (jobID : string) (st : jredis) : option string :=
  match HGet (jobRuntimeKey jobID) runtimeResultField st with
  | Some val => Some val
  | None => match HGet (jobMetaKey jobID) "result_ptr" st with
            | Some val => Some val
            | None => Get (jobResultPtrKey jobID) st
            end
  end.

Definition GetSubmittedBy (jobID : string) (st : jredis) : string :=
  if jobID =s? "" then "" else default "" (HGet (jobMetaKey jobID) metaFieldSubmittedBy st).

Definition GetFailureReason (jobID : string) (st : jredis) : result StoreError string :=
  if jobID =s? "" then Err ErrArguments else Ok (default "" (HGet (jobMetaKey jobID) "failure_reason" st)).

(** ** Writing *)

Definition SetTopic (jobID topic : string) (st : jredis) : result StoreError jredis :=
  if (jobID =s? "") || (topic =s? "") then Err ErrArguments else Ok (HSet (jobMetaKey jobID) [(metaFieldTopic, topic)] st).

Definition SetTenant (jobID tenant : string) (st : jredis) : result StoreError jredis :=
  if (jobID =s? "") || (tenant =s? "") then Err ErrArguments else Ok (HSet (jobMetaKey jobID) [(metaFieldTenant, tenant)] st).

Definition SetSubmittedBy (jobID identity : string) (st : jredis) : jredis :=
  if (jobID =s? "") || (identity =s? "") then st else HSet (jobMetaKey jobID) [(metaFieldSubmittedBy, identity)] st.

Definition SetFailureReason (jobID reason : string) (st : jredis) : result StoreError jredis :=
  if jobID =s? "" then Err ErrArguments else Ok (HSet (jobMetaKey jobID) [("failure_reason", reason)] st).

Definition AddJobToTrace (traceID jobID : string) (st : jredis) : result StoreError jredis :=
  if (traceID =s? "") || (jobID =s? "") then Err ErrArguments
  else Ok (pipeline [SAdd ("trace:" +:+ traceID) jobID; HSet (jobMetaKey jobID) [(metaFieldTraceID, traceID)]] st).

Definition IncrAttempts (jobID : string) (st : jredis) : result StoreError jredis :=
  if jobID =s? "" then Err ErrArguments
  else match HINCRBY (hash_at st (jobMetaKey jobID)) metaFieldAttempts 1 with
       | Some (h, _) => Ok (put_hash (jobMetaKey jobID) h st)
       | None => Err ErrScript
       end.

Definition SetAgentInfo (jobID agentID agentName agentRiskTier : string) (st : jredis) : jredis :=
  if (jobID =s? "") || (agentID =s? "") then st
  else HSet (jobMetaKey jobID)
         ([(metaFieldAgentID, agentID)]
          ++ (if agentName =s? "" then [] else [(metaFieldAgentName, agentName)])
          ++ (if agentRiskTier =s? "" then [] else [(metaFieldAgentRiskTier, agentRiskTier)])) st.

Definition SetWorkerID (now : Z) (jobID workerID : string) (st : jredis) : result StoreError jredis :=
  if (jobID =s? "") || (workerID =s? "") then Err ErrArguments
  else Ok (pipeline
    [ HSet (jobMetaKey jobID) [(metaFieldWorkerID, workerID)];
      ZAdd (workerJobsKey workerID) now jobID;
      ZKeep (workerJobsKey workerID) 1000 ] st).

(** The time is in microseconds; [None] is the zero time. *)
Definition SetDeadline (jobID : string) (deadline : option Z) (st : jredis) : result StoreError jredis :=
  match deadline with
  | None => Err ErrArguments
  | Some t =>
      if jobID =s? "" then Err ErrArguments
      else Ok (pipeline [HSet (jobMetaKey jobID) [(metaFieldDeadline, Itoa t)]; ZAdd deadlineIndexKey t jobID] st)
  end.

Definition SetResultPtr (jobID resultPtr : string) (st : jredis) : jredis :=
  let st := pipeline [SetStr (jobResultPtrKey jobID) resultPtr; HSet (jobMetaKey jobID) [("result_ptr", resultPtr)]] st in
  if hash_exists st (jobRuntimeKey jobID) then HSet (jobRuntimeKey jobID) [(runtimeResultField, resultPtr)] st else st.

(** ** Delegation *)

Record DelegationDispatchToken := mkDispatchToken { dt_Token : string; dt_Audience : string }.

(** The lineage is given in its JSON form. *)
Definition SetDelegationLineage (jobID encoded : string) (st : jredis) : result StoreError jredis :=
  if jobID =s? "" then Err ErrArguments else Ok (HSet (jobMetaKey jobID) [(metaFieldDelegationLineage, encoded)] st).

(** The text of the lineage; "" when there is none. *)
Definition GetDelegationLineage (jobID : string) (st : jredis) : result StoreError string :=
  if jobID =s? "" then Err ErrArguments else Ok (get_str (hash_at st (jobMetaKey jobID)) metaFieldDelegationLineage).

(** [encode] is [json.Marshal] of the token. *)
Definition SetDelegationDispatchToken (encode : DelegationDispatchToken -> option string) (jobID : string) (token : DelegationDispatchToken)
    (st : jredis) : result StoreError jredis :=
  if jobID =s? "" then Err ErrArguments
  else if TrimSpace (dt_Token token) =s? "" then Ok st
  else match encode (mkDispatchToken (TrimSpace (dt_Token token)) (TrimSpace (dt_Audience token))) with
       | None => Err (ErrMessage "marshal delegation dispatch token")
       | Some encoded => Ok (HSet (jobMetaKey jobID) [(metaFieldDelegationDispatch, encoded)] st)
       end.

Definition ClearDelegationDispatchToken (jobID : string) (st : jredis) : result StoreError jredis :=
  if jobID =s? "" then Err ErrArguments else Ok (HDel (jobMetaKey jobID) metaFieldDelegationDispatch st).

(** [decode] is [json.Unmarshal] of the stored text. *)
Definition GetDelegationDispatchToken (decode : string -> option DelegationDispatchToken) (jobID : string) (st : jredis)
    : result StoreError DelegationDispatchToken :=
  if jobID =s? "" then Err ErrArguments
  else let raw := get_str (hash_at st (jobMetaKey jobID)) metaFieldDelegationDispatch in
       if raw =s? "" then Ok (mkDispatchToken "" "")
       else match decode raw with Some token => Ok token | None => Err (ErrMessage "decode delegation dispatch token") end.

(** ** Output decisions *)

(** The record is given in its JSON form. *)
Definition SetOutputDecision (jobID encoded : string) (st : jredis) : result StoreError jredis :=
  if jobID =s? "" then Err ErrArguments
  else Ok (pipeline [SetStr (outputDecisionKey jobID) encoded; HSet (jobMetaKey jobID) [(metaFieldOutputSafety, encoded)]] st).

(** The stored JSON form; [""] when there is none. *)
Definition GetOutputDecision (jobID : string) (st : jredis) : result StoreError string :=
  if jobID =s? "" then Err ErrArguments
  else Ok (match Get (outputDecisionKey jobID) st with
           | Some raw => if raw =s? "" then default "" (HGet (jobMetaKey jobID) metaFieldOutputSafety st) else raw
           | None => default "" (HGet (jobMetaKey jobID) metaFieldOutputSafety st)
           end).

(** ** Idempotency keys *)

Definition SetNX (key v : string) (st : jredis) : jredis * bool :=
  match Get key st with Some _ => (st, false) | None => (SetStr key v st, true) end.

Definition SetIdempotencyKeyScoped (tenant key jobID : string) (st : jredis) : result StoreError jredis :=
  if (key =s? "") || (jobID =s? "") then Err ErrArguments
  else let idKey := jobIdempotencyKeyScoped tenant key in
       if idKey =s? "" then Err ErrArguments else Ok (fst (SetNX idKey jobID st)).

(** The legacy job of an unscoped key, when it is the tenant's. *)
Definition legacy_owner (tenant key : string) (st : jredis) : option string :=
  match Get (jobIdempotencyKey key) st with
  | None => None
  | Some legacyID =>
      if legacyID =s? "" then None
      else let metaTenant := default "" (HGet (jobMetaKey legacyID) metaFieldTenant st) in
           if (metaTenant =s? "") || (metaTenant =s? tenant) then Some legacyID else None
  end.

(** Whether the key was claimed, and the job that holds it. *)
Definition TrySetIdempotencyKeyScoped (tenant key jobID : string) (st : jredis) : result StoreError (jredis * (bool * string)) :=
  if (key =s? "") || (jobID =s? "") then Err ErrArguments
  else
    let tenant := TrimSpace tenant in
    let idKey := jobIdempotencyKeyScoped tenant key in
    if idKey =s? "" then Err ErrArguments
    else match (if tenant =s? "" then None else legacy_owner tenant key st) with
         | Some legacyID => Ok (st, (false, legacyID))
         | None =>
             let '(st, ok) := SetNX idKey jobID st in
             if ok then Ok (st, (true, jobID)) else Ok (st, (false, default "" (Get idKey st)))
         end.

Definition GetJobByIdempotencyKeyScoped (tenant key : string) (st : jredis) : result StoreError (jredis * string) :=
  if key =s? "" then Err ErrArguments
  else
    let tenant := TrimSpace tenant in
    if tenant =s? "" then match Get (jobIdempotencyKey key) st with Some v => Ok (st, v) | None => Err ErrNotFound end
    else
      let idKey := jobIdempotencyKeyScoped tenant key in
      if idKey =s? "" then Err ErrArguments
      else match Get idKey st with
           | Some v => Ok (st, v)
           | None =>
               match Get (jobIdempotencyKey key) st with
               | None => Err ErrNotFound
               | Some legacyID =>
                   if legacyID =s? "" then Err ErrNotFound
                   else
                     let legacyTenant := default "" (GetTenant legacyID st) in
                     if negb (legacyTenant =s? "") && negb (legacyTenant =s? tenant) then Err ErrNotFound
                     else Ok (match SetIdempotencyKeyScoped tenant key legacyID st with Ok st' => st' | Err _ => st end, legacyID)
               end
           end.

(** ** Requests *)

Definition ExtractTenant (req : JobRequest) : string :=
  let identity := match jr_Identity req with Some b => ib_TenantId b | None => "" end in
  if negb (identity =s? "") then identity
  else if negb (jr_TenantId req =s? "") then jr_TenantId req
  else let tenant := get_str (jr_Env req) "tenant_id" in
       if negb (tenant =s? "") then tenant else DefaultTenant.

Definition actorTypeString (val : string) : string :=
  if val =s? "ACTOR_TYPE_HUMAN" then "human" else if val =s? "ACTOR_TYPE_SERVICE" then "service" else "".

(** [None] is the nil map. *)
Definition mergeLabels (base : gmap string string) (meta : option JobMetadata) : option (gmap string string) :=
  let more := match meta with Some m => jm_Labels m | None => ∅ end in
  if bool_decide (base = ∅) && bool_decide (more = ∅) then None else Some (more ∪ base).

Definition completeJobIdentity (identity : option IdentityBinding) : bool :=
  match identity with
  | None => false
  | Some b => negb (TrimSpace (ib_TenantId b) =s? "") && negb (TrimSpace (ib_PrincipalId b) =s? "") && negb (TrimSpace (ib_ActorId b) =s? "")
  end.

Definition labels_json (m : gmap string string) : string := render (JStringMap (sort_keys (map_to_list m))).

Definition nonblank (field v : string) : list (string * string) := if v =s? "" then [] else [(field, v)].

(** The fields of the metadata hash a request gives. *)
Definition meta_fields (req : JobRequest) : list (string * string) :=
  let meta := jr_Meta req in
  let of_meta (f : JobMetadata -> string) := match meta with Some m => f m | None => "" end in
  let tenantID := if of_meta jm_TenantId =s? "" then jr_TenantId req else of_meta jm_TenantId in
  let tenantID := if tenantID =s? "" then get_str (jr_Env req) "tenant_id" else tenantID in
  let actorID := if of_meta jm_ActorId =s? "" then jr_PrincipalId req else of_meta jm_ActorId in
  let riskTags := match meta with Some m => jm_RiskTags m | None => [] end in
  let requires := match meta with Some m => jm_Requires m | None => [] end in
  ([(metaFieldTopic, jr_Topic req); (metaFieldTenant, tenantID); (metaFieldTeam, get_str (jr_Env req) "team_id");
    (metaFieldPrincipal, jr_PrincipalId req); (metaFieldMemory, jr_MemoryId req)]
   ++ nonblank metaFieldActorID actorID
   ++ nonblank metaFieldActorType (of_meta (fun m => actorTypeString (jm_ActorType m)))
   ++ nonblank metaFieldIdempotencyKey (of_meta jm_IdempotencyKey)
   ++ nonblank metaFieldCapability (of_meta jm_Capability)
   ++ nonblank metaFieldPackID (of_meta jm_PackId)
   ++ (if nonempty riskTags then [(metaFieldRiskTags, render (JStrings riskTags))] else [])
   ++ (if nonempty requires then [(metaFieldRequires, render (JStrings requires))] else [])
   ++ match mergeLabels (jr_Labels req) meta with
      | Some labels => [(metaFieldLabels, labels_json labels)]
      | None => []
      end)%list.

(** The deadline of a request, in microseconds, when its budget sets one. *)
Definition request_deadline (now : Z) (req : JobRequest) : option Z :=
  match jr_DeadlineMs req with
  | Some ms => if (0 <? ms)%Z then Some (now + wrap64 (ms * 1000000) / 1000)%Z else None
  | None => None
  end.

(** The transaction of [SetJobMeta]. *)
Definition write_job_meta (now : Z) (req : JobRequest) (st : jredis) : jredis :=
  let metaKey := jobMetaKey (jr_JobId req) in
  let st := HSet metaKey (meta_fields req) st in
  match request_deadline now req with
  | Some t => pipeline [HSet metaKey [(metaFieldDeadline, Itoa t)]; ZAdd deadlineIndexKey t (jr_JobId req)] st
  | None => st
  end.

(** A request with a complete identity is stored in its canonical form. *)
Definition canonical_request (req : JobRequest) : result string JobRequest :=
  if completeJobIdentity (jr_Identity req) then NormalizeProductionJobRequest req (jr_Identity req) else Ok req.

Definition SetJobMeta (now : Z) (req : JobRequest) (st : jredis) : result StoreError jredis :=
  if jr_JobId req =s? "" then Err ErrArguments
  else match canonical_request req with
       | Err e => Err (ErrMessage ("job store canonical identity: " +:+ e))
       | Ok req =>
           let st := write_job_meta now req st in
           let key := match jr_Meta req with Some m => jm_IdempotencyKey m | None => "" end in
           Ok (if key =s? "" then st
               else match SetIdempotencyKeyScoped (ExtractTenant req) key (jr_JobId req) st with Ok st' => st' | Err _ => st end)
       end.

Section Requests.
Context `{ProtoCodec}.

Definition SetJobRequest (req : JobRequest) (st : jredis) : result StoreError jredis :=
  if jr_JobId req =s? "" then Err ErrArguments
  else match request_json req with
       | None => Err (ErrMessage "marshal job request")
       | Some payload => Ok (SetStr (jobRequestKey (jr_JobId req)) payload st)
       end.

Definition GetJobRequest (jobID : string) (st : jredis) : result StoreError JobRequest :=
  if jobID =s? "" then Err ErrArguments
  else match Get (jobRequestKey jobID) st with
       | None => Err ErrNotFound
       | Some data => match request_of_json data with Some req => Ok req | None => Err (ErrMessage "unmarshal job request") end
       end.

(** *** The hash of a request *)

(** A label or variable the hash leaves out. *)
Definition mutable_label (key : string) : bool :=
  HasPrefix (ToLower key) "approval_" || (key =s? LabelBusMsgID) || (key =s? PolicyAttachmentID).

Definition strip_mutable (req : JobRequest) : JobRequest :=
  set_jr_Env (delete EffectiveConfigEnvVar (jr_Env req))
    (set_jr_Labels (filter (fun kv => mutable_label (fst kv) = false) (jr_Labels req)) req).

Definition Canonical (req : JobRequest) : result string JobRequest :=
  match request_json (strip_mutable req) with
  | None => Err "canonical job request marshal"
  | Some raw => match request_of_json raw with Some out => Ok out | None => Err "canonical job request unmarshal" end
  end.

Definition Hash (req : JobRequest) : result string string :=
  match Canonical req with
  | Err e => Err e
  | Ok canonical => match request_wire canonical with Some data => Ok (sha256_hex data) | None => Err "marshal" end
  end.

End Requests.
