(* ===== verification/JobApproval.v ===== *)
(** * Safety decisions and approvals of jobs

    core/infra/store/job_store.go (SetSafetyDecision to GetSafetyDecision) and
    core/model/safety.go, store.go: the safety decision and the human approval of a
    job are fields of its metadata hash.  A decision is written by the gateway and
    the scheduler; an approval is resolved, or repaired, in one transaction that
    checks the state of the job, whether the approval can still be acted on and the
    hash of the stored request. *)
From Stdlib Require Import Ascii.
From S2P Require Import Prelude.
From S2P Require Import GoStrings.
From S2P Require Import PolicyTypes.
From S2P Require Import JobRuntime.
From S2P Require Import JobStore.
From S2P Require Import GoValues.
From S2P Require Import WorkflowModels.
From S2P Require Import JobMeta.

Open Scope string_scope.

(** ** Records *)

(** [Governance], which no operation here reads, is left out. *)
Record SafetyDecisionRecord := mkSafetyDecisionRecord {
  sd_Decision : string;
  sd_Reason : string;
  sd_RuleID : string;
  sd_PolicySnapshot : string;
  sd_Constraints : option PolicyConstraints;
  sd_ApprovalRequired : bool;
  sd_ApprovalRef : string;
  sd_JobHash : string;
  sd_Remediations : list PolicyRemediation;
  sd_CheckedAt : Z;
  sd_ApprovalStatus : string;
  sd_Actionability : string;
  sd_ApprovalRevision : Z;
  sd_ApprovalDecision : string;
}.

Definition empty_safety : SafetyDecisionRecord := mkSafetyDecisionRecord "" "" "" "" None false "" "" [] 0 "" "" 0 "".

(** The owner fields, which jobs leave empty, are left out. *)
Record ApprovalRecord := mkApprovalRecord {
  ar_ApprovedBy : string;
  ar_ApprovedRole : string;
  ar_ApprovedAt : Z;
  ar_Reason : string;
  ar_Note : string;
  ar_PolicySnapshot : string;
  ar_JobHash : string;
  ar_Status : string;
  ar_Actionability : string;
  ar_Revision : Z;
  ar_Decision : string;
  ar_PublishStatus : string;
  ar_PublishTarget : string;
  ar_PublishedAt : Z;
}.

(** The record with its lifecycle fields replaced. *)
Definition set_lifecycle (status actionability : string) (revision : Z) (decision : string) (r : ApprovalRecord) : ApprovalRecord :=
  mkApprovalRecord (ar_ApprovedBy r) (ar_ApprovedRole r) (ar_ApprovedAt r) (ar_Reason r) (ar_Note r) (ar_PolicySnapshot r)
    (ar_JobHash r) status actionability revision decision (ar_PublishStatus r) (ar_PublishTarget r) (ar_PublishedAt r).

Definition SafetyAllow : string := "ALLOW".
Definition SafetyDeny : string := "DENY".
Definition SafetyRequireApproval : string := "REQUIRE_APPROVAL".
Definition SafetyThrottle : string := "THROTTLE".
Definition SafetyAllowWithConstraints : string := "ALLOW_WITH_CONSTRAINTS".
Definition SafetyUnavailable : string := "UNAVAILABLE".

Definition HasPendingPublish (r : ApprovalRecord) : bool :=
  (ar_PublishStatus r =s? "pending") && negb (ar_PublishTarget r =s? "").

(** ** The lifecycle of an approval *)

Definition approval_needed (safety : SafetyDecisionRecord) : bool :=
  sd_ApprovalRequired safety || (sd_Decision safety =s? SafetyRequireApproval).

Definition statusOfDecision (decision : string) : string :=
  if decision =s? "approve" then "approved"
  else if decision =s? "reject" then "rejected"
  else if decision =s? "expire" then "expired"
  else if decision =s? "invalidate" then "invalidated"
  else if decision =s? "repair" then "repaired" else "".

(** The second switch of [derivedApprovalStatus]; [""] falls through it. *)
Definition statusOfState (state : string) (safety : SafetyDecisionRecord) (approvedBy : string)
    : string :=
  if state =s? JobStateApproval then (if approval_needed safety then "pending" else "")
  else if state =s? JobStateDenied then "rejected"
  else if state =s? JobStateTimeout then (if approval_needed safety then "expired" else "")
  else if containsJobState [JobStatePending; JobStateScheduled; JobStateDispatched; JobStateRunning;
            JobStateSucceeded; JobStateFailed; JobStateCancelled; JobStateQuarantined] state
  then (if negb (approvedBy =s? "") || approval_needed safety then "approved" else "")
  else "".

Definition derivedApprovalStatus (state : string) (safety : SafetyDecisionRecord)
    (record : ApprovalRecord) : string :=
  if negb (ar_Status record =s? "") then ar_Status record else
  let byDecision := statusOfDecision (ar_Decision record) in
  if negb (byDecision =s? "") then byDecision else
  let byState := statusOfState state safety (ar_ApprovedBy record) in
  if negb (byState =s? "") then byState
  else if negb (ar_ApprovedBy record =s? "") then "approved"
  else if approval_needed safety then "pending" else "".

Definition derivedApprovalDecision (record : ApprovalRecord) : string :=
  if negb (ar_Decision record =s? "") then ar_Decision record
  else if ar_Status record =s? "approved" then "approve"
  else if ar_Status record =s? "rejected" then "reject"
  else if ar_Status record =s? "expired" then "expire"
  else if ar_Status record =s? "invalidated" then "invalidate"
  else if ar_Status record =s? "repaired" then "repair" else "".

Definition derivedApprovalRevision (safety : SafetyDecisionRecord) (record : ApprovalRecord) : Z :=
  if (0 <? ar_Revision record)%Z then ar_Revision record
  else if (0 <? sd_ApprovalRevision safety)%Z then sd_ApprovalRevision safety
  else if approval_needed safety then 1%Z else 0%Z.

Definition DefaultActionability (status : string) : string :=
  if status =s? "pending" then "actionable"
  else if (status =s? "approved") || (status =s? "rejected") then "resolved"
  else if status =s? "expired" then "expired"
  else if status =s? "invalidated" then "invalidated"
  else if status =s? "repaired" then "repaired" else "".

Definition NormalizeApprovalRecord (state : string) (safety : SafetyDecisionRecord) (record : ApprovalRecord) : ApprovalRecord :=
  let record := set_lifecycle (derivedApprovalStatus state safety record) (ar_Actionability record) (ar_Revision record)
                  (ar_Decision record) record in
  let record := set_lifecycle (ar_Status record) (ar_Actionability record) (ar_Revision record)
                  (derivedApprovalDecision record) record in
  let record := set_lifecycle (ar_Status record)
                  (if ar_Actionability record =s? "" then DefaultActionability (ar_Status record) else ar_Actionability record)
                  (ar_Revision record) (ar_Decision record) record in
  set_lifecycle (ar_Status record) (ar_Actionability record) (derivedApprovalRevision safety record) (ar_Decision record) record.

(** ** Fields *)

Definition metaFieldSafetyDecision : string := "safety_decision".
Definition metaFieldSafetyReason : string := "safety_reason".
Definition metaFieldSafetyRuleID : string := "safety_rule_id".
Definition metaFieldSafetySnapshot : string := "safety_snapshot".
Definition metaFieldSafetyChecked : string := "safety_checked_at".
Definition metaFieldSafetyConstraints : string := "safety_constraints".
Definition metaFieldSafetyRemediations : string := "safety_remediations".
Definition metaFieldApprovalRequired : string := "safety_approval_required".
Definition metaFieldApprovalRef : string := "safety_approval_ref".
Definition metaFieldSafetyJobHash : string := "safety_job_hash".
Definition metaFieldApprovalBy : string := "approval_by".
Definition metaFieldApprovalRole : string := "approval_role".
Definition metaFieldApprovalAt : string := "approval_at".
Definition metaFieldApprovalReason : string := "approval_reason".
Definition metaFieldApprovalNote : string := "approval_note".
Definition metaFieldApprovalSnapshot : string := "approval_policy_snapshot".
Definition metaFieldApprovalJobHash : string := "approval_job_hash".
Definition metaFieldApprovalStatus : string := "approval_status".
Definition metaFieldApprovalActionable : string := "approval_actionability".
Definition metaFieldApprovalRevision : string := "approval_revision".
Definition metaFieldApprovalDecision : string := "approval_decision".
Definition metaFieldApprovalPublishStatus : string := "approval_publish_status".
Definition metaFieldApprovalPublishTarget : string := "approval_publish_target".
Definition metaFieldApprovalPublishedAt : string := "approval_published_at".

(** [strconv.ParseInt] into a field that stays zero on error. *)
Definition parse_field (meta : hash) (f : string) : Z := default 0%Z (Atoi (get_str meta f)).

(** ** Reading the records of a hash *)

(** Without constraints, remediations and the time of the check. *)
Definition safety_of_meta (meta : hash) : SafetyDecisionRecord :=
  mkSafetyDecisionRecord (get_str meta metaFieldSafetyDecision) (get_str meta metaFieldSafetyReason)
    (get_str meta metaFieldSafetyRuleID) (get_str meta metaFieldSafetySnapshot) None
    (get_str meta metaFieldApprovalRequired =s? "true") (get_str meta metaFieldApprovalRef)
    (get_str meta metaFieldSafetyJobHash) [] 0 (get_str meta metaFieldApprovalStatus)
    (get_str meta metaFieldApprovalActionable) (parse_field meta metaFieldApprovalRevision)
    (get_str meta metaFieldApprovalDecision).

Definition approval_of_meta (meta : hash) : ApprovalRecord :=
  mkApprovalRecord (get_str meta metaFieldApprovalBy) (get_str meta metaFieldApprovalRole)
    (parse_field meta metaFieldApprovalAt) (get_str meta metaFieldApprovalReason) (get_str meta metaFieldApprovalNote)
    (get_str meta metaFieldApprovalSnapshot) (get_str meta metaFieldApprovalJobHash)
    (get_str meta metaFieldApprovalStatus) (get_str meta metaFieldApprovalActionable)
    (parse_field meta metaFieldApprovalRevision) (get_str meta metaFieldApprovalDecision)
    (get_str meta metaFieldApprovalPublishStatus) (get_str meta metaFieldApprovalPublishTarget)
    (parse_field meta metaFieldApprovalPublishedAt).

Definition GetApprovalRecord (jobID : string) (st : jredis) : result StoreError ApprovalRecord :=
  if jobID =s? "" then Err ErrArguments else Ok (approval_of_meta (hash_at st (jobMetaKey jobID))).

Section Approvals.
Context `{ProtoCodec}.

Definition GetSafetyDecision (jobID : string) (st : jredis) : SafetyDecisionRecord :=
  let data := hash_at st (jobMetaKey jobID) in
  let r := safety_of_meta data in
  let constraints := let raw := get_str data metaFieldSafetyConstraints in
                     if raw =s? "" then None else constraints_of_json raw in
  let remediations := let raw := get_str data metaFieldSafetyRemediations in
                      if raw =s? "" then [] else default [] (remediations_of_json raw) in
  mkSafetyDecisionRecord (sd_Decision r) (sd_Reason r) (sd_RuleID r) (sd_PolicySnapshot r) constraints
    (sd_ApprovalRequired r) (sd_ApprovalRef r) (sd_JobHash r) remediations (parse_field data metaFieldSafetyChecked)
    (sd_ApprovalStatus r) (sd_Actionability r) (sd_ApprovalRevision r) (sd_ApprovalDecision r).

(** ** Writing a decision *)

(** The lifecycle a required approval starts with. *)
Definition initial_lifecycle (record : SafetyDecisionRecord) : string * string * Z :=
  let status := if sd_ApprovalStatus record =s? "" then "pending" else sd_ApprovalStatus record in
  (status, if sd_Actionability record =s? "" then DefaultActionability status else sd_Actionability record,
   if (sd_ApprovalRevision record <=? 0)%Z then 1%Z else sd_ApprovalRevision record).

Definition safety_fields (now : Z) (record : SafetyDecisionRecord) : list (string * string) :=
  let checkedAt := if (sd_CheckedAt record =? 0)%Z then now else sd_CheckedAt record in
  let constraintsJSON := match sd_Constraints record with Some c => default "" (constraints_json c) | None => "" end in
  let remediationsJSON := if nonempty (sd_Remediations record) then default "" (remediations_json (sd_Remediations record)) else "" in
  ([(metaFieldSafetyDecision, sd_Decision record); (metaFieldSafetyReason, sd_Reason record);
    (metaFieldSafetyRuleID, sd_RuleID record); (metaFieldSafetySnapshot, sd_PolicySnapshot record);
    (metaFieldSafetyChecked, Itoa checkedAt);
    (metaFieldApprovalRequired, if sd_ApprovalRequired record then "true" else "");
    (metaFieldApprovalRef, sd_ApprovalRef record)]
   ++ nonblank metaFieldSafetyJobHash (sd_JobHash record)
   ++ (if sd_ApprovalRequired record then
         let '(status, actionability, revision) := initial_lifecycle record in
         [(metaFieldApprovalStatus, status); (metaFieldApprovalActionable, actionability);
          (metaFieldApprovalRevision, Itoa revision)]
         ++ nonblank metaFieldApprovalDecision (sd_ApprovalDecision record)
       else [])
   ++ nonblank metaFieldSafetyConstraints constraintsJSON
   ++ nonblank metaFieldSafetyRemediations remediationsJSON)%list.

(** The decision is also pushed on the history of the job, as (decision, time). *)
Definition SetSafetyDecision (now : Z) (jobID : string) (record : SafetyDecisionRecord) (st : jredis) : result StoreError jredis :=
  if jobID =s? "" then Err ErrArguments
  else Ok (pipeline
    [ HSet (jobMetaKey jobID) (safety_fields now record);
      RPush (jobDecisionKey jobID) (sd_Decision record, if (sd_CheckedAt record =? 0)%Z then now else sd_CheckedAt record) ] st).

(** ** Writing an approval *)

Definition approval_fields (now : Z) (record : ApprovalRecord) : list (string * string) :=
  let approvedAt := if (ar_ApprovedAt record =? 0)%Z then now else ar_ApprovedAt record in
  let actionability := if negb (ar_Status record =s? "") && (ar_Actionability record =s? "")
                       then DefaultActionability (ar_Status record) else ar_Actionability record in
  ([(metaFieldApprovalBy, ar_ApprovedBy record); (metaFieldApprovalRole, ar_ApprovedRole record);
    (metaFieldApprovalAt, Itoa approvedAt); (metaFieldApprovalReason, ar_Reason record);
    (metaFieldApprovalNote, ar_Note record); (metaFieldApprovalSnapshot, ar_PolicySnapshot record);
    (metaFieldApprovalJobHash, ar_JobHash record)]
   ++ nonblank metaFieldApprovalStatus (ar_Status record)
   ++ nonblank metaFieldApprovalActionable actionability
   ++ (if (0 <? ar_Revision record)%Z then [(metaFieldApprovalRevision, Itoa (ar_Revision record))] else [])
   ++ nonblank metaFieldApprovalDecision (ar_Decision record)
   ++ nonblank metaFieldApprovalPublishStatus (ar_PublishStatus record)
   ++ nonblank metaFieldApprovalPublishTarget (ar_PublishTarget record)
   ++ (if (0 <? ar_PublishedAt record)%Z then [(metaFieldApprovalPublishedAt, Itoa (ar_PublishedAt record))] else []))%list.

Definition SetApprovalRecord (now : Z) (jobID : string) (record : ApprovalRecord) (st : jredis) : result StoreError jredis :=
  if jobID =s? "" then Err ErrArguments else Ok (HSet (jobMetaKey jobID) (approval_fields now record) st).

Definition MarkApprovalPublishComplete (now : Z) (jobID : string) (revision : Z) (target : string) (st : jredis) : result StoreError jredis :=
  if jobID =s? "" then Err ErrArguments
  else
    let meta := hash_at st (jobMetaKey jobID) in
    let currentRevision := parse_field meta metaFieldApprovalRevision in
    let currentTarget := get_str meta metaFieldApprovalPublishTarget in
    if ((0 <? revision) && (0 <? currentRevision) && negb (currentRevision =? revision))%Z then Ok st
    else if get_str meta metaFieldApprovalPublishStatus =s? "published" then Ok st
    else if negb (target =s? "") && negb (currentTarget =s? "") && negb (currentTarget =s? target) then Ok st
    else if TrimSpace currentTarget =s? "" then Ok st
    else Ok (HSet (jobMetaKey jobID)
               [(metaFieldApprovalPublishStatus, "published"); (metaFieldApprovalPublishedAt, Itoa now)] st).

(** ** What a change of state writes beside the hash *)

(** The pipeline of a resolution or repair after its fields were written. *)
Definition move_state (now : Z) (jobID from to : string) (st : jredis) : jredis :=
  let tenant := get_str (hash_at st (jobMetaKey jobID)) metaFieldTenant in
  pipeline
    [ SetStr (jobStateKey jobID) to;
      when (negb (stateIndexKey from =s? "") && negb (from =s? to)) (ZRem (stateIndexKey from) jobID);
      when (negb (stateIndexKey to =s? "")) (ZAdd (stateIndexKey to) now jobID);
      when (negb (tenant =s? ""))
        (if isActiveState to then SAdd (tenantActiveKey tenant) jobID
         else when (terminalStates to) (SRem (tenantActiveKey tenant) jobID));
      ZAdd recentKey now jobID;
      ZKeep recentKey 1000;
      RPush (jobEventsKey jobID) (to, now);
      when (terminalStates to) (ZRem deadlineIndexKey jobID);
      when (terminalStates to) (HDel (jobMetaKey jobID) metaFieldDeadline) ] st.

(** The state a transaction starts from; [None] is [redis.Nil]. *)
Definition tx_state (jobID : string) (st : jredis) : option string :=
  let stateValue := get_str (hash_at st (jobMetaKey jobID)) "state" in
  if stateValue =s? "" then Get (jobStateKey jobID) st else Some stateValue.

(** ** Resolving *)

Record ApprovalResolutionParams := mkResolutionParams {
  rp_JobID : string;
  rp_Decision : string;
  rp_ResultState : string;
  rp_ApprovedBy : string;
  rp_ApprovedRole : string;
  rp_Reason : string;
  rp_Note : string;
  rp_PolicySnapshot : string;
  rp_LabelUpdates : gmap string string;
  rp_PublishTarget : string;
}.

Record ApprovalResolutionResult := mkResolutionResult {
  rr_JobID : string;
  rr_TraceID : string;
  rr_State : string;
  rr_Request : JobRequest;
  rr_ApprovalRecord : ApprovalRecord;
  rr_SafetyRecord : SafetyDecisionRecord;
}.

Inductive ApprovalError : Type :=
| ApprovalConflict (code msg : string)
| ApprovalNil
| ApprovalErr (msg : string).

Definition not_awaiting (status : string) : ApprovalError :=
  if (status =s? "approved") || (status =s? "rejected") then ApprovalConflict "approval_already_resolved" "approval already resolved"
  else ApprovalConflict "approval_not_actionable"
         (if status =s? "expired" then "approval expired" else if status =s? "invalidated" then "approval invalidated"
          else if status =s? "repaired" then "approval already repaired" else "job not awaiting approval").

Definition not_actionable (status : string) : ApprovalError :=
  if (status =s? "approved") || (status =s? "rejected") then ApprovalConflict "approval_already_resolved" "approval already resolved"
  else ApprovalConflict "approval_not_actionable" "approval is no longer actionable".

(** The labels after the updates: a blank value removes the label. *)
Definition update_labels (updates labels : gmap string string) : gmap string string :=
  filter (fun kv => negb (TrimSpace (snd kv) =s? "") || bool_decide (updates !! fst kv = None)) (updates ∪ labels).

Definition resolution_status (decision : string) : string :=
  if decision =s? "reject" then "rejected" else if decision =s? "expire" then "expired"
  else if decision =s? "invalidate" then "invalidated" else if decision =s? "repair" then "repaired" else "approved".

Definition resolution_target (p : ApprovalResolutionParams) : string :=
  if negb (rp_PublishTarget p =s? "") then rp_PublishTarget p
  else if rp_Decision p =s? "approve" then "submit" else if rp_Decision p =s? "reject" then "dlq" else "".

Definition resolved_record (now : Z) (p : ApprovalResolutionParams) (safety : SafetyDecisionRecord) (current : ApprovalRecord) : ApprovalRecord :=
  let revision := wrap64 (ar_Revision current + 1) in
  let revision := if (revision <=? 1)%Z then 2%Z else revision in
  let status := resolution_status (rp_Decision p) in
  let target := resolution_target p in
  let snapshot := TrimSpace (rp_PolicySnapshot p) in
  mkApprovalRecord (TrimSpace (rp_ApprovedBy p)) (TrimSpace (rp_ApprovedRole p)) now (TrimSpace (rp_Reason p)) (TrimSpace (rp_Note p))
    (if snapshot =s? "" then sd_PolicySnapshot safety else snapshot) (sd_JobHash safety) status (DefaultActionability status)
    revision (rp_Decision p) (if target =s? "" then "" else "pending") target 0.

(** The snapshot the safety record is moved to, on an approval. *)
Definition rotated_snapshot (p : ApprovalResolutionParams) (record : ApprovalRecord) : option string :=
  if (rp_Decision p =s? "approve") && negb (TrimSpace (ar_PolicySnapshot record) =s? "") then Some (ar_PolicySnapshot record) else None.

Definition resolution_fields (now : Z) (p : ApprovalResolutionParams) (meta : hash) (record : ApprovalRecord) (req : JobRequest) : list (string * string) :=
  ([("state", rp_ResultState p); ("updated_at", Itoa now); (metaFieldAttempts, Itoa (metaAttempts meta));
    (metaFieldApprovalBy, ar_ApprovedBy record); (metaFieldApprovalRole, ar_ApprovedRole record);
    (metaFieldApprovalAt, Itoa (ar_ApprovedAt record)); (metaFieldApprovalReason, ar_Reason record);
    (metaFieldApprovalNote, ar_Note record); (metaFieldApprovalSnapshot, ar_PolicySnapshot record);
    (metaFieldApprovalJobHash, ar_JobHash record); (metaFieldApprovalStatus, ar_Status record);
    (metaFieldApprovalActionable, ar_Actionability record); (metaFieldApprovalRevision, Itoa (ar_Revision record));
    (metaFieldApprovalDecision, ar_Decision record)]
   ++ nonblank metaFieldApprovalPublishStatus (ar_PublishStatus record)
   ++ nonblank metaFieldApprovalPublishTarget (ar_PublishTarget record)
   ++ match rotated_snapshot p record with Some s => [(metaFieldSafetySnapshot, s)] | None => [] end
   ++ (if bool_decide (jr_Labels req = ∅) then [] else [(metaFieldLabels, labels_json (jr_Labels req))]))%list.

Definition set_snapshot (v : string) (r : SafetyDecisionRecord) : SafetyDecisionRecord :=
  mkSafetyDecisionRecord (sd_Decision r) (sd_Reason r) (sd_RuleID r) v (sd_Constraints r) (sd_ApprovalRequired r)
    (sd_ApprovalRef r) (sd_JobHash r) (sd_Remediations r) (sd_CheckedAt r) (sd_ApprovalStatus r) (sd_Actionability r)
    (sd_ApprovalRevision r) (sd_ApprovalDecision r).

(** An approval is bound to the hash of the request it was asked for. *)
Definition stale_request (p : ApprovalResolutionParams) (safety : SafetyDecisionRecord) (req : JobRequest) : option ApprovalError :=
  if rp_Decision p =s? "approve" then
    match Hash req with
    | Err e => Some (ApprovalErr ("hash approval request: " +:+ e))
    | Ok hash =>
        if (sd_JobHash safety =s? "") || negb (hash =s? sd_JobHash safety)
        then Some (ApprovalConflict "approval_stale_request" "job request changed; approval no longer valid") else None
    end
  else None.

Definition ResolveApproval (now : Z) (p : ApprovalResolutionParams) (st : jredis) : result ApprovalError (jredis * ApprovalResolutionResult) :=
  if TrimSpace (rp_JobID p) =s? "" then Err (ApprovalErr "jobID required")
  else if rp_Decision p =s? "" then Err (ApprovalErr "approval decision required")
  else if rp_ResultState p =s? "" then Err (ApprovalErr "approval result state required")
  else
    let jobID := TrimSpace (rp_JobID p) in
    let meta := hash_at st (jobMetaKey jobID) in
    match tx_state jobID st with
    | None => Err ApprovalNil
    | Some currentState =>
        let safety := safety_of_meta meta in
        let approval := NormalizeApprovalRecord currentState safety (approval_of_meta meta) in
        if negb (currentState =s? JobStateApproval) then Err (not_awaiting (ar_Status approval))
        else if negb (ar_Actionability approval =s? "") && negb (ar_Actionability approval =s? "actionable")
        then Err (not_actionable (ar_Status approval))
        else match Get (jobRequestKey jobID) st with
             | None => Err (ApprovalErr "job request not found")
             | Some data =>
                 match request_of_json data with
                 | None => Err (ApprovalErr "unmarshal job request")
                 | Some req =>
                     match stale_request p safety req with
                     | Some e => Err e
                     | None =>
                         let req := set_jr_Labels (update_labels (rp_LabelUpdates p) (jr_Labels req)) req in
                         match request_json req with
                         | None => Err (ApprovalErr "marshal resolved job request")
                         | Some payload =>
                             let record := resolved_record now p safety approval in
                             let st := HSet (jobMetaKey jobID) (resolution_fields now p meta record req) st in
                             let st := SetStr (jobRequestKey jobID) payload st in
                             let safety := match rotated_snapshot p record with Some s => set_snapshot s safety | None => safety end in
                             Ok (move_state now jobID currentState (rp_ResultState p) st,
                                 mkResolutionResult jobID (get_str meta metaFieldTraceID) (rp_ResultState p) req record safety)
                         end
                     end
                 end
             end
    end.

(** ** Repairing *)

Inductive ApprovalRepairKind : Set :=
| ApprovalRepairNone
| ApprovalRepairReplayPendingPublish
| ApprovalRepairApplyApprovedResolution
| ApprovalRepairApplyRejectedResolution
| ApprovalRepairInvalidateTerminalRun
| ApprovalRepairInvalidateStaleRequest
| ApprovalRepairInvalidateStaleSnapshot.

Record ApprovalRepairSnapshot := mkRepairSnapshot {
  rs_JobID : string;
  rs_State : string;
  rs_TraceID : string;
  rs_Topic : string;
  rs_RunID : string;
  rs_Request : JobRequest;
  rs_RequestHash : string;
  rs_SafetyRecord : SafetyDecisionRecord;
  rs_ApprovalRecord : ApprovalRecord;
}.

Record ApprovalRepairClassifyOptions := mkClassifyOptions { co_WorkflowTerminal : bool; co_StaleSnapshot : bool }.

Record ApprovalRepairPlan := mkRepairPlan {
  pl_JobID : string;
  pl_Kind : ApprovalRepairKind;
  pl_Repairable : bool;
  pl_Reason : string;
  pl_CurrentState : string;
  pl_TargetState : string;
  pl_ApprovalStatus : string;
  pl_Actionability : string;
  pl_Decision : string;
  pl_PublishTarget : string;
  pl_Topic : string;
  pl_RunID : string;
  pl_RequestHash : string;
}.

Definition InspectApprovalRepair (jobID : string) (st : jredis) : result StoreError ApprovalRepairSnapshot :=
  if jobID =s? "" then Err ErrArguments
  else match GetState jobID st with
       | None => Err ErrNotFound
       | Some state =>
           match GetJobRequest jobID st with
           | Err e => Err e
           | Ok req =>
               let safety := GetSafetyDecision jobID st in
               let approval := NormalizeApprovalRecord state safety (approval_of_meta (hash_at st (jobMetaKey jobID))) in
               let hash := match Hash req with Ok h => h | Err _ => "" end in
               Ok (mkRepairSnapshot jobID state (default "" (HGet (jobMetaKey jobID) metaFieldTraceID st)) (TrimSpace (jr_Topic req))
                     (TrimSpace (get_str (jr_Labels req) "run_id")) req hash safety approval)
           end
       end.

Definition workflow_gate_topic : string := "job.cordum.approval-gate".

(** A plan with its outcome filled in. *)
Definition plan_for (snapshot : ApprovalRepairSnapshot) (kind : ApprovalRepairKind) (repairable : bool)
    (reason target status actionability decision publish : string) : ApprovalRepairPlan :=
  mkRepairPlan (rs_JobID snapshot) kind repairable reason (rs_State snapshot) target status actionability decision publish
    (rs_Topic snapshot) (rs_RunID snapshot) (rs_RequestHash snapshot).

Definition invalidation (snapshot : ApprovalRepairSnapshot) (kind : ApprovalRepairKind) (reason : string) : ApprovalRepairPlan :=
  plan_for snapshot kind true reason JobStateDenied "invalidated" (DefaultActionability "invalidated") "invalidate" "".

Definition granted_label (req : JobRequest) : bool := EqualFold (TrimSpace (get_str (jr_Labels req) "approval_granted")) "true".

Definition ClassifyApprovalRepair (snapshot : ApprovalRepairSnapshot) (opts : ApprovalRepairClassifyOptions) : ApprovalRepairPlan :=
  let approval := rs_ApprovalRecord snapshot in
  if negb (rs_State snapshot =s? JobStateApproval) then
    if HasPendingPublish approval
    then plan_for snapshot ApprovalRepairReplayPendingPublish true
           "approval decision committed but publish intent is still pending" (rs_State snapshot) (ar_Status approval)
           (ar_Actionability approval) (ar_Decision approval) (ar_PublishTarget approval)
    else plan_for snapshot ApprovalRepairNone false "" "" "" "" "" ""
  else if (ar_Decision approval =s? "approve") || (ar_Status approval =s? "approved") || granted_label (rs_Request snapshot)
  then plan_for snapshot ApprovalRepairApplyApprovedResolution true
         "approval was already resolved as approved while the job remained awaiting approval" JobStatePending "approved"
         (DefaultActionability "approved") "approve" "submit"
  else if (ar_Decision approval =s? "reject") || (ar_Status approval =s? "rejected")
  then plan_for snapshot ApprovalRepairApplyRejectedResolution true
         "approval was already resolved as rejected while the job remained awaiting approval" JobStateDenied "rejected"
         (DefaultActionability "rejected") "reject"
         (if rs_Topic snapshot =s? workflow_gate_topic then "dlq_and_result" else "dlq")
  else if co_WorkflowTerminal opts
  then invalidation snapshot ApprovalRepairInvalidateTerminalRun "workflow run already reached a terminal state; approval is no longer valid"
  else if co_StaleSnapshot opts
  then invalidation snapshot ApprovalRepairInvalidateStaleSnapshot "policy snapshot changed since the approval request was created"
  else if negb (sd_JobHash (rs_SafetyRecord snapshot) =s? "") && negb (rs_RequestHash snapshot =s? "")
          && negb (rs_RequestHash snapshot =s? sd_JobHash (rs_SafetyRecord snapshot))
  then invalidation snapshot ApprovalRepairInvalidateStaleRequest "job request changed since the approval request was created"
  else plan_for snapshot ApprovalRepairNone false "" "" "" "" "" "".

Record ApprovalRepairResult := mkRepairResult {
  ra_JobID : string;
  ra_TraceID : string;
  ra_State : string;
  ra_Request : option JobRequest;
  ra_ApprovalRecord : ApprovalRecord;
  ra_Plan : ApprovalRepairPlan;
}.

Definition newline : string := String (ascii_of_nat 10) "".

(** The note with the entry of the repair appended, once. *)
Definition repair_note (note planNote : string) : string :=
  if planNote =s? "" then note
  else let entry := "repair: " +:+ planNote in
       if note =s? "" then entry else if Contains note entry then note else note +:+ newline +:+ entry.

Definition repaired_record (now : Z) (plan : ApprovalRepairPlan) (actor note : string) (safety : SafetyDecisionRecord) (a : ApprovalRecord) : ApprovalRecord :=
  let revision := wrap64 (ar_Revision a + 1) in
  let status := if pl_ApprovalStatus plan =s? "" then ar_Status a else pl_ApprovalStatus plan in
  let decision := if pl_Decision plan =s? "" then ar_Decision a else pl_Decision plan in
  let approvedBy := TrimSpace (ar_ApprovedBy a) in
  let role := TrimSpace (ar_ApprovedRole a) in
  let reason := TrimSpace (ar_Reason a) in
  let planNote := if TrimSpace note =s? "" then TrimSpace (pl_Reason plan) else TrimSpace note in
  let snapshot := TrimSpace (ar_PolicySnapshot a) in
  let hash := TrimSpace (ar_JobHash a) in
  mkApprovalRecord
    (if approvedBy =s? "" then (if TrimSpace actor =s? "" then "system/repair" else TrimSpace actor) else approvedBy)
    (if (approvedBy =s? "") && (role =s? "") then "system" else role)
    (if (ar_ApprovedAt a =? 0)%Z then now else ar_ApprovedAt a)
    (if (reason =s? "") && (decision =s? "invalidate") then TrimSpace (pl_Reason plan) else reason)
    (repair_note (TrimSpace (ar_Note a)) planNote)
    (if snapshot =s? "" then TrimSpace (sd_PolicySnapshot safety) else snapshot)
    (if hash =s? "" then TrimSpace (sd_JobHash safety) else hash)
    status (if pl_Actionability plan =s? "" then DefaultActionability status else pl_Actionability plan)
    (if (revision <=? 0)%Z then 1%Z else revision) decision
    (if pl_PublishTarget plan =s? "" then "" else "pending") (pl_PublishTarget plan) 0.

(** The request an approved repair leaves for the scheduler. *)
Definition approved_request (jobID : string) (record : ApprovalRecord) (req : JobRequest) : JobRequest :=
  let labels := <[LabelBusMsgID := "approval:" +:+ jobID]> (<["approval_granted" := "true"]> (jr_Labels req)) in
  let labels := if ar_Reason record =s? "" then labels else <["approval_reason" := ar_Reason record]> labels in
  let labels := if ar_Note record =s? "" then labels else <["approval_note" := ar_Note record]> labels in
  set_jr_Labels labels req.

Definition repair_fields (now : Z) (plan : ApprovalRepairPlan) (meta : hash) (record : ApprovalRecord) (req : option JobRequest) : list (string * string) :=
  ([("state", pl_TargetState plan); ("updated_at", Itoa now); (metaFieldApprovalBy, ar_ApprovedBy record);
    (metaFieldApprovalRole, ar_ApprovedRole record); (metaFieldApprovalAt, Itoa (ar_ApprovedAt record));
    (metaFieldApprovalReason, ar_Reason record); (metaFieldApprovalNote, ar_Note record);
    (metaFieldApprovalSnapshot, ar_PolicySnapshot record); (metaFieldApprovalJobHash, ar_JobHash record);
    (metaFieldApprovalStatus, ar_Status record); (metaFieldApprovalActionable, ar_Actionability record);
    (metaFieldApprovalRevision, Itoa (ar_Revision record)); (metaFieldApprovalDecision, ar_Decision record)]
   ++ (if ar_PublishStatus record =s? "" then []
       else [(metaFieldApprovalPublishStatus, ar_PublishStatus record); (metaFieldApprovalPublishTarget, ar_PublishTarget record)])
   ++ match req with
      | Some req => if bool_decide (jr_Labels req = ∅) then [] else [(metaFieldLabels, labels_json (jr_Labels req))]
      | None => []
      end
   ++ [(metaFieldAttempts, Itoa (metaAttempts meta))])%list.

Definition is_none_kind (k : ApprovalRepairKind) : bool := match k with ApprovalRepairNone => true | _ => false end.
Definition is_replay_kind (k : ApprovalRepairKind) : bool := match k with ApprovalRepairReplayPendingPublish => true | _ => false end.
Definition is_approved_kind (k : ApprovalRepairKind) : bool := match k with ApprovalRepairApplyApprovedResolution => true | _ => false end.

(** The stored request, if there is one. *)
Definition repair_request (jobID : string) (st : jredis) : result ApprovalError (option JobRequest) :=
  match Get (jobRequestKey jobID) st with
  | None => Ok None
  | Some data =>
      if data =s? "" then Ok None
      else match request_of_json data with Some req => Ok (Some req) | None => Err (ApprovalErr "unmarshal job request") end
  end.

Definition ApplyApprovalRepair (now : Z) (jobID : string) (plan : ApprovalRepairPlan) (actor note : string) (st : jredis)
    : result ApprovalError (jredis * ApprovalRepairResult) :=
  if TrimSpace jobID =s? "" then Err (ApprovalErr "jobID required")
  else if is_none_kind (pl_Kind plan) then Err (ApprovalErr "approval repair plan required")
  else
    let jobID := TrimSpace jobID in
    let meta := hash_at st (jobMetaKey jobID) in
    match tx_state jobID st with
    | None => Err ApprovalNil
    | Some currentState =>
        if negb (pl_CurrentState plan =s? "") && negb (currentState =s? pl_CurrentState plan)
        then Err (ApprovalErr ("approval repair state changed from " +:+ pl_CurrentState plan +:+ " to " +:+ currentState))
        else match repair_request jobID st with
             | Err e => Err e
             | Ok req =>
                 let safety := safety_of_meta meta in
                 let approval := NormalizeApprovalRecord currentState safety (approval_of_meta meta) in
                 if is_replay_kind (pl_Kind plan)
                 then Ok (st, mkRepairResult jobID (get_str meta metaFieldTraceID) currentState req approval plan)
                 else
                   let record := repaired_record now plan actor note safety approval in
                   let req := if is_approved_kind (pl_Kind plan) then approved_request jobID record <$> req else req in
                   match (match req with None => Some None | Some req => Some <$> request_json req end) with
                   | None => Err (ApprovalErr "marshal repaired job request")
                   | Some payload =>
                       let st := HSet (jobMetaKey jobID) (repair_fields now plan meta record req) st in
                       let st := if ar_PublishStatus record =s? ""
                                 then HDel (jobMetaKey jobID) metaFieldApprovalPublishTarget
                                        (HDel (jobMetaKey jobID) metaFieldApprovalPublishStatus st) else st in
                       let st := HDel (jobMetaKey jobID) metaFieldApprovalPublishedAt st in
                       let st := match payload with Some p => SetStr (jobRequestKey jobID) p st | None => st end in
                       Ok (move_state now jobID currentState (pl_TargetState plan) st,
                           mkRepairResult jobID (get_str meta metaFieldTraceID) (pl_TargetState plan) req record plan)
                   end
             end
    end.

End Approvals.

(** * Theorems *)

Lemma decision_of_status r :
  ar_Decision r = "" -> derivedApprovalDecision r <> "" ->
  statusOfDecision (derivedApprovalDecision r) = ar_Status r.
Proof.
  intros Hd. unfold derivedApprovalDecision. rewrite Hd. cbn [negb String.eqb].
  repeat match goal with |- context [ar_Status r =s? ?x] =>
    destruct (String.eqb_spec (ar_Status r) x) as [->|]; [done|] end.
  done.
Qed.

Lemma derived_decision_fix r b a v :
  derivedApprovalDecision (set_lifecycle (ar_Status r) a v (derivedApprovalDecision r) b)
  = derivedApprovalDecision r.
Proof.
  unfold derivedApprovalDecision at 1. cbn [ar_Decision ar_Status set_lifecycle].
  destruct (String.eqb_spec (derivedApprovalDecision r) "") as [E|]; cbn [negb]; [|done].
  rewrite E. revert E. unfold derivedApprovalDecision.
  destruct (String.eqb_spec (ar_Decision r) "") as [->|]; cbn [negb]; done.
Qed.

(** An undetermined status stays undetermined. *)
Lemma derived_status_fix state safety r a v :
  let s := derivedApprovalStatus state safety r in
  let d := derivedApprovalDecision (set_lifecycle s (ar_Actionability r) (ar_Revision r) (ar_Decision r) r) in
  derivedApprovalStatus state safety (set_lifecycle s a v d r) = s.
Proof.
  intros s d. unfold derivedApprovalStatus. cbn [ar_Status ar_Decision ar_ApprovedBy set_lifecycle].
  destruct (String.eqb_spec s "") as [E|]; cbn [negb]; [|done].
  assert (Hd : d = ar_Decision r).
  { unfold d, derivedApprovalDecision. cbn [ar_Decision ar_Status set_lifecycle]. rewrite E.
    destruct (String.eqb_spec (ar_Decision r) "") as [->|]; done. }
  rewrite Hd. unfold s, derivedApprovalStatus in E |- *.
  destruct (String.eqb_spec (ar_Status r) ""); [done|]. cbn [negb] in *. congruence.
Qed.

Lemma derived_revision_fix safety r b s a d :
  derivedApprovalRevision safety (set_lifecycle s a (derivedApprovalRevision safety r) d b)
  = derivedApprovalRevision safety r.
Proof.
  set (v := derivedApprovalRevision safety r). unfold derivedApprovalRevision at 1. cbn [ar_Revision set_lifecycle].
  destruct (Z.ltb_spec 0 v) as [|Hv]; [done|]. revert Hv. unfold v, derivedApprovalRevision.
  repeat case_match; try done; lia.
Qed.

(** The normal form in one step. *)
Lemma normalize_form state safety r :
  let s := derivedApprovalStatus state safety r in
  NormalizeApprovalRecord state safety r =
  set_lifecycle s (if ar_Actionability r =s? "" then DefaultActionability s else ar_Actionability r)
    (derivedApprovalRevision safety r)
    (derivedApprovalDecision (set_lifecycle s (ar_Actionability r) (ar_Revision r) (ar_Decision r) r)) r.
Proof. reflexivity. Qed.

Lemma set_lifecycle_twice s a v d s' a' v' d' r :
  set_lifecycle s a v d (set_lifecycle s' a' v' d' r) = set_lifecycle s a v d r.
Proof. reflexivity. Qed.

(** Normalising an approval record is idempotent, keeps a status or decision
    that was set, and a record that carried no decision gets the one that matches
    its status, so the two never contradict each other. *)
Theorem normalize_approval_idempotent state safety r :
  let n := NormalizeApprovalRecord state safety r in
  NormalizeApprovalRecord state safety n = n /\
  (ar_Status r <> "" -> ar_Status n = ar_Status r) /\
  (ar_Decision r <> "" -> ar_Decision n = ar_Decision r) /\
  (ar_Decision r = "" -> ar_Decision n <> "" -> statusOfDecision (ar_Decision n) = ar_Status n).
Proof.
  intros n. split_and!.
  - unfold n. rewrite !normalize_form. cbv zeta. rewrite derived_status_fix, !set_lifecycle_twice.
    set (s := derivedApprovalStatus state safety r). f_equal.
    + cbn [ar_Actionability set_lifecycle].
      destruct (String.eqb_spec (ar_Actionability r) "") as [E|E]; [by destruct (_ =s? _)|].
      by rewrite eqb_ne.
    + apply derived_revision_fix.
    + apply (derived_decision_fix (set_lifecycle s (ar_Actionability r) (ar_Revision r) (ar_Decision r) r)).
  - intros Hs. unfold n, NormalizeApprovalRecord, derivedApprovalStatus. cbn [ar_Status set_lifecycle].
    by rewrite eqb_ne.
  - intros Hd. unfold n, NormalizeApprovalRecord, derivedApprovalDecision. cbn [ar_Decision set_lifecycle].
    by rewrite eqb_ne.
  - intros Hd. unfold n, NormalizeApprovalRecord. cbn [ar_Decision ar_Status set_lifecycle].
    by apply decision_of_status.
Qed.

