(* ===== verification/ApprovalTheorems.v ===== *)
(** * Approvals are decided once

    Theorems on [JobStore], [JobMeta] and [JobApproval]: resolutions and repairs
    keep the query views of every job in step with its metadata; a resolution
    succeeds exactly on a job that waits for an approval that can still be acted
    on, for the request it was asked for; and once decided, an approval stays
    decided until a new safety decision asks for another one. *)
From Stdlib Require Import Ascii.
From S2P Require Import Prelude.
From S2P Require Import GoStrings.
From S2P Require Import PolicyTypes.
From S2P Require Import JobRuntime.
From S2P Require Import JobStore.
From S2P Require Import GoValues.
From S2P Require Import WorkflowModels.
From S2P Require Import JobMeta.
From S2P Require Import JobApproval.

Open Scope string_scope.

(** ** Fields of a hash after a write *)

Definition write_fields (fields : list (string * string)) (h : hash) : hash :=
  foldl (fun h '(f, v) => <[f := v]> h) h fields.

Lemma hash_at_HSet key fields st k :
  hash_at (HSet key fields st) k = if decide (k = key) then write_fields fields (hash_at st key) else hash_at st k.
Proof. unfold HSet. by rewrite hash_at_put. Qed.

Lemma hash_at_HDel key f st k :
  hash_at (HDel key f st) k = if decide (k = key) then delete f (hash_at st key) else hash_at st k.
Proof. unfold HDel. by rewrite hash_at_put. Qed.

(** A field none of the writes names keeps its value. *)
Lemma write_fields_other fields h f :
  f ∉ map fst fields -> write_fields fields h !! f = h !! f.
Proof.
  unfold write_fields. revert h. induction fields as [|[g v] l IH]; intros h Hf; [done|]. cbn in *.
  rewrite IH by set_solver. apply lookup_insert_ne. set_solver.
Qed.

Lemma write_fields_app l1 l2 h : write_fields (l1 ++ l2)%list h = write_fields l2 (write_fields l1 h).
Proof. apply foldl_app. Qed.

Lemma write_fields_head f v l h : f ∉ map fst l -> write_fields ((f, v) :: l) h !! f = Some v.
Proof. intros Hf. change (write_fields l (<[f := v]> h) !! f = Some v). by rewrite write_fields_other, lookup_insert_eq. Qed.

Lemma write_fields_at l1 f v l2 h :
  f ∉ map fst l2 -> write_fields (l1 ++ (f, v) :: l2)%list h !! f = Some v.
Proof. intros Hf. rewrite write_fields_app. by apply write_fields_head. Qed.

Lemma write_fields_nth l n f v h :
  nth_error l n = Some (f, v) -> f ∉ map fst (skipn (S n) l) -> write_fields l h !! f = Some v.
Proof.
  intros Hn Hf. rewrite <- (firstn_skipn n l).
  assert (Hs : skipn n l = (f, v) :: skipn (S n) l).
  { clear Hf. revert n Hn. induction l as [|x l IH]; intros [|n] Hn; try discriminate Hn; [by injection Hn as ->|by apply (IH n)]. }
  rewrite Hs. by apply write_fields_at.
Qed.

(** A closed name is not among the fields of a written list. *)
Ltac not_written :=
  rewrite ?map_app; unfold nonblank; repeat case_match; apply (bool_decide_unpack _); lazy; exact I.

Lemma nonblank_fields f v : map fst (nonblank f v) ⊆ [f].
Proof. unfold nonblank. case_match; set_solver. Qed.

(** ** Moves of a resolution or repair *)

(** A write that touches one metadata hash, its state and tenant as told, and no
    state key, index or active set. *)
Record metadata_write (j : string) (st st1 : jredis) : Prop := {
  mw_hash : forall k, k <> jobMetaKey j -> hash_at st1 k = hash_at st k;
  mw_tenant : meta_tenant st1 j = meta_tenant st j;
  mw_keys : forall i, strs st1 !! jobStateKey i = strs st !! jobStateKey i;
  mw_zsets : zsets st1 = zsets st;
  mw_sets : sets st1 = sets st;
}.

Lemma metadata_write_refl j st : metadata_write j st st.
Proof. by constructor. Qed.

Lemma metadata_write_HSet j fields st st1 :
  metaFieldTenant ∉ map fst fields -> metadata_write j st st1 ->
  metadata_write j st (HSet (jobMetaKey j) fields st1).
Proof.
  intros Hf [H1 H2 H3 H4 H5]. constructor; try done.
  - intros k Hk. rewrite hash_at_HSet, decide_False by done. by apply H1.
  - rewrite <- H2. unfold meta_tenant, get_str. rewrite hash_at_HSet, decide_True by done. by rewrite write_fields_other.
Qed.

Lemma metadata_write_HDel j f st st1 :
  metaFieldTenant <> f -> metadata_write j st st1 -> metadata_write j st (HDel (jobMetaKey j) f st1).
Proof.
  intros Hf [H1 H2 H3 H4 H5]. constructor; try done.
  - intros k Hk. rewrite hash_at_HDel, decide_False by done. by apply H1.
  - rewrite <- H2. unfold meta_tenant, get_str. rewrite hash_at_HDel, decide_True by done. by rewrite lookup_delete_ne.
Qed.

Lemma metadata_write_SetStr j k v st st1 :
  (forall i, k <> jobStateKey i) -> metadata_write j st st1 -> metadata_write j st (SetStr k v st1).
Proof.
  intros Hf [H1 H2 H3 H4 H5]. constructor; try done.
  intros i. rewrite strs_SetStr, decide_False by done. apply H3.
Qed.

Lemma request_key_no_state j i : jobRequestKey j <> jobStateKey i.
Proof. discriminate. Qed.

Lemma active_of s : s ∈ projectedJobStates -> isActiveState s = negb (terminalStates s).
Proof. intros Hs. unfold isActiveState. by rewrite (eqb_ne s "") by by apply projected_nonempty. Qed.

Lemma index_key_nonempty s : s ∈ projectedJobStates -> (stateIndexKey s =s? "") = false.
Proof. intros Hs. unfold stateIndexKey. by rewrite (eqb_ne s "") by by apply projected_nonempty. Qed.

Lemma move_state_moved now j from to st st1 :
  job_views st j -> meta_state st j = Some from -> to ∈ projectedJobStates ->
  metadata_write j st st1 -> meta_state st1 j = Some to ->
  moved st j to (move_state now j from to st1).
Proof.
  intros Hv Hfrom Hto [H1 H2 H3 H4 H5] Hs1.
  pose proof (v_known _ _ Hv _ Hfrom) as Hk.
  assert (Hz : forall k m, in_zset st1 k m <-> in_zset st k m) by (intros; unfold in_zset, zset_at; by rewrite H4).
  assert (Hse : forall k m, in_set st1 k m <-> in_set st k m) by (intros; unfold in_set, set_at; by rewrite H5).
  unfold move_state, pipeline. cbn [foldl]. fold (meta_tenant st1 j).
  rewrite (active_of to), !index_key_nonempty by done. cbn [negb andb].
  match goal with |- moved _ _ _ ?x => set (st' := x) end.
  assert (Hh : forall k, hash_at st' k = hash_at (if terminalStates to then HDel (jobMetaKey j) metaFieldDeadline st1 else st1) k).
  { intros k. unfold st', when.
    destruct (from =s? to), (meta_tenant st1 j =s? ""), (terminalStates to); reflexivity. }
  constructor.
  - unfold meta_state. rewrite Hh, clear_deadline_lookup by done. exact Hs1.
  - rewrite <- H2. unfold meta_tenant, get_str. by rewrite Hh, clear_deadline_lookup.
  - intros i Hi. assert (jobMetaKey i <> jobMetaKey j) by (intros H; by apply meta_key_inj in H).
    rewrite Hh. destruct (terminalStates to); rewrite ?hash_at_HDel, ?decide_False by done; by apply H1.
  - intros i. rewrite Hh. destruct (terminalStates to); rewrite ?hash_at_HDel, ?decide_False by done; by apply H1.
  - intros i. rewrite <- H3. apply (key_write_moves st1 j to st'). intros k. unfold st', when.
    destruct (from =s? to), (meta_tenant st1 j =s? ""), (terminalStates to); reflexivity.
  - intros i t Ht.
    assert (Hd : stateIndexKey t <> deadlineIndexKey) by (apply index_key_other; auto).
    assert (Hr : stateIndexKey t <> recentKey) by (apply index_key_other; auto).
    transitivity (in_zset (ZAdd (stateIndexKey to) now j (if from =s? to then st1 else ZRem (stateIndexKey from) j st1))
                    (stateIndexKey t) i).
    + transitivity (in_zset (let st2 := ZKeep recentKey 1000 (ZAdd recentKey now j
                (ZAdd (stateIndexKey to) now j
                  (if from =s? to then st1 else ZRem (stateIndexKey from) j st1))) in
              if terminalStates to then ZRem deadlineIndexKey j st2 else st2) (stateIndexKey t) i).
      { unfold st', when. destruct (from =s? to), (meta_tenant st1 j =s? ""), (terminalStates to); reflexivity. }
      cbn zeta. destruct (terminalStates to); rewrite ?in_ZRem, in_ZKeep_other, in_ZAdd by done; naive_solver.
    + assert (Hkk : stateIndexKey t = stateIndexKey to <-> t = to) by (split; [by apply index_key_inj|by intros ->]).
      assert (Hkf : stateIndexKey t = stateIndexKey from <-> t = from) by (split; [by apply index_key_inj|by intros ->]).
      assert (Hvi := v_index _ _ Hv t Ht). rewrite Hfrom in Hvi.
      rewrite in_ZAdd. destruct (String.eqb_spec from to) as [->|Hne]; rewrite ?in_ZRem, Hz, Hkk, ?Hkf;
        case_decide as E; try subst i; rewrite ?Hvi; naive_solver.
  - intros i t Ht. rewrite <- H2.
    transitivity (if decide (i = j /\ t = meta_tenant st1 j) then isActiveState to = true else in_set st1 (tenantActiveKey t) i);
      [|case_decide; [done|apply Hse]].
    apply (active_write_moves st1 j to (meta_tenant st1 j) st'); [done|done| |done].
    intros k m. unfold st', when. destruct (from =s? to), (meta_tenant st1 j =s? ""), (terminalStates to); reflexivity.
Qed.

Lemma move_state_frame now j from to st :
  strs (move_state now j from to st) = <[jobStateKey j := to]> (strs st) /\
  forall k, k <> jobMetaKey j -> hash_at (move_state now j from to st) k = hash_at st k.
Proof.
  unfold move_state, pipeline, when. cbn [foldl]. split.
  - destruct (_ && _), (negb (stateIndexKey to =s? "")), (negb _), (isActiveState to), (terminalStates to); reflexivity.
  - intros k Hk. transitivity (hash_at (if terminalStates to then HDel (jobMetaKey j) metaFieldDeadline st else st) k).
    + destruct (_ && _), (negb (stateIndexKey to =s? "")), (negb _), (isActiveState to), (terminalStates to); reflexivity.
    + destruct (terminalStates to); [|done]. by rewrite hash_at_HDel, decide_False.
Qed.

(** Under agreeing views, the state a transaction reads is the state of the hash. *)
Lemma tx_state_meta st j s : job_views st j -> tx_state j st = Some s -> meta_state st j = Some s.
Proof.
  intros Hv. unfold tx_state, get_str. fold (meta_state st j).
  destruct (meta_state st j) as [s'|] eqn:E; cbn [default].
  - rewrite eqb_ne by (apply projected_nonempty; by apply (v_known _ _ Hv)). done.
  - cbn. unfold Get. rewrite (v_key _ _ Hv), E. done.
Qed.

(** ** The fields a state change does not write *)

Lemma Ok_inj {E A} (a b : A) : (Ok a : result E A) = Ok b -> a = b.
Proof. congruence. Qed.

(** Field [f] of every metadata hash survives the command [c]. *)
Definition keeps (f : string) (c : jredis -> jredis) : Prop :=
  forall st i, hash_at (c st) (jobMetaKey i) !! f = hash_at st (jobMetaKey i) !! f.

Lemma keeps_same f c : (forall st, hashes (c st) = hashes st) -> keeps f c.
Proof. intros Hc st i. unfold hash_at. by rewrite Hc. Qed.

Lemma keeps_HSet f key fields : f ∉ map fst fields -> keeps f (HSet key fields).
Proof. intros Hf st i. rewrite hash_at_HSet. case_decide as E; [|done]. rewrite E. by apply write_fields_other. Qed.

Lemma keeps_HDel f key g : f <> g -> keeps f (HDel key g).
Proof. intros Hf st i. rewrite hash_at_HDel. case_decide as E; [|done]. rewrite E. by apply lookup_delete_ne. Qed.

Lemma keeps_when f b c : keeps f c -> keeps f (when b c).
Proof. intros Hc st. unfold when. by destruct b. Qed.

Lemma keeps_if f (b : bool) c1 c2 : keeps f c1 -> keeps f c2 -> keeps f (if b then c1 else c2).
Proof. by destruct b. Qed.

Lemma keeps_pipeline f cmds : Forall (keeps f) cmds -> keeps f (pipeline cmds).
Proof.
  unfold pipeline. induction 1 as [|c cmds Hc _ IH]; intros st i; [done|]. cbn [foldl]. by rewrite IH, Hc.
Qed.

Lemma keeps_runtime f j h st i : hash_at (put_hash (jobRuntimeKey j) h st) (jobMetaKey i) !! f = hash_at st (jobMetaKey i) !! f.
Proof. by rewrite hash_at_put, decide_False by apply meta_not_runtime. Qed.

Create HintDb kept_fields discriminated.
#[local] Hint Resolve keeps_HSet keeps_HDel keeps_when keeps_if keeps_pipeline : kept_fields.
#[local] Hint Extern 2 (keeps _ _) => apply keeps_same; intros; reflexivity : kept_fields.

(** The fields the state changes write. *)
Definition state_fields : list string :=
  ["state"; "updated_at"; metaFieldAttempts; metaFieldDeadline; metaFieldWorkerID; runtimeResultField].

Section StateFields.
Context (f : string) (Hf : f ∉ state_fields).

Lemma not_state_field g : g ∈ state_fields -> f <> g.
Proof. intros Hg ->. done. Qed.

#[local] Hint Extern 1 (_ <> _) => apply not_state_field; set_solver : kept_fields.
#[local] Hint Extern 1 (_ ∉ _) => cbn [map fst]; set_solver : kept_fields.

Lemma keeps_SetStateWithContext now j s st st' i :
  SetStateWithContext now j s st = Ok st' -> hash_at st' (jobMetaKey i) !! f = hash_at st (jobMetaKey i) !! f.
Proof.
  unfold SetStateWithContext. destruct (_ || _); [done|]. destruct (negb _); [done|]. cbv zeta. intros <-%Ok_inj.
  apply keeps_pipeline. repeat constructor; eauto with kept_fields.
Qed.

Lemma keeps_SetState now j s st i : hash_at (SetState now j s st).1 (jobMetaKey i) !! f = hash_at st (jobMetaKey i) !! f.
Proof.
  assert (Hl : forall st0, hash_at st0 (jobMetaKey i) !! f = hash_at st (jobMetaKey i) !! f ->
    hash_at (match SetStateWithContext now j s st0 with inl e => (st0, Some e) | inr st1 => (st1, None) end).1 (jobMetaKey i) !! f
    = hash_at st (jobMetaKey i) !! f).
  { intros st0 <-. destruct (SetStateWithContext now j s st0) as [e|st1] eqn:E; [done|]. by eapply keeps_SetStateWithContext. }
  unfold SetState. destruct (_ || _); [done|]. destruct (negb _); [by apply Hl|].
  unfold transitionRuntimeState. destruct (transitionRuntimeStateScript _ s) as [h r].
  destruct (r =? 1)%Z; [|done]. destruct (_ =s? s); [apply keeps_runtime|]. apply Hl, keeps_runtime.
Qed.

Lemma keeps_cancelLegacy now j curr : keeps f (cancelLegacy now j curr).
Proof. intros st. unfold cancelLegacy. apply keeps_pipeline. repeat constructor; eauto with kept_fields. Qed.

Lemma keeps_Project now j s ptr w st st' i :
  ProjectJobResult now j s ptr w st = Ok st' -> hash_at st' (jobMetaKey i) !! f = hash_at st (jobMetaKey i) !! f.
Proof.
  unfold ProjectJobResult. destruct (_ || _); [done|]. intros <-%Ok_inj. apply keeps_pipeline. repeat constructor.
  - unfold projectLegacyResultMeta. destruct (ptr =s? ""), (w =s? ""); apply keeps_HSet; cbn [app map fst]; set_solver.
  - apply keeps_same. intros. unfold projectLegacyResultKeys. by destruct (ptr =s? "").
  - apply keeps_same. intros x. apply (project_index_frame j s now x).
  - apply keeps_same. intros. unfold projectLegacyWorker. by destruct (w =s? "").
  - intros x k. unfold projectLegacyTerminalState.
    destruct (get_str _ _ =s? ""), (terminalStates s), (isActiveState s); cbn [negb]; try done.
    all: rewrite hash_at_HDel; case_decide as E; [rewrite E, lookup_delete_ne by (symmetry; apply not_state_field; set_solver)|]; done.
Qed.

Lemma keeps_CancelAll j st st' s i :
  CancelAllJobAttempts j st = Ok (st', s) -> hash_at st' (jobMetaKey i) !! f = hash_at st (jobMetaKey i) !! f.
Proof.
  unfold CancelAllJobAttempts. destruct (_ =s? _); [done|]. destruct (cancelAllJobAttemptsScript _) as [h s'].
  intros [= <- _]. unfold migrateRuntimeFence. by rewrite !keeps_runtime.
Qed.

(** No call of [JobStore] writes another field of a metadata hash. *)
Lemma keeps_call c st i : hash_at (run_call c st) (jobMetaKey i) !! f = hash_at st (jobMetaKey i) !! f.
Proof.
  destruct c; cbn [run_call].
  - apply keeps_SetState.
  - destruct (SetStateWithContext _ _ _ _) eqn:E; [done|]. by eapply keeps_SetStateWithContext.
  - unfold CancelJob. destruct (_ =s? _); [done|]. destruct (hash_exists _ _).
    + destruct (CancelAllJobAttempts jobID st) as [e|[st1 s]] eqn:E; [done|]. rewrite <- (keeps_CancelAll _ _ _ _ i E).
      destruct (ProjectJobResult _ _ _ _ _ _) as [e|st2] eqn:E2; cbn [settle]; [|by eapply keeps_Project].
      symmetry. by eapply keeps_CancelAll.
    + destruct (match _ !! _ with Some _ => _ | None => _ end) as [c|]; [|done]. destruct (terminalStates c); [done|].
      apply keeps_cancelLegacy.
  - destruct (ProjectJobResult _ _ _ _ _ _) eqn:E; [done|]. by eapply keeps_Project.
  - unfold BeginDispatch. destruct (_ || _); [done|]. destruct (GetState _ _); [|done].
    destruct (beginDispatchScript _ _ _ _) as [[h n]|]; unfold migrateRuntimeFence; cbn [fst]; by rewrite ?keeps_runtime.
  - unfold AcceptJobEvent. destruct (_ || _); [done|]. destruct (acceptJobEventScript _ _ _).
    unfold migrateRuntimeFence. cbn [settle]. by rewrite !keeps_runtime.
  - unfold AcceptSignedJobEvent. destruct (_ || _); [done|]. destruct (acceptSignedJobEventScript _ _ _ _).
    unfold migrateRuntimeFence. cbn [fst]. by rewrite !keeps_runtime.
  - unfold ApplyJobResult. destruct (negb _); [done|]. destruct (applyJobResultScript _ _).
    unfold migrateRuntimeFence. cbn [fst]. by rewrite !keeps_runtime.
  - unfold AckJobEffect. destruct (_ || _); [done|]. destruct (ackJobEffectScript _ _). cbn [settle]. apply keeps_runtime.
  - unfold RollbackDispatch. destruct (_ || _); [done|]. destruct (rollbackDispatchScript _ _ _). cbn [settle]. apply keeps_runtime.
  - destruct (CancelAllJobAttempts jobID st) as [e|[st1 s]] eqn:E; [done|]. by eapply keeps_CancelAll.
Qed.

Lemma keeps_move_state now j from to : keeps f (move_state now j from to).
Proof. intros st. unfold move_state. apply keeps_pipeline. repeat constructor; eauto with kept_fields. Qed.

End StateFields.

Section Approvals.
Context `{ProtoCodec}.

(** ** What a resolution needs, and what it does *)

(** The approval as a transaction sees it. *)
Definition current_approval (j : string) (st : jredis) : ApprovalRecord :=
  let meta := hash_at st (jobMetaKey j) in
  NormalizeApprovalRecord (default "" (tx_state j st)) (safety_of_meta meta) (approval_of_meta meta).

(** [req] is the stored request, and [payload] its encoding with the new labels. *)
Record resolvable (p : ApprovalResolutionParams) (st : jredis) (req : JobRequest) (payload : string) : Prop := {
  rs_job : TrimSpace (rp_JobID p) <> "";
  rs_decision : rp_Decision p <> "";
  rs_target : rp_ResultState p <> "";
  rs_state : tx_state (TrimSpace (rp_JobID p)) st = Some JobStateApproval;
  rs_actionable : ar_Actionability (current_approval (TrimSpace (rp_JobID p)) st) ∈ [""; "actionable"];
  rs_request : exists data, Get (jobRequestKey (TrimSpace (rp_JobID p))) st = Some data /\ request_of_json data = Some req;
  rs_bound : rp_Decision p = "approve" ->
    exists h, Hash req = Ok h /\ h <> "" /\ sd_JobHash (safety_of_meta (hash_at st (jobMetaKey (TrimSpace (rp_JobID p))))) = h;
  rs_payload : request_json (set_jr_Labels (update_labels (rp_LabelUpdates p) (jr_Labels req)) req) = Some payload;
}.

Lemma actionable_test (a : string) :
  negb (a =s? "") && negb (a =s? "actionable") = false <-> a ∈ [""; "actionable"].
Proof.
  destruct (String.eqb_spec a ""), (String.eqb_spec a "actionable"); cbn; split; try done; set_solver.
Qed.

Lemma stale_request_none p safety req :
  stale_request p safety req = None <->
  (rp_Decision p = "approve" -> exists h, Hash req = Ok h /\ h <> "" /\ sd_JobHash safety = h).
Proof.
  unfold stale_request. destruct (String.eqb_spec (rp_Decision p) "approve") as [E|E]; [|split; [done|done]].
  destruct (Hash req) as [e|h]; [split; [done|intros Hx; destruct (Hx E) as (h & Hh & _); discriminate Hh]|].
  destruct (String.eqb_spec (sd_JobHash safety) ""), (String.eqb_spec h (sd_JobHash safety)); cbn [orb negb]; split; try done.
  all: try (intros Hx; destruct (Hx E) as (h' & [= <-] & Hne & Heq); congruence).
  intros _ _. exists h. split_and!; congruence.
Qed.

(** The store and the answer of a resolution that goes through. *)
Definition resolution (now : Z) (p : ApprovalResolutionParams) (st : jredis) (req : JobRequest) (payload : string)
    : jredis * ApprovalResolutionResult :=
  let j := TrimSpace (rp_JobID p) in
  let meta := hash_at st (jobMetaKey j) in
  let safety := safety_of_meta meta in
  let record := resolved_record now p safety (current_approval j st) in
  let req := set_jr_Labels (update_labels (rp_LabelUpdates p) (jr_Labels req)) req in
  (move_state now j JobStateApproval (rp_ResultState p)
     (SetStr (jobRequestKey j) payload (HSet (jobMetaKey j) (resolution_fields now p meta record req) st)),
   mkResolutionResult j (get_str meta metaFieldTraceID) (rp_ResultState p) req record
     (match rotated_snapshot p record with Some s => set_snapshot s safety | None => safety end)).

Lemma resolve_inv now p st out :
  ResolveApproval now p st = Ok out ->
  exists req payload, resolvable p st req payload /\ out = resolution now p st req payload.
Proof.
  unfold ResolveApproval.
  destruct (String.eqb_spec (TrimSpace (rp_JobID p)) ""); [done|].
  destruct (String.eqb_spec (rp_Decision p) ""); [done|].
  destruct (String.eqb_spec (rp_ResultState p) ""); [done|]. cbv zeta.
  destruct (tx_state _ st) as [cur|] eqn:Ht; [|done].
  destruct (String.eqb_spec cur JobStateApproval) as [->|]; [|done]. cbn [negb].
  destruct (negb (_ =s? "") && _) eqn:Ha; [done|].
  destruct (Get _ st) as [data|] eqn:Hg; [|done].
  destruct (request_of_json data) as [req|] eqn:Hr; [|done].
  destruct (stale_request _ _ req) eqn:Hs; [done|].
  destruct (request_json _) as [payload|] eqn:Hp; [|done]. intros [= <-].
  apply actionable_test in Ha. rewrite stale_request_none in Hs.
  exists req, payload. split.
  - constructor; try done; [|by exists data]. unfold current_approval. by rewrite Ht.
  - unfold resolution, current_approval. by rewrite Ht.
Qed.

Lemma resolve_intro now p st req payload :
  resolvable p st req payload -> ResolveApproval now p st = Ok (resolution now p st req payload).
Proof.
  intros [H1 H2 H3 H4 H5 (data & Hg & Hd) H7 H8]. unfold ResolveApproval, resolution.
  unfold current_approval in *. rewrite H4 in *. cbn [default id] in *.
  rewrite !(eqb_ne _ "") by done. cbv zeta. rewrite String.eqb_refl. cbn [negb].
  apply actionable_test in H5. rewrite H5, Hg, Hd. rewrite <- stale_request_none in H7. rewrite H7, H8. done.
Qed.

Lemma resolution_fields_tenant now p meta record req :
  metaFieldTenant ∉ map fst (resolution_fields now p meta record req).
Proof.
  unfold resolution_fields. not_written.
Qed.

Lemma resolution_moved now p st req payload :
  job_views st (TrimSpace (rp_JobID p)) -> rp_ResultState p ∈ projectedJobStates -> resolvable p st req payload ->
  moved st (TrimSpace (rp_JobID p)) (rp_ResultState p) (resolution now p st req payload).1.
Proof.
  intros Hv Ht Hr. apply move_state_moved; [done|apply tx_state_meta; [done|apply Hr]|done|..].
  - apply metadata_write_SetStr; [apply request_key_no_state|]. apply metadata_write_HSet; [apply resolution_fields_tenant|].
    apply metadata_write_refl.
  - unfold meta_state. cbn [hash_at hashes SetStr]. change (hash_at (SetStr ?k ?v ?x) ?y) with (hash_at x y).
    rewrite hash_at_HSet, decide_True by done. apply write_fields_head. not_written.
Qed.

(** ** Repairs *)

Lemma repair_fields_tenant now plan meta record req :
  metaFieldTenant ∉ map fst (repair_fields now plan meta record req).
Proof. unfold repair_fields. not_written. Qed.

(** A repair answers without a change, or writes its fields and moves the job. *)
Lemma repair_inv now j plan actor note st out :
  ApplyApprovalRepair now j plan actor note st = Ok out ->
  exists cur, tx_state (TrimSpace j) st = Some cur /\
    (out.1 = st \/
     is_replay_kind (pl_Kind plan) = false /\ exists st1 record,
       record = repaired_record now plan actor note (safety_of_meta (hash_at st (jobMetaKey (TrimSpace j)))) (current_approval (TrimSpace j) st) /\
       metadata_write (TrimSpace j) st st1 /\ meta_state st1 (TrimSpace j) = Some (pl_TargetState plan) /\
       get_str (hash_at st1 (jobMetaKey (TrimSpace j))) metaFieldApprovalActionable = ar_Actionability record /\
       out.1 = move_state now (TrimSpace j) cur (pl_TargetState plan) st1).
Proof.
  unfold ApplyApprovalRepair. destruct (TrimSpace j =s? ""); [done|]. destruct (is_none_kind _); [done|]. cbv zeta.
  set (i := TrimSpace j).
  destruct (tx_state i st) as [cur|] eqn:Ht; [|done].
  destruct (_ && _); [done|]. destruct (repair_request i st) as [e|req]; [done|].
  destruct (is_replay_kind (pl_Kind plan)); [intros [= <-]; exists cur; split; [done|by left]|].
  set (record := repaired_record _ _ _ _ _ _).
  assert (Hrec : record = repaired_record now plan actor note (safety_of_meta (hash_at st (jobMetaKey i))) (current_approval i st)).
  { unfold record, current_approval. by rewrite Ht. }
  clearbody record. set (req' := if is_approved_kind _ then _ else _). clearbody req'.
  destruct (match req' with None => Some None | Some req0 => Some <$> request_json req0 end) as [payload|]; [|done].
  set (st1 := match payload with Some p => _ | None => _ end). intros [= <-]. exists cur. split; [done|]. right. split; [done|].
  exists st1, record. split; [done|].
  set (fields := repair_fields now plan (hash_at st (jobMetaKey i)) record req') in *.
  set (st0 := HSet (jobMetaKey i) fields st) in *.
  assert (Hw : metadata_write i st st0).
  { apply metadata_write_HSet; [apply repair_fields_tenant|apply metadata_write_refl]. }
  assert (Hl : forall f, f ∉ [metaFieldApprovalPublishTarget; metaFieldApprovalPublishStatus; metaFieldApprovalPublishedAt] ->
    hash_at st1 (jobMetaKey i) !! f = hash_at st0 (jobMetaKey i) !! f).
  { intros f Hf. unfold st1.
    transitivity (hash_at (HDel (jobMetaKey i) metaFieldApprovalPublishedAt
      (if ar_PublishStatus record =s? ""
       then HDel (jobMetaKey i) metaFieldApprovalPublishTarget (HDel (jobMetaKey i) metaFieldApprovalPublishStatus st0) else st0))
      (jobMetaKey i) !! f); [by destruct payload|].
    destruct (_ =s? _); rewrite !hash_at_HDel, !decide_True, ?lookup_delete_ne by set_solver; done. }
  split_and!; [..|done].
  - unfold st1. assert (Hd : metadata_write i st (HDel (jobMetaKey i) metaFieldApprovalPublishedAt
      (if ar_PublishStatus record =s? ""
       then HDel (jobMetaKey i) metaFieldApprovalPublishTarget (HDel (jobMetaKey i) metaFieldApprovalPublishStatus st0) else st0))).
    { apply metadata_write_HDel; [done|]. destruct (_ =s? _); [|done]. by apply metadata_write_HDel; [|apply metadata_write_HDel]. }
    destruct payload; [|done]. apply metadata_write_SetStr; [apply request_key_no_state|done].
  - unfold meta_state. rewrite Hl by set_solver. unfold st0. rewrite hash_at_HSet, decide_True by done.
    apply write_fields_head. not_written.
  - unfold get_str. rewrite Hl by set_solver. unfold st0. rewrite hash_at_HSet, decide_True by done.
    assert (Hf : metaFieldApprovalActionable ∉ map fst (skipn 11 fields)) by (unfold fields, repair_fields; not_written).
    pose proof (write_fields_at (firstn 10 fields) _ (ar_Actionability record) _ (hash_at st (jobMetaKey i)) Hf) as Hw2.
    change (firstn 10 fields ++ _ :: skipn 11 fields)%list with fields in Hw2. by rewrite Hw2.
Qed.

Lemma repair_moved now j plan actor note st out :
  views st -> pl_TargetState plan ∈ projectedJobStates ->
  ApplyApprovalRepair now j plan actor note st = Ok out ->
  out.1 = st \/ moved st (TrimSpace j) (pl_TargetState plan) out.1.
Proof.
  intros Hv Ht Ha. destruct (repair_inv _ _ _ _ _ _ _ Ha) as (cur & Hc & [->|(_ & st1 & r & _ & Hw & Hs & _ & ->)]); [by left|].
  right. apply move_state_moved; [done|by apply tx_state_meta|done..].
Qed.

(** ** The calls that write approvals, among the others *)

Inductive approval_call :=
| ACStore (c : store_call)
| ACSafety (now : Z) (jobID : string) (record : SafetyDecisionRecord)
| ACRecord (now : Z) (jobID : string) (record : ApprovalRecord)
| ACPublished (now : Z) (jobID : string) (revision : Z) (target : string)
| ACResolve (now : Z) (p : ApprovalResolutionParams)
| ACRepair (now : Z) (jobID : string) (plan : ApprovalRepairPlan) (actor note : string).

(** The store after a call: a refused call leaves it as it was. *)
Definition run_approval_call (c : approval_call) (st : jredis) : jredis :=
  match c with
  | ACStore c => run_call c st
  | ACSafety now j r => match SetSafetyDecision now j r st with inl _ => st | inr st' => st' end
  | ACRecord now j r => match SetApprovalRecord now j r st with inl _ => st | inr st' => st' end
  | ACPublished now j v t => match MarkApprovalPublishComplete now j v t st with inl _ => st | inr st' => st' end
  | ACResolve now p => match ResolveApproval now p st with inl _ => st | inr (st', _) => st' end
  | ACRepair now j plan a n => match ApplyApprovalRepair now j plan a n st with inl _ => st | inr (st', _) => st' end
  end.

(** States named by the caller are states of a job. *)
Definition known_approval_call (c : approval_call) : Prop :=
  match c with
  | ACStore c => known_call c
  | ACResolve _ p => rp_ResultState p ∈ projectedJobStates
  | ACRepair _ _ plan _ _ => pl_TargetState plan ∈ projectedJobStates
  | _ => True
  end.

(** Fields that are no part of a view may be written at will. *)
Lemma views_fields j fields st :
  "state" ∉ map fst fields -> metaFieldTenant ∉ map fst fields -> views st -> views (HSet (jobMetaKey j) fields st).
Proof.
  intros Hs Ht Hv i. destruct (Hv i) as [H1 H2 H3 H4 H5].
  assert (Em : forall f, f ∉ map fst fields -> hash_at (HSet (jobMetaKey j) fields st) (jobMetaKey i) !! f = hash_at st (jobMetaKey i) !! f).
  { intros f Hf. rewrite hash_at_HSet. case_decide as E; [|done]. rewrite E. by apply write_fields_other. }
  assert (E1 : meta_state (HSet (jobMetaKey j) fields st) i = meta_state st i) by by apply Em.
  assert (E2 : meta_tenant (HSet (jobMetaKey j) fields st) i = meta_tenant st i) by (unfold meta_tenant, get_str; by rewrite Em).
  constructor; rewrite ?E1, ?E2; try done.
  rewrite hash_at_HSet, decide_False by (intros E; symmetry in E; by apply meta_not_runtime in E). exact H2.
Qed.

Lemma views_approval_call c st : views st -> known_approval_call c -> views (run_approval_call c st).
Proof.
  intros Hv Hk. destruct c as [c|now j r|now j r|now j v t|now p|now j plan a n]; cbn [run_approval_call known_approval_call] in *.
  - by apply views_call.
  - unfold SetSafetyDecision. destruct (j =s? ""); [done|]. unfold pipeline. cbn [foldl].
    assert (Hx := views_fields j (safety_fields now r) st). 
    intros i. destruct (Hx ltac:(unfold safety_fields, initial_lifecycle; not_written) ltac:(unfold safety_fields, initial_lifecycle; not_written) Hv i) as [].
    by constructor.
  - unfold SetApprovalRecord. destruct (j =s? ""); [done|].
    apply views_fields; [..|done]; unfold approval_fields; not_written.
  - unfold MarkApprovalPublishComplete. repeat (case_match; try done).
    all: simplify_eq; try done. all: apply views_fields; [set_solver..|done].
  - destruct (ResolveApproval now p st) as [e|[st' r]] eqn:E; [done|].
    destruct (resolve_inv _ _ _ _ E) as (req & payload & Hr & Ho). intros i.
    replace st' with (resolution now p st req payload).1 by by rewrite <- Ho.
    apply (moved_views st (TrimSpace (rp_JobID p)) (rp_ResultState p)); [done|by apply resolution_moved|apply Hv].
  - destruct (ApplyApprovalRepair now j plan a n st) as [e|[st' r]] eqn:E; [done|].
    destruct (repair_moved _ _ _ _ _ _ _ Hv Hk E) as [Hx|Hx]; cbn in Hx; [by subst|].
    intros i. by eapply moved_views, Hv.
Qed.

(** C29: the query views survive approvals.  Starting from a store whose views
    agree, after any sequence of state changes, dispatches, results, safety
    decisions, approval resolutions, repairs and publish confirmations on any
    jobs, each job's state key equals the state of its metadata, the job is in
    exactly the index of that state, and in its tenant's active set iff that
    state is not terminal. *)
Theorem approvals_keep_views calls st :
  views st -> Forall known_approval_call calls -> views (foldl (fun st c => run_approval_call c st) st calls).
Proof.
  intros Hv Hk. revert st Hv. induction Hk as [|c calls Hc _ IH]; intros st Hv; [done|]. cbn [foldl].
  by apply IH, views_approval_call.
Qed.

(** ** Once decided *)

Definition stored_actionability (j : string) (st : jredis) : string :=
  get_str (hash_at st (jobMetaKey j)) metaFieldApprovalActionable.

Definition decided (j : string) (st : jredis) : Prop := stored_actionability j st ∉ [""; "actionable"].

Lemma decided_refuses now p st :
  decided (TrimSpace (rp_JobID p)) st -> exists e, ResolveApproval now p st = Err e.
Proof.
  intros Hd. destruct (ResolveApproval now p st) as [e|out] eqn:E; [by exists e|].
  destruct (resolve_inv _ _ _ _ E) as (req & payload & Hr & _). pose proof (rs_actionable _ _ _ _ Hr) as Ha.
  exfalso. apply Hd. unfold current_approval in Ha. rewrite normalize_form in Ha. cbv zeta in Ha.
  cbn [ar_Actionability set_lifecycle approval_of_meta] in Ha. fold (stored_actionability (TrimSpace (rp_JobID p)) st) in Ha.
  destruct (String.eqb_spec (stored_actionability (TrimSpace (rp_JobID p)) st) ""); [set_solver|done].
Qed.

(** A plan whose repair leaves no approval to act on. *)
Definition settling (plan : ApprovalRepairPlan) : Prop :=
  is_replay_kind (pl_Kind plan) = true \/ pl_Actionability plan ∉ [""; "actionable"].

(** The calls that ask for a new approval of job [j]. *)
Definition reopens (j : string) (c : approval_call) : Prop :=
  match c with
  | ACSafety _ i r => i = j /\ sd_ApprovalRequired r = true
  | ACRecord _ i _ => i = j
  | ACRepair _ i plan _ _ => TrimSpace i = j /\ ~ settling plan
  | _ => False
  end.

Lemma final_actionability d : DefaultActionability (resolution_status d) ∉ [""; "actionable"].
Proof.
  unfold resolution_status. repeat case_match; apply (bool_decide_unpack _); lazy; exact I.
Qed.

Lemma stored_other i j fields st :
  i <> j \/ metaFieldApprovalActionable ∉ map fst fields ->
  stored_actionability j (HSet (jobMetaKey i) fields st) = stored_actionability j st.
Proof.
  intros Hij. unfold stored_actionability, get_str. rewrite hash_at_HSet. case_decide as E; [|done].
  apply meta_key_inj in E as ->. destruct Hij as [|Hf]; [done|]. by rewrite write_fields_other.
Qed.

Lemma stored_move now i j from to st : stored_actionability j (move_state now i from to st) = stored_actionability j st.
Proof.
  unfold stored_actionability, get_str. rewrite keeps_move_state; [done|]. apply (bool_decide_unpack _). lazy. exact I.
Qed.

Lemma resolution_actionability now p st req payload :
  stored_actionability (TrimSpace (rp_JobID p)) (resolution now p st req payload).1
  = DefaultActionability (resolution_status (rp_Decision p)).
Proof.
  unfold resolution. cbn [fst]. rewrite stored_move. unfold stored_actionability, get_str.
  change (hash_at (SetStr ?k ?v ?x) ?y) with (hash_at x y). rewrite hash_at_HSet, decide_True by done.
  set (fields := resolution_fields _ _ _ _ _).
  assert (Hf : metaFieldApprovalActionable ∉ map fst (skipn 12 fields)) by (unfold fields, resolution_fields; not_written).
  pose proof (write_fields_at (firstn 11 fields) _ (DefaultActionability (resolution_status (rp_Decision p))) _
    (hash_at st (jobMetaKey (TrimSpace (rp_JobID p)))) Hf) as Hw.
  change (firstn 11 fields ++ _ :: skipn 12 fields)%list with fields in Hw. by rewrite Hw.
Qed.

Lemma decided_call j c st : decided j st -> ~ reopens j c -> decided j (run_approval_call c st).
Proof.
  intros Hd Hr. unfold decided in *.
  destruct c as [c|now i r|now i r|now i v t|now p|now i plan a n]; cbn [run_approval_call reopens] in *.
  - unfold stored_actionability, get_str. rewrite keeps_call; [done|]. apply (bool_decide_unpack _). lazy. exact I.
  - unfold SetSafetyDecision. destruct (i =s? ""); [done|]. unfold pipeline. cbn [foldl].
    change (stored_actionability j (RPush ?k ?e ?x)) with (stored_actionability j x). rewrite stored_other; [done|].
    destruct (decide (i = j)) as [->|]; [right|by left]. unfold safety_fields.
    destruct (sd_ApprovalRequired r) eqn:E; [naive_solver|]. not_written.
  - unfold SetApprovalRecord. destruct (i =s? ""); [done|]. rewrite stored_other; [done|]. naive_solver.
  - unfold MarkApprovalPublishComplete. repeat (case_match; try done); simplify_eq; try done.
    all: rewrite stored_other; [done|]; right; apply (bool_decide_unpack _); lazy; exact I.
  - destruct (ResolveApproval now p st) as [e|[st' r]] eqn:E; [done|].
    destruct (resolve_inv _ _ _ _ E) as (req & payload & Hq & Ho).
    replace st' with (resolution now p st req payload).1 by by rewrite <- Ho.
    destruct (decide (TrimSpace (rp_JobID p) = j)) as [<-|Hne]; [rewrite resolution_actionability; apply final_actionability|].
    unfold resolution. cbn [fst]. rewrite stored_move. change (stored_actionability j (SetStr ?k ?v ?x)) with (stored_actionability j x).
    by rewrite stored_other by by left.
  - destruct (ApplyApprovalRepair now i plan a n st) as [e|[st' r]] eqn:E; [done|].
    destruct (repair_inv _ _ _ _ _ _ _ E) as (cur & _ & [Hst|(Hk & st1 & rec & Hrec & Hw & _ & Ha & Hst)]); cbn [fst] in Hst; subst st'; [done|].
    rewrite stored_move. destruct (decide (TrimSpace i = j)) as [<-|Hne].
    + fold (stored_actionability (TrimSpace i) st1) in Ha. rewrite Ha, Hrec. cbn [ar_Actionability repaired_record].
      assert (Hs : pl_Actionability plan ∉ [""; "actionable"]).
      { destruct (decide (pl_Actionability plan ∈ [""; "actionable"])) as [Hin|]; [|done]. exfalso. apply Hr. split; [done|].
        intros [Hx|Hx]; [congruence|done]. }
      rewrite eqb_ne; [done|]. intros Hx. apply Hs. rewrite Hx. by left.
    + unfold stored_actionability, get_str. rewrite (mw_hash _ _ _ Hw); [done|]. intros Hx. by apply meta_key_inj in Hx.
Qed.

(** Every plan of the classifier settles the approval. *)
Lemma classify_settles snapshot opts :
  let plan := ClassifyApprovalRepair snapshot opts in is_none_kind (pl_Kind plan) = true \/ settling plan.
Proof.
  unfold ClassifyApprovalRepair, settling, invalidation. repeat case_match; cbn; auto; right; right; set_solver.
Qed.

(** C13: an approval is decided once.  After a resolution has gone through, no
    other resolution of the same job goes through, with whatever decision, author
    or labels, whatever calls run in between on any job (state changes, dispatch,
    results, other resolutions, repairs the classifier plans, publish
    confirmations), until a new safety decision asks for an approval of this job
    or its approval record is overwritten. *)
Theorem approval_decided_once now p st st1 r calls :
  ResolveApproval now p st = Ok (st1, r) ->
  Forall (fun c => ~ reopens (TrimSpace (rp_JobID p)) c) calls ->
  forall later p', TrimSpace (rp_JobID p') = TrimSpace (rp_JobID p) ->
  exists e, ResolveApproval later p' (foldl (fun st c => run_approval_call c st) st1 calls) = Err e.
Proof.
  intros E Hc later p' Hp. apply decided_refuses. rewrite Hp.
  assert (Hd : decided (TrimSpace (rp_JobID p)) st1).
  { destruct (resolve_inv _ _ _ _ E) as (req & payload & _ & Ho).
    replace st1 with (resolution now p st req payload).1 by by rewrite <- Ho.
    unfold decided. rewrite resolution_actionability. apply final_actionability. }
  clear E Hp. revert st1 Hd. induction Hc as [|c calls Hc _ IH]; intros st1 Hd; [done|]. cbn [foldl].
  by apply IH, decided_call.
Qed.

(** ** What a resolution changes *)

Lemma wrap_revision a : (2 <= (if (wrap64 (a + 1) <=? 1)%Z then 2 else wrap64 (a + 1)) <= int64_max)%Z.
Proof.
  assert (wrap64 (a + 1) <= int64_max)%Z.
  { unfold wrap64, int64_max. pose proof (Z.mod_pos_bound (a + 1 + 2 ^ 63) (2 ^ 64) eq_refl). lia. }
  destruct (Z.leb_spec (wrap64 (a + 1)) 1); [by vm_compute|]. lia.
Qed.

Lemma resolution_written now p st req payload f v :
  (forall h, write_fields (resolution_fields now p (hash_at st (jobMetaKey (TrimSpace (rp_JobID p))))
      (resolved_record now p (safety_of_meta (hash_at st (jobMetaKey (TrimSpace (rp_JobID p))))) (current_approval (TrimSpace (rp_JobID p)) st))
      (set_jr_Labels (update_labels (rp_LabelUpdates p) (jr_Labels req)) req)) h !! f = Some v) ->
  f <> metaFieldDeadline ->
  get_str (hash_at (resolution now p st req payload).1 (jobMetaKey (TrimSpace (rp_JobID p)))) f = v.
Proof.
  intros Hw Hd. unfold resolution. cbn [fst]. set (j := TrimSpace (rp_JobID p)) in *. unfold get_str.
  set (st1 := SetStr _ _ _). assert (Hm : hash_at (move_state now j JobStateApproval (rp_ResultState p) st1) (jobMetaKey j) !! f
    = hash_at st1 (jobMetaKey j) !! f).
  { unfold move_state. apply keeps_pipeline. repeat constructor; eauto using keeps_HDel with kept_fields. }
  rewrite Hm. unfold st1. change (hash_at (SetStr ?k ?x ?y) ?z) with (hash_at y z).
  by rewrite hash_at_HSet, decide_True, Hw.
Qed.

(** The fields a resolution writes beside the fixed ones. *)
Lemma resolution_fields_base now p meta record req f h :
  f ∉ [metaFieldApprovalPublishStatus; metaFieldApprovalPublishTarget; metaFieldSafetySnapshot; metaFieldLabels] ->
  write_fields (resolution_fields now p meta record req) h !! f
  = write_fields [("state", rp_ResultState p); ("updated_at", Itoa now); (metaFieldAttempts, Itoa (metaAttempts meta));
    (metaFieldApprovalBy, ar_ApprovedBy record); (metaFieldApprovalRole, ar_ApprovedRole record);
    (metaFieldApprovalAt, Itoa (ar_ApprovedAt record)); (metaFieldApprovalReason, ar_Reason record);
    (metaFieldApprovalNote, ar_Note record); (metaFieldApprovalSnapshot, ar_PolicySnapshot record);
    (metaFieldApprovalJobHash, ar_JobHash record); (metaFieldApprovalStatus, ar_Status record);
    (metaFieldApprovalActionable, ar_Actionability record); (metaFieldApprovalRevision, Itoa (ar_Revision record));
    (metaFieldApprovalDecision, ar_Decision record)] h !! f.
Proof.
  intros Hf. unfold resolution_fields. rewrite write_fields_app. apply write_fields_other.
  unfold nonblank. repeat case_match; cbn [app map fst]; set_solver.
Qed.

Ltac base_field n :=
  intros h; rewrite resolution_fields_base by (apply (bool_decide_unpack _); lazy; exact I);
  apply (write_fields_nth _ n); [reflexivity|apply (bool_decide_unpack _); lazy; exact I].

(** A resolution is exact.  It goes through iff the parameters name a job, a
    decision and a state, the job waits for an approval that can still be acted
    on, its request is stored, and, to approve, that request still has the hash
    the approval was asked for.  It then moves the job to the given state and
    records the decision with its author, the hash it is bound to and a positive
    revision, and touches the metadata of no other job. *)
Theorem resolution_exact now p st :
  let j := TrimSpace (rp_JobID p) in
  ((exists out, ResolveApproval now p st = Ok out) <-> exists req payload, resolvable p st req payload) /\
  forall st' r, ResolveApproval now p st = Ok (st', r) ->
    let a := approval_of_meta (hash_at st' (jobMetaKey j)) in
    get_str (hash_at st' (jobMetaKey j)) "state" = rp_ResultState p /\
    strs st' !! jobStateKey j = Some (rp_ResultState p) /\
    ar_Decision a = rp_Decision p /\ ar_Status a = resolution_status (rp_Decision p) /\
    ar_ApprovedBy a = TrimSpace (rp_ApprovedBy p) /\ ar_ApprovedRole a = TrimSpace (rp_ApprovedRole p) /\
    ar_JobHash a = sd_JobHash (safety_of_meta (hash_at st (jobMetaKey j))) /\
    (2 <= ar_Revision a)%Z /\
    request_json (rr_Request r) = Get (jobRequestKey j) st' /\
    forall i, i <> j -> hash_at st' (jobMetaKey i) = hash_at st (jobMetaKey i).
Proof.
  intros j. split.
  { split; [intros [out E]; destruct (resolve_inv _ _ _ _ E) as (req & payload & Hr & _); eauto|].
    intros (req & payload & Hr). exists (resolution now p st req payload). by apply resolve_intro. }
  intros st' r E. destruct (resolve_inv _ _ _ _ E) as (req & payload & Hr & Ho). intros a.
  assert (Hst : st' = (resolution now p st req payload).1) by by rewrite <- Ho.
  assert (Hrr : r = (resolution now p st req payload).2) by by rewrite <- Ho. unfold a. clear a Ho E.
  rewrite Hst.
  assert (Hfield : forall f v,
    (forall h, write_fields (resolution_fields now p (hash_at st (jobMetaKey j))
      (resolved_record now p (safety_of_meta (hash_at st (jobMetaKey j))) (current_approval j st))
      (set_jr_Labels (update_labels (rp_LabelUpdates p) (jr_Labels req)) req)) h !! f = Some v) ->
    f <> metaFieldDeadline -> get_str (hash_at (resolution now p st req payload).1 (jobMetaKey j)) f = v)
    by (intros; by apply resolution_written).
  unfold approval_of_meta, parse_field. cbn [ar_Decision ar_Status ar_ApprovedBy ar_ApprovedRole ar_JobHash ar_Revision].
  split_and!.
  - apply Hfield; [|done]. base_field 0%nat.
  - unfold resolution. cbn [fst]. destruct (move_state_frame now j JobStateApproval (rp_ResultState p)
      (SetStr (jobRequestKey j) payload (HSet (jobMetaKey j) (resolution_fields now p (hash_at st (jobMetaKey j))
         (resolved_record now p (safety_of_meta (hash_at st (jobMetaKey j))) (current_approval j st))
         (set_jr_Labels (update_labels (rp_LabelUpdates p) (jr_Labels req)) req)) st))) as [Hk _].
    unfold j in *. rewrite Hk. by rewrite lookup_insert_eq.
  - apply Hfield; [|done]. base_field 13%nat.
  - apply Hfield; [|done]. base_field 10%nat.
  - apply Hfield; [|done]. base_field 3%nat.
  - apply Hfield; [|done]. base_field 4%nat.
  - apply Hfield; [|done]. base_field 9%nat.
  - pose proof (wrap_revision (ar_Revision (current_approval j st))) as Hrev.
    erewrite Hfield; [rewrite Atoi_Itoa; [apply Hrev|lia]| |done].
    base_field 12%nat.
  - rewrite Hrr. unfold resolution. cbn [fst snd rr_Request]. unfold Get.
    match goal with |- context [move_state ?a ?b ?c ?d ?e] => destruct (move_state_frame a b c d e) as [Hk _] end.
    rewrite Hk, lookup_insert_ne by done. cbn [strs SetStr HSet put_hash]. rewrite lookup_insert_eq. apply Hr.
  - intros i Hi. assert (jobMetaKey i <> jobMetaKey j) by (intros Hx; by apply meta_key_inj in Hx).
    unfold resolution. cbn [fst].
    match goal with |- context [move_state ?a ?b ?c ?d ?e] => destruct (move_state_frame a b c d e) as [_ Hk] end.
    rewrite Hk by done. change (hash_at (SetStr ?k ?x ?y) ?z) with (hash_at y z). by rewrite hash_at_HSet, decide_False.
Qed.

End Approvals.

(** ** A concrete job *)

Definition ex_request : JobRequest :=
  mkJobRequest "job-a" "job.deploy" JOB_PRIORITY_INTERACTIVE "" "" "" ∅ {["team" := "core"]} "acme" "alice" None None "" None None None.

(** A codec of the requests that differ from [ex_request] in their approval label. *)
#[local] Instance ex_codec : ProtoCodec := {|
  request_json r := Some (get_str (jr_Labels r) "approval_granted");
  request_of_json s := Some (if s =s? "" then ex_request else set_jr_Labels (<["approval_granted" := s]> (jr_Labels ex_request)) ex_request);
  constraints_json _ := Some "{}";
  constraints_of_json _ := None;
  remediations_json _ := Some "[]";
  remediations_of_json _ := None;
  request_wire r := Some (jr_JobId r +:+ jr_Topic r +:+ labels_json (jr_Labels r));
|}.

Definition ex_hash : string := match Hash ex_request with Ok h => h | Err _ => "" end.

(** The decision of the safety kernel that asks for an approval. *)
Definition ex_ask : SafetyDecisionRecord :=
  mkSafetyDecisionRecord SafetyRequireApproval "touches production" "r-1" "snap-1" None true "ref" ex_hash [] 0 "" "" 0 "".

Definition ok_or {A} (d : A) (r : result StoreError A) : A := match r with inl _ => d | inr x => x end.

(** Submitted, then waiting for an approval. *)
Definition ex_submitted : jredis := ok_or ex_store (SetJobRequest ex_request ex_store).

Definition ex_ask_calls : list approval_call :=
  [ACStore (CallSetState 1 "job-a" JobStatePending); ACSafety 2 "job-a" ex_ask; ACStore (CallSetState 3 "job-a" JobStateApproval)].

Definition ex_waiting : jredis := foldl (fun st c => run_approval_call c st) ex_submitted ex_ask_calls.

Definition ex_approve : ApprovalResolutionParams :=
  mkResolutionParams " job-a" "approve" JobStatePending "bob" "admin" "ok" "" "" {["approval_granted" := "true"]} "".

Definition ex_reject : ApprovalResolutionParams :=
  mkResolutionParams "job-a" "reject" JobStateDenied "carol" "admin" "no" "" "" ∅ "".

Definition ex_resolved : jredis := match ResolveApproval 4 ex_approve ex_waiting with inl _ => ex_store | inr (st, _) => st end.

Example ex_resolved_run :
  GetState "job-a" ex_resolved = Some JobStatePending /\
  ResolveApproval 5 ex_reject ex_resolved = Err (ApprovalConflict "approval_already_resolved" "approval already resolved").
Proof. by vm_compute. Qed.


Lemma views_SetStr k v st : (forall i, k <> jobStateKey i) -> views st -> views (SetStr k v st).
Proof.
  intros Hk Hv i. destruct (Hv i) as [H1 H2 H3 H4 H5]. constructor; try done. by rewrite strs_SetStr, decide_False.
Qed.

Lemma ex_submitted_views : views ex_submitted.
Proof. apply (views_SetStr (jobRequestKey "job-a")); [apply request_key_no_state|apply ex_store_views]. Qed.

Lemma approvals_keep_views_witness :
  views (foldl (fun st c => run_approval_call c st) ex_submitted (ex_ask_calls ++ [ACResolve 4 ex_approve])%list).
Proof.
  apply approvals_keep_views; [apply ex_submitted_views|]. repeat constructor; apply (bool_decide_unpack _); by vm_compute.
Defined.

(** A decided approval is left alone by dispatch and by an attempt to reject. *)
Definition ex_later : list approval_call :=
  [ACStore (CallSetState 5 "job-a" JobStateScheduled); ACResolve 6 ex_reject; ACPublished 7 "job-a" 2 "submit"].

Lemma approval_decided_once_witness :
  exists e, ResolveApproval 8 ex_reject (foldl (fun st c => run_approval_call c st) ex_resolved ex_later) = Err e.
Proof.
  destruct (ResolveApproval 4 ex_approve ex_waiting) as [e|[st1 r]] eqn:E.
  - exfalso. vm_compute in E. discriminate E.
  - assert (Hst : ex_resolved = st1) by (unfold ex_resolved; by rewrite E). rewrite Hst.
    apply (approval_decided_once 4 ex_approve ex_waiting st1 r ex_later E); [|by vm_compute].
    repeat constructor; intros [].
Defined.

Lemma resolution_exact_witness :
  exists st' r, ResolveApproval 4 ex_approve ex_waiting = Ok (st', r) /\
    ar_ApprovedBy (approval_of_meta (hash_at st' (jobMetaKey "job-a"))) = "bob" /\
    strs st' !! jobStateKey "job-a" = Some JobStatePending.
Proof.
  destruct (ResolveApproval 4 ex_approve ex_waiting) as [e|[st1 r]] eqn:E.
  - exfalso. vm_compute in E. discriminate E.
  - exists st1, r. split; [done|]. destruct (resolution_exact 4 ex_approve ex_waiting) as [_ H].
    destruct (H st1 r E) as (_ & Hs & _ & _ & Hb & _). by split.
Defined.

(** ** Findings *)

(** A request that carries [approval_granted] is classified as approved although
    nobody approved it: its approval record is pending, and its hash is the one the
    safety decision was taken for. *)
Theorem submitted_label_approves :
  let st := match SetJobRequest (set_jr_Labels (<["approval_granted" := "true"]> (jr_Labels ex_request)) ex_request) ex_waiting with
            | Ok st => st | Err _ => ex_store end in
  match InspectApprovalRepair "job-a" st with
  | Ok snap =>
      ar_Status (rs_ApprovalRecord snap) = "pending" /\ ar_ApprovedBy (rs_ApprovalRecord snap) = "" /\
      rs_RequestHash snap = ex_hash /\
      let plan := ClassifyApprovalRepair snap (mkClassifyOptions false false) in
      pl_Kind plan = ApprovalRepairApplyApprovedResolution /\
      match ApplyApprovalRepair 9 "job-a" plan "reconciler" "" st with
      | Ok (st, r) => GetState "job-a" st = Some JobStatePending /\ ar_ApprovedBy (ra_ApprovalRecord r) = "reconciler"
      | Err _ => False
      end
  | Err _ => False
  end.
Proof. by vm_compute. Qed.

(** A new safety decision that asks for an approval leaves the decision of the
    previous one behind, and the classifier grants the new one. *)
Theorem stale_decision_approves :
  let st := (SetState 5 "job-a" JobStateApproval ex_resolved).1 in
  let st := ok_or st (SetSafetyDecision 6 "job-a" ex_ask st) in
  match InspectApprovalRepair "job-a" st with
  | Ok snap =>
      ar_Status (rs_ApprovalRecord snap) = "pending" /\ ar_Actionability (rs_ApprovalRecord snap) = "actionable" /\
      ar_Decision (rs_ApprovalRecord snap) = "approve" /\
      pl_Kind (ClassifyApprovalRepair snap (mkClassifyOptions false false)) = ApprovalRepairApplyApprovedResolution
  | Err _ => False
  end.
Proof. by vm_compute. Qed.

(** Two tenants whose names contain the separator share an idempotency key. *)
Theorem idempotency_keys_collide :
  jobIdempotencyKeyScoped "acme" "eu:order-1" = jobIdempotencyKeyScoped "acme:eu" "order-1".
Proof. reflexivity. Qed.
