(* ===== verification/SchedulerEnv.v ===== *)
(** * The world of the scheduler

    core/controlplane/scheduler: the engine reads and writes the job store, asks
    the safety kernel, picks a worker and publishes packets.  A world is the job
    store of [JobStore] and the trace of the calls made so far.  What the services
    around the engine answer (the clock, fresh ids, whether a call to redis or to
    the bus fails, the safety kernel, the registry of workers) are functions of that
    trace, fields of the class [SchedEnv]: the theorems hold for every behaviour of
    these services.  A computation is a state transformer on worlds.

    Also here: the errors of retry.go, the packets, the store calls of the engine,
    the locks of withJobLock and the dead-letter queue. *)
From Stdlib Require Import Ascii.
From S2P Require Import Prelude.
From S2P Require Import GoStrings.
From S2P Require Import PolicyTypes.
From S2P Require Import JobRuntime.
From S2P Require Import JobStore.
From S2P Require Import GoValues.
From S2P Require Import Licensing.
From S2P Require Import WorkflowModels.
From S2P Require Import JobIdentity.
From S2P Require Import JobMeta.
From S2P Require Import JobApproval.

Open Scope string_scope.

(** ** Errors *)

(** The sentinels the engine tells apart with [errors.Is] and [errors.As]. *)
Inductive sentinel : Set :=
| ErrNoWorkers | ErrPoolOverloaded | ErrTenantLimit | ErrNoPoolMapping | TierLimit
| errApprovalHashFenceRead | errLockAbandoned | RedisNil | ContextDone
| ErrProductionResultIdentityMismatch | ErrProductionResultIdentityUnavailable | ErrDigestConflict.

#[export] Instance sentinel_eq_dec : EqDecision sentinel.
Proof. solve_decision. Defined.

(** An error: the sentinel it wraps, its text, and the delay of [RetryAfter].  The
    text is the one of the error inside [RetryAfter]. *)
Record serror := mkError { er_is : option sentinel; er_msg : string; er_delay : option Z }.

Definition plain (msg : string) : serror := mkError None msg None.
Definition wrapping (s : sentinel) (msg : string) : serror := mkError (Some s) msg None.
Definition is_err (s : sentinel) (e : serror) : bool := bool_decide (er_is e = Some s).

Definition millisecond : Z := 1000000.
Definition second : Z := 1000 * millisecond.

(** [RetryAfter]: a retry of a retry keeps the outer delay. *)
Definition RetryAfter (e : serror) (delay : Z) : serror :=
  mkError (er_is e) (er_msg e) (Some (Z.max 0 delay)).

Definition retryDelayBusy : Z := 500 * millisecond.
Definition retryDelayStore : Z := 1 * second.
Definition retryDelayPublish : Z := 2 * second.
Definition retryDelayNoWorkers : Z := 2 * second.
Definition safetyThrottleDelay : Z := 5 * second.
Definition maxSchedulingRetries : Z := 50.
Definition maxDispatchRetries : nat := 3.
Definition defaultSenderID : string := "cordum-scheduler".
Definition outputPolicyReason : string := "output_quarantined".

(** ** backoff.go *)

Definition backoffBase : Z := 1 * second.
Definition backoffMax : Z := 30 * second.
Definition backoffJitterMax : Z := 500 * millisecond.
Definition backoffMaxShift : Z := 10.

(** [jitter] is what [cryptoJitter] drew; durations are int64. *)
Definition backoffDelay (jitter attempt base maxDelay : Z) : Z :=
  let attempt := if (attempt <? 0)%Z then 0%Z else attempt in
  let attempt := if (backoffMaxShift <? attempt)%Z then backoffMaxShift else attempt in
  let delay := wrap64 (Z.shiftl base attempt) in
  let delay := if (maxDelay <? delay)%Z || (delay <=? 0)%Z then maxDelay else delay in
  let total := wrap64 (delay + jitter) in
  if (maxDelay <? total)%Z then maxDelay else total.

(** ** Packets *)

Inductive ErrorCode : Set :=
| ERROR_CODE_UNSPECIFIED | ERROR_CODE_SAFETY_DENIED | ERROR_CODE_SAFETY_POLICY_VIOLATION
| ERROR_CODE_JOB_RESOURCE_EXHAUSTED | ERROR_CODE_JOB_TIMEOUT | ERROR_CODE_JOB_PERMISSION_DENIED
| ERROR_CODE_OTHER (n : Z).

#[export] Instance ErrorCode_eq_dec : EqDecision ErrorCode.
Proof. solve_decision. Defined.

Definition mapStringToErrorCode (code : string) : ErrorCode :=
  if (code =s? "approval_rejected") || (code =s? "policy_denied") then ERROR_CODE_SAFETY_DENIED
  else if code =s? "policy_violation" then ERROR_CODE_SAFETY_POLICY_VIOLATION
  else if code =s? "max_scheduling_retries" then ERROR_CODE_JOB_RESOURCE_EXHAUSTED
  else if code =s? "timeout" then ERROR_CODE_JOB_TIMEOUT
  else if code =s? "permission_denied" then ERROR_CODE_JOB_PERMISSION_DENIED
  else ERROR_CODE_UNSPECIFIED.

(** [pb.JobResult] with the fields the scheduler reads or writes. *)
Record JobOutcome := mkJobOutcome {
  jo_JobId : string;
  jo_Status : JobStatus;
  jo_ErrorCode : string;
  jo_ErrorCodeEnum : ErrorCode;
  jo_ErrorMessage : string;
  jo_ResultPtr : string;
  jo_WorkerId : string;
  jo_Identity : option IdentityBinding;
  jo_Dispatch : option DispatchIdentity;
}.

Inductive spayload : Type :=
| SJobRequest (req : JobRequest)
| SJobResult (res : JobOutcome)
| SJobCancel (jobID reason : string).

(** [pb.BusPacket] without its creation time, protocol version and signature. *)
Record SPacket := mkSPacket {
  sp_TraceId : string;
  sp_SenderId : string;
  sp_Identity : option IdentityBinding;
  sp_AuthToken : string;
  sp_Payload : spayload;
}.

Definition SubjectSubmit : string := "sys.job.submit".
Definition SubjectResult : string := "sys.job.result".
Definition SubjectAcceptedResult : string := "sys.internal.job.result.accepted".
Definition SubjectCancel : string := "sys.job.cancel".
Definition SubjectDLQ : string := "sys.job.dlq".
Definition SubjectApprovalGate : string := "sys.approval.gate".

Definition isApprovalGateTopic (topic : string) : bool :=
  (topic =s? SubjectApprovalGate) || (topic =s? workflow_gate_topic).

Definition DirectSubject (workerID : string) : string :=
  if workerID =s? "" then "" else "worker." +:+ workerID +:+ ".jobs".

Definition extractWorkerFromSubject (subject : string) : string :=
  if negb (HasPrefix subject "worker.") || negb (HasSuffix subject ".jobs") then ""
  else TrimSuffix (TrimPrefix subject "worker.") ".jobs".

(** ** Workers *)

(** [pb.Heartbeat]; the loads are float32. *)
Record Heartbeat := mkHeartbeat {
  hb_WorkerId : string;
  hb_Pool : string;
  hb_ActiveJobs : Z;
  hb_MaxParallelJobs : Z;
  hb_CpuLoad : SpecFloat.spec_float;
  hb_GpuUtilization : SpecFloat.spec_float;
  hb_Labels : gmap string string;
}.

Record WorkerReadiness := mkReadiness { wr_Ready : bool; wr_Trusted : bool; wr_ReadyTopics : list string }.

(** ** What the engine asks of the outside *)

(** The topic registration: whether it is disabled, and its input schema. *)
Record Registration := mkRegistration { tr_Disabled : bool; tr_InputSchemaID : string }.

Inductive EnforcementMode : Set := EnforcementOff | EnforcementWarn | EnforcementEnforce.

(** The answer to an attempt to take the lock of a job, after its retries. *)
Inductive lock_answer : Type := LockAcquired | LockBusy | LockFailed (msg : string) | LockShutdown (msg : string).

(** What the engine did, with what came back; [None] is no error.  A publication
    carries the store at that moment, and an entry of the decision log the store
    the decision was taken on.  [SvSpawn] is a goroutine that was started. *)
Inductive SEvent : Type :=
| SvClock (t : Z)
| SvUuid (id : string)
| SvStore (name : string) (failed : bool)
| SvLock (jobID : string) (answer : lock_answer)
| SvSafety (req : JobRequest) (record : SafetyDecisionRecord) (err : option string)
| SvDecision (req : JobRequest) (record : SafetyDecisionRecord) (st : jredis)
| SvBypass (req : JobRequest)
| SvAudit (jobID code reason : string)
| SvSpawn (what key : string)
| SvAsk (what : string)
| SvPublish (subject : string) (packet : SPacket) (st : jredis) (err : option string).

(** Configuration of the engine and answers of the services it calls.

    - [s_fault]: whether the named store call fails, with its text and how many of
      the steps the call consists of were carried out all the same.
    - [s_lock], [s_abandoned]: taking the lock of a job, and whether its renewal was
      given up while the handler ran.
    - [s_stopped], [s_shutdown]: the engine was stopped; the error of its context.
    - [s_topics]: the topic registry, when there is one: the registration of a topic
      for a tenant and whether the registry is empty.
    - [s_read_context]: the content the context of a request refers to.
    - [s_schema], [s_validate]: the schema registry and the JSON schema validator:
      the number of violations, [None] when the schema is invalid.
    - [s_config]: the effective configuration as JSON, [None] when there is none.
    - [s_decode_token], [s_token_service], [s_verify_token]: the JSON of a token, the
      error of setting up the token service, and its verification of a token for an
      audience: the lineage as JSON, or a code and a text.
    - [s_safety], [s_safety_timeout]: the safety kernel, and whether the call ran
      into its time limit.
    - [s_fail_open]: the input fail mode of a tenant.
    - [s_workers], [s_readiness], [s_alive]: the eligible workers, their readiness,
      and the check of the worker that was picked.
    - [s_bound]: whether the active session mode admits a worker for a topic.
    - [s_pick]: the scheduling strategy.
    - [s_mint]: the service-token minter. *)
Class SchedEnv := mkSchedEnv {
  s_productionIdentity : bool;
  s_clock : list SEvent -> Z;
  s_uuid : list SEvent -> string;
  s_jitter : list SEvent -> Z;
  s_fault : list SEvent -> string -> option (string * nat);
  s_lock : list SEvent -> string -> lock_answer;
  s_abandoned : list SEvent -> string -> bool;
  s_stopped : list SEvent -> bool;
  s_shutdown : list SEvent -> option string;
  s_topics : option (list SEvent -> string -> string -> result string (option Registration * bool));
  s_schemaMode : EnforcementMode;
  s_read_context : list SEvent -> JobRequest -> option string;
  s_schema : option (list SEvent -> string -> result (option string) string);
  s_validate : string -> string -> string -> option nat;
  s_config : option (list SEvent -> string -> string -> string -> string -> option string);
  s_decode_token : string -> option DelegationDispatchToken;
  s_token_service : list SEvent -> option string;
  s_verify_token : list SEvent -> string -> string -> result (string * string) string;
  s_safety : list SEvent -> JobRequest -> SafetyDecisionRecord * option string;
  s_safety_timeout : list SEvent -> bool;
  s_fail_open : list SEvent -> string -> bool;
  s_entitlements : list SEvent -> Entitlements;
  s_sessionMode : bool;
  s_readinessRequired : bool;
  s_workers : list SEvent -> gmap string Heartbeat;
  s_readiness : list SEvent -> gmap string WorkerReadiness;
  s_bound : list SEvent -> string -> Heartbeat -> WorkerReadiness -> string -> bool;
  s_alive : list SEvent -> string -> bool;
  s_pick : list SEvent -> JobRequest -> gmap string Heartbeat -> option (gmap string WorkerReadiness) -> result serror string;
  s_dlq_sink : option (list SEvent -> option string);
  s_publish : list SEvent -> string -> option string;
  s_mint : option (list SEvent -> option string);
  s_agent : option (list SEvent -> string -> string * string * string);
}.

(** ** Computations *)

Record SWorld := mkSWorld { sw_store : jredis; sw_trace : list SEvent }.

Definition sched (A : Type) : Type := SWorld -> A * SWorld.

Definition sret {A} (a : A) : sched A := fun w => (a, w).
Definition sbind {A B} (m : sched A) (k : A -> sched B) : sched B := fun w => let '(a, w') := m w in k a w'.

Declare Scope sched_scope.
Delimit Scope sched_scope with sched.
#[global] Open Scope sched_scope.
Notation "x <- m ;; k" := (sbind m (fun x => k)) (at level 100, m at next level, right associativity) : sched_scope.
Notation "m ;;; k" := (sbind m (fun _ => k)) (at level 100, right associativity) : sched_scope.

(** The error of a call, if any; a handler returns [None] for no error. *)
Definition handler : Type := sched (option serror).

(** Go on with the value of a call, or leave with its error as [f] turns it. *)
Definition on_ok {A} (m : sched (result serror A)) (f : serror -> serror) (k : A -> handler) : handler :=
  r <- m ;; match r with Ok a => k a | Err e => sret (Some (f e)) end.

Definition slog (e : SEvent) : sched unit := fun w => (tt, mkSWorld (sw_store w) (sw_trace w ++ [e])%list).
Definition strace : sched (list SEvent) := fun w => (sw_trace w, w).
Definition sstore : sched jredis := fun w => (sw_store w, w).
Definition sput (st : jredis) : sched unit := fun w => (tt, mkSWorld st (sw_trace w)).

Fixpoint sfor {A} (f : A -> sched unit) (l : list A) : sched unit :=
  match l with [] => sret tt | x :: l => f x ;;; sfor f l end.

Section Calls.
Context `{ProtoCodec} `{SchedEnv}.

(** Ask the outside: the answer is a function of the trace, which grows. *)
Definition ask {A} (what : string) (answer : list SEvent -> A) : sched A :=
  tr <- strace ;; slog (SvAsk what) ;;; sret (answer tr).

(** Microseconds. *)
Definition snow : sched Z := tr <- strace ;; slog (SvClock (s_clock tr)) ;;; sret (s_clock tr).
Definition suuid : sched string := tr <- strace ;; slog (SvUuid (s_uuid tr)) ;;; sret (s_uuid tr).

(** ** Calls to the store *)

(** The argument checks of the store have one text here. *)
Definition store_error_text (e : StoreError) : string :=
  match e with
  | ErrArguments => "invalid jobID or state"
  | ErrTransition from to => "invalid transition " +:+ from +:+ " -> " +:+ to
  | ErrRuntimeTransition from to => "invalid runtime transition " +:+ from +:+ " -> " +:+ to
  | ErrNotFound => "redis: nil"
  | ErrScript => "malformed script result"
  | ErrJobEventDigestConflict => "job event digest conflict"
  | ErrMessage msg => msg
  end.

Definition store_serror (e : StoreError) : serror :=
  match e with
  | ErrNotFound => wrapping RedisNil (store_error_text e)
  | ErrJobEventDigestConflict => wrapping ErrDigestConflict (store_error_text e)
  | _ => plain (store_error_text e)
  end.

(** A store call [op] of the engine.  [steps] are the stores it goes through: a
    call that fails may have carried out some of its steps. *)
Definition scall {A} (name : string) (steps : jredis -> list jredis) (op : jredis -> jredis * result StoreError A) : sched (result serror A) :=
  tr <- strace ;;
  st <- sstore ;;
  match s_fault tr name with
  | Some (msg, n) => sput (nth n (steps st) st) ;;; slog (SvStore name true) ;;; sret (Err (plain msg))
  | None =>
      let '(st', r) := op st in
      sput st' ;;; slog (SvStore name false) ;;;
      sret (match r with Ok a => Ok a | Err e => Err (store_serror e) end)
  end.

(** A read. *)
Definition sread {A} (name : string) (get : jredis -> result StoreError A) : sched (result serror A) :=
  scall name (fun st => [st]) (fun st => (st, get st)).

(** A write that is one transaction. *)
Definition swrite (name : string) (op : jredis -> result StoreError jredis) : sched (result serror unit) :=
  scall name (fun st => [st; match op st with Ok st' => st' | Err _ => st end])
    (fun st => match op st with Ok st' => (st', Ok tt) | Err e => (st, Err e) end).

(** A read whose absence is [redis.Nil]. *)
Definition or_nil {A} (a : option A) : result StoreError A := match a with Some a => Ok a | None => Err ErrNotFound end.

Definition store_GetState (jobID : string) : sched (result serror string) := sread "GetState" (fun st => or_nil (GetState jobID st)).

(** [SetState] moves the runtime hash and then the metadata. *)
Definition SetState_steps (now : Z) (jobID state : string) (st : jredis) : list jredis :=
  [st; match transitionRuntimeState jobID state st with Ok st' => st' | Err _ => st end; (SetState now jobID state st).1].

Definition setJobState (jobID state : string) : sched (option serror) :=
  if jobID =s? "" then sret None
  else now <- snow ;;
       r <- scall "SetState" (SetState_steps now jobID state)
              (fun st => match SetState now jobID state st with (st', None) => (st', Ok tt) | (st', Some e) => (st', Err e) end) ;;
       sret (match r with Ok _ => None | Err e => Some (mkError (er_is e) ("set job state: " +:+ er_msg e) (er_delay e)) end).

(** [if err := e.setJobState(...); err != nil { return RetryAfter(err, retryDelayStore) }]. *)
Definition set_state_or_retry (jobID state : string) (k : handler) : handler :=
  e <- setJobState jobID state ;;
  match e with Some e => sret (Some (RetryAfter e retryDelayStore)) | None => k end.

(** ** The job lock *)

Definition withJobLock (jobID : string) (fn : handler) : handler :=
  if jobID =s? "" then fn
  else
    tr <- strace ;;
    let answer := s_lock tr jobID in
    slog (SvLock jobID answer) ;;;
    match answer with
    | LockFailed msg => sret (Some (RetryAfter (plain msg) retryDelayStore))
    | LockBusy => sret (Some (RetryAfter (plain "job lock busy") retryDelayBusy))
    | LockShutdown msg => sret (Some (wrapping ContextDone msg))
    | LockAcquired =>
        r <- fn ;;
        abandoned <- ask "lock abandoned" (fun tr => s_abandoned tr jobID) ;;
        sret (if abandoned
              then Some (match r with
                         | Some e => mkError (er_is e) ("lock abandoned during execution: " +:+ er_msg e) (er_delay e)
                         | None => wrapping errLockAbandoned "job lock abandoned: renewal failed"
                         end)
              else r)
    end.

(** ** Publishing *)

Definition attachServiceToken (pkt : SPacket) : sched SPacket :=
  match s_mint with
  | None => sret pkt
  | Some mint =>
      tok <- ask "service token" mint ;;
      sret (match tok with
            | Some t => if t =s? "" then pkt else mkSPacket (sp_TraceId pkt) (sp_SenderId pkt) (sp_Identity pkt) t (sp_Payload pkt)
            | None => pkt
            end)
  end.

Definition publish (subject : string) (pkt : SPacket) : sched (option serror) :=
  tr <- strace ;;
  st <- sstore ;;
  let err := s_publish tr subject in
  slog (SvPublish subject pkt st err) ;;;
  sret (plain <$> err).

(** [loadProductionJobIdentity]. *)
Definition loadProductionJobIdentity (jobID : string) : sched (result serror (option IdentityBinding)) :=
  if jobID =s? "" then sret (Err (wrapping ErrProductionResultIdentityUnavailable "scheduler: production result identity unavailable"))
  else r <- sread "GetJobRequest" (GetJobRequest jobID) ;;
       sret (match r with
             | Err _ => Err (wrapping ErrProductionResultIdentityUnavailable "scheduler: production result identity unavailable: job request lookup")
             | Ok req =>
                 if negb (jr_JobId req =s? jobID) then Err (wrapping ErrProductionResultIdentityMismatch "scheduler: production result identity mismatch: stored job id")
                 else match NormalizeProductionJobRequest req (jr_Identity req) with
                      | Err _ => Err (wrapping ErrProductionResultIdentityMismatch "scheduler: production result identity mismatch: stored job identity")
                      | Ok n => Ok (jr_Identity n)
                      end
             end).

(** The identity a packet about a job carries. *)
Definition packet_identity (jobID : string) : sched (result serror (option IdentityBinding)) :=
  if s_productionIdentity then loadProductionJobIdentity jobID else sret (Ok None).

(** ** The dead-letter queue *)

Definition emitDLQ (jobID : string) (status : JobStatus) (reason reasonCode : string) : sched (option serror) :=
  if jobID =s? "" then sret None
  else
    snow ;;;
    sink <- match s_dlq_sink with Some add => ask "dlq sink" add | None => sret None end ;;
    match sink with
    | Some msg => sret (Some (plain ("dlq sink add failed: " +:+ msg)))
    | None =>
        id <- packet_identity jobID ;;
        match id with
        | Err e => sret (Some (mkError (er_is e) ("dlq production identity: " +:+ er_msg e) None))
        | Ok id =>
            publish SubjectDLQ (mkSPacket jobID defaultSenderID id ""
              (SJobResult (mkJobOutcome jobID status reasonCode (mapStringToErrorCode reasonCode) reason "" defaultSenderID id None)))
        end
    end.

Definition emitDLQWithRetry (jobID : string) (status : JobStatus) (reason reasonCode : string) : sched (option serror) :=
  e <- emitDLQ jobID status reason reasonCode ;;
  match e with
  | None => sret None
  | Some _ =>
      down <- ask "dlq retry" s_shutdown ;;
      match down with
      | Some msg => sret (Some (wrapping ContextDone msg))
      | None => emitDLQ jobID status reason reasonCode
      end
  end.

(** [if err := e.emitDLQWithRetry(...); err != nil { return RetryAfter(err, retryDelayPublish) }; return nil]. *)
Definition dlq_and_done (jobID : string) (status : JobStatus) (reason reasonCode : string) : handler :=
  e <- emitDLQWithRetry jobID status reason reasonCode ;;
  sret (match e with Some e => Some (RetryAfter e retryDelayPublish) | None => None end).

End Calls.
