(* ===== verification/Scheduler.v ===== *)
(** * Scheduling a job

    core/controlplane/scheduler/engine.go (handleJobRequest to checkSafetyDecision)
    and delegation_dispatch.go: a submitted job is checked against the registry of
    topics and its input schema, its delegation token is verified, the safety kernel
    decides, limits are applied, a worker is picked, and the job is fenced and
    published to that worker.

    Metrics, spans and log lines are left out; the audit events of a bypass are in
    the trace.  The job store and the bus are present. *)
From Stdlib Require Import Ascii.
From S2P Require Import Prelude.
From S2P Require Import GoStrings.
From S2P Require Import PolicyTypes.
From S2P Require Import JobRuntime.
From S2P Require Import JobStore.
From S2P Require Import GoValues.
From S2P Require Import Licensing.
From S2P Require Import WorkflowModels.
From S2P Require Import JobIdentity.
From S2P Require Import JobMeta.
From S2P Require Import JobApproval.
From S2P Require Import SchedulerEnv.

Open Scope string_scope.

(** ** Errors of scheduling *)

Definition isRetryableSchedulingError (err : option serror) : bool :=
  match err with
  | None => false
  | Some e =>
      is_err TierLimit e || is_err ErrNoWorkers e || is_err ErrPoolOverloaded e || is_err ErrTenantLimit e || is_err ErrNoPoolMapping e
      || (let msg := ToLower (TrimSpace (er_msg e)) in Contains msg "no workers available" || Contains msg "overloaded")
  end.

Definition reasonCodeForSchedulingError (e : serror) : string :=
  match er_is e with
  | Some TierLimit => "tier_limit_exceeded"
  | Some ErrNoPoolMapping => "no_pool_mapping"
  | Some ErrNoWorkers => "no_workers"
  | Some ErrPoolOverloaded => "pool_overloaded"
  | Some ErrTenantLimit => "tenant_limit"
  | _ => "dispatch_failed"
  end.

(** The base of a combined snapshot [base|cfg:hash]. *)
Definition snapshotBase (snap : string) : string :=
  match cut_first "|" snap with Some (base, _) => base | None => snap end.

(** ** Constraints *)

(** A budget of zeros is the absent budget. *)
Definition applyConstraints `{ProtoCodec} (req : JobRequest) (c : PolicyConstraints) : JobRequest :=
  let env := jr_Env req in
  let env := match constraints_json c with Some data => <["CORDUM_POLICY_CONSTRAINTS" := data]> env | None => env end in
  let env := if RedactionLevel c =s? "" then env else <["CORDUM_REDACTION_LEVEL" := RedactionLevel c]> env in
  let b := Budgets c in
  let deadline := if (0 <? MaxRuntimeMs b)%Z then
                    match jr_DeadlineMs req with
                    | None => Some (MaxRuntimeMs b)
                    | Some d => if (d =? 0)%Z || (MaxRuntimeMs b <? d)%Z then Some (MaxRuntimeMs b) else Some d
                    end
                  else jr_DeadlineMs req in
  let env := if (0 <? MaxArtifactBytes b)%Z then <["CORDUM_MAX_ARTIFACT_BYTES" := Itoa (MaxArtifactBytes b)]> env else env in
  let env := if (0 <? MaxConcurrentJobs b)%Z then <["CORDUM_MAX_CONCURRENT_JOBS" := Itoa (MaxConcurrentJobs b)]> env else env in
  let env := if (0 <? PolicyTypes.MaxRetries b)%Z then <["CORDUM_MAX_RETRIES" := Itoa (PolicyTypes.MaxRetries b)]> env else env in
  set_jr_DeadlineMs deadline (set_jr_Env env req).

Definition maxRetriesFromConstraints (c : option PolicyConstraints) : Z :=
  match c with Some c => PolicyTypes.MaxRetries (Budgets c) | None => 0 end.
Definition maxConcurrentFromConstraints (c : option PolicyConstraints) : Z :=
  match c with Some c => MaxConcurrentJobs (Budgets c) | None => 0 end.

Section Dispatch.
Context `{ProtoCodec} `{SchedEnv}.

(** ** Topic and schema *)

Definition topicRegistration (tenantID topic : string) : sched (result serror (option Registration * bool)) :=
  match s_topics with
  | None =>
      match s_schemaMode with
      | EnforcementEnforce => sret (Err (plain "topic registry unavailable"))
      | _ => sret (Ok (None, true))
      end
  | Some get =>
      r <- ask "topic registry" (fun tr => get tr tenantID topic) ;;
      sret (match r with Ok x => Ok x | Err msg => Err (plain msg) end)
  end.

(** The job fails and goes to the dead-letter queue; [true] is "handled". *)
Definition failSchemaValidation (req : JobRequest) (reason reasonCode : string) : sched (result serror bool) :=
  let jobID := TrimSpace (jr_JobId req) in
  e <- setJobState jobID JobStateFailed ;;
  match e with
  | Some e => sret (Err (RetryAfter e retryDelayStore))
  | None =>
      d <- emitDLQWithRetry jobID JOB_STATUS_FAILED reason reasonCode ;;
      sret (match d with Some e => Err (RetryAfter e retryDelayPublish) | None => Ok true end)
  end.

Definition handleSchemaViolations (req : JobRequest) (violations : nat) : sched (result serror bool) :=
  if (violations =? 0)%nat then sret (Ok false)
  else match s_schemaMode with
       | EnforcementEnforce => failSchemaValidation req "schema validation failed" "schema_validation_failed"
       | _ => sret (Ok false)
       end.

(** The payload to validate, or the number of violations. *)
Definition loadSubmitValidationPayload (req : JobRequest) : sched (nat + string) :=
  if bool_decide (jr_ContextRef req = None) && (TrimSpace (jr_ContextPtr req) =s? "") then sret (inl 1%nat)
  else data <- ask "context" (fun tr => s_read_context tr req) ;;
       sret (match data with Some d => if d =s? "" then inl 1%nat else inr d | None => inl 1%nat end).

Definition applySubmitSchemaValidation (req : JobRequest) (reg : option Registration) : sched (result serror bool) :=
  match s_schemaMode, reg with
  | EnforcementOff, _ | _, None => sret (Ok false)
  | _, Some reg =>
      let schemaID := TrimSpace (tr_InputSchemaID reg) in
      if schemaID =s? "" then sret (Ok false)
      else
        payload <- loadSubmitValidationPayload req ;;
        match payload with
        | inl violations => handleSchemaViolations req violations
        | inr data =>
            match s_schema with
            | None => failSchemaValidation req "schema registry unavailable" "schema_registry_unavailable"
            | Some get =>
                schema <- ask "schema" (fun tr => get tr schemaID) ;;
                match schema with
                | Err None => failSchemaValidation req "topic input schema not found" "schema_not_found"
                | Err (Some msg) => sret (Err (RetryAfter (plain msg) retryDelayStore))
                | Ok json =>
                    match s_validate schemaID json data with
                    | None => failSchemaValidation req "topic input schema invalid" "schema_invalid"
                    | Some violations => handleSchemaViolations req violations
                    end
                end
            end
        end
  end.

(** ** Delegation (delegation_dispatch.go) *)

Definition requestCarriesDelegation (req : JobRequest) : bool :=
  let has k := negb (TrimSpace (get_str (jr_Labels req) k) =s? "") in
  has "_delegation.jti" || has "_delegation.depth" || has "_delegation.issuer_chain".

(** An error of the token service has a code; the others have only a text. *)
Record derror := mkDError { de_code : string; de_msg : string }.

Definition classifyDelegationDispatchError (e : derror) : string * string * bool :=
  let c := de_code e in
  if c =s? "revoked" then ("delegation token revoked before dispatch", "delegation.revoked_before_dispatch", false)
  else if c =s? "expired" then ("delegation token expired before dispatch", "delegation.expired_before_dispatch", false)
  else if c =s? "audience_mismatch" then ("delegation token audience mismatch before dispatch", "delegation.audience_mismatch_before_dispatch", false)
  else if c =s? "scope_exceeded" then ("delegation token scope exceeded before dispatch", "delegation.scope_exceeded_before_dispatch", false)
  else if c =s? "chain_too_deep" then ("delegation token chain too deep before dispatch", "delegation.chain_too_deep_before_dispatch", false)
  else if (c =s? "malformed") || (c =s? "bad_signature") || (c =s? "unknown_kid") || (c =s? "not_yet_valid")
  then ("delegation token invalid before dispatch", "delegation.invalid_before_dispatch", false)
  else
    let lower := ToLower (TrimSpace (de_msg e)) in
    if Contains lower "dispatch token missing" then ("delegation token missing before dispatch", "delegation.missing_dispatch_token", false)
    else if Contains lower "dispatch token store unavailable"
    then ("delegation dispatch verification unavailable", "delegation.dispatch_reverify_unavailable", true)
    else if negb (lower =s? "") then (TrimSpace (de_msg e), "delegation.dispatch_reverify_unavailable", true)
    else ("delegation dispatch verification unavailable", "delegation.dispatch_reverify_unavailable", true).

Definition delegation_retries (e : derror) : bool := let '(_, _, retry) := classifyDelegationDispatchError e in retry.

(** Whether the request is delegated, or the error and whether it counts as one of
    a delegated request. *)
Definition verifyDelegationBeforeDispatch (req : JobRequest) : sched (result (derror * bool) bool) :=
  let jobID := jr_JobId req in
  if TrimSpace jobID =s? "" then sret (Ok false)
  else
    tok <- sread "GetDelegationDispatchToken" (GetDelegationDispatchToken s_decode_token jobID) ;;
    match tok with
    | Err e => sret (Err (mkDError "" (er_msg e), true))
    | Ok tok =>
        if TrimSpace (dt_Token tok) =s? "" then
          sret (if requestCarriesDelegation req then Err (mkDError "" "delegation dispatch token missing", true) else Ok false)
        else
          svc <- ask "token service" s_token_service ;;
          match svc with
          | Some msg => sret (Err (mkDError "" msg, true))
          | None =>
              v <- ask "verify token" (fun tr => s_verify_token tr (dt_Token tok) (dt_Audience tok)) ;;
              match v with
              | Err (code, msg) =>
                  let e := mkDError code msg in
                  (if delegation_retries e then sret tt
                   else swrite "ClearDelegationDispatchToken" (ClearDelegationDispatchToken jobID) ;;; sret tt) ;;;
                  sret (Err (e, true))
              | Ok lineage =>
                  w <- swrite "SetDelegationLineage" (SetDelegationLineage jobID lineage) ;;
                  match w with
                  | Err e => sret (Err (mkDError "" (er_msg e), true))
                  | Ok _ => swrite "ClearDelegationDispatchToken" (ClearDelegationDispatchToken jobID) ;;; sret (Ok true)
                  end
              end
          end
    end.

(** ** The safety decision *)

Definition attachEffectiveConfig (req : JobRequest) : sched JobRequest :=
  match s_config with
  | None => sret req
  | Some effective =>
      cfg <- ask "effective config" (fun tr =>
               effective tr (ExtractTenant req) (get_str (jr_Env req) "team_id") (jr_WorkflowId req) (get_str (jr_Env req) "step_id")) ;;
      sret (match cfg with Some data => set_jr_Env (<[EffectiveConfigEnvVar := data]> (jr_Env req)) req | None => req end)
  end.

Definition approval_label (req : JobRequest) : bool :=
  let raw := TrimSpace (get_str (jr_Labels req) "approval_granted") in negb (raw =s? "") && EqualFold raw "true".

(** Whether the stored decision lets an approved request through: the decision
    asked for an approval of this very request, under the policy the label names. *)
Definition fast_path (req : JobRequest) (prev : SafetyDecisionRecord) : bool :=
  (sd_ApprovalRequired prev || (sd_Decision prev =s? SafetyRequireApproval)) && negb (sd_JobHash prev =s? "")
  && match Hash req with
     | Err _ => false
     | Ok hash =>
         (hash =s? sd_JobHash prev)
         && (let asserted := TrimSpace (get_str (jr_Labels req) "approval_snapshot") in
             let stored := TrimSpace (sd_PolicySnapshot prev) in
             isApprovalGateTopic (TrimSpace (jr_Topic req))
             || (negb (asserted =s? "") && negb (stored =s? "") && (snapshotBase asserted =s? snapshotBase stored)))
     end.

(** The decision an approval stands for. *)
Definition granted_record (now : Z) (prev : SafetyDecisionRecord) : SafetyDecisionRecord :=
  mkSafetyDecisionRecord SafetyAllow "approval granted" (sd_RuleID prev) (sd_PolicySnapshot prev) (sd_Constraints prev) false ""
    (sd_JobHash prev) [] now "" "" 0 "".

Definition set_decision (d : string) (r : SafetyDecisionRecord) : SafetyDecisionRecord :=
  mkSafetyDecisionRecord d (sd_Reason r) (sd_RuleID r) (sd_PolicySnapshot r) (sd_Constraints r) (sd_ApprovalRequired r) (sd_ApprovalRef r)
    (sd_JobHash r) (sd_Remediations r) (sd_CheckedAt r) (sd_ApprovalStatus r) (sd_Actionability r) (sd_ApprovalRevision r) (sd_ApprovalDecision r).
Definition set_reason (d : string) (r : SafetyDecisionRecord) : SafetyDecisionRecord :=
  mkSafetyDecisionRecord (sd_Decision r) d (sd_RuleID r) (sd_PolicySnapshot r) (sd_Constraints r) (sd_ApprovalRequired r) (sd_ApprovalRef r)
    (sd_JobHash r) (sd_Remediations r) (sd_CheckedAt r) (sd_ApprovalStatus r) (sd_Actionability r) (sd_ApprovalRevision r) (sd_ApprovalDecision r).
Definition set_hash (h : string) (r : SafetyDecisionRecord) : SafetyDecisionRecord :=
  mkSafetyDecisionRecord (sd_Decision r) (sd_Reason r) (sd_RuleID r) (sd_PolicySnapshot r) (sd_Constraints r) (sd_ApprovalRequired r) (sd_ApprovalRef r)
    h (sd_Remediations r) (sd_CheckedAt r) (sd_ApprovalStatus r) (sd_Actionability r) (sd_ApprovalRevision r) (sd_ApprovalDecision r).
Definition set_checked (t : Z) (r : SafetyDecisionRecord) : SafetyDecisionRecord :=
  mkSafetyDecisionRecord (sd_Decision r) (sd_Reason r) (sd_RuleID r) (sd_PolicySnapshot r) (sd_Constraints r) (sd_ApprovalRequired r) (sd_ApprovalRef r)
    (sd_JobHash r) (sd_Remediations r) t (sd_ApprovalStatus r) (sd_Actionability r) (sd_ApprovalRevision r) (sd_ApprovalDecision r).

Definition store_decision (jobID : string) (record : SafetyDecisionRecord) : sched (result serror unit) :=
  now <- snow ;; swrite "SetSafetyDecision" (SetSafetyDecision now jobID record).

(** An allow that needs an approval is a request for one. *)
Definition escalate (r : SafetyDecisionRecord) : SafetyDecisionRecord :=
  if sd_ApprovalRequired r && ((sd_Decision r =s? SafetyAllow) || (sd_Decision r =s? SafetyAllowWithConstraints))
  then set_decision SafetyRequireApproval r else r.

(** The full check: the record, and the error beside it. *)
Definition full_check (jobID : string) (req : JobRequest) : sched (SafetyDecisionRecord * option serror) :=
  down <- ask "shutdown" s_shutdown ;;
  match down with
  | Some msg =>
      now <- snow ;;
      sret (set_checked now (set_reason "engine shutting down" (set_decision SafetyDeny empty_safety)), Some (wrapping ContextDone msg))
  | None =>
      tr <- strace ;;
      let '(record, err) := s_safety tr req in
      slog (SvSafety req record err) ;;;
      down <- ask "shutdown" s_shutdown ;;
      match down with
      | Some msg => sret (record, Some (wrapping ContextDone msg))
      | None =>
          timeout <- ask "safety timeout" s_safety_timeout ;;
          let record := if timeout then set_decision SafetyUnavailable record else record in
          let err := if timeout then Some (plain "safety check timeout (defense-in-depth, 3s)") else plain <$> err in
          now <- snow ;;
          let record := if (sd_CheckedAt record =? 0)%Z then set_checked now record else record in
          let record := escalate record in
          let finish record :=
            st <- sstore ;;
            w <- store_decision jobID record ;;
            match w with
            | Err e => sret (record, Some e)
            | Ok _ => slog (SvDecision req record st) ;;; sret (record, err)
            end in
          if (sd_Decision record =s? SafetyRequireApproval) || sd_ApprovalRequired record then
            prev <- sread "GetSafetyDecision" (fun st => Ok (GetSafetyDecision jobID st)) ;;
            match prev with
            | Err e => sret (record, Some (wrapping errApprovalHashFenceRead (er_msg e)))
            | Ok prev =>
                finish (if negb (sd_JobHash prev =s? "") then set_hash (sd_JobHash prev) record
                        else match Hash req with Ok h => set_hash h record | Err _ => record end)
            end
          else finish record
      end
  end.

Definition checkSafetyDecision (req : JobRequest) : sched (SafetyDecisionRecord * option serror) :=
  let jobID := TrimSpace (jr_JobId req) in
  if jobID =s? "" then sret (empty_safety, Some (plain "missing job id"))
  else if approval_label req then
    prev <- sread "GetSafetyDecision" (fun st => Ok (GetSafetyDecision jobID st)) ;;
    match prev with
    | Ok prev =>
        if fast_path req prev then
          st <- sstore ;;
          now <- snow ;;
          let record := granted_record now prev in
          w <- store_decision jobID record ;;
          match w with
          | Err e => sret (record, Some e)
          | Ok _ => slog (SvDecision req record st) ;;; sret (record, None)
          end
        else full_check jobID req
    | Err _ => full_check jobID req
    end
  else full_check jobID req.

(** ** Picking a worker *)

(** [filterBoundWorkers]. *)
Definition filterBoundWorkers (tr : list SEvent) (workers : gmap string Heartbeat) (readiness : gmap string WorkerReadiness) (topic : string)
    : gmap string Heartbeat :=
  if s_sessionMode
  then filter (fun kv => s_bound tr (kv.1) (kv.2) (default (mkReadiness false false []) (readiness !! (kv.1))) topic) workers
  else workers.

Definition requiresTrustedReadiness : bool := s_readinessRequired || s_sessionMode.

(** The eligible workers, and their readiness when it is required. *)
Definition eligible (topic : string) : sched (gmap string Heartbeat * option (gmap string WorkerReadiness)) :=
  workers <- ask "workers" s_workers ;;
  readiness <- (if requiresTrustedReadiness then r <- ask "readiness" s_readiness ;; sret (Some r) else sret None) ;;
  workers <- ask "bound workers" (fun tr => filterBoundWorkers tr workers (default ∅ readiness) topic) ;;
  sret (workers, readiness).

(** At most [n] more picks; a stale worker is picked again from a new snapshot. *)
Fixpoint pick_loop (n : nat) (topic : string) (req : JobRequest) (workers : gmap string Heartbeat) (readiness : option (gmap string WorkerReadiness))
    : sched (result serror string) :=
  if s_sessionMode && bool_decide (workers = ∅)
  then sret (Err (wrapping ErrNoWorkers ("no_workers: no trusted worker authorized for topic " +:+ Quote topic)))
  else
    picked <- ask "pick" (fun tr => s_pick tr req workers readiness) ;;
    match picked with
    | Err e => sret (Err e)
    | Ok subject =>
        let workerID := extractWorkerFromSubject subject in
        if workerID =s? "" then sret (Ok subject)
        else
          alive <- ask "alive" (fun tr => s_alive tr workerID) ;;
          if alive : bool then sret (Ok subject)
          else match n with
               | O => sret (Err (wrapping ErrNoWorkers ("no_workers: pool " +:+ Quote topic +:+ " (stale worker " +:+ workerID +:+ ")")))
               | S n => ws <- eligible topic ;; pick_loop n topic req ws.1 ws.2
               end
    end.

Definition pick_subject (topic : string) (req : JobRequest) : sched (result serror string) :=
  ws <- eligible topic ;; pick_loop (pred maxDispatchRetries) topic req ws.1 ws.2.

(** ** Limits *)

(** [GetAttempts]: an absent counter is 0, an unreadable one counts as [limit]. *)
Definition attempts_or (limit : Z) (jobID : string) : sched Z :=
  r <- sread "GetAttempts" (fun st => or_nil (GetAttempts jobID st)) ;;
  sret (match r with Ok a => a | Err e => if is_err RedisNil e then 0%Z else limit end).

(** The job fails, then goes to the dead-letter queue. *)
Definition fail_to_dlq (jobID reason reasonCode : string) : handler :=
  set_state_or_retry jobID JobStateFailed (dlq_and_done jobID JOB_STATUS_FAILED reason reasonCode).

Definition retries_limited (jobID : string) (record : SafetyDecisionRecord) (k : handler) : handler :=
  let maxRetries := maxRetriesFromConstraints (sd_Constraints record) in
  if (0 <? maxRetries)%Z then
    let allowedAttempts := (maxRetries + 1)%Z in
    attempts <- attempts_or allowedAttempts jobID ;;
    if (allowedAttempts <=? attempts)%Z
    then fail_to_dlq jobID ("max retries exceeded (attempts=" +:+ Itoa attempts +:+ ", max_retries=" +:+ Itoa maxRetries +:+ ")") "max_retries_exceeded"
    else k
  else k.

Definition to_retry (delay : Z) (e : serror) : serror := RetryAfter e delay.

Definition policy_concurrency (req : JobRequest) (record : SafetyDecisionRecord) (k : handler) : handler :=
  let maxConcurrent := maxConcurrentFromConstraints (sd_Constraints record) in
  if (0 <? maxConcurrent)%Z then
    on_ok (sread "CountActiveByTenant" (CountActiveByTenant (ExtractTenant req))) (to_retry retryDelayStore) (fun active =>
      if (maxConcurrent <=? active)%Z then sret (Some (RetryAfter (wrapping ErrTenantLimit "tenant_limit") retryDelayNoWorkers)) else k)
  else k.

Definition tier_concurrency (req : JobRequest) (k : handler) : handler :=
  let tenant := ExtractTenant req in
  if TrimSpace tenant =s? "" then k
  else
    on_ok (sread "CountActiveByTenant" (CountActiveByTenant tenant)) (to_retry retryDelayStore) (fun active =>
      ent <- ask "entitlements" s_entitlements ;;
      match CheckJobConcurrency (active + 1) ent with
      | Some e => sret (Some (RetryAfter (wrapping TierLimit (TierLimitError_Error e)) retryDelayNoWorkers))
      | None => k
      end).

Definition record_deadline (jobID : string) (req : JobRequest) (k : handler) : handler :=
  match jr_DeadlineMs req with
  | Some ms =>
      if (0 <? ms)%Z then
        now <- snow ;;
        on_ok (swrite "SetDeadline" (SetDeadline jobID (request_deadline now req))) (to_retry retryDelayStore) (fun _ => k)
      else k
  | None => k
  end.

(** ** Handing the job to its worker *)

Definition rollbackFailedDispatch (jobID dispatchID : string) (attempt : Z) : sched (option serror) :=
  if dispatchID =s? "" then setJobState jobID JobStateScheduled
  else
    r <- scall "RollbackDispatch" (fun st => [st; match RollbackDispatch jobID dispatchID attempt st with Ok (st', _) => st' | Err _ => st end])
           (fun st => match RollbackDispatch jobID dispatchID attempt st with Ok (st', b) => (st', Ok b) | Err e => (st, Err e) end) ;;
    match r with
    | Err e => sret (Some e)
    | Ok true => setJobState jobID JobStateScheduled
    | Ok false => sret None
    end.

(** [BeginDispatch] migrates the fence of an older job, then draws a new one. *)
Definition begin_dispatch (jobID workerID tenant : string) : sched (result serror (string * Z)) :=
  id <- suuid ;;
  scall "BeginDispatch" (fun st => [st; migrateRuntimeFence jobID st; (BeginDispatch id jobID workerID tenant st).1])
    (BeginDispatch id jobID workerID tenant).

(** Publish the fenced request; on a failure the dispatch is rolled back. *)
Definition publish_job (jobID traceID subject : string) (attempts : Z) (req : JobRequest) (dispatchID : string) (dispatchAttempt : Z) : handler :=
  let outbound := if s_productionIdentity then set_jr_Topic subject req else req in
  pkt <- attachServiceToken (mkSPacket traceID defaultSenderID (jr_Identity outbound) "" (SJobRequest outbound)) ;;
  e <- publish subject pkt ;;
  match e with
  | Some e =>
      rollbackFailedDispatch jobID dispatchID dispatchAttempt ;;;
      jitter <- ask "jitter" s_jitter ;;
      sret (Some (RetryAfter e (backoffDelay jitter attempts backoffBase backoffMax)))
  | None => set_state_or_retry jobID JobStateRunning (sret None)
  end.

(** From SCHEDULED to RUNNING: the state says DISPATCHED before the job is published. *)
Definition dispatch_to (jobID traceID subject : string) (attempts : Z) (req : JobRequest) : handler :=
  set_state_or_retry jobID JobStateScheduled (
  set_state_or_retry jobID JobStateDispatched (
    let workerID := extractWorkerFromSubject subject in
    if workerID =s? "" then publish_job jobID traceID subject attempts req "" 0
    else
      r <- begin_dispatch jobID workerID (ExtractTenant req) ;;
      match r with
      | Err e => setJobState jobID JobStateScheduled ;;; sret (Some (RetryAfter e retryDelayStore))
      | Ok (dispatchID, attempt) =>
          publish_job jobID traceID subject attempts (set_jr_Dispatch (Some (mkDispatchIdentity dispatchID attempt workerID)) req) dispatchID attempt
      end)).

(** Pick a worker for an admitted job and hand it over. *)
Definition place (jobID topic traceID : string) (attempts : Z) (req : JobRequest) : handler :=
  picked <- pick_subject topic req ;;
  match picked with
  | Ok subject => dispatch_to jobID traceID subject attempts req
  | Err e =>
      if isRetryableSchedulingError (Some e) then
        swrite "IncrAttempts" (IncrAttempts jobID) ;;;
        jitter <- ask "jitter" s_jitter ;;
        sret (Some (RetryAfter e (backoffDelay jitter attempts backoffBase backoffMax)))
      else fail_to_dlq jobID (er_msg e) (reasonCodeForSchedulingError e)
  end.

(** What an admitted job still has to pass. *)
Definition admission (jobID topic traceID : string) (attempts : Z) (req : JobRequest) (record : SafetyDecisionRecord) : handler :=
  retries_limited jobID record (policy_concurrency req record (tier_concurrency req (record_deadline jobID req (place jobID topic traceID attempts req)))).

(** ** Processing a job *)

Definition outcome (jobID : string) (status : JobStatus) (identity_ : option IdentityBinding) : JobOutcome :=
  mkJobOutcome jobID status "" ERROR_CODE_UNSPECIFIED "" "" defaultSenderID identity_ None.

(** [publishSchedulerAcceptedPacket]: a clone under the scheduler's own name. *)
Definition publishSchedulerAcceptedPacket (subject : string) (pkt : SPacket) : handler :=
  let payload := match sp_Payload pkt with
                 | SJobResult r => SJobResult (mkJobOutcome (jo_JobId r) (jo_Status r) (jo_ErrorCode r) (jo_ErrorCodeEnum r) (jo_ErrorMessage r)
                                                 (jo_ResultPtr r) defaultSenderID (jo_Identity r) (jo_Dispatch r))
                 | p => p
                 end in
  trusted <- attachServiceToken (mkSPacket (sp_TraceId pkt) defaultSenderID (sp_Identity pkt) "" payload) ;;
  e <- publish subject trusted ;;
  sret (match e with Some e => Some (RetryAfter e retryDelayPublish) | None => None end).

Definition publishSchedulerResult (pkt : SPacket) : handler :=
  if s_productionIdentity then publishSchedulerAcceptedPacket SubjectAcceptedResult pkt
  else
    pkt <- attachServiceToken pkt ;;
    e <- publish SubjectResult pkt ;;
    sret (match e with Some e => Some (RetryAfter e retryDelayPublish) | None => None end).

(** An approval gate has no worker: once approved it has succeeded. *)
Definition complete_gate (jobID traceID : string) (req : JobRequest) : handler :=
  e <- publishSchedulerResult (mkSPacket traceID defaultSenderID (jr_Identity req) "" (SJobResult (outcome jobID JOB_STATUS_SUCCEEDED (jr_Identity req)))) ;;
  match e with
  | Some e => sret (Some e)
  | None => set_state_or_retry jobID JobStateSucceeded (sret None)
  end.

(** The job is denied and goes to the dead-letter queue. *)
Definition deny (jobID : string) (record : SafetyDecisionRecord) (reasonCode : string) : handler :=
  set_state_or_retry jobID JobStateDenied (dlq_and_done jobID JOB_STATUS_DENIED (sd_Reason record) reasonCode).

(** A request let through because the safety kernel cannot be reached. *)
Definition bypassed (reason : string) (req : JobRequest) : JobRequest :=
  set_jr_Labels (<["safety_bypass_reason" := reason]> (<["safety_bypassed" := "true"]> (jr_Labels req))) req.

(** What the decision means for the job. *)
Definition act_on (jobID topic traceID : string) (attempts : Z) (req : JobRequest) (record : SafetyDecisionRecord) : handler :=
  let d := sd_Decision record in
  if (d =s? SafetyAllow) || (d =s? SafetyAllowWithConstraints) then
    let req := match sd_Constraints record with Some c => applyConstraints req c | None => req end in
    if isApprovalGateTopic topic then complete_gate jobID traceID req
    else admission jobID topic traceID attempts req record
  else if d =s? SafetyThrottle then
    sret (Some (RetryAfter (plain (if TrimSpace (sd_Reason record) =s? "" then "safety throttle" else "safety throttle: " +:+ sd_Reason record))
                  safetyThrottleDelay))
  else if d =s? SafetyUnavailable then
    open_ <- ask "fail mode" (fun tr => negb s_productionIdentity && s_fail_open tr (jr_TenantId req)) ;;
    if open_ : bool then
      slog (SvBypass req) ;;;
      let reason := "fail-open: safety unavailable — " +:+ sd_Reason record in
      let record := set_reason reason (set_decision SafetyAllow record) in
      admission jobID topic traceID attempts (bypassed reason req) record
    else sret (Some (RetryAfter (plain ("safety unavailable: " +:+ sd_Reason record)) safetyThrottleDelay))
  else if d =s? SafetyRequireApproval then set_state_or_retry jobID JobStateApproval (sret None)
  else if d =s? SafetyDeny then deny jobID record "safety_denied"
  else deny jobID record "safety_unknown".

(** The safety decision; an error beside it makes the kernel count as unavailable. *)
Definition decide_and_act (jobID topic traceID : string) (attempts : Z) (req : JobRequest) : handler :=
  r <- checkSafetyDecision req ;;
  let '(record, err) := r in
  match err with
  | Some e =>
      if is_err errApprovalHashFenceRead e then sret (Some (RetryAfter e retryDelayStore))
      else act_on jobID topic traceID attempts req (set_decision SafetyUnavailable record)
  | None => act_on jobID topic traceID attempts req record
  end.

(** A delegation that does not verify: retry, or the job fails. *)
Definition delegation_failed (jobID : string) (e : derror) (hasDelegation : bool) : handler :=
  let '(reason, reasonCode, retry) := classifyDelegationDispatchError e in
  if retry : bool then sret (Some (RetryAfter (plain (de_msg e)) retryDelayStore))
  else
    (if hasDelegation
     then swrite "SetFailureReason" (SetFailureReason jobID (if reasonCode =s? "" then reason else reasonCode)) ;;; sret tt
     else sret tt) ;;;
    fail_to_dlq jobID reason reasonCode.

(** After the topic and schema checks. *)
Definition process_checked (jobID topic traceID : string) (req : JobRequest) : handler :=
  attempts <- attempts_or maxSchedulingRetries jobID ;;
  if (maxSchedulingRetries <=? attempts)%Z
  then fail_to_dlq jobID ("max scheduling retries exceeded (attempts=" +:+ Itoa attempts +:+ ")") "max_scheduling_retries"
  else
    req <- attachEffectiveConfig req ;;
    v <- verifyDelegationBeforeDispatch req ;;
    match v with
    | Err (e, hasDelegation) => delegation_failed jobID e hasDelegation
    | Ok _ => decide_and_act jobID topic traceID attempts req
    end.

Definition processJob (req : JobRequest) (traceID : string) : handler :=
  let jobID := TrimSpace (jr_JobId req) in
  let topic := TrimSpace (jr_Topic req) in
  if (jobID =s? "") || (topic =s? "") then set_state_or_retry (jr_JobId req) JobStateFailed (sret None)
  else
    on_ok (topicRegistration (jr_TenantId req) topic) (to_retry retryDelayStore) (fun '(reg, registryEmpty) =>
      if negb registryEmpty && (match reg with None => true | Some r => tr_Disabled r end)
      then fail_to_dlq jobID "unknown topic" "unknown_topic"
      else on_ok (applySubmitSchemaValidation req reg) id (fun handled =>
        if handled : bool then sret None else process_checked jobID topic traceID req)).

(** ** A submitted job *)

(** [SetJobMeta] writes the metadata, then the idempotency key, whose error it ignores. *)
Definition SetJobMeta_steps (now : Z) (req : JobRequest) (st : jredis) : list jredis :=
  [st; match canonical_request req with Ok req => write_job_meta now req st | Err _ => st end].

Definition store_job (jobID traceID : string) (req : JobRequest) (k : handler) : handler :=
  let trace_step k := if traceID =s? "" then k
                      else on_ok (swrite "AddJobToTrace" (AddJobToTrace traceID jobID)) (to_retry retryDelayStore) (fun _ => k) in
  trace_step (
    now <- snow ;;
    on_ok (scall "SetJobMeta" (SetJobMeta_steps now req) (fun st => match SetJobMeta now req st with Ok st' => (st', Ok tt) | Err e => (st, Err e) end))
      (to_retry retryDelayStore) (fun _ =>
    on_ok (swrite "SetJobRequest" (SetJobRequest req)) (to_retry retryDelayStore) (fun _ => k))).

(** A job that has ended is not run again; its dead letter is sent again. *)
Definition redelivered (jobID state : string) : handler :=
  if (state =s? JobStateDenied) || (state =s? JobStateFailed)
  then emitDLQWithRetry jobID (if state =s? JobStateDenied then JOB_STATUS_DENIED else JOB_STATUS_FAILED)
         "terminal state redelivery" "redelivery_dlq_retry" ;;; sret None
  else sret None.

(** The job is stored and processed; an error that only means "no capacity" is
    acknowledged. *)
Definition process_stored (jobID traceID currentState : string) (req : JobRequest) : handler :=
  store_job jobID traceID req (
    let go := e <- processJob req traceID ;; sret (if isRetryableSchedulingError e then None else e) in
    if currentState =s? "" then set_state_or_retry jobID JobStatePending go
    else if currentState =s? JobStateScheduled then swrite "IncrAttempts" (IncrAttempts jobID) ;;; go
    else go).

Definition handle_locked (jobID traceID : string) (req : JobRequest) : handler :=
  stopped <- ask "stopped" s_stopped ;;
  if stopped : bool then sret None
  else
    st <- store_GetState jobID ;;
    match st with
    | Ok state =>
        if (state =s? JobStateDispatched) || (state =s? JobStateRunning) then sret None
        else if terminalStates state then redelivered jobID state
        else process_stored jobID traceID state req
    | Err e => if is_err RedisNil e then process_stored jobID traceID "" req else sret (Some (RetryAfter e retryDelayStore))
    end.

Definition handleJobRequest (req : JobRequest) (traceID : string) : handler :=
  match (if s_productionIdentity then NormalizeProductionJobRequest req (jr_Identity req) else Ok req) with
  | Err e => sret (Some (plain ("production job identity: " +:+ e)))
  | Ok req =>
      let jobID := TrimSpace (jr_JobId req) in
      let topic := TrimSpace (jr_Topic req) in
      if (jobID =s? "") || (topic =s? "") then set_state_or_retry jobID JobStateFailed (sret None)
      else withJobLock jobID (handle_locked jobID traceID req)
  end.

End Dispatch.
