(* ===== verification/SchedulerLogic.v ===== *)
(** * Reasoning about the scheduler

    A computation extends the trace; a job is handed out by publishing a packet with
    a job request.  [disp P m w] says that every packet with a job request that [m]
    publishes from [w] satisfies [P], a predicate of the trace before it; [quiet m]
    that it publishes none.  Below, which store calls leave the state of a job where
    a handler put it. *)
From Stdlib Require Import Ascii.
From S2P Require Import Prelude.
From S2P Require Import GoStrings.
From S2P Require Import PolicyTypes.
From S2P Require Import JobRuntime.
From S2P Require Import JobStore.
From S2P Require Import GoValues.
From S2P Require Import Licensing.
From S2P Require Import WorkflowModels.
From S2P Require Import JobIdentity.
From S2P Require Import JobMeta.
From S2P Require Import JobApproval.
From S2P Require Import SchedulerEnv.
From S2P Require Import Scheduler.

Open Scope string_scope.

(** A packet that hands a job to a worker. *)
Definition is_dispatch (ev : SEvent) : bool :=
  match ev with SvPublish _ pkt _ _ => match sp_Payload pkt with SJobRequest _ => true | _ => false end | _ => false end.

Definition disp (P : list SEvent -> SEvent -> Prop) {A} (m : sched A) (w : SWorld) : Prop :=
  exists evs, sw_trace (m w).2 = (sw_trace w ++ evs)%list /\
    forall pre ev post, evs = (pre ++ ev :: post)%list -> is_dispatch ev = true -> P (sw_trace w ++ pre)%list ev.

Definition quiet {A} (m : sched A) : Prop :=
  forall w, exists evs, sw_trace (m w).2 = (sw_trace w ++ evs)%list /\ Forall (fun ev => is_dispatch ev = false) evs.

Lemma quiet_disp P {A} (m : sched A) w : quiet m -> disp P m w.
Proof.
  intros Hq. destruct (Hq w) as (evs & Ht & Hf). exists evs. split; [done|]. intros pre ev post -> Hd.
  apply Forall_app in Hf as [_ Hf]. inversion Hf. congruence.
Qed.

Lemma app_cut {A} (l1 l2 pre post : list A) x :
  (l1 ++ l2 = pre ++ x :: post)%list ->
  (exists post', l1 = pre ++ x :: post')%list \/ (exists pre', pre = l1 ++ pre' /\ l2 = pre' ++ x :: post)%list.
Proof.
  revert pre. induction l1 as [|a l1 IH]; intros pre E.
  - right. by exists pre.
  - destruct pre as [|b pre]; cbn in E; injection E as -> E.
    + left. by exists l1.
    + destruct (IH pre E) as [[post' ->]|(pre' & -> & ->)]; [left; by exists post'|right; by exists pre'].
Qed.

Lemma disp_bind P {A B} (m : sched A) (k : A -> sched B) w :
  disp P m w -> disp P (k (m w).1) (m w).2 -> disp P (sbind m k) w.
Proof.
  intros (e1 & T1 & D1) (e2 & T2 & D2). unfold disp, sbind. destruct (m w) as [a w1] eqn:E. cbn [fst snd] in *.
  exists (e1 ++ e2)%list. split; [rewrite T2, T1; by rewrite <- app_assoc|].
  intros pre ev post Hc Hd. apply app_cut in Hc as [[post' ->]|(pre' & -> & ->)].
  - by eapply D1.
  - rewrite app_assoc, <- T1. by eapply D2.
Qed.

(** The computation run so far had the value [a] and left the world [w1]. *)
Lemma disp_step P {A B} (m : sched A) (k : A -> sched B) w :
  quiet m -> (forall a w1, m w = (a, w1) -> disp P (k a) w1) -> disp P (sbind m k) w.
Proof.
  intros Hq Hk. apply disp_bind; [by apply quiet_disp|]. apply Hk. by destruct (m w).
Qed.

Lemma disp_mono (P Q : list SEvent -> SEvent -> Prop) {A} (m : sched A) w :
  disp P m w -> (forall evs ev, P (sw_trace w ++ evs)%list ev -> Q (sw_trace w ++ evs)%list ev) -> disp Q m w.
Proof. intros (evs & T & D) HPQ. exists evs. split; [done|]. intros pre ev post Hc Hd. apply HPQ. by eapply D. Qed.

(** ** What is quiet *)

Lemma quiet_ret {A} (a : A) : quiet (sret a).
Proof. intros w. exists []. split; [by rewrite app_nil_r|constructor]. Qed.

Lemma quiet_bind {A B} (m : sched A) (k : A -> sched B) : quiet m -> (forall a, quiet (k a)) -> quiet (sbind m k).
Proof.
  intros Hm Hk w. unfold sbind. destruct (Hm w) as (e1 & T1 & F1). destruct (m w) as [a w1]. destruct (Hk a w1) as (e2 & T2 & F2).
  exists (e1 ++ e2)%list. cbn [snd] in *. split; [rewrite T2, T1; by rewrite <- app_assoc|by apply Forall_app].
Qed.

Lemma quiet_log ev : is_dispatch ev = false -> quiet (slog ev).
Proof. intros He w. exists [ev]. split; [done|by repeat constructor]. Qed.

Lemma quiet_trace : quiet strace.
Proof. intros w. exists []. split; [by rewrite app_nil_r|constructor]. Qed.
Lemma quiet_store : quiet sstore.
Proof. intros w. exists []. split; [by rewrite app_nil_r|constructor]. Qed.
Lemma quiet_put st : quiet (sput st).
Proof. intros w. exists []. split; [by rewrite app_nil_r|constructor]. Qed.

Lemma quiet_if {A} (b : bool) (m1 m2 : sched A) : quiet m1 -> quiet m2 -> quiet (if b then m1 else m2).
Proof. by destruct b. Qed.

Create HintDb quiet discriminated.
#[export] Hint Constants Opaque : quiet.
#[export] Hint Resolve quiet_ret quiet_trace quiet_store quiet_put quiet_if : quiet.
#[export] Hint Extern 1 (quiet (slog _)) => apply quiet_log; reflexivity : quiet.

(** Run through a computation, splitting on what it looks at. *)
Ltac quiet_tac :=
  repeat first
    [ solve [auto with quiet nocore]
    | simple apply quiet_bind; [|intros]
    | progress cbv zeta
    | match goal with |- context [match ?x with _ => _ end] => destruct x end ].

Section Logic.
Context `{ProtoCodec} `{SchedEnv}.

Lemma quiet_ask {A} what (f : list SEvent -> A) : quiet (ask what f).
Proof. unfold ask. quiet_tac. Qed.
Lemma quiet_snow : quiet snow.
Proof. unfold snow. quiet_tac. Qed.
Lemma quiet_suuid : quiet suuid.
Proof. unfold suuid. quiet_tac. Qed.
Lemma quiet_scall {A} name steps (op : jredis -> jredis * result StoreError A) : quiet (scall name steps op).
Proof. unfold scall. quiet_tac. Qed.
Lemma quiet_sread {A} name (get : jredis -> result StoreError A) : quiet (sread name get).
Proof. apply quiet_scall. Qed.
Lemma quiet_swrite name op : quiet (swrite name op).
Proof. apply quiet_scall. Qed.
#[local] Hint Resolve quiet_ask quiet_snow quiet_suuid quiet_scall quiet_sread quiet_swrite : quiet.

Lemma quiet_setJobState j s : quiet (setJobState j s).
Proof. unfold setJobState. quiet_tac. Qed.
Lemma quiet_getState j : quiet (store_GetState j).
Proof. apply quiet_sread. Qed.
#[local] Hint Resolve quiet_setJobState quiet_getState : quiet.

Lemma quiet_attach pkt : quiet (attachServiceToken pkt).
Proof. unfold attachServiceToken. quiet_tac. Qed.

Lemma quiet_publish subject pkt :
  (match sp_Payload pkt with SJobRequest _ => False | _ => True end) -> quiet (publish subject pkt).
Proof.
  intros Hp. unfold publish. apply quiet_bind; [auto with quiet|intros]. apply quiet_bind; [auto with quiet|intros].
  cbv zeta. apply quiet_bind; [|auto with quiet nocore]. apply quiet_log. cbn. by destruct (sp_Payload pkt).
Qed.

(** Attaching a token changes neither the payload nor the store. *)
Lemma attach_frame pkt w :
  sp_Payload (attachServiceToken pkt w).1 = sp_Payload pkt /\ sw_store (attachServiceToken pkt w).2 = sw_store w.
Proof.
  unfold attachServiceToken. destruct s_mint as [mint|]; [|done]. cbn. destruct (mint (sw_trace w)) as [t|]; cbn; [|done].
  by destruct (t =s? "").
Qed.

Lemma quiet_attached {A} pkt (k : SPacket -> sched A) :
  (forall p, sp_Payload p = sp_Payload pkt -> quiet (k p)) -> quiet (sbind (attachServiceToken pkt) k).
Proof.
  intros Hk w. destruct (attach_frame pkt w) as [Hp _]. destruct (quiet_attach pkt w) as (e1 & T1 & F1). unfold sbind.
  destruct (attachServiceToken pkt w) as [p w1]. cbn [fst snd] in *. destruct (Hk p Hp w1) as (e2 & T2 & F2).
  exists (e1 ++ e2)%list. split; [rewrite T2, T1; by rewrite <- app_assoc|by apply Forall_app].
Qed.

Lemma quiet_identity j : quiet (packet_identity j).
Proof. unfold packet_identity, loadProductionJobIdentity. quiet_tac. Qed.
#[local] Hint Resolve quiet_attach quiet_identity : quiet.

Lemma quiet_emitDLQ j s r c : quiet (emitDLQ j s r c).
Proof. unfold emitDLQ. quiet_tac. by apply quiet_publish. Qed.
#[local] Hint Resolve quiet_emitDLQ : quiet.

Lemma quiet_emitDLQWithRetry j s r c : quiet (emitDLQWithRetry j s r c).
Proof. unfold emitDLQWithRetry. quiet_tac. Qed.
#[local] Hint Resolve quiet_emitDLQWithRetry : quiet.

Lemma quiet_dlq_and_done j s r c : quiet (dlq_and_done j s r c).
Proof. unfold dlq_and_done. quiet_tac. Qed.
#[local] Hint Resolve quiet_dlq_and_done : quiet.

Lemma quiet_set_state j s k : quiet k -> quiet (set_state_or_retry j s k).
Proof. intros Hk. unfold set_state_or_retry. quiet_tac. Qed.
#[local] Hint Resolve quiet_set_state : quiet.

Lemma quiet_fail_to_dlq j r c : quiet (fail_to_dlq j r c).
Proof. unfold fail_to_dlq. quiet_tac. Qed.
Lemma quiet_failSchema req r c : quiet (failSchemaValidation req r c).
Proof. unfold failSchemaValidation. quiet_tac. Qed.
#[local] Hint Resolve quiet_fail_to_dlq quiet_failSchema : quiet.

Lemma quiet_violations req n : quiet (handleSchemaViolations req n).
Proof. unfold handleSchemaViolations. quiet_tac. Qed.
#[local] Hint Resolve quiet_violations : quiet.

Lemma quiet_schema req reg : quiet (applySubmitSchemaValidation req reg).
Proof. unfold applySubmitSchemaValidation, loadSubmitValidationPayload. quiet_tac. Qed.
Lemma quiet_topic t topic : quiet (topicRegistration t topic).
Proof. unfold topicRegistration. quiet_tac. Qed.
Lemma quiet_attempts n j : quiet (attempts_or n j).
Proof. unfold attempts_or. quiet_tac. Qed.
Lemma quiet_config req : quiet (attachEffectiveConfig req).
Proof. unfold attachEffectiveConfig. quiet_tac. Qed.
Lemma quiet_delegation req : quiet (verifyDelegationBeforeDispatch req).
Proof. unfold verifyDelegationBeforeDispatch. quiet_tac. Qed.
Lemma quiet_delegation_failed j e b : quiet (delegation_failed j e b).
Proof. unfold delegation_failed. quiet_tac. Qed.
Lemma quiet_check req : quiet (checkSafetyDecision req).
Proof. unfold checkSafetyDecision, full_check, store_decision. quiet_tac. Qed.
Lemma quiet_eligible topic : quiet (eligible topic).
Proof. unfold eligible. quiet_tac. Qed.
#[local] Hint Resolve quiet_eligible : quiet.
Lemma quiet_pick_loop n topic req ws rd : quiet (pick_loop n topic req ws rd).
Proof. revert ws rd. induction n; intros ws rd; cbn [pick_loop]; quiet_tac. Qed.
Lemma quiet_pick topic req : quiet (pick_subject topic req).
Proof. unfold pick_subject. apply quiet_bind; [auto with quiet|intros; apply quiet_pick_loop]. Qed.
Lemma quiet_rollback j d n : quiet (rollbackFailedDispatch j d n).
Proof. unfold rollbackFailedDispatch. quiet_tac. Qed.
Lemma quiet_begin j w t : quiet (begin_dispatch j w t).
Proof. unfold begin_dispatch. quiet_tac. Qed.
Lemma quiet_redelivered j s : quiet (redelivered j s).
Proof. unfold redelivered. quiet_tac. Qed.
Lemma quiet_deny j r c : quiet (deny j r c).
Proof. unfold deny. quiet_tac. Qed.

Lemma quiet_gate j t req : quiet (complete_gate j t req).
Proof.
  unfold complete_gate. apply quiet_bind; [|intros [e|]; auto with quiet].
  unfold publishSchedulerResult, publishSchedulerAcceptedPacket. destruct s_productionIdentity; apply quiet_attached; intros p Hp;
    (apply quiet_bind; [|auto with quiet nocore]); apply quiet_publish; by rewrite Hp.
Qed.

End Logic.

#[export] Hint Resolve quiet_ask quiet_snow quiet_suuid quiet_scall quiet_sread quiet_swrite quiet_setJobState quiet_getState quiet_attach
  quiet_identity quiet_emitDLQ quiet_emitDLQWithRetry quiet_dlq_and_done quiet_set_state quiet_fail_to_dlq quiet_schema quiet_topic
  quiet_attempts quiet_config quiet_delegation quiet_delegation_failed quiet_check quiet_pick quiet_rollback quiet_begin quiet_redelivered
  quiet_deny quiet_gate : quiet.
