(* ===== verification/SchedulerTheorems.v ===== *)
(** * The scheduler hands out only authorized jobs

    Theorems on [Scheduler]: every packet that hands a job to a worker is preceded,
    in the same handling, by an allowing decision, a matching approval or, outside
    production, a recorded bypass; the job is then DISPATCHED under the fence the
    packet carries. *)
From Stdlib Require Import Ascii.
From S2P Require Import Prelude.
From S2P Require Import GoStrings.
From S2P Require Import PolicyTypes.
From S2P Require Import JobRuntime.
From S2P Require Import JobStore.
From S2P Require Import GoValues.
From S2P Require Import Licensing.
From S2P Require Import WorkflowModels.
From S2P Require Import JobIdentity.
From S2P Require Import JobMeta.
From S2P Require Import JobApproval.
From S2P Require Import ApprovalTheorems.
From S2P Require Import SchedulerEnv.
From S2P Require Import Scheduler.
From S2P Require Import SchedulerLogic.

Open Scope string_scope.

(** ** The state after a store call *)

Lemma SetStateWithContext_state now j s st st' :
  SetStateWithContext now j s st = Ok st' -> hash_at st' (jobMetaKey j) !! "state" = Some s.
Proof.
  unfold SetStateWithContext. destruct (_ || _); [done|]. destruct (negb _); [done|]. cbv zeta. intros <-%Ok_inj.
  set (fields := [_; _; _]). match goal with |- context [pipeline (_ :: ?l) st] => set (rest := l) end.
  change (pipeline (HSet (jobMetaKey j) fields :: rest) st) with (pipeline rest (HSet (jobMetaKey j) fields st)).
  rewrite (keeps_pipeline "state" rest); last first.
  { unfold rest. repeat constructor; eauto using keeps_same, keeps_when, keeps_if, keeps_HDel.
    all: try (apply keeps_when, keeps_HDel; done). all: try (apply keeps_same; done).
    all: try (apply keeps_when; try apply keeps_if; try apply keeps_when; apply keeps_same; done). }
  rewrite hash_at_HSet, decide_True by done. apply write_fields_head. apply (bool_decide_unpack _). lazy. exact I.
Qed.

(** A state change that is reported as done is seen by the next read. *)
Lemma SetState_GetState now j s st st' : SetState now j s st = (st', None) -> GetState j st' = Some s.
Proof.
  unfold SetState. destruct (_ || _); [done|].
  assert (Hrt : jobRuntimeKey j <> jobMetaKey j) by (intros E; symmetry in E; by apply meta_not_runtime in E).
  destruct (hash_exists st (jobRuntimeKey j)) eqn:He; cbn [negb].
  - unfold transitionRuntimeState. destruct (transitionRuntimeStateScript _ s) as [h r] eqn:Et.
    destruct (Z.eqb_spec r 1) as [->|]; [|done].
    assert (Hh : h !! runtimeStateField = Some s).
    { revert Et. unfold transitionRuntimeStateScript. destruct (_ !! runtimeStateField) as [c|] eqn:Ec; [|done].
      destruct (String.eqb_spec c s) as [->|]; [by intros [= <-]|]. destruct (containsJobState _ _); [|done].
      intros [= <-]. by rewrite lookup_insert_eq. }
    destruct (_ =s? s).
    + intros [= <-]. unfold GetState. by rewrite hash_at_put_eq, Hh.
    + destruct (SetStateWithContext now j s _) as [e|st1] eqn:E; [done|]. intros [= <-]. unfold GetState.
      by rewrite (SetStateWithContext_hash _ _ _ _ _ _ E Hrt), hash_at_put_eq, Hh.
  - destruct (SetStateWithContext now j s st) as [e|st1] eqn:E; [done|]. intros [= <-]. unfold GetState.
    rewrite (SetStateWithContext_hash _ _ _ _ _ _ E Hrt), (SetStateWithContext_state _ _ _ _ _ E).
    unfold hash_exists in He. apply negb_false_iff, bool_decide_eq_true in He. by rewrite He, lookup_empty.
Qed.

(** A new fence leaves the state alone and is the one the caller is told. *)
Lemma BeginDispatch_frame u j w t st st' d n :
  BeginDispatch u j w t st = (st', Ok (d, n)) ->
  GetState j st' = GetState j st /\ d = u /\
  let h := hash_at st' (jobRuntimeKey j) in
  h !! metaFieldDispatchID = Some d /\ h !! metaFieldDispatchAttempt = Some (Itoa n) /\
  h !! metaFieldDispatchWorkerID = Some w /\ h !! metaFieldDispatchTenant = Some t.
Proof.
  unfold BeginDispatch. destruct (_ || _); [done|]. destruct (GetState j st) as [s|] eqn:Es; [|done].
  set (st1 := migrateRuntimeFence j st).
  destruct (beginDispatchScript _ u w t) as [[h a]|] eqn:Eb; [|done]. intros [= <- <- <-].
  assert (Hs : GetState j st1 = Some s).
  { revert Es. unfold GetState, st1, migrateRuntimeFence. rewrite hash_at_put_eq, migrate_state.
    rewrite hash_at_put, decide_False by apply meta_not_runtime. change runtimeStateField with "state".
    destruct (hash_at st (jobRuntimeKey j) !! "state"); [done|]. unfold get_str.
    destruct (hash_at st (jobMetaKey j) !! "state") as [m|]; cbn [default from_option id]; [|done].
    destruct (String.eqb_spec m "") as [->|]; done. }
  rewrite <- Hs. split; [|split; [done|]].
  - unfold GetState. rewrite hash_at_put_eq, (begin_lookup _ _ _ _ _ _ runtimeStateField Eb) by set_solver.
    by rewrite hash_at_put, decide_False by apply meta_not_runtime.
  - cbv zeta. rewrite hash_at_put_eq. destruct (begin_attempt _ _ _ _ _ _ Eb) as [Ha _].
    revert Eb Ha. unfold beginDispatchScript. destruct (HINCRBY _ _ 1) as [[h1 m]|]; [|done]. intros [= <- <-] Ha.
    split_and!; [|done|..]; rewrite ?lookup_insert_ne by done; by rewrite lookup_insert_eq.
Qed.

(** ** Steps of a computation *)

Lemma bind_inv {A B} (m : sched A) (k : A -> sched B) w b w' :
  sbind m k w = (b, w') -> exists a w1, m w = (a, w1) /\ k a w1 = (b, w').
Proof. unfold sbind. destruct (m w) as [a w1]. eauto. Qed.

Ltac inv_bind H a w1 E := apply bind_inv in H as (a & w1 & E & H).

Lemma quiet_ext {A} (m : sched A) w a w1 : quiet m -> m w = (a, w1) -> exists evs, sw_trace w1 = (sw_trace w ++ evs)%list.
Proof. intros Hq E. destruct (Hq w) as (evs & T & _). rewrite E in T. by exists evs. Qed.

Section Theorems.
Context `{ProtoCodec} `{SchedEnv}.

Lemma ask_inv {A} what (f : list SEvent -> A) w a w1 :
  ask what f w = (a, w1) -> a = f (sw_trace w) /\ sw_store w1 = sw_store w /\ sw_trace w1 = (sw_trace w ++ [SvAsk what])%list.
Proof. intros E. injection E as <- <-. done. Qed.

Lemma snow_inv w t w1 : snow w = (t, w1) -> sw_store w1 = sw_store w.
Proof. intros E. by injection E as <- <-. Qed.

(** A store call that returns a value ran to its end. *)
Lemma scall_ok {A} name steps (op : jredis -> jredis * result StoreError A) w a w1 :
  scall name steps op w = (Ok a, w1) -> op (sw_store w) = (sw_store w1, Ok a).
Proof.
  unfold scall. intros E. inv_bind E tr w2 E1. injection E1 as <- <-. inv_bind E st w3 E1. injection E1 as <- <-.
  destruct (s_fault _ name) as [[msg n]|].
  - inv_bind E x w4 E1. inv_bind E y w5 E2. discriminate E.
  - destruct (op (sw_store w)) as [st' r]. inv_bind E x w4 E1. injection E1 as <- <-. inv_bind E y w5 E2. injection E2 as <- <-.
    injection E as Er <-. cbn [sw_store]. f_equal. destruct r as [e|v]; [discriminate Er|congruence].
Qed.

Lemma setJobState_done j s w w1 : j <> "" -> setJobState j s w = (None, w1) -> GetState j (sw_store w1) = Some s.
Proof.
  intros Hj. unfold setJobState. rewrite eqb_ne by done. intros E. inv_bind E now w2 E1. inv_bind E r w3 E2.
  injection E as Er <-. destruct r as [e|[]]; [discriminate Er|]. apply scall_ok in E2.
  destruct (SetState now j s (sw_store w2)) as [st' [e|]] eqn:Es; [discriminate E2|]. injection E2 as ->.
  by apply SetState_GetState in Es.
Qed.

Lemma begin_dispatch_done j worker t w d n w1 :
  begin_dispatch j worker t w = (Ok (d, n), w1) ->
  GetState j (sw_store w1) = GetState j (sw_store w) /\
  let h := hash_at (sw_store w1) (jobRuntimeKey j) in
  h !! metaFieldDispatchID = Some d /\ h !! metaFieldDispatchAttempt = Some (Itoa n) /\
  h !! metaFieldDispatchWorkerID = Some worker /\ h !! metaFieldDispatchTenant = Some t.
Proof.
  unfold begin_dispatch. intros E. inv_bind E u w2 E1. apply scall_ok in E.
  destruct (BeginDispatch_frame _ _ _ _ _ _ _ _ E) as (Hs & _ & Hh). split; [|done].
  rewrite Hs. injection E1 as _ <-. done.
Qed.

(** ** Handing over *)

(** The store when a job is published: DISPATCHED, under the fence of the packet. *)
Definition fenced (jobID : string) (subject : string) (pub : JobRequest) (st : jredis) : Prop :=
  GetState jobID st = Some JobStateDispatched /\
  (extractWorkerFromSubject subject <> "" ->
   exists d n, jr_Dispatch pub = Some (mkDispatchIdentity d n (extractWorkerFromSubject subject)) /\
     let h := hash_at st (jobRuntimeKey jobID) in
     h !! metaFieldDispatchID = Some d /\ h !! metaFieldDispatchAttempt = Some (Itoa n) /\
     h !! metaFieldDispatchWorkerID = Some (extractWorkerFromSubject subject) /\ h !! metaFieldDispatchTenant = Some (ExtractTenant pub)).

(** The published request is [req] up to its environment, deadline, fence and topic. *)
Definition derived (req pub : JobRequest) : Prop :=
  jr_JobId pub = jr_JobId req /\ jr_Labels pub = jr_Labels req /\ jr_TenantId pub = jr_TenantId req /\ jr_Identity pub = jr_Identity req /\
  jr_PrincipalId pub = jr_PrincipalId req.

Definition dispatch_ok (jobID : string) (req : JobRequest) (C : list SEvent -> Prop) (tr : list SEvent) (ev : SEvent) : Prop :=
  match ev with
  | SvPublish subject pkt st _ =>
      match sp_Payload pkt with
      | SJobRequest pub => C tr /\ derived req pub /\ fenced jobID subject pub st
      | _ => True
      end
  | _ => True
  end.

(** Facts about the trace that last. *)
Definition lasting (C : list SEvent -> Prop) : Prop := forall tr evs, C tr -> C (tr ++ evs)%list.

Lemma derived_refl req : derived req req.
Proof. by repeat split. Qed.

Lemma disp_publish_job jobID traceID subject attempts req req0 d n C w :
  lasting C -> C (sw_trace w) -> derived req0 req -> fenced jobID subject req (sw_store w) ->
  disp (dispatch_ok jobID req0 C) (publish_job jobID traceID subject attempts req d n) w.
Proof.
  intros HC Hw Hd [Hf1 Hf2]. unfold publish_job.
  set (pub := if s_productionIdentity then _ else _).
  assert (Hp : derived req0 pub /\ jr_Dispatch pub = jr_Dispatch req /\ ExtractTenant pub = ExtractTenant req).
  { unfold pub. by destruct s_productionIdentity. }
  destruct Hp as (Hp1 & Hp2 & Hp3). clearbody pub.
  apply disp_step; [auto with quiet nocore|]. intros pkt w1 E1.
  destruct (attach_frame (mkSPacket traceID defaultSenderID (jr_Identity pub) "" (SJobRequest pub)) w) as [Hpl Hst].
  rewrite E1 in Hpl, Hst. cbn [fst snd sp_Payload] in *.
  destruct (quiet_ext _ _ _ _ (quiet_attach _) E1) as [evs1 T1].
  apply disp_bind.
  - exists [SvPublish subject pkt (sw_store w1) (s_publish (sw_trace w1) subject)]. split; [done|].
    intros pre ev post Hc _. destruct pre as [|x pre]; [|by destruct pre]. injection Hc as <- _.
    cbn. rewrite Hpl. split; [rewrite app_nil_r, T1; by apply HC|]. split; [done|]. split; [by rewrite Hst|].
    intros Hw'. destruct (Hf2 Hw') as (d' & n' & Hx). exists d', n'. by rewrite Hst, Hp2, Hp3.
  - apply quiet_disp. destruct (publish subject pkt w1).1; quiet_tac.
Qed.

Lemma disp_set_state P j s k w :
  (forall w1, setJobState j s w = (None, w1) -> disp P k w1) -> disp P (set_state_or_retry j s k) w.
Proof.
  intros Hk. unfold set_state_or_retry. apply disp_step; [auto with quiet nocore|]. intros [e|] w1 E; [|by apply Hk].
  apply quiet_disp. auto with quiet nocore.
Qed.

Lemma disp_dispatch_to jobID traceID subject attempts req C w :
  jobID <> "" -> lasting C -> C (sw_trace w) ->
  disp (dispatch_ok jobID req C) (dispatch_to jobID traceID subject attempts req) w.
Proof.
  intros Hj HC Hw. unfold dispatch_to. apply disp_set_state. intros w1 E1. apply disp_set_state. intros w2 E2.
  destruct (quiet_ext _ _ _ _ (quiet_setJobState _ _) E1) as [evs1 T1]. destruct (quiet_ext _ _ _ _ (quiet_setJobState _ _) E2) as [evs2 T2].
  assert (Hw2 : C (sw_trace w2)) by (rewrite T2, T1; by apply HC, HC).
  pose proof (setJobState_done _ _ _ _ Hj E2) as Hs. cbv zeta.
  destruct (String.eqb_spec (extractWorkerFromSubject subject) "") as [Ee|Hne].
  - apply disp_publish_job; [done|done|apply derived_refl|]. by split.
  - apply disp_step; [auto with quiet nocore|]. intros [e|[d n]] w3 E3.
    + apply quiet_disp. quiet_tac.
    + destruct (quiet_ext _ _ _ _ (quiet_begin _ _ _) E3) as [evs3 T3].
      destruct (begin_dispatch_done _ _ _ _ _ _ _ E3) as [Hg Hh].
      apply disp_publish_job; [done|rewrite T3; by apply HC|by repeat split|]. split; [by rewrite Hg|].
      intros _. exists d, n. split; [done|]. exact Hh.
Qed.

(** What holds from every world whose trace satisfies [C]. *)
Definition good (P : list SEvent -> SEvent -> Prop) (C : list SEvent -> Prop) {A} (m : sched A) : Prop :=
  forall w, C (sw_trace w) -> disp P m w.

Lemma good_quiet P C {A} (m : sched A) : quiet m -> good P C m.
Proof. intros Hq w _. by apply quiet_disp. Qed.

Lemma good_step P C {A B} (m : sched A) (k : A -> sched B) :
  lasting C -> quiet m -> (forall a, good P C (k a)) -> good P C (sbind m k).
Proof.
  intros HC Hm Hk w Hw. apply disp_step; [done|]. intros a w1 E. apply Hk.
  destruct (quiet_ext _ _ _ _ Hm E) as [evs ->]. by apply HC.
Qed.

Lemma good_on_ok P C {A} (m : sched (result serror A)) f k :
  lasting C -> quiet m -> (forall a, good P C (k a)) -> good P C (on_ok m f k).
Proof. intros HC Hm Hk. apply good_step; [done|done|]. intros [e|a]; [apply good_quiet, quiet_ret|apply Hk]. Qed.

Section Admit.
Context (jobID topic traceID : string) (attempts : Z) (req : JobRequest) (C : list SEvent -> Prop).
Context (Hj : jobID <> "") (HC : lasting C).
Abbreviation ok := (good (dispatch_ok jobID req C) C).

Lemma good_place : ok (place jobID topic traceID attempts req).
Proof.
  apply good_step; [done|apply quiet_pick|]. intros [e|subject]; [|intros w Hw; by apply disp_dispatch_to].
  apply good_quiet. destruct (isRetryableSchedulingError _); [|apply quiet_fail_to_dlq].
  apply quiet_bind; [apply quiet_swrite|intros]. apply quiet_bind; [apply quiet_ask|intros; apply quiet_ret].
Qed.

Lemma good_deadline k : ok k -> ok (record_deadline jobID req k).
Proof.
  intros Hk. unfold record_deadline. destruct (jr_DeadlineMs req) as [ms|]; [|done]. destruct (0 <? ms)%Z; [|done].
  apply good_step; [done|apply quiet_snow|]. intros now. apply good_on_ok; [done|apply quiet_swrite|done].
Qed.

Lemma good_tier k : ok k -> ok (tier_concurrency req k).
Proof.
  intros Hk. unfold tier_concurrency. cbv zeta. destruct (_ =s? ""); [done|]. apply good_on_ok; [done|apply quiet_sread|]. intros active.
  apply good_step; [done|apply quiet_ask|]. intros ent. destruct (CheckJobConcurrency _ _); [apply good_quiet, quiet_ret|done].
Qed.

Lemma good_policy record k : ok k -> ok (policy_concurrency req record k).
Proof.
  intros Hk. unfold policy_concurrency. cbv zeta. destruct (0 <? _)%Z; [|done]. apply good_on_ok; [done|apply quiet_sread|]. intros active.
  destruct (_ <=? _)%Z; [apply good_quiet, quiet_ret|done].
Qed.

Lemma good_retries record k : ok k -> ok (retries_limited jobID record k).
Proof.
  intros Hk. unfold retries_limited. cbv zeta. destruct (0 <? _)%Z; [|done]. apply good_step; [done|apply quiet_attempts|]. intros a.
  destruct (_ <=? _)%Z; [apply good_quiet, quiet_fail_to_dlq|done].
Qed.

Lemma good_admit record : ok (admission jobID topic traceID attempts req record).
Proof. apply good_retries, good_policy, good_tier, good_deadline, good_place. Qed.

End Admit.

(** ** Why a job may be handed out *)

(** [ev] happened after the trace was [tr0]. *)
Definition since (tr0 : list SEvent) (ev : SEvent) (tr : list SEvent) : Prop := exists pre, tr = (tr0 ++ pre)%list /\ ev ∈ pre.
Definition from (tr0 tr : list SEvent) : Prop := exists pre, tr = (tr0 ++ pre)%list.

Lemma since_last tr0 ev tr evs : since tr0 ev tr -> since tr0 ev (tr ++ evs)%list.
Proof. intros (pre & -> & Hin). exists (pre ++ evs)%list. split; [by rewrite app_assoc|set_solver]. Qed.

Lemma from_last tr0 tr evs : from tr0 tr -> from tr0 (tr ++ evs)%list.
Proof. intros [pre ->]. exists (pre ++ evs)%list. by rewrite app_assoc. Qed.

Lemma since_now tr0 ev tr : from tr0 tr -> since tr0 ev (tr ++ [ev])%list.
Proof. intros [pre ->]. exists (pre ++ [ev])%list. split; [by rewrite app_assoc|set_solver]. Qed.

Definition allows (d : string) : Prop := d = SafetyAllow \/ d = SafetyAllowWithConstraints.

(** The safety kernel allowed [req], without an approval, and the decision was stored. *)
Definition kernel_allowed (tr0 : list SEvent) (req : JobRequest) (tr : list SEvent) : Prop :=
  exists answer record st, since tr0 (SvSafety req answer None) tr /\ since tr0 (SvDecision req record st) tr /\
    allows (sd_Decision answer) /\ sd_ApprovalRequired answer = false.

(** [req] carries the label of an approval, and the decision stored for the job had
    asked for an approval of exactly this request under the same policy. *)
Definition approval_matched (tr0 : list SEvent) (jobID : string) (req : JobRequest) (tr : list SEvent) : Prop :=
  exists record st, since tr0 (SvDecision req record st) tr /\ approval_label req = true /\
    fast_path req (GetSafetyDecision jobID st) = true.

(** The tenant's fail mode lets jobs through while the kernel cannot be reached. *)
Definition bypass_recorded (tr0 : list SEvent) (req : JobRequest) (tr : list SEvent) : Prop :=
  since tr0 (SvBypass req) tr /\ s_productionIdentity = false /\ exists tr', s_fail_open tr' (jr_TenantId req) = true.

Lemma lasting_allowed tr0 jobID req : lasting (fun tr => kernel_allowed tr0 req tr \/ approval_matched tr0 jobID req tr).
Proof.
  intros tr evs [(a & r & st & H1 & H2 & H3)|(r & st & H1 & H2)].
  - left. exists a, r, st. split; [by apply since_last|]. split; [by apply since_last|done].
  - right. exists r, st. split; [by apply since_last|done].
Qed.

Lemma lasting_bypass tr0 req : lasting (bypass_recorded tr0 req).
Proof. intros tr evs (H1 & H2). split; [by apply since_last|done]. Qed.

(** What a store call leaves of the trace. *)
Lemma quiet_from {A} tr0 (m : sched A) w a w1 : quiet m -> m w = (a, w1) -> from tr0 (sw_trace w) -> from tr0 (sw_trace w1).
Proof. intros Hq E Hf. destruct (quiet_ext _ _ _ _ Hq E) as [evs ->]. by apply from_last. Qed.

Lemma quiet_since {A} tr0 ev (m : sched A) w a w1 : quiet m -> m w = (a, w1) -> since tr0 ev (sw_trace w) -> since tr0 ev (sw_trace w1).
Proof. intros Hq E Hf. destruct (quiet_ext _ _ _ _ Hq E) as [evs ->]. by apply since_last. Qed.

Lemma escalate_allows r :
  allows (sd_Decision (escalate r)) -> allows (sd_Decision r) /\ sd_ApprovalRequired r = false.
Proof.
  unfold escalate. destruct (sd_ApprovalRequired r) eqn:Ea; cbn [andb]; [|done].
  destruct (String.eqb_spec (sd_Decision r) SafetyAllow) as [E|E]; cbn [orb].
  { cbn. intros [H1|H1]; discriminate H1. }
  destruct (String.eqb_spec (sd_Decision r) SafetyAllowWithConstraints) as [E'|E'].
  { cbn. intros [H1|H1]; discriminate H1. }
  intros [H1|H1]; congruence.
Qed.

(** The end of a full check: the decision is stored and logged. *)
Lemma store_decision_logged tr0 jobID req record err w r w1 :
  sbind sstore (fun st => sbind (store_decision jobID record) (fun x =>
    match x with Err e => sret (record, Some e) | Ok _ => slog (SvDecision req record st) ;;; sret (record, err) end)) w = ((r, None), w1) ->
  from tr0 (sw_trace w) -> r = record /\ err = None /\ since tr0 (SvDecision req record (sw_store w)) (sw_trace w1).
Proof.
  intros E Hf. inv_bind E st w2 E1. injection E1 as <- <-. inv_bind E x w3 E2. destruct x as [e|[]]; [discriminate E|].
  inv_bind E u w4 E3. injection E3 as _ <-. injection E as <- -> <-. split; [done|]. split; [done|].
  cbn [sw_trace]. apply since_now. eapply quiet_from; [|exact E2|done]. unfold store_decision. quiet_tac.
Qed.

Lemma full_check_allows tr0 jobID req w record w1 :
  full_check jobID req w = ((record, None), w1) -> allows (sd_Decision record) -> from tr0 (sw_trace w) ->
  kernel_allowed tr0 req (sw_trace w1).
Proof.
  unfold full_check. intros E Hal Hf. inv_bind E down w2 E1. apply (quiet_from tr0) in E1; [|apply quiet_ask|done].
  destruct down as [msg|]. { inv_bind E now w3 E2. discriminate E. }
  inv_bind E tr w3 E2. injection E2 as <- <-. destruct (s_safety (sw_trace w2) req) as [answer err].
  inv_bind E u w3 E2. injection E2 as _ <-.
  assert (Hs : since tr0 (SvSafety req answer err) (sw_trace (mkSWorld (sw_store w2) (sw_trace w2 ++ [SvSafety req answer err])%list)))
    by by apply since_now.
  assert (Hf2 : from tr0 (sw_trace (mkSWorld (sw_store w2) (sw_trace w2 ++ [SvSafety req answer err])%list))) by by apply from_last.
  set (w3 := mkSWorld _ _) in *. clearbody w3.
  inv_bind E down w4 E2. destruct down as [msg|]; [discriminate E|].
  pose proof (quiet_from tr0 _ _ _ _ (quiet_ask _ _) E2 Hf2) as Hf4. pose proof (quiet_since tr0 _ _ _ _ _ (quiet_ask _ _) E2 Hs) as Hs4.
  inv_bind E timeout w5 E3.
  pose proof (quiet_from tr0 _ _ _ _ (quiet_ask _ _) E3 Hf4) as Hf5. pose proof (quiet_since tr0 _ _ _ _ _ (quiet_ask _ _) E3 Hs4) as Hs5.
  inv_bind E now w6 E4.
  pose proof (quiet_from tr0 _ _ _ _ quiet_snow E4 Hf5) as Hf6. pose proof (quiet_since tr0 _ _ _ _ _ quiet_snow E4 Hs5) as Hs6.
  set (rec0 := if timeout then _ else _) in E. set (rec1 := if (sd_CheckedAt rec0 =? 0)%Z then _ else _) in E.
  assert (Hfin : forall rec, sd_Decision rec = sd_Decision (escalate rec1) ->
    forall w7, from tr0 (sw_trace w7) -> since tr0 (SvSafety req answer err) (sw_trace w7) ->
    sbind sstore (fun st => sbind (store_decision jobID rec) (fun x =>
      match x with Err e => sret (rec, Some e) | Ok _ => slog (SvDecision req rec st) ;;;
        sret (rec, if timeout then Some (plain "safety check timeout (defense-in-depth, 3s)") else plain <$> err) end)) w7 = ((record, None), w1) ->
    kernel_allowed tr0 req (sw_trace w1)).
  { intros rec Hrec w7 Hf7 Hs7 E7. pose proof E7 as E8.
    destruct (store_decision_logged tr0 _ _ _ _ _ _ _ E7 Hf7) as (-> & Herr & Hd).
    destruct timeout; [discriminate Herr|]. destruct err as [m|]; [discriminate Herr|].
    assert (Hs8 : since tr0 (SvSafety req answer None) (sw_trace w1)).
    { eapply quiet_since; [|exact E8|exact Hs7]. unfold store_decision. quiet_tac. }
    rewrite Hrec in Hal. apply escalate_allows in Hal as [Ha Hr].
    assert (Hx : sd_Decision rec1 = sd_Decision answer /\ sd_ApprovalRequired rec1 = sd_ApprovalRequired answer).
    { unfold rec1, rec0. by destruct (_ =? 0)%Z. }
    destruct Hx as [Hx1 Hx2]. exists answer, rec, (sw_store w7). rewrite <- Hx1, <- Hx2. done. }
  destruct ((sd_Decision (escalate rec1) =s? SafetyRequireApproval) || sd_ApprovalRequired (escalate rec1)) eqn:Eq.
  - inv_bind E prev w7 E5. destruct prev as [e|prev]; [discriminate E|].
    pose proof (quiet_from tr0 _ _ _ _ (quiet_sread _ _) E5 Hf6) as Hf7. pose proof (quiet_since tr0 _ _ _ _ _ (quiet_sread _ _) E5 Hs6) as Hs7.
    eapply Hfin; [|exact Hf7|exact Hs7|exact E]. destruct (negb _); [done|]. by destruct (Hash req).
  - eapply Hfin; [done|exact Hf6|exact Hs6|exact E].
Qed.

(** An allowing decision without an error is one of the kernel, or an approval. *)
Lemma check_allows tr0 req w record w1 :
  checkSafetyDecision req w = ((record, None), w1) -> allows (sd_Decision record) -> from tr0 (sw_trace w) ->
  kernel_allowed tr0 req (sw_trace w1) \/ approval_matched tr0 (TrimSpace (jr_JobId req)) req (sw_trace w1).
Proof.
  unfold checkSafetyDecision. cbv zeta. set (j := TrimSpace (jr_JobId req)). destruct (j =s? ""); [discriminate|].
  destruct (approval_label req) eqn:El; [|intros E Ha Hf; left; by eapply full_check_allows].
  intros E Ha Hf. inv_bind E prev w2 E1. pose proof (quiet_from tr0 _ _ _ _ (quiet_sread _ _) E1 Hf) as Hf2.
  destruct prev as [e|prev]; [left; by eapply full_check_allows|].
  apply scall_ok in E1. injection E1 as Est Ep. rewrite Est in Ep. subst prev.
  destruct (fast_path req _) eqn:Efp; [|left; by eapply full_check_allows].
  right. inv_bind E st w3 E2. injection E2 as <- <-. inv_bind E now w4 E3.
  pose proof (quiet_from tr0 _ _ _ _ quiet_snow E3 Hf2) as Hf4.
  inv_bind E x w5 E4. destruct x as [e|[]]; [discriminate E|]. inv_bind E u w6 E5. injection E5 as _ <-. injection E as _ <-.
  eexists _, (sw_store w2). split_and!; [apply since_now; eapply quiet_from; [|exact E4|exact Hf4]; unfold store_decision; quiet_tac|done|done].
Qed.

(** ** Every packet with a job is authorized *)

Definition authorized_dispatch (tr0 tr : list SEvent) (ev : SEvent) : Prop :=
  match ev with
  | SvPublish subject pkt st _ =>
      match sp_Payload pkt with
      | SJobRequest pub =>
          fenced (TrimSpace (jr_JobId pub)) subject pub st /\
          exists req,
            (kernel_allowed tr0 req tr /\ derived req pub) \/
            (approval_matched tr0 (TrimSpace (jr_JobId pub)) req tr /\ derived req pub) \/
            (bypass_recorded tr0 req tr /\ exists reason, derived (bypassed reason req) pub)
      | _ => True
      end
  | _ => True
  end.

Lemma derived_trans a b c : derived a b -> derived b c -> derived a c.
Proof. intros (H1 & H2 & H3 & H4 & H5) (K1 & K2 & K3 & K4 & K5). repeat split; congruence. Qed.

Lemma derived_constraints req c : derived req (applyConstraints req c).
Proof. by repeat split. Qed.

Lemma lasting_from tr0 : lasting (from tr0).
Proof. intros tr evs. apply from_last. Qed.

(** From [admission] of a request derived from the checked one. *)
Lemma disp_admitted tr0 topic traceID attempts req req' record w :
  TrimSpace (jr_JobId req) <> "" -> derived req req' ->
  kernel_allowed tr0 req (sw_trace w) \/ approval_matched tr0 (TrimSpace (jr_JobId req)) req (sw_trace w) ->
  disp (authorized_dispatch tr0) (admission (TrimSpace (jr_JobId req)) topic traceID attempts req' record) w.
Proof.
  intros Hj Hd Hw. eapply disp_mono; [apply (good_admit _ _ _ _ _ _ Hj (lasting_allowed tr0 (TrimSpace (jr_JobId req)) req)); exact Hw|].
  intros evs ev. unfold dispatch_ok, authorized_dispatch. destruct ev; try done. destruct (sp_Payload packet) as [pub| |]; try done.
  intros (Hc & Hp & Hf). pose proof (derived_trans _ _ _ Hd Hp) as Hdp. destruct Hdp as [Hid _]. rewrite Hid. split; [done|].
  exists req. pose proof (derived_trans _ _ _ Hd Hp). destruct Hc; [by left|right; by left].
Qed.

Lemma disp_bypassed tr0 topic traceID attempts req reason record w :
  TrimSpace (jr_JobId req) <> "" -> bypass_recorded tr0 req (sw_trace w) ->
  disp (authorized_dispatch tr0) (admission (TrimSpace (jr_JobId req)) topic traceID attempts (bypassed reason req) record) w.
Proof.
  intros Hj Hw. eapply disp_mono; [apply (good_admit _ _ _ _ _ _ Hj (lasting_bypass tr0 req)); exact Hw|].
  intros evs ev. unfold dispatch_ok, authorized_dispatch. destruct ev; try done. destruct (sp_Payload packet) as [pub| |]; try done.
  intros (Hc & Hp & Hf). destruct Hp as [Hid Hp']. rewrite Hid. split; [done|]. exists req. right. right. split; [done|].
  exists reason. by split.
Qed.

Lemma disp_act_on tr0 topic traceID attempts req record w :
  TrimSpace (jr_JobId req) <> "" -> from tr0 (sw_trace w) ->
  (allows (sd_Decision record) -> kernel_allowed tr0 req (sw_trace w) \/ approval_matched tr0 (TrimSpace (jr_JobId req)) req (sw_trace w)) ->
  disp (authorized_dispatch tr0) (act_on (TrimSpace (jr_JobId req)) topic traceID attempts req record) w.
Proof.
  intros Hj Hf Ha. unfold act_on. cbv zeta.
  destruct (String.eqb_spec (sd_Decision record) SafetyAllow) as [E1|E1]; cbn [orb];
    [|destruct (String.eqb_spec (sd_Decision record) SafetyAllowWithConstraints) as [E2|E2]].
  1-2: destruct (isApprovalGateTopic topic); [apply quiet_disp, quiet_gate|];
       apply disp_admitted; [done| |apply Ha; by (left + right)];
       destruct (sd_Constraints record); [apply derived_constraints|apply derived_refl].
  destruct (_ =s? SafetyThrottle); [apply quiet_disp, quiet_ret|].
  destruct (_ =s? SafetyUnavailable).
  { apply disp_step; [apply quiet_ask|]. intros b w1 E. destruct (ask_inv _ _ _ _ _ E) as (-> & _ & Ht).
    destruct (negb s_productionIdentity && _) eqn:Eo; [|apply quiet_disp, quiet_ret].
    apply andb_true_iff in Eo as [Ep Eo]. apply negb_true_iff in Ep.
    apply disp_step; [by apply quiet_log|]. intros u w2 E9. injection E9 as _ <-.
    apply disp_bypassed; [done|]. cbn [sw_trace]. split; [|eauto]. apply since_now. rewrite Ht. by apply from_last. }
  destruct (_ =s? SafetyRequireApproval); [apply quiet_disp, quiet_set_state, quiet_ret|].
  destruct (_ =s? SafetyDeny); apply quiet_disp, quiet_deny.
Qed.

Lemma disp_decide tr0 topic traceID attempts req w :
  TrimSpace (jr_JobId req) <> "" -> from tr0 (sw_trace w) ->
  disp (authorized_dispatch tr0) (decide_and_act (TrimSpace (jr_JobId req)) topic traceID attempts req) w.
Proof.
  intros Hj Hf. unfold decide_and_act. apply disp_step; [apply quiet_check|]. intros [record err] w1 E.
  pose proof (quiet_from tr0 _ _ _ _ (quiet_check _) E Hf) as Hf1. destruct err as [e|].
  - destruct (is_err _ e); [apply quiet_disp, quiet_ret|]. apply disp_act_on; [done|done|]. intros [Hx|Hx]; discriminate Hx.
  - apply disp_act_on; [done|done|]. intros Ha. by eapply check_allows.
Qed.

Abbreviation auth tr0 := (good (authorized_dispatch tr0) (from tr0)).

Lemma good_process_checked tr0 topic traceID req :
  TrimSpace (jr_JobId req) <> "" -> auth tr0 (process_checked (TrimSpace (jr_JobId req)) topic traceID req).
Proof.
  intros Hj. pose proof (lasting_from tr0) as HC. unfold process_checked. apply good_step; [done|apply quiet_attempts|]. intros a.
  destruct (_ <=? _)%Z; [apply good_quiet, quiet_fail_to_dlq|].
  intros w Hw. apply disp_step; [apply quiet_config|]. intros req' w1 E.
  assert (Hid : jr_JobId req' = jr_JobId req).
  { revert E. unfold attachEffectiveConfig. destruct s_config; [|by intros [= <-]]. intros E. inv_bind E cfg w2 E2. injection E as <- _. by destruct cfg. }
  pose proof (quiet_from tr0 _ _ _ _ (quiet_config _) E Hw) as Hw1. clear E. revert w1 Hw1. apply good_step; [done|apply quiet_delegation|].
  intros [[e b]|b]; [apply good_quiet, quiet_delegation_failed|]. rewrite <- Hid in *. intros w2 Hw2. by apply disp_decide.
Qed.

Lemma good_processJob tr0 req traceID : auth tr0 (processJob req traceID).
Proof.
  pose proof (lasting_from tr0) as HC. unfold processJob. cbv zeta.
  destruct (String.eqb_spec (TrimSpace (jr_JobId req)) "") as [Ej|Ej]; cbn [orb]; [apply good_quiet, quiet_set_state, quiet_ret|].
  destruct (_ =s? ""); [apply good_quiet, quiet_set_state, quiet_ret|].
  apply good_on_ok; [done|apply quiet_topic|]. intros [reg registryEmpty].
  destruct (_ && _); [apply good_quiet, quiet_fail_to_dlq|].
  apply good_on_ok; [done|apply quiet_schema|]. intros [|]; [apply good_quiet, quiet_ret|by apply good_process_checked].
Qed.

Lemma good_set_state tr0 j s k : auth tr0 k -> auth tr0 (set_state_or_retry j s k).
Proof.
  intros Hk. pose proof (lasting_from tr0) as HC. unfold set_state_or_retry. apply good_step; [done|apply quiet_setJobState|].
  intros [e|]; [apply good_quiet, quiet_ret|done].
Qed.

Lemma good_process_stored tr0 jobID traceID state req : auth tr0 (process_stored jobID traceID state req).
Proof.
  pose proof (lasting_from tr0) as HC. unfold process_stored, store_job. cbv zeta.
  set (go := sbind (processJob req traceID) _).
  assert (Hgo : auth tr0 go).
  { intros w Hw. apply disp_bind; [by apply good_processJob|]. apply quiet_disp, quiet_ret. }
  clearbody go. set (k := if state =s? "" then _ else _).
  assert (Hk : auth tr0 k).
  { unfold k. destruct (state =s? ""); [by apply good_set_state|]. destruct (_ =s? _); [|done]. apply good_step; [done|apply quiet_swrite|done]. }
  clearbody k. destruct (traceID =s? ""); [|apply good_on_ok; [done|apply quiet_swrite|intros _]].
  all: apply good_step; [done|apply quiet_snow|intros now]; apply good_on_ok; [done|apply quiet_scall|intros _];
    apply good_on_ok; [done|apply quiet_swrite|done].
Qed.

Lemma good_handle_locked tr0 jobID traceID req : auth tr0 (handle_locked jobID traceID req).
Proof.
  pose proof (lasting_from tr0) as HC. unfold handle_locked. apply good_step; [done|apply quiet_ask|]. intros [|]; [apply good_quiet, quiet_ret|].
  apply good_step; [done|apply quiet_getState|]. intros [e|s].
  - destruct (is_err _ e); [apply good_process_stored|apply good_quiet, quiet_ret].
  - destruct (_ || _); [apply good_quiet, quiet_ret|]. destruct (terminalStates s); [apply good_quiet, quiet_redelivered|apply good_process_stored].
Qed.

Lemma good_withJobLock tr0 jobID fn : auth tr0 fn -> auth tr0 (withJobLock jobID fn).
Proof.
  intros Hfn. pose proof (lasting_from tr0) as HC. unfold withJobLock. destruct (_ =s? ""); [done|].
  apply good_step; [done|apply quiet_trace|]. intros tr. cbv zeta. apply good_step; [done|by apply quiet_log|]. intros _.
  destruct (s_lock tr jobID); try (apply good_quiet, quiet_ret).
  intros w Hw. apply disp_bind; [by apply Hfn|]. apply quiet_disp. quiet_tac.
Qed.

Lemma good_handleJobRequest tr0 req traceID : auth tr0 (handleJobRequest req traceID).
Proof.
  unfold handleJobRequest. destruct (if s_productionIdentity then _ else _) as [e|r]; [apply good_quiet, quiet_ret|]. cbv zeta.
  destruct (_ || _); [apply good_quiet, quiet_set_state, quiet_ret|]. apply good_withJobLock, good_handle_locked.
Qed.


End Theorems.
