(* ===== verification/SchedulerOnce.v ===== *)
(** * The scheduler hands out each job once

    However often a submission is delivered again, and whichever store calls fail
    half-way, a job is published successfully at most once: the state that stops a
    second delivery is stored before the publication. *)
From Stdlib Require Import Ascii.
From S2P Require Import Prelude.
From S2P Require Import GoStrings.
From S2P Require Import PolicyTypes.
From S2P Require Import JobRuntime.
From S2P Require Import JobStore.
From S2P Require Import GoValues.
From S2P Require Import Licensing.
From S2P Require Import WorkflowModels.
From S2P Require Import JobIdentity.
From S2P Require Import JobMeta.
From S2P Require Import JobApproval.
From S2P Require Import ApprovalTheorems.
From S2P Require Import SchedulerEnv.
From S2P Require Import Scheduler.
From S2P Require Import SchedulerLogic.
From S2P Require Import SchedulerTheorems.

Open Scope string_scope.

Ltac inv_bind H a w1 E := apply bind_inv in H as (a & w1 & E & H).

Section Theorems.
Context `{ProtoCodec} `{SchedEnv}.

(** ** Each job is handed out once *)

(** A packet with a job that the bus took. *)
Definition handed (ev : SEvent) : bool :=
  is_dispatch ev && match ev with SvPublish _ _ _ None => true | _ => false end.

Definition hand_outs (tr : list SEvent) : nat := length (List.filter handed tr).

(** States in which a submission is not processed again. *)
Definition closed_state (s : string) : bool := (s =s? JobStateDispatched) || (s =s? JobStateRunning) || terminalStates s.
Definition closed (jobID : string) (st : jredis) : Prop := exists s, GetState jobID st = Some s /\ closed_state s = true.

Lemma hand_outs_app l1 l2 : hand_outs (l1 ++ l2)%list = (hand_outs l1 + hand_outs l2)%nat.
Proof. unfold hand_outs. by rewrite List.filter_app, length_app. Qed.

Lemma quiet_no_hand_outs evs : Forall (fun ev => is_dispatch ev = false) evs -> hand_outs evs = 0%nat.
Proof.
  unfold hand_outs. induction 1 as [|ev evs He _ IH]; [done|]. cbn [List.filter]. unfold handed at 1. by rewrite He.
Qed.

(** At most one hand-out, after which the job is closed. *)
Definition once_at (jobID : string) {A} (m : sched A) (w : SWorld) : Prop :=
  exists evs, sw_trace (m w).2 = (sw_trace w ++ evs)%list /\
    (hand_outs evs = 0%nat \/ hand_outs evs = 1%nat /\ closed jobID (sw_store (m w).2)).
Definition once (jobID : string) {A} (m : sched A) : Prop := forall w, once_at jobID m w.

Lemma once_at_step j {A B} (m : sched A) (k : A -> sched B) w :
  quiet m -> (forall a w1, m w = (a, w1) -> once_at j (k a) w1) -> once_at j (sbind m k) w.
Proof.
  intros Hm Hk. destruct (Hm w) as (e1 & T1 & F1). unfold once_at, sbind. destruct (m w) as [a w1]. cbn [snd] in T1.
  destruct (Hk a w1 eq_refl) as (e2 & T2 & H2). exists (e1 ++ e2)%list. split; [rewrite T2, T1; by rewrite <- app_assoc|].
  rewrite hand_outs_app, (quiet_no_hand_outs e1) by done. exact H2.
Qed.

Lemma once_quiet j {A} (m : sched A) : quiet m -> once j m.
Proof. intros Hq w. destruct (Hq w) as (evs & T & F). exists evs. split; [done|]. left. by apply quiet_no_hand_outs. Qed.

Lemma once_step j {A B} (m : sched A) (k : A -> sched B) : quiet m -> (forall a, once j (k a)) -> once j (sbind m k).
Proof.
  intros Hm Hk w. apply once_at_step; [done|]. intros a w1 _. apply Hk.
Qed.

(** A hand-out followed by something quiet that keeps the store. *)
Lemma once_then j {A B} (m : sched A) (k : A -> sched B) :
  once j m -> (forall a, quiet (k a)) -> (forall a w, sw_store (k a w).2 = sw_store w) -> once j (sbind m k).
Proof.
  intros Hm Hk Hst w. destruct (Hm w) as (e1 & T1 & H1). unfold once_at, sbind. destruct (m w) as [a w1]. cbn [snd] in *.
  destruct (Hk a w1) as (e2 & T2 & F2). exists (e1 ++ e2)%list. split; [rewrite T2, T1; by rewrite <- app_assoc|].
  rewrite hand_outs_app, (quiet_no_hand_outs e2), Nat.add_0_r, Hst by done. exact H1.
Qed.

Lemma once_on_ok j {A} (m : sched (result serror A)) f k : quiet m -> (forall a, once j (k a)) -> once j (on_ok m f k).
Proof. intros Hm Hk. apply once_step; [done|]. intros [e|a]; [apply once_quiet, quiet_ret|apply Hk]. Qed.

Lemma once_set_state j s i k : once j k -> once j (set_state_or_retry i s k).
Proof. intros Hk. apply once_step; [apply quiet_setJobState|]. intros [e|]; [apply once_quiet, quiet_ret|done]. Qed.

(** ** Closing *)

(** A move to a closed state leaves a closed job closed, even if it stops half-way. *)
Lemma transition_closed j s st st' :
  closed_state s = true -> closed j st -> transitionRuntimeState j s st = Ok st' -> closed j st'.
Proof.
  intros Hs Hc. unfold transitionRuntimeState. destruct (transitionRuntimeStateScript _ s) as [h r] eqn:Et.
  destruct (Z.eqb_spec r 1) as [->|]; [|done]. intros <-%Ok_inj. exists s. split; [|done]. unfold GetState. rewrite hash_at_put_eq.
  revert Et. unfold transitionRuntimeStateScript. destruct (_ !! runtimeStateField) as [c|] eqn:Ec; [|done].
  destruct (String.eqb_spec c s) as [->|]; [by intros [= <-]; rewrite Ec|]. destruct (containsJobState _ _); [|done].
  intros [= <-]. by rewrite lookup_insert_eq.
Qed.

Lemma SetState_closed now j s st : closed_state s = true -> closed j st -> closed j (SetState now j s st).1.
Proof.
  intros Hs Hc. destruct (SetState now j s st) as [st' [e|]] eqn:E; cbn [fst].
  2:{ apply SetState_GetState in E. by exists s. }
  revert E. unfold SetState. destruct (_ || _); [by intros [= <- _]|]. destruct (negb _).
  { destruct (SetStateWithContext now j s st); [by intros [= <- _]|done]. }
  destruct (transitionRuntimeState j s st) as [e'|st1] eqn:Et; [by intros [= <- _]|].
  pose proof (transition_closed _ _ _ _ Hs Hc Et) as Hc1.
  destruct (_ =s? s); [done|]. destruct (SetStateWithContext now j s st1); [by intros [= <- _]|done].
Qed.

Lemma SetState_steps_closed now j s st n :
  closed_state s = true -> closed j st -> closed j (nth n (SetState_steps now j s st) st).
Proof.
  intros Hs Hc. destruct n as [|[|[|n]]]; cbn [nth SetState_steps]; [done| |by apply SetState_closed|by destruct n].
  destruct (transitionRuntimeState j s st) eqn:Et; [done|]. by eapply transition_closed.
Qed.

(** The store after a store call is one of its steps, or its result. *)
Lemma scall_store {A} name steps (op : jredis -> jredis * result StoreError A) w :
  (exists n, sw_store (scall name steps op w).2 = nth n (steps (sw_store w)) (sw_store w)) \/
  sw_store (scall name steps op w).2 = (op (sw_store w)).1.
Proof.
  unfold scall, sbind, strace, sstore, sput, slog, sret. destruct (s_fault _ name) as [[msg n]|]; [left; by exists n|right].
  by destruct (op (sw_store w)).
Qed.

Lemma setJobState_closed j s w :
  closed_state s = true -> closed j (sw_store w) -> closed j (sw_store (setJobState j s w).2).
Proof.
  intros Hs Hc. unfold setJobState. destruct (j =s? ""); [done|]. unfold sbind at 1. destruct (snow w) as [now w1] eqn:E1.
  apply snow_inv in E1. rewrite <- E1 in Hc. unfold sbind.
  match goal with |- context [scall ?n ?st ?op w1] => pose proof (scall_store n st op w1) as Hst; destruct (scall n st op w1) as [r w2] end.
  cbn [snd sret] in *. destruct Hst as [[n ->]| ->]; [by apply SetState_steps_closed|].
  pose proof (SetState_closed now j s (sw_store w1) Hs Hc) as Hx. by destruct (SetState now j s (sw_store w1)) as [st' [e|]].
Qed.

(** One publication, then something quiet that closes the job if the bus took it. *)
Lemma once_publish j {B} subject pkt (k : option serror -> sched B) w :
  (forall e, quiet (k e)) ->
  (forall w1, sw_store w1 = sw_store w -> closed j (sw_store (k None w1).2)) ->
  once_at j (sbind (publish subject pkt) k) w.
Proof.
  intros Hq Hk. set (ev := SvPublish subject pkt (sw_store w) (s_publish (sw_trace w) subject)).
  set (w1 := mkSWorld (sw_store w) (sw_trace w ++ [ev])%list).
  assert (E : publish subject pkt w = (plain <$> s_publish (sw_trace w) subject, w1)) by reflexivity.
  unfold once_at, sbind. rewrite E. destruct (s_publish (sw_trace w) subject) as [msg|] eqn:Ep; cbn [fmap option_fmap option_map].
  - destruct (Hq (Some (plain msg)) w1) as (e2 & T2 & F2). exists (ev :: e2). split; [rewrite T2; unfold w1; cbn; by rewrite <- app_assoc|].
    left. change (ev :: e2) with ([ev] ++ e2)%list. rewrite hand_outs_app, (quiet_no_hand_outs e2), Nat.add_0_r by done.
    unfold hand_outs, handed, ev. cbn. rewrite ?Ep. by rewrite andb_false_r.
  - destruct (Hq None w1) as (e2 & T2 & F2). exists (ev :: e2). split; [rewrite T2; unfold w1; cbn; by rewrite <- app_assoc|].
    change (ev :: e2) with ([ev] ++ e2)%list. rewrite hand_outs_app, (quiet_no_hand_outs e2), Nat.add_0_r by done.
    unfold hand_outs, handed, ev. cbn. rewrite ?Ep. destruct (sp_Payload pkt); cbn; [right|by left..]. split; [done|]. by apply Hk.
Qed.

Lemma once_publish_job jobID traceID subject attempts req d n w :
  GetState jobID (sw_store w) = Some JobStateDispatched ->
  once_at jobID (publish_job jobID traceID subject attempts req d n) w.
Proof.
  intros Hd. unfold publish_job. apply once_at_step; [apply quiet_attach|]. intros pkt w1 E1.
  assert (Hst : sw_store w1 = sw_store w).
  { match type of E1 with attachServiceToken ?p w = _ => destruct (attach_frame p w) as [_ Hx] end. rewrite E1 in Hx. exact Hx. }
  apply once_publish.
  - intros [e|]; quiet_tac.
  - intros w2 Hw2. unfold set_state_or_retry, sbind.
    assert (Hc : closed jobID (sw_store (setJobState jobID JobStateRunning w2).2)).
    { apply setJobState_closed; [done|]. exists JobStateDispatched. split; [by rewrite Hw2, Hst|done]. }
    by destruct (setJobState jobID JobStateRunning w2) as [[e|] w3].
Qed.

Lemma once_dispatch_to jobID traceID subject attempts req : jobID <> "" -> once jobID (dispatch_to jobID traceID subject attempts req).
Proof.
  intros Hj. unfold dispatch_to. apply once_set_state. intros w. unfold set_state_or_retry.
  apply once_at_step; [apply quiet_setJobState|]. intros [e|] w1 E1; [apply once_quiet, quiet_ret|].
  pose proof (setJobState_done _ _ _ _ Hj E1) as Hs. cbv zeta.
  destruct (_ =s? ""); [by apply once_publish_job|]. apply once_at_step; [apply quiet_begin|]. intros [e|[d n]] w2 E2.
  - apply once_quiet. quiet_tac.
  - destruct (begin_dispatch_done _ _ _ _ _ _ _ E2) as [Hg _]. apply once_publish_job. by rewrite Hg.
Qed.

Lemma once_admit jobID topic traceID attempts req record : jobID <> "" -> once jobID (admission jobID topic traceID attempts req record).
Proof.
  intros Hj. unfold admission, retries_limited, policy_concurrency, tier_concurrency, record_deadline, place. cbv zeta.
  set (pl := sbind (pick_subject topic req) _).
  assert (Hpl : once jobID pl).
  { apply once_step; [apply quiet_pick|]. intros [e|subject]; [|by apply once_dispatch_to]. apply once_quiet.
    destruct (isRetryableSchedulingError _); quiet_tac. }
  clearbody pl. set (dl := match jr_DeadlineMs req with Some _ => _ | None => _ end).
  assert (Hdl : once jobID dl).
  { unfold dl. destruct (jr_DeadlineMs req) as [ms|]; [|done]. destruct (0 <? ms)%Z; [|done].
    apply once_step; [apply quiet_snow|]. intros now. apply once_on_ok; [apply quiet_swrite|done]. }
  clearbody dl. set (tc := if TrimSpace _ =s? "" then dl else _).
  assert (Htc : once jobID tc).
  { unfold tc. destruct (_ =s? ""); [done|]. apply once_on_ok; [apply quiet_sread|]. intros active. apply once_step; [apply quiet_ask|].
    intros ent. destruct (CheckJobConcurrency _ _); [apply once_quiet, quiet_ret|done]. }
  clearbody tc. set (pc := if (0 <? maxConcurrentFromConstraints _)%Z then _ else _).
  assert (Hpc : once jobID pc).
  { unfold pc. destruct (0 <? _)%Z; [|done]. apply once_on_ok; [apply quiet_sread|]. intros active.
    destruct (_ <=? _)%Z; [apply once_quiet, quiet_ret|done]. }
  clearbody pc. destruct (0 <? _)%Z; [|done]. apply once_step; [apply quiet_attempts|]. intros a.
  destruct (_ <=? _)%Z; [apply once_quiet, quiet_fail_to_dlq|done].
Qed.

Lemma once_act_on jobID topic traceID attempts req record : jobID <> "" -> once jobID (act_on jobID topic traceID attempts req record).
Proof.
  intros Hj. unfold act_on. cbv zeta. destruct (_ || _).
  { destruct (isApprovalGateTopic topic); [apply once_quiet, quiet_gate|by apply once_admit]. }
  destruct (_ =s? _); [apply once_quiet, quiet_ret|]. destruct (_ =s? _).
  { apply once_step; [apply quiet_ask|]. intros [|]; [|apply once_quiet, quiet_ret]. apply once_step; [by apply quiet_log|].
    intros _. by apply once_admit. }
  destruct (_ =s? _); [apply once_quiet, quiet_set_state, quiet_ret|]. destruct (_ =s? _); apply once_quiet, quiet_deny.
Qed.

Lemma once_processJob jobID req traceID : jobID = TrimSpace (jr_JobId req) -> jobID <> "" -> once jobID (processJob req traceID).
Proof.
  intros Ej Hj. unfold processJob. cbv zeta. rewrite <- Ej, eqb_ne by done. cbn [orb].
  destruct (_ =s? ""); [apply once_quiet, quiet_set_state, quiet_ret|].
  apply once_on_ok; [apply quiet_topic|]. intros [reg registryEmpty]. destruct (_ && _); [apply once_quiet, quiet_fail_to_dlq|].
  apply once_on_ok; [apply quiet_schema|]. intros [|]; [apply once_quiet, quiet_ret|].
  unfold process_checked. apply once_step; [apply quiet_attempts|]. intros a. destruct (_ <=? _)%Z; [apply once_quiet, quiet_fail_to_dlq|].
  apply once_step; [apply quiet_config|]. intros req'. apply once_step; [apply quiet_delegation|].
  intros [[e b]|b]; [apply once_quiet, quiet_delegation_failed|]. unfold decide_and_act. apply once_step; [apply quiet_check|].
  intros [record [e|]]; [|by apply once_act_on]. destruct (is_err _ e); [apply once_quiet, quiet_ret|by apply once_act_on].
Qed.

Lemma once_process_stored jobID traceID state req :
  jobID = TrimSpace (jr_JobId req) -> jobID <> "" -> once jobID (process_stored jobID traceID state req).
Proof.
  intros Ej Hj. unfold process_stored, store_job. cbv zeta. set (go := sbind (processJob req traceID) _).
  assert (Hgo : once jobID go) by (apply once_then; [by apply once_processJob|intros; apply quiet_ret|done]).
  clearbody go. set (k := if state =s? "" then _ else _).
  assert (Hk : once jobID k).
  { unfold k. destruct (state =s? ""); [by apply once_set_state|]. destruct (_ =s? _); [|done]. apply once_step; [apply quiet_swrite|done]. }
  clearbody k. destruct (traceID =s? ""); [|apply once_on_ok; [apply quiet_swrite|intros _]].
  all: apply once_step; [apply quiet_snow|intros now]; apply once_on_ok; [apply quiet_scall|intros _]; apply once_on_ok; [apply quiet_swrite|done].
Qed.

Lemma sread_store {A} name (get : jredis -> result StoreError A) w : sw_store (sread name get w).2 = sw_store w.
Proof.
  destruct (scall_store name (fun st => [st]) (fun st => (st, get st)) w) as [[n Hn]|Hn]; unfold sread; rewrite Hn; [|done].
  by destruct n as [|[|n]].
Qed.

(** A read that answers tells what the store has. *)
Lemma sread_ok {A} name (get : jredis -> result StoreError A) w a w1 : sread name get w = (Ok a, w1) -> get (sw_store w) = Ok a.
Proof. unfold sread. intros E%scall_ok. by injection E. Qed.

(** ** What keeps the store *)

Definition keeps_store {A} (m : sched A) : Prop := forall w, sw_store (m w).2 = sw_store w.

Lemma ks_ret {A} (a : A) : keeps_store (sret a).
Proof. done. Qed.
Lemma ks_bind {A B} (m : sched A) (k : A -> sched B) : keeps_store m -> (forall a, keeps_store (k a)) -> keeps_store (sbind m k).
Proof. intros Hm Hk w. unfold sbind. specialize (Hm w). destruct (m w) as [a w1]. cbn [snd] in Hm. by rewrite Hk. Qed.

Lemma ks_emitDLQ j st r c : keeps_store (emitDLQ j st r c).
Proof.
  unfold emitDLQ. destruct (_ =s? ""); [done|]. apply ks_bind; [done|intros _]. apply ks_bind; [by destruct s_dlq_sink|]. intros [msg|]; [done|].
  apply ks_bind; [|intros [e|x]; done]. unfold packet_identity, loadProductionJobIdentity. destruct s_productionIdentity; [|done].
  destruct (_ =s? ""); [done|]. apply ks_bind; [|done]. intros w. apply sread_store.
Qed.

Lemma ks_emitDLQWithRetry j st r c : keeps_store (emitDLQWithRetry j st r c).
Proof.
  unfold emitDLQWithRetry. apply ks_bind; [apply ks_emitDLQ|]. intros [e|]; [|done]. apply ks_bind; [done|]. intros [msg|]; [done|apply ks_emitDLQ].
Qed.

Lemma ks_redelivered j s : keeps_store (redelivered j s).
Proof. unfold redelivered. destruct (_ || _); [|done]. apply ks_bind; [apply ks_emitDLQWithRetry|done]. Qed.

(** Reading the state of a job that has one: the state, or an error to retry. *)
Lemma store_GetState_known jobID s w x w1 :
  GetState jobID (sw_store w) = Some s -> store_GetState jobID w = (x, w1) -> x = Ok s \/ exists msg, x = Err (plain msg).
Proof.
  intros Hs. unfold store_GetState, sread, scall, sbind, strace, sstore, sput, slog, sret. rewrite Hs.
  destruct (s_fault _ _) as [[msg n]|]; intros E; injection E as <- _; [right; by exists msg|by left].
Qed.

(** What leaves the store alone and hands out nothing. *)
Definition inert {A} (m : sched A) (w : SWorld) : Prop :=
  sw_store (m w).2 = sw_store w /\ exists evs, sw_trace (m w).2 = (sw_trace w ++ evs)%list /\ Forall (fun ev => is_dispatch ev = false) evs.

Lemma inert_of {A} (m : sched A) w : keeps_store m -> quiet m -> inert m w.
Proof. intros Hk Hq. split; [apply Hk|apply Hq]. Qed.

Lemma inert_sbind {A B} (m : sched A) (k : A -> sched B) w :
  keeps_store m -> quiet m -> (forall a w1, m w = (a, w1) -> inert (k a) w1) -> inert (sbind m k) w.
Proof.
  intros Hm Hq Hk. destruct (Hq w) as (e1 & T1 & F1). specialize (Hm w). unfold inert, sbind. destruct (m w) as [a w1].
  cbn [snd] in *. destruct (Hk a w1 eq_refl) as (Hs & e2 & T2 & F2). split; [congruence|]. exists (e1 ++ e2)%list.
  split; [rewrite T2, T1; by rewrite <- app_assoc|by apply Forall_app].
Qed.

(** A handler that finds the job closed leaves the store alone and hands out nothing. *)
Lemma handle_locked_closed jobID traceID req w : closed jobID (sw_store w) -> inert (handle_locked jobID traceID req) w.
Proof.
  intros (s & Hs & Hc). unfold handle_locked. apply inert_sbind; [done|apply quiet_ask|]. intros stopped w1 E1.
  assert (Hst : sw_store w1 = sw_store w) by (by injection E1 as _ <-).
  destruct stopped; [by apply inert_of; [|apply quiet_ret]|]. apply inert_sbind; [intros w'; apply sread_store|apply quiet_sread|].
  intros x w2 E2. rewrite <- Hst in Hs. destruct (store_GetState_known _ _ _ _ _ Hs E2) as [->|[msg ->]].
  - revert Hc. unfold closed_state. destruct ((s =s? JobStateDispatched) || (s =s? JobStateRunning)); [intros _; by apply inert_of; [|apply quiet_ret]|]. cbn [orb]. intros ->.
    apply inert_of; [apply ks_redelivered|]. quiet_tac.
  - cbn. by apply inert_of; [|apply quiet_ret].
Qed.

Lemma withJobLock_inert jobID fn w : (forall w1, sw_store w1 = sw_store w -> inert fn w1) -> inert (withJobLock jobID fn) w.
Proof.
  intros Hfn. unfold withJobLock. destruct (_ =s? ""); [by apply Hfn|].
  apply inert_sbind; [done|apply quiet_trace|]. intros tr w1 E1. injection E1 as _ <-. cbv zeta.
  apply inert_sbind; [done|by apply quiet_log|]. intros u w2 E2. assert (Hst : sw_store w2 = sw_store w) by (by injection E2 as _ <-).
  destruct (s_lock tr jobID); try (by apply inert_of; [|apply quiet_ret]).
  destruct (Hfn w2 Hst) as (Hk & e1 & T1 & F1). unfold inert, sbind at 1 3. destruct (fn w2) as [r w3]. cbn [snd] in *.
  match goal with |- context [sbind ?m ?k w3] => assert (Hin : inert (sbind m k) w3) end.
  { apply inert_sbind; [done|apply quiet_ask|]. intros b w4 _. by apply inert_of; [|apply quiet_ret]. }
  destruct Hin as (Hs & e2 & T2 & F2). split; [by rewrite Hs|]. exists (e1 ++ e2)%list.
  split; [rewrite T2, T1; by rewrite <- app_assoc|by apply Forall_app].
Qed.

Lemma once_handle_locked jobID traceID req :
  jobID = TrimSpace (jr_JobId req) -> jobID <> "" -> once jobID (handle_locked jobID traceID req).
Proof.
  intros Ej Hj. unfold handle_locked. apply once_step; [apply quiet_ask|]. intros [|]; [apply once_quiet, quiet_ret|].
  apply once_step; [apply quiet_sread|]. intros [e|s].
  - destruct (is_err _ e); [by apply once_process_stored|apply once_quiet, quiet_ret].
  - destruct (_ || _); [apply once_quiet, quiet_ret|]. destruct (terminalStates s); [apply once_quiet, quiet_redelivered|by apply once_process_stored].
Qed.

Lemma once_withJobLock j jobID fn : once j fn -> once j (withJobLock jobID fn).
Proof.
  intros Hfn. unfold withJobLock. destruct (_ =s? ""); [done|]. apply once_step; [apply quiet_trace|]. intros tr. cbv zeta.
  apply once_step; [by apply quiet_log|]. intros _. destruct (s_lock tr jobID); try (apply once_quiet, quiet_ret).
  apply once_then; [done|intros; quiet_tac|done].
Qed.

(** The job a submission is handled as. *)
Lemma normalized_id req r :
  (if s_productionIdentity then NormalizeProductionJobRequest req (jr_Identity req) else Ok req) = Ok r -> jr_JobId r = jr_JobId req.
Proof.
  destruct s_productionIdentity; [|by intros [= ->]]. unfold NormalizeProductionJobRequest.
  destruct (newAuthority _); [done|]. destruct (validateRequestMirrors _ _); [done|]. by intros <-%Ok_inj.
Qed.

Lemma once_handleJobRequest req traceID : once (TrimSpace (jr_JobId req)) (handleJobRequest req traceID).
Proof.
  unfold handleJobRequest. destruct (if s_productionIdentity then _ else _) as [e|r] eqn:En; [apply once_quiet, quiet_ret|].
  apply normalized_id in En. cbv zeta. rewrite <- En. destruct (String.eqb_spec (TrimSpace (jr_JobId r)) "") as [E0|Hj]; cbn [orb].
  { apply once_quiet, quiet_set_state, quiet_ret. }
  destruct (_ =s? ""); [apply once_quiet, quiet_set_state, quiet_ret|]. by apply once_withJobLock, once_handle_locked.
Qed.

(** A closed job stays closed and is not handed out. *)
Lemma handleJobRequest_closed req traceID w :
  closed (TrimSpace (jr_JobId req)) (sw_store w) ->
  closed (TrimSpace (jr_JobId req)) (sw_store (handleJobRequest req traceID w).2) /\
  exists evs, sw_trace (handleJobRequest req traceID w).2 = (sw_trace w ++ evs)%list /\ Forall (fun ev => is_dispatch ev = false) evs.
Proof.
  intros Hc. unfold handleJobRequest. destruct (if s_productionIdentity then _ else _) as [e|r] eqn:En.
  { split; [done|apply quiet_ret]. }
  apply normalized_id in En. cbv zeta. rewrite <- En in *. destruct (_ || _).
  - split; [|apply quiet_set_state, quiet_ret]. unfold set_state_or_retry, sbind.
    pose proof (setJobState_closed (TrimSpace (jr_JobId r)) JobStateFailed w eq_refl Hc) as Hx.
    by destruct (setJobState _ _ w) as [[e|] w1].
  - destruct (withJobLock_inert (TrimSpace (jr_JobId r)) (handle_locked (TrimSpace (jr_JobId r)) traceID r) w) as [Hs Ht]; [|by rewrite Hs].
    intros w1 Hw. apply handle_locked_closed. by rewrite Hw.
Qed.

(** ** Deliveries *)

(** A successful hand-out of the job [jobID]. *)
Definition handed_of (jobID : string) (ev : SEvent) : bool :=
  handed ev && match ev with
               | SvPublish _ pkt _ _ => match sp_Payload pkt with SJobRequest r => TrimSpace (jr_JobId r) =s? jobID | _ => false end
               | _ => false
               end.
Definition hand_outs_of (jobID : string) (tr : list SEvent) : nat := length (List.filter (handed_of jobID) tr).

(** The submission of a job is delivered any number of times.  In between the others
    do what they like, except that they neither hand out this job nor take it back
    from a worker or from its end. *)
Inductive delivered (jobID : string) (w : SWorld) : SWorld -> Prop :=
| DlStart : delivered jobID w w
| DlSubmit w1 req traceID :
    delivered jobID w w1 -> TrimSpace (jr_JobId req) = jobID -> delivered jobID w (handleJobRequest req traceID w1).2
| DlOther w1 st evs :
    delivered jobID w w1 -> (closed jobID (sw_store w1) -> closed jobID st) -> hand_outs_of jobID evs = 0%nat ->
    delivered jobID w (mkSWorld st (sw_trace w1 ++ evs)%list).

Lemma hand_outs_of_app j l1 l2 : hand_outs_of j (l1 ++ l2)%list = (hand_outs_of j l1 + hand_outs_of j l2)%nat.
Proof. unfold hand_outs_of. by rewrite List.filter_app, length_app. Qed.

Lemma hand_outs_of_le j tr : (hand_outs_of j tr <= hand_outs tr)%nat.
Proof.
  unfold hand_outs_of, hand_outs. induction tr as [|ev tr IH]; [done|]. cbn [List.filter]. unfold handed_of at 1.
  destruct (handed ev); cbn [andb]; [|done]. destruct (match ev with SvPublish _ _ _ _ => _ | _ => _ end); cbn [length]; lia.
Qed.

Lemma quiet_none_of j evs : Forall (fun ev => is_dispatch ev = false) evs -> hand_outs_of j evs = 0%nat.
Proof. intros F. pose proof (hand_outs_of_le j evs). rewrite (quiet_no_hand_outs evs F) in *. lia. Qed.

(** C4: a job is handed out at most once.  However often the submission of a job is
    delivered, whatever the services answer each time, and whichever store calls fail
    half-way, the bus takes at most one packet that hands out the job; none, when the
    job was with a worker or had ended at the start. *)
Theorem no_double_dispatch jobID w w' :
  delivered jobID w w' ->
  exists evs, sw_trace w' = (sw_trace w ++ evs)%list /\ (hand_outs_of jobID evs <= 1)%nat /\
    (hand_outs_of jobID evs = 1%nat -> closed jobID (sw_store w')) /\
    (closed jobID (sw_store w) -> hand_outs_of jobID evs = 0%nat /\ closed jobID (sw_store w')).
Proof.
  induction 1 as [|w1 req traceID Hd (e1 & T1 & L1 & C1 & Z1) Ej|w1 st evs Hd (e1 & T1 & L1 & C1 & Z1) Hcl Hz0].
  - exists []. rewrite app_nil_r. unfold hand_outs_of. cbn. split; [done|]. split; [lia|]. by split.
  - assert (Hclosed : closed jobID (sw_store w1) -> closed jobID (sw_store (handleJobRequest req traceID w1).2) /\
      exists evs, sw_trace (handleJobRequest req traceID w1).2 = (sw_trace w1 ++ evs)%list /\ hand_outs_of jobID evs = 0%nat).
    { rewrite <- Ej. intros Hc. destruct (handleJobRequest_closed req traceID w1 Hc) as (Hc' & e & T & F). split; [done|].
      exists e. split; [done|by apply quiet_none_of]. }
    destruct (once_handleJobRequest req traceID w1) as (e2 & T2 & H2). rewrite Ej in H2.
    exists (e1 ++ e2)%list. rewrite hand_outs_of_app, T2, T1, <- app_assoc. split; [done|].
    pose proof (hand_outs_of_le jobID e2) as Hle.
    assert (Hcase : closed jobID (sw_store w1) -> hand_outs_of jobID e2 = 0%nat /\ closed jobID (sw_store (handleJobRequest req traceID w1).2)).
    { intros Hc. destruct (Hclosed Hc) as (Hc' & e & T & F). split; [|done]. rewrite T2 in T. by apply app_inv_head in T as ->. }
    split; [|split].
    + destruct (decide (hand_outs_of jobID e1 = 1%nat)) as [E1|]; [destruct (Hcase (C1 E1)); lia|]. destruct H2 as [Hz|[Hz _]]; lia.
    + destruct (decide (hand_outs_of jobID e1 = 1%nat)) as [E1|]; [intros _; apply Hcase, C1, E1|]. intros Hs.
      destruct H2 as [Hz|[_ Hc]]; [lia|done].
    + intros Hc. destruct (Z1 Hc) as [-> Hc1]. by destruct (Hcase Hc1) as [-> ?].
  - exists (e1 ++ evs)%list. cbn. rewrite hand_outs_of_app, T1, <- app_assoc, Hz0, Nat.add_0_r. split; [done|]. split; [done|].
    split; [auto|]. intros Hc. destruct (Z1 Hc). auto.
Qed.

End Theorems.
