(* ===== verification/SchedulerDemo.v ===== *)
(** * The scheduler on concrete jobs

    An environment with one worker, runs of the handler in it, and what these runs
    show beyond the theorems. *)
From Stdlib Require Import Ascii.
From S2P Require Import Prelude.
From S2P Require Import GoStrings.
From S2P Require Import PolicyTypes.
From S2P Require Import JobRuntime.
From S2P Require Import JobStore.
From S2P Require Import GoValues.
From S2P Require Import Licensing.
From S2P Require Import WorkflowModels.
From S2P Require Import JobIdentity.
From S2P Require Import JobMeta.
From S2P Require Import JobApproval.
From S2P Require Import ApprovalTheorems.
From S2P Require Import SchedulerEnv.
From S2P Require Import Scheduler.
From S2P Require Import SchedulerLogic.
From S2P Require Import SchedulerTheorems.
From S2P Require Import SchedulerOnce.

Open Scope string_scope.

(** What varies between the runs. *)
Record scenario := mkScenario {
  sc_safety : SafetyDecisionRecord;
  sc_fault : list SEvent -> string -> option (string * nat);
  sc_shutdown : option string;
  sc_fail_open : bool;
  sc_pick : list SEvent -> result serror string;
  sc_publish : list SEvent -> string -> option string;
}.

Definition verdict (decision reason : string) (approval : bool) : SafetyDecisionRecord :=
  mkSafetyDecisionRecord decision reason "r-1" "snap-1" None approval "" "" [] 7 "" "" 0 "".

(** One worker, no faults, no limits; the clock ticks with the trace. *)
Definition demo_env (sc : scenario) : SchedEnv := {|
  s_productionIdentity := false;
  s_clock tr := (1000 + Z.of_nat (length tr))%Z;
  s_uuid tr := "d-" +:+ Itoa (Z.of_nat (length tr));
  s_jitter _ := 0%Z;
  s_fault := sc_fault sc;
  s_lock _ _ := LockAcquired;
  s_abandoned _ _ := false;
  s_stopped _ := false;
  s_shutdown _ := sc_shutdown sc;
  s_topics := None;
  s_schemaMode := EnforcementOff;
  s_read_context _ _ := None;
  s_schema := None;
  s_validate _ _ _ := None;
  s_config := None;
  s_decode_token s := Some (mkDispatchToken s "worker");
  s_token_service _ := None;
  s_verify_token _ _ _ := Ok "{}";
  s_safety _ _ := (sc_safety sc, None);
  s_safety_timeout _ := false;
  s_fail_open _ _ := sc_fail_open sc;
  s_entitlements _ := DefaultEntitlements PlanEnterprise;
  s_sessionMode := false;
  s_readinessRequired := false;
  s_workers _ := ∅;
  s_readiness _ := ∅;
  s_bound _ _ _ _ _ := true;
  s_alive _ _ := true;
  s_pick tr _ _ _ := sc_pick sc tr;
  s_dlq_sink := None;
  s_publish := sc_publish sc;
  s_mint := None;
  s_agent := None;
|}.

Definition calm (record : SafetyDecisionRecord) : scenario :=
  mkScenario record (fun _ _ => None) None false (fun _ => Ok "worker.w-1.jobs") (fun _ _ => None).

#[local] Existing Instance ex_codec.

Definition handle (sc : scenario) (req : JobRequest) (w : SWorld) : option serror * SWorld :=
  @handleJobRequest ex_codec (demo_env sc) req "t-1" w.

Definition fresh : SWorld := mkSWorld ex_store [].

Example demo_dispatched :
  let '(e, w) := handle (calm (verdict SafetyAllow "ok" false)) ex_request fresh in
  e = None /\ GetState "job-a" (sw_store w) = Some JobStateRunning /\ hand_outs_of "job-a" (sw_trace w) = 1%nat.
Proof. by vm_compute. Qed.

(** ** Witness *)

Definition demo_run : SWorld := (handle (calm (verdict SafetyAllow "ok" false)) ex_request fresh).2.

(** Delivered twice, handed out once. *)
Lemma no_double_dispatch_witness :
  exists evs, sw_trace (handle (calm (verdict SafetyAllow "ok" false)) ex_request demo_run).2 = evs /\
    hand_outs_of "job-a" evs = 1%nat /\ (hand_outs_of "job-a" evs <= 1)%nat.
Proof.
  destruct (@no_double_dispatch ex_codec (demo_env (calm (verdict SafetyAllow "ok" false))) "job-a" fresh
    (handle (calm (verdict SafetyAllow "ok" false)) ex_request demo_run).2) as (evs & T & L & _).
  - apply DlSubmit; [apply DlSubmit; [apply DlStart|reflexivity]|reflexivity].
  - exists evs. split; [exact T|]. split; [|exact L]. cbn [sw_trace fresh app] in T. rewrite <- T. by vm_compute.
Defined.

(** ** Findings *)

(** The safety kernel denies the job, storing that decision fails, and the tenant's
    fail mode is open: the job is handed out. *)
Theorem denied_job_dispatched :
  let sc := mkScenario (verdict SafetyDeny "touches production" false)
              (fun _ name => if name =s? "SetSafetyDecision" then Some ("i/o timeout", 0%nat) else None) None true
              (fun _ => Ok "worker.w-1.jobs") (fun _ _ => None) in
  let '(e, w) := handle sc ex_request fresh in
  e = None /\ GetState "job-a" (sw_store w) = Some JobStateRunning /\ hand_outs_of "job-a" (sw_trace w) = 1%nat.
Proof. by vm_compute. Qed.

(** The engine is shut down before the check: the job takes the fail-open path. *)
Theorem shutdown_fails_open :
  let sc := mkScenario (verdict SafetyDeny "touches production" false) (fun _ _ => None) (Some "context canceled") true
              (fun _ => Ok "worker.w-1.jobs") (fun _ _ => None) in
  existsb (fun ev => match ev with SvBypass _ => true | _ => false end) (sw_trace (handle sc ex_request fresh).2) = true.
Proof. by vm_compute. Qed.

(** The request the gateway submits again after the approval. *)
Definition resubmitted_request : JobRequest :=
  set_jr_Labels (<["approval_snapshot" := "snap-1"]> (<["approval_granted" := "true"]> (jr_Labels ex_request))) ex_request.

(** Asked for an approval, approved, and handed out. *)
Definition ask_sc : scenario := calm (verdict SafetyRequireApproval "touches production" true).
Definition approved_world : SWorld := mkSWorld ex_resolved [].

Example approved_dispatched :
  let '(e, w) := handle ask_sc resubmitted_request approved_world in
  e = None /\ GetState "job-a" (sw_store w) = Some JobStateRunning.
Proof. by vm_compute. Qed.

(** One failed publication uses up the approval: the next delivery asks for an
    approval again, which a SCHEDULED job cannot be moved to, and is refused. *)
Theorem approval_lost_on_retry :
  let failing := mkScenario (verdict SafetyRequireApproval "touches production" true) (fun _ _ => None) None false
                   (fun _ => Ok "worker.w-1.jobs") (fun _ _ => Some "nats: timeout") in
  let '(e1, w1) := handle failing resubmitted_request approved_world in
  let '(e2, w2) := handle ask_sc resubmitted_request w1 in
  GetState "job-a" (sw_store w1) = Some JobStateScheduled /\
  er_delay <$> e2 = Some (Some retryDelayStore) /\
  GetState "job-a" (sw_store w2) = Some JobStateScheduled /\ hand_outs_of "job-a" (sw_trace w2) = 0%nat.
Proof. by vm_compute. Qed.

(** A delegated job for which no worker is free at first fails on its next delivery:
    its token was wiped by the delivery that could not place it. *)
Definition delegated_request : JobRequest := set_jr_Labels (<["_delegation.jti" := "jti-1"]> (jr_Labels ex_request)) ex_request.

Theorem delegation_lost_on_retry :
  let st := match SetDelegationDispatchToken (fun t => Some (dt_Token t)) "job-a" (mkDispatchToken "tok" "worker") ex_store with Ok st => st | Err _ => ex_store end in
  let busy := mkScenario (verdict SafetyAllow "ok" false) (fun _ _ => None) None false
                (fun _ => Err (wrapping ErrNoWorkers "no_workers")) (fun _ _ => None) in
  let '(e1, w1) := handle busy delegated_request (mkSWorld st []) in
  let '(e2, w2) := handle (calm (verdict SafetyAllow "ok" false)) delegated_request w1 in
  e1 = None /\ GetState "job-a" (sw_store w1) = Some JobStatePending /\ GetState "job-a" (sw_store w2) = Some JobStateFailed.
Proof. by vm_compute. Qed.

(** A throttled job is to be delivered again after a delay, unless the reason the
    policy gives contains the word "overloaded": then it is acknowledged. *)
Theorem throttle_reason_acknowledged :
  let run reason := handle (calm (verdict SafetyThrottle reason false)) ex_request fresh in
  bool_decide (er_delay <$> (run "backend busy").1 = Some (Some safetyThrottleDelay)) = true /\ (run "backend Overloaded").1 = None.
Proof. by vm_compute. Qed.

(** A submission that carries the labels of an approval: the first delivery asks for
    an approval, the second takes the labels for one and hands the job out. *)
Theorem forged_approval_dispatched :
  let '(e1, w1) := handle ask_sc resubmitted_request fresh in
  let '(e2, w2) := handle ask_sc resubmitted_request w1 in
  GetState "job-a" (sw_store w1) = Some JobStateApproval /\
  ar_ApprovedBy (current_approval "job-a" (sw_store w1)) = "" /\
  e2 = None /\ GetState "job-a" (sw_store w2) = Some JobStateRunning /\ hand_outs_of "job-a" (sw_trace w2) = 1%nat.
Proof. by vm_compute. Qed.
