(* ===== verification/SchedulerResult.v ===== *)
(** * Results of jobs in the scheduler

    core/controlplane/scheduler/engine.go (handleJobResult to setAgentInfoFromWorker,
    CancelJob), engine_accepted_event.go, engine_durable_result.go,
    engine_durable_side_effect.go and engine_durable_event.go: what the engine does
    with the result, the progress report or the cancellation a worker sends.  Outside
    production a result is fenced, checked against the output policy, stored and
    handed on; in production it is committed with its effect first, and the effects
    are worked off later.

    The goroutines the engine starts (the content check of an output, the rollback of
    a saga) are entries of the trace; the content check itself is
    [async_output_check].  Left out: metrics, the telemetry marker, and the recovery
    from a panic of the content check. *)
From Stdlib Require Import Ascii.
From S2P Require Import Prelude.
From S2P Require Import GoStrings.
From S2P Require Import PolicyTypes.
From S2P Require Import JobRuntime.
From S2P Require Import JobStore.
From S2P Require Import GoValues.
From S2P Require Import Licensing.
From S2P Require Import WorkflowModels.
From S2P Require Import JobIdentity.
From S2P Require Import JobMeta.
From S2P Require Import JobApproval.
From S2P Require Import SchedulerEnv.
From S2P Require Import Scheduler.

Open Scope string_scope.

(** ** Data *)

Definition OutputAllow : string := "ALLOW".
Definition OutputDeny : string := "DENY".
Definition OutputQuarantine : string := "QUARANTINE".
Definition OutputRedact : string := "REDACT".
Definition outputPolicyAsync : string := "output_quarantined_async".
Definition SubjectAcceptedProgress : string := "sys.internal.job.progress.accepted".

(** [model.OutputSafetyRecord]; the findings in their JSON form. *)
Record OutputSafetyRecord := mkOutputRecord {
  os_Decision : string;
  os_Reason : string;
  os_RuleID : string;
  os_PolicySnapshot : string;
  os_Findings : string;
  os_RedactedPtr : string;
  os_OriginalPtr : string;
  os_CheckedAt : Z;
  os_CheckDurationMs : Z;
  os_Phase : string;
}.

Definition set_os_Decision (d : string) (r : OutputSafetyRecord) : OutputSafetyRecord :=
  mkOutputRecord d (os_Reason r) (os_RuleID r) (os_PolicySnapshot r) (os_Findings r) (os_RedactedPtr r) (os_OriginalPtr r) (os_CheckedAt r)
    (os_CheckDurationMs r) (os_Phase r).
Definition set_os_Reason (d : string) (r : OutputSafetyRecord) : OutputSafetyRecord :=
  mkOutputRecord (os_Decision r) d (os_RuleID r) (os_PolicySnapshot r) (os_Findings r) (os_RedactedPtr r) (os_OriginalPtr r) (os_CheckedAt r)
    (os_CheckDurationMs r) (os_Phase r).
Definition set_os_Duration (d : Z) (r : OutputSafetyRecord) : OutputSafetyRecord :=
  mkOutputRecord (os_Decision r) (os_Reason r) (os_RuleID r) (os_PolicySnapshot r) (os_Findings r) (os_RedactedPtr r) (os_OriginalPtr r)
    (os_CheckedAt r) d (os_Phase r).

Definition set_jo_ResultPtr (p : string) (r : JobOutcome) : JobOutcome :=
  mkJobOutcome (jo_JobId r) (jo_Status r) (jo_ErrorCode r) (jo_ErrorCodeEnum r) (jo_ErrorMessage r) p (jo_WorkerId r) (jo_Identity r) (jo_Dispatch r).
Definition set_jo_ErrorCodeEnum (c : ErrorCode) (r : JobOutcome) : JobOutcome :=
  mkJobOutcome (jo_JobId r) (jo_Status r) (jo_ErrorCode r) c (jo_ErrorMessage r) (jo_ResultPtr r) (jo_WorkerId r) (jo_Identity r) (jo_Dispatch r).

Definition set_sp_Payload (p : spayload) (pkt : SPacket) : SPacket :=
  mkSPacket (sp_TraceId pkt) (sp_SenderId pkt) (sp_Identity pkt) (sp_AuthToken pkt) p.

(** The session a packet was verified under. *)
Record SessionClaims := mkClaims { cl_Subject : string; cl_Tenant : string }.

(** [bus.RawAdmissionAuthority]: what the admission of the raw message established. *)
Record RawAuthority := mkRawAuthority {
  ra_ActualSubject : string;
  ra_SessionSubject : string;
  ra_TenantID : string;
  ra_Identity : option IdentityBinding;
  ra_MessageID : string;
  ra_UnsignedDigest : string;
}.

(** A cancellation a worker or a service sends. *)
Record CancelRequest := mkCancelRequest {
  cr_JobId : string;
  cr_Reason : string;
  cr_Identity : option IdentityBinding;
  cr_Dispatch : option DispatchIdentity;
}.

(** [durableResultEffect]; the packet in its wire form. *)
Record durableResultEffect := mkDurableEffect { de_State : string; de_Topic : string; de_Packet : string }.

(** The output policy: the check of the metadata and the check of the content. *)
Record OutputChecker := mkOutputChecker {
  oc_Meta : list SEvent -> JobOutcome -> JobRequest -> result string OutputSafetyRecord;
  oc_Content : list SEvent -> JobOutcome -> JobRequest -> result string OutputSafetyRecord;
}.

(** What the handling of results asks beyond [SchedEnv].

    - [r_outputEnabled], [r_outputSafety]: the output policy and its switch.
    - [r_elapsed]: how long the last check took, in milliseconds.
    - [r_async_fail_open]: the fail mode of the content check of a tenant.
    - [r_saga]: the saga manager: recording the compensation of a request, and the
      rollback of a workflow.
    - [r_scan]: the jobs a scan of the runtime hashes yields.
    - [output_json], [effect_json], [effect_of_json], [packet_wire], [packet_of_wire]:
      the encodings of the records of the store. *)
Class ResultEnv := mkResultEnv {
  r_outputEnabled : list SEvent -> bool;
  r_outputSafety : option OutputChecker;
  r_elapsed : list SEvent -> Z;
  r_async_fail_open : list SEvent -> string -> bool;
  r_saga : option ((list SEvent -> JobRequest -> option string) * (list SEvent -> string -> option string));
  r_scan : list SEvent -> list string;
  output_json : OutputSafetyRecord -> option string;
  effect_json : durableResultEffect -> option string;
  effect_of_json : string -> option durableResultEffect;
  packet_wire : SPacket -> option string;
  packet_of_wire : string -> option SPacket;
}.

(** ** Pure parts *)

(** The state a status stands for; [""] when there is none. *)
Definition stateForJobResult (status : JobStatus) : string :=
  match status with
  | JOB_STATUS_SUCCEEDED => JobStateSucceeded
  | JOB_STATUS_FAILED | JOB_STATUS_FAILED_FATAL => JobStateFailed
  | JOB_STATUS_FAILED_RETRYABLE => JobStateRetrying
  | JOB_STATUS_TIMEOUT => JobStateTimeout
  | JOB_STATUS_DENIED => JobStateDenied
  | JOB_STATUS_CANCELLED => JobStateCancelled
  | _ => ""
  end.

(** The switch of handleJobResult, which fails a job with an unknown status. *)
Definition result_state (status : JobStatus) : string :=
  match status with
  | JOB_STATUS_SUCCEEDED => JobStateSucceeded
  | JOB_STATUS_FAILED => JobStateFailed
  | JOB_STATUS_FAILED_RETRYABLE => JobStateRetrying
  | JOB_STATUS_FAILED_FATAL => JobStateFailed
  | JOB_STATUS_TIMEOUT => JobStateTimeout
  | JOB_STATUS_DENIED => JobStateDenied
  | JOB_STATUS_CANCELLED => JobStateCancelled
  | _ => JobStateFailed
  end.

Definition denyResultForOutputPolicy (reason : string) (res : JobOutcome) : JobOutcome :=
  let reason := TrimSpace reason in
  let reason := if reason =s? "" then "output quarantined by policy" else reason in
  mkJobOutcome (jo_JobId res) JOB_STATUS_DENIED outputPolicyReason ERROR_CODE_SAFETY_DENIED reason (jo_ResultPtr res) (jo_WorkerId res)
    (jo_Identity res) (jo_Dispatch res).

Definition completeProductionIdentity (i : option IdentityBinding) : bool :=
  match i with
  | None => false
  | Some i => negb (ib_TenantId i =s? "") && negb (ib_PrincipalId i =s? "") && negb (ib_ActorId i =s? "")
  end.

Definition sameProductionIdentity (left right : option IdentityBinding) : bool :=
  match left, right with
  | Some l, Some r =>
      (ib_TenantId l =s? ib_TenantId r) && (ib_PrincipalId l =s? ib_PrincipalId r) && (ib_ActorId l =s? ib_ActorId r)
      && (ib_DelegationId l =s? ib_DelegationId r)
  | _, _ => false
  end.

Definition IsReservedIdentity (subject : string) : bool :=
  bool_decide (TrimSpace subject ∈ ["cordum-scheduler"; "api-gateway"; "workflow-engine"]).

(** The message id of the packet's signature metadata is given beside the packet. *)
Definition trustedEventEvidence (authority : option RawAuthority) (pkt : SPacket) (signed : option string) (claims : option SessionClaims)
    : result string (string * string) :=
  match authority, claims with
  | Some a, Some c =>
      if (ra_ActualSubject a =s? "") || negb (String.length (ra_MessageID a) =? 16)%nat || negb (String.length (ra_UnsignedDigest a) =? 32)%nat
      then Err "production event missing verified raw authority"
      else if negb (ra_SessionSubject a =s? TrimSpace (cl_Subject c)) || negb (ra_TenantID a =s? TrimSpace (cl_Tenant c))
              || negb (sp_SenderId pkt =s? ra_SessionSubject a) || negb (sameProductionIdentity (sp_Identity pkt) (ra_Identity a))
      then Err "scheduler: authenticated production identity mismatch"
      else match signed with
           | Some id => if id =s? ra_MessageID a then Ok (ra_MessageID a, ra_UnsignedDigest a)
                        else Err "production event signature metadata mismatch"
           | None => Err "production event signature metadata mismatch"
           end
  | _, _ => Err "production event missing verified raw authority"
  end.

Section Results.
Context `{ProtoCodec} `{SchedEnv} `{ResultEnv}.

(** ** Writing about a job *)

Definition persistOutputSafety (jobID : string) (record : OutputSafetyRecord) : sched unit :=
  if jobID =s? "" then sret tt
  else swrite "SetOutputDecision" (fun st => match output_json record with
                                             | Some encoded => SetOutputDecision jobID encoded st
                                             | None => Err (ErrMessage "marshal output decision")
                                             end) ;;; sret tt.

(** [SetResultPtr] writes the pointer beside the job, then into its runtime hash. *)
Definition SetResultPtr_steps (jobID ptr : string) (st : jredis) : list jredis :=
  [st; pipeline [SetStr (jobResultPtrKey jobID) ptr; HSet (jobMetaKey jobID) [("result_ptr", ptr)]] st; SetResultPtr jobID ptr st].

Definition setResultPtr (jobID ptr : string) : sched (option serror) :=
  if jobID =s? "" then sret None
  else r <- scall "SetResultPtr" (SetResultPtr_steps jobID ptr) (fun st => (SetResultPtr jobID ptr st, Ok tt)) ;;
       sret (match r with Ok _ => None | Err e => Some (mkError (er_is e) ("set result ptr: " +:+ er_msg e) (er_delay e)) end).

Definition setWorkerID (jobID workerID : string) : sched unit :=
  if (jobID =s? "") || (workerID =s? "") then sret tt
  else now <- snow ;; swrite "SetWorkerID" (SetWorkerID now jobID workerID) ;;; sret tt.

Definition setAgentInfoFromWorker (jobID workerID : string) : sched unit :=
  match s_agent with
  | None => sret tt
  | Some resolve =>
      if (jobID =s? "") || (workerID =s? "") then sret tt
      else info <- ask "agent" (fun tr => resolve tr workerID) ;;
           let '(id, name, tier) := info in
           swrite "SetAgentInfo" (fun st => Ok (SetAgentInfo jobID id name tier st)) ;;; sret tt
  end.

Definition emitOutputAuditEvent (jobID code reason : string) : sched unit := slog (SvAudit jobID code reason).

(** ** The output policy *)

(** The output policy is switched on and there is one. *)
Definition output_policy : sched (option OutputChecker) :=
  on <- ask "output safety" r_outputEnabled ;; sret (if on then r_outputSafety else None).

Definition check_elapsed : sched Z := ask "elapsed" r_elapsed.

(** What the answer of the checker changes in the record. *)
Definition checked_record (record checked : OutputSafetyRecord) : OutputSafetyRecord :=
  mkOutputRecord
    (if os_Decision checked =s? "" then os_Decision record else os_Decision checked)
    (if os_Reason checked =s? "" then os_Reason record else os_Reason checked)
    (os_RuleID checked) (os_PolicySnapshot checked) (os_Findings checked) (os_RedactedPtr checked)
    (if os_OriginalPtr checked =s? "" then os_OriginalPtr record else os_OriginalPtr checked)
    (if (os_CheckedAt checked =? 0)%Z then os_CheckedAt record else os_CheckedAt checked)
    (if (0 <? os_CheckDurationMs checked)%Z then os_CheckDurationMs checked else os_CheckDurationMs record)
    (if os_Phase checked =s? "" then os_Phase record else os_Phase checked).

Definition checkOutputSafety (jobID : string) (res : JobOutcome) (req : option JobRequest) : sched OutputSafetyRecord :=
  now <- snow ;;
  let record := mkOutputRecord OutputAllow "" "" "" "" "" (TrimSpace (jo_ResultPtr res)) now 0 "sync" in
  policy <- output_policy ;;
  match policy, req with
  | Some checker, Some req =>
      answer <- ask "output meta" (fun tr => oc_Meta checker tr res req) ;;
      elapsed <- check_elapsed ;;
      let record := set_os_Duration elapsed record in
      match answer with
      | Err _ => sret record
      | Ok checked => let record := checked_record record checked in persistOutputSafety jobID record ;;; sret record
      end
  | _, _ => sret record
  end.

Definition or_text (s d : string) : string := if TrimSpace s =s? "" then d else s.

Definition materializeRedaction (res : JobOutcome) (req : option JobRequest) (current : OutputSafetyRecord) : sched OutputSafetyRecord :=
  match r_outputSafety, req with
  | Some checker, Some req =>
      if negb (TrimSpace (os_RedactedPtr current) =s? "") then sret current
      else
        answer <- ask "output content" (fun tr => oc_Content checker tr res req) ;;
        elapsed <- check_elapsed ;;
        match answer with
        | Err _ =>
            sret (set_os_Duration (wrap64 (os_CheckDurationMs current + elapsed))
                    (set_os_Reason (or_text (os_Reason current) "output redaction required but sanitized output unavailable")
                       (set_os_Decision OutputQuarantine current)))
        | Ok record =>
            now <- snow ;;
            let record := mkOutputRecord
              (if os_Decision record =s? "" then OutputRedact else os_Decision record)
              (if os_Reason record =s? "" then os_Reason current else os_Reason record)
              (if os_RuleID record =s? "" then os_RuleID current else os_RuleID record)
              (if os_PolicySnapshot record =s? "" then os_PolicySnapshot current else os_PolicySnapshot record)
              (os_Findings record) (os_RedactedPtr record)
              (if os_OriginalPtr record =s? "" then TrimSpace (jo_ResultPtr res) else os_OriginalPtr record)
              (if (os_CheckedAt record =? 0)%Z then now else os_CheckedAt record)
              (if (os_CheckDurationMs record =? 0)%Z then elapsed else os_CheckDurationMs record) (os_Phase record) in
            sret (if (os_Decision record =s? OutputRedact) && (TrimSpace (os_RedactedPtr record) =s? "")
                  then set_os_Reason (or_text (os_Reason record) "output redaction required but sanitized output unavailable")
                         (set_os_Decision OutputQuarantine record)
                  else record)
        end
  | _, _ => sret (set_os_Reason (or_text (os_Reason current) "output redaction required but checker unavailable") (set_os_Decision OutputQuarantine current))
  end.

Definition denies (record : OutputSafetyRecord) : bool := (os_Decision record =s? OutputQuarantine) || (os_Decision record =s? OutputDeny).

(** The check of the content runs beside the engine. *)
Definition startAsyncOutputCheck (jobID : string) (req : option JobRequest) : sched unit :=
  policy <- output_policy ;;
  match policy, req with
  | Some _, Some _ => if jobID =s? "" then sret tt else slog (SvSpawn "async output check" jobID)
  | _, _ => sret tt
  end.

(** One attempt to quarantine a job that has succeeded. *)
Definition quarantine_attempt (jobID reason : string) : handler :=
  withJobLock jobID (
    st <- store_GetState jobID ;;
    let go := e <- setJobState jobID JobStateQuarantined ;;
              match e with
              | Some e => sret (Some e)
              | None => emitOutputAuditEvent jobID outputPolicyAsync reason ;;; emitDLQWithRetry jobID JOB_STATUS_DENIED reason outputPolicyAsync
              end in
    match st with
    | Ok curr => if curr =s? JobStateSucceeded then go else sret None
    | Err _ => go
    end).

Fixpoint quarantine_loop (n : nat) (jobID reason : string) : handler :=
  match n with
  | O => sret None
  | S n =>
      e <- quarantine_attempt jobID reason ;;
      match e with
      | None => sret None
      | Some e => match n with O => sret (Some e) | _ => quarantine_loop n jobID reason end
      end
  end.

Definition maxQuarantineRetries : nat := 3.

Definition async_output_check (checker : OutputChecker) (jobID : string) (res : JobOutcome) (req : JobRequest) : sched unit :=
  answer <- ask "output content" (fun tr => oc_Content checker tr res req) ;;
  elapsed <- check_elapsed ;;
  open_ <- (match answer with
            | Err _ => ask "async fail mode" (fun tr => negb s_productionIdentity && r_async_fail_open tr (jr_TenantId req))
            | Ok _ => sret false
            end) ;;
  if open_ : bool then sret tt
  else
    now <- snow ;;
    let record := match answer with
                  | Ok r => r
                  | Err msg => mkOutputRecord OutputQuarantine ("async output check error — fail-closed: " +:+ msg) "" "" "" ""
                                 (TrimSpace (jo_ResultPtr res)) now elapsed "async"
                  end in
    let record := mkOutputRecord
      (if os_Decision record =s? "" then OutputAllow else os_Decision record) (os_Reason record) (os_RuleID record) (os_PolicySnapshot record)
      (os_Findings record) (os_RedactedPtr record)
      (if os_OriginalPtr record =s? "" then TrimSpace (jo_ResultPtr res) else os_OriginalPtr record)
      (if (os_CheckedAt record =? 0)%Z then now else os_CheckedAt record)
      (if (os_CheckDurationMs record =? 0)%Z then elapsed else os_CheckDurationMs record)
      (if os_Phase record =s? "" then "async" else os_Phase record) in
    persistOutputSafety jobID record ;;;
    if negb (denies record) then sret tt
    else
      let reason := or_text (TrimSpace (os_Reason record)) "output quarantined by async policy" in
      last <- quarantine_loop maxQuarantineRetries jobID reason ;;
      match last with
      | None => sret tt
      | Some e => emitDLQWithRetry jobID JOB_STATUS_FAILED ("quarantine_state_failed: " +:+ er_msg e) "quarantine_failed" ;;; sret tt
      end.

(** ** A result outside production *)

(** [withJobLock] around a handler that changes the message it was given. *)
Definition with_lock_on {A} (jobID : string) (a : A) (fn : sched (option serror * A)) : sched (option serror * A) :=
  if jobID =s? "" then fn
  else
    tr <- strace ;;
    let answer := s_lock tr jobID in
    slog (SvLock jobID answer) ;;;
    match answer with
    | LockFailed msg => sret (Some (RetryAfter (plain msg) retryDelayStore), a)
    | LockBusy => sret (Some (RetryAfter (plain "job lock busy") retryDelayBusy), a)
    | LockShutdown msg => sret (Some (wrapping ContextDone msg), a)
    | LockAcquired =>
        r <- fn ;;
        abandoned <- ask "lock abandoned" (fun tr => s_abandoned tr jobID) ;;
        sret (if abandoned
              then (Some (match r.1 with
                          | Some e => mkError (er_is e) ("lock abandoned during execution: " +:+ er_msg e) (er_delay e)
                          | None => wrapping errLockAbandoned "job lock abandoned: renewal failed"
                          end), r.2)
              else r)
    end.

(** [AcceptJobEvent] migrates the fence of an older job, then compares. *)
Definition accept_event (jobID : string) (f : fence) (eventID : string) : sched (result serror bool) :=
  scall "AcceptJobEvent" (fun st => [st; migrateRuntimeFence jobID st; match AcceptJobEvent jobID f eventID st with Ok (st', _) => st' | Err _ => st end])
    (fun st => match AcceptJobEvent jobID f eventID st with Ok (st', b) => (st', Ok b) | Err e => (st, Err e) end).

(** Whether a result that names its dispatch is the first of the current one. *)
Definition fence_result (jobID : string) (d : DispatchIdentity) : sched bool :=
  tenant <- sread "GetTenant" (fun st => or_nil (GetTenant jobID st)) ;;
  match tenant with
  | Err _ => sret false
  | Ok tenant =>
      r <- accept_event jobID (mkFence (di_DispatchId d) (wrap64 (di_Attempt d)) (di_AssignedWorkerId d) tenant) (di_DispatchId d +:+ ":result") ;;
      sret (match r with Ok accepted => accepted | Err _ => false end)
  end.

(** The workflow of a request, or of its label. *)
Definition saga_workflow (req : option JobRequest) : string :=
  match req with
  | None => ""
  | Some req => let id := TrimSpace (jr_WorkflowId req) in if id =s? "" then TrimSpace (get_str (jr_Labels req) "workflow_id") else id
  end.

(** The saga: a success records its compensation, a fatal failure rolls back. *)
Definition notify_saga (status : JobStatus) (req : option JobRequest) : sched unit :=
  match r_saga with
  | None => sret tt
  | Some (record, _) =>
      (match status, req with
       | JOB_STATUS_SUCCEEDED, Some req => ask "record compensation" (fun tr => record tr req) ;;; sret tt
       | _, _ => sret tt
       end) ;;;
      (match status with
       | JOB_STATUS_FAILED_FATAL =>
           let id := saga_workflow req in if id =s? "" then sret tt else slog (SvSpawn "saga rollback" id)
       | _ => sret tt
       end)
  end.

(** The request of the job, when the saga or the output policy needs it. *)
Definition result_request (jobID : string) (status : JobStatus) : sched (option JobRequest) :=
  policy <- output_policy ;;
  if bool_decide (r_saga <> None) || (bool_decide (status = JOB_STATUS_SUCCEEDED) && bool_decide (policy <> None)) then
    r <- sread "GetJobRequest" (GetJobRequest jobID) ;; sret (match r with Ok req => Some req | Err _ => None end)
  else sret None.

(** A redaction changed the record in one of the fields compared. *)
Definition record_changed (before after : OutputSafetyRecord) : bool :=
  negb (os_Decision before =s? os_Decision after) || negb (os_Reason before =s? os_Reason after)
  || negb (os_RedactedPtr before =s? os_RedactedPtr after) || negb (os_Phase before =s? os_Phase after)
  || negb (os_CheckDurationMs before =? os_CheckDurationMs after)%Z.

(** What the output policy makes of a success: the state, the result (whose pointer
    a redaction replaces) and the record. *)
Definition output_verdict (jobID : string) (res : JobOutcome) (req : option JobRequest) : sched (string * JobOutcome * OutputSafetyRecord) :=
  record <- checkOutputSafety jobID res req ;;
  if denies record then sret (JobStateQuarantined, res, record)
  else if os_Decision record =s? OutputRedact then
    after <- materializeRedaction res req record ;;
    let ptr := TrimSpace (os_RedactedPtr after) in
    if ptr =s? "" then
      let after := set_os_Reason (or_text (os_Reason after) "output redaction required but sanitized output unavailable")
                     (set_os_Decision OutputQuarantine after) in
      persistOutputSafety jobID after ;;; sret (JobStateQuarantined, res, after)
    else
      (if record_changed record after then persistOutputSafety jobID after else sret tt) ;;;
      sret (JobStateSucceeded, set_jo_ResultPtr ptr res, after)
  else sret (JobStateSucceeded, res, record).

(** After the state is stored: the content check, and the dead letter of a job that
    did not succeed. *)
Definition settle_result (jobID state : string) (status : JobStatus) (res : JobOutcome) (req : option JobRequest) (record : option OutputSafetyRecord)
    : sched (option serror * JobOutcome) :=
  (if state =s? JobStateSucceeded then startAsyncOutputCheck jobID req else sret tt) ;;;
  if state =s? JobStateQuarantined then
    let reason := or_text (TrimSpace (match record with Some r => os_Reason r | None => "" end)) "output quarantined by policy" in
    let res := denyResultForOutputPolicy reason res in
    emitOutputAuditEvent jobID outputPolicyReason reason ;;;
    e <- dlq_and_done jobID JOB_STATUS_DENIED reason outputPolicyReason ;; sret (e, res)
  else if negb (state =s? JobStateSucceeded) && negb (bool_decide (status = JOB_STATUS_FAILED_RETRYABLE)) then
    e <- dlq_and_done jobID status (jo_ErrorMessage res) (jo_ErrorCode res) ;; sret (e, res)
  else sret (None, res).

(** The result pointer is written before the state that ends the job. *)
Definition store_result (jobID state : string) (status : JobStatus) (res : JobOutcome) (req : option JobRequest) (record : option OutputSafetyRecord)
    : sched (option serror * JobOutcome) :=
  e <- (if jo_ResultPtr res =s? "" then sret None else setResultPtr jobID (jo_ResultPtr res)) ;;
  match e with
  | Some e => sret (Some (RetryAfter e retryDelayStore), res)
  | None =>
      setWorkerID jobID (TrimSpace (jo_WorkerId res)) ;;;
      setAgentInfoFromWorker jobID (TrimSpace (jo_WorkerId res)) ;;;
      e <- setJobState jobID state ;;
      match e with
      | Some e => sret (Some (RetryAfter e retryDelayStore), res)
      | None => settle_result jobID state status res req record
      end
  end.

(** A result that passed the fence. *)
Definition apply_result (jobID : string) (res : JobOutcome) : sched (option serror * JobOutcome) :=
  let status := jo_Status res in
  req <- result_request jobID status ;;
  notify_saga status req ;;;
  match status with
  | JOB_STATUS_SUCCEEDED =>
      v <- output_verdict jobID res req ;;
      let '(state, res, record) := v in store_result jobID state status res req (Some record)
  | _ => store_result jobID (result_state status) status res req None
  end.

Definition handleJobResult (res : JobOutcome) : sched (option serror * JobOutcome) :=
  let jobID := TrimSpace (jo_JobId res) in
  if jobID =s? "" then sret (None, res)
  else if s_productionIdentity && bool_decide (jo_Dispatch res = None) then sret (None, res)
  else
    let res := if bool_decide (jo_ErrorCodeEnum res = ERROR_CODE_UNSPECIFIED) && negb (jo_ErrorCode res =s? "")
               then set_jo_ErrorCodeEnum (mapStringToErrorCode (jo_ErrorCode res)) res else res in
    with_lock_on jobID res (
      sread "GetTopic" (fun st => or_nil (GetTopic jobID st)) ;;;
      st <- store_GetState jobID ;;
      if (match st with Ok state => terminalStates state | Err _ => false end) then sret (None, res)
      else
        match jo_Dispatch res with
        | None => apply_result jobID res
        | Some d =>
            accepted <- fence_result jobID d ;;
            if accepted : bool then apply_result jobID res else sret (None, res)
        end).

(** [handleCompatJobResult]: the packet carries the result, as the engine left it. *)
Definition handleCompatJobResult (pkt : SPacket) (res : JobOutcome) : handler :=
  r <- handleJobResult res ;;
  match r.1 with
  | Some e => sret (Some e)
  | None => publishSchedulerAcceptedPacket SubjectAcceptedResult (set_sp_Payload (SJobResult r.2) pkt)
  end.

(** ** A result in production *)

Definition loadResultTopic (jobID : string) : sched (result serror string) :=
  r <- sread "GetTopic" (fun st => or_nil (GetTopic jobID st)) ;;
  sret (match r with
        | Err e => Err (mkError (er_is e) ("topic lookup " +:+ jobID +:+ ": " +:+ er_msg e) (er_delay e))
        | Ok topic => Ok (if TrimSpace topic =s? "" then "unknown" else topic)
        end).

Definition loadDurableJobRequest (jobID : string) : sched (result serror JobRequest) :=
  r <- sread "GetJobRequest" (GetJobRequest jobID) ;;
  sret (match r with
        | Err e => Err (mkError (er_is e) ("job request lookup " +:+ jobID +:+ ": " +:+ er_msg e) (er_delay e))
        | Ok req => Ok req
        end).

(** The output policy on a success: the state, the result as the policy leaves it and
    its pointer. *)
Definition production_verdict (res : JobOutcome) (req : JobRequest) : sched (string * JobOutcome * string) :=
  record <- checkOutputSafety (jo_JobId res) res (Some req) ;;
  if denies record then sret (JobStateQuarantined, denyResultForOutputPolicy (os_Reason record) res, jo_ResultPtr res)
  else if os_Decision record =s? OutputRedact then
    record <- materializeRedaction res (Some req) record ;;
    persistOutputSafety (jo_JobId res) record ;;;
    sret (if TrimSpace (os_RedactedPtr record) =s? ""
          then (JobStateQuarantined, denyResultForOutputPolicy (os_Reason record) res, jo_ResultPtr res)
          else (JobStateSucceeded, res, os_RedactedPtr record))
  else sret (JobStateSucceeded, res, jo_ResultPtr res).

Definition productionResultState (res : JobOutcome) : sched (result serror (string * JobOutcome * string)) :=
  let state := stateForJobResult (jo_Status res) in
  let state := if state =s? "" then JobStateFailed else state in
  if negb (state =s? JobStateSucceeded) then sret (Ok (state, res, jo_ResultPtr res))
  else
    policy <- output_policy ;;
    match policy with
    | None => sret (Ok (state, res, jo_ResultPtr res))
    | Some _ =>
        r <- loadDurableJobRequest (jo_JobId res) ;;
        match r with
        | Err e => sret (Err (RetryAfter e retryDelayStore))
        | Ok req => v <- production_verdict res req ;; sret (Ok v)
        end
    end.

Definition set_worker (workerID : string) (d : DispatchIdentity) : DispatchIdentity := mkDispatchIdentity (di_DispatchId d) (di_Attempt d) workerID.

Definition marshalDurableResultEffect (res : JobOutcome) (state topic resultPtr workerID : string) : option string :=
  let workerID := TrimSpace workerID in
  let cloned := mkJobOutcome (jo_JobId res) (jo_Status res) (jo_ErrorCode res) (jo_ErrorCodeEnum res) (jo_ErrorMessage res) resultPtr workerID
                  (jo_Identity res) (set_worker workerID <$> jo_Dispatch res) in
  match packet_wire (mkSPacket (jo_JobId cloned) defaultSenderID (jo_Identity cloned) "" (SJobResult cloned)) with
  | None => None
  | Some wire => effect_json (mkDurableEffect state topic wire)
  end.

Definition marshal_failed : serror := RetryAfter (plain "marshal durable effect") retryDelayStore.

Definition buildDurableResultApply (authority : option RawAuthority) (pkt : SPacket) (signed : option string) (res : JobOutcome)
    (claims : option SessionClaims) : sched (result serror JobResultApply) :=
  match jo_Dispatch res, claims with
  | Some dispatch, Some c =>
      match trustedEventEvidence authority pkt signed claims with
      | Err e => sret (Err (plain e))
      | Ok (messageID, digest) =>
          topic <- loadResultTopic (jo_JobId res) ;;
          match topic with
          | Err e => sret (Err (RetryAfter e retryDelayStore))
          | Ok topic =>
              v <- productionResultState res ;;
              match v with
              | Err e => sret (Err e)
              | Ok (state, res, ptr) =>
                  sret (match marshalDurableResultEffect res state topic ptr (cl_Subject c) with
                        | None => Err marshal_failed
                        | Some effect =>
                            Ok (mkJobResultApply (jo_JobId res)
                                  (mkFence (di_DispatchId dispatch) (wrap64 (di_Attempt dispatch)) (TrimSpace (cl_Subject c)) (TrimSpace (cl_Tenant c)))
                                  messageID digest effect state ptr)
                        end)
              end
          end
      end
  | _, _ => sret (Err (plain ("production result " +:+ jo_JobId res +:+ " missing authenticated dispatch evidence")))
  end.

(** ** Working off the effects *)

Definition processDurableSaga (res : JobOutcome) : sched (option serror) :=
  match r_saga with
  | None => sret None
  | Some (record, rollback) =>
      r <- loadDurableJobRequest (jo_JobId res) ;;
      match r with
      | Err e => sret (Some e)
      | Ok req =>
          match jo_Status res with
          | JOB_STATUS_SUCCEEDED => e <- ask "record compensation" (fun tr => record tr req) ;; sret (plain <$> e)
          | JOB_STATUS_FAILED_FATAL =>
              let id := saga_workflow (Some req) in
              if id =s? "" then sret None else e <- ask "saga rollback" (fun tr => rollback tr id) ;; sret (plain <$> e)
          | _ => sret None
          end
      end
  end.

Definition processDurableFailure (jobID : string) (effect : durableResultEffect) (res : JobOutcome) : handler :=
  if (de_State effect =s? JobStateSucceeded) || (de_State effect =s? JobStateRetrying) then sret None
  else if de_State effect =s? JobStateQuarantined then
    let reason := or_text (jo_ErrorMessage res) "output quarantined by policy" in
    emitOutputAuditEvent jobID outputPolicyReason reason ;;;
    dlq_and_done jobID JOB_STATUS_DENIED reason outputPolicyReason
  else dlq_and_done jobID (jo_Status res) (jo_ErrorMessage res) (jo_ErrorCode res).

Definition startDurableAsyncOutputCheck (jobID : string) (effect : durableResultEffect) : sched (option serror) :=
  if negb (de_State effect =s? JobStateSucceeded) then sret None
  else
    policy <- output_policy ;;
    match policy with
    | None => sret None
    | Some _ =>
        r <- loadDurableJobRequest jobID ;;
        match r with
        | Err e => sret (Some e)
        | Ok req => startAsyncOutputCheck jobID (Some req) ;;; sret None
        end
    end.

Definition or_retry (delay : Z) (m : sched (option serror)) (k : handler) : handler :=
  e <- m ;; match e with Some e => sret (Some (RetryAfter e delay)) | None => k end.
Definition or_leave (m k : handler) : handler := e <- m ;; match e with Some e => sret (Some e) | None => k end.

Definition ack_effect (effect : JobEffect) : handler :=
  r <- scall "AckJobEffect" (fun st => [st; match AckJobEffect effect st with Ok (st', _) => st' | Err _ => st end])
         (fun st => match AckJobEffect effect st with Ok (st', b) => (st', Ok b) | Err e => (st, Err e) end) ;;
  sret (match r with
        | Err e => Some (RetryAfter (mkError (er_is e) ("ack durable result effect: " +:+ er_msg e) (er_delay e)) retryDelayStore)
        | Ok true => None
        | Ok false => Some (RetryAfter (plain "ack durable result effect rejected") retryDelayStore)
        end).

(** An effect is acknowledged last. *)
Definition processDurableJobEffect (effect : JobEffect) : handler :=
  match effect_of_json (e_Payload effect) with
  | None => sret (Some (RetryAfter (plain "decode durable job effect") retryDelayStore))
  | Some envelope =>
      match packet_of_wire (de_Packet envelope) with
      | None => sret (Some (RetryAfter (plain "decode accepted result") retryDelayStore))
      | Some pkt =>
          match sp_Payload pkt with
          | SJobResult res =>
              now <- snow ;;
              on_ok (swrite "ProjectJobResult" (ProjectJobResult now (e_JobID effect) (de_State envelope) (jo_ResultPtr res) (jo_WorkerId res)))
                (to_retry retryDelayStore) (fun _ =>
              setAgentInfoFromWorker (e_JobID effect) (TrimSpace (jo_WorkerId res)) ;;;
              or_retry retryDelayStore (processDurableSaga res) (
              or_leave (publishSchedulerAcceptedPacket SubjectAcceptedResult pkt) (
              or_leave (processDurableFailure (e_JobID effect) envelope res) (
              or_retry retryDelayStore (startDurableAsyncOutputCheck (e_JobID effect) envelope) (ack_effect effect)))))
          | _ => sret (Some (RetryAfter (plain "durable effect missing result") retryDelayStore))
          end
      end
  end.

(** [pendingEffectsFromClient]: the effects of the jobs a scan yields, up to the limit. *)
Fixpoint pendingEffectsFromClient `{GoRuntime} (scan : list string) (effects : list JobEffect) (limit : Z) (st : jredis)
    : result StoreError (list JobEffect) :=
  match scan with
  | [] => Ok effects
  | jobID :: scan =>
      match appendRuntimeEffects jobID (hash_at st (jobRuntimeKey jobID)) effects limit with
      | None => Err (ErrMessage "job store read pending effects")
      | Some effects => if (limit <=? Z.of_nat (length effects))%Z then Ok effects else pendingEffectsFromClient scan effects limit st
      end
  end.

(** The effects in order; the first error ends the call. *)
Fixpoint process_effects (effects : list JobEffect) : handler :=
  match effects with [] => sret None | e :: rest => or_leave (processDurableJobEffect e) (process_effects rest) end.

Definition drainPendingJobEffects `{GoRuntime} (limit : Z) : handler :=
  scan <- ask "scan" r_scan ;;
  on_ok (sread "PendingJobEffects" (pendingEffectsFromClient scan [] limit)) (to_retry retryDelayStore) process_effects.

(** Commit an event with its effect, then work off what is pending. *)
Definition commit_and_drain `{GoRuntime} (apply : JobResultApply) : handler :=
  r <- scall "ApplyJobResult" (fun st => [st; migrateRuntimeFence (a_JobID apply) st; (ApplyJobResult apply st).1]) (ApplyJobResult apply) ;;
  match r with
  | Err e => sret (if is_err ErrDigestConflict e then None else Some (RetryAfter e retryDelayStore))
  | Ok JobEventRejected => sret None
  | Ok _ => drainPendingJobEffects 100
  end.

Definition handleProductionJobResult `{GoRuntime} (authority : option RawAuthority) (pkt : SPacket) (signed : option string) (res : JobOutcome)
    (claims : option SessionClaims) : handler :=
  a <- buildDurableResultApply authority pkt signed res claims ;;
  match a with
  | Err e => sret (match er_delay e with None => None | Some _ => Some e end)
  | Ok apply => commit_and_drain apply
  end.

(** ** Progress and cancellation in production *)

Definition acceptProductionDispatchEvent (authority : option RawAuthority) (pkt : SPacket) (signed : option string) (jobID : string)
    (dispatch : option DispatchIdentity) (claims : option SessionClaims) : sched (result serror bool) :=
  match dispatch, claims with
  | Some d, Some c =>
      match trustedEventEvidence authority pkt signed claims with
      | Err _ => sret (Ok false)
      | Ok (messageID, digest) =>
          let jobID := TrimSpace jobID in
          if jobID =s? "" then sret (Ok false)
          else
            let f := mkFence (di_DispatchId d) (wrap64 (di_Attempt d)) (TrimSpace (cl_Subject c)) (TrimSpace (cl_Tenant c)) in
            r <- scall "AcceptSignedJobEvent"
                   (fun st => [st; migrateRuntimeFence jobID st; (AcceptSignedJobEvent jobID f messageID digest st).1])
                   (AcceptSignedJobEvent jobID f messageID digest) ;;
            sret (match r with
                  | Err e => if is_err ErrDigestConflict e then Ok false else Err (RetryAfter e retryDelayStore)
                  | Ok JobEventApplied => Ok true
                  | Ok _ => Ok false
                  end)
      end
  | _, _ => sret (Ok false)
  end.

Definition handleProductionProgress (authority : option RawAuthority) (pkt : SPacket) (signed : option string) (jobID : string)
    (dispatch : option DispatchIdentity) (claims : option SessionClaims) : handler :=
  r <- acceptProductionDispatchEvent authority pkt signed jobID dispatch claims ;;
  match r with
  | Err e => sret (Some e)
  | Ok false => sret None
  | Ok true => publishSchedulerAcceptedPacket SubjectAcceptedProgress pkt
  end.

Definition productionCancelAuthorized (claims : option SessionClaims) : bool :=
  match claims with Some c => IsReservedIdentity (TrimSpace (cl_Subject c)) | None => false end.

Definition handleProductionWorkerCancel `{GoRuntime} (authority : option RawAuthority) (pkt : SPacket) (signed : option string) (cancel : CancelRequest)
    (claims : option SessionClaims) : handler :=
  match cr_Dispatch cancel, claims with
  | Some dispatch, Some c =>
      match trustedEventEvidence authority pkt signed claims with
      | Err _ => sret None
      | Ok (messageID, digest) =>
          let res := mkJobOutcome (cr_JobId cancel) JOB_STATUS_CANCELLED "" ERROR_CODE_UNSPECIFIED (cr_Reason cancel) "" (cl_Subject c)
                       (cr_Identity cancel) (Some dispatch) in
          on_ok (loadResultTopic (cr_JobId cancel)) (to_retry retryDelayStore) (fun topic =>
            match marshalDurableResultEffect res JobStateCancelled topic "" (cl_Subject c) with
            | None => sret (Some marshal_failed)
            | Some effect =>
                commit_and_drain (mkJobResultApply (cr_JobId cancel)
                  (mkFence (di_DispatchId dispatch) (wrap64 (di_Attempt dispatch)) (cl_Subject c) (cl_Tenant c)) messageID digest effect JobStateCancelled "")
            end)
      end
  | _, _ => sret None
  end.

Definition handleProductionServiceCancel (jobID : string) : handler :=
  if TrimSpace jobID =s? "" then sret None
  else
    on_ok (scall "CancelAllJobAttempts"
             (fun st => [st; migrateRuntimeFence jobID st; match CancelAllJobAttempts jobID st with Ok (st', _) => st' | Err _ => st end])
             (fun st => match CancelAllJobAttempts jobID st with Ok (st', s) => (st', Ok s) | Err e => (st, Err e) end))
      (to_retry retryDelayStore) (fun state =>
    now <- snow ;;
    on_ok (swrite "ProjectJobResult" (ProjectJobResult now jobID state "" "")) (to_retry retryDelayStore) (fun _ => sret None)).

(** ** Who a result or event is from *)

Definition validateProductionJobEventIdentity (pkt : SPacket) (jobID : string) (payloadIdentity : option IdentityBinding) (claims : option SessionClaims)
    : sched (option serror) :=
  let mismatch := Some (wrapping ErrProductionResultIdentityMismatch "scheduler: production result identity mismatch") in
  match payloadIdentity, claims with
  | Some i, Some c =>
      if negb (completeProductionIdentity payloadIdentity) || negb (sameProductionIdentity (sp_Identity pkt) payloadIdentity) then sret mismatch
      else if negb (cl_Tenant c =s? "") && negb (cl_Tenant c =s? ib_TenantId i) && negb (IsReservedIdentity (cl_Subject c)) then sret mismatch
      else
        r <- loadProductionJobIdentity jobID ;;
        sret (match r with
              | Err e => Some e
              | Ok jobIdentity => if sameProductionIdentity jobIdentity payloadIdentity then None else mismatch
              end)
  | _, _ => sret mismatch
  end.

Definition validateProductionJobResultIdentity (pkt : SPacket) (res : JobOutcome) (claims : option SessionClaims) : sched (option serror) :=
  match claims with
  | Some c =>
      if cl_Subject c =s? jo_WorkerId res then validateProductionJobEventIdentity pkt (jo_JobId res) (jo_Identity res) claims
      else sret (Some (wrapping ErrProductionResultIdentityMismatch "scheduler: production result identity mismatch"))
  | None => sret (Some (wrapping ErrProductionResultIdentityMismatch "scheduler: production result identity mismatch"))
  end.

(** ** Cancelling *)

Definition publishCancel (jobID reason : string) : sched unit :=
  id <- packet_identity jobID ;;
  match id with
  | Err _ => sret tt
  | Ok id =>
      pkt <- attachServiceToken (mkSPacket jobID defaultSenderID id "" (SJobCancel jobID reason)) ;;
      publish SubjectCancel pkt ;;; sret tt
  end.

(** [CancelJob] of the store: the runtime hash, then its projection. *)
Definition cancel_in_store (jobID : string) : sched (result serror string) :=
  now <- snow ;;
  scall "CancelJob" (fun st => [st; match CancelAllJobAttempts jobID st with Ok (st', _) => st' | Err _ => st end;
                                match CancelJob now jobID st with Ok (st', _) => st' | Err _ => st end])
    (fun st => match CancelJob now jobID st with Ok (st', s) => (st', Ok s) | Err e => (st, Err e) end).

Definition Engine_CancelJob (jobID : string) : handler :=
  r <- cancel_in_store jobID ;;
  match r with
  | Err e => sret (Some (mkError (er_is e) ("cancel job: " +:+ er_msg e) (er_delay e)))
  | Ok _ => publishCancel jobID "cancelled by request" ;;; sret None
  end.

End Results.
