(* ===== verification/SchedulerResultDemo.v ===== *)
(** * Results on concrete jobs

    Runs of the handlers of [SchedulerResult] on the job of [SchedulerDemo], and what
    they show beyond the theorems. *)
From Stdlib Require Import Ascii.
From S2P Require Import Prelude.
From S2P Require Import GoStrings.
From S2P Require Import PolicyTypes.
From S2P Require Import JobRuntime.
From S2P Require Import JobStore.
From S2P Require Import GoValues.
From S2P Require Import Licensing.
From S2P Require Import WorkflowModels.
From S2P Require Import JobIdentity.
From S2P Require Import JobMeta.
From S2P Require Import JobApproval.
From S2P Require Import ApprovalTheorems.
From S2P Require Import SchedulerEnv.
From S2P Require Import Scheduler.
From S2P Require Import SchedulerLogic.
From S2P Require Import SchedulerOnce.
From S2P Require Import SchedulerDemo.
From S2P Require Import SchedulerResult.

Open Scope string_scope.

#[local] Existing Instance ex_codec.
#[local] Existing Instance fwd_runtime.

(** A result in a wire form of its own: the fields, each after a newline. *)
Definition demo_wire (pkt : SPacket) : option string :=
  match sp_Payload pkt with SJobResult r => Some (jo_JobId r +:+ "|" +:+ jo_ResultPtr r) | _ => None end.

Definition demo_outcome (status : JobStatus) (ptr : string) (d : option DispatchIdentity) : JobOutcome :=
  mkJobOutcome "job-a" status "" ERROR_CODE_UNSPECIFIED "" ptr "w-1" None d.

(** Without output policy and saga. *)
Definition plain_results (policy : option OutputChecker) : ResultEnv := {|
  r_outputEnabled _ := true;
  r_outputSafety := policy;
  r_elapsed _ := 1%Z;
  r_async_fail_open _ _ := false;
  r_saga := None;
  r_scan _ := ["job-a"];
  output_json r := Some (os_Decision r);
  effect_json e := Some (de_State e +:+ "|" +:+ de_Packet e);
  effect_of_json s := match cut_first "|" s with Some (st, p) => Some (mkDurableEffect st "job.deploy" p) | None => None end;
  packet_wire := demo_wire;
  packet_of_wire s := match cut_first "|" s with
                      | Some (id, ptr) => Some (mkSPacket id defaultSenderID None "" (SJobResult (mkJobOutcome id JOB_STATUS_SUCCEEDED "" ERROR_CODE_UNSPECIFIED "" ptr "w-1" None None)))
                      | None => None
                      end;
|}.

Definition result_of (sc : scenario) (policy : option OutputChecker) (res : JobOutcome) (w : SWorld) : option serror * SWorld :=
  @handleCompatJobResult ex_codec (demo_env sc) (plain_results policy) (mkSPacket "t-1" "w-1" None "" (SJobResult res)) res w.

Definition allow_sc : scenario := calm (verdict SafetyAllow "ok" false).

(** The dispatch the running job was handed out under. *)
Definition demo_fence : option DispatchIdentity :=
  match List.filter is_dispatch (sw_trace demo_run) with
  | SvPublish _ pkt _ _ :: _ => match sp_Payload pkt with SJobRequest r => jr_Dispatch r | _ => None end
  | _ => None
  end.

(** The packets on the accepted stream. *)
Definition accepted (w : SWorld) : list JobOutcome :=
  omap (fun ev => match ev with
                  | SvPublish subject pkt _ None =>
                      if subject =s? SubjectAcceptedResult then match sp_Payload pkt with SJobResult r => Some r | _ => None end else None
                  | _ => None
                  end) (sw_trace w).

Example demo_succeeds :
  let '(e, w) := result_of allow_sc None (demo_outcome JOB_STATUS_SUCCEEDED "res:1" demo_fence) demo_run in
  e = None /\ GetState "job-a" (sw_store w) = Some JobStateSucceeded /\ GetResultPtr "job-a" (sw_store w) = Some "res:1" /\
  map jo_Status (accepted w) = [JOB_STATUS_SUCCEEDED].
Proof. by vm_compute. Qed.

(** ** Findings *)

(** The write of the result pointer fails once: the result is to be delivered again,
    but its fence is used up, so the second delivery is dropped and the job stays
    RUNNING without a result. *)
Theorem result_lost_on_retry :
  let failing := mkScenario (verdict SafetyAllow "ok" false)
                   (fun _ name => if name =s? "SetResultPtr" then Some ("i/o timeout", 0%nat) else None) None false
                   (fun _ => Ok "worker.w-1.jobs") (fun _ _ => None) in
  let res := demo_outcome JOB_STATUS_SUCCEEDED "res:1" demo_fence in
  let '(e1, w1) := result_of failing None res demo_run in
  let '(e2, w2) := result_of allow_sc None res w1 in
  er_delay <$> e1 = Some (Some retryDelayStore) /\ e2 = None /\
  GetState "job-a" (sw_store w2) = Some JobStateRunning /\ GetResultPtr "job-a" (sw_store w2) = None.
Proof. by vm_compute. Qed.

(** A result of a dispatch that is not the current one is dropped, and published as
    accepted all the same. *)
Theorem rejected_result_accepted :
  let res := demo_outcome JOB_STATUS_SUCCEEDED "res:forged" (Some (mkDispatchIdentity "another dispatch" 7 "w-2")) in
  let '(e, w) := result_of allow_sc None res demo_run in
  e = None /\ GetState "job-a" (sw_store w) = Some JobStateRunning /\
  map (fun r => (jo_Status r, jo_ResultPtr r)) (accepted w) = [(JOB_STATUS_SUCCEEDED, "res:forged")].
Proof. by vm_compute. Qed.

(** The dead letter of a failed job fails: the delivery is repeated, finds the job
    ended and sends no dead letter. *)
Theorem dead_letter_lost :
  let failing := mkScenario (verdict SafetyAllow "ok" false) (fun _ _ => None) None false (fun _ => Ok "worker.w-1.jobs")
                   (fun _ subject => if subject =s? SubjectDLQ then Some "nats: timeout" else None) in
  let res := demo_outcome JOB_STATUS_FAILED "" demo_fence in
  let '(e1, w1) := result_of failing None res demo_run in
  let '(e2, w2) := result_of allow_sc None res w1 in
  er_delay <$> e1 = Some (Some retryDelayPublish) /\ e2 = None /\
  forallb (fun ev => match ev with SvPublish subject _ _ None => negb (subject =s? SubjectDLQ) | _ => true end) (sw_trace w2) = true.
Proof. by vm_compute. Qed.

(** The check of the content denies an output that was to be redacted, and names a
    redacted copy: the job succeeds. *)
Definition redact_then_deny : OutputChecker :=
  let answer d ptr : list SEvent -> JobOutcome -> JobRequest -> result string OutputSafetyRecord :=
    fun _ _ _ => Ok (mkOutputRecord d "contains a secret" "r-9" "snap-1" "" ptr "" 5 1 "") in
  mkOutputChecker (answer OutputRedact "") (answer OutputDeny "res:redacted").

Theorem denied_redaction_succeeds :
  let '(e, w) := result_of allow_sc (Some redact_then_deny) (demo_outcome JOB_STATUS_SUCCEEDED "res:1" demo_fence) demo_run in
  e = None /\ GetState "job-a" (sw_store w) = Some JobStateSucceeded /\ GetOutputDecision "job-a" (sw_store w) = Ok OutputDeny.
Proof. by vm_compute. Qed.
