(* ===== verification/SchedulerResultTheorems.v ===== *)
(** * What holds of results

    A result that is applied leaves the job in the state it reports; what the output
    policy denies is quarantined and reported as denied; the two paths of a result,
    in and outside production, reach the same state; and in production an effect is
    acknowledged only after it was delivered. *)
From Stdlib Require Import Ascii.
From S2P Require Import Prelude.
From S2P Require Import GoStrings.
From S2P Require Import PolicyTypes.
From S2P Require Import JobRuntime.
From S2P Require Import JobStore.
From S2P Require Import GoValues.
From S2P Require Import Licensing.
From S2P Require Import WorkflowModels.
From S2P Require Import JobIdentity.
From S2P Require Import JobMeta.
From S2P Require Import JobApproval.
From S2P Require Import ApprovalTheorems.
From S2P Require Import SchedulerEnv.
From S2P Require Import Scheduler.
From S2P Require Import SchedulerLogic.
From S2P Require Import SchedulerTheorems.
From S2P Require Import SchedulerOnce.
From S2P Require Import SchedulerDemo.
From S2P Require Import SchedulerResult.
From S2P Require Import SchedulerResultDemo.

Open Scope string_scope.

(** ** Frames *)

(** What a computation leaves of the store, up to a preorder. *)
Definition frame (R : jredis -> jredis -> Prop) {A} (m : sched A) : Prop := forall w, R (sw_store w) (sw_store (m w).2).

(** The runtime hashes are the same. *)
Definition same_runtime (st st' : jredis) : Prop := forall j, hash_at st' (jobRuntimeKey j) = hash_at st (jobRuntimeKey j).

#[export] Instance same_runtime_preorder : PreOrder same_runtime.
Proof. split; [by intros st j|]. intros st1 st2 st3 H1 H2 j. by rewrite H2, H1. Qed.

Section Frames.
Context `{ProtoCodec} `{SchedEnv} (R : jredis -> jredis -> Prop) `{!PreOrder R}.

Lemma frame_ret {A} (a : A) : frame R (sret a).
Proof. intros w. reflexivity. Qed.
Lemma frame_bind {A B} (m : sched A) (k : A -> sched B) : frame R m -> (forall a, frame R (k a)) -> frame R (sbind m k).
Proof. intros Hm Hk w. unfold sbind. specialize (Hm w). destruct (m w) as [a w1]. etransitivity; [exact Hm|apply Hk]. Qed.
Lemma frame_same {A} (m : sched A) : keeps_store m -> frame R m.
Proof. intros Hm w. rewrite Hm. reflexivity. Qed.
Lemma frame_scall {A} name steps (op : jredis -> jredis * result StoreError A) :
  (forall st, Forall (R st) (steps st)) -> (forall st, R st (op st).1) -> frame R (scall name steps op).
Proof.
  intros Hs Ho w. destruct (scall_store name steps op w) as [[n ->]| ->]; [|apply Ho].
  destruct (nth_in_or_default n (steps (sw_store w)) (sw_store w)) as [Hin|Hd]; [|rewrite Hd; reflexivity].
  specialize (Hs (sw_store w)). rewrite List.Forall_forall in Hs. by apply Hs.
Qed.
Lemma frame_swrite name op : (forall st st', op st = Ok st' -> R st st') -> frame R (swrite name op).
Proof.
  intros Ho. apply frame_scall; intros st; [|by destruct (op st) eqn:E; [reflexivity|apply Ho]].
  repeat constructor; [reflexivity|]. destruct (op st) eqn:E; [reflexivity|by apply Ho].
Qed.

End Frames.

Section Theorems.
Context `{ProtoCodec} `{SchedEnv} `{ResultEnv}.

Lemma ks_ask {A} what (f : list SEvent -> A) : keeps_store (ask what f).
Proof. done. Qed.
Lemma ks_sread {A} name (get : jredis -> result StoreError A) : keeps_store (sread name get).
Proof. intros w. apply sread_store. Qed.
Lemma ks_dlq_and_done j s r c : keeps_store (dlq_and_done j s r c).
Proof. apply ks_bind; [apply ks_emitDLQWithRetry|done]. Qed.
Lemma ks_async j req : keeps_store (startAsyncOutputCheck j req).
Proof. apply ks_bind; [done|]. intros [c|]; [|done]. destruct req; [|done]. by destruct (j =s? ""). Qed.
Lemma ks_attach pkt : keeps_store (attachServiceToken pkt).
Proof. intros w. apply attach_frame. Qed.
Lemma ks_publish subject pkt : keeps_store (publish subject pkt).
Proof. done. Qed.

(** ** An applied result *)

(** The state of a job and the status reported about it agree. *)
Definition reports (res : JobOutcome) (state : string) : Prop :=
  if state =s? JobStateQuarantined
  then jo_Status res = JOB_STATUS_DENIED /\ jo_ErrorCodeEnum res = ERROR_CODE_SAFETY_DENIED
  else state = result_state (jo_Status res).

Lemma settle_done jobID state status res req record w r w' :
  settle_result jobID state status res req record w = (r, w') ->
  sw_store w' = sw_store w /\
  r.2 = if state =s? JobStateQuarantined
        then denyResultForOutputPolicy (or_text (TrimSpace (match record with Some r => os_Reason r | None => "" end)) "output quarantined by policy") res
        else res.
Proof.
  unfold settle_result. intros E. inv_bind E u w1 E1.
  assert (Hs : sw_store w1 = sw_store w).
  { destruct (state =s? JobStateSucceeded); [|by injection E1 as _ <-]. pose proof (ks_async jobID req w) as Hk. by rewrite E1 in Hk. }
  cbv zeta in E. destruct (state =s? JobStateQuarantined).
  - inv_bind E v w2 E2. inv_bind E e w3 E3. injection E as <- <-. split; [|done].
    pose proof (ks_dlq_and_done jobID JOB_STATUS_DENIED (or_text (TrimSpace (match record with Some r => os_Reason r | None => "" end))
      "output quarantined by policy") outputPolicyReason w2) as Hk. rewrite E3 in Hk. cbn [snd] in Hk. rewrite Hk, <- Hs. by injection E2 as _ <-.
  - destruct (_ && _); [|by injection E as <- <-]. inv_bind E e w3 E3. injection E as <- <-. split; [|done].
    pose proof (ks_dlq_and_done jobID status (jo_ErrorMessage res) (jo_ErrorCode res) w1) as Hk. rewrite E3 in Hk. by rewrite <- Hs.
Qed.

Lemma store_result_done jobID state status res req record w r w' :
  jobID <> "" -> store_result jobID state status res req record w = (r, w') -> r.1 = None ->
  GetState jobID (sw_store w') = Some state /\
  r.2 = if state =s? JobStateQuarantined
        then denyResultForOutputPolicy (or_text (TrimSpace (match record with Some r => os_Reason r | None => "" end)) "output quarantined by policy") res
        else res.
Proof.
  intros Hj. unfold store_result. intros E Hr. inv_bind E e w1 E1. destruct e as [e|]; [by injection E as <- _|].
  inv_bind E u w2 E2. inv_bind E v w3 E3. inv_bind E e w4 E4. destruct e as [e|]; [by injection E as <- _|].
  destruct (settle_done _ _ _ _ _ _ _ _ _ E) as [Hs ->]. split; [|done]. rewrite Hs. by eapply setJobState_done.
Qed.

(** The verdict on a success. *)
Lemma output_verdict_state jobID res req w state res' record w' :
  output_verdict jobID res req w = ((state, res', record), w') ->
  (state = JobStateSucceeded \/ state = JobStateQuarantined) /\ jo_Status res' = jo_Status res.
Proof.
  unfold output_verdict. intros E. inv_bind E r w1 E1. destruct (denies r); [injection E as <- <- _ _; auto|].
  destruct (_ =s? OutputRedact); [|injection E as <- <- _ _; auto]. inv_bind E r' w2 E2. cbv zeta in E. destruct (_ =s? "").
  - inv_bind E u w3 E3. injection E as <- <- _ _. auto.
  - inv_bind E u w3 E3. injection E as <- <- _ _. auto.
Qed.

Lemma apply_reports jobID res w r w' :
  jobID <> "" -> apply_result jobID res w = (r, w') -> r.1 = None ->
  exists state, GetState jobID (sw_store w') = Some state /\ reports r.2 state.
Proof.
  intros Hj. unfold apply_result. cbv zeta. intros E Hr. inv_bind E req w1 E1. inv_bind E u w2 E2.
  assert (Hother : jo_Status res <> JOB_STATUS_SUCCEEDED ->
    store_result jobID (result_state (jo_Status res)) (jo_Status res) res req None w2 = (r, w') ->
    exists state, GetState jobID (sw_store w') = Some state /\ reports r.2 state).
  { intros Hne Es. destruct (store_result_done _ _ _ _ _ _ _ _ _ Hj Es Hr) as [Hst Hr2]. exists (result_state (jo_Status res)).
    split; [done|]. unfold reports. rewrite Hr2. destruct (jo_Status res) eqn:Est; try done; cbn; by rewrite Est. }
  destruct (jo_Status res) eqn:Est; try (by apply Hother).
  inv_bind E v w3 E3. destruct v as [[state res'] record]. destruct (output_verdict_state _ _ _ _ _ _ _ _ E3) as [Hs Hst].
  destruct (store_result_done _ _ _ _ _ _ _ _ _ Hj E Hr) as [Hg ->]. exists state. split; [done|].
  unfold reports. destruct Hs as [->| ->]; cbn; [|done]. by rewrite Hst, Est.
Qed.

(** A check that denies makes a quarantine. *)
Lemma verdict_denied jobID res req checker w state res' record w' :
  r_outputSafety = Some checker -> (forall tr, r_outputEnabled tr = true) ->
  (forall tr, exists rec, oc_Meta checker tr res req = Ok rec /\ denies rec = true) ->
  output_verdict jobID res (Some req) w = ((state, res', record), w') -> state = JobStateQuarantined.
Proof.
  intros Hc Hon Hd. unfold output_verdict. intros E. inv_bind E r w1 E1.
  assert (Hr : denies r = true).
  { unfold checkOutputSafety in E1. inv_bind E1 now w2 E2. inv_bind E1 policy w3 E3.
    assert (policy = Some checker) as -> by (unfold output_policy in E3; inv_bind E3 on w4 E4; injection E4 as <- _; injection E3 as <- _; by rewrite Hon, Hc).
    inv_bind E1 answer w4 E4. injection E4 as <- _. inv_bind E1 el w5 E5. destruct (Hd (sw_trace w3)) as (rec & Hm & Hden).
    rewrite Hm in E1. cbv zeta in E1. inv_bind E1 u w6 E6. injection E1 as <- _. unfold denies, checked_record in *. cbn [os_Decision].
    destruct (os_Decision rec =s? "") eqn:E0; [apply String.eqb_eq in E0; by rewrite E0 in Hden|done]. }
  rewrite Hr in E. by injection E as <- _ _ _.
Qed.


(** ** The two paths *)

(** What is reported outside production about a verdict. *)
Definition compat_report (v : string * JobOutcome * OutputSafetyRecord) : JobOutcome :=
  let '(state, res, record) := v in if state =s? JobStateQuarantined then denyResultForOutputPolicy (os_Reason record) res else res.

(** The two paths of a result agree.  For the same success, request and answers
    of the output policy, the path in production and the path outside it reach the
    same state and report the same status and error code, with the same pointer up to
    surrounding blanks. *)
Theorem result_paths_agree res req w :
  let v := (output_verdict (jo_JobId res) res (Some req) w).1 in
  let '(state, res', ptr) := (production_verdict res req w).1 in
  v.1.1 = state /\ jo_Status (compat_report v) = jo_Status res' /\ jo_ErrorCode (compat_report v) = jo_ErrorCode res' /\
  jo_ErrorCodeEnum (compat_report v) = jo_ErrorCodeEnum res' /\ TrimSpace (jo_ResultPtr (compat_report v)) = TrimSpace ptr.
Proof.
  unfold output_verdict, production_verdict, sbind. destruct (checkOutputSafety (jo_JobId res) res (Some req) w) as [record w1].
  destruct (denies record); [done|]. destruct (_ =s? OutputRedact); [|done].
  destruct (materializeRedaction res (Some req) record w1) as [after w2]. cbv zeta.
  destruct (TrimSpace (os_RedactedPtr after) =s? "").
  - by destruct (persistOutputSafety _ (set_os_Reason _ _) w2), (persistOutputSafety _ after w2).
  - match goal with |- context [(if record_changed record after then ?a else ?b) w2] => destruct ((if record_changed record after then a else b) w2) end.
    destruct (persistOutputSafety _ after w2). do 4 (split; [done|]). apply TrimSpace_idem.
Qed.

(** ** Effects *)

(** A result that the bus took on a subject. *)
Definition on_stream (subject : string) (P : JobOutcome -> Prop) (ev : SEvent) : Prop :=
  match ev with
  | SvPublish s pkt _ None => s = subject /\ match sp_Payload pkt with SJobResult r => P r | _ => False end
  | _ => False
  end.

(** A result under the name of the scheduler. *)
Definition as_scheduler (res r : JobOutcome) : Prop :=
  r = mkJobOutcome (jo_JobId res) (jo_Status res) (jo_ErrorCode res) (jo_ErrorCodeEnum res) (jo_ErrorMessage res) (jo_ResultPtr res) defaultSenderID
        (jo_Identity res) (jo_Dispatch res).

(** The trace grows by events of which [Q] holds. *)
Definition emits (Q : list SEvent -> Prop) (w w' : SWorld) : Prop := exists evs, sw_trace w' = (sw_trace w ++ evs)%list /\ Q evs.

Lemma emits_after (Q : SEvent -> Prop) w1 w2 w3 :
  emits (fun _ => True) w1 w2 -> emits (Exists Q) w2 w3 -> emits (Exists Q) w1 w3.
Proof.
  intros (e1 & T1 & _) (e2 & T2 & HQ). exists (e1 ++ e2)%list. split; [rewrite T2, T1; by rewrite <- app_assoc|].
  apply Exists_app. by right.
Qed.

Lemma emits_before (Q : list SEvent -> Prop) w1 w2 w3 :
  (forall evs more, Q evs -> Q (evs ++ more)%list) -> emits Q w1 w2 -> emits (fun _ => True) w2 w3 -> emits Q w1 w3.
Proof.
  intros Hm (e1 & T1 & HQ) (e2 & T2 & _). exists (e1 ++ e2)%list. split; [rewrite T2, T1; by rewrite <- app_assoc|auto].
Qed.

Lemma emits_trans w1 w2 w3 : emits (fun _ => True) w1 w2 -> emits (fun _ => True) w2 w3 -> emits (fun _ => True) w1 w3.
Proof. intros (e1 & T1 & _) (e2 & T2 & _). exists (e1 ++ e2)%list. split; [rewrite T2, T1; by rewrite <- app_assoc|done]. Qed.

Lemma quiet_emits {A} (m : sched A) w : quiet m -> emits (fun _ => True) w (m w).2.
Proof. intros Hq. destruct (Hq w) as (evs & T & _). by exists evs. Qed.

Lemma quiet_emits_to {A} (m : sched A) w a w1 : quiet m -> m w = (a, w1) -> emits (fun _ => True) w w1.
Proof. intros Hq E. pose proof (quiet_emits m w Hq) as Hx. by rewrite E in Hx. Qed.

Lemma publish_done subject pkt res w w1 :
  sp_Payload pkt = SJobResult res -> publish subject pkt w = (None, w1) -> emits (Exists (on_stream subject (fun r => r = res))) w w1.
Proof.
  intros Hp E. exists [SvPublish subject pkt (sw_store w) (s_publish (sw_trace w) subject)].
  unfold publish, sbind, strace, sstore, slog, sret in E. injection E as En <-. split; [done|]. apply Exists_cons_hd. cbn.
  destruct (s_publish (sw_trace w) subject); [done|]. by rewrite Hp.
Qed.

Lemma accepted_done subject pkt res w w1 :
  sp_Payload pkt = SJobResult res -> publishSchedulerAcceptedPacket subject pkt w = (None, w1) ->
  emits (Exists (on_stream subject (as_scheduler res))) w w1.
Proof.
  intros Hp. unfold publishSchedulerAcceptedPacket. rewrite Hp. cbv zeta. intros E. inv_bind E trusted w2 E1. inv_bind E e w3 E2.
  injection E as Ee <-. destruct e as [e|]; [discriminate Ee|].
  match type of E1 with attachServiceToken ?p w = _ => destruct (attach_frame p w) as [Hpl _]; pose proof (quiet_emits_to _ _ _ _ (quiet_attach p) E1) as He end.
  rewrite E1 in Hpl. eapply emits_after; [exact He|]. by eapply publish_done.
Qed.

Lemma emitDLQ_done j s r c w w1 :
  j <> "" -> emitDLQ j s r c w = (None, w1) -> emits (Exists (on_stream SubjectDLQ (fun o => jo_JobId o = j /\ jo_Status o = s))) w w1.
Proof.
  intros Hj. unfold emitDLQ. rewrite eqb_ne by done. intros E. inv_bind E now w2 E1. inv_bind E sink w3 E2. destruct sink; [discriminate E|].
  inv_bind E ib w4 E3. destruct ib as [e|ib]; [discriminate E|]. eapply emits_after.
  - eapply emits_trans; [exact (quiet_emits_to _ _ _ _ quiet_snow E1)|]. eapply emits_trans; [|exact (quiet_emits_to _ _ _ _ (quiet_identity j) E3)].
    eapply quiet_emits_to; [|exact E2]. quiet_tac.
  - eapply publish_done in E; [|reflexivity]. destruct E as (evs & T & Q). exists evs. split; [done|]. eapply Exists_impl; [exact Q|].
    intros [| | | | | | | | | |s' p st [m|]]; cbn; try tauto. intros [-> Hx]. split; [done|]. destruct (sp_Payload p); try done. by rewrite Hx.
Qed.

Lemma dlq_done j s r c w w1 :
  j <> "" -> dlq_and_done j s r c w = (None, w1) -> emits (Exists (on_stream SubjectDLQ (fun o => jo_JobId o = j /\ jo_Status o = s))) w w1.
Proof.
  intros Hj. unfold dlq_and_done, emitDLQWithRetry. intros E. inv_bind E e w2 E1. destruct e as [e|]; [discriminate E|].
  injection E as <-. inv_bind E1 e w3 E2. destruct e as [e|].
  - inv_bind E1 down w4 E3. destruct down; [discriminate E1|]. eapply emits_after; [|by eapply emitDLQ_done].
    eapply emits_trans; [exact (quiet_emits_to _ _ _ _ (quiet_emitDLQ j s r c) E2)|]. exact (quiet_emits_to _ _ _ _ (quiet_ask _ _) E3).
  - injection E1 as <-. by eapply emitDLQ_done.
Qed.

(** What an effect stands for, and its delivery. *)
Definition delivered_effect (effect : JobEffect) (evs : list SEvent) : Prop :=
  exists envelope pkt res,
    effect_of_json (e_Payload effect) = Some envelope /\ packet_of_wire (de_Packet envelope) = Some pkt /\ sp_Payload pkt = SJobResult res /\
    Exists (on_stream SubjectAcceptedResult (as_scheduler res)) evs /\
    (de_State envelope ∉ [JobStateSucceeded; JobStateRetrying] -> e_JobID effect <> "" ->
     Exists (on_stream SubjectDLQ (fun o => jo_JobId o = e_JobID effect)) evs).

Definition effect_of (st : jredis) (j x : string) : option string := hash_at st (jobRuntimeKey j) !! (runtimeEffectPrefix +:+ x).

(** A step leaves the effects of every job alone. *)
Lemma same_runtime_effect st st' j x : same_runtime st st' -> effect_of st' j x = effect_of st j x.
Proof. intros Hs. unfold effect_of. by rewrite Hs. Qed.

Lemma frame_agent j worker : frame same_runtime (setAgentInfoFromWorker j worker).
Proof.
  unfold setAgentInfoFromWorker. destruct s_agent as [f|]; [|apply frame_ret, _]. destruct (_ || _); [apply frame_ret, _|].
  apply frame_bind; [apply _|apply frame_same; [apply _|done]|]. intros [[i n] t]. apply frame_bind; [apply _| |intros; apply frame_ret, _].
  apply frame_swrite; [apply _|]. intros st st' <-%Ok_inj k. unfold SetAgentInfo. destruct (_ || _); [done|].
  rewrite hash_at_HSet, decide_False; [done|]. intros Hx. symmetry in Hx. by apply meta_not_runtime in Hx.
Qed.

Lemma frame_project now j s ptr worker : frame same_runtime (swrite "ProjectJobResult" (ProjectJobResult now j s ptr worker)).
Proof.
  apply frame_swrite; [apply _|]. intros st st' E k. apply (ProjectJobResult_hash _ _ _ _ _ _ _ _ E).
  intros Hx. symmetry in Hx. by apply meta_not_runtime in Hx.
Qed.

Lemma ks_load j : keeps_store (loadDurableJobRequest j).
Proof. apply ks_bind; [apply ks_sread|done]. Qed.
Lemma ks_saga res : keeps_store (processDurableSaga res).
Proof.
  unfold processDurableSaga. destruct r_saga as [[rc rb]|]; [|done]. apply ks_bind; [apply ks_load|]. intros [e|req]; [done|].
  destruct (jo_Status res); try done. cbv zeta. destruct (saga_workflow _ =s? ""); done.
Qed.
Lemma ks_accepted subject pkt : keeps_store (publishSchedulerAcceptedPacket subject pkt).
Proof. apply ks_bind; [apply ks_attach|]. intros p. by apply ks_bind. Qed.
Lemma ks_failure j effect res : keeps_store (processDurableFailure j effect res).
Proof.
  unfold processDurableFailure. destruct (_ || _); [done|]. destruct (_ =s? _); [|apply ks_dlq_and_done].
  apply ks_bind; [done|intros; apply ks_dlq_and_done].
Qed.
Lemma ks_durable_async j effect : keeps_store (startDurableAsyncOutputCheck j effect).
Proof.
  unfold startDurableAsyncOutputCheck. destruct (negb _); [done|]. apply ks_bind; [done|]. intros [c|]; [|done].
  apply ks_bind; [apply ks_load|]. intros [e|req]; [done|]. apply ks_bind; [apply ks_async|done].
Qed.

Lemma quiet_load j : quiet (loadDurableJobRequest j).
Proof. unfold loadDurableJobRequest. quiet_tac. Qed.
#[local] Hint Resolve quiet_load : quiet.
Lemma quiet_agent j worker : quiet (setAgentInfoFromWorker j worker).
Proof. unfold setAgentInfoFromWorker. quiet_tac. Qed.
Lemma quiet_saga res : quiet (processDurableSaga res).
Proof. unfold processDurableSaga. quiet_tac. Qed.
Lemma quiet_async j req : quiet (startAsyncOutputCheck j req).
Proof. unfold startAsyncOutputCheck, output_policy. quiet_tac. Qed.
#[local] Hint Resolve quiet_async : quiet.
Lemma quiet_durable_async j effect : quiet (startDurableAsyncOutputCheck j effect).
Proof. unfold startDurableAsyncOutputCheck, output_policy. quiet_tac. Qed.
Lemma quiet_ack effect : quiet (ack_effect effect).
Proof. unfold ack_effect. quiet_tac. Qed.
Lemma quiet_failure j effect res : quiet (processDurableFailure j effect res).
Proof. unfold processDurableFailure, emitOutputAuditEvent. quiet_tac. Qed.
Lemma quiet_accepted subject pkt res : sp_Payload pkt = SJobResult res -> quiet (publishSchedulerAcceptedPacket subject pkt).
Proof.
  intros Hp. unfold publishSchedulerAcceptedPacket. rewrite Hp. apply quiet_attached. intros p Hpl.
  apply quiet_bind; [|auto with quiet nocore]. apply quiet_publish. by rewrite Hpl.
Qed.

(** Acknowledging removes one effect of one job. *)
Lemma ack_removes effect st st' b j x :
  AckJobEffect effect st = Ok (st', b) -> effect_of st' j x <> effect_of st j x -> j = e_JobID effect /\ x = e_EventID effect.
Proof.
  unfold AckJobEffect. destruct (_ || _); [done|]. destruct (ackJobEffectScript _ effect) as [h r] eqn:E. intros [= <- _].
  unfold effect_of. rewrite hash_at_put. destruct (decide (jobRuntimeKey j = jobRuntimeKey (e_JobID effect))) as [Hk|]; [|done].
  apply runtime_key_inj in Hk as ->. intros Hne. split; [done|]. revert E Hne. unfold ackJobEffectScript.
  destruct (negb _); intros [= <- _]; [done|]. destruct (decide (runtimeEffectPrefix +:+ e_EventID effect = runtimeEffectPrefix +:+ x)) as [Hx|].
  - intros _. symmetry. by apply (inj (String.append runtimeEffectPrefix)) in Hx.
  - by rewrite lookup_delete_ne.
Qed.

Lemma ack_effect_store effect w j x :
  effect_of (sw_store (ack_effect effect w).2) j x <> effect_of (sw_store w) j x -> j = e_JobID effect /\ x = e_EventID effect.
Proof.
  unfold ack_effect, sbind at 1.
  match goal with |- context [scall ?n ?st ?op w] => pose proof (scall_store n st op w) as Hst; destruct (scall n st op w) as [r w2] end.
  cbn [snd sret] in *. assert (Hcase : sw_store w2 = sw_store w \/ exists st' b, AckJobEffect effect (sw_store w) = Ok (st', b) /\ sw_store w2 = st').
  { destruct Hst as [[n ->]| ->].
    - destruct n as [|[|[|n]]]; cbn; auto. destruct (AckJobEffect effect (sw_store w)) as [e|[st' b]]; eauto.
    - destruct (AckJobEffect effect (sw_store w)) as [e|[st' b]]; eauto. }
  destruct Hcase as [->|(st' & b & E & ->)]; [done|]. by eapply ack_removes.
Qed.

(** Leaving early, or going on. *)
Lemma leave_step (G : SWorld -> Prop) m k w :
  (forall e w1, m w = (Some e, w1) -> G w1) -> (forall w1, m w = (None, w1) -> G (k w1).2) -> G (or_leave m k w).2.
Proof. intros He Hk. unfold or_leave, sbind. destruct (m w) as [[e|] w1]; [by eapply He|by apply Hk]. Qed.
Lemma retry_step (G : SWorld -> Prop) d m k w :
  (forall e w1, m w = (Some e, w1) -> G w1) -> (forall w1, m w = (None, w1) -> G (k w1).2) -> G (or_retry d m k w).2.
Proof. intros He Hk. unfold or_retry, sbind. destruct (m w) as [[e|] w1]; [by eapply He|by apply Hk]. Qed.
Lemma ok_step {A} (G : SWorld -> Prop) (m : sched (result serror A)) f k w :
  (forall e w1, m w = (Err e, w1) -> G w1) -> (forall a w1, m w = (Ok a, w1) -> G (k a w1).2) -> G (on_ok m f k w).2.
Proof. intros He Hk. unfold on_ok, sbind. destruct (m w) as [[e|a] w1]; [by eapply He|by apply Hk]. Qed.

Lemma frame_to {A} (R : jredis -> jredis -> Prop) (m : sched A) w a w1 : frame R m -> m w = (a, w1) -> R (sw_store w) (sw_store w1).
Proof. intros Hf E. specialize (Hf w). by rewrite E in Hf. Qed.

(** Where a run of an effect stands: nothing removed yet, the trace grown. *)
Definition so_far (w w1 : SWorld) : Prop := same_runtime (sw_store w) (sw_store w1) /\ emits (fun _ => True) w w1.

Lemma so_far_refl w : so_far w w.
Proof. split; [reflexivity|]. exists []. by rewrite app_nil_r. Qed.

Lemma so_far_step {A} (m : sched A) w0 w a w1 : frame same_runtime m -> quiet m -> so_far w0 w -> m w = (a, w1) -> so_far w0 w1.
Proof.
  intros Hf Hq [Hr He] E. split; [|eapply emits_trans; [exact He|by eapply quiet_emits_to]].
  etransitivity; [exact Hr|by eapply frame_to].
Qed.

(** An effect that is gone was the one worked off, and was delivered. *)
Definition removal (effect : JobEffect) (j x : string) (w w' : SWorld) : Prop :=
  emits (fun evs => effect_of (sw_store w') j x <> effect_of (sw_store w) j x ->
                    (j = e_JobID effect /\ x = e_EventID effect) /\ delivered_effect effect evs) w w'.

Lemma so_far_removal effect j x w w1 : so_far w w1 -> removal effect j x w w1.
Proof. intros [Hr (evs & T & _)]. exists evs. split; [done|]. by rewrite (same_runtime_effect _ _ j x Hr). Qed.

Lemma failure_done effect envelope res w w1 :
  processDurableFailure (e_JobID effect) envelope res w = (None, w1) ->
  emits (fun evs => de_State envelope ∉ [JobStateSucceeded; JobStateRetrying] -> e_JobID effect <> "" ->
                    Exists (on_stream SubjectDLQ (fun o => jo_JobId o = e_JobID effect)) evs) w w1.
Proof.
  intros E. destruct (decide (e_JobID effect = "")) as [Hj|Hj].
  { destruct (quiet_emits_to _ _ _ _ (quiet_failure _ _ _) E) as (evs & T & _). exists evs. by split. }
  revert E. unfold processDurableFailure. destruct (_ || _) eqn:Es.
  { intros [= <-]. exists []. rewrite app_nil_r. split; [done|]. intros Hs. exfalso. apply Hs.
    apply orb_true_iff in Es as [->%String.eqb_eq| ->%String.eqb_eq]; set_solver. }
  assert (Hany : forall status reason code w2, dlq_and_done (e_JobID effect) status reason code w2 = (None, w1) ->
    emits (Exists (on_stream SubjectDLQ (fun o => jo_JobId o = e_JobID effect))) w2 w1).
  { intros status reason code w2 E. apply dlq_done in E as (evs & T & Q); [|done]. exists evs. split; [done|]. eapply Exists_impl; [exact Q|].
    intros [| | | | | | | | | |s' p st [m|]]; cbn; try tauto. intros [-> Hx]. split; [done|]. destruct (sp_Payload p); [done| |done]. apply Hx. }
  intros E. assert (Hx : emits (Exists (on_stream SubjectDLQ (fun o => jo_JobId o = e_JobID effect))) w w1).
  { destruct (de_State envelope =s? JobStateQuarantined); [|by eapply Hany]. inv_bind E u w2 E1. eapply emits_after; [|by eapply Hany].
    eapply quiet_emits_to; [|exact E1]. by apply quiet_log. }
  destruct Hx as (evs & T & Q). by exists evs.
Qed.

Lemma effect_removal effect j x w : removal effect j x w (processDurableJobEffect effect w).2.
Proof.
  unfold processDurableJobEffect. destruct (effect_of_json _) as [envelope|] eqn:Ee; [|apply so_far_removal, so_far_refl].
  destruct (packet_of_wire _) as [pkt|] eqn:Ep; [|apply so_far_removal, so_far_refl].
  destruct (sp_Payload pkt) as [|res|] eqn:Epl; try (apply so_far_removal, so_far_refl).
  unfold sbind at 1. destruct (snow w) as [now w1] eqn:E1.
  assert (S1 : so_far w w1) by (eapply (so_far_step snow); [apply frame_same; [apply _|done]|apply quiet_snow|apply so_far_refl|exact E1]).
  apply ok_step; [intros e w2 E2|intros u w2 E2];
    (assert (S2 : so_far w w2) by (eapply so_far_step; [apply frame_project|apply quiet_swrite|exact S1|exact E2])); [by apply so_far_removal|].
  unfold sbind at 1. destruct (setAgentInfoFromWorker (e_JobID effect) (TrimSpace (jo_WorkerId res)) w2) as [v w3] eqn:E3.
  assert (S3 : so_far w w3) by (eapply so_far_step; [apply frame_agent|apply quiet_agent|exact S2|exact E3]).
  apply retry_step; [intros e w4 E4|intros w4 E4];
    (assert (S4 : so_far w w4) by (eapply so_far_step; [apply frame_same; [apply _|apply ks_saga]|apply quiet_saga|exact S3|exact E4])); [by apply so_far_removal|].
  apply leave_step; [intros e w5 E5|intros w5 E5];
    (assert (S5 : so_far w w5) by (eapply so_far_step; [apply frame_same; [apply _|apply ks_accepted]|by eapply quiet_accepted|exact S4|exact E5])); [by apply so_far_removal|].
  apply (accepted_done _ _ _ _ _ Epl) in E5 as A5.
  apply leave_step; [intros e w6 E6|intros w6 E6];
    (assert (S6 : so_far w w6) by (eapply so_far_step; [apply frame_same; [apply _|apply ks_failure]|apply quiet_failure|exact S5|exact E6])); [by apply so_far_removal|].
  apply failure_done in E6 as A6.
  apply retry_step; [intros e w7 E7|intros w7 E7];
    (assert (S7 : so_far w w7) by (eapply so_far_step; [apply frame_same; [apply _|apply ks_durable_async]|apply quiet_durable_async|exact S6|exact E7])); [by apply so_far_removal|].
  pose proof (quiet_emits_to _ _ _ _ (quiet_durable_async _ _) E7) as A7. pose proof (quiet_emits _ w7 (quiet_ack effect)) as A8.
  pose proof (ack_effect_store effect w7 j x) as Hack. rewrite (same_runtime_effect _ _ j x (proj1 S7)) in Hack.
  destruct (proj2 S4) as (t4 & T4 & _), A5 as (t5 & T5 & Q5), A6 as (t6 & T6 & Q6), A7 as (t7 & T7 & _), A8 as (t8 & T8 & _).
  exists (t4 ++ t5 ++ t6 ++ t7 ++ t8)%list. split; [rewrite T8, T7, T6, T5, T4; by rewrite <- !app_assoc|]. intros Hne. split; [by apply Hack|].
  exists envelope, pkt, res. do 3 (split; [done|]). rewrite !Exists_app. split; [tauto|]. intros Hs Hj. specialize (Q6 Hs Hj). tauto.
Qed.

Lemma delivered_within effect l evs r : delivered_effect effect evs -> delivered_effect effect (l ++ evs ++ r)%list.
Proof.
  intros (envelope & pkt & res & D1 & D2 & D3 & Ha & Hd). exists envelope, pkt, res. do 3 (split; [done|]).
  split; [rewrite !Exists_app; tauto|]. intros Hs Hj. rewrite !Exists_app. specialize (Hd Hs Hj). tauto.
Qed.

Lemma drained effects j x w :
  emits (fun evs => effect_of (sw_store (process_effects effects w).2) j x <> effect_of (sw_store w) j x ->
                    exists effect, effect ∈ effects /\ j = e_JobID effect /\ x = e_EventID effect /\ delivered_effect effect evs)
    w (process_effects effects w).2.
Proof.
  revert w. induction effects as [|effect effects IH]; intros w; cbn [process_effects].
  { exists []. rewrite app_nil_r. by split. }
  pose proof (effect_removal effect j x w) as (e1 & T1 & Q1). unfold or_leave, sbind.
  destruct (processDurableJobEffect effect w) as [[e|] w1]; cbn [snd sret] in *.
  - exists e1. split; [done|]. intros Hne. exists effect. destruct (Q1 Hne) as [[-> ->] Hd]. split; [by left|]. done.
  - destruct (IH w1) as (e2 & T2 & Q2). exists (e1 ++ e2)%list. split; [rewrite T2, T1; by rewrite <- app_assoc|]. intros Hne.
    destruct (decide (effect_of (sw_store w1) j x = effect_of (sw_store w) j x)) as [Heq|Hx].
    + rewrite <- Heq in Hne. destruct (Q2 Hne) as (f & Hf & Hj & Hfx & Hd). exists f. split; [by right|]. do 2 (split; [done|]).
      rewrite <- (app_nil_r e2). by apply delivered_within.
    + exists effect. destruct (Q1 Hx) as [[-> ->] Hd]. split; [by left|]. do 2 (split; [done|]). by apply (delivered_within _ []).
Qed.


End Theorems.

(** ** Witness *)

#[local] Existing Instance ex_codec.

(** The success of a denied output. *)
Definition demo_denier : OutputChecker :=
  mkOutputChecker (fun _ _ _ => Ok (mkOutputRecord OutputDeny "contains a secret" "r-9" "snap-1" "" "" "" 5 1 ""))
    (fun _ _ _ => Err "unavailable").

Definition demo_applied : (option serror * JobOutcome) * SWorld :=
  @apply_result ex_codec (demo_env allow_sc) (plain_results (Some demo_denier)) "job-a" (demo_outcome JOB_STATUS_SUCCEEDED "res:1" None) demo_run.

