(* ===== verification/SchedulerWorkers.v ===== *)
(** * Workers: the registry, the choice of one, the circuit breaker

    core/controlplane/scheduler: registry_memory.go with readiness.go (heartbeats,
    handshakes and what they make of a worker), routing.go and
    strategy_least_loaded.go (the least loaded worker of the pools of a topic), and
    circuit_breaker.go (the failures shared through redis, with a local fallback).

    Times are nanoseconds; [None] is the zero time.  The agent names shown to users,
    the observers of the registry, its mutex and the goroutine that calls [expire]
    are left out. *)
From Stdlib Require Import Ascii.
From S2P Require Import Prelude.
From S2P Require Import GoStrings.
From S2P Require Import PolicyTypes.
From S2P Require Import GoValues.
From S2P Require Import WorkflowModels.
From S2P Require Import SchedulerEnv.

Open Scope string_scope.

(** ** The registry *)

(** [now.Sub(t)], which saturates. *)
Definition time_sub (now : Z) (t : option Z) : Z :=
  match t with None => int64_max | Some t => Z.min int64_max (Z.max int64_min (now - t)) end.

Record workerEntry := mkEntry_ {
  we_hb : option Heartbeat;
  we_trusted : bool;
  we_ready : bool;
  we_readyTopics : list string;
  we_readyAt : option Z;
  we_lastSeen : option Z;
  we_handshakeSeen : option Z;
}.

Definition registry : Type := gmap string workerEntry.

Definition set_hb (hb : Heartbeat) (now : Z) (e : workerEntry) : workerEntry :=
  mkEntry_ (Some hb) (we_trusted e) (we_ready e) (we_readyTopics e) (we_readyAt e) (Some now) (we_handshakeSeen e).
Definition new_hb (hb : Heartbeat) (now : Z) : workerEntry := mkEntry_ (Some hb) false false [] None (Some now) None.

Definition clearReadiness (e : workerEntry) : workerEntry :=
  mkEntry_ (we_hb e) (we_trusted e) false [] None (we_lastSeen e) (we_handshakeSeen e).

Definition UpdateHeartbeat (now : Z) (hb : Heartbeat) (r : registry) : registry :=
  <[hb_WorkerId hb := match r !! hb_WorkerId hb with Some e => set_hb hb now e | None => new_hb hb now end]> r.

(** Also: whether no worker of the pool was fresh before. *)
Definition UpdateHeartbeatWithTransition (ttl now : Z) (hb : Heartbeat) (r : registry) : registry * bool :=
  let fresh kv := match we_hb (snd kv) with
                  | Some h => (hb_Pool h =s? hb_Pool hb) && (time_sub now (we_lastSeen (snd kv)) <=? ttl)%Z
                  | None => false
                  end in
  (UpdateHeartbeat now hb r, negb (existsb fresh (map_to_list r))).

Fixpoint sanitize (seen topics : list string) : list string :=
  match topics with
  | [] => []
  | t :: topics =>
      let t := TrimSpace t in
      if (t =s? "") || bool_decide (t ∈ seen) then sanitize seen topics else t :: sanitize (t :: seen) topics
  end.
Definition sanitizeReadyTopics (topics : list string) : list string := sanitize [] topics.

(** [topics] are the ready topics the handshake carries. *)
Definition UpdateHandshakeTrust (now : Z) (componentID : string) (topics : list string) (trusted : bool) (r : registry) : registry :=
  if componentID =s? "" then r
  else
    let old := r !! componentID in
    if (match old with Some e => we_trusted e | None => false end) && negb trusted then r
    else
      let e := match old with
               | Some e => mkEntry_ (we_hb e) trusted (we_ready e) (we_readyTopics e) (we_readyAt e) (we_lastSeen e) (Some now)
               | None => mkEntry_ None trusted false [] None None (Some now)
               end in
      let topics := sanitizeReadyTopics topics in
      let e := if negb trusted || bool_decide (topics = []) then clearReadiness e
               else mkEntry_ (we_hb e) trusted true topics (Some now) (we_lastSeen e) (we_handshakeSeen e) in
      <[componentID := e]> r.

Definition fresh_heartbeat (ttl now : Z) (e : workerEntry) : option Heartbeat :=
  match we_hb e with Some hb => if (ttl <? time_sub now (we_lastSeen e))%Z then None else Some hb | None => None end.

Definition Snapshot (ttl now : Z) (r : registry) : gmap string Heartbeat := omap (fresh_heartbeat ttl now) r.
Definition SnapshotAll (r : registry) : gmap string Heartbeat := omap we_hb r.

Definition WorkersForPool `{GoRuntime} (ttl now : Z) (pool : string) (r : registry) : list Heartbeat :=
  List.filter (fun hb => hb_Pool hb =s? pool) (omap (fun kv => fresh_heartbeat ttl now (snd kv)) (range_map r)).

(** How many workers are fresh, and how many in each pool. *)
Definition Stats (ttl now : Z) (r : registry) : Z * gmap string Z :=
  let fresh := omap (fun kv => fresh_heartbeat ttl now (snd kv)) (map_to_list r) in
  (Z.of_nat (length fresh),
   foldl (fun m hb => let pool := if hb_Pool hb =s? "" then "(none)" else hb_Pool hb in <[pool := (default 0 (m !! pool) + 1)%Z]> m) ∅ fresh).

Definition readinessActive (readyTTL now : Z) (e : workerEntry) : bool :=
  we_ready e && negb (bool_decide (we_readyTopics e = [])) && (0 <? readyTTL)%Z && bool_decide (we_readyAt e <> None)
  && (time_sub now (we_readyAt e) <=? readyTTL)%Z.

Definition readinessExpired (readyTTL now : Z) (e : workerEntry) : bool :=
  we_ready e && (0 <? readyTTL)%Z && bool_decide (we_readyAt e <> None) && (readyTTL <? time_sub now (we_readyAt e))%Z.

Definition readiness_of (ttl readyTTL now : Z) (e : workerEntry) : option WorkerReadiness :=
  match fresh_heartbeat ttl now e with
  | None => None
  | Some _ => Some (if readinessActive readyTTL now e then mkReadiness true (we_trusted e) (we_readyTopics e) else mkReadiness false (we_trusted e) [])
  end.
Definition ReadinessSnapshot (ttl readyTTL now : Z) (r : registry) : gmap string WorkerReadiness := omap (readiness_of ttl readyTTL now) r.

Definition IsAlive (ttl now : Z) (workerID : string) (r : registry) : bool :=
  match r !! workerID with
  | Some e => match we_hb e with Some _ => (time_sub now (we_lastSeen e) <=? ttl)%Z | None => false end
  | None => false
  end.

Definition expired (ttl now : Z) (e : workerEntry) : bool :=
  match we_hb e with
  | Some _ => bool_decide (we_lastSeen e = None) || (ttl <? time_sub now (we_lastSeen e))%Z
  | None => bool_decide (we_handshakeSeen e = None) || (ttl <? time_sub now (we_handshakeSeen e))%Z
  end.

Definition expire (ttl readyTTL now : Z) (r : registry) : registry :=
  omap (fun e => if expired ttl now e then None else Some (if readinessExpired readyTTL now e then clearReadiness e else e)) r.

(** The workers of a decoded snapshot. *)
Definition HydrateFromSnapshot (now : Z) (workers : list Heartbeat) (r : registry) : registry :=
  foldl (fun r hb => if hb_WorkerId hb =s? "" then r else <[hb_WorkerId hb := new_hb hb now]> r) r workers.

Definition workerReadyForTopic (state : WorkerReadiness) (topic : string) : bool :=
  if negb (wr_Ready state) then false
  else let topic := TrimSpace topic in
       if topic =s? "" then false else existsb (fun t => TrimSpace t =s? topic) (wr_ReadyTopics state).

(** ** The least loaded worker *)

Record PoolRouting := mkRouting { rt_Topics : gmap string (list string); rt_Pools : gmap string (list string) }.

(** Go's float32. *)
Definition float32_of_int (z : Z) : spec_float := binary_normalize 24 128 z 0 false.
Definition float32_100 : spec_float := float32_of_int 100.
Definition float32_90 : spec_float := float32_of_int 90.
(** 0.9, rounded. *)
Definition overloadUtilizationThreshold : spec_float := S754_finite false 15099494 (-24).

Definition loadScore (hb : Heartbeat) : spec_float :=
  SFadd 24 128 (SFadd 24 128 (float32_of_int (hb_ActiveJobs hb)) (SFdiv 24 128 (hb_CpuLoad hb) float32_100))
    (SFdiv 24 128 (hb_GpuUtilization hb) float32_100).

Definition isOverloaded (hb : Heartbeat) : bool :=
  ((0 <? hb_MaxParallelJobs hb)%Z
   && SFleb overloadUtilizationThreshold (SFdiv 24 128 (float32_of_int (hb_ActiveJobs hb)) (float32_of_int (hb_MaxParallelJobs hb))))
  || SFleb float32_90 (hb_CpuLoad hb) || SFleb float32_90 (hb_GpuUtilization hb).

Definition filterPlacementLabels (labels : gmap string string) : gmap string string :=
  filter (fun kv => HasPrefix (fst kv) "placement." || HasPrefix (fst kv) "constraint." || HasPrefix (fst kv) "node.") labels.

Definition matchesLabels (hb : Heartbeat) (required : gmap string string) : bool :=
  bool_decide (required = ∅)
  || (negb (bool_decide (hb_Labels hb = ∅)) && forallb (fun kv => get_str (hb_Labels hb) (fst kv) =s? snd kv) (map_to_list required)).

Definition poolSatisfies (poolRequires jobRequires : list string) : bool :=
  bool_decide (jobRequires = [])
  || (negb (bool_decide (poolRequires = []))
      && (let set := map (fun r => ToLower (TrimSpace r)) poolRequires in
          forallb (fun r => let need := ToLower (TrimSpace r) in (need =s? "") || bool_decide (need ∈ set)) jobRequires)).

Definition filterEligiblePools (pools requires : list string) (configs : gmap string (list string)) : list string :=
  if bool_decide (requires = []) then pools
  else List.filter (fun pool => poolSatisfies (default [] (configs !! pool)) requires) pools.

Definition containsPool (pools : list string) (pool : string) : bool := existsb (fun p => p =s? pool) pools.

(** A worker without readiness is not known to be unready. *)
Definition readinessAllowsTopic (workerID topic : string) (readiness : option (gmap string WorkerReadiness)) : bool :=
  match readiness with
  | None => true
  | Some r => match r !! workerID with None => true | Some state => workerReadyForTopic state topic end
  end.

(** A worker of one of the pools that has the labels and is ready for the topic. *)
Definition candidate (pools : list string) (required : gmap string string) (topic : string) (readiness : option (gmap string WorkerReadiness))
    (id : string) (hb : Heartbeat) : bool :=
  containsPool pools (hb_Pool hb) && matchesLabels hb required && readinessAllowsTopic id topic readiness.

(** The best so far, and how many candidates were overloaded and seen. *)
Record picking := mkPicking { pk_selected : option Heartbeat; pk_best : spec_float; pk_overloaded : nat; pk_total : nat }.

Definition pick_one (pools : list string) (required : gmap string string) (topic : string) (readiness : option (gmap string WorkerReadiness))
    (p : picking) (hb : Heartbeat) : picking :=
  if negb (candidate pools required topic readiness (hb_WorkerId hb) hb) then p
  else if isOverloaded hb then mkPicking (pk_selected p) (pk_best p) (S (pk_overloaded p)) (S (pk_total p))
  else
    let score := loadScore hb in
    if bool_decide (pk_selected p = None) || SFltb score (pk_best p) then mkPicking (Some hb) score (pk_overloaded p) (S (pk_total p))
    else mkPicking (pk_selected p) (pk_best p) (pk_overloaded p) (S (pk_total p)).

(** The worker the request prefers, when it can take the job. *)
Definition preferred (pools : list string) (required : gmap string string) (req : JobRequest) (workers : gmap string Heartbeat)
    (readiness : option (gmap string WorkerReadiness)) : option string :=
  let id := get_str (jr_Labels req) "preferred_worker_id" in
  if id =s? "" then None
  else match workers !! id with
       | Some hb => if candidate pools required (jr_Topic req) readiness id hb && negb (isOverloaded hb) then Some (DirectSubject id) else None
       | None => None
       end.

(** The pools of the topic that can take the request. *)
Definition topic_pools (routing : PoolRouting) (req : JobRequest) : result serror (list string) :=
  let topicPools := default [] (rt_Topics routing !! jr_Topic req) in
  let hint := get_str (jr_Labels req) "preferred_pool" in
  let narrowed := if hint =s? "" then Ok topicPools
                  else if containsPool topicPools hint then Ok [hint]
                  else Err (wrapping ErrNoPoolMapping ("no_pool_mapping: preferred pool " +:+ Quote hint +:+ " not mapped for topic " +:+ Quote (jr_Topic req))) in
  match narrowed with
  | Err e => Err e
  | Ok [] => Err (wrapping ErrNoPoolMapping ("no_pool_mapping: topic " +:+ Quote (jr_Topic req)))
  | Ok pools =>
      match filterEligiblePools pools (match jr_Meta req with Some m => jm_Requires m | None => [] end) (rt_Pools routing) with
      | [] => Err (wrapping ErrNoPoolMapping "no_pool_mapping: no pool satisfies requires")
      | pools => Ok pools
      end
  end.

Definition PickSubject `{GoRuntime} (routing : PoolRouting) (req : JobRequest) (workers : gmap string Heartbeat)
    (readiness : option (gmap string WorkerReadiness)) : result serror string :=
  if jr_Topic req =s? "" then Err (SchedulerEnv.plain "missing topic")
  else match topic_pools routing req with
       | Err e => Err e
       | Ok pools =>
           let required := filterPlacementLabels (jr_Labels req) in
           match preferred pools required req workers readiness with
           | Some subject => Ok subject
           | None =>
               let p := foldl (pick_one pools required (jr_Topic req) readiness) (mkPicking None (S754_zero false) 0 0) (map snd (range_map workers)) in
               match pk_selected p with
               | Some hb => Ok (if DirectSubject (hb_WorkerId hb) =s? "" then jr_Topic req else DirectSubject (hb_WorkerId hb))
               | None =>
                   if (0 <? pk_total p)%nat && (pk_overloaded p =? pk_total p)%nat
                   then Err (wrapping ErrPoolOverloaded ("pool_overloaded: pool " +:+ Quote (Join pools ",")))
                   else Err (wrapping ErrNoWorkers ("no_workers: pool " +:+ Quote (Join pools ",")))
               end
           end
       end.

(** ** The circuit breaker *)

Inductive circuitState : Set := circuitClosed | circuitOpen | circuitHalfOpen.

Record CircuitBreakerOpts := mkBreakerOpts { bo_FailThreshold : Z; bo_OpenDuration : Z; bo_HalfOpenMax : Z; bo_CloseAfter : Z }.

(** The breaker: its thresholds and its local state. *)
Record RedisCircuitBreaker := mkBreaker {
  cb_openDuration : Z;
  cb_failThreshold : Z;
  cb_closeAfter : Z;
  cb_halfOpenMax : Z;
  cb_state : circuitState;
  cb_failures : Z;
  cb_successes : Z;
  cb_openUntil : Z;
  cb_halfOpen : Z;
}.

Definition or_default (v d : Z) : Z := if (v <=? 0)%Z then d else v.

Definition NewRedisCircuitBreaker (opts : CircuitBreakerOpts) : RedisCircuitBreaker :=
  mkBreaker (or_default (bo_OpenDuration opts) (30 * second)) (or_default (bo_FailThreshold opts) 3) (or_default (bo_CloseAfter opts) 2)
    (or_default (bo_HalfOpenMax opts) 3) circuitClosed 0 0 0 0.

Definition set_local (s : circuitState) (failures successes openUntil halfOpen : Z) (cb : RedisCircuitBreaker) : RedisCircuitBreaker :=
  mkBreaker (cb_openDuration cb) (cb_failThreshold cb) (cb_closeAfter cb) (cb_halfOpenMax cb) s failures successes openUntil halfOpen.

Definition localIsOpen (now : Z) (cb : RedisCircuitBreaker) : RedisCircuitBreaker * bool :=
  let cb := match cb_state cb with
            | circuitOpen => if (cb_openUntil cb <? now)%Z
                             then set_local circuitHalfOpen (cb_failures cb) 0 (cb_openUntil cb) (cb_halfOpenMax cb) cb else cb
            | _ => cb
            end in
  (cb, match cb_state cb with circuitOpen => true | _ => false end).

Definition localRecordFailure (now : Z) (cb : RedisCircuitBreaker) : RedisCircuitBreaker :=
  match cb_state cb with
  | circuitClosed =>
      let failures := (cb_failures cb + 1)%Z in
      if (cb_failThreshold cb <=? failures)%Z
      then set_local circuitOpen 0 (cb_successes cb) (now + cb_openDuration cb) (cb_halfOpen cb) cb
      else set_local circuitClosed failures (cb_successes cb) (cb_openUntil cb) (cb_halfOpen cb) cb
  | circuitHalfOpen => set_local circuitOpen 0 (cb_successes cb) (now + cb_openDuration cb) (cb_halfOpen cb) cb
  | circuitOpen => cb
  end.

Definition localRecordSuccess (cb : RedisCircuitBreaker) : RedisCircuitBreaker :=
  match cb_state cb with
  | circuitClosed | circuitOpen => set_local (cb_state cb) 0 (cb_successes cb) (cb_openUntil cb) (cb_halfOpen cb) cb
  | circuitHalfOpen =>
      let successes := (cb_successes cb + 1)%Z in
      if (cb_closeAfter cb <=? successes)%Z then set_local circuitClosed 0 0 (cb_openUntil cb) 0 cb
      else set_local circuitHalfOpen (cb_failures cb) successes (cb_openUntil cb) (cb_halfOpen cb) cb
  end.

(** The counter in redis: its value and when it expires. *)
Definition counter : Type := option (Z * Z).
Definition counter_at (now : Z) (c : counter) : counter := match c with Some (n, e) => if (e <=? now)%Z then None else c | None => None end.

(** [recordFailureLua]: only the first failure sets the expiry. *)
Definition recordFailureLua (ttlSec now : Z) (c : counter) : counter * Z :=
  match counter_at now c with
  | None => (Some (1, now + ttlSec * second), 1)%Z
  | Some (n, e) => (Some (n + 1, e), n + 1)%Z
  end.

(** With redis, or without ([redis] is whether it answers). *)
Definition IsOpen (redis : bool) (now : Z) (cb : RedisCircuitBreaker) (c : counter) : RedisCircuitBreaker * bool :=
  if redis then (cb, match counter_at now c with None => false | Some (n, _) => (cb_failThreshold cb <=? n)%Z end)
  else localIsOpen now cb.

Definition AllowRequest (redis : bool) (now : Z) (cb : RedisCircuitBreaker) (c : counter) : RedisCircuitBreaker * bool :=
  let '(cb, open_) := IsOpen redis now cb c in (cb, negb open_).

Definition ttl_seconds (cb : RedisCircuitBreaker) : Z :=
  let s := Z.quot (cb_openDuration cb) second in if (s <=? 0)%Z then 30 else s.

Definition RecordFailure (redis : bool) (now : Z) (cb : RedisCircuitBreaker) (c : counter) : RedisCircuitBreaker * counter :=
  (localRecordFailure now cb, if redis then (recordFailureLua (ttl_seconds cb) now c).1 else c).

Definition RecordSuccess (redis : bool) (cb : RedisCircuitBreaker) (c : counter) : RedisCircuitBreaker * counter :=
  (localRecordSuccess cb, if redis then None else c).

Definition FailureCount (redis : option bool) (now : Z) (cb : RedisCircuitBreaker) (c : counter) : Z :=
  match redis with
  | None => cb_failures cb
  | Some false => 0
  | Some true => match counter_at now c with Some (n, _) => n | None => 0 end
  end.
