(* ===== verification/WorkerTheorems.v ===== *)
(** * What the registry and the strategy promise

    The choice of [PickSubject] is a least loaded worker that can take the job, and
    its errors tell a pool that is full from one that is empty; a worker the registry
    shows ready is vouched for by a trusted handshake of its own and by a heartbeat,
    both recent; the local circuit breaker trips at its threshold. *)
From Stdlib Require Import Ascii.
From S2P Require Import Prelude.
From S2P Require Import GoStrings.
From S2P Require Import PolicyTypes.
From S2P Require Import GoValues.
From S2P Require Import WorkflowModels.
From S2P Require Import SchedulerEnv.
From S2P Require Import SchedulerWorkers.

Open Scope string_scope.

(** ** The order of loads *)

Lemma SFltb_trans a b c : SFltb a b = true -> SFltb b c = true -> SFltb a c = true.
Proof.
  unfold SFltb, SFcompare.
  destruct a as [sa|sa| |sa ma ea], b as [sb|sb| |sb mb eb], c as [sc|sc| |sc mc ec]; try done;
    try destruct sa; try destruct sb; try destruct sc; try done.
  all: destruct (Z.compare_spec ea eb), (Z.compare_spec eb ec); try done; subst;
    repeat match goal with |- context [Z.compare ?x ?y] => destruct (Z.compare_spec x y); try lia end; try done.
  all: change Pos.compare_cont with Pos.compare_cont; fold (Pos.compare ma mb) (Pos.compare mb mc) (Pos.compare ma mc);
    destruct (Pos.compare_spec ma mb), (Pos.compare_spec mb mc); try done; subst; cbn; intros _ _;
    destruct (Pos.compare_spec ma mc); try lia; done.
Qed.

Lemma SFltb_irrefl x : SFltb x x = false.
Proof. destruct x as [[]|[]| |[] m e]; unfold SFltb; cbn; rewrite ?Z.compare_refl, ?Pos.compare_cont_refl; done. Qed.

(** ** The choice of a worker *)

Section Pick.
Context (pools : list string) (required : gmap string string) (topic : string) (readiness : option (gmap string WorkerReadiness)).

Let fitting (hb : Heartbeat) : bool := candidate pools required topic readiness (hb_WorkerId hb) hb.
Let taking (hb : Heartbeat) : bool := fitting hb && negb (isOverloaded hb).

(** The selection after the workers of [seen]: none of them taking the job, or no
    one that does has a lower score. *)
Definition chosen (seen : list Heartbeat) (p : picking) : Prop :=
  match pk_selected p with
  | None => forall hb, hb ∈ seen -> taking hb = false
  | Some hb => hb ∈ seen /\ taking hb = true /\ pk_best p = loadScore hb
               /\ forall hb', hb' ∈ seen -> taking hb' = true -> SFltb (loadScore hb') (loadScore hb) = false
  end.

Lemma chosen_skip seen p p' hb :
  chosen seen p -> taking hb = false -> pk_selected p' = pk_selected p -> pk_best p' = pk_best p -> chosen (seen ++ [hb]) p'.
Proof.
  unfold chosen. intros Hs Hn -> ->. destruct (pk_selected p) as [b|].
  - destruct Hs as (Hin & Hb & Hbest & Hmin). split_and!; [set_solver|done|done|].
    intros h [Hh| ->%list_elem_of_singleton]%elem_of_app Ht; [by apply Hmin|congruence].
  - intros h [Hh| ->%list_elem_of_singleton]%elem_of_app; [by apply Hs|done].
Qed.

Lemma chosen_compare seen p p' hb :
  chosen seen p -> taking hb = true ->
  (if bool_decide (pk_selected p = None) || SFltb (loadScore hb) (pk_best p)
   then pk_selected p' = Some hb /\ pk_best p' = loadScore hb
   else pk_selected p' = pk_selected p /\ pk_best p' = pk_best p) ->
  chosen (seen ++ [hb]) p'.
Proof.
  unfold chosen. intros Hs Ht Hp. destruct (pk_selected p) as [b|]; simpl in Hp.
  2: { destruct Hp as [-> ->]. split_and!; [set_solver|done|done|].
       intros h [Hh| ->%list_elem_of_singleton]%elem_of_app Hth; [by rewrite Hs in Hth|apply SFltb_irrefl]. }
  destruct Hs as (Hin & Hb & Hbest & Hmin). rewrite Hbest in Hp.
  destruct (SFltb (loadScore hb) (loadScore b)) eqn:Hlt; destruct Hp as [-> ->].
  - split_and!; [set_solver|done|done|]. intros h [Hh| ->%list_elem_of_singleton]%elem_of_app Hth; [|apply SFltb_irrefl].
    apply not_true_iff_false. intros Hc. specialize (Hmin h Hh Hth). by rewrite (SFltb_trans _ _ _ Hc Hlt) in Hmin.
  - split_and!; [set_solver|done|done|]. intros h [Hh| ->%list_elem_of_singleton]%elem_of_app Hth; [by apply Hmin|done].
Qed.

(** What the loop knows after the workers of [seen]. *)
Definition picked (seen : list Heartbeat) (p : picking) : Prop :=
  pk_total p = length (List.filter fitting seen)
  /\ pk_overloaded p = length (List.filter (fun hb => fitting hb && isOverloaded hb) seen)
  /\ chosen seen p.

Lemma picked_one seen p hb : picked seen p -> picked (seen ++ [hb]) (pick_one pools required topic readiness p hb).
Proof.
  intros (Ht & Ho & Hs). unfold picked, pick_one. fold (fitting hb).
  rewrite !List.filter_app, !length_app. simpl.
  destruct (fitting hb) eqn:Hf; simpl; [destruct (isOverloaded hb) eqn:Hov; simpl|].
  - split_and!; [lia|lia|]. eapply chosen_skip; [done| |done|done]. unfold taking. by rewrite Hf, Hov.
  - assert (taking hb = true) by (unfold taking; by rewrite Hf, Hov).
    split_and!; [go_if; simpl; lia|go_if; simpl; lia|].
    eapply chosen_compare; [done|done|]. by destruct (_ || _).
  - split_and!; [lia|lia|]. eapply chosen_skip; [done| |done|done]. unfold taking. by rewrite Hf.
Qed.

Lemma picked_all ws : picked ws (foldl (pick_one pools required topic readiness) (mkPicking None (S754_zero false) 0 0) ws).
Proof.
  induction ws as [|hb ws IH] using rev_ind; [by split_and!; [..|intros ? ?%elem_of_nil]|].
  rewrite foldl_app. by apply picked_one.
Qed.
End Pick.

(** The workers of a snapshot are under their own names. *)
Definition keyed (workers : gmap string Heartbeat) : Prop := map_Forall (fun id hb => hb_WorkerId hb = id) workers.

(** A worker that can be given the request: in one of the pools, with the placement
    labels, ready for the topic, and not overloaded. *)
Definition fits (pools : list string) (req : JobRequest) (readiness : option (gmap string WorkerReadiness)) (id : string) (hb : Heartbeat) : bool :=
  candidate pools (filterPlacementLabels (jr_Labels req)) (jr_Topic req) readiness id hb.
Definition takes (pools : list string) (req : JobRequest) (readiness : option (gmap string WorkerReadiness)) (id : string) (hb : Heartbeat) : bool :=
  fits pools req readiness id hb && negb (isOverloaded hb).

Definition prefers (req : JobRequest) : string := get_str (jr_Labels req) "preferred_worker_id".

Section Subject.
Context `{GoRuntime} (routing : PoolRouting) (req : JobRequest) (workers : gmap string Heartbeat)
  (readiness : option (gmap string WorkerReadiness)) (pools : list string).
Context (Htopic : jr_Topic req <> "") (Hpools : topic_pools routing req = Ok pools) (Hkeyed : keyed workers).

Let took := takes pools req readiness.
Let fit := fits pools req readiness.

(** The worker [hb] is no more loaded than another that could be given the job. *)
Definition least_loaded (hb : Heartbeat) : Prop :=
  forall id' hb', workers !! id' = Some hb' -> took id' hb' = true -> SFltb (loadScore hb') (loadScore hb) = false.

Lemma preferred_Some subject :
  preferred pools (filterPlacementLabels (jr_Labels req)) req workers readiness = Some subject ->
  exists hb, workers !! prefers req = Some hb /\ took (prefers req) hb = true /\ subject = DirectSubject (prefers req) /\ prefers req <> "".
Proof.
  unfold preferred. fold (prefers req). intros Hp. destruct (String.eqb_spec (prefers req) ""); [done|].
  destruct (workers !! prefers req) as [hb|]; [|done]. exists hb.
  unfold took, takes, fits. destruct (_ && _); [|done]. by injection Hp as <-.
Qed.

Lemma preferred_None hb :
  preferred pools (filterPlacementLabels (jr_Labels req)) req workers readiness = None ->
  prefers req <> "" -> workers !! prefers req = Some hb -> took (prefers req) hb = false.
Proof.
  unfold preferred. fold (prefers req). intros Hp Hne Hl. destruct (String.eqb_spec (prefers req) ""); [done|].
  rewrite Hl in Hp. unfold took, takes, fits. by destruct (_ && _).
Qed.

Lemma ranged_worker hb : hb ∈ map snd (range_map workers) <-> workers !! hb_WorkerId hb = Some hb.
Proof.
  rewrite list_elem_of_fmap. split.
  - intros ([id hb'] & -> & Hin%elem_of_range_map). simpl. by rewrite (Hkeyed _ _ Hin).
  - intros Hl. exists (hb_WorkerId hb, hb). split; [done|]. by apply elem_of_range_map.
Qed.

Lemma some_candidate ws :
  (0 < length (List.filter (fun hb => fit (hb_WorkerId hb) hb) ws))%nat <-> exists hb, hb ∈ ws /\ fit (hb_WorkerId hb) hb = true.
Proof.
  split.
  - intros Hl. destruct (List.filter _ ws) as [|hb l] eqn:E; [simpl in Hl; lia|]. exists hb.
    assert (In hb (List.filter (fun hb => fit (hb_WorkerId hb) hb) ws)) as [??]%filter_In by (rewrite E; by left).
    by rewrite list_elem_of_In.
  - intros (hb & Hin%list_elem_of_In & Hf).
    assert (Hi : In hb (List.filter (fun hb => fit (hb_WorkerId hb) hb) ws)) by by apply filter_In.
    destruct (List.filter _ ws); [done|simpl; lia].
Qed.

Lemma all_overloaded ws :
  (forall hb, hb ∈ ws -> took (hb_WorkerId hb) hb = false) ->
  List.filter (fun hb => fit (hb_WorkerId hb) hb && isOverloaded hb) ws = List.filter (fun hb => fit (hb_WorkerId hb) hb) ws.
Proof.
  intros Hn. apply List.filter_ext_in. intros hb Hin%list_elem_of_In. specialize (Hn hb Hin).
  unfold took, takes in Hn. unfold fit. by destruct (fits _ _ _ _ _), (isOverloaded hb).
Qed.

(** The subject that reaches the worker [id], or any of its pool when it has no name. *)
Definition subject_of (id : string) : string := if id =s? "" then jr_Topic req else DirectSubject id.

Definition pick_spec (r : result serror string) : Prop :=
  match r with
  | Ok subject =>
      exists id hb, workers !! id = Some hb /\ took id hb = true /\ subject = subject_of id
        /\ ((id = prefers req /\ id <> "")
            \/ (forall hb', prefers req <> "" -> workers !! prefers req = Some hb' -> took (prefers req) hb' = false) /\ least_loaded hb)
  | Err e =>
      (forall id hb, workers !! id = Some hb -> took id hb = false)
      /\ (if is_err ErrPoolOverloaded e then exists id hb, workers !! id = Some hb /\ fit id hb = true
          else is_err ErrNoWorkers e = true /\ forall id hb, workers !! id = Some hb -> fit id hb = false)
  end.

Lemma pick_meets : pick_spec (PickSubject routing req workers readiness).
Proof.
  unfold PickSubject. rewrite eqb_ne by done. rewrite Hpools.
  destruct (preferred _ _ _ _ _) as [subject|] eqn:Hp.
  { apply preferred_Some in Hp as (hb & Hl & Ht & -> & Hne). exists (prefers req), hb. split_and!; [done|done| |by left].
    unfold subject_of. by rewrite eqb_ne. }
  pose proof (picked_all pools (filterPlacementLabels (jr_Labels req)) (jr_Topic req) readiness (map snd (range_map workers))) as (Htot & Hov & Hc).
  set (p := foldl _ _ _) in *. unfold chosen in Hc. destruct (pk_selected p) as [hb|].
  - destruct Hc as (Hin%ranged_worker & Ht & _ & Hmin). exists (hb_WorkerId hb), hb. split_and!; [done|done| |right; split].
    + unfold subject_of, DirectSubject. by destruct (String.eqb_spec (hb_WorkerId hb) "").
    + intros hb' Hne Hl. by eapply preferred_None.
    + intros id' hb' Hl Ht'. pose proof (Hkeyed _ _ Hl) as Hid. simpl in Hid. subst id'.
      apply Hmin; [by apply ranged_worker|done].
  - assert (Hnone : forall id hb, workers !! id = Some hb -> took id hb = false).
    { intros id hb Hl. pose proof (Hkeyed _ _ Hl) as Hid. simpl in Hid. subst id. apply Hc. by apply ranged_worker. }
    assert (Heq : pk_overloaded p = pk_total p) by (rewrite Htot, Hov; f_equal; by apply all_overloaded).
    rewrite Heq, Nat.eqb_refl, andb_true_r. destruct (Nat.ltb_spec 0 (pk_total p)) as [Hpos|Hz]; (split; [done|]).
    + simpl. rewrite Htot in Hpos. apply some_candidate in Hpos as (hb & Hin%ranged_worker & Hf). eauto.
    + simpl. split; [done|]. intros id hb Hl. pose proof (Hkeyed _ _ Hl) as Hid. simpl in Hid. subst id.
      apply not_true_iff_false. intros Hf.
      enough (0 < pk_total p)%nat by lia. rewrite Htot. apply some_candidate. exists hb. split; [by apply ranged_worker|done].
Qed.
End Subject.

(** C26: with the workers under their own names, the strategy answers with the
    worker the request prefers when that one can take the job, else with a worker
    that can and has no lower score among those that can; it says the pool is
    overloaded exactly when every candidate is, that there is no worker exactly when
    there is no candidate, and passes on the error of a topic no pool serves. *)
Theorem pick_least_loaded `{GoRuntime} (routing : PoolRouting) (req : JobRequest) (workers : gmap string Heartbeat)
    (readiness : option (gmap string WorkerReadiness)) :
  jr_Topic req <> "" -> keyed workers ->
  match topic_pools routing req with
  | Err e => PickSubject routing req workers readiness = Err e /\ is_err ErrNoPoolMapping e = true
  | Ok pools => pick_spec req workers readiness pools (PickSubject routing req workers readiness)
  end.
Proof.
  intros Ht Hk. destruct (topic_pools routing req) as [e|pools] eqn:Hp; [|by apply pick_meets].
  split; [unfold PickSubject; by rewrite eqb_ne, Hp by done|].
  unfold topic_pools in Hp. repeat (go_if_in Hp; simpl in Hp);
    repeat match type of Hp with context [match ?x with [] => _ | _ => _ end] => destruct x end; by inversion Hp.
Qed.

(** ** The registry *)

(** What happens to a registry, each at its time. *)
Inductive reg_op :=
  | OpHeartbeat (hb : Heartbeat)
  | OpHandshake (id : string) (topics : list string) (trusted : bool)
  | OpExpire
  | OpHydrate (workers : list Heartbeat).

Definition reg_step (ttl readyTTL : Z) (r : registry) (op : Z * reg_op) : registry :=
  let '(now, op) := op in
  match op with
  | OpHeartbeat hb => UpdateHeartbeat now hb r
  | OpHandshake id topics trusted => UpdateHandshakeTrust now id topics trusted r
  | OpExpire => expire ttl readyTTL now r
  | OpHydrate workers => HydrateFromSnapshot now workers r
  end.

Definition reg_run (ttl readyTTL : Z) (ops : list (Z * reg_op)) : registry := foldl (reg_step ttl readyTTL) ∅ ops.

Lemma reg_run_snoc ttl readyTTL ops op : reg_run ttl readyTTL (ops ++ [op]) = reg_step ttl readyTTL (reg_run ttl readyTTL ops) op.
Proof. unfold reg_run. by rewrite foldl_app. Qed.

(** The operation brought the heartbeat of the worker. *)
Definition brings (id : string) (hb : Heartbeat) (op : reg_op) : Prop :=
  hb_WorkerId hb = id /\ match op with OpHeartbeat hb' => hb' = hb | OpHydrate ws => hb ∈ ws | _ => False end.

Definition trusted_handshake (id : string) (op : reg_op) : Prop :=
  match op with OpHandshake id' _ true => id' = id /\ id <> "" | _ => False end.

(** The entry of a worker is what the operations say of it: its heartbeat came when it
    was last seen, and if it is ready, its last trusted handshake carried the topics. *)
Definition vouched (ops : list (Z * reg_op)) (id : string) (e : workerEntry) : Prop :=
  (forall hb, we_hb e = Some hb -> exists t op, we_lastSeen e = Some t /\ (t, op) ∈ ops /\ brings id hb op)
  /\ (we_ready e = true -> we_trusted e = true
      /\ exists pre t topics post, ops = (pre ++ (t, OpHandshake id topics true) :: post)%list
           /\ we_readyAt e = Some t /\ we_readyTopics e = sanitizeReadyTopics topics /\ we_readyTopics e <> []
           /\ (forall t' op, (t', op) ∈ post -> ~ trusted_handshake id op)).

Lemma vouched_snoc ops id e t op :
  vouched ops id e -> ~ trusted_handshake id op -> vouched (ops ++ [(t, op)]) id e.
Proof.
  intros [Hh Hr] Hn. split.
  - intros hb Hhb. destruct (Hh hb Hhb) as (t0 & op0 & ? & ? & ?). exists t0, op0. set_solver.
  - intros Hrd. destruct (Hr Hrd) as (? & pre & t0 & topics & post & -> & ? & ? & ? & Hlast). split; [done|].
    exists pre, t0, topics, (post ++ [(t, op)])%list. rewrite <- app_assoc. split_and!; try done.
    intros t' op' [Hin|Heq%list_elem_of_singleton]%elem_of_app; [by eapply Hlast|]. by injection Heq as -> ->.
Qed.

Lemma vouched_hb ops id e now hb op :
  vouched ops id e -> (now, op) ∈ ops -> brings id hb op -> vouched ops id (set_hb hb now e).
Proof. intros [_ Hr] Hin Hb. split; [|done]. simpl. intros ? [= <-]. eauto 6. Qed.

Lemma vouched_new ops id now hb op : (now, op) ∈ ops -> brings id hb op -> vouched ops id (new_hb hb now).
Proof. intros Hin Hb. split; [|done]. simpl. intros ? [= <-]. eauto 6. Qed.

Lemma vouched_clear ops id e : vouched ops id e -> vouched ops id (clearReadiness e).
Proof. intros [Hh _]. split; [done|]. by simpl. Qed.

Lemma snoc_elem {A} (x : A) l : x ∈ (l ++ [x])%list.
Proof. apply elem_of_app. right. by apply list_elem_of_singleton. Qed.

Definition all_vouched (ops : list (Z * reg_op)) (r : registry) : Prop := map_Forall (vouched ops) r.

(** The heartbeat of an entry outlives any operation. *)
Lemma vouched_heartbeat ops id e o : vouched ops id e -> forall hb, we_hb e = Some hb -> exists t op, we_lastSeen e = Some t /\ (t, op) ∈ (ops ++ [o])%list /\ brings id hb op.
Proof. intros [Hh _] hb Hhb. destruct (Hh hb Hhb) as (t & op & ? & ? & ?). exists t, op. set_solver. Qed.

Lemma handshake_vouched ops r now id topics trusted :
  all_vouched ops r -> all_vouched (ops ++ [(now, OpHandshake id topics trusted)]) (UpdateHandshakeTrust now id topics trusted r).
Proof.
  intros Hr. unfold UpdateHandshakeTrust. set (o := (now, OpHandshake id topics trusted)).
  assert (Hkeep : forall k e, r !! k = Some e -> k <> id \/ id = "" \/ trusted = false -> vouched (ops ++ [o]) k e).
  { intros k e Hk Hn. apply vouched_snoc; [by apply Hr|]. simpl. destruct trusted; naive_solver. }
  destruct (String.eqb_spec id "") as [->|Hid]; [intros k e Hk; eauto|].
  destruct (_ && _) eqn:Hguard; [apply andb_true_iff in Hguard as [_ ?%negb_true_iff]; intros k e Hk; eauto|].
  intros k e [[<- <-]|[Hne Hk]]%lookup_insert_Some; [|eauto].
  set (e0 := match r !! id with Some e => _ | None => _ end).
  assert (Hhb : forall hb, we_hb e0 = Some hb -> exists t op, we_lastSeen e0 = Some t /\ (t, op) ∈ (ops ++ [o])%list /\ brings id hb op).
  { unfold e0. destruct (r !! id) as [old|] eqn:Hold; [|done]. simpl. by apply vouched_heartbeat, Hr. }
  destruct (negb trusted || _) eqn:Hclear; (split; [done|]); [done|].
  apply orb_false_iff in Hclear as [Htr%negb_false_iff Hne%bool_decide_eq_false]. simpl. intros _. split; [done|].
  subst trusted. exists ops, now, topics, []. split_and!; [done..|]. by intros ? ? ?%elem_of_nil.
Qed.

Lemma hydrate_vouched ops now workers ws r :
  (forall hb, hb ∈ ws -> hb ∈ workers) -> all_vouched (ops ++ [(now, OpHydrate workers)]) r ->
  all_vouched (ops ++ [(now, OpHydrate workers)]) (HydrateFromSnapshot now ws r).
Proof.
  revert r. induction ws as [|hb ws IH]; intros r Hsub Hr; [done|]. simpl. apply IH; [set_solver|].
  destruct (hb_WorkerId hb =s? ""); [done|]. apply map_Forall_insert_2; [|done].
  eapply vouched_new; [apply snoc_elem|]. split; [done|]. apply Hsub. set_solver.
Qed.

Lemma reg_step_vouched ttl readyTTL ops r o : all_vouched ops r -> all_vouched (ops ++ [o]) (reg_step ttl readyTTL r o).
Proof.
  intros Hr. destruct o as [now [hb|id topics trusted| |workers]]; simpl.
  - assert (Hr' : all_vouched (ops ++ [(now, OpHeartbeat hb)]) r) by (intros k e Hk; apply vouched_snoc; [by apply Hr|by intros []]).
    apply map_Forall_insert_2; [|done]. destruct (r !! hb_WorkerId hb) as [e|] eqn:Hl.
    + eapply vouched_hb; [by apply Hr'|apply snoc_elem|done].
    + eapply vouched_new; [apply snoc_elem|done].
  - by apply handshake_vouched.
  - intros k e Hk. unfold expire in Hk. apply lookup_omap_Some in Hk as (e0 & He & Hk).
    assert (vouched (ops ++ [(now, OpExpire)]) k e0) by (apply vouched_snoc; [by apply Hr|by intros []]).
    destruct (expired ttl now e0); [done|]. injection He as <-. destruct (readinessExpired readyTTL now e0); [by apply vouched_clear|done].
  - apply hydrate_vouched; [done|]. intros k e Hk. apply vouched_snoc; [by apply Hr|by intros []].
Qed.

Lemma reg_run_vouched ttl readyTTL ops : all_vouched ops (reg_run ttl readyTTL ops).
Proof.
  induction ops as [|o ops IH] using rev_ind; [done|]. rewrite reg_run_snoc. by apply reg_step_vouched.
Qed.

(** ** The strategy over the registry *)

(** The fresh heartbeat of an entry, and when it came. *)
Lemma fresh_vouched ops ttl now id e hb :
  vouched ops id e -> fresh_heartbeat ttl now e = Some hb ->
  exists t op, (t, op) ∈ ops /\ brings id hb op /\ (time_sub now (Some t) <= ttl)%Z.
Proof.
  intros [Hb _] He. unfold fresh_heartbeat in He. destruct (we_hb e) as [h|]; [|done].
  destruct (Z.ltb_spec ttl (time_sub now (we_lastSeen e))); [done|]. injection He as <-.
  destruct (Hb h eq_refl) as (t & op & Hs & Hin & Hbr). exists t, op. by rewrite <- Hs.
Qed.

Lemma snapshot_keyed ttl readyTTL ops now : keyed (Snapshot ttl now (reg_run ttl readyTTL ops)).
Proof.
  intros id hb Hl. unfold Snapshot in Hl. apply lookup_omap_Some in Hl as (e & He & Hl).
  by destruct (fresh_vouched ops _ _ _ _ _ (reg_run_vouched _ _ _ _ _ Hl) He) as (? & ? & _ & [? _] & _).
Qed.

Lemma sanitize_trimmed topics seen t : t ∈ sanitize seen topics -> TrimSpace t = t.
Proof.
  revert seen. induction topics as [|x topics IH]; intros seen; simpl; [by intros ?%elem_of_nil|].
  destruct (_ || _); [by apply IH|]. intros [->|Hin]%elem_of_cons; [apply TrimSpace_idem|by eapply IH].
Qed.

(** An entry that is active and ready for the topic has the handshake for it. *)
Lemma active_vouched ops ttl readyTTL now id e state topic :
  vouched ops id e -> readiness_of ttl readyTTL now e = Some state -> workerReadyForTopic state topic = true ->
  exists pre th topics post, ops = (pre ++ (th, OpHandshake id topics true) :: post)%list
    /\ (time_sub now (Some th) <= readyTTL)%Z /\ TrimSpace topic ∈ sanitizeReadyTopics topics
    /\ (forall t' op', (t', op') ∈ post -> ~ trusted_handshake id op').
Proof.
  intros [_ Hr] Hs Hready. unfold readiness_of in Hs. destruct (fresh_heartbeat _ _ _); [|done].
  destruct (readinessActive readyTTL now e) eqn:Ha; injection Hs as <-; [|done].
  unfold readinessActive in Ha. rewrite !andb_true_iff in Ha. destruct Ha as ((((Hrd & _) & _) & _) & Hle%Z.leb_le).
  destruct (Hr Hrd) as (_ & pre & th & topics & post & -> & Hat & Htop & _ & Hlast).
  exists pre, th, topics, post. rewrite Hat in Hle. split_and!; [done|done| |done].
  unfold workerReadyForTopic in Hready. simpl in Hready. destruct (TrimSpace topic =s? ""); [done|].
  apply existsb_elem in Hready as (x & Hx & Heq%String.eqb_eq). rewrite <- Heq, <- Htop. by rewrite (sanitize_trimmed topics [] x) by (unfold sanitizeReadyTopics in Htop; by rewrite <- Htop).
Qed.

(** C30: whatever heartbeats, handshakes, expiries and snapshots a registry has
    been through, a subject that the strategy picks over its fresh workers and their
    readiness is the one of a worker that takes the job, whose heartbeat arrived within
    the time to live, and whose last trusted handshake, within the readiness time to
    live, carried the topic. *)
Theorem picked_worker_vouched `{GoRuntime} (routing : PoolRouting) (req : JobRequest) (ttl readyTTL now : Z) (ops : list (Z * reg_op)) (subject : string) :
  let r := reg_run ttl readyTTL ops in
  PickSubject routing req (Snapshot ttl now r) (Some (ReadinessSnapshot ttl readyTTL now r)) = Ok subject ->
  exists id hb t op, subject = subject_of req id /\ (t, op) ∈ ops /\ brings id hb op /\ (time_sub now (Some t) <= ttl)%Z
    /\ isOverloaded hb = false
    /\ exists pre th topics post, ops = (pre ++ (th, OpHandshake id topics true) :: post)%list
         /\ (time_sub now (Some th) <= readyTTL)%Z /\ TrimSpace (jr_Topic req) ∈ sanitizeReadyTopics topics
         /\ (forall t' op', (t', op') ∈ post -> ~ trusted_handshake id op').
Proof.
  intros r Hpick. pose proof (snapshot_keyed ttl readyTTL ops now) as Hk. fold r in Hk.
  assert (Ht : jr_Topic req <> "") by (intros E; unfold PickSubject in Hpick; by rewrite E in Hpick).
  destruct (topic_pools routing req) as [e|pools] eqn:Hp; [unfold PickSubject in Hpick; by rewrite eqb_ne, Hp in Hpick by done|].
  pose proof (pick_meets routing req _ (Some (ReadinessSnapshot ttl readyTTL now r)) pools Ht Hp Hk) as Hspec.
  rewrite Hpick in Hspec. destruct Hspec as (id & hb & Hl & [Hfit Hov%negb_true_iff]%andb_true_iff & -> & _).
  unfold Snapshot in Hl. apply lookup_omap_Some in Hl as (e & He & Hl).
  pose proof (reg_run_vouched ttl readyTTL ops id e Hl) as Hv.
  destruct (fresh_vouched _ _ _ _ _ _ Hv He) as (t & op & Hin & Hbr & Hle).
  exists id, hb, t, op. split_and!; [done..|].
  unfold fits, candidate in Hfit. apply andb_true_iff in Hfit as [_ Hready]. simpl in Hready.
  assert (Hstate : exists state, readiness_of ttl readyTTL now e = Some state) by (unfold readiness_of; rewrite He; eauto).
  destruct Hstate as (state & Hst).
  assert (Hlk : ReadinessSnapshot ttl readyTTL now r !! id = Some state) by (unfold ReadinessSnapshot; apply lookup_omap_Some; eauto).
  rewrite Hlk in Hready. by eapply active_vouched.
Qed.

(** ** The circuit breaker *)

Inductive cb_op := CbCheck | CbFailure | CbSuccess.

(** The local breaker through checks and outcomes, each at its time. *)
Definition cb_step (cb : RedisCircuitBreaker) (op : Z * cb_op) : RedisCircuitBreaker :=
  match op with
  | (now, CbCheck) => (localIsOpen now cb).1
  | (now, CbFailure) => localRecordFailure now cb
  | (_, CbSuccess) => localRecordSuccess cb
  end.
Definition cb_run (opts : CircuitBreakerOpts) (ops : list (Z * cb_op)) : RedisCircuitBreaker := foldl cb_step (NewRedisCircuitBreaker opts) ops.

(** The counters stay below their thresholds, and only a closed breaker counts failures. *)
Record breaker_ok (cb : RedisCircuitBreaker) : Prop := {
  ok_threshold : (0 < cb_failThreshold cb)%Z;
  ok_close : (0 < cb_closeAfter cb)%Z;
  ok_duration : (0 < cb_openDuration cb)%Z;
  ok_failures : (0 <= cb_failures cb < cb_failThreshold cb)%Z;
  ok_successes : (0 <= cb_successes cb < cb_closeAfter cb)%Z;
  ok_counts : match cb_state cb with circuitClosed => True | _ => cb_failures cb = 0%Z end;
}.

Lemma cb_step_ok cb op : breaker_ok cb -> breaker_ok (cb_step cb op).
Proof.
  intros []. destruct op as [now []]; simpl; unfold localIsOpen, localRecordFailure, localRecordSuccess;
    destruct cb as [d th ca hm [] f s u h]; simpl in *; repeat (case_match; simpl);
    repeat match goal with
      | H : (_ <? _)%Z = false |- _ => apply Z.ltb_ge in H
      | H : (_ <=? _)%Z = false |- _ => apply Z.leb_gt in H
      | H : (_ <=? _)%Z = true |- _ => apply Z.leb_le in H
      end; split; simpl; try lia; done.
Qed.

Lemma cb_run_ok opts ops : breaker_ok (cb_run opts ops).
Proof.
  unfold cb_run. assert (H0 : breaker_ok (NewRedisCircuitBreaker opts)).
  { unfold NewRedisCircuitBreaker, or_default. split; simpl; repeat case_match; try lia; try done;
      repeat match goal with H : (_ <=? _)%Z = false |- _ => apply Z.leb_gt in H end; unfold second; lia. }
  revert H0. generalize (NewRedisCircuitBreaker opts). induction ops as [|op ops IH]; intros cb H0; [done|].
  simpl. apply IH. by apply cb_step_ok.
Qed.

Lemma open_step cb op until :
  cb_state cb = circuitOpen -> cb_openUntil cb = until -> (fst op <= until)%Z ->
  cb_state (cb_step cb op) = circuitOpen /\ cb_openUntil (cb_step cb op) = until.
Proof.
  intros Hs Hu Hle. destruct op as [now []]; simpl in *; unfold localIsOpen, localRecordFailure, localRecordSuccess; rewrite Hs; simpl.
  - rewrite Hu. destruct (Z.ltb_spec until now); [lia|]. done.
  - done.
  - done.
Qed.

(** Once tripped, the local breaker refuses requests until the open duration has
    passed, whatever is recorded meanwhile. *)
Lemma local_breaker_stays_open opts ops now ops' now' :
  let cb := cb_run opts ops in
  cb_state cb <> circuitOpen -> cb_state (localRecordFailure now cb) = circuitOpen ->
  Forall (fun op => (fst op <= now + cb_openDuration cb)%Z) ops' -> (now' <= now + cb_openDuration cb)%Z ->
  (localIsOpen now' (foldl cb_step (localRecordFailure now cb) ops')).2 = true.
Proof.
  intros cb Hc Ho Hops Hnow.
  assert (Hu : cb_openUntil (localRecordFailure now cb) = (now + cb_openDuration cb)%Z).
  { revert Ho. unfold localRecordFailure. destruct (cb_state cb); simpl; [|done|done]. by destruct (_ <=? _)%Z. }
  revert Ho Hu. generalize (localRecordFailure now cb). clear Hc. induction Hops as [|op ops' Hle _ IH]; intros b Hs Hu; simpl.
  - pose proof (open_step b (now', CbCheck) _ Hs Hu Hnow) as [Hs' _]. unfold cb_step in Hs'. unfold localIsOpen in *. simpl in *. by rewrite Hs'.
  - destruct (open_step b op _ Hs Hu Hle). by apply IH.
Qed.

(** ** Findings *)

(** The counter in redis expires an open duration after the first of the failures,
    not after the one that trips the breaker: here half a second after it opened. *)
Lemma shared_breaker_closes_early :
  let cb := NewRedisCircuitBreaker (mkBreakerOpts 3 (30 * second) 0 0) in
  let '(cb, c) := RecordFailure true 0 cb None in
  let '(cb, c) := RecordFailure true (29 * second) cb c in
  let '(cb, c) := RecordFailure true (29 * second + second / 2) cb c in
  (IsOpen true (29 * second + second / 2) cb c).2 = true /\ (IsOpen true (30 * second) cb c).2 = false.
Proof. by vm_compute. Qed.

(** Breakers that differ only in the probes they allow. *)
Definition same_but_probes (cb cb' : RedisCircuitBreaker) : Prop :=
  exists max left, cb' = mkBreaker (cb_openDuration cb) (cb_failThreshold cb) (cb_closeAfter cb) max (cb_state cb) (cb_failures cb)
                           (cb_successes cb) (cb_openUntil cb) left.

Lemma same_but_probes_step cb cb' op :
  same_but_probes cb cb' -> same_but_probes (cb_step cb op) (cb_step cb' op).
Proof.
  intros (max & left & ->). destruct cb as [d th ca hm st f s u h], op as [now []]; simpl;
    unfold localIsOpen, localRecordFailure, localRecordSuccess, same_but_probes; simpl;
    destruct st; simpl; repeat case_match; simpl; eauto.
Qed.

(** The limit on the probes of a half-open breaker limits nothing: breakers that
    differ in it answer alike for ever. *)
Lemma half_open_max_unused t d c m m' ops now :
  (localIsOpen now (cb_run (mkBreakerOpts t d m c) ops)).2 = (localIsOpen now (cb_run (mkBreakerOpts t d m' c) ops)).2.
Proof.
  assert (H : same_but_probes (cb_run (mkBreakerOpts t d m c) ops) (cb_run (mkBreakerOpts t d m' c) ops)).
  { unfold cb_run. assert (H0 : same_but_probes (NewRedisCircuitBreaker (mkBreakerOpts t d m c)) (NewRedisCircuitBreaker (mkBreakerOpts t d m' c)))
      by (unfold same_but_probes, NewRedisCircuitBreaker; simpl; eauto).
    revert H0. generalize (NewRedisCircuitBreaker (mkBreakerOpts t d m c)) (NewRedisCircuitBreaker (mkBreakerOpts t d m' c)).
    induction ops as [|op ops IH]; intros cb cb' H0; [done|]. simpl. by apply IH, same_but_probes_step. }
  destruct H as (max & left & ->). set (cb := cb_run _ _). unfold localIsOpen. simpl.
  destruct (cb_state cb) eqn:E; simpl; rewrite ?E; [done| |done]. destruct (_ <? _)%Z; simpl; by rewrite ?E.
Qed.

(** *** Examples *)

Definition idle_worker (name : string) (jobs : Z) (cpu : spec_float) : Heartbeat := mkHeartbeat name "gpu" jobs 0 cpu (S754_zero false) ∅.
Definition gpu_routing : PoolRouting := mkRouting {["job.train" := ["gpu"]]} ∅.
Definition train_request : JobRequest :=
  mkJobRequest "j-1" "job.train" JOB_PRIORITY_BATCH "" "" "" ∅ ∅ "" "" None None "" None None None.

(** A worker whose load is not a number is never found busier: with a hundred jobs
    it is taken before an idle one when it comes first. *)
Lemma nan_load_wins :
  let workers := <["a" := idle_worker "a" 100 S754_nan]> {["b" := idle_worker "b" 0 (S754_zero false)]} in
  exists R : GoRuntime, @PickSubject R gpu_routing train_request workers None = Ok (DirectSubject "a").
Proof. first [exists fwd_runtime; by vm_compute | exists rev_runtime; by vm_compute]. Qed.

Lemma pick_least_loaded_witness :
  let workers := <["a" := idle_worker "a" 3 (S754_zero false)]> {["b" := idle_worker "b" 1 (S754_zero false)]} in
  @PickSubject fwd_runtime gpu_routing train_request workers None = Ok (DirectSubject "b")
  /\ pick_spec train_request workers None ["gpu"] (Ok (DirectSubject "b")).
Proof.
  cbn zeta. set (workers := <["a" := _]> _). split; [by vm_compute|].
  exact (@pick_least_loaded fwd_runtime gpu_routing train_request workers None ltac:(done)
           ltac:(unfold workers, keyed; apply map_Forall_insert_2; [done|apply map_Forall_singleton; done])).
Defined.

Definition two_workers : list (Z * reg_op) :=
  [(1%Z, OpHandshake "a" ["job.train"] true); (2%Z, OpHeartbeat (idle_worker "a" 3 (S754_zero false)));
   (2%Z, OpHeartbeat (idle_worker "b" 1 (S754_zero false)))].

Lemma picked_two_workers :
  @PickSubject fwd_runtime gpu_routing train_request (Snapshot 30 5 (reg_run 30 60 two_workers))
    (Some (ReadinessSnapshot 30 60 5 (reg_run 30 60 two_workers))) = Ok (DirectSubject "a").
Proof. by vm_compute. Qed.

Lemma picked_worker_vouched_witness :
  exists id hb t op, DirectSubject "a" = subject_of train_request id /\ (t, op) ∈ two_workers /\ brings id hb op /\ (time_sub 5 (Some t) <= 30)%Z.
Proof.
  destruct (@picked_worker_vouched fwd_runtime gpu_routing train_request 30 60 5 two_workers (DirectSubject "a") picked_two_workers)
    as (id & hb & t & op & Hs & Hin & Hb & Ht & _).
  exists id, hb, t, op. split_and!; assumption.
Defined.
