(* ===== verification/Saga.v ===== *)
(** * Sagas: compensations, recorded and rolled back

    core/controlplane/scheduler/saga.go.  A job that succeeds leaves a request that
    undoes it on the stack of its workflow; a rollback pops the requests and submits
    them.  The stacks, the sets that recognise a job recorded before and the locks are
    in redis; [proto.Marshal] is a parameter, [SagaEnv] is what may go wrong.

    Metrics and the packets' creation time and protocol version are left out. *)
From Stdlib Require Import Ascii.
From S2P Require Import Prelude.
From S2P Require Import GoStrings.
From S2P Require Import PolicyTypes.
From S2P Require Import GoValues.
From S2P Require Import GoBase64.
From S2P Require Import GoSha256.
From S2P Require Import WorkflowModels.
From S2P Require Import JobIdentity.
From S2P Require Import JobApproval.
From S2P Require Import SchedulerEnv.

Open Scope string_scope.

(** ** Requests with a compensation *)

(** [pb.Compensation]; hints and budget as they are on the wire. *)
Record Compensation := mkCompensation {
  cp_Topic : string;
  cp_ContextPtr : string;
  cp_Priority : option JobPriority;
  cp_AdapterId : string;
  cp_MemoryId : string;
  cp_ContextHints : option string;
  cp_Budget : option string;
  cp_TenantId : string;
  cp_PrincipalId : string;
  cp_Meta : option JobMetadata;
  cp_Env : gmap string string;
  cp_Labels : gmap string string;
  cp_Identity : option IdentityBinding;
}.

(** [pb.JobRequest] with the fields only the saga looks at. *)
Record SagaJob := mkSagaJob {
  sj_req : JobRequest;
  sj_ParentJobId : string;
  sj_StepIndex : Z;
  sj_ContextHints : option string;
  sj_Budget : option string;
  sj_Compensation : option Compensation;
}.

Definition set_sj_req (f : JobRequest -> JobRequest) (j : SagaJob) : SagaJob :=
  mkSagaJob (f (sj_req j)) (sj_ParentJobId j) (sj_StepIndex j) (sj_ContextHints j) (sj_Budget j) (sj_Compensation j).

(** *** The identity of such a request *)

Definition compensation_mirrors (c : Compensation) (auth : IdentityBinding) : list mirror :=
  ([mkMirror "compensation.tenant_id" (cp_TenantId c) (ib_TenantId auth);
    mkMirror "compensation.principal_id" (cp_PrincipalId c) (ib_PrincipalId auth)]
   ++ metadataMirrors "compensation.meta" (cp_Meta c) auth
   ++ environmentMirrors "compensation.env" (cp_Env c) auth
   ++ bindingMirrors "compensation.identity" (cp_Identity c) auth)%list.

Definition fill_compensation (c : Compensation) (auth : IdentityBinding) : Compensation :=
  mkCompensation (cp_Topic c) (cp_ContextPtr c) (cp_Priority c) (cp_AdapterId c) (cp_MemoryId c) (cp_ContextHints c) (cp_Budget c)
    (ib_TenantId auth) (ib_PrincipalId auth) (Some (fillMetadata (cp_Meta c) auth)) (fillEnvironment (cp_Env c) auth) (cp_Labels c) (Some auth).

(** [NormalizeProductionJobRequest] on a request that may have a compensation. *)
Definition normalizeSagaJob (j : SagaJob) (authoritative : option IdentityBinding) : result string SagaJob :=
  match newAuthority authoritative with
  | Err e => Err e
  | Ok auth =>
      match rejectMismatches (request_mirrors (sj_req j) auth ++ match sj_Compensation j with Some c => compensation_mirrors c auth | None => [] end) with
      | Some e => Err e
      | None => Ok (mkSagaJob (fillRequestMirrors (sj_req j) auth) (sj_ParentJobId j) (sj_StepIndex j) (sj_ContextHints j) (sj_Budget j)
                      ((fun c => fill_compensation c auth) <$> sj_Compensation j))
      end
  end.

(** A request without identity is taken as it is. *)
Definition with_identity (j : SagaJob) : result string SagaJob :=
  match jr_Identity (sj_req j) with
  | None => Ok j
  | Some b => match normalizeSagaJob j (Some b) with Ok j => Ok j | Err e => Err ("compensation identity: " +:+ e) end
  end.

(** ** Keys *)

Definition sagaCompLabel : string := "saga_compensation".
Definition sagaWorkflowLabel : string := "saga_workflow_id".
Definition sagaSenderID : string := "cordum-scheduler-saga".
Definition sagaLockTTL : Z := 120 * second.

Definition sagaWorkflowTag (workflowID : string) : string :=
  let id := TrimSpace workflowID in if id =s? "" then "" else EncodeToString RawURLEncoding id.

Definition saga_key (suffix workflowID : string) : string :=
  let tag := sagaWorkflowTag workflowID in if tag =s? "" then "" else "saga:{" +:+ tag +:+ "}:" +:+ suffix.
Definition sagaStackKey : string -> string := saga_key "stack".
Definition sagaLockKey : string -> string := saga_key "lock".
Definition sagaDedupeKey : string -> string := saga_key "recorded".
Definition legacySagaStackKey (workflowID : string) : string := "saga:" +:+ TrimSpace workflowID +:+ ":stack".

(** ** The compensating request *)

Definition truthy_label (m : gmap string string) : bool :=
  let raw := TrimSpace (get_str m sagaCompLabel) in negb (raw =s? "") && negb (raw =s? "false").

Definition isCompensationJob (req : JobRequest) : bool := truthy_label (jr_Labels req) || truthy_label (jr_Env req).

Definition mergeStringMap (base override : gmap string string) : gmap string string := override ∪ base.

Definition isSubsetOfRiskTags (candidate allowed : list string) : bool := forallb (fun tag => bool_decide (tag ∈ allowed)) candidate.

Definition or_else (v d : string) : string := if v =s? "" then d else v.

Definition mergeJobMetadata (base override : option JobMetadata) : option JobMetadata :=
  match override with
  | None => base
  | Some o =>
      let b := default empty_metadata base in
      Some (mkJobMetadata (or_else (jm_TenantId o) (jm_TenantId b)) (or_else (jm_ActorId o) (jm_ActorId b))
              (or_else (jm_ActorType o) (jm_ActorType b)) (or_else (jm_IdempotencyKey o) (jm_IdempotencyKey b))
              (or_else (jm_PackId o) (jm_PackId b))
              (if negb (jm_Capability o =s? "") && (jm_Capability o =s? jm_Capability b) then jm_Capability o else jm_Capability b)
              (if negb (bool_decide (jm_RiskTags o = [])) && isSubsetOfRiskTags (jm_RiskTags o) (jm_RiskTags b) then jm_RiskTags o else jm_RiskTags b)
              (if bool_decide (jm_Requires o = []) then jm_Requires b else jm_Requires o)
              (mergeStringMap (jm_Labels b) (jm_Labels o)))
  end.

(** [strings.Trim(s, "|")]. *)
Fixpoint trim_bars_left (s : string) : string :=
  match s with String "|"%char s => trim_bars_left s | s => s end.
Fixpoint trim_bars_right (s : string) : string :=
  match s with
  | EmptyString => EmptyString
  | String c s => match trim_bars_right s with
                  | EmptyString => if Ascii.eqb c "|"%char then EmptyString else String c EmptyString
                  | s => String c s
                  end
  end.

Definition compensationIdempotencyKey (base : SagaJob) (comp : Compensation) : string :=
  let cap m := match m with Some m => TrimSpace (jm_Capability m) | None => "" end in
  let capability := or_else (cap (cp_Meta comp)) (cap (jr_Meta (sj_req base))) in
  let step := if (sj_StepIndex base =? 0)%Z then "" else Itoa (sj_StepIndex base) in
  let seed := trim_bars_right (trim_bars_left (Join [TrimSpace (jr_WorkflowId (sj_req base)); TrimSpace (jr_JobId (sj_req base));
                TrimSpace (cp_Topic comp); capability; step] "|")) in
  if seed =s? "" then "" else "saga:" +:+ take 32 (sha256_hex seed).

Definition set_IdempotencyKey (key : string) (m : JobMetadata) : JobMetadata :=
  mkJobMetadata (jm_TenantId m) (jm_ActorId m) (jm_ActorType m) key (jm_PackId m) (jm_Capability m) (jm_RiskTags m) (jm_Requires m) (jm_Labels m).

(** [None]: nothing to record. *)
Definition buildCompensationRequest (base : SagaJob) : result string (option SagaJob) :=
  match sj_Compensation base with
  | None => Ok None
  | Some _ =>
      match with_identity base with
      | Err e => Err e
      | Ok base =>
          match sj_Compensation base with
          | None => Ok None
          | Some comp =>
              if TrimSpace (cp_Topic comp) =s? "" then Err "compensation topic required"
              else
                let q := sj_req base in
                let meta := match cp_Meta comp with Some _ => mergeJobMetadata (jr_Meta q) (cp_Meta comp) | None => jr_Meta q end in
                let explicitIdem := match cp_Meta comp with Some m => negb (TrimSpace (jm_IdempotencyKey m) =s? "") | None => false end in
                let meta := if explicitIdem then meta
                            else let m := default empty_metadata meta in
                                 let key := compensationIdempotencyKey base comp in
                                 Some (if key =s? "" then m else set_IdempotencyKey key m) in
                Ok (Some (mkSagaJob
                  (mkJobRequest "" (cp_Topic comp) (default (jr_Priority q) (cp_Priority comp)) (or_else (cp_AdapterId comp) (jr_AdapterId q))
                     (jr_WorkflowId q) (or_else (cp_MemoryId comp) (jr_MemoryId q)) (mergeStringMap (jr_Env q) (cp_Env comp))
                     (mergeStringMap (jr_Labels q) (cp_Labels comp)) (jr_TenantId q) (jr_PrincipalId q) (jr_DeadlineMs q) meta
                     (or_else (cp_ContextPtr comp) (jr_ContextPtr q)) (jr_Identity q) (jr_ContextRef q) (jr_Dispatch q))
                  (jr_JobId q) (sj_StepIndex base)
                  (match cp_ContextHints comp with Some h => Some h | None => sj_ContextHints base end)
                  (match cp_Budget comp with Some b => Some b | None => sj_Budget base end) None))
          end
      end
  end.

(** [ValidateCompensationSafety]: whether a compensation may go on. *)
Inductive compensation_verdict : Set := CompAllowed | CompUnavailable | CompDenied.

Definition ValidateCompensationSafety (record : SafetyDecisionRecord) (checkErr : option string) (unavailable : bool) : compensation_verdict :=
  if bool_decide (checkErr <> None) || unavailable then CompUnavailable
  else if sd_Decision record =s? SafetyDeny then CompDenied else CompAllowed.

(** ** The world *)

(** The part of redis a saga uses: its lists, its sets and its locks with their expiry. *)
Record SagaRedis := mkSagaRedis {
  sg_stacks : gmap string (list string);
  sg_recorded : gmap string (gset string);
  sg_locks : gmap string Z;
}.

Inductive saga_packet :=
| SagaSubmit (traceID senderID authToken : string) (identity : option IdentityBinding) (req : SagaJob)
| SagaBroken (msg : string)
| SagaUnchecked (identity : option IdentityBinding) (jobID msg : string).

Inductive SagaEvent :=
| SgRedis (what : string) (failed : bool)
| SgPublish (subject : string) (packet : saga_packet) (failed : bool)
| SgCheck (req : SagaJob) (verdict : compensation_verdict)
| SgMint.

(** What the manager meets; answers are functions of the trace so far.
    - [sg_marshal], [sg_unmarshal]: the wire form of a request;
    - [sg_fault]: a redis call fails, having taken effect or not;
    - [sg_publish], [sg_uuid], [sg_now]: the bus, fresh identifiers, the clock;
    - [sg_safety]: the safety checker, if there is one;
    - [sg_mint]: the session tokens, if there are. *)
Class SagaEnv := mkSagaEnv {
  sg_marshal : SagaJob -> result string string;
  sg_unmarshal : string -> result string SagaJob;
  sg_fault : list SagaEvent -> string -> option (string * bool);
  sg_publish : list SagaEvent -> string -> option string;
  sg_uuid : list SagaEvent -> string;
  sg_now : list SagaEvent -> Z;
  sg_safety : option (list SagaEvent -> SagaJob -> SafetyDecisionRecord * option string);
  sg_mint : option (list SagaEvent -> result string string);
}.

Record SagaWorld := mkSagaWorld { sg_redis : SagaRedis; sg_trace : list SagaEvent }.

Definition saga (A : Type) : Type := SagaWorld -> A * SagaWorld.
Definition gret {A} (a : A) : saga A := fun w => (a, w).
Definition gbind {A B} (m : saga A) (k : A -> saga B) : saga B := fun w => let '(a, w') := m w in k a w'.

Declare Scope saga_scope.
Delimit Scope saga_scope with saga.
Notation "x <-- m ;; k" := (gbind m (fun x => k)) (at level 100, m at next level, right associativity) : saga_scope.
Notation "m ;;;; k" := (gbind m (fun _ => k)) (at level 100, right associativity) : saga_scope.
Open Scope saga_scope.

Definition glog (e : SagaEvent) : saga unit := fun w => (tt, mkSagaWorld (sg_redis w) (sg_trace w ++ [e])%list).
Definition gtrace : saga (list SagaEvent) := fun w => (sg_trace w, w).

Section Manager.
Context `{SagaEnv}.

(** A redis command; one that fails may have taken effect. *)
Definition redis_call {A} (what : string) (op : SagaRedis -> SagaRedis * A) : saga (result string A) := fun w =>
  let '(st, a) := op (sg_redis w) in
  match sg_fault (sg_trace w) what with
  | Some (msg, took) => (Err msg, mkSagaWorld (if took then st else sg_redis w) (sg_trace w ++ [SgRedis what true])%list)
  | None => (Ok a, mkSagaWorld st (sg_trace w ++ [SgRedis what false])%list)
  end.

Definition publish (subject : string) (packet : saga_packet) : saga (option string) := fun w =>
  let e := sg_publish (sg_trace w) subject in
  (e, mkSagaWorld (sg_redis w) (sg_trace w ++ [SgPublish subject packet (bool_decide (e <> None))])%list).

(** ** Recording *)

Definition stack_of (st : SagaRedis) (key : string) : list string := default [] (sg_stacks st !! key).
Definition set_stack (key : string) (l : list string) (st : SagaRedis) : SagaRedis :=
  mkSagaRedis (if bool_decide (l = []) then delete key (sg_stacks st) else <[key := l]> (sg_stacks st)) (sg_recorded st) (sg_locks st).

(** [recordCompensationScript]. *)
Definition recordCompensationScript (key dedupeKey dedupeID data : string) (st : SagaRedis) : SagaRedis * Z :=
  let seen := default ∅ (sg_recorded st !! dedupeKey) in
  if bool_decide (dedupeID ∈ seen) then (st, 0%Z)
  else (mkSagaRedis (<[key := data :: stack_of st key]> (sg_stacks st)) (<[dedupeKey := {[dedupeID]} ∪ seen]> (sg_recorded st)) (sg_locks st), 1%Z).

Definition saga_workflow_of (req : JobRequest) : string :=
  or_else (TrimSpace (jr_WorkflowId req)) (TrimSpace (get_str (jr_Labels req) "workflow_id")).

Definition RecordCompensation (j : SagaJob) : saga (option string) :=
  if isCompensationJob (sj_req j) || bool_decide (sj_Compensation j = None) then gret None
  else
    let workflowID := saga_workflow_of (sj_req j) in
    let key := sagaStackKey workflowID in
    if key =s? "" then gret None
    else match buildCompensationRequest j with
         | Err e => gret (Some e)
         | Ok None => gret None
         | Ok (Some comp) =>
             match sg_marshal comp with
             | Err e => gret (Some ("marshal compensation request: " +:+ e))
             | Ok data =>
                 let id := TrimSpace (jr_JobId (sj_req j)) in
                 let dedupeID := if id =s? "" then sha256_hex data else id in
                 r <-- redis_call "record" (recordCompensationScript key (sagaDedupeKey workflowID) dedupeID data) ;;
                 gret (match r with Err e => Some e | Ok _ => None end)
             end
         end.

(** ** Rolling back *)

Definition LPop (key : string) (st : SagaRedis) : SagaRedis * option string :=
  match stack_of st key with [] => (st, None) | d :: l => (set_stack key l st, Some d) end.

(** [Ok None] is [redis.Nil]. *)
Definition popCompensation (key workflowID : string) : saga (result string (option string)) :=
  r <-- redis_call "lpop" (LPop key) ;;
  match r with
  | Ok None =>
      let legacy := legacySagaStackKey workflowID in
      if legacy =s? key then gret (Ok None) else redis_call "lpop" (LPop legacy)
  | r => gret r
  end.

Definition sendBrokenCompensationToDLQ (workflowID raw unmarshalErr : string) : saga unit :=
  publish SubjectDLQ (SagaBroken ("workflow " +:+ workflowID +:+ ": unmarshal compensation: " +:+ unmarshalErr
                                  +:+ " (raw_len=" +:+ Itoa (Z.of_nat (String.length raw)) +:+ ")")) ;;;;
  gret tt.

Definition sendCompensationSafetyFailureToDLQ (workflowID : string) (j : SagaJob) : saga unit :=
  publish SubjectDLQ (SagaUnchecked (jr_Identity (sj_req j)) (jr_JobId (sj_req j))
    ("workflow " +:+ workflowID +:+ ": compensation safety check failed closed: scheduler: safety decision unavailable")) ;;;;
  gret tt.

Definition mark_compensation (workflowID : string) (m : gmap string string) : gmap string string :=
  let m := <["is_compensation" := "true"]> (<[sagaCompLabel := "true"]> m) in
  if workflowID =s? "" then m else <[sagaWorkflowLabel := workflowID]> m.

Definition set_jr_JobId (v : string) (q : JobRequest) : JobRequest :=
  mkJobRequest v (jr_Topic q) (jr_Priority q) (jr_AdapterId q) (jr_WorkflowId q) (jr_MemoryId q) (jr_Env q) (jr_Labels q) (jr_TenantId q)
    (jr_PrincipalId q) (jr_DeadlineMs q) (jr_Meta q) (jr_ContextPtr q) (jr_Identity q) (jr_ContextRef q) (jr_Dispatch q).

(** The request as it is submitted: named, marked, on a job topic. *)
Definition compensation_job (workflowID uuid : string) (q : JobRequest) : JobRequest :=
  let q := if HasPrefix (TrimSpace (jr_Topic q)) "job." then q else set_jr_Topic ("job." +:+ TrimSpace (jr_Topic q)) q in
  set_jr_Env (mark_compensation workflowID (jr_Env q)) (set_jr_Labels (mark_compensation workflowID (jr_Labels q)) (set_jr_JobId ("comp-" +:+ uuid) q)).

Definition check_compensation (j : SagaJob) : saga compensation_verdict :=
  match sg_safety with
  | None => gret CompAllowed
  | Some check =>
      tr <-- gtrace ;;
      let '(record, err) := check tr j in
      let unavailable := bool_decide (err = None) && (sd_Decision record =s? SafetyUnavailable) in
      let v := ValidateCompensationSafety record err unavailable in
      glog (SgCheck j v) ;;;; gret v
  end.

(** The sender and the token of the packet. *)
Definition saga_sender : saga (string * string) :=
  match sg_mint with
  | None => gret (sagaSenderID, "")
  | Some mint =>
      tr <-- gtrace ;;
      glog SgMint ;;;;
      gret (match mint tr with Ok token => if token =s? "" then (sagaSenderID, "") else (defaultSenderID, token) | Err _ => (sagaSenderID, "") end)
  end.

Definition dispatchCompensation (j : SagaJob) (workflowID : string) : saga (option string) :=
  match with_identity j with
  | Err e => gret (Some e)
  | Ok j =>
      if TrimSpace (jr_Topic (sj_req j)) =s? "" then gret (Some "compensation topic required")
      else
        tr <-- gtrace ;;
        let j := set_sj_req (compensation_job workflowID (sg_uuid tr)) j in
        v <-- check_compensation j ;;
        match v with
        | CompUnavailable => sendCompensationSafetyFailureToDLQ workflowID j ;;;; gret None
        | CompDenied => gret None
        | CompAllowed =>
            s <-- saga_sender ;;
            e <-- publish SubjectSubmit (SagaSubmit (jr_JobId (sj_req j)) (fst s) (snd s) (jr_Identity (sj_req j)) j) ;;
            gret ((fun e => "publish compensation: " +:+ e) <$> e)
        end
  end.

(** The loop; [None] when the fuel runs out. *)
Fixpoint rollback_loop (fuel : nat) (key workflowID : string) : saga (option (option string)) :=
  match fuel with
  | O => gret None
  | S fuel =>
      r <-- popCompensation key workflowID ;;
      match r with
      | Ok None => gret (Some None)
      | Err e => gret (Some (Some ("pop compensation: " +:+ e)))
      | Ok (Some data) =>
          match sg_unmarshal data with
          | Err e => sendBrokenCompensationToDLQ workflowID data e ;;;; rollback_loop fuel key workflowID
          | Ok j =>
              e <-- dispatchCompensation j workflowID ;;
              match e with Some e => gret (Some (Some e)) | None => rollback_loop fuel key workflowID end
          end
      end
  end.

(** Enough for what is on the two stacks. *)
Definition rollback_fuel (key workflowID : string) (st : SagaRedis) : nat :=
  S (length (stack_of st key) + length (stack_of st (legacySagaStackKey workflowID))).

Definition SetNX (key : string) (now ttl : Z) (st : SagaRedis) : SagaRedis * bool :=
  match sg_locks st !! key with
  | Some e => if (e <=? now)%Z then (mkSagaRedis (sg_stacks st) (sg_recorded st) (<[key := (now + ttl)%Z]> (sg_locks st)), true) else (st, false)
  | None => (mkSagaRedis (sg_stacks st) (sg_recorded st) (<[key := (now + ttl)%Z]> (sg_locks st)), true)
  end.
Definition Del (key : string) (st : SagaRedis) : SagaRedis * unit :=
  (mkSagaRedis (sg_stacks st) (sg_recorded st) (delete key (sg_locks st)), tt).

Definition Rollback (workflowID : string) : saga (option (option string)) :=
  let key := sagaStackKey workflowID in
  if key =s? "" then gret (Some None)
  else
    let lockKey := sagaLockKey workflowID in
    tr <-- gtrace ;;
    r <-- redis_call "setnx" (SetNX lockKey (sg_now tr) sagaLockTTL) ;;
    match r with
    | Err e => gret (Some (Some ("saga lock: " +:+ e)))
    | Ok false => gret (Some None)
    | Ok true =>
        fuel <-- (fun w => (rollback_fuel key workflowID (sg_redis w), w)) ;;
        out <-- rollback_loop fuel key workflowID ;;
        redis_call "del" (Del lockKey) ;;;;
        gret out
    end.

End Manager.
