(* ===== verification/SagaTheorems.v ===== *)
(** * What a saga promises

    What is recorded is undone in the opposite order, once each; a rollback submits
    what it popped, in order and at most once, whatever fails, and only after the
    safety check let it pass; a compensation never acts for another tenant, principal
    or capability than the job it undoes. *)
From Stdlib Require Import Ascii.
From S2P Require Import Prelude.
From S2P Require Import GoStrings.
From S2P Require Import PolicyTypes.
From S2P Require Import GoValues.
From S2P Require Import GoBase64.
From S2P Require Import GoSha256.
From S2P Require Import WorkflowModels.
From S2P Require Import JobIdentity.
From S2P Require Import JobMeta.
From S2P Require Import JobApproval.
From S2P Require Import SchedulerEnv.
From S2P Require Import Saga.

Open Scope string_scope.

(** ** The stack of a workflow *)

(** What a rollback of the workflow has before it: its stack, then the one an earlier
    version of the program left. *)
Definition pending (workflowID : string) (st : SagaRedis) : list string :=
  let key := sagaStackKey workflowID in
  let legacy := legacySagaStackKey workflowID in
  (stack_of st key ++ if legacy =s? key then [] else stack_of st legacy)%list.

Lemma stack_set_eq key l st : stack_of (set_stack key l st) key = l.
Proof.
  unfold stack_of, set_stack. simpl. destruct (bool_decide_reflect (l = [])) as [->|].
  - by rewrite lookup_delete_eq.
  - by rewrite lookup_insert_eq.
Qed.

Lemma stack_set_ne key key' l st : key <> key' -> stack_of (set_stack key l st) key' = stack_of st key'.
Proof.
  intros Hne. unfold stack_of, set_stack. simpl. destruct (bool_decide (l = [])).
  - by rewrite lookup_delete_ne.
  - by rewrite lookup_insert_ne.
Qed.

Lemma LPop_key wf st d st' : LPop (sagaStackKey wf) st = (st', Some d) -> pending wf st = d :: pending wf st'.
Proof.
  unfold LPop, pending. destruct (stack_of st (sagaStackKey wf)) as [|d' l] eqn:E; intros [= <- <-].
  rewrite stack_set_eq. destruct (String.eqb_spec (legacySagaStackKey wf) (sagaStackKey wf)); [done|].
  by rewrite stack_set_ne by congruence.
Qed.

Lemma LPop_legacy wf st d st' :
  stack_of st (sagaStackKey wf) = [] -> legacySagaStackKey wf <> sagaStackKey wf -> LPop (legacySagaStackKey wf) st = (st', Some d) ->
  pending wf st = d :: pending wf st'.
Proof.
  unfold LPop, pending. intros He Hne. rewrite He, eqb_ne by done.
  destruct (stack_of st (legacySagaStackKey wf)) as [|d' l] eqn:E; intros [= <- <-].
  by rewrite (stack_set_ne (legacySagaStackKey wf) (sagaStackKey wf)), He, stack_set_eq by done.
Qed.

Lemma LPop_None key st st' : LPop key st = (st', None) -> st' = st /\ stack_of st key = [].
Proof. unfold LPop. destruct (stack_of st key); [|done]. by intros [= <-]. Qed.

(** ** A rollback, step by step *)

Section Rollback.
Context `{SagaEnv}.

(** The requests that a trace submits, those the bus refused too. *)
Definition submissions (tr : list SagaEvent) : list SagaJob :=
  omap (fun e => match e with SgPublish s (SagaSubmit _ _ _ _ j) _ => if s =s? SubjectSubmit then Some j else None | _ => None end) tr.

(** The trace of [w'] is the one of [w] and [evs]. *)
Definition adds (w w' : SagaWorld) (evs : list SagaEvent) : Prop := sg_trace w' = (sg_trace w ++ evs)%list.

(** The submitted form of what was recorded as [data]. *)
Definition submits (wf data : string) (j : SagaJob) : Prop :=
  exists j0 j1 uuid, sg_unmarshal data = Ok j0 /\ with_identity j0 = Ok j1 /\ j = set_sj_req (compensation_job wf uuid) j1.

Lemma redis_call_spec {A} what (op : SagaRedis -> SagaRedis * A) w r w' :
  redis_call what op w = (r, w') ->
  (exists failed, adds w w' [SgRedis what failed])
  /\ match r with
     | Ok a => op (sg_redis w) = (sg_redis w', a)
     | Err _ => sg_redis w' = sg_redis w \/ sg_redis w' = fst (op (sg_redis w))
     end.
Proof.
  unfold redis_call. destruct (op (sg_redis w)) as [st a]. destruct (sg_fault _ _) as [[msg took]|]; intros [= <- <-]; (split; [by eexists|]).
  - destruct took; auto.
  - done.
Qed.

(** What a pop may have done to the stack when its answer is an error. *)
Definition maybe_popped (wf : string) (st st' : SagaRedis) : Prop := st' = st \/ exists d, pending wf st = d :: pending wf st'.

Lemma pop_spec wf w r w' :
  popCompensation (sagaStackKey wf) wf w = (r, w') ->
  exists evs, adds w w' evs /\ submissions evs = []
  /\ match r with
     | Ok (Some d) => pending wf (sg_redis w) = d :: pending wf (sg_redis w')
     | Ok None => pending wf (sg_redis w) = [] /\ sg_redis w' = sg_redis w
     | Err _ => maybe_popped wf (sg_redis w) (sg_redis w')
     end.
Proof.
  unfold popCompensation, gbind, gret, adds. destruct (redis_call "lpop" (LPop (sagaStackKey wf)) w) as [r1 w1] eqn:E1.
  apply redis_call_spec in E1 as [[f1 Ha1] Hr1]. destruct r1 as [e|[d|]].
  - intros [= <- <-]. eexists. split_and!; [done|done|]. destruct Hr1 as [->|Hr]; [by left|].
    destruct (LPop _ _) as [st [d|]] eqn:E; simpl in Hr; rewrite Hr; [right; exists d; by apply LPop_key|left; by apply LPop_None in E as [-> _]].
  - intros [= <- <-]. eexists. split_and!; [done|done|]. by apply LPop_key.
  - apply LPop_None in Hr1 as [Hw He]. destruct (String.eqb_spec (legacySagaStackKey wf) (sagaStackKey wf)) as [Heq|Hne].
    + intros [= <- <-]. eexists. split_and!; [done|done| |done]. unfold pending. by rewrite He, Heq, String.eqb_refl.
    + intros [[f2 Ha2] Hr2]%redis_call_spec. exists [SgRedis "lpop" f1; SgRedis "lpop" f2]. rewrite Ha2, Ha1, <- app_assoc. split_and!; [done|done|].
      rewrite Hw in Hr2. destruct r as [e|[d|]].
      * destruct Hr2 as [->|Hr]; [by left|]. destruct (LPop _ _) as [st [d|]] eqn:E; simpl in Hr; rewrite Hr;
          [right; exists d; by apply LPop_legacy|left; by apply LPop_None in E as [-> _]].
      * by apply LPop_legacy.
      * apply LPop_None in Hr2 as [-> He2]. split; [|done]. unfold pending. by rewrite He, He2, eqb_ne.
Qed.

Lemma submissions_app a b : submissions (a ++ b) = (submissions a ++ submissions b)%list.
Proof. apply omap_app. Qed.

(** The check and the sender do not touch the stacks nor submit. *)
Lemma check_spec j w v w' :
  check_compensation j w = (v, w') ->
  exists evs, adds w w' evs /\ sg_redis w' = sg_redis w /\ submissions evs = [] /\ (sg_safety <> None -> evs = [SgCheck j v]).
Proof.
  unfold check_compensation, gbind, gtrace, glog, gret, adds. destruct sg_safety as [check|].
  - destruct (check _ j) as [record err]. intros [= <- <-]. simpl. by eexists [_].
  - intros [= <- <-]. exists []. by rewrite app_nil_r.
Qed.

Lemma sender_spec w s w' :
  saga_sender w = (s, w') -> exists evs, adds w w' evs /\ sg_redis w' = sg_redis w /\ (forall e, e ∈ evs -> e = SgMint).
Proof.
  unfold saga_sender, gbind, gtrace, glog, gret, adds. destruct sg_mint as [mint|]; intros [= <- <-].
  - exists [SgMint]. split_and!; [done|done|]. by intros e ->%list_elem_of_singleton.
  - exists []. rewrite app_nil_r. split_and!; [done|done|]. by intros e ?%elem_of_nil.
Qed.

Lemma mints_submit_nothing evs : (forall e, e ∈ evs -> e = SgMint) -> submissions evs = [].
Proof.
  induction evs as [|e evs IH]; intros Hall; [done|]. rewrite (Hall e) by set_solver. apply IH. set_solver.
Qed.

(** Every submission comes after a check of the same request that let it pass. *)
Definition submitted (e : SagaEvent) (j : SagaJob) : Prop :=
  match e with SgPublish s (SagaSubmit _ _ _ _ j') _ => s = SubjectSubmit /\ j' = j | _ => False end.
Definition checked (tr : list SagaEvent) : Prop :=
  sg_safety <> None -> forall pre e post j, tr = (pre ++ e :: post)%list -> submitted e j -> SgCheck j CompAllowed ∈ pre.

Lemma checked_app a b : checked a -> checked b -> checked (a ++ b).
Proof.
  intros Ha Hb Hs pre e post j Heq Hj.
  apply app_eq_app in Heq as [l [[Ha' Hl]|[Hp Hl]]].
  - destruct l as [|e' l]; simpl in Hl.
    + rewrite app_nil_r in Ha'. subst pre. destruct b as [|e' b]; [done|]. injection Hl as <- <-.
      exfalso. by apply (elem_of_nil (SgCheck j CompAllowed)), (Hb Hs [] e post j).
    + injection Hl as <- Hl. by eapply (Ha Hs).
  - subst pre. apply elem_of_app. right. by eapply (Hb Hs).
Qed.

Lemma checked_quiet evs : submissions evs = [] -> checked evs.
Proof.
  intros Hn _ pre e post j -> Hj. rewrite submissions_app in Hn. apply app_eq_nil in Hn as [_ Hn]. simpl in Hn.
  destruct e as [|s [] ?| |]; simpl in Hj; try done. destruct Hj as [-> ->]. by rewrite String.eqb_refl in Hn.
Qed.

(** The dispatch of a compensation: nothing is submitted, or the request is, once,
    after its check. *)
Lemma dispatch_spec wf j w e w' :
  dispatchCompensation j wf w = (e, w') ->
  sg_redis w' = sg_redis w
  /\ exists evs, adds w w' evs /\ checked evs
     /\ (submissions evs = [] \/ exists j1 uuid, with_identity j = Ok j1 /\ submissions evs = [set_sj_req (compensation_job wf uuid) j1]).
Proof.
  unfold dispatchCompensation. destruct (with_identity j) as [msg|j1]; [intros [= <- <-]; split; [done|]; exists []; unfold adds; rewrite app_nil_r; eauto using checked_quiet|].
  destruct (_ =s? ""); [intros [= <- <-]; split; [done|]; exists []; unfold adds; rewrite app_nil_r; eauto using checked_quiet|].
  unfold gbind at 1, gtrace. set (j2 := set_sj_req _ j1). unfold gbind at 1.
  destruct (check_compensation j2 w) as [v w1] eqn:Ec. apply check_spec in Ec as (cevs & Ha1 & Hr1 & Hs1 & Hc).
  destruct v.
  2: { unfold sendCompensationSafetyFailureToDLQ, gbind, publish, gret. intros [= <- <-]. simpl. split; [done|].
       eexists (cevs ++ [_])%list. unfold adds. simpl. rewrite Ha1, <- app_assoc. split; [done|].
       split; [apply checked_quiet|left]; by rewrite submissions_app, Hs1. }
  2: { intros [= <- <-]. split; [done|]. exists cevs. split_and!; [done|by apply checked_quiet|by left]. }
  unfold gbind, publish, gret. destruct (saga_sender w1) as [sd w2] eqn:Es. apply sender_spec in Es as (mevs & Ha2 & Hr2 & Hm).
  intros [= <- <-]. simpl. split; [congruence|]. eexists (cevs ++ mevs ++ [_])%list. unfold adds in *. simpl.
  rewrite Ha2, Ha1, <- !app_assoc. split; [done|]. split.
  - intros Hs pre ev post j' Heq Hj.
    specialize (Hc Hs). subst cevs. destruct pre as [|c pre]; simpl in Heq; [by injection Heq as <- _|]. injection Heq as <- Heq.
    assert (j' = j2) as ->; [|set_solver].
    assert (Hin : ev ∈ (pre ++ ev :: post)%list) by set_solver. rewrite <- Heq in Hin.
    apply elem_of_app in Hin as [->%Hm| ->%list_elem_of_singleton]; [done|]. by destruct Hj.
  - right. exists j1, (sg_uuid (sg_trace w)). split; [done|]. by rewrite !submissions_app, Hs1, mints_submit_nothing.
Qed.

(** A run of the loop from [w] to [w']: what it popped, and what it submitted of that. *)
Definition rolled (wf : string) (w w' : SagaWorld) : Prop :=
  exists popped chosen evs, adds w w' evs /\ checked evs
    /\ pending wf (sg_redis w) = (popped ++ pending wf (sg_redis w'))%list
    /\ chosen `sublist_of` popped /\ Forall2 (submits wf) chosen (submissions evs).

Lemma rolled_refl wf w : rolled wf w w.
Proof. exists [], [], []. unfold adds. rewrite app_nil_r. split_and!; [done|by apply checked_quiet|done|done|done]. Qed.

Lemma rolled_trans wf w1 w2 w3 : rolled wf w1 w2 -> rolled wf w2 w3 -> rolled wf w1 w3.
Proof.
  intros (p1 & c1 & e1 & A1 & K1 & P1 & S1 & F1) (p2 & c2 & e2 & A2 & K2 & P2 & S2 & F2).
  exists (p1 ++ p2)%list, (c1 ++ c2)%list, (e1 ++ e2)%list. unfold adds in *. rewrite A2, A1, P1, P2, !app_assoc, submissions_app.
  split_and!; [done|by apply checked_app|done|by apply sublist_app|by apply Forall2_app].
Qed.

(** What leaves the stacks as they are and submits nothing. *)
Lemma rolled_quiet wf w w' evs : adds w w' evs -> submissions evs = [] -> pending wf (sg_redis w') = pending wf (sg_redis w) -> rolled wf w w'.
Proof. intros A Hs Hp. exists [], [], evs. rewrite Hp, Hs. split_and!; [done|by apply checked_quiet|done|done|done]. Qed.

Lemma rolled_pop wf w w' : forall r, popCompensation (sagaStackKey wf) wf w = (r, w') -> rolled wf w w'.
Proof.
  intros r (evs & A & Hs & Hr)%pop_spec.
  assert (Hdrop : maybe_popped wf (sg_redis w) (sg_redis w')).
  { destruct r as [e|[d|]]; [done|right; eauto|left; by destruct Hr]. }
  destruct Hdrop as [Heq|[d Hd]]; [eapply rolled_quiet; [done|done|by rewrite Heq]|].
  exists [d], [], evs. rewrite Hs. split_and!; [done|by apply checked_quiet|done|apply sublist_nil_l|done].
Qed.

(** A popped request, dispatched. *)
Lemma rolled_dispatch wf w w1 w2 data j e :
  popCompensation (sagaStackKey wf) wf w = (Ok (Some data), w1) -> sg_unmarshal data = Ok j ->
  dispatchCompensation j wf w1 = (e, w2) -> rolled wf w w2.
Proof.
  intros (evs & A & Hs & Hr)%pop_spec Hu (Hw & evs2 & A2 & Hk & Hsub)%dispatch_spec. simpl in Hr.
  exists [data], (match submissions evs2 with [] => [] | _ => [data] end), (evs ++ evs2)%list.
  unfold adds in *. rewrite A2, A, app_assoc, submissions_app, Hs, Hw, Hr. split_and!; [done|by apply checked_app; [apply checked_quiet|]|done| |].
  - destruct (submissions evs2); [apply sublist_nil_l|done].
  - destruct Hsub as [->|(j1 & uuid & Hi & ->)]; [done|]. simpl. constructor; [|done]. by exists j, j1, uuid.
Qed.

Lemma loop_rolled fuel wf w r w' :
  rollback_loop fuel (sagaStackKey wf) wf w = (r, w') ->
  rolled wf w w' /\ ((length (pending wf (sg_redis w)) < fuel)%nat -> r <> None) /\ (r = Some None -> pending wf (sg_redis w') = []).
Proof.
  revert w. induction fuel as [|fuel IH]; intros w; simpl; [intros [= <- <-]; split_and!; [apply rolled_refl|lia|done]|].
  unfold gbind at 1. destruct (popCompensation _ wf w) as [p w1] eqn:Ep. pose proof (rolled_pop _ _ _ _ Ep) as Hp.
  pose proof (pop_spec _ _ _ _ Ep) as (_ & _ & _ & Hpend).
  destruct p as [e|[data|]].
  - intros [= <- <-]. by split_and!.
  - simpl in Hpend. rewrite Hpend. simpl. destruct (sg_unmarshal data) as [e|j] eqn:Eu.
    + unfold sendBrokenCompensationToDLQ, publish, gbind, gret. intros Hl%IH. destruct Hl as (Hr & Hf & Hn). cbn [sg_redis] in *.
      split_and!; [|intros Hlen; apply Hf; lia|done].
      eapply rolled_trans; [exact Hp|]. eapply rolled_trans; [|exact Hr]. by eapply rolled_quiet.
    + unfold gbind. destruct (dispatchCompensation j wf w1) as [e w2] eqn:Ed. pose proof (rolled_dispatch _ _ _ _ _ _ _ Ep Eu Ed) as Hd.
      pose proof (dispatch_spec _ _ _ _ _ Ed) as [Hw _]. destruct e as [e|].
      * intros [= <- <-]. by split_and!.
      * intros (Hr & Hf & Hn)%IH. rewrite Hw in Hf. split_and!; [by eapply rolled_trans|intros Hlen; apply Hf; lia|done].
  - destruct Hpend as [Hnil Hw]. intros [= <- <-]. split_and!; [done|done|]. intros _. by rewrite Hw.
Qed.

(** Taking and giving back the lock leaves the stacks alone. *)
Lemma SetNX_pending wf key now ttl st st' ok : SetNX key now ttl st = (st', ok) -> pending wf st' = pending wf st.
Proof. unfold SetNX. destruct (sg_locks st !! key); [destruct (_ <=? _)%Z|]; by intros [= <- <-]. Qed.

Lemma pending_length wf st : (length (pending wf st) < rollback_fuel (sagaStackKey wf) wf st)%nat.
Proof. unfold pending, rollback_fuel. rewrite length_app. destruct (_ =s? _); simpl; lia. Qed.

Lemma rolled_lock wf what key now ttl w r w' : redis_call what (SetNX key now ttl) w = (r, w') -> rolled wf w w' /\ pending wf (sg_redis w') = pending wf (sg_redis w).
Proof.
  intros [[f A] Hr]%redis_call_spec.
  assert (Hp : pending wf (sg_redis w') = pending wf (sg_redis w)).
  { destruct r as [e|ok]; [|by eapply SetNX_pending]. destruct Hr as [->| ->]; [done|]. destruct (SetNX _ _ _ _) eqn:E. by eapply SetNX_pending. }
  split; [|done]. by eapply rolled_quiet.
Qed.

Lemma rolled_unlock wf what key w r w' : redis_call what (Del key) w = (r, w') -> rolled wf w w' /\ pending wf (sg_redis w') = pending wf (sg_redis w).
Proof.
  intros [[f A] Hr]%redis_call_spec.
  assert (Hp : pending wf (sg_redis w') = pending wf (sg_redis w)) by (destruct r as [e|ok]; [destruct Hr as [->| ->]; done|by injection Hr as <-]).
  split; [|done]. by eapply rolled_quiet.
Qed.

(** Whether the lock of the workflow can be taken. *)
Definition lock_free (wf : string) (w : SagaWorld) : Prop := (SetNX (sagaLockKey wf) (sg_now (sg_trace w)) sagaLockTTL (sg_redis w)).2 = true.

Lemma rollback_rolled wf w r w' :
  Rollback wf w = (r, w') ->
  rolled wf w w' /\ r <> None /\ (r = Some None -> sagaStackKey wf <> "" -> lock_free wf w -> pending wf (sg_redis w') = []).
Proof.
  unfold Rollback. destruct (String.eqb_spec (sagaStackKey wf) ""); [intros [= <- <-]; split_and!; [apply rolled_refl|done|done]|].
  unfold gbind at 1, gtrace, gbind at 1. destruct (redis_call "setnx" _ w) as [l w1] eqn:El.
  destruct (rolled_lock wf _ _ _ _ _ _ _ El) as [Hl Hp]. pose proof (redis_call_spec _ _ _ _ _ El) as [_ Hr].
  destruct l as [e|[]].
  - intros [= <- <-]. by split_and!.
  - unfold gbind. destruct (rollback_loop _ _ _ w1) as [out w2] eqn:Eo. destruct (redis_call "del" _ w2) as [u w3] eqn:Eu.
    intros [= <- <-]. destruct (loop_rolled _ _ _ _ _ Eo) as (Ho & Hf & Hn). destruct (rolled_unlock wf _ _ _ _ _ Eu) as [Hu Hpu].
    split_and!; [by do 2 (eapply rolled_trans; [done|])|by apply Hf, pending_length|]. intros -> _ _. rewrite Hpu. by apply Hn.
  - intros [= <- <-]. split_and!; [done|done|]. intros _ _ Hfree. unfold lock_free in Hfree. by rewrite Hr in Hfree.
Qed.
End Rollback.


(** ** The authority of a compensation *)

Definition meta_of (q : JobRequest) : JobMetadata := default empty_metadata (jr_Meta q).

Lemma with_identity_inv j j' :
  with_identity j = Ok j' ->
  match jr_Identity (sj_req j) with
  | None => j' = j
  | Some auth =>
      TrimSpace (ib_TenantId auth) <> "" /\ TrimSpace (ib_ActorId auth) <> "" /\ TrimSpace (ib_PrincipalId auth) <> ""
      /\ Forall (fun m => mirror_bad m = false) (request_mirrors (sj_req j) auth ++ match sj_Compensation j with Some c => compensation_mirrors c auth | None => [] end)
      /\ j' = mkSagaJob (fillRequestMirrors (sj_req j) auth) (sj_ParentJobId j) (sj_StepIndex j) (sj_ContextHints j) (sj_Budget j)
                ((fun c => fill_compensation c auth) <$> sj_Compensation j)
  end.
Proof.
  unfold with_identity, normalizeSagaJob. destruct (jr_Identity (sj_req j)) as [b|]; [|by intros [= <-]].
  destruct (newAuthority (Some b)) as [e|auth] eqn:Ha; [done|]. apply newAuthority_ok in Ha as ([= <-] & ? & ? & ?).
  unfold rejectMismatches. destruct (List.find _ _) eqn:Hf; [done|]. intros [= <-]. apply find_none_forall in Hf. by split_and!.
Qed.

(** The metadata of the compensation: no capability and no risk tag of its own. *)
Lemma merge_authority base o m :
  mergeJobMetadata base o = Some m ->
  jm_Capability m = jm_Capability (default empty_metadata base) /\ (forall tag, tag ∈ jm_RiskTags m -> tag ∈ jm_RiskTags (default empty_metadata base)).
Proof.
  unfold mergeJobMetadata. destruct o as [o|]; [|by intros ->]. intros [= <-]. simpl. split.
  - destruct (_ && _) eqn:E; [|done]. by apply andb_true_iff in E as [_ ?%String.eqb_eq].
  - intros tag. destruct (_ && _) eqn:E; [|done]. apply andb_true_iff in E as [_ E]. unfold isSubsetOfRiskTags in E.
    rewrite forallb_elem in E. intros Hin. by apply E, bool_decide_eq_true in Hin.
Qed.

Lemma build_inv base c :
  buildCompensationRequest base = Ok (Some c) ->
  exists base' comp meta, with_identity base = Ok base' /\ sj_Compensation base' = Some comp /\ TrimSpace (cp_Topic comp) <> ""
    /\ meta = (match cp_Meta comp with Some _ => mergeJobMetadata (jr_Meta (sj_req base')) (cp_Meta comp) | None => jr_Meta (sj_req base') end)
    /\ (jr_Meta (sj_req c) = meta \/ exists key, jr_Meta (sj_req c) = Some (set_IdempotencyKey key (default empty_metadata meta))
                                   \/ jr_Meta (sj_req c) = Some (default empty_metadata meta))
    /\ jr_JobId (sj_req c) = "" /\ jr_Topic (sj_req c) = cp_Topic comp
    /\ jr_TenantId (sj_req c) = jr_TenantId (sj_req base') /\ jr_PrincipalId (sj_req c) = jr_PrincipalId (sj_req base')
    /\ jr_Identity (sj_req c) = jr_Identity (sj_req base')
    /\ jr_Env (sj_req c) = cp_Env comp ∪ jr_Env (sj_req base') /\ sj_ParentJobId c = jr_JobId (sj_req base') /\ sj_Compensation c = None.
Proof.
  unfold buildCompensationRequest. destruct (sj_Compensation base); [|done]. destruct (with_identity base) as [e|base']; [done|].
  destruct (sj_Compensation base') as [comp|] eqn:Ec; [|done]. destruct (String.eqb_spec (TrimSpace (cp_Topic comp)) ""); [done|].
  intros [= <-]. eexists base', comp, _. simpl. split_and!; try done.
  match goal with |- context [if ?b then ?x else Some _] => destruct b end; [by left|]. right.
  exists (compensationIdempotencyKey base' comp). destruct (_ =s? ""); auto.
Qed.

Lemma meta_authority (c base' : JobRequest) (comp : Compensation) meta :
  meta = (match cp_Meta comp with Some _ => mergeJobMetadata (jr_Meta base') (cp_Meta comp) | None => jr_Meta base' end) ->
  (jr_Meta c = meta \/ exists key, jr_Meta c = Some (set_IdempotencyKey key (default empty_metadata meta)) \/ jr_Meta c = Some (default empty_metadata meta)) ->
  jm_Capability (meta_of c) = jm_Capability (meta_of base') /\ (forall tag, tag ∈ jm_RiskTags (meta_of c) -> tag ∈ jm_RiskTags (meta_of base')).
Proof.
  intros Hmeta Hm.
  assert (Hc : jm_Capability (meta_of c) = jm_Capability (default empty_metadata meta) /\ jm_RiskTags (meta_of c) = jm_RiskTags (default empty_metadata meta))
    by (unfold meta_of; by destruct Hm as [->|(key & [->| ->])]).
  destruct Hc as [-> ->]. subst meta. unfold meta_of. destruct (cp_Meta comp) as [o|]; [|done].
  destruct (mergeJobMetadata _ _) as [m|] eqn:E; [|done]. by apply merge_authority in E.
Qed.

Lemma fillEnvironment_lookup env auth k v :
  (k, v) ∈ [("tenant_id", ib_TenantId auth); ("principal_id", ib_PrincipalId auth); ("actor_id", ib_ActorId auth)]
  \/ (ib_DelegationId auth <> "" /\ k = "delegation_id" /\ v = ib_DelegationId auth) ->
  fillEnvironment env auth !! k = Some v.
Proof.
  unfold fillEnvironment. intros [Hin|(Hne & -> & ->)].
  - rewrite !elem_of_cons, elem_of_nil in Hin. destruct (_ =s? "");
      destruct Hin as [[= -> ->]|[[= -> ->]|[[= -> ->]|[]]]]; by simplify_map_eq.
  - rewrite eqb_ne by done. by rewrite lookup_insert_eq.
Qed.

(** Filling an environment that has the values already changes nothing. *)
Lemma fillEnvironment_union e1 e2 auth : fillEnvironment (fillEnvironment e1 auth ∪ e2) auth = fillEnvironment e1 auth ∪ e2.
Proof.
  assert (Hl : forall k v, _ -> (fillEnvironment e1 auth ∪ e2) !! k = Some v) by (intros k v Hk; apply lookup_union_Some_l, fillEnvironment_lookup, Hk).
  set (m := fillEnvironment e1 auth ∪ e2) in *. unfold fillEnvironment.
  rewrite (insert_id m "tenant_id"), (insert_id m "principal_id"), (insert_id m "actor_id") by (apply Hl; left; set_solver).
  destruct (String.eqb_spec (ib_DelegationId auth) ""); [done|]. apply insert_id, Hl. by right.
Qed.

Lemma or_else_same x : or_else x x = x.
Proof. unfold or_else. by destruct (_ =s? ""). Qed.

(** An environment whose mirrors agree names the delegation of the identity once it
    is filled, or none when the identity has none. *)
Lemma filled_delegation env auth prefix :
  Forall (fun m => mirror_bad m = false) (environmentMirrors prefix env auth) ->
  fillEnvironment env auth !! "delegation_id" = Some (ib_DelegationId auth) \/ (fillEnvironment env auth !! "delegation_id" = None /\ ib_DelegationId auth = "").
Proof.
  intros Hall. destruct (String.eqb_spec (ib_DelegationId auth) "") as [E|Hne]; [|left; apply fillEnvironment_lookup; by right].
  assert (Hg : get_str env "delegation_id" = "").
  { unfold environmentMirrors in Hall. do 3 apply Forall_cons in Hall as [_ Hall]. apply Forall_cons in Hall as [Hm _].
    apply mirror_ok_iff in Hm. simpl in Hm. destruct Hm; congruence. }
  unfold fillEnvironment. rewrite E, String.eqb_refl. simplify_map_eq. unfold get_str in Hg.
  destruct (env !! "delegation_id") as [v|]; simpl in Hg; [left; congruence|by right].
Qed.

Lemma union_delegation e1 e2 auth p1 p2 :
  Forall (fun m => mirror_bad m = false) (environmentMirrors p1 e1 auth) -> Forall (fun m => mirror_bad m = false) (environmentMirrors p2 e2 auth) ->
  get_str (fillEnvironment e1 auth ∪ fillEnvironment e2 auth) "delegation_id" = ib_DelegationId auth.
Proof.
  intros H1%filled_delegation H2%filled_delegation. unfold get_str. rewrite lookup_union.
  destruct H1 as [->|[-> _]], H2 as [->|[-> ?]]; simpl; congruence.
Qed.

(** The compensation of a job with an identity, built from its normalised form. *)
Lemma built_identity base c auth :
  buildCompensationRequest base = Ok (Some c) -> jr_Identity (sj_req base) = Some auth ->
  jr_Identity (sj_req c) = Some auth /\ jr_TenantId (sj_req c) = ib_TenantId auth /\ jr_PrincipalId (sj_req c) = ib_PrincipalId auth
  /\ (exists m, jr_Meta (sj_req c) = Some m /\ jm_TenantId m = ib_TenantId auth /\ jm_ActorId m = ib_ActorId auth)
  /\ (exists e1 e2, jr_Env (sj_req c) = fillEnvironment e1 auth ∪ e2)
  /\ get_str (jr_Env (sj_req c)) "delegation_id" = ib_DelegationId auth.
Proof.
  intros (base' & comp & meta & Hi & Hc & _ & Hmeta & Hm & _ & _ & Ht & Hp & Hid & He & _ & _)%build_inv Ei.
  apply with_identity_inv in Hi. rewrite Ei in Hi. destruct Hi as (_ & _ & _ & Hall & ->).
  destruct (sj_Compensation base) as [comp0|]; [|done]. unfold request_mirrors, compensation_mirrors in Hall. rewrite !Forall_app in Hall.
  destruct Hall as [(_ & _ & Hb & _) (_ & _ & Hcp & _)]. pose proof (union_delegation _ _ _ _ _ Hcp Hb) as Hdel. clear Hb Hcp.
  injection Hc as <-. simpl in *.
  split_and!; [done|done|done| |eauto|by rewrite He].
  assert (Hmm : jm_TenantId (default empty_metadata meta) = ib_TenantId auth /\ jm_ActorId (default empty_metadata meta) = ib_ActorId auth)
    by (rewrite Hmeta; simpl; by rewrite !or_else_same).
  destruct Hm as [->|(key & [->| ->])]; [|by eexists|by eexists]. rewrite Hmeta in *. by eexists.
Qed.

(** A compensation acts with the authority of the job it undoes.  It has the
    tenant, the principal and the identity of that job as normalised, the same
    capability, no risk tag the job does not have and no compensation of its own; the
    job's tenant is its own wherever the job names one, and with an identity its
    metadata and environment name the same tenant and actor. *)
Theorem compensation_keeps_authority (base c : SagaJob) :
  buildCompensationRequest base = Ok (Some c) ->
  exists base', with_identity base = Ok base'
    /\ jr_TenantId (sj_req c) = jr_TenantId (sj_req base') /\ jr_PrincipalId (sj_req c) = jr_PrincipalId (sj_req base')
    /\ jr_Identity (sj_req c) = jr_Identity (sj_req base) /\ sj_ParentJobId c = jr_JobId (sj_req base) /\ sj_Compensation c = None
    /\ jm_Capability (meta_of (sj_req c)) = jm_Capability (meta_of (sj_req base))
    /\ (forall tag, tag ∈ jm_RiskTags (meta_of (sj_req c)) -> tag ∈ jm_RiskTags (meta_of (sj_req base)))
    /\ (jr_Identity (sj_req base) <> None \/ jr_TenantId (sj_req base) <> "" -> ExtractTenant (sj_req c) = ExtractTenant (sj_req base))
    /\ (forall auth, jr_Identity (sj_req base) = Some auth ->
          jr_TenantId (sj_req c) = ib_TenantId auth /\ jr_PrincipalId (sj_req c) = ib_PrincipalId auth
          /\ jm_TenantId (meta_of (sj_req c)) = ib_TenantId auth /\ jm_ActorId (meta_of (sj_req c)) = ib_ActorId auth
          /\ get_str (jr_Env (sj_req c)) "tenant_id" = ib_TenantId auth).
Proof.
  intros Hbuild. pose proof Hbuild as (base' & comp & meta & Hi & Hc & _ & Hmeta & Hm & _ & _ & Ht & Hp & Hid & He & Hpar & Hnone)%build_inv.
  pose proof (with_identity_inv _ _ Hi) as Hinv. exists base'.
  assert (Hkeep : jr_Identity (sj_req base') = jr_Identity (sj_req base) /\ jr_JobId (sj_req base') = jr_JobId (sj_req base)
                  /\ jm_Capability (meta_of (sj_req base')) = jm_Capability (meta_of (sj_req base))
                  /\ jm_RiskTags (meta_of (sj_req base')) = jm_RiskTags (meta_of (sj_req base))).
  { destruct (jr_Identity (sj_req base)) as [auth|] eqn:Ei; [destruct Hinv as (_ & _ & _ & _ & ->); done|by subst]. }
  destruct Hkeep as (Hkid & Hkjob & Hkcap & Hkrisk). destruct (meta_authority _ _ _ _ Hmeta Hm) as [Hcap Hrisk].
  split_and!; try congruence; [intros tag Hin; rewrite <- Hkrisk; by apply Hrisk| |].
  - intros Hnamed. unfold ExtractTenant. rewrite Hid, Hkid, Ht. destruct (jr_Identity (sj_req base)) as [auth|] eqn:Ei.
    + destruct Hinv as (Hne & _). rewrite (eqb_ne (ib_TenantId auth) "") by (intros E; rewrite E in Hne; by apply Hne). done.
    + subst base'. destruct Hnamed as [?|Hnt]; [done|]. by rewrite (eqb_ne (jr_TenantId (sj_req base)) "").
  - intros auth Ei. destruct (built_identity _ _ _ Hbuild Ei) as (_ & -> & -> & (m & Hmm & HmT & HmA) & (e1 & e2 & ->) & _).
    unfold meta_of. rewrite Hmm. split_and!; try done. unfold get_str.
    by rewrite (lookup_union_Some_l _ _ "tenant_id" (ib_TenantId auth)) by (apply fillEnvironment_lookup; left; set_solver).
Qed.

(** A compensation that was built is never refused for its identity later. *)
Lemma built_dispatchable base c :
  buildCompensationRequest base = Ok (Some c) -> with_identity c = Ok c /\ TrimSpace (jr_Topic (sj_req c)) <> "".
Proof.
  intros Hb. pose proof Hb as (base' & comp & meta & Hi & _ & Htop & _ & _ & _ & Htc & _ & _ & Hid & _ & _ & Hnone)%build_inv.
  split; [|by rewrite Htc]. apply with_identity_inv in Hi. unfold with_identity.
  destruct (jr_Identity (sj_req base)) as [auth|] eqn:Ei; [|subst base'; by rewrite Hid, Ei].
  destruct Hi as (Hnt & Hna & Hnp & _ & _). destruct (built_identity _ _ _ Hb Ei) as (Hci & Ht & Hp & (m & Hm & HmT & HmA) & (e1 & e2 & He) & Hd).
  rewrite Hci. unfold normalizeSagaJob. assert (Ha : newAuthority (Some auth) = Ok auth) by (simpl; by rewrite !eqb_ne).
  rewrite Ha, Hnone, app_nil_r. clear Hb Hid Htc base' comp meta Htop.
  assert (Hl : forall k v, (k, v) ∈ [("tenant_id", ib_TenantId auth); ("principal_id", ib_PrincipalId auth); ("actor_id", ib_ActorId auth)] ->
                 get_str (jr_Env (sj_req c)) k = v).
  { intros k v Hk. unfold get_str. rewrite He. by rewrite (lookup_union_Some_l _ _ k v) by (apply fillEnvironment_lookup; by left). }
  assert (Hr : rejectMismatches (request_mirrors (sj_req c) auth) = None).
  { unfold rejectMismatches. assert (Hf : List.find mirror_bad (request_mirrors (sj_req c) auth) = None); [|by rewrite Hf].
    apply find_none_forall. unfold request_mirrors. rewrite Hm, Hci. unfold environmentMirrors. rewrite Ht, Hp, Hd.
    rewrite (Hl "tenant_id" (ib_TenantId auth)), (Hl "principal_id" (ib_PrincipalId auth)), (Hl "actor_id" (ib_ActorId auth)) by set_solver.
    simpl. rewrite HmT, HmA. repeat constructor; apply mirror_ok_iff; by right. }
  rewrite Hr. simpl. do 2 f_equal. destruct c as [[] ????]; simpl in *. subst. unfold fillRequestMirrors. simpl.
  rewrite fillEnvironment_union. destruct m; simpl in *; by subst.
Qed.

(** ** When nothing goes wrong *)

Section Calm.
Context `{SagaEnv}.

(** Redis and the bus answer, the checker lets pass, and a request survives its wire form. *)
Record calm : Prop := {
  calm_redis : forall tr what, sg_fault tr what = None;
  calm_bus : forall tr, sg_publish tr SubjectSubmit = None;
  calm_safety : match sg_safety with
                | None => True
                | Some check => forall tr j, (check tr j).2 = None /\ sd_Decision (check tr j).1 <> SafetyDeny /\ sd_Decision (check tr j).1 <> SafetyUnavailable
                end;
  calm_codec : forall j d, sg_marshal j = Ok d -> sg_unmarshal d = Ok j;
}.
Context (Hcalm : calm).

Lemma calm_call {A} what (op : SagaRedis -> SagaRedis * A) w :
  redis_call what op w = (Ok (op (sg_redis w)).2, mkSagaWorld (op (sg_redis w)).1 (sg_trace w ++ [SgRedis what false])%list).
Proof. unfold redis_call. destruct (op (sg_redis w)). by rewrite (calm_redis Hcalm). Qed.

Lemma calm_check j w : (check_compensation j w).1 = CompAllowed.
Proof.
  unfold check_compensation, gbind, gtrace, glog, gret. pose proof (calm_safety Hcalm) as Hs. destruct sg_safety as [check|]; [|done].
  specialize (Hs (sg_trace w) j). destruct (check (sg_trace w) j) as [record err]. simpl in *. destruct Hs as (-> & Hd & Hu).
  unfold ValidateCompensationSafety. by rewrite bool_decide_false, bool_decide_true, !eqb_ne by (done || naive_solver).
Qed.

(** [j] is the submitted form of the compensation [c]. *)
Definition undoes (wf : string) (c j : SagaJob) : Prop := exists uuid, j = set_sj_req (compensation_job wf uuid) c.

Lemma calm_dispatch wf c w :
  with_identity c = Ok c -> TrimSpace (jr_Topic (sj_req c)) <> "" ->
  exists w' evs j, dispatchCompensation c wf w = (None, w') /\ sg_redis w' = sg_redis w /\ adds w w' evs /\ submissions evs = [j] /\ undoes wf c j.
Proof.
  intros Hi Ht. unfold dispatchCompensation. rewrite Hi, eqb_ne by done. unfold gbind at 1, gtrace. set (j := set_sj_req _ c).
  unfold gbind at 1. pose proof (calm_check j w) as Hv. destruct (check_compensation j w) as [v w1] eqn:Ec. simpl in Hv. subst v.
  apply check_spec in Ec as (cevs & Ha1 & Hr1 & Hs1 & _). unfold gbind, publish, gret.
  destruct (saga_sender w1) as [sd w2] eqn:Es. apply sender_spec in Es as (mevs & Ha2 & Hr2 & Hm). rewrite (calm_bus Hcalm).
  eexists _, (cevs ++ mevs ++ [_])%list, j. unfold adds in *. split; [done|]. simpl. split; [congruence|].
  rewrite Ha2, Ha1, <- !app_assoc. split; [done|]. rewrite !submissions_app, Hs1, mints_submit_nothing by done. split; [done|]. by eexists.
Qed.

Lemma calm_pop wf w :
  exists w' evs, popCompensation (sagaStackKey wf) wf w = (Ok (head (pending wf (sg_redis w))), w')
    /\ adds w w' evs /\ submissions evs = [] /\ pending wf (sg_redis w') = tail (pending wf (sg_redis w)).
Proof.
  destruct (popCompensation (sagaStackKey wf) wf w) as [r w'] eqn:E. pose proof (pop_spec _ _ _ _ E) as (evs & A & Hs & Hr). exists w', evs.
  assert (Hok : exists d, r = Ok d).
  { revert E. unfold popCompensation, gbind, gret. rewrite calm_call. destruct (LPop _ _) as [st [d|]]; cbn [fst snd]; [intros [= <- _]; eauto|].
    destruct (legacySagaStackKey wf =s? sagaStackKey wf); [intros [= <- _]; eauto|]. rewrite calm_call. intros [= <- _]; eauto. }
  destruct Hok as [[d|] ->]; [by rewrite Hr|]. destruct Hr as [Hn ->]. by rewrite Hn.
Qed.

Lemma calm_loop fuel wf datas comps w :
  pending wf (sg_redis w) = datas -> Forall2 (fun d c => sg_unmarshal d = Ok c /\ with_identity c = Ok c /\ TrimSpace (jr_Topic (sj_req c)) <> "") datas comps ->
  (length datas < fuel)%nat ->
  exists w' evs, rollback_loop fuel (sagaStackKey wf) wf w = (Some None, w') /\ adds w w' evs /\ pending wf (sg_redis w') = []
    /\ Forall2 (undoes wf) comps (submissions evs).
Proof.
  intros Hp Hall. revert fuel w Hp. induction Hall as [|d c datas comps (Hu & Hi & Ht) _ IH]; intros [|fuel] w Hp Hf; simpl in Hf; try lia;
    simpl; unfold gbind at 1; destruct (calm_pop wf w) as (w1 & evs1 & -> & A1 & S1 & P1); rewrite Hp in *; simpl in *.
  - exists w1, evs1. rewrite S1. by split_and!.
  - rewrite Hu. unfold gbind. destruct (calm_dispatch wf c w1 Hi Ht) as (w2 & evs2 & j & -> & R2 & A2 & S2 & U2).
    destruct (IH fuel w2) as (w3 & evs3 & -> & A3 & P3 & F3); [by rewrite R2|lia|].
    exists w3, (evs1 ++ evs2 ++ evs3)%list. unfold adds in *. rewrite A3, A2, A1, <- !app_assoc, !submissions_app, S1, S2.
    split_and!; [done|done|done|]. simpl. by constructor.
Qed.

(** ** Recording *)

(** [j] succeeded in the workflow and [c] undoes it. *)
Record compensated (wf : string) (j c : SagaJob) : Prop := {
  cj_plain : isCompensationJob (sj_req j) = false;
  cj_workflow : saga_workflow_of (sj_req j) = wf;
  cj_named : TrimSpace (jr_JobId (sj_req j)) <> "";
  cj_built : buildCompensationRequest j = Ok (Some c);
  cj_wire : exists d, sg_marshal c = Ok d;
}.

Definition saga_job_id (j : SagaJob) : string := TrimSpace (jr_JobId (sj_req j)).
Definition recorded (wf : string) (st : SagaRedis) : gset string := default ∅ (sg_recorded st !! sagaDedupeKey wf).

Lemma record_spec wf j c w :
  compensated wf j c -> sagaStackKey wf <> "" ->
  exists d w', sg_marshal c = Ok d /\ RecordCompensation j w = (None, w') /\ sg_locks (sg_redis w') = sg_locks (sg_redis w)
    /\ if bool_decide (saga_job_id j ∈ recorded wf (sg_redis w)) then sg_redis w' = sg_redis w
       else pending wf (sg_redis w') = d :: pending wf (sg_redis w) /\ recorded wf (sg_redis w') = {[saga_job_id j]} ∪ recorded wf (sg_redis w).
Proof.
  intros [Hpl Hw Hn Hb [d Hd]] Hk. exists d. unfold RecordCompensation.
  assert (Hc : sj_Compensation j <> None) by (intros E; unfold buildCompensationRequest in Hb; by rewrite E in Hb).
  rewrite Hpl, bool_decide_false, Hw, eqb_ne, Hb, Hd by done. unfold gbind, gret. cbn [orb]. rewrite calm_call. fold (saga_job_id j).
  rewrite (eqb_ne (saga_job_id j) "") by done. eexists. split_and!; [done|done|..]; unfold recordCompensationScript; fold (recorded wf (sg_redis w));
    destruct (bool_decide _); cbn [fst snd sg_redis sg_locks]; try done.
  split.
  - unfold pending, stack_of. cbn [sg_stacks]. rewrite lookup_insert_eq. cbn [default from_option].
    destruct (String.eqb_spec (legacySagaStackKey wf) (sagaStackKey wf)); [done|]. by rewrite lookup_insert_ne by congruence.
  - unfold recorded. simpl. by rewrite lookup_insert_eq.
Qed.

Fixpoint record_all (js : list SagaJob) : saga unit :=
  match js with [] => gret tt | j :: js => gbind (RecordCompensation j) (fun _ => record_all js) end.

(** The jobs whose first success is in the list, given those that were seen. *)
Fixpoint firsts (seen : gset string) (l : list (SagaJob * SagaJob)) : list SagaJob :=
  match l with
  | [] => []
  | (j, c) :: l => if bool_decide (saga_job_id j ∈ seen) then firsts seen l else c :: firsts ({[saga_job_id j]} ∪ seen) l
  end.

Lemma record_all_spec wf l w :
  Forall (fun jc => compensated wf jc.1 jc.2) l -> sagaStackKey wf <> "" ->
  exists ds w', record_all (map fst l) w = (tt, w') /\ sg_locks (sg_redis w') = sg_locks (sg_redis w)
    /\ Forall2 (fun d c => sg_marshal c = Ok d) ds (reverse (firsts (recorded wf (sg_redis w)) l)) /\ pending wf (sg_redis w') = (ds ++ pending wf (sg_redis w))%list.
Proof.
  intros Hall Hk. revert w. induction Hall as [|[j c] l Hj _ IH]; intros w; simpl; [by exists [], w|].
  unfold gbind. destruct (record_spec wf j c w Hj Hk) as (d & w1 & Hd & -> & L1 & R1).
  destruct (IH w1) as (ds & w2 & -> & L2 & F2 & P2). rewrite L1 in L2. destruct (bool_decide _); simpl in R1.
  - rewrite R1 in *. by exists ds, w2.
  - destruct R1 as [P1 R1]. rewrite R1, P1 in *. exists (ds ++ [d])%list, w2. rewrite <- app_assoc, reverse_cons.
    split_and!; [done|done|apply Forall2_app; [done|by constructor]|done].
Qed.
End Calm.

Lemma firsts_compensated `{SagaEnv} wf l seen :
  Forall (fun jc => compensated wf jc.1 jc.2) l -> Forall (fun c => exists j, compensated wf j c) (firsts seen l).
Proof.
  intros Hall. revert seen. induction Hall as [|[j c] l Hj _ IH]; intros seen; simpl; [done|].
  destruct (bool_decide _); [apply IH|]. constructor; [eauto|apply IH].
Qed.

(** C25: jobs of a workflow that succeed, some of them reported more than once, and
    then a rollback with redis, the bus and the checker answering: the rollback
    succeeds and submits the compensation of each job once, the last success first,
    and the stack is empty. *)
Theorem undone_in_reverse `{SagaEnv} (wf : string) (l : list (SagaJob * SagaJob)) (w w1 w2 : SagaWorld) (r : option (option string)) :
  calm -> sagaStackKey wf <> "" -> pending wf (sg_redis w) = [] -> recorded wf (sg_redis w) = ∅ -> sg_locks (sg_redis w) !! sagaLockKey wf = None ->
  Forall (fun jc => compensated wf jc.1 jc.2) l ->
  record_all (map fst l) w = (tt, w1) -> Rollback wf w1 = (r, w2) ->
  r = Some None /\ pending wf (sg_redis w2) = []
  /\ exists evs, sg_trace w2 = (sg_trace w1 ++ evs)%list /\ Forall2 (undoes wf) (reverse (firsts ∅ l)) (submissions evs).
Proof.
  intros Hcalm Hk Hp Hrec Hlock Hall Hrecord. destruct (record_all_spec Hcalm wf l w Hall Hk) as (ds & w1' & E & L & F & P).
  rewrite E in Hrecord. injection Hrecord as ->. rewrite Hrec in F. rewrite Hp, app_nil_r in P.
  assert (Hgood : Forall2 (fun d c => sg_unmarshal d = Ok c /\ with_identity c = Ok c /\ TrimSpace (jr_Topic (sj_req c)) <> "") ds (reverse (firsts ∅ l))).
  { assert (HF : Forall (fun c => exists j, compensated wf j c) (reverse (firsts ∅ l))) by (apply Forall_reverse, firsts_compensated, Hall).
    revert HF. clear P. induction F as [|d c ds' cs Hd _ IH]; intros HF; [done|]. apply Forall_cons in HF as [(j & Hj) HF]. constructor; [|by apply IH].
    split; [by apply (calm_codec Hcalm)|]. by apply (built_dispatchable j), (cj_built _ _ _ Hj). }
  clear F. unfold Rollback. rewrite eqb_ne by done. unfold gbind at 1, gtrace, gbind at 1. rewrite (calm_call Hcalm).
  unfold SetNX. rewrite L, Hlock. cbn [fst snd]. unfold gbind. set (w3 := mkSagaWorld _ _).
  assert (P3 : pending wf (sg_redis w3) = ds) by exact P.
  destruct (calm_loop Hcalm (rollback_fuel (sagaStackKey wf) wf (sg_redis w3)) wf ds _ w3 P3 Hgood) as (w4 & evs & -> & A & Pn & F);
    [rewrite <- P3; apply pending_length|].
  rewrite (calm_call Hcalm). intros [= <- <-]. split_and!; [done|done|].
  exists ([SgRedis "setnx" false] ++ evs ++ [SgRedis "del" false])%list. cbn [sg_trace]. unfold adds in A. rewrite A. unfold w3. cbn [sg_trace].
  split; [by rewrite <- !app_assoc|]. rewrite !submissions_app. simpl. by rewrite app_nil_r.
Qed.
