(* ===== verification/SagaDemo.v ===== *)
(** * Sagas, run

    Two jobs of a workflow and the requests that undo them: the theorems of
    [SagaTheorems] at work, and what the code does that it should not. *)
From Stdlib Require Import Ascii.
From S2P Require Import Prelude.
From S2P Require Import GoStrings.
From S2P Require Import PolicyTypes.
From S2P Require Import GoValues.
From S2P Require Import GoBase64.
From S2P Require Import GoSha256.
From S2P Require Import WorkflowModels.
From S2P Require Import JobIdentity.
From S2P Require Import JobMeta.
From S2P Require Import JobApproval.
From S2P Require Import SchedulerEnv.
From S2P Require Import Saga.
From S2P Require Import SagaTheorems.

Open Scope string_scope.

#[local] Instance JobMetadata_dec : EqDecision WorkflowModels.JobMetadata.
Proof. solve_decision. Defined.
#[local] Instance JobPriority_dec : EqDecision JobPriority.
Proof. solve_decision. Defined.
#[local] Instance DispatchIdentity_dec : EqDecision DispatchIdentity.
Proof. solve_decision. Defined.
#[local] Instance JobRequest_dec : EqDecision JobRequest.
Proof. solve_decision. Defined.
#[local] Instance Compensation_dec : EqDecision Compensation.
Proof. solve_decision. Defined.
#[local] Instance SagaJob_dec : EqDecision SagaJob.
Proof. solve_decision. Defined.

Definition undo (topic tenant : string) (env : gmap string string) : Compensation :=
  mkCompensation topic "" None "" "" None None tenant "" None env ∅ None.
Definition step_job (jobID tenant : string) (comp : Compensation) : SagaJob :=
  mkSagaJob (mkJobRequest jobID "job.step" JOB_PRIORITY_BATCH "" "wf-1" "" ∅ ∅ tenant "alice" None None "" None None None) "" 0 None None (Some comp).

Definition job_a : SagaJob := step_job "a" "acme" (undo "undo.a" "" ∅).
Definition job_b : SagaJob := step_job "b" "acme" (undo "job.undo.b" "evil" ∅).
Definition built (j : SagaJob) : SagaJob := match buildCompensationRequest j with Ok (Some c) => c | _ => j end.
Definition comp_a : SagaJob := Eval vm_compute in built job_a.
Definition comp_b : SagaJob := Eval vm_compute in built job_b.

(** Everything answers, but for what [fault] and [refused] say. *)
Definition demo_saga (fault : list SagaEvent -> string -> option (string * bool)) (refused : list SagaEvent -> option string) : SagaEnv := {|
  sg_marshal j := if decide (j = comp_a) then Ok "A" else if decide (j = comp_b) then Ok "B" else Err "invalid UTF-8";
  sg_unmarshal d := if d =s? "A" then Ok comp_a else if d =s? "B" then Ok comp_b else Err "unexpected EOF";
  sg_fault := fault;
  sg_publish tr _ := refused tr;
  sg_uuid tr := Itoa (Z.of_nat (length tr));
  sg_now tr := Z.of_nat (length tr);
  sg_safety := Some (fun _ _ => (mkSafetyDecisionRecord SafetyAllow "" "" "" None false "" "" [] 0 "" "" 0 "", None));
  sg_mint := None;
|}.
Definition calm_saga : SagaEnv := demo_saga (fun _ _ => None) (fun _ => None).
Definition no_saga : SagaWorld := mkSagaWorld (mkSagaRedis ∅ ∅ ∅) [].

Lemma calm_saga_calm : @calm calm_saga.
Proof.
  split; simpl; [done|done|by intros tr j; vm_compute|].
  intros j d. repeat case_decide; [by intros [= <-]; subst|by intros [= <-]; subst|done].
Qed.

(** Both jobs succeed, the first is reported again, and the workflow is rolled back. *)
Definition recorded_world : SagaWorld := (@record_all calm_saga [job_a; job_b; job_a] no_saga).2.
Definition rolled_world : SagaWorld := (@Rollback calm_saga "wf-1" recorded_world).2.

Example rolled_submissions :
  map (fun j => (jr_Topic (sj_req j), jr_TenantId (sj_req j), sj_ParentJobId j)) (submissions (sg_trace rolled_world))
  = [("job.undo.b", "acme", "b"); ("job.undo.a", "acme", "a")].
Proof. by vm_compute. Qed.

Lemma undone_in_reverse_witness :
  exists evs, sg_trace rolled_world = (sg_trace recorded_world ++ evs)%list /\ Forall2 (undoes "wf-1") [comp_b; comp_a] (submissions evs).
Proof.
  destruct (@undone_in_reverse calm_saga "wf-1" [(job_a, comp_a); (job_b, comp_b); (job_a, comp_a)] no_saga recorded_world rolled_world
              (@Rollback calm_saga "wf-1" recorded_world).1 calm_saga_calm) as (_ & _ & evs & Ht & Hf).
  - by vm_compute.
  - by vm_compute.
  - by vm_compute.
  - by vm_compute.
  - repeat constructor; simpl; try (by vm_compute); eexists; by vm_compute.
  - by vm_compute.
  - unfold rolled_world. by destruct (Rollback _ _).
  - exists evs. split; [exact Ht|exact Hf].
Defined.

Lemma compensation_keeps_authority_witness :
  buildCompensationRequest job_b = Ok (Some comp_b) /\ jr_TenantId (sj_req comp_b) = "acme".
Proof.
  split; [by vm_compute|].
  destruct (compensation_keeps_authority job_b comp_b) as (base' & Hi & Ht & _); [by vm_compute|].
  rewrite Ht. vm_compute in Hi. injection Hi as <-. reflexivity.
Defined.


(** ** Findings *)

(** The compensation is popped before it is published: when the bus refuses it, the
    rollback reports the error, and the next one no longer finds it. *)
Lemma refused_compensation_lost :
  let env := demo_saga (fun _ _ => None) (fun tr => if (length tr <? 8)%nat then Some "nats: timeout" else None) in
  let '(r, w) := @Rollback env "wf-1" recorded_world in
  let '(r', w') := @Rollback env "wf-1" w in
  r = Some (Some "publish compensation: nats: timeout") /\ r' = Some None
  /\ map sj_ParentJobId (submissions (sg_trace w')) = ["b"; "a"] /\ pending "wf-1" (sg_redis w') = []
  /\ omap (fun e => match e with SgPublish _ (SagaSubmit _ _ _ _ j) false => Some (sj_ParentJobId j) | _ => None end) (sg_trace w') = ["a"].
Proof. by vm_compute. Qed.

(** A job that names no tenant runs as the default one; the environment of its
    compensation names another, and the compensation runs as that. *)
Lemma compensation_env_escalates :
  let job := step_job "a" "" (undo "undo.a" "" {["tenant_id" := "victim"]}) in
  ExtractTenant (sj_req job) = DefaultTenant /\ ExtractTenant (sj_req (built job)) = "victim".
Proof. by vm_compute. Qed.
