(* ===== verification/SchedulerServices.v ===== *)
(** * The services beside the engine

    core/controlplane/scheduler: reconciler.go (jobs that took too long, expired
    deadlines, approvals to repair), pending_replayer.go (jobs the engine is given
    again) and failmode.go (what a tenant wants when the safety kernel is down), with
    the queries of core/infra/store/job_store.go they start from.

    Each sweep is one computation over the store and the trace of [SchedulerEnv];
    the tickers, the lock around a sweep and its renewal, and the metrics are left
    out.  Durations are nanoseconds, the store's times microseconds. *)
From Stdlib Require Import Ascii.
From stdpp Require Import sorting.
From S2P Require Import Prelude.
From S2P Require Import GoStrings.
From S2P Require Import PolicyTypes.
From S2P Require Import JobRuntime.
From S2P Require Import JobStore.
From S2P Require Import GoValues.
From S2P Require Import WorkflowModels.
From S2P Require Import JobIdentity.
From S2P Require Import JobMeta.
From S2P Require Import JobApproval.
From S2P Require Import SchedulerEnv.
From S2P Require Import Scheduler.

Open Scope string_scope.

(** ** Queries by state and by deadline *)

(** [model.JobRecord], with the fields its readers here look at. *)
Record JobRecord := mkJobRecord { rec_ID : string; rec_TraceID : string; rec_UpdatedAt : Z; rec_State : string; rec_DeadlineUnix : Z }.

Definition microsPerSecond : Z := 1000000.
Definition microsPerMillisecond : Z := 1000.
Definition secondsThreshold : Z := 1000000000000.
Definition millisThreshold : Z := 1000000000000000.
Definition microsThreshold : Z := 1000000000000000000.

(** The last microsecond of a time given in seconds, milliseconds, microseconds or
    nanoseconds. *)
Definition normalizeTimestampMicrosUpper (ts : Z) : Z :=
  if (ts <=? 0)%Z then ts
  else if (ts <? secondsThreshold)%Z then (ts * microsPerSecond + (microsPerSecond - 1))%Z
  else if (ts <? millisThreshold)%Z then (ts * microsPerMillisecond + (microsPerMillisecond - 1))%Z
  else if (ts <? microsThreshold)%Z then ts
  else Z.quot ts microsPerMillisecond.

(** [ZRANGEBYSCORE key -inf max LIMIT 0 n]: by score, then by member. *)
Definition rank_le (x y : string * Z) : Prop := ranks_above x y = false.
#[export] Instance rank_le_dec : RelDecision rank_le.
Proof. intros x y. unfold rank_le. apply _. Defined.

Definition ZRangeByScore (z : gmap string Z) (max limit : Z) : list (string * Z) :=
  firstn (Z.to_nat limit) (List.filter (fun ks => (snd ks <=? max)%Z) (merge_sort rank_le (map_to_list z))).

Definition or_hundred (limit : Z) : Z := if (limit <=? 0)%Z then 100%Z else limit.

Definition getDeadline (jobID : string) (st : jredis) : Z :=
  match HGet (jobMetaKey jobID) metaFieldDeadline st with Some raw => default 0%Z (Atoi raw) | None => 0%Z end.

Definition ListJobsByState (state : string) (updatedBefore limit : Z) (st : jredis) : result StoreError (list JobRecord) :=
  let key := stateIndexKey state in
  if key =s? "" then Err (ErrMessage ("unknown state " +:+ state))
  else Ok (map (fun '(id, score) => mkJobRecord id "" score state (getDeadline id st))
             (ZRangeByScore (zset_at st key) (normalizeTimestampMicrosUpper updatedBefore) (or_hundred limit))).

Definition ListExpiredDeadlines (nowUnix limit : Z) (st : jredis) : list JobRecord :=
  map (fun '(id, score) => mkJobRecord id "" score "" score)
    (ZRangeByScore (zset_at st deadlineIndexKey) (normalizeTimestampMicrosUpper nowUnix) (or_hundred limit)).

(** ** [time.Duration.String] *)

Fixpoint trim_zeros (s : string) : string :=
  match s with
  | EmptyString => EmptyString
  | String c s => match trim_zeros s with
                  | EmptyString => if Ascii.eqb c "0"%char then EmptyString else String c EmptyString
                  | s => String c s
                  end
  end.
Fixpoint zeros (n : nat) : string := match n with O => "" | S n => String "0"%char (zeros n) end.

(** [v / 10^digits] with its fraction, no trailing zeros. *)
Definition decimal (v : Z) (digits : nat) : string :=
  let p := (10 ^ Z.of_nat digits)%Z in
  let frac := Itoa (v mod p)%Z in
  let frac := trim_zeros (zeros (digits - String.length frac) +:+ frac) in
  Itoa (v / p)%Z +:+ (if frac =s? "" then "" else "." +:+ frac).

Definition DurationString (d : Z) : string :=
  let u := Z.abs d in
  let s := if (u =? 0)%Z then "0s"
           else if (u <? 1000)%Z then Itoa u +:+ "ns"
           else if (u <? 1000000)%Z then decimal u 3 +:+ String "194" (String "181" "s")
           else if (u <? second)%Z then decimal u 6 +:+ "ms"
           else let m := (u / second / 60)%Z in
                (if (m / 60 =? 0)%Z then "" else Itoa (m / 60) +:+ "h")
                +:+ (if (m =? 0)%Z then "" else Itoa (m mod 60) +:+ "m")
                +:+ decimal (u mod (60 * second)) 9 +:+ "s" in
  if (d <? 0)%Z then "-" +:+ s else s.

Example duration_minute : DurationString (60 * second) = "1m0s".
Proof. by vm_compute. Qed.
Example duration_frac : DurationString (3600 * second + 500000000) = "1h0m0.5s".
Proof. by vm_compute. Qed.

Definition timeoutFailureReason (state : string) (timeout : Z) : string := "timeout: " +:+ state +:+ " >" +:+ DurationString timeout.

(** ** The reconciler *)

Record Reconciler := mkReconciler { rc_dispatchTimeout : Z; rc_runningTimeout : Z; rc_scheduledTimeout : Z }.

Definition NewReconciler (dispatchTimeout runningTimeout : Z) : Reconciler := mkReconciler dispatchTimeout runningTimeout (60 * second).

Definition UpdateTimeouts (dispatchTimeout runningTimeout : Z) (r : Reconciler) : Reconciler :=
  mkReconciler (if (0 <? dispatchTimeout)%Z then dispatchTimeout else rc_dispatchTimeout r)
    (if (0 <? runningTimeout)%Z then runningTimeout else rc_runningTimeout r) (rc_scheduledTimeout r).

Definition timeoutIterations : nat := 100.
Definition maxRetriesPerJob : Z := 3.
Definition sweepLimit : Z := 200.

(** [now.Add(-d)] in microseconds. *)
Definition micros_before (now d : Z) : Z := Z.quot (now * 1000 - d) 1000.

Section Services.
Context `{ProtoCodec} `{SchedEnv}.

Definition store_SetState (jobID state : string) : sched (result serror unit) :=
  now <- snow ;;
  scall "SetState" (SetState_steps now jobID state)
    (fun st => match SetState now jobID state st with (st', None) => (st', Ok tt) | (st', Some e) => (st', Err e) end).

Definition recordApprovalExpiry : sched unit := slog (SvAsk "approval expired").

(** One record of an iteration: the failures so far and the progress. *)
Definition timeout_one (state reason : string) (acc : gmap string Z * nat) (rec : JobRecord) : sched (gmap string Z * nat) :=
  let '(failed, progress) := acc in
  if (maxRetriesPerJob <=? default 0 (failed !! rec_ID rec))%Z then sret acc
  else
    e <- store_SetState (rec_ID rec) JobStateTimeout ;;
    match e with
    | Err _ => sret (<[rec_ID rec := (default 0 (failed !! rec_ID rec) + 1)%Z]> failed, progress)
    | Ok _ =>
        swrite "SetFailureReason" (SetFailureReason (rec_ID rec) reason) ;;;
        (if state =s? JobStateApproval then recordApprovalExpiry else sret tt) ;;;
        sret (failed, S progress)
    end.

Fixpoint timeout_each (state reason : string) (records : list JobRecord) (acc : gmap string Z * nat) : sched (gmap string Z * nat) :=
  match records with
  | [] => sret acc
  | rec :: records => acc <- timeout_one state reason acc rec ;; timeout_each state reason records acc
  end.

Fixpoint timeout_loop (n : nat) (state : string) (cutoff : Z) (reason : string) (failed : gmap string Z) : sched unit :=
  match n with
  | O => sret tt
  | S n =>
      r <- sread "ListJobsByState" (ListJobsByState state cutoff sweepLimit) ;;
      match r with
      | Err _ | Ok [] => sret tt
      | Ok records =>
          acc <- timeout_each state reason records (failed, O) ;;
          match snd acc with
          | O => down <- ask "wait" s_shutdown ;;
                 match down with Some _ => sret tt | None => timeout_loop n state cutoff reason (fst acc) end
          | S _ => timeout_loop n state cutoff reason (fst acc)
          end
      end
  end.

Definition handleTimeouts (state : string) (cutoff timeout : Z) : sched unit :=
  timeout_loop timeoutIterations state cutoff (timeoutFailureReason state timeout) ∅.

Definition expire_one (rec : JobRecord) : sched unit :=
  e <- store_SetState (rec_ID rec) JobStateTimeout ;;
  match e with
  | Err _ => sret tt
  | Ok _ =>
      swrite "SetFailureReason" (SetFailureReason (rec_ID rec) "timeout: deadline expired") ;;;
      (if rec_State rec =s? JobStateApproval then recordApprovalExpiry else sret tt)
  end.

(** [now] in microseconds; the query is asked in seconds. *)
Definition handleDeadlineExpirations (now : Z) : sched unit :=
  r <- sread "ListExpiredDeadlines" (fun st => Ok (ListExpiredDeadlines (Z.quot now microsPerSecond) sweepLimit st)) ;;
  match r with Err _ => sret tt | Ok records => sfor expire_one records end.

Definition autoApplyApprovalRepair (plan : ApprovalRepairPlan) : bool :=
  match pl_Kind plan with
  | ApprovalRepairApplyApprovedResolution | ApprovalRepairApplyRejectedResolution
  | ApprovalRepairInvalidateStaleRequest | ApprovalRepairInvalidateStaleSnapshot => true
  | _ => false
  end.

(** The store reports every failure of a repair as one error here. *)
Definition apply_repair (now : Z) (jobID : string) (plan : ApprovalRepairPlan) (st : jredis) : result StoreError jredis :=
  match ApplyApprovalRepair now jobID plan "system/reconciler" "auto-reconciled inconsistent approval state" st with
  | Ok (st', _) => Ok st'
  | Err _ => Err (ErrMessage "approval repair")
  end.

Definition repair_one (currentSnapshot : string) (progress : nat) (rec : JobRecord) : sched nat :=
  r <- sread "InspectApprovalRepair" (InspectApprovalRepair (rec_ID rec)) ;;
  match r with
  | Err _ => sret progress
  | Ok snapshot =>
      let stored := sd_PolicySnapshot (rs_SafetyRecord snapshot) in
      let stale := negb (currentSnapshot =s? "") && negb (stored =s? "") && negb (snapshotBase currentSnapshot =s? snapshotBase stored) in
      let plan := ClassifyApprovalRepair snapshot (mkClassifyOptions false stale) in
      if negb (pl_Repairable plan) || negb (autoApplyApprovalRepair plan) then sret progress
      else now <- snow ;;
           e <- swrite "ApplyApprovalRepair" (apply_repair now (rec_ID rec) plan) ;;
           sret (match e with Err _ => progress | Ok _ => S progress end)
  end.

Fixpoint repair_each (currentSnapshot : string) (records : list JobRecord) (progress : nat) : sched nat :=
  match records with
  | [] => sret progress
  | rec :: records => progress <- repair_one currentSnapshot progress rec ;; repair_each currentSnapshot records progress
  end.

Fixpoint repair_loop (n : nat) (currentSnapshot : string) (cutoff : Z) : sched unit :=
  match n with
  | O => sret tt
  | S n =>
      r <- sread "ListJobsByState" (ListJobsByState JobStateApproval cutoff sweepLimit) ;;
      match r with
      | Err _ | Ok [] => sret tt
      | Ok records =>
          progress <- repair_each currentSnapshot records 0 ;;
          match progress with O => sret tt | S _ => repair_loop n currentSnapshot cutoff end
      end
  end.

(** [provider]: the current policy snapshot, when the reconciler can ask for it. *)
Definition handleApprovalRepairs (provider : option (list SEvent -> string)) (now : Z) : sched unit :=
  snapshot <- match provider with Some p => ask "policy snapshot" p | None => sret "" end ;;
  repair_loop timeoutIterations snapshot (now + microsPerSecond).

Definition reconcile (r : Reconciler) (provider : option (list SEvent -> string)) : sched unit :=
  now <- snow ;;
  handleTimeouts JobStateScheduled (micros_before now (rc_scheduledTimeout r)) (rc_scheduledTimeout r) ;;;
  handleTimeouts JobStateDispatched (micros_before now (rc_dispatchTimeout r)) (rc_dispatchTimeout r) ;;;
  handleTimeouts JobStateRunning (micros_before now (rc_runningTimeout r)) (rc_runningTimeout r) ;;;
  handleDeadlineExpirations now ;;;
  handleApprovalRepairs provider now.

(** ** The pending replayer *)

Definition NewPendingReplayer (pendingAge : Z) : Z := if (pendingAge <=? 0)%Z then 120 * second else pendingAge.

Definition replayApprovalPublish (traceID : string) (req : JobRequest) (approval : ApprovalRecord) : handler :=
  match (if s_productionIdentity then NormalizeProductionJobRequest req (jr_Identity req) else Ok req) with
  | Err e => sret (Some (plain ("approval replay identity: " +:+ e)))
  | Ok req =>
      let target := ar_PublishTarget approval in
      if target =s? "submit" then handleJobRequest req traceID
      else if (target =s? "dlq") || (target =s? "dlq_and_result") then
        let jobID := TrimSpace (jr_JobId req) in
        if jobID =s? "" then sret (Some (plain "approval replay requires job id"))
        else
          let message := TrimSpace (ar_Reason approval) in
          let message := if message =s? "" then "approval rejected" else message in
          let packet := mkSPacket traceID defaultSenderID (jr_Identity req) ""
                          (SJobResult (mkJobOutcome jobID JOB_STATUS_DENIED "approval_rejected" ERROR_CODE_SAFETY_DENIED message "" defaultSenderID (jr_Identity req) None)) in
          e <- publish SubjectDLQ packet ;;
          match e with
          | Some e => sret (Some (plain ("replay approval dlq publish: " +:+ er_msg e)))
          | None =>
              if target =s? "dlq_and_result" then
                e <- publishSchedulerResult packet ;;
                sret ((fun e => mkError (er_is e) ("replay approval result publish: " +:+ er_msg e) (er_delay e)) <$> e)
              else sret None
          end
      else sret None
  end.

Definition mark_published (jobID : string) (approval : ApprovalRecord) : sched (result serror unit) :=
  now <- snow ;;
  swrite "MarkApprovalPublishComplete" (MarkApprovalPublishComplete now jobID (ar_Revision approval) (ar_PublishTarget approval)).

(** Go on with the stored request, if it can be loaded. *)
Definition with_request (jobID : string) (k : JobRequest -> sched unit) : sched unit :=
  r <- sread "GetJobRequest" (GetJobRequest jobID) ;;
  match r with Err _ => sret tt | Ok req => k req end.

(** The records of a state that are older than the cutoff. *)
Definition replaying (state : string) (cutoff : Z) (one : JobRecord -> sched unit) : sched unit :=
  r <- sread "ListJobsByState" (ListJobsByState state cutoff sweepLimit) ;;
  match r with Err _ => sret tt | Ok records => sfor one records end.

Definition replay_pending_one (rec : JobRecord) : sched unit :=
  with_request (rec_ID rec) (fun req =>
    e <- handleJobRequest req (rec_TraceID rec) ;;
    match e with
    | Some _ => sret tt
    | None =>
        a <- sread "GetApprovalRecord" (GetApprovalRecord (rec_ID rec)) ;;
        match a with
        | Err _ => sret tt
        | Ok approval =>
            if HasPendingPublish approval && (ar_PublishTarget approval =s? "submit") then mark_published (rec_ID rec) approval ;;; sret tt
            else sret tt
        end
    end).
Definition replayPending (cutoff : Z) : sched unit := replaying JobStatePending cutoff replay_pending_one.

Definition in_state (jobID state : string) (k : sched unit) : sched unit :=
  r <- store_GetState jobID ;;
  match r with Ok s => if s =s? state then k else sret tt | Err _ => sret tt end.

Definition replay_approved_one (rec : JobRecord) : sched unit :=
  in_state (rec_ID rec) JobStateApproval (
    with_request (rec_ID rec) (fun req =>
      if negb (get_str (jr_Labels req) "approval_granted" =s? "true") then sret tt
      else handleJobRequest req (rec_TraceID rec) ;;; sret tt)).
Definition replayApproved (cutoff : Z) : sched unit := replaying JobStateApproval cutoff replay_approved_one.

Definition replay_rejected_one (rec : JobRecord) : sched unit :=
  in_state (rec_ID rec) JobStateDenied (
    a <- sread "GetApprovalRecord" (GetApprovalRecord (rec_ID rec)) ;;
    match a with
    | Err _ => sret tt
    | Ok approval =>
        if negb (HasPendingPublish approval) then sret tt
        else if negb (ar_PublishTarget approval =s? "dlq") && negb (ar_PublishTarget approval =s? "dlq_and_result") then sret tt
        else with_request (rec_ID rec) (fun req =>
               e <- replayApprovalPublish (rec_TraceID rec) req approval ;;
               match e with Some _ => sret tt | None => mark_published (rec_ID rec) approval ;;; sret tt end)
    end).
Definition replayRejected (cutoff : Z) : sched unit := replaying JobStateDenied cutoff replay_rejected_one.

Definition replay_scheduled_one (rec : JobRecord) : sched unit :=
  with_request (rec_ID rec) (fun req => handleJobRequest req (rec_TraceID rec) ;;; sret tt).
Definition replayScheduled (cutoff : Z) : sched unit := replaying JobStateScheduled cutoff replay_scheduled_one.

Definition replay (pendingAge : Z) : sched unit :=
  now <- snow ;;
  let cutoff := micros_before now pendingAge in
  replayPending cutoff ;;; replayApproved cutoff ;;; replayRejected cutoff ;;; replayScheduled cutoff.

End Services.

(** ** Fail modes of the tenants *)

(** Modes are ["open"], ["closed"] or [""] for the system's default. *)
Record tenantFailModes := mkFailModes { fm_inputMode : string; fm_asyncMode : string; fm_fetchedAt : Z }.

(** [fr_refreshing]: the tenants a refresh is under way for.  Without a config
    provider nothing is ever fetched. *)
Record FailModeResolver := mkResolver {
  fr_provider : bool;
  fr_cacheTTL : Z;
  fr_systemInput : string;
  fr_systemAsync : string;
  fr_tenants : gmap string tenantFailModes;
  fr_refreshing : gset string;
}.

Definition NewFailModeResolver (provider : bool) (ttl : Z) : FailModeResolver :=
  mkResolver provider (if (ttl <=? 0)%Z then 30 * second else ttl) "" "" ∅ ∅.

Definition SetSystemInputMode (mode : string) (r : FailModeResolver) : FailModeResolver :=
  mkResolver (fr_provider r) (fr_cacheTTL r) mode (fr_systemAsync r) (fr_tenants r) (fr_refreshing r).
Definition SetSystemAsyncMode (mode : string) (r : FailModeResolver) : FailModeResolver :=
  mkResolver (fr_provider r) (fr_cacheTTL r) (fr_systemInput r) mode (fr_tenants r) (fr_refreshing r).
Definition set_tenants (t : gmap string tenantFailModes) (r : FailModeResolver) : FailModeResolver :=
  mkResolver (fr_provider r) (fr_cacheTTL r) (fr_systemInput r) (fr_systemAsync r) t (fr_refreshing r).
Definition set_refreshing (s : gset string) (r : FailModeResolver) : FailModeResolver :=
  mkResolver (fr_provider r) (fr_cacheTTL r) (fr_systemInput r) (fr_systemAsync r) (fr_tenants r) s.

Definition Invalidate (orgID : string) (r : FailModeResolver) : FailModeResolver := set_tenants (delete orgID (fr_tenants r)) r.

Definition triggerBackgroundRefresh (orgID : string) (r : FailModeResolver) : FailModeResolver :=
  if fr_provider r then set_refreshing ({[orgID]} ∪ fr_refreshing r) r else r.

(** [data]: the effective configuration of the tenant, or the error of fetching it. *)
Definition RefreshTenant (now : Z) (orgID : string) (data : result string amap) (r : FailModeResolver) : FailModeResolver :=
  if negb (fr_provider r) || (orgID =s? "") then r
  else match data with
       | Err _ => r
       | Ok data =>
           let cfg := match aget data "scheduler" with Some v => default [] (as_map v) | None => [] end in
           set_tenants (<[orgID := mkFailModes (aget_string cfg "input_fail_mode") (aget_string cfg "output_fail_mode") now]> (fr_tenants r)) r
       end.

(** The goroutine of a refresh, when it runs. *)
Definition background_refresh (now : Z) (orgID : string) (data : result string amap) (r : FailModeResolver) : FailModeResolver :=
  let r := RefreshTenant now orgID data r in set_refreshing (fr_refreshing r ∖ {[orgID]}) r.

Definition loadTenantEntry (now : Z) (orgID : string) (r : FailModeResolver) : FailModeResolver * option tenantFailModes :=
  match fr_tenants r !! orgID with
  | None => (triggerBackgroundRefresh orgID r, None)
  | Some entry => (if (fr_cacheTTL r <? now - fm_fetchedAt entry)%Z then triggerBackgroundRefresh orgID r else r, Some entry)
  end.

(** [resolveInputMode] and [resolveAsyncMode], for the mode of an entry and the
    system's default. *)
Definition resolve_mode (pick : tenantFailModes -> string) (system : FailModeResolver -> string) (now : Z) (orgID : string)
    (r : FailModeResolver) : FailModeResolver * string :=
  if (orgID =s? "") || (orgID =s? "default") then (r, system r)
  else let '(r', entry) := loadTenantEntry now orgID r in
       (r', match entry with Some e => if pick e =s? "" then system r else pick e | None => system r end).
Definition resolveInputMode := resolve_mode fm_inputMode fr_systemInput.
Definition resolveAsyncMode := resolve_mode fm_asyncMode fr_systemAsync.

Definition InputFailOpen (now : Z) (orgID : string) (r : FailModeResolver) : FailModeResolver * bool :=
  let '(r, mode) := resolveInputMode now orgID r in (r, mode =s? "open").
Definition AsyncFailOpen (now : Z) (orgID : string) (r : FailModeResolver) : FailModeResolver * bool :=
  let '(r, mode) := resolveAsyncMode now orgID r in (r, mode =s? "open").
