(* ===== verification/ServicesTheorems.v ===== *)
(** * What the services promise

    A sweep of the reconciler leaves no job that has been in its state too long: each
    is timed out, with the reason, and no other job is touched.  With the time limits
    the scheduler is started with, the sweep leaves the replayer no scheduled job. *)
From Stdlib Require Import Ascii.
From stdpp Require Import sorting.
From S2P Require Import Prelude.
From S2P Require Import GoStrings.
From S2P Require Import PolicyTypes.
From S2P Require Import JobRuntime.
From S2P Require Import JobStore.
From S2P Require Import GoValues.
From S2P Require Import WorkflowModels.
From S2P Require Import JobIdentity.
From S2P Require Import JobMeta.
From S2P Require Import JobApproval.
From S2P Require Import ApprovalTheorems.
From S2P Require Import SchedulerEnv.
From S2P Require Import Scheduler.
From S2P Require Import SchedulerServices.

Open Scope string_scope.

(** ** Timing out one job *)

(** The states a job is timed out from. *)
Definition swept_states : list string := [JobStateScheduled; JobStateDispatched; JobStateRunning].

(** The runtime hash of the job, if it has one, can be moved to [TIMEOUT]. *)
Definition runtime_allows (st : jredis) (j : string) : Prop :=
  hash_exists st (jobRuntimeKey j) = true -> (transitionRuntimeStateScript (hash_at st (jobRuntimeKey j)) JobStateTimeout).2 = 1%Z.

(** The job is [TIMEOUT] in its metadata and in its runtime hash, if it has one. *)
Definition is_timed_out (j : string) (st : jredis) : Prop :=
  meta_state st j = Some JobStateTimeout
  /\ (hash_at st (jobRuntimeKey j) !! runtimeStateField = None \/ hash_at st (jobRuntimeKey j) !! runtimeStateField = Some JobStateTimeout).

Lemma timed_out_GetState j st : is_timed_out j st -> GetState j st = Some JobStateTimeout.
Proof. unfold is_timed_out, meta_state, GetState. intros [Hm [->| ->]]; [by rewrite Hm|done]. Qed.

(** The store with job [j] timed out of the state [s]: out of the index of [s], the
    other indexes of swept states and the other jobs as before. *)
Record timed_out (s j : string) (st st' : jredis) : Prop := {
  to_views : views st -> views st';
  to_index : forall t, t ∈ swept_states -> zset_at st' (stateIndexKey t) = if decide (t = s) then delete j (zset_at st (stateIndexKey t)) else zset_at st (stateIndexKey t);
  to_state : is_timed_out j st';
  to_meta : forall i, i <> j -> hash_at st' (jobMetaKey i) = hash_at st (jobMetaKey i);
  to_runtime : forall i, i <> j -> hash_at st' (jobRuntimeKey i) = hash_at st (jobRuntimeKey i);
}.

Lemma swept_projected s : s ∈ swept_states -> s ∈ projectedJobStates.
Proof. unfold swept_states, projectedJobStates. set_solver. Qed.

Lemma swept_allowed s : s ∈ swept_states -> isAllowedTransition s JobStateTimeout = true.
Proof.
  intros Hs. assert (HF : Forall (fun s => isAllowedTransition s JobStateTimeout = true) swept_states) by (repeat constructor; by vm_compute).
  rewrite Forall_forall in HF. by apply HF.
Qed.

(** The legacy half of the move. *)
Lemma legacy_zset now j s st st' :
  get_str (hash_at st (jobMetaKey j)) "state" = s -> s ∈ swept_states -> SetStateWithContext now j JobStateTimeout st = Ok st' ->
  forall t, t ∈ swept_states -> zset_at st' (stateIndexKey t) = if decide (t = s) then delete j (zset_at st (stateIndexKey t)) else zset_at st (stateIndexKey t).
Proof.
  intros Hm Hs. unfold SetStateWithContext. destruct (_ || _); [done|]. rewrite Hm. destruct (negb _); [done|].
  intros [= <-] t Ht. pose proof (swept_projected t Ht) as Htp. pose proof (swept_projected s Hs) as Hsp.
  assert (Hd : stateIndexKey t <> deadlineIndexKey) by (apply index_key_other; auto).
  assert (Hr : stateIndexKey t <> recentKey) by (apply index_key_other; auto).
  assert (Hto : stateIndexKey t <> stateIndexKey JobStateTimeout).
  { intros E. unfold swept_states in Ht. rewrite !elem_of_cons, elem_of_nil in Ht. destruct Ht as [->|[->|[->|[]]]]; discriminate E. }
  unfold pipeline, when. cbn [foldl]. set (tenant := get_str _ metaFieldTenant). change (terminalStates JobStateTimeout) with true.
  change (isActiveState JobStateTimeout) with false. cbv iota.
  transitivity (zset_at (ZRem deadlineIndexKey j (ZKeep recentKey 1000 (ZAdd recentKey now j (ZAdd (stateIndexKey JobStateTimeout) now j
    (if negb (stateIndexKey s =s? "") then ZRem (stateIndexKey s) j st else st))))) (stateIndexKey t)).
  { destruct (stateIndexKey s =s? ""), (tenant =s? ""); reflexivity. }
  assert (Hne : (stateIndexKey s =s? "") = false) by (unfold stateIndexKey; by rewrite (eqb_ne s "") by by apply projected_nonempty).
  rewrite Hne. cbn [negb]. unfold ZRem, ZKeep, ZAdd.
  rewrite !zset_at_put, !(decide_False (P := stateIndexKey t = recentKey)), decide_False, (decide_False (P := stateIndexKey t = stateIndexKey JobStateTimeout)) by done.
  destruct (decide (t = s)) as [->|Hts]; [by rewrite decide_True|]. rewrite decide_False; [done|]. intros E. by apply index_key_inj in E.
Qed.

Lemma runtime_state_after h : (transitionRuntimeStateScript h JobStateTimeout).2 = 1%Z -> (transitionRuntimeStateScript h JobStateTimeout).1 !! runtimeStateField = Some JobStateTimeout.
Proof.
  unfold transitionRuntimeStateScript. destruct (h !! runtimeStateField) as [c|] eqn:E; [|done].
  destruct (String.eqb_spec c JobStateTimeout) as [->|]; [done|]. destruct (containsJobState _ _); [|done]. intros _. simpl. by rewrite lookup_insert_eq.
Qed.

(** The legacy step after the runtime hash of [j] was moved, if it was. *)
Lemma legacy_timed_out now j s st st1 :
  j <> "" -> s ∈ swept_states -> meta_state st j = Some s ->
  (forall k, k <> jobRuntimeKey j -> hash_at st1 k = hash_at st k) -> zsets st1 = zsets st -> views st1 ->
  hash_at st1 (jobRuntimeKey j) !! runtimeStateField = None \/ hash_at st1 (jobRuntimeKey j) !! runtimeStateField = Some JobStateTimeout ->
  exists st', SetStateWithContext now j JobStateTimeout st1 = Ok st' /\ (views st' -> timed_out s j st st').
Proof.
  intros Hj Hs Hm Hk Hz Hv Hrun.
  assert (Hget : get_str (hash_at st1 (jobMetaKey j)) "state" = s) by (rewrite Hk by discriminate; unfold get_str; unfold meta_state in Hm; by rewrite Hm).
  assert (Hok : exists st', SetStateWithContext now j JobStateTimeout st1 = Ok st').
  { unfold SetStateWithContext. rewrite (eqb_ne j "") by done. rewrite Hget, (swept_allowed s Hs). by eexists. }
  destruct Hok as [st' Hst]. exists st'. split; [done|]. intros Hv'.
  pose proof (SetStateWithContext_moved _ _ _ _ _ (Hv j) Hst) as [_ Hmv].
  pose proof (SetStateWithContext_hash now j JobStateTimeout st1 st') as Hh.
  constructor; [done|..].
  - intros t Ht. rewrite (legacy_zset now j s st1 st' Hget Hs Hst t Ht). unfold zset_at. by rewrite Hz.
  - split; [apply (mv_state _ _ _ _ Hmv)|]. by rewrite (Hh _ Hst) by discriminate.
  - intros i Hi. rewrite (Hh _ Hst), Hk; [done|discriminate|]. intros E. by apply meta_key_inj in E.
  - intros i Hi. rewrite (Hh _ Hst), Hk; [done| |discriminate]. intros E. by apply runtime_key_inj in E.
Qed.

(** [SetState] on a job in a swept state that may be timed out. *)
Lemma SetState_times_out now j s st :
  j <> "" -> s ∈ swept_states -> views st -> meta_state st j = Some s -> runtime_allows st j ->
  exists st', SetState now j JobStateTimeout st = (st', None) /\ timed_out s j st st'.
Proof.
  intros Hj Hs Hv Hm Hr. pose proof (views_SetState now j JobStateTimeout st Hv) as Hv'. revert Hv'.
  unfold SetState, transitionRuntimeState, runtime_allows in *. rewrite (eqb_ne j "") by done. cbn [orb String.eqb].
  destruct (hash_exists st (jobRuntimeKey j)) eqn:He; cbn [negb].
  - specialize (Hr eq_refl). pose proof (runtime_state_after _ Hr) as Hstate.
    pose proof (views_put (OpTransition JobStateTimeout) j st) as Hvp. cbn [run_op int_reply fst] in Hvp.
    destruct (transitionRuntimeStateScript _ _) as [h c]. cbn [fst snd int_reply] in *. subst c. cbn [Z.eqb Pos.eqb].
    set (st1 := put_hash _ h st).
    assert (Hk : forall k, k <> jobRuntimeKey j -> hash_at st1 k = hash_at st k) by (intros k Hne; unfold st1; by rewrite hash_at_put, decide_False).
    assert (Hne : (get_str (hash_at st1 (jobMetaKey j)) runtimeStateField =s? JobStateTimeout) = false).
    { rewrite Hk by discriminate. unfold get_str, runtimeStateField. unfold meta_state in Hm. rewrite Hm. apply eqb_ne. intros E. simpl in E. subst s.
      unfold swept_states in Hs. rewrite !elem_of_cons, elem_of_nil in Hs. by destruct Hs as [?|[?|[?|[]]]]. }
    rewrite Hne. intros Hv'. destruct (legacy_timed_out now j s st st1 Hj Hs Hm Hk) as (st' & Hst & Hto); [done|by intros i; apply Hvp|right; unfold st1; by rewrite hash_at_put_eq|].
    rewrite Hst in *. exists st'. split; [done|by apply Hto].
  - intros Hv'. destruct (legacy_timed_out now j s st st Hj Hs Hm) as (st' & Hst & Hto); [done|done|done| |].
    { left. unfold hash_exists in He. apply negb_false_iff, bool_decide_eq_true in He. by rewrite He. }
    rewrite Hst in *. exists st'. split; [done|by apply Hto].
Qed.

Lemma reason_timed_out s j reason st st' :
  timed_out s j st st' ->
  timed_out s j st (HSet (jobMetaKey j) [("failure_reason", reason)] st')
  /\ hash_at (HSet (jobMetaKey j) [("failure_reason", reason)] st') (jobMetaKey j) !! "failure_reason" = Some reason.
Proof.
  intros [Hv Hi Hs Hm Hr]. unfold HSet. cbn [foldl]. split; [constructor|].
  - intros H. apply (views_fields j [("failure_reason", reason)]); [set_solver|set_solver|auto].
  - done.
  - unfold is_timed_out, meta_state in *. rewrite hash_at_put_eq, lookup_insert_ne, hash_at_put, decide_False by done. done.
  - intros i Hne. rewrite hash_at_put, decide_False by (intros E; by apply meta_key_inj in E). by apply Hm.
  - intros i Hne. rewrite hash_at_put, decide_False by discriminate. by apply Hr.
  - by rewrite hash_at_put_eq, lookup_insert_eq.
Qed.

(** ** Sweeping *)

(** The jobs of a state whose last change is no later than the cutoff. *)
Definition overdue (s : string) (cutoff : Z) (st : jredis) : gmap string Z :=
  filter (fun kv => (kv.2 <= normalizeTimestampMicrosUpper cutoff)%Z) (zset_at st (stateIndexKey s)).

(** A store the sweep can deal with: the views agree, and no overdue job has a runtime
    hash that refuses to be timed out. *)
Definition sweepable (s : string) (cutoff : Z) (st : jredis) : Prop :=
  views st /\ map_Forall (fun j _ => j <> "" /\ runtime_allows st j) (overdue s cutoff st).

(** Every job of [done] is timed out for [reason]; the rest is as in [st0]. *)
Definition swept (s : string) (reason : string) (done : list string) (st0 st : jredis) : Prop :=
  views st
  /\ (forall j, j ∈ done -> is_timed_out j st /\ hash_at st (jobMetaKey j) !! "failure_reason" = Some reason)
  /\ (forall t, t ∈ swept_states -> zset_at st (stateIndexKey t) =
        if decide (t = s) then foldr (fun j z => delete j z) (zset_at st0 (stateIndexKey t)) done else zset_at st0 (stateIndexKey t))
  /\ (forall i, i ∉ done -> hash_at st (jobMetaKey i) = hash_at st0 (jobMetaKey i) /\ hash_at st (jobRuntimeKey i) = hash_at st0 (jobRuntimeKey i)).

Lemma swept_nil s reason st : views st -> swept s reason [] st st.
Proof.
  intros Hv. split_and!; [done|by intros ? ?%elem_of_nil| |done]. intros t _. by destruct (decide _).
Qed.

Lemma swept_cons s reason j ds st0 st st' :
  swept s reason ds st0 st -> j ∉ ds -> timed_out s j st st' -> hash_at st' (jobMetaKey j) !! "failure_reason" = Some reason ->
  swept s reason (j :: ds) st0 st'.
Proof.
  intros (Hv & Hd & Hz & Hf) Hj [Hv' Hi Hs Hm Hr] Hreason. split_and!; [auto|..].
  - intros i [->|Hin]%elem_of_cons; [done|]. assert (Hne : i <> j) by congruence. destruct (Hd i Hin) as [H1 H2].
    unfold is_timed_out, meta_state in *. by rewrite Hm, Hr by done.
  - intros t Ht. rewrite Hi, Hz by done. by destruct (decide (t = s)).
  - intros i [Hne Hni]%not_elem_of_cons. destruct (Hf i Hni) as [<- <-]. by rewrite Hm, Hr by done.
Qed.

(** *** Listing *)

Lemma ZRange_length z max limit :
  length (ZRangeByScore z max limit) = Nat.min (Z.to_nat limit) (size (filter (fun kv : string * Z => (kv.2 <= max)%Z) z)).
Proof.
  unfold ZRangeByScore. rewrite length_firstn. f_equal.
  assert (Hf : forall l : list (string * Z), List.filter (fun ks => (snd ks <=? max)%Z) l = base.filter (fun kv : string * Z => (kv.2 <= max)%Z) l).
  { intros l. induction l as [|[k v] l IH]; [done|]. simpl. rewrite filter_cons. simpl. rewrite IH. destruct (Z.leb_spec v max); [rewrite decide_True by done|rewrite decide_False by (simpl; lia)]; done. }
  rewrite Hf, map_filter_alt, merge_sort_Permutation. rewrite <- (length_map_to_list (list_to_map _)).
  rewrite map_to_list_to_map; [done|]. eapply NoDup_fmap_fst; [|apply NoDup_filter, NoDup_map_to_list].
  intros x y1 y2 [_ H1]%list_elem_of_filter [_ H2]%list_elem_of_filter. apply elem_of_map_to_list in H1, H2. congruence.
Qed.

Lemma ZRange_elem z max limit k v : (k, v) ∈ ZRangeByScore z max limit -> z !! k = Some v /\ (v <= max)%Z.
Proof.
  unfold ZRangeByScore. intros Hin.
  assert (H : (k, v) ∈ List.filter (fun ks => (snd ks <=? max)%Z) (merge_sort rank_le (map_to_list z))).
  { rewrite <- (firstn_skipn (Z.to_nat limit)). apply elem_of_app. by left. }
  apply list_elem_of_In, filter_In in H as [H1%list_elem_of_In H2%Z.leb_le]. rewrite merge_sort_Permutation in H1. by apply elem_of_map_to_list in H1.
Qed.

Lemma ZRange_NoDup z max limit : NoDup (ZRangeByScore z max limit).*1.
Proof.
  unfold ZRangeByScore. rewrite <- firstn_map. apply (sublist_NoDup _ (map fst (merge_sort rank_le (map_to_list z)))).
  - rewrite merge_sort_Permutation. apply NoDup_fst_map_to_list.
  - etrans; [apply sublist_take|].
    induction (merge_sort rank_le (map_to_list z)) as [|x l IH]; [done|]. simpl. destruct (_ <=? _)%Z; by constructor.
Qed.

(** Deleting distinct members of a map. *)
Lemma size_foldr_delete (m : gmap string Z) l :
  NoDup l -> (forall k, k ∈ l -> is_Some (m !! k)) -> (size (foldr (fun j z => delete j z) m l) + length l)%nat = size m.
Proof.
  induction l as [|k l IH]; intros Hnd Hin; simpl; [lia|]. apply NoDup_cons in Hnd as [Hk Hnd].
  destruct (Hin k) as [v Hv]; [set_solver|].
  assert (Hv' : foldr (fun j z => delete j z) m l !! k = Some v).
  { clear -Hk Hv. induction l as [|a l IH]; [done|]. apply not_elem_of_cons in Hk as [Hne Hk]. simpl. rewrite lookup_delete_ne by done. by apply IH. }
  rewrite map_size_delete_Some by eauto.
  assert (0 < size (foldr (fun j z => delete j z) m l))%nat.
  { assert (size (foldr (fun j z => delete j z) m l) <> 0%nat); [|lia]. by eapply map_size_ne_0_lookup_2. }
  assert (size (foldr (fun j z => delete j z) m l) + length l = size m)%nat by (apply IH; [done|set_solver]). lia.
Qed.

(** *** The loop *)

Section Sweep.
Context `{ProtoCodec} `{SchedEnv}.
Context (Hnofault : forall tr name, s_fault tr name = None).
Context (s reason : string) (cutoff : Z) (st0 : jredis).
Context (Hs : s ∈ swept_states) (Hv0 : views st0) (Hok : map_Forall (fun j _ => j <> "" /\ runtime_allows st0 j) (overdue s cutoff st0)).

Lemma timeout_one_sweeps p rec ds w :
  swept s reason ds st0 (sw_store w) -> rec_ID rec ∉ ds -> is_Some (overdue s cutoff st0 !! rec_ID rec) ->
  exists w', timeout_one s reason (∅, p) rec w = ((∅, S p), w') /\ swept s reason (rec_ID rec :: ds) st0 (sw_store w').
Proof.
  intros Hsw Hni [v Hin]. pose proof Hsw as (Hv & _ & _ & Hf). destruct (Hok _ _ Hin) as [Hne Hr]. destruct (Hf _ Hni) as [Hm Hrt].
  assert (Hms : meta_state (sw_store w) (rec_ID rec) = Some s).
  { unfold meta_state. rewrite Hm. apply (v_index _ _ (Hv0 (rec_ID rec)) s); [by apply swept_projected|].
    apply map_lookup_filter_Some in Hin as [Hin _]. unfold in_zset. by apply elem_of_dom_2 in Hin. }
  assert (Hra : runtime_allows (sw_store w) (rec_ID rec)) by (unfold runtime_allows, hash_exists in *; by rewrite Hrt).
  unfold timeout_one. rewrite lookup_empty. cbn [default from_option]. change (maxRetriesPerJob <=? 0)%Z with false. cbv iota.
  cbv beta iota delta [store_SetState sbind snow slog strace scall sstore sput sret sw_trace sw_store]. destruct w as [st tr]. cbn [sw_store] in *. rewrite Hnofault.
  set (now := s_clock tr). destruct (SetState_times_out now (rec_ID rec) s st Hne Hs Hv Hms Hra) as (st1 & E1 & T1). rewrite E1.
  cbv beta iota delta [swrite scall sbind slog strace sstore sput sret SetFailureReason sw_trace sw_store]. rewrite Hnofault, (eqb_ne (rec_ID rec) "") by done.
  destruct (reason_timed_out _ _ reason _ _ T1) as [T2 F2].
  assert (Hna : (s =s? JobStateApproval) = false).
  { unfold swept_states in Hs. rewrite !elem_of_cons, elem_of_nil in Hs. by destruct Hs as [->|[->|[->|[]]]]. }
  rewrite Hna. eexists. split; [reflexivity|]. cbn [sw_store]. by eapply swept_cons.
Qed.

Lemma timeout_each_sweeps records p ds w :
  swept s reason ds st0 (sw_store w) -> NoDup (map rec_ID records) -> (forall j, j ∈ map rec_ID records -> (j ∉ ds) /\ is_Some (overdue s cutoff st0 !! j)) ->
  exists w', timeout_each s reason records (∅, p) w = ((∅, (length records + p)%nat) : gmap string Z * nat, w')
    /\ swept s reason (reverse (map rec_ID records) ++ ds)%list st0 (sw_store w').
Proof.
  revert p ds w. induction records as [|rec records IH]; intros p ds w Hsw Hnd Hall; [by exists w|].
  simpl in Hnd. apply NoDup_cons in Hnd as [Hn Hnd]. destruct (Hall (rec_ID rec)) as [Hni Hin]; [simpl; set_solver|].
  destruct (timeout_one_sweeps p rec ds w Hsw Hni Hin) as (w1 & E1 & S1). cbn [timeout_each length map]. unfold sbind. rewrite E1.
  destruct (IH (S p) (rec_ID rec :: ds) w1 S1 Hnd) as (w2 & E2 & S2).
  { intros j Hj. destruct (Hall j) as [H1 H2]; [simpl; set_solver|]. split; [|done]. apply not_elem_of_cons. split; [|done]. by intros ->. }
  exists w2. rewrite E2. split; [do 2 f_equal; lia|]. rewrite reverse_cons, <- app_assoc. done.
Qed.

(** What is left overdue when [ds] were swept. *)
Lemma overdue_left ds st : swept s reason ds st0 st -> overdue s cutoff st = foldr (fun j z => delete j z) (overdue s cutoff st0) ds.
Proof.
  intros (_ & _ & Hz & _). unfold overdue. rewrite (Hz s Hs), decide_True by done. clear Hz.
  induction ds as [|d ds IH]; [done|]. simpl. by rewrite map_filter_delete, IH.
Qed.

Lemma listed ds st :
  swept s reason ds st0 st ->
  exists records, ListJobsByState s cutoff sweepLimit st = Ok records /\ length records = Nat.min 200 (size (overdue s cutoff st))
    /\ NoDup (map rec_ID records) /\ (forall j, j ∈ map rec_ID records -> is_Some (overdue s cutoff st !! j))
    /\ (forall j, j ∈ map rec_ID records -> (j ∉ ds) /\ is_Some (overdue s cutoff st0 !! j)).
Proof.
  intros Hsw. pose proof (overdue_left ds st Hsw) as Hleft. unfold ListJobsByState.
  assert (Hk : (stateIndexKey s =s? "") = false).
  { unfold stateIndexKey. by rewrite (eqb_ne s "") by (by apply projected_nonempty, swept_projected). }
  rewrite Hk. eexists. split; [done|]. set (L := ZRangeByScore _ _ _).
  assert (Hids : map rec_ID (map (fun '(id, score) => mkJobRecord id "" score s (getDeadline id st)) L) = L.*1).
  { rewrite List.map_map. apply map_ext. by intros [id score]. }
  assert (Ho : forall j, j ∈ L.*1 -> is_Some (overdue s cutoff st !! j)).
  { intros j ([k v] & -> & Hin)%list_elem_of_fmap. apply ZRange_elem in Hin as [Hz Hle]. exists v. by apply map_lookup_filter_Some. }
  rewrite Hids, length_map. split_and!; [apply ZRange_length|apply ZRange_NoDup|done|].
  intros k [v Hk']%Ho. rename Hk' into Hkv. rewrite Hleft in Hkv. clear Ho. rename Hkv into Ho.
  clear -Ho. induction ds as [|d ds IH]; simpl in Ho; [split; [apply not_elem_of_nil|eauto]|].
  apply lookup_delete_Some in Ho as [Hne Ho]. destruct (IH Ho) as [Hn Hi]. split; [|done]. by apply not_elem_of_cons.
Qed.

Lemma timeout_loop_sweeps n ds w :
  swept s reason ds st0 (sw_store w) -> (forall j, j ∈ ds -> is_Some (overdue s cutoff st0 !! j)) -> (size (overdue s cutoff (sw_store w)) <= 200 * n)%nat ->
  exists ds' w', timeout_loop n s cutoff reason ∅ w = (tt, w') /\ swept s reason ds' st0 (sw_store w')
    /\ (forall j, j ∈ ds' -> is_Some (overdue s cutoff st0 !! j)) /\ overdue s cutoff (sw_store w') = ∅.
Proof.
  revert ds w. induction n as [|n IH]; intros ds w Hsw Hin Hsize.
  { exists ds, w. split_and!; [done|done|done|]. apply map_size_empty_inv. lia. }
  destruct w as [st tr]. cbn [sw_store] in *. destruct (listed ds st Hsw) as (records & Hl & Hlen & Hnd & Hcur & Hall).
  cbn [timeout_loop]. cbv beta iota delta [sread scall sbind slog strace sstore sput sret sw_trace sw_store]. rewrite Hnofault, Hl.
  set (w1 := mkSWorld st _). destruct records as [|rec records].
  { exists ds, w1. split_and!; [done|done|done|]. apply map_size_empty_inv. cbn [length] in Hlen. change (size (overdue s cutoff st) = 0%nat). lia. }
  destruct (timeout_each_sweeps (rec :: records) 0 ds w1 Hsw Hnd Hall) as (w2 & E2 & S2).
  unfold sbind in E2. rewrite E2. cbn [fst snd length Nat.add]. destruct (IH _ w2 S2) as (ds' & w' & El & Hsw' & Hin' & He); [..|exists ds', w'; split_and!; done].
  - intros j [Hj|Hj]%elem_of_app; [|by apply Hin]. rewrite elem_of_reverse in Hj. by destruct (Hall j Hj).
  - rewrite (overdue_left _ _ S2), foldr_app, <- (overdue_left ds st Hsw).
    pose proof (size_foldr_delete (overdue s cutoff st) (reverse (map rec_ID (rec :: records)))) as Hsz.
    rewrite length_reverse, length_map in Hsz.
    assert (Hd : forall k, k ∈ reverse (map rec_ID (rec :: records)) -> is_Some (overdue s cutoff st !! k))
      by (intros k Hk; rewrite elem_of_reverse in Hk; by apply Hcur).
    specialize (Hsz ltac:(by rewrite reverse_Permutation) Hd). lia.
Qed.
End Sweep.

(** C24: a sweep times out every job that is overdue.  Without store failures, from a
    store whose views agree and where no overdue job has a runtime hash that refuses,
    and with at most as many overdue jobs as the sweep can list, it ends with none
    left: each of them is [TIMEOUT] with the reason recorded, the views still agree and
    every other job is as it was. *)
Theorem overdue_jobs_time_out `{ProtoCodec} `{SchedEnv} (s : string) (cutoff timeout : Z) (w w' : SWorld) :
  (forall tr name, s_fault tr name = None) -> s ∈ swept_states -> sweepable s cutoff (sw_store w) ->
  (size (overdue s cutoff (sw_store w)) <= 200 * timeoutIterations)%nat ->
  handleTimeouts s cutoff timeout w = (tt, w') ->
  overdue s cutoff (sw_store w') = ∅ /\ views (sw_store w')
  /\ (forall j, j ∈ dom (overdue s cutoff (sw_store w)) ->
        GetState j (sw_store w') = Some JobStateTimeout
        /\ hash_at (sw_store w') (jobMetaKey j) !! "failure_reason" = Some (timeoutFailureReason s timeout))
  /\ (forall i, i ∉ dom (overdue s cutoff (sw_store w)) ->
        hash_at (sw_store w') (jobMetaKey i) = hash_at (sw_store w) (jobMetaKey i)
        /\ hash_at (sw_store w') (jobRuntimeKey i) = hash_at (sw_store w) (jobRuntimeKey i)).
Proof.
  intros Hnf Hs [Hv Hok] Hsize. unfold handleTimeouts.
  destruct (timeout_loop_sweeps Hnf s (timeoutFailureReason s timeout) cutoff (sw_store w) Hs Hv Hok timeoutIterations [] w)
    as (ds & w1 & -> & Hsw & Hin & He); [by apply swept_nil|by intros ? ?%elem_of_nil|done|].
  intros [= <-]. pose proof (overdue_left s _ cutoff _ Hs _ _ Hsw) as Hleft. destruct Hsw as (Hv' & Hd & _ & Hf).
  assert (Hall : forall j, j ∈ ds <-> j ∈ dom (overdue s cutoff (sw_store w))).
  { intros j. split; [intros Hj; by apply elem_of_dom, Hin|]. intros [v Hj]%elem_of_dom.
    destruct (decide (j ∈ ds)) as [|Hn]; [done|]. exfalso. rewrite He in Hleft.
    assert (Hl : foldr (fun j z => delete j z) (overdue s cutoff (sw_store w)) ds !! j = Some v).
    { clear -Hj Hn. induction ds as [|d ds IH]; [done|]. apply not_elem_of_cons in Hn as [Hne Hn]. simpl. by rewrite lookup_delete_ne by done; apply IH. }
    by rewrite <- Hleft in Hl. }
  split_and!; [done|done|..].
  - intros j Hj%Hall. destruct (Hd j Hj) as [Ht Hr]. split; [by apply timed_out_GetState|done].
  - intros i Hi. apply Hf. by rewrite Hall.
Qed.

(** ** The replayer and the sweep *)

(** Once a sweep left no job of the state overdue, a query with an earlier cutoff
    lists none; cutoffs are microseconds here, not mistaken for other units. *)
Lemma swept_lists_nothing s cutoff cutoff' limit st :
  s ∈ swept_states -> overdue s cutoff st = ∅ -> (millisThreshold <= cutoff')%Z -> (cutoff' <= cutoff)%Z -> (cutoff < microsThreshold)%Z ->
  ListJobsByState s cutoff' limit st = Ok [].
Proof.
  intros Hs He H1 H2 H3. unfold ListJobsByState.
  assert (Hk : (stateIndexKey s =s? "") = false).
  { unfold stateIndexKey. by rewrite (eqb_ne s "") by (by apply projected_nonempty, swept_projected). }
  rewrite Hk. assert (Hn : forall c, (millisThreshold <= c)%Z -> (c < microsThreshold)%Z -> normalizeTimestampMicrosUpper c = c).
  { intros c Hl Hh. unfold normalizeTimestampMicrosUpper. unfold millisThreshold, secondsThreshold, microsThreshold in *.
    destruct (Z.leb_spec c 0); [done|]. destruct (Z.ltb_spec c 1000000000000); [lia|]. destruct (Z.ltb_spec c 1000000000000000); [lia|].
    destruct (Z.ltb_spec c 1000000000000000000); [done|lia]. }
  rewrite Hn by lia. unfold overdue in He. rewrite Hn in He by lia.
  destruct (ZRangeByScore _ cutoff' _) as [|[k v] l] eqn:E; [done|]. exfalso.
  destruct (ZRange_elem (zset_at st (stateIndexKey s)) cutoff' (or_hundred limit) k v) as [Hz Hle]; [rewrite E; set_solver|].
  assert (Hf : filter (fun kv : string * Z => (kv.2 <= cutoff)%Z) (zset_at st (stateIndexKey s)) !! k = Some v)
    by (apply map_lookup_filter_Some; split; [done|simpl; lia]).
  by rewrite He in Hf.
Qed.

Lemma handleTimeouts_loop `{SchedEnv} s cutoff timeout w :
  handleTimeouts s cutoff timeout w = timeout_loop timeoutIterations s cutoff (timeoutFailureReason s timeout) ∅ w.
Proof. reflexivity. Qed.

(** The reconciler times out what has been scheduled for a minute; the replayer is
    started with the dispatch timeout, two minutes by default.  After a sweep there is
    no scheduled job old enough to be replayed. *)
Lemma scheduled_never_replayed `{SchedEnv} (dispatch running age now limit : Z) (w w' : SWorld) :
  let scheduled := rc_scheduledTimeout (NewReconciler dispatch running) in
  (forall tr name, s_fault tr name = None) ->
  (120 * second <= age)%Z -> (millisThreshold <= micros_before now age)%Z -> (now < microsThreshold)%Z ->
  sweepable JobStateScheduled (micros_before now scheduled) (sw_store w) ->
  (size (overdue JobStateScheduled (micros_before now scheduled) (sw_store w)) <= 200 * timeoutIterations)%nat ->
  handleTimeouts JobStateScheduled (micros_before now scheduled) scheduled w = (tt, w') ->
  ListJobsByState JobStateScheduled (micros_before now age) limit (sw_store w') = Ok [].
Proof.
  intros scheduled Hnf Hage Hmin Hmax [Hv Hok] Hsize Hrun.
  assert (Hsch : JobStateScheduled ∈ swept_states) by (apply elem_of_cons; by left).
  assert (Hsec : scheduled = 60000000000%Z /\ second = 1000000000%Z) by done. clearbody scheduled. destruct Hsec as [Hsch' Hsec].
  destruct (timeout_loop_sweeps Hnf JobStateScheduled (timeoutFailureReason JobStateScheduled scheduled) (micros_before now scheduled) (sw_store w)
              Hsch Hv Hok timeoutIterations [] w) as (ds & w1 & E & _ & _ & He); [by apply swept_nil|by intros ? ?%elem_of_nil|done|].
  rewrite handleTimeouts_loop, E in Hrun. injection Hrun as <-.
  apply (swept_lists_nothing JobStateScheduled (micros_before now scheduled)); [done|done|done|..]; unfold micros_before in *.
  - apply Z.quot_le_mono; lia.
  - unfold millisThreshold, microsThreshold in *. assert (0 <= now * 1000 - scheduled)%Z.
    { destruct (Z.le_gt_cases 0 (now * 1000 - scheduled)) as [|Hneg]; [done|]. pose proof (Z.quot_le_mono (now * 1000 - age) 0 1000) as Hq.
      rewrite Z.quot_0_l in Hq by done. lia. }
    apply Z.quot_lt_upper_bound; lia.
Qed.

(** A sweep whose listing is full of jobs that refuse to be timed out does nothing:
    it lists the same jobs again and never gets to those behind them. *)
Definition refuses (st : jredis) (rec : JobRecord) : Prop := forall now, exists e, SetState now (rec_ID rec) JobStateTimeout st = (st, Some e).

Lemma refused_each `{SchedEnv} (Hnf : forall tr name, s_fault tr name = None) s reason records acc w :
  Forall (refuses (sw_store w)) records ->
  exists failed w', timeout_each s reason records acc w = ((failed, acc.2), w') /\ sw_store w' = sw_store w.
Proof.
  intros Hall. revert acc w Hall. induction records as [|rec records IH]; intros [failed p] w Hall; [by exists failed, w|].
  apply Forall_cons in Hall as [Hr Hall]. cbn [timeout_each]. unfold sbind at 1.
  assert (H1 : exists failed1 w1, timeout_one s reason (failed, p) rec w = ((failed1, p), w1) /\ sw_store w1 = sw_store w).
  { unfold timeout_one. destruct (_ <=? _)%Z; [by exists failed, w|]. destruct w as [st tr].
    cbv beta iota delta [store_SetState sbind snow slog strace scall sstore sput sret sw_trace sw_store]. rewrite Hnf.
    destruct (Hr (s_clock tr)) as [e He]. cbn [sw_store] in He. rewrite He. by eexists _, _. }
  destruct H1 as (failed1 & w1 & -> & E1). destruct (IH (failed1, p) w1) as (failed2 & w2 & E2 & S2); [by rewrite E1|].
  exists failed2, w2. rewrite E2, S2, E1. done.
Qed.

Lemma refused_listing_blocks `{SchedEnv} (Hnf : forall tr name, s_fault tr name = None) s cutoff timeout w records :
  ListJobsByState s cutoff sweepLimit (sw_store w) = Ok records -> Forall (refuses (sw_store w)) records ->
  sw_store (handleTimeouts s cutoff timeout w).2 = sw_store w.
Proof.
  rewrite handleTimeouts_loop. generalize timeoutIterations (timeoutFailureReason s timeout) (∅ : gmap string Z). intros n reason.
  revert w. induction n as [|n IH]; intros w failed Hl Hall; [done|]. destruct w as [st tr]. cbn [sw_store] in *.
  cbn [timeout_loop]. unfold sbind at 1. set (listing := sread _ _ _).
  assert (Eq : listing = (Ok records, mkSWorld st (tr ++ [SvStore "ListJobsByState" false])%list)).
  { unfold listing. cbv beta iota delta [sread scall sbind slog strace sstore sput sret sw_trace sw_store]. by rewrite Hnf, Hl. }
  rewrite Eq. destruct records as [|rec records]; [done|]. unfold sbind at 1.
  destruct (refused_each Hnf s reason (rec :: records) (failed, O) (mkSWorld st (tr ++ [SvStore "ListJobsByState" false])%list) Hall)
    as (failed' & w' & -> & Es). cbn [snd fst]. cbv beta iota delta [sbind ask strace slog sret].
  destruct (s_shutdown (sw_trace w')); [exact Es|]. destruct w' as [st' tr']. cbn [sw_store sw_trace] in *. subst st'. by apply IH.
Qed.

(** The records of a query carry no trace, and those of the deadlines no state. *)
Lemma listed_without_trace state cutoff limit st records rec :
  ListJobsByState state cutoff limit st = Ok records -> rec ∈ records -> rec_TraceID rec = "".
Proof.
  unfold ListJobsByState. destruct (_ =s? ""); [done|]. intros [= <-] ([id score] & -> & _)%list_elem_of_fmap. done.
Qed.

Lemma expired_without_state now limit st rec : rec ∈ ListExpiredDeadlines now limit st -> rec_State rec = "".
Proof. intros ([id score] & -> & _)%list_elem_of_fmap. done. Qed.

(** ** Fail modes *)

Inductive fm_op :=
| FmInput (mode : string) | FmAsync (mode : string) | FmInvalidate (org : string)
| FmRefresh (now : Z) (org : string) (data : result string amap)
| FmAskInput (now : Z) (org : string) | FmAskAsync (now : Z) (org : string).

Definition fm_step (r : FailModeResolver) (op : fm_op) : FailModeResolver :=
  match op with
  | FmInput m => SetSystemInputMode m r
  | FmAsync m => SetSystemAsyncMode m r
  | FmInvalidate org => Invalidate org r
  | FmRefresh now org data => background_refresh now org data r
  | FmAskInput now org => (InputFailOpen now org r).1
  | FmAskAsync now org => (AsyncFailOpen now org r).1
  end.
Definition fm_run (provider : bool) (ttl : Z) (ops : list fm_op) : FailModeResolver := foldl fm_step (NewFailModeResolver provider ttl) ops.

(** The input mode a configuration gives. *)
Definition configured_input (data : amap) : string :=
  aget_string (match aget data "scheduler" with Some v => default [] (as_map v) | None => [] end) "input_fail_mode".

Definition fm_justified (ops : list fm_op) (r : FailModeResolver) : Prop :=
  (fr_systemInput r = "" \/ FmInput (fr_systemInput r) ∈ ops)
  /\ map_Forall (fun org e => exists now data, FmRefresh now org (Ok data) ∈ ops /\ fm_inputMode e = configured_input data) (fr_tenants r).

Lemma fm_justified_mono ops op r : fm_justified ops r -> fm_justified (ops ++ [op]) r.
Proof.
  intros [Hs Ht]. split; [destruct Hs; [by left|right; set_solver]|]. intros org e He. destruct (Ht org e He) as (now & data & Hin & Hm). exists now, data. set_solver.
Qed.

Lemma ask_same pick system now org r :
  fr_systemInput (resolve_mode pick system now org r).1 = fr_systemInput r /\ fr_tenants (resolve_mode pick system now org r).1 = fr_tenants r.
Proof.
  unfold resolve_mode, loadTenantEntry, triggerBackgroundRefresh. destruct (_ || _); [done|].
  destruct (fr_tenants r !! org); simpl; repeat case_match; done.
Qed.

Lemma fm_step_justified ops op r : fm_justified ops r -> fm_justified (ops ++ [op]) (fm_step r op).
Proof.
  intros Hj. pose proof (fm_justified_mono ops op r Hj) as [Hs Ht]. destruct op as [m|m|org|now org data|now org|now org]; simpl.
  - split; [right; set_solver|done].
  - done.
  - split; [done|]. by apply map_Forall_delete.
  - unfold background_refresh, RefreshTenant. destruct (negb _ || _); [done|]. destruct data as [e|data]; [done|]. split; [done|]. simpl.
    apply map_Forall_insert_2; [|done]. exists now, data. split; [set_solver|done].
  - unfold InputFailOpen, resolveInputMode. pose proof (ask_same fm_inputMode fr_systemInput now org r) as [H1 H2].
    destruct (resolve_mode _ _ _ _ _) as [r' m]. simpl in *. split; [by rewrite H1|by rewrite H2].
  - unfold AsyncFailOpen, resolveAsyncMode. pose proof (ask_same fm_asyncMode fr_systemAsync now org r) as [H1 H2].
    destruct (resolve_mode _ _ _ _ _) as [r' m]. simpl in *. split; [by rewrite H1|by rewrite H2].
Qed.

(** A tenant fails open only when the system's mode was set to that, or a
    configuration of that tenant said so. *)
Lemma fail_open_configured provider ttl ops now org :
  (InputFailOpen now org (fm_run provider ttl ops)).2 = true ->
  FmInput "open" ∈ ops \/ exists t data, FmRefresh t org (Ok data) ∈ ops /\ configured_input data = "open".
Proof.
  assert (Hj : fm_justified ops (fm_run provider ttl ops)).
  { unfold fm_run. induction ops as [|op ops IH] using rev_ind; [split; [by left|done]|]. rewrite foldl_app. by apply fm_step_justified. }
  destruct Hj as [Hs Ht]. set (r := fm_run provider ttl ops) in *.
  assert (Hsys : (fr_systemInput r =s? "open") = true -> FmInput "open" ∈ ops) by (intros E%String.eqb_eq; rewrite E in Hs; by destruct Hs).
  unfold InputFailOpen, resolveInputMode, resolve_mode, loadTenantEntry.
  destruct (_ || _); simpl; [auto|]. destruct (fr_tenants r !! org) as [e|] eqn:E; simpl; [|auto].
  destruct (fm_inputMode e =s? ""); [auto|]. intros Ho%String.eqb_eq. right. destruct (Ht _ _ E) as (t & data & Hin & Hm). exists t, data. split; [done|congruence].
Qed.
