(* ===== verification/ServicesDemo.v ===== *)
(** * The services, run

    The sweep of [ServicesTheorems] on a small store, and what the services do that
    their comments do not say. *)
From Stdlib Require Import Ascii.
From S2P Require Import Prelude.
From S2P Require Import GoStrings.
From S2P Require Import PolicyTypes.
From S2P Require Import JobRuntime.
From S2P Require Import JobStore.
From S2P Require Import GoValues.
From S2P Require Import WorkflowModels.
From S2P Require Import JobIdentity.
From S2P Require Import JobMeta.
From S2P Require Import JobApproval.
From S2P Require Import ApprovalTheorems.
From S2P Require Import SchedulerEnv.
From S2P Require Import Scheduler.
From S2P Require Import SchedulerDemo.
From S2P Require Import SchedulerServices.
From S2P Require Import ServicesTheorems.

Open Scope string_scope.

#[local] Existing Instance ex_codec.

Definition calm_env : SchedEnv := demo_env (calm (verdict SafetyAllow "ok" false)).

(** Microseconds of a day in 2026. *)
Definition day : Z := 1770000000000000.

(** Job [j-1] was scheduled at [day]. *)
Definition scheduled_store : jredis := (SetState day "j-1" JobStateScheduled (SetState day "j-1" JobStatePending ex_store).1).1.

Lemma scheduled_views : views scheduled_store.
Proof. apply views_SetState, views_SetState, ex_store_views. Qed.

Definition one_minute_later : Z := micros_before (day + 61000000) (60 * second).

Lemma overdue_jobs_time_out_witness :
  GetState "j-1" (sw_store (@handleTimeouts calm_env JobStateScheduled one_minute_later (60 * second) (mkSWorld scheduled_store [])).2) = Some JobStateTimeout.
Proof.
  assert (Ho : overdue JobStateScheduled one_minute_later scheduled_store = {["j-1" := day]}) by by vm_compute.
  apply (@overdue_jobs_time_out _ calm_env JobStateScheduled one_minute_later (60 * second) (mkSWorld scheduled_store [])
           (@handleTimeouts calm_env JobStateScheduled one_minute_later (60 * second) (mkSWorld scheduled_store [])).2).
  - done.
  - apply elem_of_cons. by left.
  - split; [apply scheduled_views|]. cbn [sw_store]. rewrite Ho. apply map_Forall_singleton. split; [done|]. intros Hx. vm_compute in Hx. discriminate Hx.
  - cbn [sw_store]. rewrite Ho. rewrite map_size_singleton. unfold timeoutIterations. lia.
  - by destruct (handleTimeouts _ _ _ _) as [[] w'].
  - cbn [sw_store]. rewrite Ho, dom_singleton. by apply elem_of_singleton.
Defined.

(** ** Findings *)

(** A job that is no longer in the state it was listed in is timed out all the same:
    it started to run between the query and the write. *)
Lemma running_job_timed_out :
  let dispatched := (SetState day "j-1" JobStateDispatched scheduled_store).1 in
  let cutoff := (day + 1)%Z in
  let running := (SetState (day + 300000000) "j-1" JobStateRunning dispatched).1 in
  map rec_ID (match ListJobsByState JobStateDispatched cutoff 200 dispatched with Ok l => l | Err _ => [] end) = ["j-1"]
  /\ overdue JobStateRunning cutoff running = ∅
  /\ (SetState (day + 300000001) "j-1" JobStateTimeout running).2 = None.
Proof. by vm_compute. Qed.

(** A stale entry of the cache is used however old it is: the tenant goes on failing
    open for as long as its configuration cannot be fetched. *)
Lemma stale_fail_mode_used :
  let cfg := [("scheduler", AnyMap [("input_fail_mode", AnyString "open")])] in
  let r := fm_run true (30 * second) [FmInput "closed"; FmRefresh 0 "acme" (Ok cfg); FmRefresh (3600 * second) "acme" (Err "config service down")] in
  (InputFailOpen (7200 * second) "acme" r).2 = true.
Proof. by vm_compute. Qed.

(** The runtime hash of a job is ahead of its metadata when its result was applied and
    not projected yet.  Such a job can never be timed out and stays first in the
    listing. *)
Definition running_job (id : string) (st : jredis) : jredis :=
  ZAdd (stateIndexKey JobStateRunning) day id (SetStr (jobStateKey id) JobStateRunning (HSet (jobMetaKey id) [("state", JobStateRunning)] st)).
Definition stuck_store (n : nat) : jredis :=
  foldl (fun st i => let id := "a" +:+ Itoa (Z.of_nat (100 + i)) in
           put_hash (jobRuntimeKey id) {[runtimeStateField := JobStateSucceeded]} (running_job id st))
    (running_job "b" ex_store) (seq 0 n).

(** Whatever [SetState] answers does not depend on the time. *)
Definition refusing (st : jredis) (id : string) : bool :=
  negb (id =s? "") && hash_exists st (jobRuntimeKey id)
  && negb ((transitionRuntimeStateScript (hash_at st (jobRuntimeKey id)) JobStateTimeout).2 =? 1)%Z.

Lemma refusing_refuses st rec : refusing st (rec_ID rec) = true -> refuses st rec.
Proof.
  unfold refusing, refuses, SetState, transitionRuntimeState. rewrite !andb_true_iff. intros [[Hne He] Hr] now.
  apply negb_true_iff in Hne, Hr. rewrite Hne, He. cbn [orb negb String.eqb]. destruct (transitionRuntimeStateScript _ _) as [h c]. cbn [snd] in Hr. rewrite Hr. by eexists.
Qed.

(** Two hundred of them, and the sweep never gets to the next overdue job. *)
Lemma stuck_jobs_block_the_sweep :
  let st := stuck_store 200 in
  sw_store (@handleTimeouts calm_env JobStateRunning (day + 1) (900 * second) (mkSWorld st [])).2 = st
  /\ bool_decide (is_Some (overdue JobStateRunning (day + 1) st !! "b")) = true.
Proof.
  cbv zeta. split; [|by vm_compute].
  assert (Hc : let st := stuck_store 200 in
               match ListJobsByState JobStateRunning (day + 1) sweepLimit st with
               | Ok l => forallb (fun rec => refusing st (rec_ID rec)) l | Err _ => false end = true) by by vm_compute.
  cbv zeta in Hc.
  set (st := stuck_store 200) in *. clearbody st. destruct (ListJobsByState JobStateRunning (day + 1) sweepLimit st) as [|l] eqn:El; [done|].
  apply (@refused_listing_blocks calm_env (fun _ _ => eq_refl) JobStateRunning (day + 1)%Z (900 * second)%Z (mkSWorld st []) l El).
  apply Forall_forall. intros rec Hin. rewrite forallb_elem in Hc. by apply refusing_refuses, Hc.
Qed.
