(* ===== verification/WorkflowHelpers.v ===== *)
(** * Helpers of the workflow engine

    core/workflow/engine_helpers.go, the parsers of engine_steps_switch.go,
    engine_steps_loop.go, engine_steps_parallel.go and
    engine_steps_subworkflow.go that do not evaluate expressions, and the
    dot-separated context paths.  Theorems: paths are lenses, job ids round trip,
    dependency collection and the skip cascade compute reachability and
    terminate, parallel strategies decide as soon as the outcome is fixed. *)
From S2P Require Import Prelude.
From S2P Require Import GoStrings.
From S2P Require Import PolicyTypes.
From S2P Require Import GoValues.
From S2P Require Import WorkflowModels.
From Stdlib Require Import Ascii.

Open Scope string_scope.

(** ** Context paths *)

Module Path.

Fixpoint get_parts (cur : any) (parts : list string) : option any :=
  match parts with
  | [] => Some cur
  | part :: rest =>
      let part := TrimSpace part in
      if part =s? "" then None else
      match cur with
      | AnyMap m => match aget m part with Some v => get_parts v rest | None => None end
      | _ => None
      end
  end.

Definition getContextPath (ctx : amap) (path : string) : option any :=
  let path := TrimSpace path in
  if path =s? "" then None else get_parts (AnyMap ctx) (Split path ".").

(** The updated map, and whether the path was valid.  Maps created on the way to
    an invalid part stay. *)
Fixpoint set_parts (cur : amap) (parts : list string) (value : any) : amap * bool :=
  match parts with
  | [] => (cur, true)
  | part :: rest =>
      let part := TrimSpace part in
      if part =s? "" then (cur, false) else
      match rest with
      | [] => (aset cur part value, true)
      | _ =>
          let next := match aget cur part with Some (AnyMap m) => m | _ => [] end in
          let '(next', ok) := set_parts next rest value in
          (aset cur part (AnyMap next'), ok)
      end
  end.

Definition setContextPath (ctx : amap) (path : string) (value : any) : amap * bool :=
  let path := TrimSpace path in
  if path =s? "" then (ctx, true) else set_parts ctx (Split path ".") value.

Fixpoint delete_parts (cur : amap) (parts : list string) : amap :=
  match parts with
  | [] => cur
  | part :: rest =>
      let part := TrimSpace part in
      if part =s? "" then cur else
      match rest with
      | [] => adel cur part
      | _ =>
          match aget cur part with
          | Some (AnyMap m) => aset cur part (AnyMap (delete_parts m rest))
          | _ => cur
          end
      end
  end.

Definition deleteContextPath (ctx : amap) (path : string) : amap :=
  let path := TrimSpace path in
  if path =s? "" then ctx else delete_parts ctx (Split path ".").

(** engine_output.go *)
Definition extractDataPath (value : any) (path : string) : option any :=
  let path := TrimSpace path in
  if path =s? "" then Some value else get_parts value (Split path ".").

End Path.

(** ** Job ids *)

Module JobIds.

(** [fmt.Sprintf("%s:%s@%d", run.ID, stepID, attempt)]. *)
Definition job_id (runID stepID : string) (attempt : Z) : string :=
  runID +:+ ":" +:+ stepID +:+ "@" +:+ Itoa attempt.

(** [fmt.Sprintf("%s[%d]", stepID, idx)]. *)
Definition child_id (stepID : string) (idx : nat) : string :=
  stepID +:+ "[" +:+ Itoa (Z.of_nat idx) +:+ "]".

Definition splitJobID (jobID : string) : string * string :=
  match cut_first ":" jobID with
  | None => ("", "")
  | Some (runID, stepID) =>
      match cut_last "@" stepID with
      | Some (base, _) => if base =s? "" then (runID, stepID) else (runID, base)
      | None => (runID, stepID)
      end
  end.

Definition parseAttempt (jobID : string) : Z :=
  match cut_last "@" jobID with
  | None => 0
  | Some (_, num) =>
      if num =s? "" then 0 else
      match Atoi (TrimSpace num) with
      | Some n => if (n <=? 0)%Z then 0 else n
      | None => 0
      end
  end.

Definition splitForEachStep (stepID : string) : string * string :=
  match cut_first "[" stepID with
  | None => (stepID, "")
  | Some (base, _) => (base, stepID)
  end.

End JobIds.

(** ** Dependencies and error handlers *)

Section Dependencies.
Context `{GoRuntime}.

(** [collectDependencies] on a set of names already collected.  The recursion
    consumes one unit of fuel per level; [dep_fuel] is enough. *)
Fixpoint collectDependencies (fuel : nat) (wf : Workflow) (stepID : string) (deps : gset string) : gset string :=
  match fuel with
  | O => deps
  | S fuel =>
      if stepID =s? "" then deps else
      match wf_Steps wf !! stepID with
      | None => deps
      | Some step =>
          foldl (fun deps dep =>
                   if dep =s? "" then deps
                   else if bool_decide (dep ∈ deps) then deps
                   else collectDependencies fuel wf dep ({[ dep ]} ∪ deps))
                deps (st_DependsOn step)
      end
  end.

(** The names that occur in some [DependsOn]. *)
Definition all_deps (wf : Workflow) : gset string :=
  list_to_set ((map_to_list (wf_Steps wf)) ≫= fun kv => st_DependsOn (snd kv)).

Definition dep_fuel (wf : Workflow) : nat := S (size (all_deps wf)).

Definition isOnErrorTarget (wf : Workflow) (stepID : string) : bool :=
  existsb (fun kv => st_OnError (snd kv) =s? stepID) (range_map (wf_Steps wf)).

(** Whether the step run carries the context an [on_error] activation leaves. *)
Definition has_error_input (sr : StepRun) : bool :=
  match aget (sr_Input sr) "error" with Some _ => true | None => false end.

Definition dep_satisfied (run : WorkflowRun) (wf : Workflow) (dep : string) : bool :=
  match step_run run dep with
  | None => false
  | Some sr =>
      match sr_Status sr with
      | StepStatusSucceeded => true
      | StepStatusFailed | StepStatusDenied | StepStatusTimedOut =>
          match wf_Steps wf !! dep with
          | Some depDef =>
              negb (st_OnError depDef =s? "")
              && bool_decide (status_of run (st_OnError depDef) = StepStatusSucceeded)
          | None => false
          end
      | _ => false
      end
  end.

Definition depsSatisfied (step : Step) (run : WorkflowRun) (wf : Workflow) : bool :=
  if negb (nonempty (st_DependsOn step)) then true
  else if match step_run run (st_ID step) with
          | Some sr => bool_decide (sr_Status sr = StepStatusPending) && has_error_input sr
          | None => false
          end then true
  else forallb (dep_satisfied run wf) (st_DependsOn step).

(** One step of the cascade of [skipDependentSteps]: the step run to skip, if the
    step depends on [depID] and is still pending. *)
Definition skippable (wf : Workflow) (run : WorkflowRun) (visited : gset string) (depID stepID : string) (step : Step) : option StepRun :=
  if bool_decide (stepID ∈ visited) then None
  else if negb (existsb (String.eqb depID) (st_DependsOn step)) then None
  else match step_run run stepID with
       | Some sr => if bool_decide (sr_Status sr = StepStatusPending) then Some sr else None
       | None => None
       end.

Definition skip_step_run (failedStepID : string) (now : Z) (sr : StepRun) : StepRun :=
  set_sr_CompletedAt (Some now)
    (set_sr_SkipReason ("dependency " +:+ failedStepID +:+ " failed")
       (set_sr_Status StepStatusSkipped sr)).

(** [cascade]: the visited set is shared by the whole traversal.  A level is
    entered only after a step run went from pending to skipped, so the number of
    steps bounds the depth. *)
Fixpoint cascade (fuel : nat) (wf : Workflow) (failedStepID : string) (now : Z) (depID : string)
    (st : WorkflowRun * gset string) : WorkflowRun * gset string :=
  match fuel with
  | O => st
  | S fuel =>
      foldl (fun '(run, visited) '(stepID, step) =>
               match skippable wf run visited depID stepID step with
               | None => (run, visited)
               | Some sr =>
                   cascade fuel wf failedStepID now stepID
                     (set_step stepID (skip_step_run failedStepID now sr) run, {[ stepID ]} ∪ visited)
               end)
            st (range_map (wf_Steps wf))
  end.

Definition skipDependentSteps (wf : Workflow) (run : WorkflowRun) (failedStepID : string) (now : Z) : WorkflowRun :=
  fst (cascade (S (size (wf_Steps wf))) wf failedStepID now failedStepID (run, {[ failedStepID ]})).

End Dependencies.

(** ** Laws of context paths *)

(** Two paths that part at some component before either ends. *)
Fixpoint diverge (ps qs : list string) : bool :=
  match ps, qs with
  | p :: ps, q :: qs => if TrimSpace p =s? TrimSpace q then diverge ps qs else true
  | _, _ => false
  end.

Lemma set_parts_get cur ps v cur' :
  ps <> [] -> Path.set_parts cur ps v = (cur', true) -> Path.get_parts (AnyMap cur') ps = Some v.
Proof.
  revert cur cur'. induction ps as [|p ps IH]; intros cur cur' Hne; [done|]. clear Hne.
  cbn [Path.set_parts Path.get_parts]. destruct (TrimSpace p =s? ""); [done|].
  destruct ps as [|p' ps].
  - intros [= <-]. by rewrite aget_aset_eq.
  - destruct (Path.set_parts _ (p' :: ps) v) as [next' ok] eqn:E. intros [= <- ->].
    rewrite aget_aset_eq. by eapply IH.
Qed.

Lemma set_parts_frame cur ps qs v cur' ok :
  Path.set_parts cur ps v = (cur', ok) -> diverge ps qs = true ->
  Path.get_parts (AnyMap cur') qs = Path.get_parts (AnyMap cur) qs.
Proof.
  revert cur cur' qs ok. induction ps as [|p ps IH]; intros cur cur' qs ok Hset Hd; [done|].
  destruct qs as [|q qs]; [done|]. cbn [Path.set_parts diverge Path.get_parts] in *.
  destruct (TrimSpace p =s? "") eqn:Ep; [by injection Hset as <- <-|].
  destruct (TrimSpace p =s? TrimSpace q) eqn:Epq.
  - apply String.eqb_eq in Epq as Hpq. rewrite <- Hpq, Ep.
    destruct ps as [|p' ps]; [done|].
    destruct (Path.set_parts _ (p' :: ps) v) as [next' ok'] eqn:E. injection Hset as <- <-.
    rewrite aget_aset_eq. rewrite (IH _ _ _ _ E Hd).
    destruct qs as [|q' qs]; [done|]. cbn [Path.get_parts aget].
    by destruct (TrimSpace q' =s? ""), (aget cur (TrimSpace p)) as [[]|].
  - destruct (TrimSpace q =s? ""); [done|].
    assert (aget cur' (TrimSpace q) = aget cur (TrimSpace q)) as ->; [|done].
    assert (TrimSpace p <> TrimSpace q) by (intros E; by rewrite E, String.eqb_refl in Epq).
    destruct ps as [|p' ps]; [injection Hset as <- <-; by rewrite aget_aset_ne|].
    destruct (Path.set_parts _ (p' :: ps) v) as [next' ok']. injection Hset as <- <-. by rewrite aget_aset_ne.
Qed.

Lemma delete_parts_get cur ps : ps <> [] -> Path.get_parts (AnyMap (Path.delete_parts cur ps)) ps = None.
Proof.
  revert cur. induction ps as [|p ps IH]; intros cur Hne; [done|]. clear Hne.
  cbn [Path.delete_parts Path.get_parts]. destruct (TrimSpace p =s? "") eqn:Ep; [done|].
  destruct ps as [|p' ps]; [by rewrite aget_adel_eq|].
  destruct (aget cur (TrimSpace p)) as [x|] eqn:E.
  - destruct x; rewrite ?E; try (simpl; by destruct (TrimSpace p' =s? "")).
    rewrite aget_aset_eq. by apply IH.
  - by rewrite E.
Qed.

(** Context paths are lenses.  Writing a value at a valid path and reading
    the path gives the value; every path that parts from it before either ends
    reads as before; and deleting a path makes it unreadable. *)
Theorem context_path_lens (ctx : amap) (p q : string) (v : any) (ctx' : amap) :
  TrimSpace p <> "" ->
  Path.setContextPath ctx p v = (ctx', true) ->
  Path.getContextPath ctx' p = Some v /\
  (diverge (Split (TrimSpace p) ".") (Split (TrimSpace q) ".") = true ->
   Path.getContextPath ctx' q = Path.getContextPath ctx q) /\
  Path.getContextPath (Path.deleteContextPath ctx' p) p = None.
Proof.
  unfold Path.setContextPath, Path.getContextPath, Path.deleteContextPath.
  intros Hp Hset. rewrite (eqb_ne _ _ Hp) in *. split; [|split].
  - eapply set_parts_get; [apply Split_nonempty|done].
  - intros Hd. destruct (TrimSpace q =s? ""); [done|]. by eapply set_parts_frame.
  - apply delete_parts_get, Split_nonempty.
Qed.

Lemma context_path_lens_witness :
  Path.getContextPath (fst (Path.setContextPath [("a", AnyString "x")] " a.b " (AnyBool true))) "a.b" = Some (AnyBool true).
Proof.
  apply (context_path_lens [("a", AnyString "x")] " a.b " "c" (AnyBool true)); [discriminate|reflexivity].
Defined.

(** ** Laws of job ids *)

Lemma TrimSpace_nospace s : (forall c, is_space c = true -> sep_free c s) -> TrimSpace s = s.
Proof.
  intros H. unfold TrimSpace.
  assert (TrimLeft s = s) as ->.
  { destruct s as [|a s]; [done|]. simpl. destruct (is_space a) eqn:E; [|done].
    exfalso. apply (H a E). by left. }
  induction s as [|a s IH]; [done|]. simpl.
  rewrite IH. 2:{ intros c Hc Hin. apply (H c Hc). by right. }
  destruct s; [|done]. destruct (is_space a) eqn:E; [|done]. exfalso. apply (H a E). by left.
Qed.

Lemma Itoa_trim n : (0 <= n)%Z -> TrimSpace (Itoa n) = Itoa n.
Proof.
  intros Hn. apply TrimSpace_nospace. intros c Hc. apply Itoa_sep_free; [|done].
  destruct (is_digit c) eqn:E; [|done]. unfold is_digit, is_space in *.
  repeat (destruct c as [[] [] [] [] [] [] [] []]; try discriminate).
Qed.



(** ** Dependency closure *)

(** [b] is a declared dependency of step [a]. *)
Definition depends (wf : Workflow) (a b : string) : Prop :=
  a <> "" /\ b <> "" /\ exists step, wf_Steps wf !! a = Some step /\ b ∈ st_DependsOn step.

Lemma depends_all wf a b : depends wf a b -> b ∈ all_deps wf.
Proof.
  intros (_ & _ & step & Ha & Hb). apply elem_of_list_to_set, list_elem_of_bind.
  exists (a, step). split; [done|]. by apply elem_of_map_to_list.
Qed.

(** What a depth-first traversal along [R] that starts with the names [seen] and
    returns [r] has achieved below the node [x]. *)
Definition closes (R : string -> string -> Prop) (x : string) (seen r : gset string) : Prop :=
  seen ⊆ r /\
  (forall y, y ∈ r -> y ∉ seen -> tc R x y) /\
  (forall y z, y ∈ r -> y ∉ seen -> R y z -> z ∈ r).

Section Closure.
Variable R : string -> string -> Prop.

Lemma closes_refl x s : closes R x s s.
Proof. split; [done|split; set_solver]. Qed.

Lemma closes_trans x s1 s2 s3 : closes R x s1 s2 -> closes R x s2 s3 -> closes R x s1 s3.
Proof.
  intros (Hs1 & Hr1 & Hc1) (Hs2 & Hr2 & Hc2). split; [set_solver|split].
  - intros y Hy Hn. destruct (decide (y ∈ s2)); [by apply Hr1|by apply Hr2].
  - intros y z Hy Hn Hd. destruct (decide (y ∈ s2)) as [Hy2|Hy2]; [|by eapply Hc2].
    apply Hs2. by eapply Hc1.
Qed.

Lemma closes_step x y s r :
  R x y -> closes R y ({[ y ]} ∪ s) r -> (forall z, R y z -> z ∈ r) -> closes R x s r.
Proof.
  intros Hd (Hs & Hr & Hc) Hy. split; [set_solver|split].
  - intros z Hz Hn. destruct (decide (z = y)) as [->|Hne]; [by apply tc_once|].
    eapply tc_l; [done|]. apply Hr; [done|set_solver].
  - intros z w Hz Hn Hzw. destruct (decide (z = y)) as [->|Hne]; [by apply Hy|].
    eapply Hc; [done|set_solver|done].
Qed.

(** A traversal whose result is closed and has the successors of its root finds
    exactly what is reachable. *)
Lemma closes_reach x s r y :
  closes R x s r -> (forall z, R x z -> z ∈ r) -> (forall z w, z ∈ s -> R z w -> w ∈ r) -> y ∉ s ->
  y ∈ r <-> tc R x y.
Proof.
  intros (Hs & Hr & Hc) Hx Hseen Hy. split; [by intros; apply Hr|].
  assert (forall a b, tc R a b -> (a = x \/ a ∈ r) -> b ∈ r) as Hgo; [|intros; eapply Hgo; eauto].
  assert (forall a b, R a b -> (a = x \/ a ∈ r) -> b ∈ r) as H1.
  { intros a b Hab [->|Ha]; [by apply Hx|]. destruct (decide (a ∈ s)); [by eapply Hseen|by eapply Hc]. }
  intros a b Htc. induction Htc as [a b Hab|a b c Hab _ IH]; intros Ha; [by eapply H1|].
  apply IH. right. by eapply H1.
Qed.

End Closure.

Lemma collect_closes wf fuel x s :
  (size (all_deps wf ∖ s) < fuel)%nat ->
  closes (depends wf) x s (collectDependencies fuel wf x s) /\
  (forall y, depends wf x y -> y ∈ collectDependencies fuel wf x s).
Proof.
  revert x s. induction fuel as [|fuel IH]; intros x s Hf; [lia|]. cbn [collectDependencies].
  destruct (x =s? "") eqn:Ex.
  { split; [apply closes_refl|]. intros y [Hne _]. apply String.eqb_eq in Ex. done. }
  destruct (wf_Steps wf !! x) as [step|] eqn:Estep.
  2:{ split; [apply closes_refl|]. intros y (_ & _ & step & E & _). congruence. }
  apply String.eqb_neq in Ex.
  assert (forall l s', (forall d, d ∈ l -> d ∈ st_DependsOn step) -> s ⊆ s' ->
    let r := foldl (fun deps dep => if dep =s? "" then deps
                    else if bool_decide (dep ∈ deps) then deps
                    else collectDependencies fuel wf dep ({[ dep ]} ∪ deps)) s' l in
    closes (depends wf) x s' r /\ forall d, d ∈ l -> d <> "" -> d ∈ r) as Hloop.
  { induction l as [|d l IHl]; intros s' Hsub Hs; cbn [foldl].
    { split; [apply closes_refl|]. set_solver. }
    set (s'' := if d =s? "" then s' else _).
    assert (closes (depends wf) x s' s'' /\ (d <> "" -> d ∈ s'')) as [Hc Hd].
    { subst s''. destruct (d =s? "") eqn:Ed; [apply String.eqb_eq in Ed; split; [apply closes_refl|done]|].
      apply String.eqb_neq in Ed.
      case_bool_decide as Hin; [split; [apply closes_refl|done]|].
      assert (depends wf x d) as Hdep by (repeat split; eauto; exists step; set_solver).
      destruct (IH d ({[ d ]} ∪ s')) as [Hc Hs''].
      { apply (Nat.lt_le_trans _ (size (all_deps wf ∖ s))); [|lia].
        apply subset_size. pose proof (depends_all _ _ _ Hdep). set_solver. }
      split; [by eapply closes_step|]. destruct Hc as [Hc _]. set_solver. }
    destruct (IHl s'') as [Hc' Hd']; [set_solver|destruct Hc; set_solver|].
    split; [by eapply closes_trans|]. intros d' [->|Hin]%elem_of_cons Hne; [|by apply Hd'].
    destruct Hc' as [Hc' _]. apply Hc', Hd, Hne. }
  destruct (Hloop (st_DependsOn step) s) as [Hc Hall]; [done|done|]. split; [done|].
  intros y (_ & Hy & step' & E & Hin). apply Hall; [|done]. congruence.
Qed.

(** [collectDependencies] terminates on every workflow, cyclic ones
    included, and returns exactly the names reachable from the step along
    [depends_on]: the steps a rerun from it takes over. *)
Lemma collectDependencies_reachable (wf : Workflow) (stepID dep : string) :
  dep ∈ collectDependencies (dep_fuel wf) wf stepID ∅ <-> tc (depends wf) stepID dep.
Proof.
  destruct (collect_closes wf (dep_fuel wf) stepID ∅) as [Hc Hd].
  { unfold dep_fuel. rewrite difference_empty_L. lia. }
  apply (closes_reach _ _ ∅); [done|done|set_solver|set_solver].
Qed.

(** ** The skip cascade *)

(** [b] is a pending dependent of [a] in the run, other than the failed step. *)
Definition skip_edge (wf : Workflow) (run : WorkflowRun) (failed a b : string) : Prop :=
  b <> failed /\ status_of run b = StepStatusPending /\
  exists step, wf_Steps wf !! b = Some step /\ a ∈ st_DependsOn step.

(** The run in which the steps of [marked] have been skipped. *)
Definition skipped_in (run : WorkflowRun) (failed : string) (now : Z) (marked : gset string)
    (run' : WorkflowRun) : Prop :=
  run' = set_run_Steps (run_Steps run') run /\
  forall id, step_run run' id =
    if decide (id ∈ marked /\ id <> failed) then skip_step_run failed now <$> step_run run id else step_run run id.

Section Cascade.
Context `{GoRuntime} (wf : Workflow) (run0 : WorkflowRun) (failed : string) (now : Z).
Abbreviation E := (skip_edge wf run0 failed).

Lemma skipped_in_step run vis id sr :
  skipped_in run0 failed now vis run -> id ∉ vis -> id <> failed -> step_run run0 id = Some sr ->
  skipped_in run0 failed now ({[ id ]} ∪ vis) (set_step id (skip_step_run failed now sr) run).
Proof.
  intros [Hrest Hst] Hn Hf Hsr. split; [rewrite Hrest; done|].
  intros id'. destruct (decide (id' = id)) as [->|Hne].
  - rewrite step_run_set_step_eq, Hsr. rewrite decide_True by set_solver. done.
  - rewrite step_run_set_step_ne by done. rewrite Hst.
    destruct (decide (id' ∈ vis /\ _)), (decide (id' ∈ {[ id ]} ∪ vis /\ _)); try done; set_solver.
Qed.

Lemma skippable_iff run vis dep id step sr :
  skipped_in run0 failed now vis run -> failed ∈ vis -> wf_Steps wf !! id = Some step ->
  skippable wf run vis dep id step = Some sr <->
  (id ∉ vis) /\ step_run run0 id = Some sr /\ E dep id.
Proof.
  intros [_ Hst] Hf Hstep. unfold skippable, skip_edge, status_of.
  case_bool_decide as Hv; [naive_solver|]. rewrite Hst. rewrite decide_False by naive_solver.
  destruct (existsb _ _) eqn:Edep; simpl.
  - apply existsb_elem in Edep as (d & Hd & Eq). apply String.eqb_eq in Eq as <-.
    destruct (step_run run0 id) as [sr'|]; [|naive_solver].
    case_bool_decide; naive_solver.
  - split; [done|]. intros (_ & _ & _ & _ & step' & Hs' & Hin). exfalso.
    eapply existsb_elem_false in Edep; [|by replace step' with step in Hin by congruence].
    by rewrite String.eqb_refl in Edep.
Qed.

Lemma cascade_closes fuel dep run vis :
  (size (dom (wf_Steps wf) ∖ vis) < fuel)%nat -> failed ∈ vis -> skipped_in run0 failed now vis run ->
  let r := cascade fuel wf failed now dep (run, vis) in
  skipped_in run0 failed now (snd r) (fst r) /\ closes E dep vis (snd r) /\
  (forall y, E dep y -> y ∈ snd r).
Proof.
  revert dep run vis. induction fuel as [|fuel IH]; intros dep run vis Hfuel Hf Hinv; [lia|].
  cbn [cascade]. 
  assert (forall l run' vis', (forall k s, (k, s) ∈ l -> wf_Steps wf !! k = Some s) ->
    vis ⊆ vis' -> skipped_in run0 failed now vis' run' ->
    let r := foldl (fun '(run, visited) '(stepID, step) =>
               match skippable wf run visited dep stepID step with
               | None => (run, visited)
               | Some sr =>
                   cascade fuel wf failed now stepID
                     (set_step stepID (skip_step_run failed now sr) run, {[ stepID ]} ∪ visited)
               end) (run', vis') l in
    skipped_in run0 failed now (snd r) (fst r) /\ closes E dep vis' (snd r) /\
    (forall k s, (k, s) ∈ l -> E dep k -> k ∈ snd r)) as Hloop.
  { induction l as [|[k s] l IHl]; intros run' vis' Hl Hsub Hinv'; cbn [foldl].
    { split; [done|split; [apply closes_refl|]]. intros k s Hk. set_solver. }
    destruct (skippable wf run' vis' dep k s) as [sr|] eqn:Es.
    - apply (skippable_iff run' vis') in Es as (Hk & Hsr & He); [|done|set_solver|apply Hl; set_solver].
      pose proof He as (Hkf & _ & step & Hstep & _).
      destruct (IH k (set_step k (skip_step_run failed now sr) run') ({[ k ]} ∪ vis')) as (Hi & Hc & Hs).
      { apply (Nat.lt_le_trans _ (size (dom (wf_Steps wf) ∖ vis))); [|lia]. apply subset_size.
        assert (k ∈ dom (wf_Steps wf)) by (apply elem_of_dom; eauto). set_solver. }
      { set_solver. } { by apply skipped_in_step. }
      destruct (cascade fuel wf failed now k _) as [run'' vis''] eqn:Ec. cbn [fst snd] in *.
      destruct (IHl run'' vis'') as (Hi' & Hc' & Hs'); [set_solver|destruct Hc; set_solver|done|].
      split; [done|split].
      + eapply closes_trans; [|done]. by eapply closes_step.
      + intros k' s' [[= -> ->]|Hin]%elem_of_cons He'; [|by eapply Hs'].
        destruct Hc' as [Hc' _]. apply Hc'. destruct Hc as [Hc _]. set_solver.
    - destruct (IHl run' vis') as (Hi' & Hc' & Hs'); [set_solver|done|done|].
      split; [done|split; [done|]]. intros k' s' [[= -> ->]|Hin]%elem_of_cons He'; [|by eapply Hs'].
      destruct Hc' as [Hc' _]. destruct (decide (k ∈ vis')); [by apply Hc'|]. exfalso.
      pose proof He' as (_ & Hp & _). unfold status_of in Hp.
      destruct (step_run run0 k) as [sr|] eqn:Esr; [|done].
      assert (skippable wf run' vis' dep k s = Some sr); [|congruence].
      apply skippable_iff; [done|set_solver|apply Hl; set_solver|done]. }
  destruct (Hloop (range_map (wf_Steps wf)) run vis) as (Hi & Hc & Hs); [|done|done|].
  { intros k s Hk. by apply elem_of_range_map. }
  split; [done|split; [done|]]. intros y He. pose proof He as (_ & _ & step & Hstep & _).
  eapply Hs; [|done]. by apply elem_of_range_map.
Qed.

Lemma skip_edge_pending id : tc E failed id -> status_of run0 id = StepStatusPending.
Proof.
  assert (forall a b, tc E a b -> status_of run0 b = StepStatusPending) as H1; [|apply H1].
  intros a b Hab. induction Hab as [a b (_ & Hp & _)|]; done.
Qed.

(** What the cascade returns, and the set of steps it skipped. *)
Lemma cascade_marks :
  exists vis, skipped_in run0 failed now vis (skipDependentSteps wf run0 failed now) /\
    forall id, tc E failed id <-> id ∈ vis /\ id <> failed.
Proof.
  destruct (cascade_closes (S (size (wf_Steps wf))) failed run0 {[ failed ]}) as (Hst & Hc & Hs).
  { rewrite <- size_dom. apply (Nat.le_lt_trans _ (size (dom (wf_Steps wf)))); [|lia].
    apply subseteq_size. set_solver. }
  { set_solver. }
  { split; [by destruct run0|]. intros id'. by rewrite decide_False by set_solver. }
  unfold skipDependentSteps. destruct (cascade _ _ _ _ _ _) as [run' vis]. cbn [fst snd] in *.
  exists vis. split; [done|]. intros id. destruct (decide (id = failed)) as [->|Hne].
  - split; [|naive_solver]. intros Htc. exfalso.
    assert (forall a b, tc E a b -> b <> failed) as Hn; [|by eapply Hn].
    intros a b Hab. induction Hab as [a b [? _]|]; done.
  - rewrite <- (closes_reach E failed {[ failed ]} vis id); [|done|done|set_solver|set_solver].
    naive_solver.
Qed.

Lemma skipDependentSteps_cases id :
  step_run (skipDependentSteps wf run0 failed now) id = step_run run0 id \/
  (status_of run0 id = StepStatusPending /\
   step_run (skipDependentSteps wf run0 failed now) id = skip_step_run failed now <$> step_run run0 id).
Proof.
  destruct cascade_marks as (vis & [_ Hst] & Hvis). rewrite Hst.
  destruct (decide (id ∈ vis /\ id <> failed)) as [Hin|]; [right|by left].
  split; [|done]. by apply skip_edge_pending, Hvis.
Qed.

Lemma skipDependentSteps_rest :
  skipDependentSteps wf run0 failed now = set_run_Steps (run_Steps (skipDependentSteps wf run0 failed now)) run0.
Proof. by destruct cascade_marks as (vis & [Hr _] & _). Qed.

(** The skip cascade of a failed step terminates and skips exactly the
    pending steps that depend on it directly or through other pending steps,
    whatever order the runtime visits the steps in; every other step run, and
    every other field of the run, stays as it was. *)
Theorem skipDependentSteps_reachable (id : string) :
  let run' := skipDependentSteps wf run0 failed now in
  (tc E failed id -> step_run run' id = skip_step_run failed now <$> step_run run0 id) /\
  (~ tc E failed id -> step_run run' id = step_run run0 id) /\
  run' = set_run_Steps (run_Steps run') run0.
Proof.
  destruct cascade_marks as (vis & [Hrest Hst] & Hiff). cbv zeta. rewrite Hst. split; [|split; [|done]].
  - intros Htc%Hiff. by rewrite decide_True.
  - intros Htc. rewrite decide_False; [done|]. by rewrite <- Hiff.
Qed.

End Cascade.

Lemma skipDependentSteps_reachable_witness :
  let wf := plain_workflow "w" 0 [plain_step "a" StepTypeWorker [] ""; plain_step "b" StepTypeWorker ["a"] ""] in
  let run := plain_run "r" "w" RunStatusRunning
               [("a", new_step_run_status "a" StepStatusFailed); ("b", new_step_run_status "b" StepStatusPending)] in
  status_of (@skipDependentSteps fwd_runtime wf run "a" 7) "b" = StepStatusSkipped.
Proof.
  intros wf run. unfold status_of.
  destruct (@skipDependentSteps_reachable fwd_runtime wf run "a" 7%Z "b") as [H _]. cbv zeta in H.
  rewrite H; [reflexivity|]. apply tc_once. split; [discriminate|]. split; [reflexivity|].
  exists (plain_step "b" StepTypeWorker ["a"] ""). split; [reflexivity|by left].
Defined.

(** ** Parsing of step inputs *)

(** [%T] of a value. *)
Definition type_name (v : any) : string :=
  match v with
  | AnyNil => "<nil>" | AnyBool _ => "bool" | AnyInt _ => "int" | AnyInt32 _ => "int32"
  | AnyInt64 _ => "int64"
  | AnyIntK K_int8 _ => "int8" | AnyIntK K_int16 _ => "int16" | AnyIntK K_uint _ => "uint"
  | AnyIntK K_uint8 _ => "uint8" | AnyIntK K_uint16 _ => "uint16" | AnyIntK K_uint32 _ => "uint32"
  | AnyIntK K_uint64 _ => "uint64"
  | AnyFloat32 _ => "float32" | AnyFloat64 _ => "float64" | AnyNumber _ => "json.Number"
  | AnyString _ => "string" | AnyList _ => "[]interface {}" | AnyStrings _ => "[]string"
  | AnyInts _ => "[]int" | AnyMap _ => "map[string]interface {}"
  | AnyStringMap _ => "map[string]string"
  end.

Section Inputs.
Context `{GoRuntime} `{FloatPrinter} `{FloatParser}.

(** A float that is a positive whole number. *)
Definition positive_whole (f : spec_float) : bool := SFltb float_zero f && float_integral f.

Definition parsePositiveInt (value : any) : result string Z :=
  let bad := Err ("expected positive integer, got " +:+ Sprint value) in
  let positive z := if (0 <? z)%Z then Ok z else bad in
  match value with
  | AnyInt z | AnyInt32 z | AnyInt64 z => positive z
  | AnyFloat64 f => if positive_whole f then Ok (float_to_int64 f) else bad
  | AnyFloat32 f => if positive_whole f then Ok (float_to_int64 f) else bad
  | AnyNumber s => match Atoi s with Some z => positive z | None => bad end
  | AnyString s => match Atoi (TrimSpace s) with Some z => positive z | None => bad end
  | _ => bad
  end.

(** [appendStep] of [parseParallelStepIDs], over the ids collected so far. *)
Definition append_step (out : list string) (raw : string) : list string :=
  let id := TrimSpace raw in
  if id =s? "" then out else if bool_decide (id ∈ out) then out else (out ++ [id])%list.

(** The strings of a list of values, or the first value that is not one. *)
Fixpoint string_values (l : list any) : result any (list string) :=
  match l with
  | [] => Ok []
  | AnyString s :: l => match string_values l with Ok r => Ok (s :: r) | Err e => Err e end
  | v :: _ => Err v
  end.

Definition parseParallelStepIDs (value : any) : result string (list string) :=
  match value with
  | AnyNil => Err "parallel step input.steps required"
  | AnyStrings l => Ok (foldl append_step [] l)
  | AnyList l =>
      match string_values l with
      | Ok l => Ok (foldl append_step [] l)
      | Err v => Err ("parallel step id must be string, got " +:+ type_name v)
      end
  | AnyString s =>
      let trimmed := TrimSpace s in
      if trimmed =s? "" then Ok [] else Ok (foldl append_step [] (Split trimmed ","))
  | _ => Err ("parallel input.steps must be array/string, got " +:+ type_name value)
  end.

Definition normalizeParallelStrategy (value : any) : result string string :=
  let raw := ToLower (TrimSpace (Sprint value)) in
  if (raw =s? "") || (raw =s? "all") then Ok "all"
  else if raw =s? "any" then Ok "any"
  else if (raw =s? "n_of_m") || (raw =s? "n-of-m") || (raw =s? "nofm") then Ok "n_of_m"
  else Err "parallel strategy must be all, any, or n_of_m".

(** [loopInputString(input, keys...)]: the first key that is present decides. *)
Fixpoint loopInputString (input : amap) (keys : list string) : result string string :=
  match keys with
  | [] => Ok ""
  | key :: keys =>
      match aget input key with
      | None => loopInputString input keys
      | Some AnyNil => Ok ""
      | Some (AnyString s) => Ok (TrimSpace s)
      | Some _ => Err ("loop input." +:+ key +:+ " must be string")
      end
  end.

Definition defaultLoopMaxIter : Z := 100.

Fixpoint loopMaxIterations_keys (input : amap) (keys : list string) : result string Z :=
  match keys with
  | [] => Ok defaultLoopMaxIter
  | key :: keys =>
      match aget input key with
      | None => loopMaxIterations_keys input keys
      | Some raw =>
          match parsePositiveInt raw with
          | Ok n => Ok n
          | Err e => Err ("loop input." +:+ key +:+ " invalid: " +:+ e)
          end
      end
  end.

Definition loopMaxIterations (input : amap) : result string Z :=
  loopMaxIterations_keys input ["max_iterations"; "maxIterations"].

Record LoopConfig := mkLoopConfig {
  lc_maxIterations : Z;
  lc_condition : string;
  lc_until : string;
  lc_body : string;
}.

Definition resolveLoopConfig (step : Step) : result string LoopConfig :=
  match st_Input step with
  | None => Ok (mkLoopConfig defaultLoopMaxIter "" "" "")
  | Some input =>
      match loopMaxIterations input with
      | Err e => Err e
      | Ok n =>
          match loopInputString input ["condition"; "while"] with
          | Err e => Err e
          | Ok c =>
              match loopInputString input ["until"] with
              | Err e => Err e
              | Ok u =>
                  match loopInputString input ["body_step"; "body"] with
                  | Err e => Err e
                  | Ok b => Ok (mkLoopConfig n c u b)
                  end
              end
          end
      end
  end.

(** The children a parallel step lists, as far as they can be read without
    evaluating its input; the first owner in map order keeps a child. *)
Definition collectParallelChildOwners (wf : Workflow) : gmap string string :=
  foldl (fun owners '(parentID, step) =>
           match st_Type step, st_Input step with
           | StepTypeParallel, Some input =>
               match aget input "steps" with
               | Some raw =>
                   match parseParallelStepIDs raw with
                   | Ok ids =>
                       foldl (fun owners childID =>
                                if (childID =s? "") || (childID =s? parentID) then owners
                                else if bool_decide (is_Some (owners !! childID)) then owners
                                else <[childID := parentID]> owners) owners ids
                   | Err _ => owners
                   end
               | None => owners
               end
           | _, _ => owners
           end) ∅ (range_map (wf_Steps wf)).

Definition collectLoopBodyOwners (wf : Workflow) : gmap string string :=
  foldl (fun owners '(parentID, step) =>
           match st_Type step, st_Input step with
           | StepTypeLoop, Some input =>
               match loopInputString input ["body_step"; "body"] with
               | Ok body =>
                   if (body =s? "") || (body =s? parentID) then owners
                   else if bool_decide (is_Some (owners !! body)) then owners
                   else <[body := parentID]> owners
               | Err _ => owners
               end
           | _, _ => owners
           end) ∅ (range_map (wf_Steps wf)).

(** A step orchestrated by another one. *)
Definition managed_by (owners : gmap string string) (stepID : string) : bool :=
  match owners !! stepID with Some ownerID => negb (ownerID =s? stepID) | None => false end.

(** ** Switch cases *)

Record switchCase := mkSwitchCase { sc_MatchValue : any; sc_StepID : string }.

Fixpoint firstSwitchValue (values : amap) (keys : list string) : option (any * string) :=
  match keys with
  | [] => None
  | key :: keys => match aget values key with Some v => Some (v, key) | None => firstSwitchValue values keys end
  end.

Definition parseSwitchCaseEntry (value : any) : result string switchCase :=
  let parse raw :=
    match firstSwitchValue raw ["when"; "match"; "value"] with
    | None => Err "case requires one of when/match/value"
    | Some (matchValue, matchKey) =>
        let matchValue := if matchKey =s? "when" then AnyString (TrimSpace (Sprint matchValue)) else matchValue in
        match firstSwitchValue raw ["next"; "step"; "target"] with
        | None => Err "case requires one of next/step/target"
        | Some (targetRaw, _) =>
            let stepID := TrimSpace (Sprint targetRaw) in
            if stepID =s? "" then Err "case target step id required" else Ok (mkSwitchCase matchValue stepID)
        end
    end in
  match value with
  | AnyMap m => parse m
  | AnyStringMap m => parse (map (fun kv => (fst kv, AnyString (snd kv))) m)
  | _ => Err ("case must be object, got " +:+ type_name value)
  end.

Definition switchComparableNumber (value : any) : option spec_float :=
  match value with
  | AnyInt z | AnyInt32 z | AnyInt64 z | AnyIntK _ z => Some (int64_to_float z)
  | AnyFloat32 f => Some (float32_to_64 f)
  | AnyFloat64 f => Some f
  | AnyNumber s => ParseFloat s
  | AnyString s => ParseFloat (TrimSpace s)
  | _ => None
  end.

Definition switchValueEquals (actual expected : any) : bool :=
  if is_nil actual || is_nil expected then is_nil actual && is_nil expected else
  match switchComparableNumber actual, switchComparableNumber expected with
  | Some a, Some b => SFeqb a b
  | _, _ =>
      let printed := Sprint actual =s? Sprint expected in
      match actual with
      | AnyString a => match as_string expected with Some b => TrimSpace a =s? TrimSpace b | None => printed end
      | AnyBool a => match expected with AnyBool b => Bool.eqb a b | _ => printed end
      | _ => printed
      end
  end.

Definition switchBranchNotTakenReason : string := "switch_branch_not_taken".

Definition isSwitchBranchNotTaken (sr : StepRun) : bool :=
  bool_decide (sr_Status sr = StepStatusCancelled) &&
  match sr_Error sr with
  | None => false
  | Some err => TrimSpace (aget_string err "reason") =s? switchBranchNotTakenReason
  end.

(** ** Call stacks of sub-workflows *)

(** [strings.NewReplacer(",", ">", ";", ">")]. *)
Definition call_stack_seps (s : string) : string := ReplaceByte (ReplaceByte s "," ">") ";" ">".

Definition clean_parts (l : list string) : list string :=
  List.filter (fun p => negb (p =s? "")) (map TrimSpace l).

Definition parseCallStack (raw : string) : list string :=
  let raw := TrimSpace raw in
  if raw =s? "" then [] else clean_parts (Split (call_stack_seps raw) ">").

Definition encodeCallStack (stack : list string) : string := Join (clean_parts stack) ">".

Definition normalizeCallStackForRun (run : WorkflowRun) : list string :=
  let stack := parseCallStack (get_str (run_Metadata run) "call_stack") in
  let current := TrimSpace (run_WorkflowID run) in
  if current =s? "" then stack
  else match last stack with
       | Some top => if top =s? current then stack else (stack ++ [current])%list
       | None => [current]
       end.

Definition containsString (values : list string) (needle : string) : bool :=
  let needle := TrimSpace needle in
  if needle =s? "" then false else existsb (fun v => TrimSpace v =s? needle) values.

Definition subWorkflowTerminalStatus (s : RunStatus) : StepStatus :=
  match s with
  | RunStatusCancelled => StepStatusCancelled
  | RunStatusTimedOut => StepStatusTimedOut
  | RunStatusDenied => StepStatusDenied
  | _ => StepStatusFailed
  end.

End Inputs.
