(* ===== verification/WorkflowState.v ===== *)
(** * Step and run state of the workflow engine

    core/workflow/engine_state.go and the outcome functions of
    engine_steps_parallel.go: applying a job result to a step run, retry and
    backoff, aggregation of children, the [on_error] chain, the status of a run,
    cancellation and timeout of step runs.  These are the pure transitions; the
    handlers that persist and publish are in [WorkflowEngine]. *)
From S2P Require Import Prelude.
From S2P Require Import GoStrings.
From S2P Require Import PolicyTypes.
From S2P Require Import GoValues.
From S2P Require Import WorkflowModels.
From S2P Require Import WorkflowHelpers.

Open Scope string_scope.

Definition second : Z := 1000000000.

(** [map[string]any{"message": msg}]. *)
Definition msg_error (msg : string) : option amap := Some [("message", AnyString msg)].

(** ** Retry and backoff *)

Definition shouldRetry (step : option Step) (sr : StepRun) : bool :=
  match step with
  | None => false
  | Some step =>
      match st_Retry step with
      | None => false
      | Some retry => if (MaxRetries retry <=? 0)%Z then false else (sr_Attempts sr <=? MaxRetries retry)%Z
      end
  end.

(** [math.Pow(x, y)] for finite [x > 1] and a whole [y >= 0], the only use here:
    repeated squaring of the fraction with the exponent kept apart. *)
Fixpoint pow_loop (i : positive) (a1 : spec_float) (ae : Z) (x1 : spec_float) (xe : Z) : spec_float * Z :=
  if ((xe <? - 4096) || (4096 <? xe))%Z then (a1, ae + xe)%Z else
  let mul := SFmul 53 1024 in
  let half := S754_finite false 4503599627370496 (-53) in
  let x1' := mul x1 x1 in
  let xe' := (2 * xe)%Z in
  let '(x1', xe') := if SFltb x1' half then (SFadd 53 1024 x1' x1', (xe' - 1)%Z) else (x1', xe') in
  match i with
  | xH => (mul a1 x1, ae + xe)%Z
  | xO i => pow_loop i a1 ae x1' xe'
  | xI i => pow_loop i (mul a1 x1) (ae + xe)%Z x1' xe'
  end.

Definition Pow (x : spec_float) (y : Z) : spec_float :=
  match y with
  | Zpos 1 => x
  | Zpos i =>
      let '(x1, xe) := SFfrexp 53 1024 x in
      let '(a1, ae) := pow_loop i float_one 0 x1 xe in
      SFldexp 53 1024 a1 ae
  | _ => float_one
  end.

Definition float_two : spec_float := int64_to_float 2.

(** The delay in nanoseconds; [time.Duration(delay) * time.Second] wraps. *)
Definition computeBackoff (step : option Step) (sr : StepRun) : Z :=
  match step with
  | None => second
  | Some step =>
      match st_Retry step with
      | None => second
      | Some cfg =>
          let initial := if (InitialBackoffSec cfg <=? 0)%Z then 1%Z else InitialBackoffSec cfg in
          let mult := if SFleb (Multiplier cfg) float_one then float_two else Multiplier cfg in
          let attempt := if (sr_Attempts sr <? 1)%Z then 1%Z else sr_Attempts sr in
          let delay := SFmul 53 1024 (int64_to_float initial) (Pow mult (attempt - 1)) in
          let delay := if (0 <? MaxBackoffSec cfg)%Z && SFltb (int64_to_float (MaxBackoffSec cfg)) delay
                       then int64_to_float (MaxBackoffSec cfg) else delay in
          wrap64 (float_to_int64 delay * second)
      end
  end.

(** ** Applying a result *)

Definition string_of_job_status (s : JobStatus) : string :=
  match s with
  | JOB_STATUS_UNSPECIFIED => "JOB_STATUS_UNSPECIFIED" | JOB_STATUS_PENDING => "JOB_STATUS_PENDING"
  | JOB_STATUS_SCHEDULED => "JOB_STATUS_SCHEDULED" | JOB_STATUS_DISPATCHED => "JOB_STATUS_DISPATCHED"
  | JOB_STATUS_RUNNING => "JOB_STATUS_RUNNING" | JOB_STATUS_SUCCEEDED => "JOB_STATUS_SUCCEEDED"
  | JOB_STATUS_FAILED => "JOB_STATUS_FAILED" | JOB_STATUS_CANCELLED => "JOB_STATUS_CANCELLED"
  | JOB_STATUS_TIMEOUT => "JOB_STATUS_TIMEOUT" | JOB_STATUS_DENIED => "JOB_STATUS_DENIED"
  | JOB_STATUS_FAILED_RETRYABLE => "JOB_STATUS_FAILED_RETRYABLE"
  | JOB_STATUS_FAILED_FATAL => "JOB_STATUS_FAILED_FATAL"
  end.

(** The step run after the result, and the delay when it is to be retried. *)
Definition applyResult (now : Z) (sr : StepRun) (res : JobResult) (step : option Step) : StepRun * option Z :=
  let finish status sr := set_sr_CompletedAt (Some now) (set_sr_Status status sr) in
  let failing status :=
    if shouldRetry step sr then
      let delay := computeBackoff step sr in
      (set_sr_Error (msg_error (res_ErrorMessage res))
         (set_sr_Status StepStatusPending (set_sr_NextAttemptAt (Some (now + delay)%Z) sr)), Some delay)
    else (set_sr_Error (msg_error (res_ErrorMessage res)) (finish status sr), None) in
  match res_Status res with
  | JOB_STATUS_SUCCEEDED =>
      let sr := set_sr_NextAttemptAt None (finish StepStatusSucceeded sr) in
      let sr := if res_ResultPtr res =s? "" then sr else set_sr_Output (AnyString (res_ResultPtr res)) sr in
      (set_sr_Error None sr, None)
  | JOB_STATUS_DENIED =>
      (set_sr_Error (msg_error (res_ErrorMessage res)) (finish StepStatusDenied sr), None)
  | JOB_STATUS_FAILED | JOB_STATUS_FAILED_RETRYABLE => failing StepStatusFailed
  | JOB_STATUS_TIMEOUT => failing StepStatusTimedOut
  | JOB_STATUS_FAILED_FATAL =>
      (set_sr_Error (msg_error (res_ErrorMessage res)) (finish StepStatusFailed sr), None)
  | JOB_STATUS_CANCELLED => (finish StepStatusCancelled sr, None)
  | s => (set_sr_Error (msg_error ("unexpected status: " +:+ string_of_job_status s)) (finish StepStatusFailed sr), None)
  end.

Definition shouldIgnoreProcessedResult (sr : StepRun) : bool :=
  match sr_Status sr with
  | StepStatusSucceeded | StepStatusFailed | StepStatusDenied | StepStatusCancelled
  | StepStatusTimedOut => true
  | StepStatusPending => bool_decide (sr_NextAttemptAt sr <> None)
  | _ => false
  end.

(** ** Children *)

(** The statuses of the children of a step run. *)
Definition children_statuses (run : WorkflowRun) (parent : StepRun) : list StepStatus :=
  map (fun kc => match deref_child run (fst kc) (snd kc) with Some c => sr_Status c | None => StepStatusNone end)
    (sr_Children parent).

Definition is_failed_child (s : StepStatus) : bool :=
  match s with StepStatusFailed | StepStatusCancelled | StepStatusTimedOut => true | _ => false end.

Definition aggregateChildren (run : WorkflowRun) (parent : StepRun) : StepStatus :=
  let l := children_statuses run parent in
  if negb (nonempty l) then sr_Status parent
  else if existsb is_failed_child l then StepStatusFailed
  else if existsb (fun s => bool_decide (s = StepStatusDenied)) l then StepStatusDenied
  else if forallb (fun s => is_failed_child s || bool_decide (s = StepStatusDenied)
                            || bool_decide (s = StepStatusSucceeded)) l
  then StepStatusSucceeded
  else StepStatusRunning.

(** ** Parallel strategies *)

Record ParallelCounts := mkParallelCounts { pc_succeeded : Z; pc_failed : Z; pc_running : Z }.

Definition count_child (c : ParallelCounts) (s : StepStatus) : ParallelCounts :=
  match s with
  | StepStatusSucceeded => mkParallelCounts (pc_succeeded c + 1) (pc_failed c) (pc_running c)
  | StepStatusFailed | StepStatusDenied | StepStatusCancelled | StepStatusTimedOut =>
      mkParallelCounts (pc_succeeded c) (pc_failed c + 1) (pc_running c)
  | StepStatusRunning | StepStatusWaiting =>
      mkParallelCounts (pc_succeeded c) (pc_failed c) (pc_running c + 1)
  | _ => c
  end.

Definition summarizeParallelChildren (run : WorkflowRun) (parent : StepRun) (childStepIDs : list string) : ParallelCounts :=
  foldl (fun c id => match child_of run parent id with Some child => count_child c (sr_Status child) | None => c end)
    (mkParallelCounts 0 0 0) childStepIDs.

(** [None] while undecided, else whether it succeeded and the message. *)
Definition evaluateParallelOutcome (strategy : string) (required total succeeded failed : Z) : option (bool * string) :=
  if strategy =s? "all" then
    if (0 <? failed)%Z then Some (false, "parallel strategy all failed because at least one child failed")
    else if (succeeded =? total)%Z then Some (true, "") else None
  else if strategy =s? "any" then
    if (0 <? succeeded)%Z then Some (true, "")
    else if (failed =? total)%Z then Some (false, "parallel strategy any exhausted all children without success")
    else None
  else if strategy =s? "n_of_m" then
    if (required <=? succeeded)%Z then Some (true, "")
    else if (total - failed <? required)%Z
    then Some (false, "parallel strategy n_of_m cannot reach required successes (" +:+ Itoa required +:+ "/" +:+ Itoa total +:+ ")")
    else None
  else Some (false, "unsupported parallel strategy: " +:+ strategy).

(** ** The [on_error] chain *)

Inductive chainOutcome : Set := chainPending | chainRecovered | chainExhausted.

(** One turn of the loop of [walkOnErrorChain]: the outcome, or the handler to go
    on from. *)
Definition chain_next (wf : Workflow) (run : WorkflowRun) (cur : string) : chainOutcome + string :=
  match wf_Steps wf !! cur with
  | None => inl chainExhausted
  | Some stepDef =>
      if st_OnError stepDef =s? "" then inl chainExhausted else
      match status_of run (st_OnError stepDef) with
      | StepStatusNone | StepStatusPending | StepStatusRunning => inl chainPending
      | StepStatusSucceeded => inl chainRecovered
      | _ => inr (st_OnError stepDef)
      end
  end.

Fixpoint walk_chain (fuel : nat) (wf : Workflow) (run : WorkflowRun) (visited : gset string) (cur : string) : chainOutcome :=
  match fuel with
  | O => chainExhausted
  | S fuel =>
      if bool_decide (cur ∈ visited) then chainExhausted
      else match chain_next wf run cur with
           | inl o => o
           | inr h => walk_chain fuel wf run ({[ cur ]} ∪ visited) h
           end
  end.

(** A step is visited at most once and the walk stops outside the workflow, so one
    turn per step and one more are enough. *)
Definition walkOnErrorChain (wf : Workflow) (run : WorkflowRun) (startStepID : string) : chainOutcome :=
  walk_chain (S (size (wf_Steps wf))) wf run ∅ startStepID.

(** ** The status of a run *)

Record status_acc := mkAcc {
  acc_run : WorkflowRun;
  acc_failed : bool;
  acc_denied : bool;
  acc_timedOut : bool;
  acc_waiting : bool;
  acc_allDone : bool;
  acc_completed : Z;
  acc_expected : Z;
}.

Definition acc_fail (run : WorkflowRun) (a : status_acc) : status_acc :=
  mkAcc run true (acc_denied a) (acc_timedOut a) (acc_waiting a) (acc_allDone a) (acc_completed a) (acc_expected a).
Definition acc_deny (run : WorkflowRun) (a : status_acc) : status_acc :=
  mkAcc run (acc_failed a) true (acc_timedOut a) (acc_waiting a) (acc_allDone a) (acc_completed a) (acc_expected a).
Definition acc_timeout (a : status_acc) : status_acc :=
  mkAcc (acc_run a) (acc_failed a) (acc_denied a) true (acc_waiting a) (acc_allDone a) (acc_completed a) (acc_expected a).
Definition acc_wait (a : status_acc) : status_acc :=
  mkAcc (acc_run a) (acc_failed a) (acc_denied a) (acc_timedOut a) true false (acc_completed a) (acc_expected a).
Definition acc_open (a : status_acc) : status_acc :=
  mkAcc (acc_run a) (acc_failed a) (acc_denied a) (acc_timedOut a) (acc_waiting a) false (acc_completed a) (acc_expected a).
Definition acc_complete (a : status_acc) : status_acc :=
  mkAcc (acc_run a) (acc_failed a) (acc_denied a) (acc_timedOut a) (acc_waiting a) (acc_allDone a) (acc_completed a + 1) (acc_expected a).
Definition acc_unexpect (a : status_acc) : status_acc :=
  mkAcc (acc_run a) (acc_failed a) (acc_denied a) (acc_timedOut a) (acc_waiting a) (acc_allDone a) (acc_completed a) (acc_expected a - 1).

Section RunStatus.
Context `{GoRuntime}.

(** A step orchestrated by a parallel or a loop step. *)
Definition is_managed (wf : Workflow) (stepID : string) : bool :=
  managed_by (collectParallelChildOwners wf) stepID || managed_by (collectLoopBodyOwners wf) stepID.

(** The body of the second loop of [updateRunStatus]; [skipNow] is the clock
    [skipDependentSteps] reads. *)
Definition status_step (wf : Workflow) (skipNow : Z) (a : status_acc) (stepID : string) (stepDef : Step) : status_acc :=
  let run := acc_run a in
  if is_managed wf stepID then a else
  match step_run run stepID with
  | None => if isOnErrorTarget wf stepID then acc_unexpect a else acc_open a
  | Some sr =>
      let has_handler := negb (st_OnError stepDef =s? "") in
      let skipped := skipDependentSteps wf run stepID skipNow in
      match sr_Status sr with
      | StepStatusFailed =>
          if has_handler then
            match walkOnErrorChain wf run stepID with
            | chainPending => acc_open a
            | chainRecovered => acc_complete a
            | chainExhausted => acc_fail skipped a
            end
          else acc_fail skipped a
      | StepStatusDenied =>
          if has_handler then
            match walkOnErrorChain wf run stepID with
            | chainPending => acc_open a
            | chainRecovered => acc_complete a
            | chainExhausted => acc_deny skipped a
            end
          else acc_deny skipped a
      | StepStatusCancelled => if isSwitchBranchNotTaken sr then acc_complete a else acc_fail run a
      | StepStatusTimedOut =>
          if has_handler then
            match walkOnErrorChain wf run stepID with
            | chainPending => acc_open a
            | chainRecovered => acc_complete a
            | chainExhausted => acc_timeout a
            end
          else acc_timeout a
      | StepStatusSucceeded => acc_complete a
      | StepStatusWaiting => acc_wait a
      | _ => acc_open a
      end
  end.

(** The first loop: the steps the run itself has to complete. *)
Definition expected_steps (wf : Workflow) : Z :=
  let n := foldl (fun n '(stepID, _) => if is_managed wf stepID then (n - 1)%Z else n)
             (Z.of_nat (size (wf_Steps wf))) (range_map (wf_Steps wf)) in
  if (n <? 0)%Z then 0%Z else n.

Definition finish_run (s : RunStatus) (now : Z) (run : WorkflowRun) : WorkflowRun :=
  set_run_CompletedAt (Some now) (set_run_Status s run).

Definition updateRunStatus (run : WorkflowRun) (wf : Workflow) (now skipNow : Z) : WorkflowRun :=
  if bool_decide (run_Status run = RunStatusCancelled) || bool_decide (run_Status run = RunStatusTimedOut) then run else
  let a := foldl (fun a '(stepID, stepDef) => status_step wf skipNow a stepID stepDef)
             (mkAcc run false false false false true 0 (expected_steps wf)) (range_map (wf_Steps wf)) in
  let run := acc_run a in
  if acc_failed a then finish_run RunStatusFailed now run
  else if acc_denied a then finish_run RunStatusDenied now run
  else if acc_timedOut a then finish_run RunStatusTimedOut now run
  else if acc_waiting a then set_run_Status RunStatusWaiting run
  else if acc_allDone a && (acc_completed a =? acc_expected a)%Z then finish_run RunStatusSucceeded now run
  else set_run_Status RunStatusRunning run.

End RunStatus.

(** ** Cancellation and timeout of step runs

    A child that is shared with [run.Steps] is visited there. *)

Definition map_children (f : StepRun -> StepRun) (cs : list (string * child_ref StepRun)) :=
  map (fun kc => (fst kc, match snd kc with ChildOwn c => ChildOwn (f c) | ChildShared => ChildShared end)) cs.

Fixpoint cancelStepRun (now : Z) (sr : StepRun) : StepRun :=
  let sr' := if isTerminalStepStatus (sr_Status sr) then sr
             else set_sr_CompletedAt (Some now) (set_sr_Status StepStatusCancelled sr) in
  set_sr_Children (map_children (cancelStepRun now) (sr_Children sr)) sr'.

Definition timeout_error : amap := [("message", AnyString "workflow run timed out")].

Fixpoint timeoutStepRun (now : Z) (sr : StepRun) : StepRun :=
  let sr' := if isTerminalStepStatus (sr_Status sr) then sr
             else
               let sr := set_sr_CompletedAt (Some now) (set_sr_Status StepStatusTimedOut sr) in
               match sr_Error sr with None => set_sr_Error (Some timeout_error) sr | Some _ => sr end in
  set_sr_Children (map_children (timeoutStepRun now) (sr_Children sr)) sr'.

Definition is_cancelable (sr : StepRun) : bool :=
  match sr_Status sr with
  | StepStatusRunning | StepStatusWaiting => negb (sr_JobID sr =s? "")
  | _ => false
  end.

Fixpoint collectCancelableJobs (sr : StepRun) : list string :=
  ((if is_cancelable sr then [sr_JobID sr] else [])
   ++ concat (map (fun kc => match snd kc with ChildOwn c => collectCancelableJobs c | ChildShared => [] end)
                (sr_Children sr)))%list.

(** ** Results are processed once *)

(** After a result has been applied, the step run is one that ignores further
    results under the same job id, whatever the result said. *)
Lemma applyResult_processed now sr res step :
  shouldIgnoreProcessedResult (fst (applyResult now sr res step)) = true.
Proof.
  unfold applyResult. destruct (res_Status res), (shouldRetry step sr); try done.
  all: by destruct (res_ResultPtr res =s? "").
Qed.

(** A retry is scheduled only while the step run has used at most [MaxRetries]
    attempts; a denial and a fatal failure never retry. *)
Lemma applyResult_retry now sr res step d :
  snd (applyResult now sr res step) = Some d ->
  exists s cfg, step = Some s /\ st_Retry s = Some cfg /\ (sr_Attempts sr <= MaxRetries cfg)%Z /\
    (res_Status res = JOB_STATUS_FAILED \/ res_Status res = JOB_STATUS_FAILED_RETRYABLE \/
     res_Status res = JOB_STATUS_TIMEOUT) /\
    d = computeBackoff step sr /\ sr_Status (fst (applyResult now sr res step)) = StepStatusPending.
Proof.
  unfold applyResult. destruct (shouldRetry step sr) eqn:E.
  2:{ by destruct (res_Status res); try destruct (_ =s? _). }
  unfold shouldRetry in E. destruct step as [s|]; [|done]. destruct (st_Retry s) as [cfg|] eqn:Er; [|done].
  destruct (MaxRetries cfg <=? 0)%Z; [done|]. apply Z.leb_le in E.
  destruct (res_Status res) eqn:Es; simpl; intros [= <-]; exists s, cfg; auto 10.
Qed.

(** ** The [on_error] chain is a deterministic walk *)

(** The outcome a walk along the handlers reaches, if it reaches one. *)
Inductive chain_result (wf : Workflow) (run : WorkflowRun) : string -> chainOutcome -> Prop :=
| chain_result_here cur o : chain_next wf run cur = inl o -> chain_result wf run cur o
| chain_result_next cur h o :
    chain_next wf run cur = inr h -> chain_result wf run h o -> chain_result wf run cur o.

Section Chain.
Context (wf : Workflow) (run : WorkflowRun).

Fixpoint chain_after (n : nat) (cur : string) : option string :=
  match n with
  | O => Some cur
  | S n => match chain_next wf run cur with inl _ => None | inr h => chain_after n h end
  end.

Lemma chain_result_rank cur o :
  chain_result wf run cur o -> exists n last, chain_after n cur = Some last /\ chain_next wf run last = inl o.
Proof.
  induction 1 as [cur o Hn|cur h o Hn _ (n & last & Ha & Hl)]; [by exists O, cur|].
  exists (S n), last. simpl. by rewrite Hn.
Qed.

Lemma chain_after_last n m cur last o last' o' :
  chain_after n cur = Some last -> chain_next wf run last = inl o ->
  chain_after m cur = Some last' -> chain_next wf run last' = inl o' -> n = m /\ o = o'.
Proof.
  revert m cur. induction n as [|n IH]; intros [|m] cur; simpl; intros H1 H2 H3 H4.
  - split; congruence.
  - injection H1 as ->. by rewrite H2 in H3.
  - injection H3 as ->. by rewrite H4 in H1.
  - destruct (chain_next wf run cur) as [|h]; [done|].
    by destruct (IH m h H1 H2 H3 H4) as [-> ->].
Qed.

Lemma chain_next_dom cur h : chain_next wf run cur = inr h -> cur ∈ dom (wf_Steps wf).
Proof. unfold chain_next. intros H. apply elem_of_dom. destruct (wf_Steps wf !! cur); [by eexists|done]. Qed.

(** With a name the walk has not visited, and more fuel than unvisited steps, the
    walk gives the outcome [n] turns away; visited names are further away. *)
Lemma walk_chain_reaches fuel vis n cur last o :
  (size (dom (wf_Steps wf) ∖ vis) < fuel)%nat ->
  chain_after n cur = Some last -> chain_next wf run last = inl o ->
  (forall x m last' o', x ∈ vis -> chain_after m x = Some last' -> chain_next wf run last' = inl o' -> (n < m)%nat) ->
  walk_chain fuel wf run vis cur = o.
Proof.
  revert vis n cur. induction fuel as [|fuel IH]; intros vis n cur Hf Ha Hl Hvis; [lia|]. cbn [walk_chain].
  rewrite bool_decide_eq_false_2 by (intros Hin; pose proof (Hvis _ _ _ _ Hin Ha Hl); lia).
  destruct (chain_next wf run cur) as [o'|h] eqn:En.
  - destruct n as [|n]; simpl in Ha; [injection Ha as <-; congruence|by rewrite En in Ha].
  - destruct n as [|n]; simpl in Ha; [injection Ha as <-; congruence|]. rewrite En in Ha.
    apply (IH _ n); [|done|done|].
    + apply (Nat.lt_le_trans _ (size (dom (wf_Steps wf) ∖ vis))); [|lia]. apply subset_size.
      pose proof (chain_next_dom _ _ En) as Hd.
      assert (cur ∉ vis); [|set_solver]. intros Hin.
      assert (chain_after (S n) cur = Some last) as Ha' by (simpl; by rewrite En).
      pose proof (Hvis _ _ _ _ Hin Ha' Hl). lia.
    + intros x m last' o' [->%elem_of_singleton|Hin]%elem_of_union Hx Ho.
      * destruct m as [|m]; simpl in Hx; [injection Hx as <-; congruence|]. rewrite En in Hx.
        destruct (chain_after_last _ _ _ _ _ _ _ Ha Hl Hx Ho). lia.
      * pose proof (Hvis _ _ _ _ Hin Hx Ho). lia.
Qed.

Lemma walk_chain_endless fuel vis cur :
  (forall o, ~ chain_result wf run cur o) -> walk_chain fuel wf run vis cur = chainExhausted.
Proof.
  revert vis cur. induction fuel as [|fuel IH]; intros vis cur Hno; [done|]. simpl.
  case_bool_decide; [done|]. destruct (chain_next wf run cur) as [o|h] eqn:En.
  - exfalso. by eapply Hno, chain_result_here.
  - apply IH. intros o Ho. by eapply Hno, chain_result_next.
Qed.

Lemma walkOnErrorChain_result cur o : chain_result wf run cur o -> walkOnErrorChain wf run cur = o.
Proof.
  intros (n & last & Ha & Hl)%chain_result_rank. unfold walkOnErrorChain.
  eapply walk_chain_reaches; [|done|done|set_solver].
  rewrite difference_empty_L, size_dom. lia.
Qed.

(** Walking the [on_error] handlers of a failed step terminates on every
    workflow and gives the outcome the chain of handlers leads to: the first
    handler that succeeded or is still to finish decides, and a chain that runs
    out of handlers, or in a circle, is exhausted. *)
Theorem on_error_chain_decides (cur : string) :
  (forall o, chain_result wf run cur o -> walkOnErrorChain wf run cur = o) /\
  ((forall o, ~ chain_result wf run cur o) -> walkOnErrorChain wf run cur = chainExhausted).
Proof. split; [apply walkOnErrorChain_result|]. intros. by apply walk_chain_endless. Qed.

End Chain.

(** ** What decides the status of a run *)

Section Outcome.
Context `{GoRuntime}.

(** Whether a failed, denied or timed-out step has a handler chain that recovered. *)
Definition recovered (wf : Workflow) (run : WorkflowRun) (id : string) (step : Step) : bool :=
  negb (st_OnError step =s? "") &&
  match walkOnErrorChain wf run id with chainRecovered => true | _ => false end.

(** Whether it has none, or one that gave up. *)
Definition exhausted (wf : Workflow) (run : WorkflowRun) (id : string) (step : Step) : bool :=
  (st_OnError step =s? "") ||
  match walkOnErrorChain wf run id with chainExhausted => true | _ => false end.

(** A step that counts as done for the success of the run: it succeeded, was a
    branch not taken, was recovered, or is an error handler never activated. *)
Definition step_complete (wf : Workflow) (run : WorkflowRun) (id : string) (step : Step) : bool :=
  match step_run run id with
  | None => isOnErrorTarget wf id
  | Some sr =>
      match sr_Status sr with
      | StepStatusSucceeded => true
      | StepStatusCancelled => isSwitchBranchNotTaken sr
      | StepStatusFailed | StepStatusDenied | StepStatusTimedOut => recovered wf run id step
      | _ => false
      end
  end.

(** A step that fails the run: failed for good, or cancelled and not a branch not
    taken. *)
Definition step_broken (wf : Workflow) (run : WorkflowRun) (id : string) (step : Step) : bool :=
  match step_run run id with
  | None => false
  | Some sr =>
      match sr_Status sr with
      | StepStatusFailed => exhausted wf run id step
      | StepStatusCancelled => negb (isSwitchBranchNotTaken sr)
      | _ => false
      end
  end.

(** The run with some pending steps skipped. *)
Definition skip_ext (r0 run : WorkflowRun) : Prop :=
  run = set_run_Steps (run_Steps run) r0 /\
  forall id, step_run run id = step_run r0 id \/
    (status_of r0 id = StepStatusPending /\ status_of run id = StepStatusSkipped /\ step_run run id <> None).

Lemma skip_ext_refl r : skip_ext r r.
Proof. split; [by destruct r|]. intros; by left. Qed.

Lemma skip_ext_skip wf r0 run failed now :
  skip_ext r0 run -> skip_ext r0 (skipDependentSteps wf run failed now).
Proof.
  intros [Hr Hs]. split.
  { rewrite (skipDependentSteps_rest wf run failed now), Hr. done. }
  intros id. destruct (skipDependentSteps_cases wf run failed now id) as [E|[Hp E]].
  - unfold status_of. rewrite E. apply Hs.
  - right. destruct (Hs id) as [Heq|(_ & Hsk & _)]; [|congruence].
    unfold status_of in *. rewrite E, <- Heq. by destruct (step_run run id).
Qed.

Lemma skip_ext_status r0 run id : skip_ext r0 run -> status_of run id <> StepStatusSkipped -> step_run run id = step_run r0 id.
Proof. intros [_ Hs] Hn. destruct (Hs id) as [E|(_ & Hsk & _)]; congruence. Qed.

Lemma skip_ext_chain_next wf r0 run cur :
  skip_ext r0 run -> chain_next wf r0 cur <> inl chainPending -> chain_next wf run cur = chain_next wf r0 cur.
Proof.
  intros [_ Hs]. unfold chain_next. destruct (wf_Steps wf !! cur) as [d|]; [|done].
  destruct (st_OnError d =s? ""); [done|]. destruct (Hs (st_OnError d)) as [E|(Hp & _ & _)].
  - unfold status_of. by rewrite E.
  - rewrite Hp. done.
Qed.

Lemma skip_ext_walk wf r0 run fuel vis cur :
  skip_ext r0 run -> walk_chain fuel wf r0 vis cur <> chainPending ->
  walk_chain fuel wf run vis cur = walk_chain fuel wf r0 vis cur.
Proof.
  intros Hx. revert vis cur. induction fuel as [|fuel IH]; intros vis cur; simpl; [done|].
  case_bool_decide; [done|]. intros Hne. rewrite (skip_ext_chain_next wf r0 run cur Hx).
  - destruct (chain_next wf r0 cur); [done|]. by apply IH.
  - intros E. by rewrite E in Hne.
Qed.

Lemma skip_ext_recovered wf r0 run id step :
  skip_ext r0 run -> recovered wf r0 id step = true -> recovered wf run id step = true.
Proof.
  intros Hx. unfold recovered, walkOnErrorChain. destruct (st_OnError step =s? ""); cbn [negb andb orb]; [done|].
  intros Hr. rewrite (skip_ext_walk wf r0 run _ ∅ id Hx); [done|]. by destruct (walk_chain _ wf r0 ∅ id).
Qed.

Lemma skip_ext_exhausted wf r0 run id step :
  skip_ext r0 run -> exhausted wf r0 id step = true -> exhausted wf run id step = true.
Proof.
  intros Hx. unfold exhausted, walkOnErrorChain. destruct (st_OnError step =s? ""); cbn [negb andb orb]; [done|].
  intros Hr. rewrite (skip_ext_walk wf r0 run _ ∅ id Hx); [done|]. by destruct (walk_chain _ wf r0 ∅ id).
Qed.

(** *** The loop over the steps *)

Definition status_loop (wf : Workflow) (skipNow : Z) (a : status_acc) (l : list (string * Step)) : status_acc :=
  foldl (fun a '(stepID, stepDef) => status_step wf skipNow a stepID stepDef) a l.

(** No step so far stands in the way of success. *)
Definition clean (a : status_acc) : bool :=
  negb (acc_failed a) && negb (acc_denied a) && negb (acc_timedOut a) && negb (acc_waiting a) && acc_allDone a.

Definition done_or_managed (wf : Workflow) (run : WorkflowRun) (kv : string * Step) : bool :=
  is_managed wf (fst kv) || step_complete wf run (fst kv) (snd kv).

(** The steps of the list the run itself has to complete. *)
Definition own_steps (wf : Workflow) (l : list (string * Step)) : Z :=
  Z.of_nat (length (List.filter (fun kv => negb (is_managed wf (fst kv))) l)).

Lemma status_step_clean wf t a id step :
  clean (status_step wf t a id step) = clean a && done_or_managed wf (acc_run a) (id, step).
Proof.
  unfold status_step, done_or_managed, step_complete, recovered. simpl.
  destruct (is_managed wf id); simpl; [by rewrite andb_true_r|].
  destruct a as [run f d tm w al c e]; simpl. unfold clean; simpl.
  destruct (step_run run id) as [sr|]; simpl.
  - destruct (sr_Status sr), (st_OnError step =s? ""), (walkOnErrorChain wf run id), (isSwitchBranchNotTaken sr),
      f, d, tm, w, al; done.
  - destruct (isOnErrorTarget wf id), f, d, tm, w, al; done.
Qed.

Lemma status_step_run wf t a id step :
  clean (status_step wf t a id step) = true ->
  acc_run (status_step wf t a id step) = acc_run a /\
  (acc_completed (status_step wf t a id step) - acc_expected (status_step wf t a id step) =
   acc_completed a - acc_expected a + own_steps wf [(id, step)])%Z.
Proof.
  unfold own_steps. cbn [List.filter fst]. unfold status_step.
  destruct (is_managed wf id); cbn [negb length]; [intros; split; [done|lia]|].
  destruct a as [run f d tm w al c e]; unfold clean; simpl.
  destruct (step_run run id) as [sr|]; simpl.
  - destruct (sr_Status sr), (st_OnError step =s? ""), (walkOnErrorChain wf run id), (isSwitchBranchNotTaken sr);
      simpl; intros Hc; rewrite ?andb_false_r in Hc; try discriminate; (split; [done|lia]).
  - destruct (isOnErrorTarget wf id); simpl; intros Hc; rewrite ?andb_false_r in Hc; try discriminate; (split; [done|lia]).
Qed.

Lemma status_loop_clean wf t l a r0 :
  acc_run a = r0 ->
  clean (status_loop wf t a l) = clean a && forallb (done_or_managed wf r0) l /\
  (clean (status_loop wf t a l) = true ->
   acc_run (status_loop wf t a l) = r0 /\
   (acc_completed (status_loop wf t a l) - acc_expected (status_loop wf t a l) =
    acc_completed a - acc_expected a + own_steps wf l)%Z).
Proof.
  unfold status_loop. revert a. induction l as [|[id step] l IH]; intros a Hr; cbn [foldl forallb].
  { rewrite andb_true_r. split; [done|]. unfold own_steps; simpl. intros; split; [done|lia]. }
  pose proof (status_step_clean wf t a id step) as Hc. rewrite Hr in Hc.
  destruct (clean (status_step wf t a id step)) eqn:Ec.
  - destruct (status_step_run wf t a id step Ec) as [Hr' Hn].
    destruct (IH (status_step wf t a id step)) as [IH1 IH2]; [congruence|]. rewrite IH1, Ec.
    symmetry in Hc. apply andb_true_iff in Hc as [-> ->]. split; [done|].
    intros Hall. destruct IH2 as [E1 E2]; [by rewrite IH1, Ec|]. split; [done|].
    rewrite E2, Hn. unfold own_steps. cbn [List.filter fst]. destruct (is_managed wf id); cbn [negb length]; lia.
  - assert (forall l a, clean a = false -> clean (status_loop wf t a l) = false) as Hst.
    { clear. induction l as [|[id step] l IH]; intros a Ha; [done|]. cbn [status_loop foldl]. apply IH.
      by rewrite status_step_clean, Ha. }
    fold (status_loop wf t (status_step wf t a id step) l). rewrite (Hst l _ Ec). split; [|done]. rewrite andb_assoc. by rewrite <- Hc.
Qed.

Lemma expected_steps_own wf : expected_steps wf = own_steps wf (range_map (wf_Steps wf)).
Proof.
  unfold expected_steps, own_steps.
  assert (forall l n, foldl (fun n '(stepID, _) => if is_managed wf stepID then (n - 1)%Z else n) n l =
    (n - Z.of_nat (length l) + Z.of_nat (length (List.filter (fun kv : string * Step => negb (is_managed wf (fst kv))) l)))%Z) as Hf.
  { induction l as [|[id step] l IH]; intros n; simpl; [lia|]. rewrite IH.
    destruct (is_managed wf id); simpl; lia. }
  assert (length (range_map (wf_Steps wf)) = size (wf_Steps wf)) as Hl
    by (rewrite (Permutation_length (range_map_perm (wf_Steps wf))); apply length_map_to_list).
  rewrite Hf, Hl. destruct (_ <? 0)%Z eqn:E; lia.
Qed.

(** The flags record steps of the original run. *)
Definition flags_sound (wf : Workflow) (r0 : WorkflowRun) (a : status_acc) : Prop :=
  let some P := exists id step, wf_Steps wf !! id = Some step /\ is_managed wf id = false /\ P id step in
  (acc_failed a = true -> some (fun id step =>
     (status_of r0 id = StepStatusFailed /\ recovered wf r0 id step = false) \/ step_broken wf r0 id step = true)) /\
  (acc_denied a = true -> some (fun id step => status_of r0 id = StepStatusDenied /\ recovered wf r0 id step = false)) /\
  (acc_timedOut a = true -> some (fun id step => status_of r0 id = StepStatusTimedOut /\ recovered wf r0 id step = false)) /\
  (acc_waiting a = true -> some (fun id step => status_of r0 id = StepStatusWaiting)).

Lemma status_step_sound wf t r0 a id step :
  wf_Steps wf !! id = Some step -> skip_ext r0 (acc_run a) -> flags_sound wf r0 a ->
  skip_ext r0 (acc_run (status_step wf t a id step)) /\ flags_sound wf r0 (status_step wf t a id step) /\
  (is_managed wf id = false -> step_broken wf r0 id step = true -> acc_failed (status_step wf t a id step) = true) /\
  (acc_failed a = true -> acc_failed (status_step wf t a id step) = true).
Proof.
  intros Hstep Hx Hf. unfold status_step.
  destruct (is_managed wf id) eqn:Em; [split_and!; done|].
  pose proof (skip_ext_skip wf r0 (acc_run a) id t Hx) as Hx'.
  destruct (step_run (acc_run a) id) as [sr|] eqn:Esr.
  2:{ assert (step_run r0 id = None) as E0.
      { rewrite <- (skip_ext_status r0 (acc_run a) id Hx); [done|]. unfold status_of. by rewrite Esr. }
      unfold step_broken. rewrite E0. destruct (isOnErrorTarget wf id); split_and!; done. }
  assert (sr_Status sr <> StepStatusSkipped -> step_run r0 id = Some sr) as Hr0.
  { intros Hn. rewrite <- (skip_ext_status r0 (acc_run a) id Hx); [done|]. unfold status_of. by rewrite Esr. }
  assert (recovered wf r0 id step = true -> recovered wf (acc_run a) id step = true) as Hrec by (by apply skip_ext_recovered).
  assert (exhausted wf r0 id step = true -> exhausted wf (acc_run a) id step = true) as Hexh by (by apply skip_ext_exhausted).
  assert (sr_Status sr = StepStatusSkipped -> step_broken wf r0 id step = false) as Hsk.
  { intros Hs. unfold step_broken. destruct Hx as [_ Hx]. destruct (Hx id) as [E|(Hp & _ & _)].
    - rewrite <- E, Esr, Hs. done.
    - unfold status_of in Hp. destruct (step_run r0 id); [by rewrite Hp|done]. }
  destruct Hf as (Hf1 & Hf2 & Hf3 & Hf4).
  unfold recovered, exhausted in *. unfold flags_sound, step_broken, recovered, exhausted, status_of in *.
  destruct (sr_Status sr) eqn:Es; try (rewrite Hr0 by done; rewrite Es);
    destruct (st_OnError step =s? "") eqn:Eo, (walkOnErrorChain wf (acc_run a) id) eqn:Ew; simpl in *;
    try destruct (isSwitchBranchNotTaken sr) eqn:Esw; simpl in *.
  all: try (rewrite (Hsk eq_refl); split_and!; done).
  all: split_and!; try done.
  all: try (intros _; exists id, step; rewrite Hr0, Es by done; rewrite ?Eo, ?Esw; simpl; auto; fail).
  all: try (intros _; exists id, step; rewrite Hr0, Es by done; rewrite ?Eo, ?Esw; simpl;
            destruct (walkOnErrorChain wf r0 id); naive_solver).
  all: try (intros _ Hb; exfalso; destruct (walkOnErrorChain wf r0 id); naive_solver).
Qed.

Lemma status_loop_sound wf t r0 l a :
  (forall id step, (id, step) ∈ l -> wf_Steps wf !! id = Some step) ->
  skip_ext r0 (acc_run a) -> flags_sound wf r0 a ->
  flags_sound wf r0 (status_loop wf t a l) /\
  ((exists id step, (id, step) ∈ l /\ is_managed wf id = false /\ step_broken wf r0 id step = true) \/ acc_failed a = true ->
   acc_failed (status_loop wf t a l) = true).
Proof.
  revert a. induction l as [|[id step] l IH]; intros a Hl Hx Hf; cbn [status_loop foldl].
  { split; [done|]. intros [(id & step & Hin & _)|?]; [set_solver|done]. }
  destruct (status_step_sound wf t r0 a id step) as (Hx' & Hf' & Hb & Hk); [apply Hl; set_solver|done|done|].
  destruct (IH (status_step wf t a id step)) as [IH1 IH2]; [set_solver|done|done|].
  split; [done|]. intros Hor. apply IH2. destruct Hor as [(id' & step' & Hin & Hm & Hbr)|Ha]; [|right; by apply Hk].
  apply elem_of_cons in Hin as [[= -> ->]|Hin]; [right; by apply Hb|left; eauto].
Qed.


End Outcome.

(** ** Example workflows *)


(** An approval step used as an [on_error] handler fails the run the moment its
    gate is dispatched: the chain treats a waiting handler like a failed one, so
    the run is failed while the human decision is still outstanding. *)
Theorem waiting_handler_fails_run :
  let wf := plain_workflow "w" 0 [plain_step "a" StepTypeWorker [] "ask"; plain_step "ask" StepTypeApproval [] ""] in
  let run := plain_run "r" "w" RunStatusRunning
    [("a", new_step_run_status "a" StepStatusFailed); ("ask", new_step_run_status "ask" StepStatusWaiting)] in
  walkOnErrorChain wf run "a" = chainExhausted /\
  run_Status (@updateRunStatus fwd_runtime run wf 5 5) = RunStatusFailed /\
  run_Status (@updateRunStatus rev_runtime run wf 5 5) = RunStatusFailed.
Proof. vm_compute. auto. Qed.

(** The outcome of a run can depend on the order in which the runtime visits the
    steps: a denied step whose dependents include the handler of a failed step
    makes the run fail if it is visited first and makes it denied otherwise. *)
Theorem run_status_order_dependent :
  let wf := plain_workflow "w" 0
    [plain_step "a" StepTypeWorker [] ""; plain_step "b" StepTypeWorker [] "h"; plain_step "h" StepTypeWorker ["a"] ""] in
  let run := plain_run "r" "w" RunStatusRunning
    [("a", new_step_run_status "a" StepStatusDenied); ("b", new_step_run_status "b" StepStatusFailed);
     ("h", new_step_run_status "h" StepStatusPending)] in
  let outcomes := [run_Status (@updateRunStatus fwd_runtime run wf 5 5);
                   run_Status (@updateRunStatus rev_runtime run wf 5 5)] in
  RunStatusFailed ∈ outcomes /\ RunStatusDenied ∈ outcomes.
Proof. vm_compute. split; repeat (apply list_elem_of_here || apply list_elem_of_further). Qed.

(** ** Parallel outcomes *)

(** The configurations [resolveParallelConfig] returns. *)
Definition parallel_config_ok (strategy : string) (required total : Z) : Prop :=
  (0 < required <= total)%Z /\
  ((strategy = "all" /\ required = total) \/ (strategy = "any" /\ required = 1%Z) \/ strategy = "n_of_m").

Lemma parallel_outcome_spec strategy required total s f :
  parallel_config_ok strategy required total -> (0 <= s)%Z -> (0 <= f)%Z -> (s + f <= total)%Z ->
  fst <$> evaluateParallelOutcome strategy required total s f =
  if (required <=? s)%Z then Some true else if (total - f <? required)%Z then Some false else None.
Proof.
  intros [Hr [[-> ->]|[[-> ->]| -> ]]] Hs Hf Hsf; unfold evaluateParallelOutcome; simpl.
  all: repeat match goal with |- context [if ?b then _ else _] => destruct b eqn:?; simpl end.
  all: try done; rewrite ?Z.ltb_lt, ?Z.ltb_ge, ?Z.leb_le, ?Z.leb_gt, ?Z.eqb_eq, ?Z.eqb_neq in *; lia.
Qed.

(** A parallel step is decided exactly when its outcome is: it succeeds as
    soon as the required number of children have, fails as soon as too few
    children are left to reach it, and stays open in between; and a decision
    never changes as further children finish. *)
Theorem parallel_outcome_exact (strategy : string) (required total s f s' f' : Z) :
  parallel_config_ok strategy required total ->
  (0 <= s <= s')%Z -> (0 <= f <= f')%Z -> (s' + f' <= total)%Z ->
  (fst <$> evaluateParallelOutcome strategy required total s f =
   if (required <=? s)%Z then Some true else if (total - f <? required)%Z then Some false else None) /\
  (forall b, fst <$> evaluateParallelOutcome strategy required total s f = Some b ->
   fst <$> evaluateParallelOutcome strategy required total s' f' = Some b).
Proof.
  intros Hok Hs Hf Hsf. rewrite !parallel_outcome_spec by (done || lia). split; [done|]. intros b.
  repeat match goal with |- context [if ?b then _ else _] => destruct b eqn:? end;
    rewrite ?Z.ltb_lt, ?Z.ltb_ge, ?Z.leb_le, ?Z.leb_gt in *; (done || lia).
Qed.

Lemma parallel_outcome_exact_witness :
  fst <$> evaluateParallelOutcome "n_of_m" 2 3 2 1 = Some true.
Proof.
  apply (parallel_outcome_exact "n_of_m" 2 3 2 0 2 1); [|lia|lia|lia|reflexivity].
  split; [lia|]. right; right; reflexivity.
Defined.

(** ** Cancelled and timed-out step runs *)

(** A step run and the step runs it holds, directly or deeper. *)
Fixpoint tree_runs (sr : StepRun) : list StepRun :=
  (sr :: concat (map (fun kc => match snd kc with ChildOwn c => tree_runs c | ChildShared => [] end)
                   (sr_Children sr)))%list.

Section TreeInduction.
Context (P : StepRun -> Prop).
Hypothesis IH : forall sr, Forall (fun kc => match snd kc with ChildOwn c => P c | ChildShared => True end) (sr_Children sr) -> P sr.

Fixpoint StepRun_tree_ind (sr : StepRun) : P sr :=
  IH sr ((fix go (cs : list (string * child_ref StepRun)) :
            Forall (fun kc => match snd kc with ChildOwn c => P c | ChildShared => True end) cs :=
            match cs with
            | [] => Forall_nil_2 _
            | kc :: cs =>
                Forall_cons_2 _ kc cs
                  (match snd kc as c return match c with ChildOwn c => P c | ChildShared => True end with
                   | ChildOwn c => StepRun_tree_ind c
                   | ChildShared => I
                   end) (go cs)
            end) (sr_Children sr)).

End TreeInduction.

Lemma Forall_tree (Q : StepRun -> Prop) sr :
  Forall Q (tree_runs sr) <->
  Q sr /\ Forall (fun kc => match snd kc with ChildOwn c => Forall Q (tree_runs c) | ChildShared => True end) (sr_Children sr).
Proof.
  assert (tree_runs sr = sr :: concat (map (fun kc => match snd kc with ChildOwn c => tree_runs c | ChildShared => [] end)
            (sr_Children sr)))%list as -> by (by destruct sr).
  rewrite Forall_cons, Forall_concat, Forall_map. f_equiv.
  apply Forall_iff. intros [k [|c]]; simpl; [by rewrite Forall_nil|done].
Qed.

Lemma map_children_tree (Q : StepRun -> Prop) f cs :
  Forall (fun kc => match snd kc with ChildOwn c => Forall Q (tree_runs (f c)) | ChildShared => True end) cs ->
  Forall (fun kc => match snd kc with ChildOwn c => Forall Q (tree_runs c) | ChildShared => True end) (map_children f cs).
Proof. unfold map_children. rewrite Forall_map. intros H. eapply Forall_impl; [exact H|]. by intros [k [|c]]. Qed.

Lemma cancelStepRun_unfold now sr :
  cancelStepRun now sr =
  set_sr_Children (map_children (cancelStepRun now) (sr_Children sr))
    (if isTerminalStepStatus (sr_Status sr) then sr
     else set_sr_CompletedAt (Some now) (set_sr_Status StepStatusCancelled sr)).
Proof. by destruct sr. Qed.

Lemma timeoutStepRun_unfold now sr :
  timeoutStepRun now sr =
  set_sr_Children (map_children (timeoutStepRun now) (sr_Children sr))
    (if isTerminalStepStatus (sr_Status sr) then sr
     else
       let sr := set_sr_CompletedAt (Some now) (set_sr_Status StepStatusTimedOut sr) in
       match sr_Error sr with None => set_sr_Error (Some timeout_error) sr | Some _ => sr end).
Proof. by destruct sr. Qed.

Definition terminal_run (sr : StepRun) : Prop := isTerminalStepStatus (sr_Status sr) = true.

Lemma cancelStepRun_terminal now sr : Forall terminal_run (tree_runs (cancelStepRun now sr)).
Proof.
  induction sr as [sr IHsr] using StepRun_tree_ind. rewrite cancelStepRun_unfold, Forall_tree. split.
  - unfold terminal_run. by destruct (isTerminalStepStatus (sr_Status sr)) eqn:E.
  - simpl. by apply map_children_tree.
Qed.

Lemma timeoutStepRun_terminal now sr : Forall terminal_run (tree_runs (timeoutStepRun now sr)).
Proof.
  induction sr as [sr IHsr] using StepRun_tree_ind. rewrite timeoutStepRun_unfold, Forall_tree. split.
  - unfold terminal_run. destruct (isTerminalStepStatus (sr_Status sr)) eqn:E; [done|]. simpl.
    by destruct (sr_Error sr).
  - simpl. by apply map_children_tree.
Qed.

Lemma cancelStepRun_keeps now sr :
  isTerminalStepStatus (sr_Status sr) = true -> sr_Status (cancelStepRun now sr) = sr_Status sr.
Proof. intros E. by rewrite cancelStepRun_unfold, E. Qed.

Lemma timeoutStepRun_keeps now sr :
  isTerminalStepStatus (sr_Status sr) = true -> sr_Status (timeoutStepRun now sr) = sr_Status sr.
Proof. intros E. by rewrite timeoutStepRun_unfold, E. Qed.

(** The jobs to cancel are those of the running and waiting step runs of the tree. *)
Lemma collectCancelableJobs_iff sr j :
  j ∈ collectCancelableJobs sr <-> exists c, c ∈ tree_runs sr /\ is_cancelable c = true /\ sr_JobID c = j.
Proof.
  induction sr as [sr IHsr] using StepRun_tree_ind.
  assert (collectCancelableJobs sr = (if is_cancelable sr then [sr_JobID sr] else []) ++
    concat (map (fun kc => match snd kc with ChildOwn c => collectCancelableJobs c | ChildShared => [] end) (sr_Children sr)))%list
    as -> by (by destruct sr).
  assert (tree_runs sr = sr :: concat (map (fun kc => match snd kc with ChildOwn c => tree_runs c | ChildShared => [] end)
            (sr_Children sr)))%list as -> by (by destruct sr).
  rewrite Forall_forall in IHsr. rewrite elem_of_app. setoid_rewrite elem_of_cons.
  assert (forall (A : Type) (g : StepRun -> list A) x,
    x ∈ concat (map (fun kc => match snd kc with ChildOwn c => g c | ChildShared => [] end) (sr_Children sr)) <->
    exists k c, (k, ChildOwn c) ∈ sr_Children sr /\ x ∈ g c) as Hcc.
  { intros A g x. rewrite list_elem_of_In, in_concat. setoid_rewrite in_map_iff. split.
    - intros (l & ([k [|c]] & <- & Hin) & Hx); simpl in Hx; [done|].
      exists k, c. rewrite !list_elem_of_In. done.
    - intros (k & c & Hin & Hx). exists (g c). rewrite !list_elem_of_In in *. split; [|done]. by exists (k, ChildOwn c). }
  rewrite Hcc. setoid_rewrite Hcc. split.
  - intros [Hin|(k & c & Hin & Hj)].
    + destruct (is_cancelable sr) eqn:E; [|set_solver]. exists sr. set_solver.
    + apply (IHsr (k, ChildOwn c)) in Hj as (d & Hd & ? & ?); [|done]. exists d. eauto 10.
  - intros (d & [->|(k & c & Hin & Hd)] & Hc & Hj).
    + left. rewrite Hc. set_solver.
    + right. exists k, c. split; [done|]. apply (IHsr (k, ChildOwn c)); [done|]. eauto.
Qed.
