(* ===== verification/WorkflowEval.v ===== *)
(** * Expressions and templates of the workflow engine

    core/workflow/eval.go, eval_sandbox.go, engine_eval.go, the configuration
    readers of engine_steps_*.go that evaluate templates, and the recording of
    step outputs (engine_output.go).  The expression language itself is the
    third-party expr-lang library: [ExprEngine] stands for compiling and running
    one of its programs. *)
From S2P Require Import Prelude.
From S2P Require Import GoStrings.
From S2P Require Import PolicyTypes.
From S2P Require Import GoValues.
From S2P Require Import WorkflowModels.
From S2P Require Import WorkflowHelpers.
From S2P Require Import WorkflowState.
From Stdlib Require Import Ascii.

Open Scope string_scope.

(** [expr.Compile] (its error, if any) and [expr.Run] of the compiled program. *)
Class ExprEngine := {
  expr_compile_error : string -> option string;
  expr_run : string -> amap -> result string any;
}.

(** ** The sandbox *)

Record ExprSandboxConfig := mkExprSandboxConfig {
  MaxExprLength : Z;
  MaxResultItems : Z;
  EvalTimeout : Z;
  AllowedVars : list string;
}.

Definition DefaultSandboxConfig : ExprSandboxConfig :=
  mkExprSandboxConfig 4096 10000 100000000 ["ctx"; "input"; "steps"; "item"; "env"].

(** A positive integer read from the environment, or the default. *)
Definition env_positive (v : string) (dflt : Z) : Z :=
  if v =s? "" then dflt
  else match Atoi v with Some n => if (0 <? n)%Z then n else dflt | None => dflt end.

Definition SandboxConfigFromEnv (getenv : string -> string) : ExprSandboxConfig :=
  let cfg := DefaultSandboxConfig in
  mkExprSandboxConfig
    (env_positive (getenv "WORKFLOW_EXPR_MAX_LENGTH") (MaxExprLength cfg))
    (env_positive (getenv "WORKFLOW_EXPR_MAX_RESULT_ITEMS") (MaxResultItems cfg))
    (let v := getenv "WORKFLOW_EXPR_TIMEOUT_MS" in
     if v =s? "" then EvalTimeout cfg
     else match Atoi v with
          | Some n => if (0 <? n)%Z then wrap64 (n * 1000000) else EvalTimeout cfg
          | None => EvalTimeout cfg
          end)
    (AllowedVars cfg).

Definition blockedPatterns : list string :=
  ["import"; "require"; "reflect"; "unsafe"; "runtime"; "os.exit"; "exec"; "__proto__"; "constructor"; "prototype"].

Definition sanitizeExprError (msg : string) : string :=
  if Contains msg "cannot fetch" then "property access failed on nil value"
  else if Contains msg "undefined:" then "undefined variable or function"
  else if Contains msg "invalid operation" then "invalid operation in expression"
  else msg.

Section Eval.
Context `{GoRuntime} `{FloatPrinter} `{FloatParser} `{ExprEngine}.
Context (sandbox : ExprSandboxConfig).

Definition Eval (exprStr : string) (ctx : amap) : result string any :=
  let exprStr := TrimSpace exprStr in
  if exprStr =s? "" then Err "empty expression"
  else if (MaxExprLength sandbox <? Z.of_nat (String.length exprStr))%Z
  then Err ("expression exceeds maximum length of " +:+ Itoa (MaxExprLength sandbox) +:+ " bytes")
  else if existsb (Contains (ToLower exprStr)) blockedPatterns
  then Err "expression contains blocked pattern"
  else match expr_compile_error exprStr with
       | Some e => Err ("expression compilation failed: " +:+ sanitizeExprError e)
       | None =>
           match expr_run exprStr ctx with
           | Err e => Err ("expression evaluation failed: " +:+ sanitizeExprError e)
           | Ok v => Ok v
           end
       end.

Definition evalCondition (expr : string) (scope : amap) : result string bool :=
  match Eval expr scope with Err e => Err e | Ok v => Ok (truthy v) end.

(** ** Scopes *)

Definition runSteps (run : WorkflowRun) : amap :=
  match aget (run_ctx run) "steps" with Some (AnyMap m) => m | _ => [] end.

Definition buildEvalScope (run : WorkflowRun) (item : any) : amap :=
  ([("input", AnyMap (run_Input run)); ("ctx", AnyMap (run_ctx run)); ("steps", AnyMap (runSteps run))]
   ++ (if is_nil item then [] else [("item", item)]))%list.

(** ** Templates *)

(** The text before and after the first template opening. *)
Fixpoint cut_open (s : string) : option (string * string) :=
  match s with
  | EmptyString => None
  | String a s' =>
      match a, s' with
      | "$"%char, String "{" r => Some ("", r)
      | _, _ => match cut_open s' with Some (b, r) => Some (String a b, r) | None => None end
      end
  end.

(** The loop of [evalTemplateString]; every turn drops an opening, so the length
    of the text bounds the turns. *)
Fixpoint template_loop (fuel : nat) (b rest : string) (scope : amap) : result string any :=
  match fuel with
  | O => Err "unterminated template expression"
  | S fuel =>
      match cut_open rest with
      | None => Ok (AnyString (b +:+ rest))
      | Some (before, rest) =>
          match cut_first "}" rest with
          | None => Err "unterminated template expression"
          | Some (expr, rest) =>
              match Eval (TrimSpace expr) scope with
              | Err e => Err e
              | Ok v => template_loop fuel (b +:+ before +:+ (if is_nil v then "" else Sprint v)) rest scope
              end
          end
      end
  end.

(** A text that is one template and nothing else, up to blanks. *)
Definition whole_template (s : string) : option string :=
  let trimmed := TrimSpace s in
  if HasPrefix trimmed "${" && HasSuffix trimmed "}" then
    let body := TrimSuffix (TrimPrefix trimmed "${") "}" in
    if Contains body "${" || Contains body "}" then None else Some (TrimSpace body)
  else None.

Definition evalTemplateString (s : string) (scope : amap) : result string any :=
  if negb (Contains s "${") then Ok (AnyString s)
  else match whole_template s with
       | Some expr => Eval expr scope
       | None => template_loop (S (String.length s)) "" s scope
       end.

(** The values of a list of results, or the first error. *)
Fixpoint all_ok {A} (l : list (result string A)) : result string (list A) :=
  match l with
  | [] => Ok []
  | Err e :: _ => Err e
  | Ok v :: l => match all_ok l with Ok vs => Ok (v :: vs) | Err e => Err e end
  end.

(** The first error in the order the runtime visits the entries. *)
Definition first_error {A} (m : list (string * result string A)) : option string :=
  find_first (fun kv => match snd kv with Err e => Some e | Ok _ => None end) (range_amap m).

(** A template that resolved to nil drops its key; a literal null stays. *)
Definition keep_entry (child evaled : any) : bool := negb (is_nil evaled && negb (is_nil child)).

Definition evaluated_entries (m : list (string * (any * result string any))) : amap :=
  omap (fun kv => match snd (snd kv) with
                  | Ok v => if keep_entry (fst (snd kv)) v then Some (fst kv, v) else None
                  | Err _ => None
                  end) m.

Fixpoint evalTemplates (value : any) (scope : amap) : result string any :=
  match value with
  | AnyString s => evalTemplateString s scope
  | AnyMap m =>
      let entries := map (fun kv => (fst kv, (snd kv, evalTemplates (snd kv) scope))) m in
      match first_error (map (fun kv => (fst kv, snd (snd kv))) entries) with
      | Some e => Err e
      | None => Ok (AnyMap (evaluated_entries entries))
      end
  | AnyStringMap m =>
      let entries := map (fun kv => (fst kv, evalTemplateString (snd kv) scope)) m in
      match first_error entries with
      | Some e => Err e
      | None => Ok (AnyMap (omap (fun kv => match snd kv with Ok v => Some (fst kv, v) | Err _ => None end) entries))
      end
  | AnyList l => match all_ok (map (fun v => evalTemplates v scope) l) with Ok vs => Ok (AnyList vs) | Err e => Err e end
  | AnyStrings l => match all_ok (map (fun v => evalTemplateString v scope) l) with Ok vs => Ok (AnyList vs) | Err e => Err e end
  | AnyInts l => Ok (AnyList (map AnyInt l))
  | v => Ok v
  end.

Definition evalForEach (expr : string) (scope : amap) : result string (list any) :=
  match Eval expr scope with
  | Err e => Err e
  | Ok v =>
      let cap l := List.firstn (Z.to_nat (MaxResultItems sandbox)) l in
      match v with
      | AnyList l => Ok (cap l)
      | AnyStrings l => Ok (cap (map AnyString l))
      | AnyInts l => Ok (cap (map AnyInt l))
      | AnyNil => Ok []
      | _ => Err ("for_each expression must return array, got " +:+ type_name v)
      end
  end.

(** ** Step configurations that evaluate templates *)

Record ParallelConfig := mkParallelConfig { pcf_children : list string; pcf_strategy : string; pcf_required : Z }.

(** The strategy of a parallel step, [all] unless given. *)
Definition parallel_strategy (input scope : amap) : result string string :=
  match aget input "strategy" with
  | None => Ok "all"
  | Some raw =>
      match evalTemplates raw scope with
      | Err e => Err ("parallel strategy eval failed: " +:+ e)
      | Ok v => normalizeParallelStrategy v
      end
  end.

(** The number of successes it needs. *)
Definition parallel_required (input scope : amap) (strategy : string) (total : Z) : result string Z :=
  if strategy =s? "all" then Ok total
  else if strategy =s? "any" then Ok 1%Z
  else if strategy =s? "n_of_m" then
    match aget input "required" with
    | None => Err "parallel strategy n_of_m requires input.required"
    | Some raw =>
        match evalTemplates raw scope with
        | Err e => Err ("parallel required eval failed: " +:+ e)
        | Ok v =>
            match parsePositiveInt v with
            | Ok n => Ok n
            | Err e => Err ("parallel required invalid: " +:+ e)
            end
        end
    end
  else Err ("unsupported parallel strategy: " +:+ strategy).

Definition resolveParallelConfig (step : Step) (scope : amap) : result string ParallelConfig :=
  match st_Input step with
  | None => Err "parallel step input required"
  | Some input =>
      match aget input "steps" with
      | None => Err "parallel step input.steps required"
      | Some rawChildren =>
          match evalTemplates rawChildren scope with
          | Err e => Err ("parallel steps eval failed: " +:+ e)
          | Ok evaledChildren =>
              match parseParallelStepIDs evaledChildren with
              | Err e => Err e
              | Ok [] => Ok (mkParallelConfig [] "all" 0)
              | Ok childStepIDs =>
                  let total := Z.of_nat (length childStepIDs) in
                  match parallel_strategy input scope with
                  | Err e => Err e
                  | Ok strategy =>
                      match parallel_required input scope strategy total with
                      | Err e => Err e
                      | Ok required =>
                          if ((required <=? 0) || (total <? required))%Z
                          then Err ("parallel required must be between 1 and " +:+ Itoa total)
                          else Ok (mkParallelConfig childStepIDs strategy required)
                      end
                  end
              end
          end
      end
  end.

(** A case of the map form: the key is the match value. *)
Definition map_case (kv : string * any) : result string switchCase :=
  let stepID := TrimSpace (Sprint (snd kv)) in
  if stepID =s? "" then Err ("switch case " +:+ Quote (fst kv) +:+ " has empty target step")
  else Ok (mkSwitchCase (AnyString (fst kv)) stepID).

(** The cases of the list form, with the index of an invalid one. *)
Fixpoint list_cases (idx : nat) (l : list any) : result string (list switchCase) :=
  match l with
  | [] => Ok []
  | entry :: l =>
      match parseSwitchCaseEntry entry with
      | Err e => Err ("switch case " +:+ Itoa (Z.of_nat idx) +:+ " invalid: " +:+ e)
      | Ok c => match list_cases (S idx) l with Ok cs => Ok (c :: cs) | Err e => Err e end
      end
  end.

Definition parseSwitchCases (step : Step) (scope : amap) : result string (list switchCase) :=
  match st_Input step with
  | None => Err "switch input.cases required"
  | Some input =>
      match aget input "cases" with
      | None => Err "switch input.cases required"
      | Some rawCases =>
          match evalTemplates rawCases scope with
          | Err e => Err ("switch cases eval failed: " +:+ e)
          | Ok v =>
              match v with
              | AnyList l => list_cases 0 l
              | AnyMap m => all_ok (map map_case (range_amap m))
              | AnyNil => Ok []
              | _ => Err ("switch input.cases must be array or map, got " +:+ type_name v)
              end
          end
      end
  end.

Definition parseSwitchDefault (step : Step) (scope : amap) : result string string :=
  match st_Input step with
  | None => Ok ""
  | Some input =>
      match (match aget input "default" with Some raw => Some raw | None => aget input "default_step" end) with
      | None => Ok ""
      | Some raw =>
          match evalTemplates raw scope with
          | Err e => Err ("switch default eval failed: " +:+ e)
          | Ok v => if is_nil v then Ok "" else Ok (TrimSpace (Sprint v))
          end
      end
  end.

Record SubWorkflowConfig := mkSubWorkflowConfig {
  sw_workflowID : string;
  sw_inputMapping : any;
  sw_outputMapping : any;
}.

Definition resolveSubWorkflowConfig (step : Step) (scope : amap) : result string SubWorkflowConfig :=
  match st_Input step with
  | None => Err "subworkflow input required"
  | Some input =>
      match aget input "workflow_id" with
      | None => Err "subworkflow input.workflow_id required"
      | Some raw =>
          match evalTemplates raw scope with
          | Err e => Err ("subworkflow workflow_id eval failed: " +:+ e)
          | Ok v =>
              let workflowID := TrimSpace (Sprint v) in
              if workflowID =s? "" then Err "subworkflow workflow_id required" else
              let outputMapping := default AnyNil (aget input "output_mapping") in
              match aget input "input_mapping" with
              | None => Ok (mkSubWorkflowConfig workflowID AnyNil outputMapping)
              | Some rawInput =>
                  match evalTemplates rawInput scope with
                  | Err e => Err ("subworkflow input_mapping eval failed: " +:+ e)
                  | Ok inputMapping => Ok (mkSubWorkflowConfig workflowID inputMapping outputMapping)
                  end
              end
          end
      end
  end.

Definition normalizeSubWorkflowMap (value : any) (fieldName : string) : result string amap :=
  match value with
  | AnyNil => Ok []
  | AnyMap m => Ok m
  | AnyStringMap m => Ok (map (fun kv => (fst kv, AnyString (snd kv))) m)
  | _ => Err ("subworkflow " +:+ fieldName +:+ " must evaluate to object, got " +:+ type_name value)
  end.

Definition normalizeSubWorkflowInput (parentRun : WorkflowRun) (inputMapping : any) : result string amap :=
  if is_nil inputMapping then Ok (run_Input parentRun) else normalizeSubWorkflowMap inputMapping "input_mapping".

Definition buildSubWorkflowScope (parentRun childRun : WorkflowRun) : amap :=
  let child := AnyMap
    [("id", AnyString (run_ID childRun)); ("workflow_id", AnyString (run_WorkflowID childRun));
     ("status", AnyString (string_of_run_status (run_Status childRun)));
     ("input", AnyMap (run_Input childRun)); ("output", AnyMap (run_Output childRun));
     ("ctx", AnyMap (run_ctx childRun)); ("steps", AnyMap (runSteps childRun));
     ("error", AnyMap (run_Error childRun))] in
  aset (aset (buildEvalScope parentRun AnyNil) "child" child) "subworkflow" child.

(** [if _, ok := m[k]; !ok { m[k] = v }]. *)
Definition adefault (m : amap) (k : string) (v : any) : amap :=
  match aget m k with Some _ => m | None => aset m k v end.

Definition buildSubWorkflowOutput (parentRun childRun : WorkflowRun) (outputMapping : any) : result string amap :=
  let runID := AnyString (run_ID childRun) in
  let wfID := AnyString (run_WorkflowID childRun) in
  let status := AnyString (string_of_run_status (run_Status childRun)) in
  if is_nil outputMapping then
    Ok [("child_run_id", runID); ("child_workflow_id", wfID); ("child_status", status);
        ("output", AnyMap (run_Output childRun)); ("steps", AnyMap (runSteps childRun))]
  else
    match evalTemplates outputMapping (buildSubWorkflowScope parentRun childRun) with
    | Err e => Err ("subworkflow output_mapping eval failed: " +:+ e)
    | Ok v =>
        match normalizeSubWorkflowMap v "output_mapping" with
        | Err e => Err e
        | Ok m => Ok (adefault (adefault (adefault m "child_run_id" runID) "child_workflow_id" wfID) "child_status" status)
        end
    end.

(** The first error message among the steps that ended badly, in map order. *)
Definition subWorkflowChildErrorMessage (childRun : WorkflowRun) : string :=
  default "" (find_first (fun kv =>
    let sr := snd kv in
    match sr_Status sr with
    | StepStatusFailed | StepStatusDenied | StepStatusTimedOut | StepStatusCancelled =>
        match sr_Error sr with
        | Some err =>
            let msg := aget_string err "message" in
            if TrimSpace msg =s? "" then None else Some msg
        | None => None
        end
    | _ => None
    end) (range_map (run_Steps childRun))).

(** ** Loops *)

Definition buildLoopEvalScope (run : WorkflowRun) (index : nat) (previousOutput : any) : amap :=
  aset (buildEvalScope run AnyNil) "loop"
    (AnyMap [("index", AnyInt (Z.of_nat index)); ("iteration", AnyInt (Z.of_nat index + 1));
             ("previous_output", previousOutput)]).

Definition loopPreviousOutput (run : WorkflowRun) (childID : string) : any :=
  if childID =s? "" then AnyNil else
  let from_steps := match step_run run childID with Some sr => sr_Output sr | None => AnyNil end in
  match aget (runSteps run) childID with
  | Some (AnyMap entry) =>
      match aget entry "output" with
      | Some output => output
      | None => match aget entry "result_ptr" with Some ptr => ptr | None => from_steps end
      end
  | _ => from_steps
  end.

(** ** Recording outputs *)

(** [steps[stepID] = entry] on the map read before the output path was written: a
    path that names [steps] itself replaced that map, and the entry is lost. *)
Definition record_entry (ctx : amap) (stepID : string) (entry : any) (path : string) (output : any) : amap :=
  let ctx := match aget ctx "steps" with Some (AnyMap _) => ctx | _ => aset ctx "steps" (AnyMap []) end in
  let ctx' := fst (Path.setContextPath ctx path output) in
  match Split (TrimSpace path) "." with
  | [part] => if TrimSpace part =s? "steps" then ctx'
              else aset ctx' "steps" (AnyMap (aset (match aget ctx' "steps" with Some (AnyMap m) => m | _ => [] end) stepID entry))
  | _ => aset ctx' "steps" (AnyMap (aset (match aget ctx' "steps" with Some (AnyMap m) => m | _ => [] end) stepID entry))
  end.

Definition recordStepInlineOutput (run : WorkflowRun) (stepID : string) (stepDef : Step) (output : any) : WorkflowRun :=
  if stepID =s? "" then run else
  set_run_Context
    (Some (record_entry (run_ctx run) stepID (AnyMap [("output", output)]) (st_OutputPath stepDef) output)) run.

(** The outputs of the children of a parallel step. *)
Definition child_output (run : WorkflowRun) (childStepID : string) : any :=
  match aget (runSteps run) childStepID with
  | Some entry => entry
  | None =>
      match step_run run childStepID with
      | None => AnyNil
      | Some sr =>
          if negb (is_nil (sr_Output sr)) then sr_Output sr
          else match sr_Error sr with
               | Some err => AnyMap [("error", AnyMap err)]
               | None => AnyNil
               end
      end
  end.

Definition aggregateParallelOutputs (run : WorkflowRun) (childStepIDs : list string) : amap :=
  match run_Context run with
  | None => []
  | Some _ => foldl (fun outputs id => aset outputs id (child_output run id)) [] childStepIDs
  end.

(** ** Delays *)

(** [time.Parse(time.RFC3339, s)], in nanoseconds. *)
Context (parse_rfc3339 : string -> result string Z).

Definition delayForStep (step : Step) (now : Z) : result string Z :=
  if (st_DelaySec step <? 0)%Z then Err "delay_sec must be non-negative"
  else if (0 <? st_DelaySec step)%Z then Ok (wrap64 (st_DelaySec step * second))
  else if negb (TrimSpace (st_DelayUntil step) =s? "") then
    match parse_rfc3339 (TrimSpace (st_DelayUntil step)) with
    | Err e => Err ("invalid delay_until: " +:+ e)
    | Ok target => if (now <? target)%Z then Ok (target - now)%Z else Ok 0%Z
    end
  else if (0 <? st_TimeoutSec step)%Z then Ok (wrap64 (st_TimeoutSec step * second))
  else Ok 0%Z.

End Eval.
