(* ===== verification/WorkflowStore.v ===== *)
(** * The workflow store

    core/workflow/store_redis.go on a typed model of its redis keys: one field per
    kind of key.  Documents are stored as JSON and hold what decoding them gives
    ([json_run]): pointers shared between [Steps] and [Children] are copied, numbers
    become [float64], and empty fields marked [omitempty] become [nil].

    [UpdateRun] is two redis calls, the script that merges and writes the document
    and the pipeline that maintains the indexes; each is one atomic step here
    ([update_doc], [update_indexes]), and a failed pipeline is only logged, as in
    the code. *)
From S2P Require Import Prelude.
From S2P Require Import GoStrings.
From S2P Require Import PolicyTypes.
From S2P Require Import GoValues.
From S2P Require Import WorkflowModels.
From S2P Require Import WorkflowHelpers.
From S2P Require Import WorkflowState.
From Stdlib Require Import Ascii.

Open Scope string_scope.

(** ** Documents *)

Section Documents.
Context `{FloatParser}.

Definition omit_empty {A} (l : option (list A)) : option (list A) :=
  match l with Some [] => None | _ => l end.

(** The decoded form of a step run; [share] gives that of the step run a shared
    child points to, [None] when following pointers leads back to itself, which
    [json.Marshal] refuses. *)
Fixpoint json_step (share : string -> option StepRun) (sr : StepRun) : option StepRun :=
  let fix children (cs : list (string * child_ref StepRun)) : option (list (string * child_ref StepRun)) :=
    match cs with
    | [] => Some []
    | (k, c) :: cs =>
        match (match c with ChildOwn sr => json_step share sr | ChildShared => share k end), children cs with
        | Some sr, Some cs => Some ((k, ChildOwn sr) :: cs)
        | _, _ => None
        end
    end in
  match children (sr_Children sr) with
  | None => None
  | Some cs =>
      Some (set_sr_Children cs
              (set_sr_Input (json_amap (sr_Input sr))
                 (set_sr_Output (json_any (sr_Output sr))
                    (set_sr_Error (omit_empty (json_amap <$> sr_Error sr))
                       (set_sr_Item (json_any (sr_Item sr))
                          (set_sr_ResolvedItems (omit_empty (map json_any <$> sr_ResolvedItems sr)) sr))))))
  end.

Fixpoint json_shared (fuel : nat) (run : WorkflowRun) (k : string) : option StepRun :=
  match fuel with
  | O => None
  | S fuel => step_run run k ≫= json_step (json_shared fuel run)
  end.

(** All step runs decoded, or [None] if one of them is cyclic. *)
Definition json_steps (run : WorkflowRun) : option (gmap string StepRun) :=
  let decoded := json_step (json_shared (S (size (run_Steps run))) run) <$> run_Steps run in
  if bool_decide (map_Forall (fun _ o => is_Some o) decoded) then Some (omap id decoded) else None.

Definition json_run (run : WorkflowRun) : option WorkflowRun :=
  match json_steps run with
  | None => None
  | Some steps =>
      Some (mkWorkflowRun (run_ID run) (run_WorkflowID run) (run_OrgID run) (run_TeamID run)
              (json_amap (run_Input run)) (json_amap <$> run_Context run) (run_Status run)
              (run_StartedAt run) (run_CompletedAt run) (json_amap (run_Output run))
              (json_amap (run_Error run)) steps (run_TriggeredBy run) (run_Identity run)
              (run_CreatedAt run) (run_UpdatedAt run) (run_Labels run) (run_Metadata run)
              (run_IdempotencyKey run) (run_RerunOf run) (run_RerunStep run) (run_DryRun run))
  end.

End Documents.

(** ** The keys *)

Record TimelineEvent := mkTimelineEvent {
  te_Time : Z;
  te_Type : string;
  te_RunID : string;
  te_WorkflowID : string;
  te_StepID : string;
  te_JobID : string;
  te_Status : string;
  te_ResultPtr : string;
  te_Message : string;
  te_Data : amap;
}.

Record runJobRef := mkRunJobRef { ref_RunID : string; ref_StepPath : list string }.

(** A sorted set: member to score, in whole seconds. *)
Abbreviation zset := (gmap string Z).

Record Store := mkStore {
  s_defs : gmap string Workflow;
  s_defOrg : gmap string zset;
  s_defAll : zset;
  s_runs : gmap string WorkflowRun;
  s_runIndex : gmap string zset;
  s_runAll : zset;
  s_runStatus : gmap string zset;
  s_active : gmap string (gset string);
  s_timeline : gmap string (list TimelineEvent);
  s_jobIndex : gmap string runJobRef;
  s_pendingHash : gmap string string;
  s_idempotency : gmap string string;
  s_delays : zset;
}.

Definition empty_store : Store := mkStore ∅ ∅ ∅ ∅ ∅ ∅ ∅ ∅ ∅ ∅ ∅ ∅ ∅.

(** [ZADD], [ZREM], [SADD], [SREM] on the set under a key. *)
Definition zadd (m : gmap string zset) (key member : string) (score : Z) : gmap string zset :=
  <[key := <[member := score]> (default ∅ (m !! key))]> m.
Definition zrem (m : gmap string zset) (key member : string) : gmap string zset :=
  <[key := delete member (default ∅ (m !! key))]> m.
Definition sadd (m : gmap string (gset string)) (key member : string) : gmap string (gset string) :=
  <[key := {[ member ]} ∪ default ∅ (m !! key)]> m.
Definition srem (m : gmap string (gset string)) (key member : string) : gmap string (gset string) :=
  <[key := default ∅ (m !! key) ∖ {[ member ]}]> m.

(** Unix seconds of an instant. *)
Definition unix (t : Z) : Z := (t / second)%Z.

Definition set_s_defs (v : gmap string Workflow) (s : Store) : Store :=
  mkStore v (s_defOrg s) (s_defAll s) (s_runs s) (s_runIndex s) (s_runAll s) (s_runStatus s)
    (s_active s) (s_timeline s) (s_jobIndex s) (s_pendingHash s) (s_idempotency s) (s_delays
    s).

Definition set_s_defOrg (v : gmap string zset) (s : Store) : Store :=
  mkStore (s_defs s) v (s_defAll s) (s_runs s) (s_runIndex s) (s_runAll s) (s_runStatus s)
    (s_active s) (s_timeline s) (s_jobIndex s) (s_pendingHash s) (s_idempotency s) (s_delays
    s).

Definition set_s_defAll (v : zset) (s : Store) : Store :=
  mkStore (s_defs s) (s_defOrg s) v (s_runs s) (s_runIndex s) (s_runAll s) (s_runStatus s)
    (s_active s) (s_timeline s) (s_jobIndex s) (s_pendingHash s) (s_idempotency s) (s_delays
    s).

Definition set_s_runs (v : gmap string WorkflowRun) (s : Store) : Store :=
  mkStore (s_defs s) (s_defOrg s) (s_defAll s) v (s_runIndex s) (s_runAll s) (s_runStatus s)
    (s_active s) (s_timeline s) (s_jobIndex s) (s_pendingHash s) (s_idempotency s) (s_delays
    s).

Definition set_s_runIndex (v : gmap string zset) (s : Store) : Store :=
  mkStore (s_defs s) (s_defOrg s) (s_defAll s) (s_runs s) v (s_runAll s) (s_runStatus s)
    (s_active s) (s_timeline s) (s_jobIndex s) (s_pendingHash s) (s_idempotency s) (s_delays
    s).

Definition set_s_runAll (v : zset) (s : Store) : Store :=
  mkStore (s_defs s) (s_defOrg s) (s_defAll s) (s_runs s) (s_runIndex s) v (s_runStatus s)
    (s_active s) (s_timeline s) (s_jobIndex s) (s_pendingHash s) (s_idempotency s) (s_delays
    s).

Definition set_s_runStatus (v : gmap string zset) (s : Store) : Store :=
  mkStore (s_defs s) (s_defOrg s) (s_defAll s) (s_runs s) (s_runIndex s) (s_runAll s) v
    (s_active s) (s_timeline s) (s_jobIndex s) (s_pendingHash s) (s_idempotency s) (s_delays
    s).

Definition set_s_active (v : gmap string (gset string)) (s : Store) : Store :=
  mkStore (s_defs s) (s_defOrg s) (s_defAll s) (s_runs s) (s_runIndex s) (s_runAll s)
    (s_runStatus s) v (s_timeline s) (s_jobIndex s) (s_pendingHash s) (s_idempotency s)
    (s_delays s).

Definition set_s_timeline (v : gmap string (list TimelineEvent)) (s : Store) : Store :=
  mkStore (s_defs s) (s_defOrg s) (s_defAll s) (s_runs s) (s_runIndex s) (s_runAll s)
    (s_runStatus s) (s_active s) v (s_jobIndex s) (s_pendingHash s) (s_idempotency s) (s_delays
    s).

Definition set_s_jobIndex (v : gmap string runJobRef) (s : Store) : Store :=
  mkStore (s_defs s) (s_defOrg s) (s_defAll s) (s_runs s) (s_runIndex s) (s_runAll s)
    (s_runStatus s) (s_active s) (s_timeline s) v (s_pendingHash s) (s_idempotency s) (s_delays
    s).

Definition set_s_pendingHash (v : gmap string string) (s : Store) : Store :=
  mkStore (s_defs s) (s_defOrg s) (s_defAll s) (s_runs s) (s_runIndex s) (s_runAll s)
    (s_runStatus s) (s_active s) (s_timeline s) (s_jobIndex s) v (s_idempotency s) (s_delays
    s).

Definition set_s_idempotency (v : gmap string string) (s : Store) : Store :=
  mkStore (s_defs s) (s_defOrg s) (s_defAll s) (s_runs s) (s_runIndex s) (s_runAll s)
    (s_runStatus s) (s_active s) (s_timeline s) (s_jobIndex s) (s_pendingHash s) v (s_delays
    s).

Definition set_s_delays (v : zset) (s : Store) : Store :=
  mkStore (s_defs s) (s_defOrg s) (s_defAll s) (s_runs s) (s_runIndex s) (s_runAll s)
    (s_runStatus s) (s_active s) (s_timeline s) (s_jobIndex s) (s_pendingHash s) (s_idempotency
    s) v.

(** ** Job references and audit hashes *)

(** The step runs of a decoded document with the path of ids that leads to them.
    A decoded document shares no child with [Steps]. *)
Fixpoint tree_paths (path : list string) (sr : StepRun) : list (list string * StepRun) :=
  ((path, sr) :: concat (map (fun kc => match snd kc with
                                        | ChildOwn c => tree_paths (path ++ [fst kc]) c
                                        | ChildShared => []
                                        end) (sr_Children sr)))%list.

(** The entry of [collectRunJobRefs] for a root step run: its own id names it. *)
Definition root_path (kv : string * StepRun) : list string :=
  [if sr_StepID (snd kv) =s? "" then fst kv else sr_StepID (snd kv)].

(** Setting a hash on the step runs of a job that have none. *)
Definition fill_hash (jobID auditHash : string) (sr : StepRun) : StepRun :=
  if (sr_JobID sr =s? jobID) && (sr_AuditHash sr =s? "") then set_sr_AuditHash auditHash sr else sr.

Fixpoint map_tree (f : StepRun -> StepRun) (sr : StepRun) : StepRun :=
  let sr' := f sr in
  set_sr_Children (map_children (map_tree f) (sr_Children sr)) sr'.

(** Every step run of a run, at any depth. *)
Definition run_tree (steps : gmap string StepRun) : list StepRun :=
  concat (map (fun kv => tree_runs (snd kv)) (map_to_list steps)).

(** [setStepAuditHashForJob] and [mutateRunAuditHash]: the run, whether a step run
    matched and whether one changed. *)
Definition mutateRunAuditHash (run : WorkflowRun) (jobID auditHash : string) : WorkflowRun * bool * bool :=
  let all := run_tree (run_Steps run) in
  (set_run_Steps (map_tree (fill_hash jobID auditHash) <$> run_Steps run) run,
   existsb (fun sr => sr_JobID sr =s? jobID) all,
   existsb (fun sr => (sr_JobID sr =s? jobID) && (sr_AuditHash sr =s? "")) all).

Definition is_hex (c : ascii) : bool :=
  is_digit c || (let n := nat_of_ascii (lower_char c) in (97 <=? n)%nat && (n <=? 102)%nat).

Definition isAuditHashHex (value : string) : bool :=
  (String.length value =? 64)%nat && forallb is_hex (String.list_ascii_of_string value).

Section Store.
Context `{GoRuntime} `{FloatParser}.

Definition collectRunJobRefs (run : WorkflowRun) : gmap string runJobRef :=
  foldl (fun refs kv =>
           foldl (fun refs psr =>
                    if sr_JobID (snd psr) =s? "" then refs
                    else <[sr_JobID (snd psr) := mkRunJobRef (run_ID run) (fst psr)]> refs)
             refs (tree_paths (root_path kv) (snd kv)))
    ∅ (range_map (run_Steps run)).

(** The hashes that arrived before their step was persisted. *)
Definition applyPendingAuditHashes (st : Store) (run : WorkflowRun) : WorkflowRun * list string :=
  foldl (fun '(run, deletes) '(jobID, _) =>
           match s_pendingHash st !! jobID with
           | None => (run, deletes)
           | Some hash =>
               if TrimSpace hash =s? "" then (run, deletes) else
               let '(run, matched, _) := mutateRunAuditHash run jobID hash in
               (run, if matched then (deletes ++ [jobID])%list else deletes)
           end)
    (run, []) (range_map (collectRunJobRefs run)).

(** *** Workflows *)

Definition SaveWorkflow (now : Z) (wf : Workflow) (st : Store) : result string Store :=
  if wf_ID wf =s? "" then Err "workflow id required" else
  let wf := mkWorkflow (wf_ID wf) (wf_OrgID wf) (wf_TeamID wf) (wf_Name wf) (wf_Description wf) (wf_Version wf)
              (wf_TimeoutSec wf) (wf_Steps wf) (wf_Config wf) (wf_InputSchema wf) (wf_Parameters wf)
              (wf_PolicyOverride wf) (wf_CreatedBy wf) (if (wf_CreatedAt wf =? 0)%Z then now else wf_CreatedAt wf) now in
  let st := set_s_defs (<[wf_ID wf := wf]> (s_defs st)) st in
  let st := if wf_OrgID wf =s? "" then st
            else set_s_defOrg (zadd (s_defOrg st) (wf_OrgID wf) (wf_ID wf) (unix now)) st in
  Ok (set_s_defAll (<[wf_ID wf := unix now]> (s_defAll st)) st).

(** Reads: an empty id and a missing key ([redis.Nil]) are told apart. *)
Inductive get_error : Set := GetIdRequired | GetNil.

Definition GetWorkflow (id : string) (st : Store) : result get_error Workflow :=
  if id =s? "" then Err GetIdRequired
  else match s_defs st !! id with Some wf => Ok wf | None => Err GetNil end.

Definition DeleteWorkflow (id : string) (st : Store) : result get_error Store :=
  match GetWorkflow id st with
  | Err e => Err e
  | Ok wf =>
      let st := set_s_defAll (delete id (s_defAll st)) (set_s_defs (delete id (s_defs st)) st) in
      Ok (if wf_OrgID wf =s? "" then st else set_s_defOrg (zrem (s_defOrg st) (wf_OrgID wf) id) st)
  end.

(** *** Runs *)

Definition GetRun (id : string) (st : Store) : result get_error WorkflowRun :=
  if id =s? "" then Err GetIdRequired
  else match s_runs st !! id with Some run => Ok run | None => Err GetNil end.

(** The org's set of active runs. *)
Definition update_active (run : WorkflowRun) (st : Store) : Store :=
  if run_OrgID run =s? "" then st
  else set_s_active ((if isActiveRunStatus (run_Status run) then sadd else srem)
                       (s_active st) (run_OrgID run) (run_ID run)) st.

Definition write_refs (refs : gmap string runJobRef) (st : Store) : Store :=
  set_s_jobIndex (refs ∪ s_jobIndex st) st.

Definition delete_pending (deletes : list string) (st : Store) : Store :=
  set_s_pendingHash (foldl (fun m k => delete k m) (s_pendingHash st) deletes) st.

(** [SETNX]. *)
Definition TrySetRunIdempotencyKey (key runID : string) (st : Store) : result string (Store * bool) :=
  if (key =s? "") || (runID =s? "") then Err "idempotency key and run id required"
  else match s_idempotency st !! key with
       | Some _ => Ok (st, false)
       | None => Ok (set_s_idempotency (<[key := runID]> (s_idempotency st)) st, true)
       end.

(** The run as the caller holds it afterwards, and the store. *)
Definition CreateRun (now : Z) (run : WorkflowRun) (st : Store) : result string (WorkflowRun * Store) :=
  if (run_ID run =s? "") || (run_WorkflowID run =s? "") then Err "run id and workflow id required" else
  let run := mkWorkflowRun (run_ID run) (run_WorkflowID run) (run_OrgID run) (run_TeamID run) (run_Input run)
    (run_Context run) (run_Status run) (run_StartedAt run) (run_CompletedAt run) (run_Output run) (run_Error run)
    (run_Steps run) (run_TriggeredBy run) (run_Identity run)
    (if (run_CreatedAt run =? 0)%Z then now else run_CreatedAt run) now (run_Labels run) (run_Metadata run)
    (run_IdempotencyKey run) (run_RerunOf run) (run_RerunStep run) (run_DryRun run) in
  let '(run, deletes) := applyPendingAuditHashes st run in
  match json_run run with
  | None => Err "marshal run: cycle"
  | Some doc =>
      let st := set_s_runs (<[run_ID run := doc]> (s_runs st)) st in
      let st := set_s_runIndex (zadd (s_runIndex st) (run_WorkflowID run) (run_ID run) (unix now)) st in
      let st := set_s_runAll (<[run_ID run := unix now]> (s_runAll st)) st in
      let st := set_s_runStatus (zadd (s_runStatus st) (string_of_run_status (run_Status run)) (run_ID run) (unix now)) st in
      let st := update_active run (delete_pending deletes (write_refs (collectRunJobRefs doc) st)) in
      let st := if run_IdempotencyKey run =s? "" then st
                else match TrySetRunIdempotencyKey (run_IdempotencyKey run) (run_ID run) st with
                     | Ok (st, _) => st
                     | Err _ => st
                     end in
      Ok (run, st)
  end.

(** [updateRunScript]: the hashes of the stored document by job id, and the new
    document with them filled in where it has none. *)
Definition stored_hashes (doc : WorkflowRun) : gmap string string :=
  foldl (fun m sr => if (sr_JobID sr =s? "") || (sr_AuditHash sr =s? "") then m
                     else <[sr_JobID sr := sr_AuditHash sr]> m) ∅ (run_tree (run_Steps doc)).

Definition merge_hash (hashes : gmap string string) (sr : StepRun) : StepRun :=
  if (sr_JobID sr =s? "") || negb (sr_AuditHash sr =s? "") then sr
  else match hashes !! sr_JobID sr with Some h => set_sr_AuditHash h sr | None => sr end.

Definition merge_doc (prev : option WorkflowRun) (doc : WorkflowRun) : WorkflowRun :=
  match prev with
  | None => doc
  | Some prev => set_run_Steps (map_tree (merge_hash (stored_hashes prev)) <$> run_Steps doc) doc
  end.

Definition update_doc (runID : string) (doc : WorkflowRun) (st : Store) : Store * option RunStatus :=
  let prev := s_runs st !! runID in
  (set_s_runs (<[runID := merge_doc prev doc]> (s_runs st)) st, run_Status <$> prev).

(** The pipeline after the script. *)
Definition update_indexes (now : Z) (run : WorkflowRun) (prevStatus : option RunStatus)
    (oldRefs newRefs : gmap string runJobRef) (deletes : list string) (st : Store) : Store :=
  let st := set_s_runIndex (zadd (s_runIndex st) (run_WorkflowID run) (run_ID run) (unix now)) st in
  let st := set_s_runAll (<[run_ID run := unix now]> (s_runAll st)) st in
  let st := set_s_runStatus (zadd (s_runStatus st) (string_of_run_status (run_Status run)) (run_ID run) (unix now)) st in
  let st := write_refs newRefs st in
  let st := set_s_jobIndex (s_jobIndex st ∖ (oldRefs ∖ newRefs)) st in
  let st := delete_pending deletes st in
  let st := match prevStatus with
            | Some prev =>
                if bool_decide (prev = run_Status run) then st
                else set_s_runStatus (zrem (s_runStatus st) (string_of_run_status prev) (run_ID run)) st
            | None => st
            end in
  update_active run st.

(** [UpdateRun]; [pipe_ok] is whether the pipeline succeeded. *)
Definition UpdateRun (now : Z) (pipe_ok : bool) (run : WorkflowRun) (st : Store) : result string (WorkflowRun * Store) :=
  if (run_ID run =s? "") || (run_WorkflowID run =s? "") then Err "run id and workflow id required" else
  let run := set_run_UpdatedAt now run in
  let '(run, deletes) := applyPendingAuditHashes st run in
  let oldRefs := match s_runs st !! run_ID run with Some prev => collectRunJobRefs prev | None => ∅ end in
  match json_run run with
  | None => Err "marshal run: cycle"
  | Some doc =>
      let '(st, prevStatus) := update_doc (run_ID run) doc st in
      Ok (run, if pipe_ok then update_indexes now run prevStatus oldRefs (collectRunJobRefs doc) deletes st else st)
  end.

Definition DeleteRun (runID : string) (st : Store) : result get_error Store :=
  match GetRun runID st with
  | Err e => Err e
  | Ok run =>
      let st := set_s_runAll (delete runID (s_runAll st)) (set_s_runs (delete runID (s_runs st)) st) in
      let st := set_s_jobIndex (s_jobIndex st ∖ collectRunJobRefs run) st in
      let st := if run_WorkflowID run =s? "" then st
                else set_s_runIndex (zrem (s_runIndex st) (run_WorkflowID run) runID) st in
      let st := set_s_runStatus (zrem (s_runStatus st) (string_of_run_status (run_Status run)) runID) st in
      let st := if run_OrgID run =s? "" then st else set_s_active (srem (s_active st) (run_OrgID run) runID) st in
      Ok (set_s_timeline (delete runID (s_timeline st)) st)
  end.

Definition CountActiveRuns (orgID : string) (st : Store) : result string Z :=
  if orgID =s? "" then Err "org id required"
  else Ok (Z.of_nat (size (default ∅ (s_active st !! orgID) : gset string))).

(** *** Timelines *)

Definition timelineMaxEntries : nat := 1000.

(** The last [n] entries of a list, as [LTRIM key -n -1] keeps. *)
Definition keep_last {A} (n : nat) (l : list A) : list A := List.skipn (length l - n) l.

Definition AppendTimelineEvent (runID : string) (ev : TimelineEvent) (st : Store) : result string Store :=
  if runID =s? "" then Err "run id required"
  else Ok (set_s_timeline
             (<[runID := keep_last timelineMaxEntries (default [] (s_timeline st !! runID) ++ [ev])%list]> (s_timeline st)) st).

Definition ListTimelineEvents (runID : string) (limit : Z) (st : Store) : result string (list TimelineEvent) :=
  if runID =s? "" then Err "run id required"
  else let limit := if (limit <=? 0)%Z then 100%Z else limit in
       Ok (List.firstn (Z.to_nat limit) (default [] (s_timeline st !! runID))).

(** *** Audit hashes *)

(** [updateAuditHashInRun]: a [WATCH] transaction on the document. *)
Definition UpdateAuditHash (jobID auditHash : string) (st : Store) : result string Store :=
  let jobID := TrimSpace jobID in
  let auditHash := TrimSpace auditHash in
  if (jobID =s? "") || (auditHash =s? "") then Ok st
  else if negb (isAuditHashHex auditHash) then Err "audit hash must be a 64-character hex SHA-256 digest"
  else
    let ref := s_jobIndex st !! jobID in
    let found := match ref with Some r => negb (ref_RunID r =s? "") | None => false end in
    let parsedRunID := fst (JobIds.splitJobID jobID) in
    let runID := match ref with
                 | Some r => if ref_RunID r =s? "" then parsedRunID else ref_RunID r
                 | None => parsedRunID
                 end in
    if runID =s? "" then Ok st else
    let pend st := set_s_pendingHash (<[jobID := auditHash]> (s_pendingHash st)) st in
    match s_runs st !! runID with
    | None => Ok (pend st)
    | Some doc =>
        let '(doc', matched, changed) := mutateRunAuditHash doc jobID auditHash in
        if matched then
          let st := if changed then set_s_runs (<[runID := doc']> (s_runs st)) st else st in
          let st := set_s_pendingHash (delete jobID (s_pendingHash st)) st in
          Ok (if found then st else set_s_jobIndex (<[jobID := mkRunJobRef runID []]> (s_jobIndex st)) st)
        else if found || negb (parsedRunID =s? "") then Ok (pend st) else Ok st
    end.

(** *** Durable delays *)

Definition AddDelayTimer (workflowID runID : string) (fireAt : Z) (st : Store) : Store :=
  set_s_delays (<[workflowID +:+ ":" +:+ runID := unix fireAt]> (s_delays st)) st.

Definition RemoveDelayTimer (workflowID runID : string) (st : Store) : Store :=
  set_s_delays (delete (workflowID +:+ ":" +:+ runID) (s_delays st)) st.

(** [popFiredDelaysScript]: the members whose time has come, removed. *)
Definition PopFiredDelays (now : Z) (st : Store) : list string * Store :=
  (map fst (List.filter (fun kv => (snd kv <=? unix now)%Z) (range_map (s_delays st))),
   set_s_delays (filter (fun kv => (unix now < snd kv)%Z) (s_delays st)) st).

Definition ListFutureDelays (now : Z) (st : Store) : list (string * Z) :=
  List.filter (fun kv => (unix now + 1 <=? snd kv)%Z) (range_map (s_delays st)).

Definition CleanStaleDelays (cutoff : Z) (st : Store) : Store :=
  set_s_delays (filter (fun kv => (unix cutoff < snd kv)%Z) (s_delays st)) st.

(** engine_events.go *)
Definition splitDelayMember (member : string) : string * string :=
  match cut_first ":" member with
  | None => ("", "")
  | Some (wfID, runID) => if (wfID =s? "") || (runID =s? "") then ("", "") else (wfID, runID)
  end.

End Store.

(** ** What is kept of a run when it is written *)

(** The fields the indexes are built from. *)
Definition same_header (r r' : WorkflowRun) : Prop :=
  run_ID r' = run_ID r /\ run_WorkflowID r' = run_WorkflowID r /\ run_OrgID r' = run_OrgID r /\
  run_Status r' = run_Status r.

Lemma same_header_refl r : same_header r r.
Proof. by repeat split. Qed.

Lemma same_header_trans r1 r2 r3 : same_header r1 r2 -> same_header r2 r3 -> same_header r1 r3.
Proof. unfold same_header. intuition congruence. Qed.

Section Kept.
Context `{GoRuntime} `{FloatParser}.

Lemma json_run_header run doc : json_run run = Some doc -> same_header run doc.
Proof. unfold json_run. destruct (json_steps run); [|done]. intros [= <-]. by repeat split. Qed.

Lemma merge_doc_header prev doc : same_header doc (merge_doc prev doc).
Proof. by destruct prev. Qed.

Lemma applyPending_header st run : same_header run (fst (applyPendingAuditHashes st run)).
Proof.
  unfold applyPendingAuditHashes. generalize (range_map (collectRunJobRefs run)). intros l.
  assert (forall l acc, same_header run (fst acc) ->
    same_header run (fst (foldl (fun '(run, deletes) '(jobID, _) =>
           match s_pendingHash st !! jobID with
           | None => (run, deletes)
           | Some hash =>
               if TrimSpace hash =s? "" then (run, deletes) else
               let '(run, matched, _) := mutateRunAuditHash run jobID hash in
               (run, if matched then (deletes ++ [jobID])%list else deletes)
           end) acc (l : list (string * runJobRef))))) as Hgo.
  { clear l. induction l as [|[j ref] l IH]; intros [r ds] Hr; [done|]. cbn [foldl]. apply IH.
    destruct (s_pendingHash st !! j) as [h|]; [|done]. by destruct (TrimSpace h =s? ""). }
  apply Hgo, same_header_refl.
Qed.

End Kept.

Lemma string_of_run_status_inj s s' : string_of_run_status s = string_of_run_status s' -> s = s'.
Proof. by destruct s, s'. Qed.

(** ** The indexes agree with the documents *)

Definition in_status (st : Store) (s : RunStatus) (id : string) : Prop :=
  is_Some ((default ∅ (s_runStatus st !! string_of_run_status s) : zset) !! id).

Definition in_active (st : Store) (org id : string) : Prop :=
  id ∈ (default ∅ (s_active st !! org) : gset string).

Definition index_ok (st : Store) : Prop :=
  (forall id s, in_status st s id <-> run_Status <$> s_runs st !! id = Some s) /\
  (forall id org, org <> "" -> in_active st org id <->
     exists run, s_runs st !! id = Some run /\ run_OrgID run = org /\ isActiveRunStatus (run_Status run) = true) /\
  (forall id run, s_runs st !! id = Some run -> run_ID run = id).

Lemma in_status_zadd m s s' id id' score :
  is_Some ((default ∅ (zadd m (string_of_run_status s) id score !! string_of_run_status s') : zset) !! id') <->
  (s = s' /\ id = id') \/ is_Some ((default ∅ (m !! string_of_run_status s') : zset) !! id').
Proof.
  unfold zadd. destruct (decide (s = s')) as [->|Hne].
  - rewrite lookup_insert_eq. simpl. destruct (decide (id = id')) as [->|Hid].
    + rewrite lookup_insert_eq. split; [intros _; by left|by eexists].
    + rewrite lookup_insert_ne by done. naive_solver.
  - rewrite lookup_insert_ne by (intros E%string_of_run_status_inj; done). naive_solver.
Qed.

Lemma in_status_zrem m s s' id id' :
  is_Some ((default ∅ (zrem m (string_of_run_status s) id !! string_of_run_status s') : zset) !! id') <->
  is_Some ((default ∅ (m !! string_of_run_status s') : zset) !! id') /\ ~ (s = s' /\ id = id').
Proof.
  unfold zrem. destruct (decide (s = s')) as [->|Hne].
  - rewrite lookup_insert_eq. simpl. destruct (decide (id = id')) as [->|Hid].
    + rewrite lookup_delete_eq. split; [intros [? ?]; done|naive_solver].
    + rewrite lookup_delete_ne by done. naive_solver.
  - rewrite lookup_insert_ne by (intros E%string_of_run_status_inj; done). naive_solver.
Qed.

Lemma in_active_sadd m org org' id id' :
  id' ∈ (default ∅ (sadd m org id !! org') : gset string) <->
  (org = org' /\ id = id') \/ id' ∈ (default ∅ (m !! org') : gset string).
Proof.
  unfold sadd. destruct (decide (org = org')) as [->|Hne].
  - rewrite lookup_insert_eq. simpl. set_solver.
  - rewrite lookup_insert_ne by done. naive_solver.
Qed.

Lemma in_active_srem m org org' id id' :
  id' ∈ (default ∅ (srem m org id !! org') : gset string) <->
  id' ∈ (default ∅ (m !! org') : gset string) /\ ~ (org = org' /\ id = id').
Proof.
  unfold srem. destruct (decide (org = org')) as [->|Hne].
  - rewrite lookup_insert_eq. simpl. set_solver.
  - rewrite lookup_insert_ne by done. naive_solver.
Qed.

Lemma update_active_iff run st org id :
  org <> "" ->
  in_active (update_active run st) org id <->
  (run_OrgID run = org /\ run_ID run = id /\ isActiveRunStatus (run_Status run) = true) \/
  (in_active st org id /\ ~ (run_OrgID run = org /\ run_ID run = id)).
Proof.
  intros Horg. unfold update_active, in_active. destruct (run_OrgID run =s? "") eqn:E.
  { apply String.eqb_eq in E. split; [|intros [[? _]|[? _]]; [congruence|done]]. intros Hin. right. split; [done|]. intros [? _]. congruence. }
  cbn [s_active set_s_active]. destruct (isActiveRunStatus (run_Status run)).
  - rewrite in_active_sadd. destruct (decide (run_OrgID run = org /\ run_ID run = id)); intuition.
  - rewrite in_active_srem. intuition discriminate.
Qed.

Lemma update_active_runs run st : s_runs (update_active run st) = s_runs st.
Proof. unfold update_active. by destruct (_ =s? _). Qed.
Lemma update_active_status run st : s_runStatus (update_active run st) = s_runStatus st.
Proof. unfold update_active. by destruct (_ =s? _). Qed.
Lemma update_active_eq run st st' : s_active st = s_active st' -> s_active (update_active run st) = s_active (update_active run st').
Proof. intros E. unfold update_active. by destruct (_ =s? _); simpl; rewrite E. Qed.

Section Updates.
Context (now : Z) (run : WorkflowRun) (prev : option RunStatus) (r1 r2 : gmap string runJobRef) (ds : list string) (st : Store).

Lemma update_indexes_runs : s_runs (update_indexes now run prev r1 r2 ds st) = s_runs st.
Proof. unfold update_indexes. rewrite update_active_runs. destruct prev as [p|]; [|done]. by destruct (bool_decide _). Qed.

Lemma update_indexes_active : s_active (update_indexes now run prev r1 r2 ds st) = s_active (update_active run st).
Proof. unfold update_indexes. apply update_active_eq. destruct prev as [p|]; [|done]. by destruct (bool_decide _). Qed.

Lemma update_indexes_status s id :
  in_status (update_indexes now run prev r1 r2 ds st) s id <->
  (s = run_Status run /\ id = run_ID run) \/ (in_status st s id /\ ~ (prev = Some s /\ id = run_ID run)).
Proof.
  unfold in_status, update_indexes. rewrite update_active_status. destruct prev as [p|].
  - case_bool_decide as E.
    + cbn. rewrite in_status_zadd. subst p. simpl.
      destruct (decide (s = run_Status run /\ id = run_ID run)) as [[-> ->]|Hn]; [tauto|].
      split; [intros [[<- <-]|Hin]; [tauto|]|intros [[-> ->]|[Hin _]]; auto]. right. split; [done|]. intros [[= <-] ->]. tauto.
    + cbn. rewrite in_status_zrem, in_status_zadd.
      destruct (decide (s = run_Status run /\ id = run_ID run)) as [[-> ->]|Hn]; [tauto|].
      split; [intros [[[<- <-]|Hin] Hp]; [tauto|]; right; split; [done|]; intros [[= <-] ->]; tauto|].
      intros [?|[Hin Hp]]; [tauto|]. split; [by right|]. intros [-> <-]. tauto.
  - cbn. rewrite in_status_zadd. split; [intros [[<- <-]|Hin]; auto|intros [[-> ->]|[Hin _]]; auto].
    right. split; [done|]. by intros [? _].
Qed.

End Updates.

(** Writing a document with its indexes, over the same run or none. *)
Lemma index_ok_write now run doc prevRun refs1 refs2 ds st :
  index_ok st -> same_header run doc -> s_runs st !! run_ID run = prevRun ->
  (forall p, prevRun = Some p -> run_OrgID p = run_OrgID run) ->
  index_ok (update_indexes now run (run_Status <$> prevRun) refs1 refs2 ds
              (set_s_runs (<[run_ID run := doc]> (s_runs st)) st)).
Proof.
  intros (Hs & Ha & Hi) (Hid & _ & Horg & Hst) Hprev Hsame. split; [|split].
  - intros id s. rewrite update_indexes_status, update_indexes_runs. cbn [set_s_runs s_runs].
    change (in_status (set_s_runs (<[run_ID run := doc]> (s_runs st)) st) s id) with (in_status st s id).
    rewrite Hs. destruct (decide (id = run_ID run)) as [->|Hne].
    + rewrite Hprev, lookup_insert_eq. cbn. rewrite Hst. split; [intros [[-> _]|[E Hn]]|intros [= <-]; by left]; [done|].
      exfalso. by apply Hn.
    + rewrite lookup_insert_ne by done. split; [intros [[_ ?]|[? _]]|intros ?; right; split]; try done. by intros [_ ?].
  - intros id org Hne. unfold in_active at 1. rewrite update_indexes_active, update_indexes_runs.
    fold (in_active (update_active run (set_s_runs (<[run_ID run := doc]> (s_runs st)) st)) org id).
    rewrite update_active_iff by done. cbn [set_s_runs s_runs].
    change (in_active (set_s_runs (<[run_ID run := doc]> (s_runs st)) st) org id) with (in_active st org id).
    rewrite Ha by done. destruct (decide (id = run_ID run)) as [->|Hid'].
    + rewrite lookup_insert_eq. split.
      * intros [(? & _ & ?)|[(p & Hp & Ho & _) Hn]]; [exists doc; intuition congruence|].
        exfalso. apply Hn. split; [|done]. rewrite <- Ho. symmetry. apply Hsame. congruence.
      * intros (r & [= <-] & ? & ?). left. intuition congruence.
    + rewrite lookup_insert_ne by done. split; [intros [(_ & ? & _)|[? _]]|intros ?; right; split]; try done.
      intros [_ ?]. congruence.
  - rewrite update_indexes_runs. cbn [set_s_runs s_runs]. intros id r. destruct (decide (id = run_ID run)) as [->|Hne].
    + rewrite lookup_insert_eq. intros [= <-]. congruence.
    + rewrite lookup_insert_ne by done. apply Hi.
Qed.

Lemma index_ok_ext st st' :
  s_runs st' = s_runs st -> s_runStatus st' = s_runStatus st -> s_active st' = s_active st -> index_ok st -> index_ok st'.
Proof. unfold index_ok, in_status, in_active. by intros -> -> ->. Qed.

(** Replacing a document by one with the same header. *)
Lemma index_ok_same_header st id doc doc' :
  index_ok st -> s_runs st !! id = Some doc -> same_header doc doc' ->
  index_ok (set_s_runs (<[id := doc']> (s_runs st)) st).
Proof.
  intros (Hs & Ha & Hi) Hdoc (Hid & _ & Horg & Hst). unfold index_ok, in_status, in_active in *. cbn.
  split; [|split].
  - intros id' s. rewrite Hs. destruct (decide (id' = id)) as [->|Hne].
    + rewrite Hdoc, lookup_insert_eq. cbn. by rewrite Hst.
    + by rewrite lookup_insert_ne.
  - intros id' org Hne. rewrite Ha by done. destruct (decide (id' = id)) as [->|Hne'].
    + rewrite Hdoc, lookup_insert_eq. split; intros (r & [= <-] & ? & ?); eexists; (split; [done|]); intuition congruence.
    + by rewrite lookup_insert_ne.
  - intros id' r. destruct (decide (id' = id)) as [->|Hne].
    + rewrite lookup_insert_eq. intros [= <-]. rewrite Hid. by apply Hi.
    + rewrite lookup_insert_ne by done. apply Hi.
Qed.

(** The calls of the store that write. *)
Inductive store_call : Type :=
| CallSaveWorkflow (now : Z) (wf : Workflow)
| CallDeleteWorkflow (id : string)
| CallCreateRun (now : Z) (run : WorkflowRun)
| CallUpdateRun (now : Z) (run : WorkflowRun)
| CallDeleteRun (id : string)
| CallTimeline (id : string) (ev : TimelineEvent)
| CallAuditHash (jobID hash : string)
| CallAddDelay (wf run : string) (fireAt : Z)
| CallRemoveDelay (wf run : string)
| CallPopDelays (now : Z)
| CallCleanDelays (cutoff : Z).

Definition or_same {E} (st : Store) (r : result E Store) : Store := match r with Ok st' => st' | Err _ => st end.

Section Calls.
Context `{GoRuntime} `{FloatParser}.

Definition exec_call (st : Store) (c : store_call) : Store :=
  match c with
  | CallSaveWorkflow now wf => or_same st (SaveWorkflow now wf st)
  | CallDeleteWorkflow id => or_same st (DeleteWorkflow id st)
  | CallCreateRun now run => match CreateRun now run st with Ok (_, st') => st' | Err _ => st end
  | CallUpdateRun now run => match UpdateRun now true run st with Ok (_, st') => st' | Err _ => st end
  | CallDeleteRun id => or_same st (DeleteRun id st)
  | CallTimeline id ev => or_same st (AppendTimelineEvent id ev st)
  | CallAuditHash j h => or_same st (UpdateAuditHash j h st)
  | CallAddDelay wf run t => AddDelayTimer wf run t st
  | CallRemoveDelay wf run => RemoveDelayTimer wf run st
  | CallPopDelays now => snd (PopFiredDelays now st)
  | CallCleanDelays cutoff => CleanStaleDelays cutoff st
  end.

(** What the callers of the package respect: a created run has a fresh id, and a
    run does not change its organisation. *)
Definition call_ok (st : Store) (c : store_call) : Prop :=
  match c with
  | CallCreateRun _ run => s_runs st !! run_ID run = None
  | CallUpdateRun _ run => forall prev, s_runs st !! run_ID run = Some prev -> run_OrgID prev = run_OrgID run
  | _ => True
  end.

(** The states calls lead to. *)
Inductive reachable : Store -> Prop :=
| reachable_empty : reachable empty_store
| reachable_call st c : reachable st -> call_ok st c -> reachable (exec_call st c).

Lemma CreateRun_fields now run st run' st' :
  CreateRun now run st = Ok (run', st') ->
  exists doc ds, same_header run' doc /\ run_ID run' = run_ID run /\
    let u := update_indexes now run' None ∅ ∅ ds (set_s_runs (<[run_ID run' := doc]> (s_runs st)) st) in
    s_runs st' = s_runs u /\ s_runStatus st' = s_runStatus u /\ s_active st' = s_active u.
Proof.
  unfold CreateRun. destruct (_ || _); [done|].
  set (r0 := mkWorkflowRun _ _ _ _ _ _ _ _ _ _ _ _ _ _ _ _ _ _ _ _ _ _).
  pose proof (applyPending_header st r0) as Hh.
  destruct (applyPendingAuditHashes st r0) as [r1 ds]. cbn [fst] in Hh.
  destruct (json_run r1) as [doc|] eqn:Ej; [|done]. intros [= <- <-].
  exists doc, ds. split; [by apply json_run_header|]. split; [by destruct Hh as [-> _]|].
  cbv zeta. rewrite update_indexes_runs, update_indexes_active.
  assert (forall x, let y := (if run_IdempotencyKey r1 =s? "" then x else
            match TrySetRunIdempotencyKey (run_IdempotencyKey r1) (run_ID r1) x with Ok (s, _) => s | Err _ => x end) in
          s_runs y = s_runs x /\ s_runStatus y = s_runStatus x /\ s_active y = s_active x) as Hi.
  { intros x. cbv zeta. destruct (_ =s? ""); [done|]. unfold TrySetRunIdempotencyKey.
    destruct (_ || _); [done|]. by destruct (s_idempotency x !! _). }
  destruct (Hi (update_active r1 (delete_pending ds (write_refs (collectRunJobRefs doc)
    (set_s_runStatus (zadd (s_runStatus st) (string_of_run_status (run_Status r1)) (run_ID r1) (unix now))
      (set_s_runAll (<[run_ID r1 := unix now]> (s_runAll st))
        (set_s_runIndex (zadd (s_runIndex st) (run_WorkflowID r1) (run_ID r1) (unix now))
          (set_s_runs (<[run_ID r1 := doc]> (s_runs st)) st)))))))) as (E1 & E2 & E3).
  cbv zeta in *. split; [etransitivity; [exact E1|by rewrite update_active_runs]|split].
  - etransitivity; [exact E2|]. unfold update_indexes. by rewrite !update_active_status.
  - etransitivity; [exact E3|]. by apply update_active_eq.
Qed.

Lemma UpdateRun_fields now ok run st run' st' :
  UpdateRun now ok run st = Ok (run', st') ->
  exists doc r1 r2 ds, same_header run' doc /\ same_header run run' /\
    let s1 := set_s_runs (<[run_ID run' := merge_doc (s_runs st !! run_ID run) doc]> (s_runs st)) st in
    st' = if ok then update_indexes now run' (run_Status <$> s_runs st !! run_ID run) r1 r2 ds s1 else s1.
Proof.
  unfold UpdateRun. destruct (_ || _); [done|].
  pose proof (applyPending_header st (set_run_UpdatedAt now run)) as Hh.
  destruct (applyPendingAuditHashes st (set_run_UpdatedAt now run)) as [r1 ds]. cbn [fst] in Hh.
  destruct (json_run r1) as [doc|] eqn:Ej; [|done].
  unfold update_doc. destruct Hh as (Hid & Hh). cbn in Hid. rewrite Hid. intros [= <- <-].
  exists doc. do 3 eexists. split; [by apply json_run_header|]. split; [by split|]. rewrite Hid. by destruct ok.
Qed.

Lemma exec_call_index st c : index_ok st -> call_ok st c -> index_ok (exec_call st c).
Proof.
  intros Hok Hc. pose proof Hok as (Hs & Ha & Hi). destruct c; cbn [exec_call call_ok] in *.
  - unfold SaveWorkflow. destruct (_ =s? ""); [done|]. cbn [or_same].
    by destruct (_ =s? ""); eapply index_ok_ext.
  - unfold DeleteWorkflow. destruct (GetWorkflow id st); [done|]. cbn [or_same].
    by destruct (_ =s? ""); eapply index_ok_ext.
  - destruct (CreateRun now run st) as [e|[run' st']] eqn:E; [done|].
    apply CreateRun_fields in E as (doc & ds & Hh & Hid & E1 & E2 & E3).
    eapply index_ok_ext; [exact E1|exact E2|exact E3|].
    apply (index_ok_write now run' doc None); [done|done|by rewrite Hid|done].
  - destruct (UpdateRun now true run st) as [e|[run' st']] eqn:E; [done|].
    apply UpdateRun_fields in E as (doc & r1 & r2 & ds & Hh & (Hid & _ & Horg & _) & ->).
    apply index_ok_write; [done|by eapply same_header_trans, merge_doc_header|by rewrite Hid|].
    intros p Hp. rewrite Horg. by apply Hc.
  - unfold DeleteRun, GetRun. destruct (id =s? ""); [done|]. destruct (s_runs st !! id) as [run|] eqn:Er; [|done].
    cbn [or_same].
    assert (index_ok (set_s_runStatus (zrem (s_runStatus st) (string_of_run_status (run_Status run)) id)
      (set_s_active (if run_OrgID run =s? "" then s_active st else srem (s_active st) (run_OrgID run) id)
        (set_s_runs (delete id (s_runs st)) st)))) as Hd.
    { split; [|split].
      - intros id' s. unfold in_status. cbn. rewrite in_status_zrem. fold (in_status st s id'). rewrite Hs.
        destruct (decide (id' = id)) as [->|Hne].
        + rewrite lookup_delete_eq, Er. cbn. split; [|done]. intros [[= <-] Hn]. by destruct Hn.
        + rewrite lookup_delete_ne by done. split; [by intros [? _]|]. intros ?. split; [done|]. by intros [_ ?].
      - intros id' org Hne. unfold in_active. cbn. destruct (run_OrgID run =s? "") eqn:Eo.
        + apply String.eqb_eq in Eo. fold (in_active st org id'). rewrite Ha by done.
          destruct (decide (id' = id)) as [->|Hne'].
          * rewrite lookup_delete_eq. split; [|by intros (? & ? & _)]. intros (r & Hr & Ho & _). congruence.
          * by rewrite lookup_delete_ne.
        + rewrite in_active_srem. fold (in_active st org id'). rewrite Ha by done.
          destruct (decide (id' = id)) as [->|Hne'].
          * rewrite lookup_delete_eq. split; [|by intros (? & ? & _)]. intros [(r & Hr & Ho & _) Hn].
            exfalso. apply Hn. split; congruence.
          * rewrite lookup_delete_ne by done. split; [by intros [? _]|]. intros ?. split; [done|]. by intros [_ ?].
      - cbn. intros id' r Hr. apply lookup_delete_Some in Hr as [_ Hr]. by apply Hi. }
    by destruct (run_WorkflowID run =s? ""), (run_OrgID run =s? ""); eapply index_ok_ext; [..|exact Hd].
  - unfold AppendTimelineEvent. destruct (_ =s? ""); [done|]. by eapply index_ok_ext.
  - unfold UpdateAuditHash. destruct (_ || _); [done|]. destruct (negb _); [done|].
    destruct (_ =s? ""); [done|].
    match goal with |- context [s_runs st !! ?r] => destruct (s_runs st !! r) as [doc|] eqn:Ed end; [|by eapply index_ok_ext].
    cbn [mutateRunAuditHash].
    destruct (existsb _ (run_tree (run_Steps doc))); cycle 1.
    { destruct (_ || _); [by eapply index_ok_ext|done]. }
    cbn [or_same].
    match goal with |- index_ok (if ?b then ?x else _) =>
      assert (index_ok x) as Hx; [|destruct b; [done|by eapply index_ok_ext; [..|exact Hx]]] end.
    destruct (existsb _ _); [|by eapply index_ok_ext].
    eapply index_ok_ext; [..|eapply (index_ok_same_header st); [done|exact Ed|]]; [done|done|done|]. by repeat split.
  - by eapply index_ok_ext.
  - by eapply index_ok_ext.
  - by eapply index_ok_ext.
  - by eapply index_ok_ext.
Qed.


End Calls.


(** ** Audit hashes survive rewrites of the run *)

Lemma map_tree_unfold f sr : map_tree f sr = set_sr_Children (map_children (map_tree f) (sr_Children sr)) (f sr).
Proof. by destruct sr. Qed.

Lemma map_tree_Forall (Q : StepRun -> Prop) f sr :
  (forall cs sr, Q (set_sr_Children cs (f sr))) -> Forall Q (tree_runs (map_tree f sr)).
Proof.
  intros HQ. induction sr as [sr IH] using StepRun_tree_ind. rewrite map_tree_unfold, Forall_tree. split; [apply HQ|].
  by apply map_children_tree.
Qed.

Lemma run_tree_Forall (Q : StepRun -> Prop) steps :
  Forall Q (run_tree steps) <-> forall id sr, steps !! id = Some sr -> Forall Q (tree_runs sr).
Proof.
  unfold run_tree. rewrite Forall_concat, Forall_map, Forall_forall. split.
  - intros Hall id sr Hsr. apply (Hall (id, sr)). by apply elem_of_map_to_list.
  - intros Hall [id sr] Hin. apply elem_of_map_to_list in Hin. by apply (Hall id).
Qed.

Lemma stored_hashes_some doc j :
  j <> "" -> (exists sr, sr ∈ run_tree (run_Steps doc) /\ sr_JobID sr = j /\ sr_AuditHash sr <> "") ->
  exists h, stored_hashes doc !! j = Some h /\ h <> "".
Proof.
  intros Hj Hex. unfold stored_hashes.
  assert (forall l m, (exists h, m !! j = Some h /\ h <> "") \/
      (exists sr, sr ∈ l /\ sr_JobID sr = j /\ sr_AuditHash sr <> "") ->
    exists h, foldl (fun (m : gmap string string) sr => if (sr_JobID sr =s? "") || (sr_AuditHash sr =s? "") then m
                     else <[sr_JobID sr := sr_AuditHash sr]> m) m l !! j = Some h /\ h <> "") as Hgo; [|apply Hgo; by right].
  induction l as [|sr l IH]; intros m Hm; cbn [foldl].
  { destruct Hm as [?|(sr & Hin & _)]; [done|]. by apply elem_of_nil in Hin. }
  apply IH. destruct ((sr_JobID sr =s? "") || (sr_AuditHash sr =s? "")) eqn:E.
  - destruct Hm as [?|(sr' & [->|Hin]%elem_of_cons & Hsr' & Hh)]; [by left| |right; eauto].
    apply orb_true_iff in E as [E|E]; apply String.eqb_eq in E; congruence.
  - apply orb_false_iff in E as [_ E]. apply String.eqb_neq in E.
    destruct (decide (sr_JobID sr = j)) as [Hsj|Hsj].
    + left. exists (sr_AuditHash sr). rewrite Hsj, lookup_insert_eq. done.
    + rewrite lookup_insert_ne by done.
      destruct Hm as [?|(sr' & [->|Hin]%elem_of_cons & Hsr' & Hh)]; [by left|done|right; eauto].
Qed.

(** A recorded audit hash is never lost.  If the stored document has a hash
    for a job, then after writing the run again, with any snapshot taken before or
    after the hash was recorded, every step run of that job in the document has a
    hash, at any depth; a hash the snapshot already carries is kept. *)
Theorem audit_hash_kept `{GoRuntime} `{FloatParser} (now : Z) (pipe_ok : bool) (run run' : WorkflowRun)
    (st st' : Store) (prev : WorkflowRun) (j : string) :
  UpdateRun now pipe_ok run st = Ok (run', st') ->
  s_runs st !! run_ID run = Some prev -> j <> "" ->
  (exists sr, sr ∈ run_tree (run_Steps prev) /\ sr_JobID sr = j /\ sr_AuditHash sr <> "") ->
  exists doc, s_runs st' !! run_ID run = Some doc /\
    Forall (fun sr => sr_JobID sr = j -> sr_AuditHash sr <> "") (run_tree (run_Steps doc)).
Proof.
  intros E Hprev Hj Hex.
  apply UpdateRun_fields in E as (doc & r1 & r2 & ds & _ & (Hid & _) & ->). rewrite Hprev, Hid.
  exists (merge_doc (Some prev) doc). split.
  { destruct pipe_ok; [rewrite update_indexes_runs|]; cbn; by rewrite lookup_insert_eq. }
  destruct (stored_hashes_some prev j Hj Hex) as (h & Hh & Hne). cbn [merge_doc]. apply run_tree_Forall.
  intros id sr Hsr. cbn in Hsr. apply lookup_fmap_Some in Hsr as (sr0 & <- & _).
  apply map_tree_Forall. clear sr0. intros cs sr. cbn. unfold merge_hash.
  destruct (sr_JobID sr =s? "") eqn:E1; cbn [orb].
  { apply String.eqb_eq in E1. cbn. congruence. }
  destruct (sr_AuditHash sr =s? "") eqn:E2; cbn [negb].
  - intros Hjj. destruct (stored_hashes prev !! sr_JobID sr) as [h'|] eqn:El; cbn in *; congruence.
  - apply String.eqb_neq in E2. by intros _.
Qed.

Definition no_parser : FloatParser := fun _ => None.

Lemma audit_hash_kept_witness :
  let sr h := set_sr_AuditHash h (set_sr_JobID "r:a@1" (new_step_run_status "a" StepStatusRunning)) in
  let run h := plain_run "r" "w" RunStatusRunning [("a", sr h)] in
  let st := set_s_runs {[ "r" := run "h1" ]} empty_store in
  match @UpdateRun fwd_runtime no_parser 5 true (run "") st with
  | Ok (_, st') => exists doc, s_runs st' !! "r" = Some doc /\
      Forall (fun sr => sr_JobID sr = "r:a@1" -> sr_AuditHash sr <> "") (run_tree (run_Steps doc))
  | Err _ => False
  end.
Proof.
  intros sr run st. destruct (@UpdateRun fwd_runtime no_parser 5 true (run "") st) as [e|[run' st']] eqn:E.
  { vm_compute in E. discriminate. }
  eapply (@audit_hash_kept fwd_runtime no_parser 5 true (run "") run' st st' (run "h1") "r:a@1"); [exact E|reflexivity|discriminate|].
  exists (sr "h1"). split; [by left|]. split; [reflexivity|discriminate].
Defined.

(** ** Durable delays *)

(** The poller's pop takes exactly the delays that are due: it returns each
    due member once, leaves exactly the others, and a member names its workflow
    and run as long as the workflow id has no colon. *)
Theorem delays_pop_exact `{GoRuntime} (now : Z) (st : Store) (workflowID runID : string) :
  let '(fired, st') := PopFiredDelays now st in
  NoDup fired /\
  (forall m, m ∈ fired <-> exists t, s_delays st !! m = Some t /\ (t <= unix now)%Z) /\
  (forall m t, s_delays st' !! m = Some t <-> s_delays st !! m = Some t /\ (unix now < t)%Z) /\
  (sep_free ":" workflowID -> workflowID <> "" -> runID <> "" ->
   splitDelayMember (workflowID +:+ ":" +:+ runID) = (workflowID, runID)).
Proof.
  unfold PopFiredDelays. split; [|split; [|split]].
  - assert (forall l : list (string * Z), NoDup l.*1 -> NoDup (List.filter (fun kv => (snd kv <=? unix now)%Z) l).*1) as Hnd.
    { induction l as [|[k v] l IH]; cbn; [done|]. intros [Hk Hl]%NoDup_cons. destruct (v <=? unix now)%Z; cbn; [|by apply IH].
      apply NoDup_cons. split; [|by apply IH]. intros Hin. apply Hk. rewrite !list_elem_of_fmap in *.
      destruct Hin as ([k' v'] & -> & Hin). exists (k', v'). split; [done|]. rewrite !list_elem_of_In in *.
      by apply filter_In in Hin as [? _]. }
    apply Hnd. rewrite range_map_perm. apply NoDup_fst_map_to_list.
  - intros m. rewrite list_elem_of_In, in_map_iff. split.
    + intros ([k v] & <- & [Hin Hle]%filter_In). exists v. split; [|cbn in Hle; lia].
      apply elem_of_range_map. by apply list_elem_of_In.
    + intros (t & Ht & Hle). exists (m, t). split; [done|]. apply filter_In. split; [|cbn; lia].
      apply list_elem_of_In. by apply elem_of_range_map.
  - intros m t. cbn. rewrite map_lookup_filter_Some. done.
  - intros Hw Hne1 Hne2. unfold splitDelayMember.
    change (":" +:+ runID) with (String ":" runID). rewrite cut_first_app by done.
    by rewrite (eqb_ne _ _ Hne1), (eqb_ne _ _ Hne2).
Qed.

(** A workflow id with a colon makes its durable delays unusable: the member
    names another workflow and run. *)
Theorem delay_member_colon : splitDelayMember ("team:wf" +:+ ":" +:+ "run") = ("team", "wf:run").
Proof. reflexivity. Qed.

(** ** A failed index pipeline is not repaired *)

(** Two updates of a run, the first of which loses its pipeline: the run stays
    listed under its first status for good, although the document has moved on. *)
Theorem lost_pipeline_leaves_stale_index :
  let run s := plain_run "r" "w" s [] in
  let step ok s st := match @UpdateRun fwd_runtime no_parser 5 ok (run s) st with Ok (_, st) => st | Err _ => st end in
  let st0 := match @CreateRun fwd_runtime no_parser 5 (run RunStatusPending) empty_store with Ok (_, st) => st | Err _ => empty_store end in
  let st := step true RunStatusSucceeded (step false RunStatusRunning st0) in
  run_Status <$> s_runs st !! "r" = Some RunStatusSucceeded /\
  in_status st RunStatusPending "r" /\ in_status st RunStatusSucceeded "r".
Proof. cbv zeta. split; [reflexivity|]. split; [exists 0%Z; reflexivity|exists 0%Z; reflexivity]. Qed.

(** ** Timelines are bounded *)

Lemma timeline_bounded (runID : string) (ev : TimelineEvent) (st st' : Store) :
  AppendTimelineEvent runID ev st = Ok st' ->
  exists l, s_timeline st' !! runID = Some l /\ (length l <= timelineMaxEntries)%nat /\ last l = Some ev /\
    l `suffix_of` (default [] (s_timeline st !! runID) ++ [ev])%list.
Proof.
  unfold AppendTimelineEvent. destruct (runID =s? ""); [done|]. intros [= <-]. cbn. rewrite lookup_insert_eq.
  eexists. split; [done|]. unfold keep_last. set (l := (_ ++ [ev])%list).
  assert (length l = S (length (default [] (s_timeline st !! runID)))) as Hl by (subst l; rewrite length_app; cbn; lia).
  split; [rewrite length_skipn; unfold timelineMaxEntries in *; lia|]. split.
  - assert (exists l', List.skipn (length l - timelineMaxEntries) l = (l' ++ [ev])%list) as [l' ->]; [|by rewrite last_snoc].
    subst l. rewrite skipn_app.
    replace (length _ - timelineMaxEntries - _)%nat with 0%nat by (rewrite length_app; unfold timelineMaxEntries; cbn; lia).
    cbn. eauto.
  - exists (List.firstn (length l - timelineMaxEntries) l). symmetry. apply firstn_skipn.
Qed.
