(* ===== verification/WorkflowJob.v ===== *)
(** * What the workflow engine does to the outside: the store, the bus, the clock

    The world the engine acts on and the calls it makes: the redis store, the
    message bus, the memory store, timers, the clock and fresh ids.  A world is a
    store and the trace of the calls made so far; whether a call fails, what the
    clock says and in which order a map is ranged over are functions of that
    trace, fields of the class [EngineEnv], so the theorems hold for every
    behaviour of these services.  A computation is a state transformer on worlds.

    On top of them engine_job.go (job requests, payloads and packets),
    engine_events.go (timeline, alerts, timers), publishJobCancel of
    engine_state.go, and the processing of step outputs (engine_resource.go,
    engine_output_safety.go, engine_output.go). *)
From S2P Require Import Prelude.
From S2P Require Import GoStrings.
From S2P Require Import PolicyTypes.
From S2P Require Import GoValues.
From S2P Require Import Licensing.
From S2P Require Import WorkflowModels.
From S2P Require Import JobIdentity.
From S2P Require Import WorkflowHelpers.
From S2P Require Import WorkflowState.
From S2P Require Import WorkflowEval.
From S2P Require Import WorkflowStore.
From Stdlib Require Import Ascii.

Open Scope string_scope.

(** ** Packets and events *)

Inductive AlertSeverity : Set :=
| ALERT_SEVERITY_UNSPECIFIED | ALERT_SEVERITY_INFO | ALERT_SEVERITY_WARNING | ALERT_SEVERITY_ERROR
| ALERT_SEVERITY_CRITICAL.

Record SystemAlert := mkSystemAlert {
  sa_Message : string;
  sa_Severity : AlertSeverity;
  sa_SourceComponent : string;
  sa_Details : gmap string string;
  sa_TraceId : string;
}.

Record JobCancel := mkJobCancel {
  jc_JobId : string;
  jc_Reason : string;
  jc_RequestedBy : string;
  jc_Identity : option IdentityBinding;
}.

Inductive payload : Type :=
| PJobRequest (req : JobRequest)
| PAlert (alert : SystemAlert)
| PJobCancel (cancel : JobCancel).

(** [pb.BusPacket] without its creation time and protocol version. *)
Record BusPacket := mkBusPacket {
  bp_TraceId : string;
  bp_SenderId : string;
  bp_Identity : option IdentityBinding;
  bp_AuthToken : string;
  bp_Payload : payload;
}.

Definition SubjectSubmit : string := "sys.job.submit".
Definition SubjectCancel : string := "sys.job.cancel".
Definition SubjectWorkflowEvent : string := "sys.workflow.event".
Definition SubjectWorkflowApprovalGate : string := "job.cordum.approval-gate".

(** The calls of the engine, with what came back; [None] is no error.
    [EvSubmitting], before a job is published, records the run in memory, the
    request, and the run as the store has it at that moment. *)
Inductive Event : Type :=
| EvNow (t : Z)
| EvUuid (id : string)
| EvLock (runID : string) (acquired : bool)
| EvRead (key : string)
| EvUpdateRun (run : WorkflowRun) (err : option string)
| EvCreateRun (run : WorkflowRun) (err : option string)
| EvTimeline (ev : TimelineEvent) (stored : bool)
| EvPutContext (key : string) (doc : amap) (err : option string)
| EvSubmitting (run : WorkflowRun) (req : JobRequest) (stored : option WorkflowRun)
| EvPublish (subject : string) (packet : BusPacket) (err : option string)
| EvTimer (delay : Z) (workflowID runID : string)
| EvDispatched (runID stepID jobID : string)
| EvFinished (runID stepID : string) (status : StepStatus)
| EvTerminal (runID : string)
| EvDiverged (runID : string).

Inductive OutputDecision : Set := OutputAllow | OutputQuarantine | OutputDeny | OutputOther.

(** What is configured on the engine, and how the services answer.

    - [e_validate_map] and [e_validate_id] are the JSON schema checks
      (core/infra/schema over a third-party validator), [None] is success; the
      registry may be absent.
    - [e_config] is [ConfigProvider.Effective], [None] when it errs or is nil.
    - [e_minter] is the service-token minter.
    - [e_marshal] and [e_unmarshal] are [encoding/json]: the engine never looks at
      the text.
    - [e_read_resource] is [resourceio.Reader.Read] on the result of a job of a
      tenant: the content and its media type.  [e_bound_legacy] is the error of
      [resourceio.BoundLegacyKey].
    - [e_evaluate_output] is the output safety checker on the persisted request,
      the result, the content and its media type.
    - [e_is_cancelled] tells the errors of an expired or cancelled context. *)
Class EngineEnv := mkEngineEnv {
  e_sandbox : ExprSandboxConfig;
  e_maxForEachItems : Z;
  e_productionIdentity : bool;
  e_hasMem : bool;
  e_entitlements : Entitlements;
  e_validate_map : amap -> any -> option string;
  e_validate_id : option (string -> any -> option string);
  e_config : option (string -> string -> string -> string -> option amap);
  e_minter : option (list Event -> result string string);
  e_marshal : any -> option string;
  e_unmarshal : string -> option any;
  e_parse_rfc3339 : string -> result string Z;
  e_format_rfc3339nano : Z -> string;
  e_legacyCompat : bool;
  e_read_resource : list Event -> string -> JobResult -> result string (string * string);
  e_bound_legacy : string -> string -> string -> option string;
  e_evaluate_output : option (list Event -> JobRequest -> JobResult -> string -> string -> result string (OutputDecision * string));
  e_job_request : option (list Event -> string -> result string JobRequest);
  e_is_cancelled : string -> bool;
  e_clock : list Event -> Z;
  e_uuid : list Event -> string;
  e_lock_acquired : list Event -> string -> bool;
  e_read_error : list Event -> option string;
  e_update_error : list Event -> option string;
  e_pipeline_ok : list Event -> bool;
  e_create_error : list Event -> option string;
  e_timeline_ok : list Event -> bool;
  e_put_error : list Event -> option string;
  e_delay_ok : list Event -> bool;
  e_publish_error : list Event -> option string;
  e_step_order : list Event -> gmap string Step -> list (string * Step);
  e_step_order_perm : forall tr m, e_step_order tr m ≡ₚ map_to_list m;
}.

(** ** The world *)

Record World := mkWorld { w_store : Store; w_trace : list Event }.

Definition M (A : Type) : Type := World -> A * World.

Definition ret {A} (a : A) : M A := fun w => (a, w).
Definition bind {A B} (m : M A) (k : A -> M B) : M B := fun w => let '(a, w') := m w in k a w'.

Declare Scope engine_scope.
Delimit Scope engine_scope with engine.
#[global] Open Scope engine_scope.
Notation "x <- m ;; k" := (bind m (fun x => k)) (at level 100, m at next level, right associativity) : engine_scope.
Notation "' p <- m ;; k" := (bind m (fun x => match x with p => k end))
  (at level 20, p pattern, m at level 99, k at level 200, right associativity) : engine_scope.
Notation "m ;;; k" := (bind m (fun _ => k)) (at level 100, right associativity) : engine_scope.

Definition log (e : Event) : M unit := fun w => (tt, mkWorld (w_store w) (w_trace w ++ [e])).
Definition trace : M (list Event) := fun w => (w_trace w, w).
Definition store : M Store := fun w => (w_store w, w).
Definition put_store (st : Store) : M unit := fun w => (tt, mkWorld st (w_trace w)).

(** A loop over a list that threads a state. *)
Fixpoint mfold {A S} (f : S -> A -> M S) (l : list A) (s : S) : M S :=
  match l with
  | [] => ret s
  | x :: l => s <- f s x ;; mfold f l s
  end.

Section Calls.
Context `{GoRuntime} `{FloatPrinter} `{FloatParser} `{ExprEngine} `{EngineEnv}.

(** [time.Now().UTC()]. *)
Definition now : M Z := tr <- trace ;; let t := e_clock tr in log (EvNow t) ;;; ret t.

(** [uuid.NewString()]. *)
Definition new_uuid : M string := tr <- trace ;; let id := e_uuid tr in log (EvUuid id) ;;; ret id.

(** ** The store *)

(** The error of a read: [redis.Nil] or another one. *)
Inductive read_error : Set := ReadNil | ReadFailed (msg : string).

Definition read_error_text (e : read_error) : string :=
  match e with ReadNil => "redis: nil" | ReadFailed msg => msg end.

Definition of_get_error {A} (r : result get_error A) : result read_error A :=
  match r with
  | Ok a => Ok a
  | Err GetNil => Err ReadNil
  | Err GetIdRequired => Err (ReadFailed "id required")
  end.

Definition read {A} (key : string) (get : Store -> result get_error A) : M (result read_error A) :=
  tr <- trace ;;
  st <- store ;;
  log (EvRead key) ;;;
  match e_read_error tr with
  | Some e => ret (Err (ReadFailed e))
  | None => ret (of_get_error (get st))
  end.

Definition get_run (runID : string) : M (result read_error WorkflowRun) := read runID (GetRun runID).
Definition get_workflow (workflowID : string) : M (result read_error Workflow) := read workflowID (GetWorkflow workflowID).

Definition count_active (orgID : string) : M (result string Z) :=
  tr <- trace ;;
  st <- store ;;
  log (EvRead orgID) ;;;
  match e_read_error tr with
  | Some e => ret (Err e)
  | None => ret (CountActiveRuns orgID st)
  end.

(** The run as [UpdateRun] leaves it when it fails after its first reads. *)
Definition touched (t : Z) (run : WorkflowRun) (st : Store) : WorkflowRun :=
  if (run_ID run =s? "") || (run_WorkflowID run =s? "") then run
  else fst (applyPendingAuditHashes st (set_run_UpdatedAt t run)).

(** [e.store.UpdateRun(ctx, run)]: the run afterwards and the error. *)
Definition update_run (run : WorkflowRun) : M (WorkflowRun * option string) :=
  t <- now ;;
  tr <- trace ;;
  st <- store ;;
  match e_update_error tr with
  | Some e => log (EvUpdateRun run (Some e)) ;;; ret (touched t run st, Some ("update run: " +:+ e))
  | None =>
      match UpdateRun t (e_pipeline_ok tr) run st with
      | Ok (run', st') => put_store st' ;;; log (EvUpdateRun run None) ;;; ret (run', None)
      | Err e => log (EvUpdateRun run (Some e)) ;;; ret (touched t run st, Some e)
      end
  end.

(** [e.store.CreateRun(ctx, run)]. *)
Definition create_run (run : WorkflowRun) : M (option string) :=
  t <- now ;;
  tr <- trace ;;
  st <- store ;;
  match e_create_error tr with
  | Some e => log (EvCreateRun run (Some e)) ;;; ret (Some e)
  | None =>
      match CreateRun t run st with
      | Ok (_, st') => put_store st' ;;; log (EvCreateRun run None) ;;; ret None
      | Err e => log (EvCreateRun run (Some e)) ;;; ret (Some e)
      end
  end.

Definition appendTimeline (run : WorkflowRun) (eventType stepID jobID status resultPtr message : string) (data : amap) : M unit :=
  t <- now ;;
  tr <- trace ;;
  st <- store ;;
  let evt := mkTimelineEvent t eventType (run_ID run) (run_WorkflowID run) stepID jobID status resultPtr message data in
  match (if e_timeline_ok tr then AppendTimelineEvent (run_ID run) evt st else Err "unavailable") with
  | Ok st' => put_store st' ;;; log (EvTimeline evt true)
  | Err _ => log (EvTimeline evt false)
  end.

(** ** The bus *)

(** [publishWithTrace]. *)
Definition publishWithTrace (subject : string) (packet : BusPacket) : M (option string) :=
  tr <- trace ;;
  let err := e_publish_error tr in
  log (EvPublish subject packet err) ;;; ret err.

(** The service token, empty without a minter or when minting fails. *)
Definition mint_token : M string :=
  tr <- trace ;;
  ret (match e_minter with
       | None => ""
       | Some mint => match mint tr with Ok token => token | Err _ => "" end
       end).

Definition makeJobPacket (traceID : string) (run : WorkflowRun) (req : JobRequest) : M (result string BusPacket) :=
  match (if e_productionIdentity then NormalizeProductionJobRequest req (run_Identity run) else Ok req) with
  | Err e => ret (Err e)
  | Ok req =>
      token <- mint_token ;;
      ret (Ok (mkBusPacket traceID "workflow-engine" (jr_Identity req) token (PJobRequest req)))
  end.

(** [makeJobPacket], then publishing on [SubjectSubmit]: the dispatch error. *)
Definition submit (run : WorkflowRun) (req : JobRequest) : M (option string) :=
  packet <- makeJobPacket (run_ID run) run req ;;
  match packet with
  | Err e => ret (Some e)
  | Ok packet =>
      st <- store ;;
      log (EvSubmitting run req (s_runs st !! run_ID run)) ;;;
      publishWithTrace SubjectSubmit packet
  end.

Definition completeWorkflowIdentity (identity : option IdentityBinding) : bool :=
  match identity with
  | None => false
  | Some b => negb (TrimSpace (ib_TenantId b) =s? "") && negb (TrimSpace (ib_PrincipalId b) =s? "")
              && negb (TrimSpace (ib_ActorId b) =s? "")
  end.

Definition sameWorkflowIdentity (left right : option IdentityBinding) : bool :=
  completeWorkflowIdentity left && completeWorkflowIdentity right && bool_decide (left = right).

(** Up to [n] attempts to publish; the last error. *)
Fixpoint publish_attempts (n : nat) (subject : string) (packet : BusPacket) : M (option string) :=
  err <- publishWithTrace subject packet ;;
  match err, n with
  | None, _ => ret None
  | Some e, S (S _ as n) => publish_attempts n subject packet
  | Some e, _ => ret (Some e)
  end.

Definition publishJobCancel (jobID reason : string) (runIdentity : option IdentityBinding) : M (option string) :=
  if jobID =s? "" then ret None
  else if e_productionIdentity && negb (completeWorkflowIdentity runIdentity)
  then ret (Some ("publish job cancel " +:+ jobID +:+ ": production identity required"))
  else
    token <- mint_token ;;
    let packet := mkBusPacket jobID "workflow-engine" runIdentity token
                    (PJobCancel (mkJobCancel jobID reason "workflow-engine" runIdentity)) in
    err <- publish_attempts 3 SubjectCancel packet ;;
    ret ((fun e => "publish job cancel " +:+ jobID +:+ " after 3 attempts: " +:+ e) <$> err).

(** ** Timers *)

Definition durableDelayThreshold : Z := 3 * second.

Definition scheduleAfter (delay : Z) (workflowID runID : string) : M unit :=
  if (delay <=? 0)%Z then ret tt
  else
    (if (durableDelayThreshold <=? delay)%Z then
       t <- now ;;
       tr <- trace ;;
       st <- store ;;
       (if e_delay_ok tr then put_store (AddDelayTimer workflowID runID (t + delay) st) else ret tt)
     else ret tt) ;;;
    log (EvTimer delay workflowID runID).

Definition scheduleAt (next : option Z) (t : Z) (workflowID runID : string) : M unit :=
  match next with
  | None => ret tt
  | Some next =>
      let delay := time_sub next t in
      if (delay <=? 0)%Z then ret tt else scheduleAfter delay workflowID runID
  end.

(** ** Payloads and requests *)

Definition validate_step (schema : amap) (schemaID : string) (value : any) : option string :=
  if nonempty schema then e_validate_map schema value
  else if TrimSpace schemaID =s? "" then None
  else match e_validate_id with
       | None => Some "schema registry unavailable"
       | Some validate => validate (TrimSpace schemaID) value
       end.

Definition validateStepInput (step : Step) (doc : amap) : option string :=
  validate_step (st_InputSchema step) (st_InputSchemaID step) (AnyMap doc).

Definition validateInlineOutput (step : Step) (value : any) : option string :=
  validate_step (st_OutputSchema step) (st_OutputSchemaID step) value.

Definition requiredFromInlineSchema (schema : amap) : list string :=
  match aget schema "required" with
  | Some (AnyList l) => omap as_string l
  | _ => []
  end.

(** The step input, [nil] and empty alike. *)
Definition step_input (step : Step) : amap := default [] (st_Input step).

Definition evaluateStructuredStepInput (run : WorkflowRun) (step : Step) (scope : amap) (inputKind : string) : result string amap :=
  if negb (nonempty (step_input step)) then Ok []
  else
    match evalTemplates e_sandbox (AnyMap (step_input step)) scope with
    | Err e => Err e
    | Ok (AnyMap base) =>
        let reqSet := requiredFromInlineSchema (st_InputSchema step) in
        let missing kv :=
          match aget base (fst kv), snd kv with
          | None, AnyString s => Contains s "${" && existsb (String.eqb (fst kv)) reqSet
          | _, _ => false
          end in
        match List.find missing (range_amap (step_input step)) with
        | Some (k, raw) =>
            Err (inputKind +:+ " input field " +:+ Quote k +:+ " has template " +:+ Quote (default "" (as_string raw))
                 +:+ " that resolved to nil — check that run.Input contains the expected data (run input keys: ["
                 +:+ Join (map fst (range_amap (run_Input run))) " " +:+ "])")
        | None => Ok base
        end
    | Ok v => Err (inputKind +:+ " input must be object, got " +:+ type_name v)
    end.

Definition buildJobPayload (run : WorkflowRun) (step : Step) (item : any) : result string amap :=
  let base := if nonempty (step_input step)
              then evaluateStructuredStepInput run step (buildEvalScope run item) "step"
              else Ok (run_Input run) in
  match base with
  | Err e => Err e
  | Ok base =>
      let out := if is_nil item then base
                 else match aget base "item" with Some _ => base | None => aset base "item" item end in
      match validateStepInput step out with Some e => Err e | None => Ok out end
  end.

Definition buildLoopPayload (run : WorkflowRun) (step : Step) (scope : amap) : result string amap :=
  let base := if nonempty (step_input step)
              then match evalTemplates e_sandbox (AnyMap (step_input step)) scope with
                   | Err e => Err e
                   | Ok (AnyMap m) => Ok m
                   | Ok v => Err ("step input must be object, got " +:+ type_name v)
                   end
              else Ok (run_Input run) in
  match base with
  | Err e => Err e
  | Ok base =>
      let out := match aget scope "loop" with
                 | Some loopScope => match aget base "loop" with Some _ => base | None => aset base "loop" loopScope end
                 | None => base
                 end in
      match validateStepInput step out with Some e => Err e | None => Ok out end
  end.

(** An optional text field of the envelope. *)
Definition envelope_field (k v : string) : amap := if v =s? "" then [] else [(k, AnyString v)].

(** [ApprovalContextEnvelope.AsMap] on the envelope of [buildApprovalPayload]. *)
Definition buildApprovalPayload (wf : Workflow) (run : WorkflowRun) (step : Step) (stepID : string) (requestedAt : Z) : result string amap :=
  match evaluateStructuredStepInput run step (buildEvalScope run AnyNil) "approval" with
  | Err e => Err e
  | Ok decision =>
      match validateStepInput step decision with
      | Some e => Err e
      | None =>
          let stepName := if TrimSpace (st_Name step) =s? "" then stepID else TrimSpace (st_Name step) in
          let workflow :=
            ([("workflow_id", AnyString (wf_ID wf)); ("run_id", AnyString (run_ID run)); ("step_id", AnyString stepID)]
             ++ envelope_field "workflow_name" (wf_Name wf) ++ envelope_field "step_name" stepName
             ++ envelope_field "requested_at" (e_format_rfc3339nano requestedAt)
             ++ envelope_field "triggered_by" (TrimSpace (run_TriggeredBy run))
             ++ envelope_field "tenant_id" (TrimSpace (run_OrgID run))
             ++ envelope_field "team_id" (TrimSpace (run_TeamID run)))%list in
          Ok ([("kind", AnyString "workflow_approval_context"); ("version", AnyInt 1); ("workflow", AnyMap workflow)]
              ++ (if nonempty decision then [("decision", AnyMap decision)] else []))%list
      end
  end.

Definition MakeContextKey (jobID : string) : string := "ctx:" +:+ jobID.
Definition PointerForKey (key : string) : string := "redis://" +:+ key.

Definition putJobContext (jobID : string) (doc : amap) : M (result string string) :=
  if negb e_hasMem then ret (Ok "")
  else match e_marshal (AnyMap doc) with
       | None => ret (Err "marshal step input")
       | Some _ =>
           let key := MakeContextKey jobID in
           tr <- trace ;;
           let err := e_put_error tr in
           log (EvPutContext key doc err) ;;;
           ret (match err with Some e => Err ("store step context: " +:+ e) | None => Ok (PointerForKey key) end)
       end.

Definition actorTypeFromString (raw : string) : string :=
  let s := ToLower (TrimSpace raw) in
  if s =s? "human" then "ACTOR_TYPE_HUMAN" else if s =s? "service" then "ACTOR_TYPE_SERVICE" else "ACTOR_TYPE_UNSPECIFIED".

Definition cleanStrings (values : list string) : list string :=
  List.filter (fun v => negb (v =s? "")) (map TrimSpace values).

Definition metaEmpty (m : JobMetadata) : bool :=
  (TrimSpace (jm_TenantId m) =s? "") && (TrimSpace (jm_ActorId m) =s? "")
  && (jm_ActorType m =s? "ACTOR_TYPE_UNSPECIFIED") && (TrimSpace (jm_IdempotencyKey m) =s? "")
  && (TrimSpace (jm_Capability m) =s? "") && negb (nonempty (jm_RiskTags m)) && negb (nonempty (jm_Requires m))
  && (TrimSpace (jm_PackId m) =s? "") && negb (map_nonempty (jm_Labels m)).

Definition buildStepMetadata (run : WorkflowRun) (step : Step) : option JobMetadata :=
  let tenant := TrimSpace (run_OrgID run) in
  match st_Meta step with
  | None =>
      if tenant =s? "" then None
      else Some (mkJobMetadata tenant "" "ACTOR_TYPE_UNSPECIFIED" "" "" "" [] [] ∅)
  | Some sm =>
      let meta := mkJobMetadata tenant (TrimSpace (sm_ActorId sm)) (actorTypeFromString (sm_ActorType sm))
                    (TrimSpace (sm_IdempotencyKey sm)) (TrimSpace (sm_PackId sm)) (TrimSpace (sm_Capability sm))
                    (cleanStrings (sm_RiskTags sm)) (cleanStrings (sm_Requires sm)) (sm_Labels sm) in
      if metaEmpty meta then None else Some meta
  end.

Definition NormalizeMemoryID (raw : string) : string :=
  let id := TrimSpace raw in
  if id =s? "" then "" else TrimSpace (TrimPrefix id "mem:").

Definition JobAttachmentID (jobID : string) : string :=
  if TrimSpace jobID =s? "" then "" else "job/" +:+ TrimSpace jobID +:+ "/policy".

(** The priority and the memory id a run's input asks for. *)
Definition request_priority (run : WorkflowRun) : JobPriority :=
  match aget (run_Input run) "priority" with
  | Some (AnyString s) =>
      let s := ToLower (TrimSpace s) in
      if s =s? "critical" then JOB_PRIORITY_CRITICAL
      else if s =s? "interactive" then JOB_PRIORITY_INTERACTIVE else JOB_PRIORITY_BATCH
  | _ => JOB_PRIORITY_BATCH
  end.

Definition request_memory (run : WorkflowRun) : string :=
  let dflt := "run:" +:+ run_ID run in
  match aget (run_Input run) "memory_id" with
  | Some (AnyString s) => if NormalizeMemoryID s =s? "" then dflt else NormalizeMemoryID s
  | _ => dflt
  end.

Definition is_dry_run (run : WorkflowRun) : bool := run_DryRun run || (get_str (run_Metadata run) "dry_run" =s? "true").

(** A route label: its template evaluated, or its text when that fails. *)
Definition route_label (scope : amap) (v : string) : string :=
  match evalTemplates e_sandbox (AnyString v) scope with
  | Err _ => v
  | Ok resolved => Sprint resolved
  end.

Definition buildJobRequest (wf : Workflow) (run : WorkflowRun) (step : Step) (stepID jobID : string) : JobRequest :=
  let subject := if st_Topic step =s? "" then "job.workflow." +:+ wf_ID wf else st_Topic step in
  let memoryID := request_memory run in
  let env : gmap string string := list_to_map
    [("workflow_id", wf_ID wf); ("run_id", run_ID run); ("step_id", stepID); ("tenant_id", run_OrgID run);
     ("team_id", run_TeamID run); ("memory_id", memoryID); ("context_mode", "raw")] in
  let labels : gmap string string := list_to_map
    [("workflow_id", wf_ID wf); ("run_id", run_ID run); ("step_id", stepID);
     ("policy.attachment_id", JobAttachmentID jobID); ("_source", "workflow")] in
  let labels := if st_WorkerID step =s? "" then labels else <["worker_id" := st_WorkerID step]> labels in
  let scope := buildEvalScope run AnyNil in
  let labels := foldl (fun l '(k, v) => <[k := route_label scope v]> l) labels (range_map (st_RouteLabels step)) in
  let meta := buildStepMetadata run step in
  let principal := match meta with Some m => jm_ActorId m | None => "" end in
  let env := if is_dry_run run then <["dry_run" := "true"]> env else env in
  let labels := if is_dry_run run then <["dry_run" := "true"]> labels else labels in
  let env := match e_config with
             | None => env
             | Some effective =>
                 match effective (run_OrgID run) (run_TeamID run) (wf_ID wf) stepID with
                 | None => env
                 | Some cfg => match e_marshal (AnyMap cfg) with
                               | None => env
                               | Some data => <["CORDUM_EFFECTIVE_CONFIG" := data]> env
                               end
                 end
             end in
  mkJobRequest jobID subject (request_priority run) (st_WorkerID step) (wf_ID wf) memoryID env labels (run_OrgID run)
    principal (if (0 <? st_TimeoutSec step)%Z then Some (wrap64 (st_TimeoutSec step * 1000)) else None) meta "" None None None.

Definition set_env (k v : string) (req : JobRequest) : JobRequest := set_jr_Env (<[k := v]> (jr_Env req)) req.

Definition set_idempotency (key : string) (m : JobMetadata) : JobMetadata :=
  mkJobMetadata (jm_TenantId m) (jm_ActorId m) (jm_ActorType m) key (jm_PackId m) (jm_Capability m)
    (jm_RiskTags m) (jm_Requires m) (jm_Labels m).

Definition zero_metadata : JobMetadata := mkJobMetadata "" "" "ACTOR_TYPE_UNSPECIFIED" "" "" "" [] [] ∅.

Definition buildApprovalGateRequest (wf : Workflow) (run : WorkflowRun) (step : Step) (stepID jobID : string) : JobRequest :=
  let req := buildJobRequest wf run step stepID jobID in
  let req := set_env "context_mode" "raw"
               (set_jr_AdapterId "" (set_jr_Priority JOB_PRIORITY_INTERACTIVE (set_jr_Topic SubjectWorkflowApprovalGate req))) in
  let req := set_jr_Labels (<["gate_type" := "workflow_approval"]> (jr_Labels req)) req in
  set_jr_Meta
    (Some (set_idempotency ("wf:" +:+ run_ID run +:+ ":" +:+ stepID +:+ ":1:approval") (default zero_metadata (jr_Meta req)))) req.

(** ** Alerts *)

Definition levelToSeverity (level : string) : AlertSeverity :=
  let s := ToUpper (TrimSpace level) in
  if s =s? "INFO" then ALERT_SEVERITY_INFO
  else if (s =s? "WARN") || (s =s? "WARNING") then ALERT_SEVERITY_WARNING
  else if s =s? "ERROR" then ALERT_SEVERITY_ERROR
  else if s =s? "CRITICAL" then ALERT_SEVERITY_CRITICAL
  else ALERT_SEVERITY_UNSPECIFIED.

Definition text_or (v dflt : string) : string := if TrimSpace v =s? "" then dflt else TrimSpace v.

(** The details of a [map[string]any] payload: a map of any, or of strings. *)
Definition alert_details (m : amap) : gmap string string :=
  match aget m "details" with
  | Some (AnyMap d) => list_to_map (map (fun kv => (fst kv, Sprint (snd kv))) d)
  | Some (AnyStringMap d) => list_to_map d
  | _ => ∅
  end.

Definition buildEventAlert (step : Step) (doc : any) : SystemAlert :=
  let get k := match doc with
               | AnyMap m => aget_string m k
               | AnyStringMap m => default "" (aget m k)
               | _ => ""
               end in
  let message := TrimSpace (get "message") in
  let message := if message =s? "" then (if st_Name step =s? "" then st_ID step else st_Name step) else message in
  mkSystemAlert message (levelToSeverity (ToUpper (text_or (get "level") "INFO"))) (text_or (get "component") "workflow-engine")
    (match doc with AnyMap m => alert_details m | _ => ∅ end) (TrimSpace (get "trace_id")).

(** ** Outputs *)

Definition maxInlineResultBytes : Z := 256 * 1024.

Definition hasJobResultResource (res : JobResult) : bool := res_HasRef res || negb (res_ResultPtr res =s? "").

Definition workflowResultMediaType (content mediaType : string) : string :=
  let mediaType := ToLower (TrimSpace mediaType) in
  if negb (mediaType =s? "") then mediaType
  else match e_unmarshal content with Some _ => "application/json" | None => "text/plain" end.

(** Whether the bytes are valid UTF-8 ([utf8.Valid]). *)
Fixpoint utf8_valid (fuel : nat) (s : string) : bool :=
  let byte c := nat_of_ascii c in
  let cont lo hi c := (lo <=? byte c)%nat && (byte c <=? hi)%nat in
  match fuel with
  | O => false
  | S fuel =>
      match s with
      | EmptyString => true
      | String a r =>
          let n := byte a in
          if (n <? 128)%nat then utf8_valid fuel r
          else if (n <? 194)%nat then false
          else match r with
               | EmptyString => false
               | String b r =>
                   if (n <? 224)%nat then cont 128%nat 191%nat b && utf8_valid fuel r
                   else match r with
                        | EmptyString => false
                        | String c r =>
                            if (n <? 240)%nat then
                              cont (if n =? 224 then 160 else 128)%nat (if n =? 237 then 159 else 191)%nat b
                              && cont 128%nat 191%nat c && utf8_valid fuel r
                            else match r with
                                 | EmptyString => false
                                 | String d r =>
                                     (n <? 245)%nat
                                     && cont (if n =? 240 then 144 else 128)%nat (if n =? 244 then 143 else 191)%nat b
                                     && cont 128%nat 191%nat c && cont 128%nat 191%nat d && utf8_valid fuel r
                                 end
                        end
               end
      end
  end.

Definition errResultMediaType : string := "workflow result resource does not match its media type".

Definition decodeWorkflowResult (content mediaType : string) : result string any :=
  let mediaType := workflowResultMediaType content mediaType in
  if (mediaType =s? "application/json") || HasSuffix mediaType "+json" then
    match e_unmarshal content with Some v => Ok v | None => Err errResultMediaType end
  else if HasPrefix mediaType "text/" then
    if utf8_valid (S (String.length content)) content then Ok (AnyString content) else Err errResultMediaType
  else Err errResultMediaType.

Record resolvedStepOutput := mkResolved { ro_value : any; ro_content : string; ro_mediaType : string }.

Definition resolveStepOutput (run : WorkflowRun) (res : JobResult) : M (result string resolvedStepOutput) :=
  if negb (hasJobResultResource res) then ret (Err "workflow result resource is empty")
  else
    tr <- trace ;;
    match e_read_resource tr (run_OrgID run) res with
    | Err e => ret (Err e)
    | Ok (content, mediaType) =>
        if content =s? "" then ret (Err "workflow result resource is empty")
        else if (maxInlineResultBytes <? Z.of_nat (String.length content))%Z
        then ret (Err "workflow result resource exceeds inline limit")
        else match decodeWorkflowResult content mediaType with
             | Err e => ret (Err e)
             | Ok value => ret (Ok (mkResolved value content (workflowResultMediaType content mediaType)))
             end
    end.

Definition validateResolvedStepOutput (step : option Step) (output : any) : option string :=
  match step with
  | None => None
  | Some step => validate_step (st_OutputSchema step) (st_OutputSchemaID step) output
  end.

Definition result_data_path (step : option Step) : string := match step with Some s => st_ResultDataPath s | None => "" end.

Definition resolveAndValidateStepOutput (run : WorkflowRun) (step : option Step) (res : JobResult) : M (result string resolvedStepOutput) :=
  out <- resolveStepOutput run res ;;
  match out with
  | Err e => ret (Err e)
  | Ok output =>
      let rdp := result_data_path step in
      match (if TrimSpace rdp =s? "" then Some (ro_value output) else Path.extractDataPath (ro_value output) rdp) with
      | None => ret (Err "output result_data_path not found")
      | Some value =>
          match validateResolvedStepOutput step value with
          | Some e => ret (Err e)
          | None => ret (Ok (mkResolved value (ro_content output) (ro_mediaType output)))
          end
      end
  end.

Definition failStepOutput (run : WorkflowRun) (stepID : string) (sr : StepRun) (res : JobResult) (err : string) : M StepRun :=
  t <- now ;;
  let message := if e_is_cancelled err then "workflow result processing cancelled" else "workflow result rejected" in
  let sr := set_sr_Error (msg_error message)
              (set_sr_Output AnyNil (set_sr_CompletedAt (Some t) (set_sr_Status StepStatusFailed sr))) in
  appendTimeline run "step_output_invalid" stepID (res_JobId res) (string_of_step_status (sr_Status sr)) "" message [] ;;;
  ret sr.

(** The first field whose value is not the trusted one. *)
Definition authority_mismatch (fields : list (string * string * string)) : option string :=
  match List.find (fun '(_, actual, trusted) => (trusted =s? "") || negb (actual =s? trusted)) fields with
  | Some (name, _, _) => Some (name +:+ " authority mismatch")
  | None => None
  end.

Definition mirror_mismatch (fields : list (string * string * string)) : option string :=
  match List.find (fun '(_, actual, trusted) => negb (actual =s? "") && negb (actual =s? trusted)) fields with
  | Some (name, _, _) => Some (name +:+ " authority mismatch")
  | None => None
  end.

Definition validateOutputRequestMirrors (run : WorkflowRun) (stepID : string) (req : JobRequest) : option string :=
  match mirror_mismatch
          [("env tenant", get_str (jr_Env req) "tenant_id", run_OrgID run);
           ("env workflow", get_str (jr_Env req) "workflow_id", run_WorkflowID run);
           ("env run", get_str (jr_Env req) "run_id", run_ID run);
           ("env step", get_str (jr_Env req) "step_id", stepID);
           ("label workflow", get_str (jr_Labels req) "workflow_id", run_WorkflowID run)] with
  | Some e => Some e
  | None =>
      let meta_actor := match jr_Meta req with Some m => jm_ActorId m | None => "" end in
      match jr_Meta req with
      | Some m => if negb (jm_TenantId m =s? "") && negb (jm_TenantId m =s? run_OrgID run)
                  then Some "metadata tenant authority mismatch"
                  else match jr_Identity req with
                       | None => None
                       | Some b => mirror_mismatch [("identity tenant", ib_TenantId b, run_OrgID run);
                                                    ("identity principal", ib_PrincipalId b, jr_PrincipalId req);
                                                    ("identity actor", ib_ActorId b, meta_actor)]
                       end
      | None => match jr_Identity req with
                | None => None
                | Some b => mirror_mismatch [("identity tenant", ib_TenantId b, run_OrgID run);
                                             ("identity principal", ib_PrincipalId b, jr_PrincipalId req);
                                             ("identity actor", ib_ActorId b, meta_actor)]
                end
      end
  end.

Definition validateOutputRequestAuthority (run : WorkflowRun) (stepID : string) (res : JobResult) (req : JobRequest) : option string :=
  if TrimSpace (jr_Topic req) =s? "" then Some "output authority topic missing"
  else match authority_mismatch
               [("job", jr_JobId req, res_JobId res); ("tenant", jr_TenantId req, run_OrgID run);
                ("workflow", jr_WorkflowId req, run_WorkflowID run); ("run", get_str (jr_Labels req) "run_id", run_ID run);
                ("step", get_str (jr_Labels req) "step_id", stepID)] with
       | Some e => Some e
       | None => validateOutputRequestMirrors run stepID req
       end.

Definition loadOutputSafetyRequest (run : WorkflowRun) (stepID : string) (res : JobResult) : M (result string JobRequest) :=
  match e_job_request with
  | None => ret (Err "authoritative job request store unavailable")
  | Some get =>
      tr <- trace ;;
      ret (match get tr (res_JobId res) with
           | Err e => Err ("load authoritative job request: " +:+ e)
           | Ok req => match validateOutputRequestAuthority run stepID res req with Some e => Err e | None => Ok req end
           end)
  end.

(** The step run after the decision, and whether the output must not be recorded. *)
Definition applyStepOutputDecision (run : WorkflowRun) (stepID : string) (sr : StepRun) (res : JobResult)
    (decision : OutputDecision) (reason : string) : M (StepRun * bool) :=
  match decision with
  | OutputAllow => ret (sr, false)
  | OutputOther => sr <- failStepOutput run stepID sr res "unsupported output safety decision" ;; ret (sr, true)
  | OutputQuarantine | OutputDeny =>
      t <- now ;;
      let sr := set_sr_Error (Some [("code", AnyString "output_quarantined"); ("message", AnyString reason)])
                  (set_sr_Output AnyNil (set_sr_CompletedAt (Some t) (set_sr_Status StepStatusFailed sr))) in
      appendTimeline run "step_output_quarantined" stepID (res_JobId res) (string_of_step_status (sr_Status sr)) "" reason [] ;;;
      ret (sr, true)
  end.

Definition checkStepOutputPolicy (run : WorkflowRun) (stepID : string) (sr : StepRun) (res : JobResult)
    (output : resolvedStepOutput) : M (StepRun * bool) :=
  if negb (hasJobResultResource res) then ret (sr, false)
  else match e_evaluate_output with
       | None => sr <- failStepOutput run stepID sr res "output safety unavailable" ;; ret (sr, true)
       | Some evaluate =>
           request <- loadOutputSafetyRequest run stepID res ;;
           match request with
           | Err e => sr <- failStepOutput run stepID sr res e ;; ret (sr, true)
           | Ok req =>
               tr <- trace ;;
               match evaluate tr req res (ro_content output) (ro_mediaType output) with
               | Err e => sr <- failStepOutput run stepID sr res e ;; ret (sr, true)
               | Ok (decision, reason) => applyStepOutputDecision run stepID sr res decision reason
               end
           end
       end.

Definition output_path (step : option Step) : string := match step with Some s => st_OutputPath s | None => "" end.

Definition canRecordBoundLegacyPointer (step : option Step) (res : JobResult) : bool :=
  if res_HasRef res || e_hasMem || bool_decide (is_Some e_evaluate_output) then false
  else if negb e_legacyCompat || (res_ResultPtr res =s? "") then false
  else match step with
       | None => true
       | Some s => negb (nonempty (st_OutputSchema s)) && (TrimSpace (st_OutputSchemaID s) =s? "")
                   && (TrimSpace (st_ResultDataPath s) =s? "")
       end.

(** [recordStepOutput] without a memory store: the pointer alone. *)
Definition recordStepPointer (run : WorkflowRun) (stepID : string) (step : option Step) (resultPtr : string) (applyOutputPath : bool) : WorkflowRun :=
  if (stepID =s? "") || (resultPtr =s? "") then run
  else set_run_Context
         (Some (record_entry (run_ctx run) stepID (AnyMap [("result_ptr", AnyString resultPtr)])
                  (if applyOutputPath then output_path step else "") (AnyString resultPtr))) run.

Definition recordResolvedStepOutput (run : WorkflowRun) (stepID : string) (step : option Step) (res : JobResult)
    (output : resolvedStepOutput) (applyOutputPath : bool) : WorkflowRun :=
  let ctx := run_ctx run in
  let path := if applyOutputPath then output_path step else "" in
  let seeded := match aget ctx "steps" with Some (AnyMap _) => ctx | _ => aset ctx "steps" (AnyMap []) end in
  let path_ok := (TrimSpace path =s? "") || snd (Path.setContextPath seeded path (ro_value output)) in
  let entry := ([("output", ro_value output)]
                ++ (if negb (res_HasRef res) && e_legacyCompat then [("result_ptr", AnyString (res_ResultPtr res))] else [])
                ++ (if path_ok then [] else [("output_path_error", AnyString "invalid output path")]))%list in
  set_run_Context (Some (record_entry ctx stepID (AnyMap entry) path (ro_value output))) run.

(** The run and the step run afterwards.  The code resolves the output again when
    the policy check replaced the pointer of the result; no code does. *)
Definition processStepOutput (run : WorkflowRun) (stepID : string) (step : option Step) (sr : StepRun) (res : JobResult)
    (applyOutputPath : bool) : M (WorkflowRun * StepRun) :=
  if canRecordBoundLegacyPointer step res then
    match e_bound_legacy (res_ResultPtr res) (run_OrgID run) (res_JobId res) with
    | Some e => sr <- failStepOutput run stepID sr res e ;; ret (run, sr)
    | None =>
        ret (recordStepPointer run stepID step (res_ResultPtr res) applyOutputPath,
             set_sr_Output (AnyString (res_ResultPtr res)) sr)
    end
  else
    out <- resolveAndValidateStepOutput run step res ;;
    match out with
    | Err e => sr <- failStepOutput run stepID sr res e ;; ret (run, sr)
    | Ok output =>
        '(sr, blocked) <- checkStepOutputPolicy run stepID sr res output ;;
        if (blocked : bool) then ret (run, sr)
        else ret (recordResolvedStepOutput run stepID step res output applyOutputPath, set_sr_Output (ro_value output) sr)
    end.

(** ** Callbacks *)

Definition OnStepDispatched (runID stepID jobID : string) : M unit := log (EvDispatched runID stepID jobID).
Definition OnStepFinished (runID stepID : string) (status : StepStatus) : M unit := log (EvFinished runID stepID status).
Definition markRunTerminal (runID : string) : M unit := if runID =s? "" then ret tt else log (EvTerminal runID).

End Calls.
