(* ===== verification/WorkflowSchedule.v ===== *)
(** * Scheduling a run

    [scheduleReady] of core/workflow/engine.go: every step of the workflow whose
    dependencies allow it is evaluated in place (condition, switch, transform,
    storage, delay, notify) or handed to a worker (worker, approval, for-each,
    parallel, loop), in passes until no pass completes another step.

    One definition per kind of step, with the code's guards and early exits in
    their order.  [sr] is the code's [parentSR], [t] the time read when scheduling
    began.  A step that completes in place ends in [close_step]: store the step
    run, append to the timeline, call the finished hook. *)
From S2P Require Import Prelude.
From S2P Require Import GoStrings.
From S2P Require Import PolicyTypes.
From S2P Require Import GoValues.
From S2P Require Import WorkflowModels.
From S2P Require Import WorkflowHelpers.
From S2P Require Import WorkflowState.
From S2P Require Import WorkflowEval.
From S2P Require Import WorkflowStore.
From S2P Require Import WorkflowJob.

Open Scope string_scope.

(** ** Step runs *)

(** Neither dispatched nor evaluated yet. *)
Definition is_open (s : StepStatus) : bool :=
  match s with StepStatusNone | StepStatusPending => true | _ => false end.

Definition start_if_nil (t : Z) (sr : StepRun) : StepRun :=
  match sr_StartedAt sr with None => set_sr_StartedAt (Some t) sr | Some _ => sr end.

Definition begin_step (t : Z) (sr : StepRun) : StepRun := set_sr_StartedAt (Some t) (set_sr_Status StepStatusRunning sr).

Definition end_step (s : StepStatus) (t : Z) (sr : StepRun) : StepRun := set_sr_CompletedAt (Some t) (set_sr_Status s sr).

Definition fail_step (msg : string) (t : Z) (sr : StepRun) : StepRun :=
  set_sr_Error (msg_error msg) (end_step StepStatusFailed t sr).

(** A failure that completes nothing: the error of a dispatch. *)
Definition fail_dispatch (msg : string) (sr : StepRun) : StepRun :=
  set_sr_Error (msg_error msg) (set_sr_Status StepStatusFailed sr).

(** Back to pending after a dispatch that did not go through. *)
Definition revert_dispatch (attempts : Z) (sr : StepRun) : StepRun :=
  set_sr_StartedAt None (set_sr_JobID "" (set_sr_Attempts attempts (set_sr_Status StepStatusPending sr))).

(** [parent.Children[id] = child; run.Steps[id] = child]. *)
Definition link (id : string) (child : StepRun) (parent : StepRun) (run : WorkflowRun) : StepRun * WorkflowRun :=
  (link_child id parent, set_step id child run).

(** [for k, v := range sr.Input { if _, exists := payload[k]; !exists { payload[k] = v } }]. *)
Definition merge_input (doc input : amap) : amap :=
  foldl (fun doc '(k, v) => match aget doc k with Some _ => doc | None => aset doc k v end) doc input.

Definition status_text (sr : StepRun) : string := string_of_step_status (sr_Status sr).

Section Schedule.
Context `{GoRuntime} `{FloatPrinter} `{FloatParser} `{ExprEngine} `{EngineEnv}.

Definition close_step (run : WorkflowRun) (stepID : string) (sr : StepRun) (eventType jobID msg : string) (data : amap) : M WorkflowRun :=
  let run := set_step stepID sr run in
  appendTimeline run eventType stepID jobID (status_text sr) "" msg data ;;;
  OnStepFinished (run_ID run) stepID (sr_Status sr) ;;;
  ret run.

(** The same without the hook. *)
Definition close_quiet (run : WorkflowRun) (stepID : string) (sr : StepRun) (eventType msg : string) (data : amap) : M WorkflowRun :=
  let run := set_step stepID sr run in
  appendTimeline run eventType stepID "" (status_text sr) "" msg data ;;;
  ret run.

(** ** Error handlers *)

(** [activateOnErrorHandler]. *)
Definition activateOnErrorHandler (run : WorkflowRun) (wf : Workflow) (stepID : string) (sr : StepRun) : M WorkflowRun :=
  match wf_Steps wf !! stepID with
  | None => ret run
  | Some stepDef =>
      if st_OnError stepDef =s? "" then ret run
      else match wf_Steps wf !! st_OnError stepDef with
           | None => ret run
           | Some _ =>
               let target := default (new_step_run (st_OnError stepDef)) (step_run run (st_OnError stepDef)) in
               if negb (is_open (sr_Status target)) then ret run
               else
                 let errCtx := aset (default [] (sr_Error sr)) "step_id" (AnyString stepID) in
                 let target := set_sr_Input (aset (sr_Input target) "error" (AnyMap errCtx))
                                 (set_sr_Status StepStatusPending target) in
                 let run := set_step (st_OnError stepDef) target run in
                 appendTimeline run "step_error_redirect" stepID "" (status_text sr) "" (st_OnError stepDef) [] ;;;
                 ret run
           end
  end.

(** ** One step *)

Section Step.
Context (wf : Workflow) (t : Z) (stepID : string) (step : Step).

(** The gate of steps with a condition: the run when the step ends here, else
    [None] to go on. *)
Definition condition_gate (run : WorkflowRun) (sr : StepRun) : M (option WorkflowRun) :=
  match st_Type step with
  | StepTypeCondition | StepTypeSwitch => ret None
  | _ =>
      if st_Condition step =s? "" then ret None
      else match evalCondition e_sandbox (st_Condition step) (buildEvalScope run AnyNil) with
           | Err e =>
               run <- close_step run stepID (fail_step e t (start_if_nil t sr)) "step_condition_failed" "" e [] ;;
               ret (Some run)
           | Ok false =>
               run <- close_step run stepID (end_step StepStatusSucceeded t (set_sr_StartedAt (Some t) sr))
                        "step_condition_skipped" "" "condition false" [] ;;
               ret (Some run)
           | Ok true => ret None
           end
  end.

Definition schedule_condition (run : WorkflowRun) (sr : StepRun) : M WorkflowRun :=
  if is_open (sr_Status sr) then
    let sr := begin_step t sr in
    let failed msg := close_step run stepID (fail_step msg t sr) "step_condition_failed" "" msg [] in
    let condExpr := TrimSpace (st_Condition step) in
    if condExpr =s? "" then failed "condition expression required"
    else match evalCondition e_sandbox condExpr (buildEvalScope run AnyNil) with
         | Err e => failed e
         | Ok b =>
             match validateInlineOutput step (AnyBool b) with
             | Some e => failed e
             | None =>
                 let sr := set_sr_Output (AnyBool b) (end_step StepStatusSucceeded t sr) in
                 close_step (recordStepInlineOutput (set_step stepID sr run) stepID step (AnyBool b)) stepID sr
                   "step_condition_evaluated" "" "" [("value", AnyBool b)]
             end
         end
  else ret (set_step stepID sr run).

Definition schedule_approval (run : WorkflowRun) (sr : StepRun) : M WorkflowRun :=
  if is_open (sr_Status sr) then
    let jobID := JobIds.job_id (run_ID run) stepID 1 in
    let req := buildApprovalGateRequest wf run step stepID jobID in
    match buildApprovalPayload wf run step stepID t with
    | Err e => close_step run stepID (fail_dispatch e sr) "step_failed" jobID e []
    | Ok doc =>
        ptr <- putJobContext jobID doc ;;
        let unavailable := match ptr with
                           | Err e => Some e
                           | Ok p => if TrimSpace p =s? "" then Some "approval context store unavailable" else None
                           end in
        match unavailable, ptr with
        | None, Ok ptr =>
            let req := set_jr_ContextPtr ptr req in
            let sr := set_sr_Input (merge_input doc (sr_Input sr))
                        (set_sr_Attempts 1 (set_sr_JobID jobID (set_sr_StartedAt (Some t) (set_sr_Status StepStatusWaiting sr)))) in
            let run := set_step stepID sr (set_run_Status RunStatusWaiting run) in
            '(run, err) <- update_run run ;;
            let sr := default sr (step_run run stepID) in
            match err with
            | Some _ => ret (set_step stepID (revert_dispatch 0 sr) run)
            | None =>
                err <- submit run req ;;
                match err with
                | Some _ =>
                    '(run, _) <- update_run (set_step stepID (revert_dispatch 0 sr) run) ;;
                    ret run
                | None =>
                    appendTimeline run "step_waiting" stepID jobID (status_text sr) "" "approval requested"
                      [("context_ptr", AnyString (jr_ContextPtr req))] ;;;
                    OnStepDispatched (run_ID run) stepID jobID ;;;
                    ret run
                end
            end
        | unavailable, _ =>
            let e := default "" unavailable in
            close_step run stepID (set_sr_Input doc (fail_dispatch e sr)) "step_failed" jobID e
              [("approval_payload", AnyMap doc)]
        end
    end
  else ret (set_step stepID sr run).

Definition schedule_delay (run : WorkflowRun) (sr : StepRun) : M WorkflowRun :=
  match delayForStep e_parse_rfc3339 step t with
  | Err e => close_quiet run stepID (fail_step e t sr) "step_delay_failed" e []
  | Ok delay =>
      let complete sr := set_sr_NextAttemptAt None (end_step StepStatusSucceeded t sr) in
      let completed sr := close_step run stepID (complete sr) "step_delay_completed" "" "delay completed" [] in
      if is_open (sr_Status sr) then
        let sr := begin_step t sr in
        if (delay <=? 0)%Z then completed sr
        else
          let sr := set_sr_NextAttemptAt (Some (t + delay)%Z) sr in
          run <- close_quiet run stepID sr "step_delay_started" "delay started"
                   [("delay_ms", AnyInt64 (Z.quot delay 1000000))] ;;
          scheduleAfter delay (run_WorkflowID run) (run_ID run) ;;;
          ret run
      else
        match sr_Status sr, sr_NextAttemptAt sr with
        | StepStatusRunning, Some next =>
            if negb (t <? next)%Z then completed sr
            else scheduleAt (Some next) t (run_WorkflowID run) (run_ID run) ;;; ret (set_step stepID sr run)
        | _, _ => ret (set_step stepID sr run)
        end
  end.

Definition schedule_notify (run : WorkflowRun) (sr : StepRun) : M WorkflowRun :=
  if is_open (sr_Status sr) then
    match evalTemplates e_sandbox (AnyMap (step_input step)) (buildEvalScope run AnyNil) with
    | Err e => close_quiet run stepID (fail_step e t sr) "step_event_failed" e []
    | Ok doc =>
        let alert := buildEventAlert step doc in
        let alert := if sa_TraceId alert =s? ""
                     then mkSystemAlert (sa_Message alert) (sa_Severity alert) (sa_SourceComponent alert) (sa_Details alert) (run_ID run)
                     else alert in
        err <- publishWithTrace SubjectWorkflowEvent
                 (mkBusPacket (run_ID run) "workflow-engine" None "" (PAlert alert)) ;;
        match err with
        | Some e => close_quiet run stepID (fail_step e t sr) "step_event_failed" e [("payload", doc)]
        | None =>
            close_step run stepID (end_step StepStatusSucceeded t (set_sr_StartedAt (Some t) sr)) "step_event_emitted" ""
              (sa_Message alert) [("payload", doc)]
        end
    end
  else ret run.

Definition schedule_transform (run : WorkflowRun) (sr : StepRun) : M WorkflowRun :=
  if is_open (sr_Status sr) then
    let sr := begin_step t sr in
    let done output data :=
      let sr := set_sr_Output output (end_step StepStatusSucceeded t sr) in
      close_step (recordStepInlineOutput (set_step stepID sr run) stepID step output) stepID sr
        "step_transform_completed" "" "" data in
    match st_Input step with
    | None => done (AnyMap []) [("keys", AnyInt 0)]
    | Some input =>
        match evalTemplates e_sandbox (AnyMap input) (buildEvalScope run AnyNil) with
        | Err e =>
            close_step run stepID (fail_step ("transform expression error: " +:+ e) t sr) "step_transform_failed" "" e []
        | Ok output =>
            match validateInlineOutput step output with
            | Some e => close_step run stepID (fail_step e t sr) "step_transform_failed" "" e []
            | None => done output []
            end
        end
    end
  else ret (set_step stepID sr run).

(** *** Switch *)

(** The targets a switch does not take. *)
Definition unmatched_targets (cases : list switchCase) (defaultStepID target : string) : list string :=
  List.filter (fun id => negb (id =s? "") && negb (id =s? target)) (map sc_StepID cases ++ [defaultStepID]).

Definition skip_branch (run : WorkflowRun) (id : string) : WorkflowRun :=
  let branch := default (new_step_run id) (step_run run id) in
  if isTerminalStepStatus (sr_Status branch) then run
  else set_step id
         (set_sr_Error (Some [("message", AnyString "branch not taken"); ("reason", AnyString switchBranchNotTakenReason)])
            (set_sr_CompletedAt (Some t) (start_if_nil t (set_sr_Status StepStatusCancelled branch)))) run.

(** The first target that is not a step of the workflow. *)
Definition invalid_target (cases : list switchCase) (defaultStepID : string) : option string :=
  match List.find (fun c => bool_decide (wf_Steps wf !! sc_StepID c = None)) cases with
  | Some c => Some ("switch case target step " +:+ Quote (sc_StepID c) +:+ " not found")
  | None =>
      if negb (defaultStepID =s? "") && bool_decide (wf_Steps wf !! defaultStepID = None)
      then Some ("switch default target step " +:+ Quote defaultStepID +:+ " not found")
      else None
  end.

Definition schedule_switch (run : WorkflowRun) (sr : StepRun) : M WorkflowRun :=
  let sr := if is_open (sr_Status sr) then begin_step t sr else sr in
  let failed run msg data := close_step run stepID (fail_step msg t sr) "step_switch_evaluated" "" msg data in
  let condExpr := TrimSpace (st_Condition step) in
  let scope := buildEvalScope run AnyNil in
  if condExpr =s? "" then failed run "switch expression required" [] else
  match Eval e_sandbox condExpr scope with
  | Err e => failed run e []
  | Ok switchValue =>
      match parseSwitchCases e_sandbox step scope with
      | Err e => failed run e []
      | Ok cases =>
          match parseSwitchDefault e_sandbox step scope with
          | Err e => failed run e []
          | Ok defaultStepID =>
              match invalid_target cases defaultStepID with
              | Some msg => failed run msg []
              | None =>
                  let '(target, matchedCase) :=
                    match List.find (fun c => switchValueEquals switchValue (sc_MatchValue c)) cases with
                    | Some c => (sc_StepID c, Sprint (sc_MatchValue c))
                    | None => ("", "default")
                    end in
                  let target := if target =s? "" then defaultStepID else target in
                  if TrimSpace target =s? "" then failed run "no matching case" [("value", switchValue)] else
                  let run := foldl skip_branch run (unmatched_targets cases defaultStepID target) in
                  let output := [("matched_case", AnyString matchedCase); ("matched_value", switchValue);
                                 ("target_step", AnyString target)] in
                  match validateInlineOutput step (AnyMap output) with
                  | Some e => failed run e []
                  | None =>
                      let sr := set_sr_Output (AnyMap output) (set_sr_Error None (end_step StepStatusSucceeded t sr)) in
                      let run := recordStepInlineOutput (set_step stepID sr run) stepID step (AnyMap output) in
                      let targetSR := default (new_step_run target) (step_run run target) in
                      let targetSR := if bool_decide (sr_Status targetSR = StepStatusNone)
                                      then set_sr_Status StepStatusPending targetSR else targetSR in
                      let run := set_step target targetSR run in
                      appendTimeline run "step_switch_evaluated" stepID "" (status_text sr) "" "" output ;;;
                      OnStepFinished (run_ID run) stepID (sr_Status sr) ;;;
                      ret run
                  end
              end
          end
      end
  end.

(** *** Storage *)

(** The context afterwards, and the output or the error with the timeline message. *)
Definition storage_operation (ctx input : amap) : amap * result (string * string) amap :=
  let operation := aget_string input "operation" in
  let key := aget_string input "key" in
  if operation =s? "read" then
    if key =s? "" then (ctx, Err ("storage read: key is required", "key is required"))
    else match Path.getContextPath ctx key with
         | None => let msg := "storage read: key " +:+ Quote key +:+ " not found" in (ctx, Err (msg, msg))
         | Some v => (ctx, Ok [("operation", AnyString "read"); ("key", AnyString key); ("value", v)])
         end
  else if operation =s? "write" then
    if key =s? "" then (ctx, Err ("storage write: key is required", "key is required"))
    else let v := default AnyNil (aget input "value") in
         (fst (Path.setContextPath ctx key v), Ok [("operation", AnyString "write"); ("key", AnyString key); ("value", v)])
  else if operation =s? "delete" then
    if key =s? "" then (ctx, Err ("storage delete: key is required", "key is required"))
    else (Path.deleteContextPath ctx key, Ok [("operation", AnyString "delete"); ("key", AnyString key)])
  else let msg := "unknown storage operation: " +:+ Quote operation in (ctx, Err (msg, msg)).

Definition schedule_storage (run : WorkflowRun) (sr : StepRun) : M WorkflowRun :=
  if is_open (sr_Status sr) then
    let sr := begin_step t sr in
    match evalTemplates e_sandbox (AnyMap (step_input step)) (buildEvalScope run AnyNil) with
    | Err e =>
        close_step run stepID (fail_step ("storage input expression error: " +:+ e) t sr) "step_storage_failed" "" e []
    | Ok evalInput =>
        let '(ctx, out) := storage_operation (run_ctx run) (default [] (as_map evalInput)) in
        let run := set_run_Context (Some ctx) run in
        match out with
        | Err (msg, text) => close_step run stepID (fail_step msg t sr) "step_storage_failed" "" text []
        | Ok output =>
            match validateInlineOutput step (AnyMap output) with
            | Some e => close_step run stepID (fail_step e t sr) "step_storage_failed" "" e []
            | None =>
                let sr := set_sr_Output (AnyMap output) (end_step StepStatusSucceeded t sr) in
                close_step (recordStepInlineOutput (set_step stepID sr run) stepID step (AnyMap output)) stepID sr
                  "step_storage_completed" "" "" output
            end
        end
    end
  else ret (set_step stepID sr run).

(** *** Sub-workflows *)

Definition sub_output (childWorkflowID childRunID : string) (s : RunStatus) : any :=
  AnyMap [("workflow_id", AnyString childWorkflowID); ("run_id", AnyString childRunID);
          ("status", AnyString (string_of_run_status s))].

(** The run created for a sub-workflow step. *)
Definition child_run (run : WorkflowRun) (childRunID childWorkflowID : string) (childInput : amap) (callStack : list string) : WorkflowRun :=
  let dry := is_dry_run run in
  let labels := if dry then <["dry_run" := "true"]> (run_Labels run) else run_Labels run in
  let metadata := <["call_stack" := encodeCallStack (callStack ++ [childWorkflowID])]>
                    (<["parent_step_id" := stepID]> (<["parent_run_id" := run_ID run]> (run_Metadata run))) in
  let metadata := if dry then <["dry_run" := "true"]> metadata else metadata in
  mkWorkflowRun childRunID childWorkflowID (run_OrgID run) (run_TeamID run) childInput (Some []) RunStatusPending None None
    [] [] ∅ (run_TriggeredBy run) (run_Identity run) t t labels metadata "" "" "" dry.

(** [start] is the recursive call [e.StartRun]. *)
Definition schedule_subworkflow (start : string -> string -> M (option string)) (run : WorkflowRun) (sr : StepRun) : M WorkflowRun :=
  let failed jobID msg := close_step run stepID (fail_step msg t (start_if_nil t sr)) "step_subworkflow_completed" jobID msg [] in
  let failed_running sr jobID msg := close_step run stepID (fail_step msg t sr) "step_subworkflow_completed" jobID msg [] in
  match resolveSubWorkflowConfig e_sandbox step (buildEvalScope run AnyNil) with
  | Err e => failed "" e
  | Ok cfg =>
      let childWorkflowID := sw_workflowID cfg in
      let childRunID := TrimSpace (sr_JobID sr) in
      if childRunID =s? "" then
        let callStack := normalizeCallStackForRun run in
        if containsString callStack childWorkflowID
        then failed "" ("circular workflow reference detected: " +:+ childWorkflowID)
        else match normalizeSubWorkflowInput run (sw_inputMapping cfg) with
             | Err e => failed "" e
             | Ok childInput =>
                 child <- get_workflow childWorkflowID ;;
                 match child with
                 | Err e => failed "" ("get child workflow: " +:+ read_error_text e)
                 | Ok _ =>
                     childRunID <- new_uuid ;;
                     err <- create_run (child_run run childRunID childWorkflowID childInput callStack) ;;
                     match err with
                     | Some e => failed "" ("create child run: " +:+ e)
                     | None =>
                         err <- start childWorkflowID childRunID ;;
                         match err with
                         | Some e => failed childRunID ("start child run: " +:+ e)
                         | None =>
                             let sr := set_sr_Output (sub_output childWorkflowID childRunID RunStatusRunning)
                                         (set_sr_Error None (set_sr_JobID childRunID (set_sr_CompletedAt None
                                            (start_if_nil t (set_sr_Status StepStatusRunning sr))))) in
                             let run := set_step stepID sr run in
                             appendTimeline run "step_subworkflow_started" stepID childRunID (status_text sr) "" ""
                               [("workflow_id", AnyString childWorkflowID); ("run_id", AnyString childRunID)] ;;;
                             ret run
                         end
                     end
                 end
             end
      else
        got <- get_run childRunID ;;
        match got with
        | Err e => failed childRunID ("get child run: " +:+ read_error_text e)
        | Ok childRun =>
            let status := run_Status childRun in
            let sr := set_sr_Output (sub_output childWorkflowID childRunID status) sr in
            let data := [("workflow_id", AnyString childWorkflowID); ("run_id", AnyString childRunID);
                         ("child_status", AnyString (string_of_run_status status))] in
            match status with
            | RunStatusPending | RunStatusRunning | RunStatusWaiting =>
                ret (set_step stepID (set_sr_Status StepStatusRunning sr) run)
            | RunStatusSucceeded =>
                match buildSubWorkflowOutput e_sandbox run childRun (sw_outputMapping cfg) with
                | Err e => failed_running sr childRunID e
                | Ok mapped =>
                    match validateInlineOutput step (AnyMap mapped) with
                    | Some e => failed_running sr childRunID e
                    | None =>
                        let sr := set_sr_Output (AnyMap mapped) (set_sr_Error None (end_step StepStatusSucceeded t sr)) in
                        close_step (recordStepInlineOutput (set_step stepID sr run) stepID step (AnyMap mapped)) stepID sr
                          "step_subworkflow_completed" childRunID "" data
                    end
                end
            | RunStatusFailed | RunStatusDenied | RunStatusCancelled | RunStatusTimedOut =>
                let msg := "child run " +:+ childRunID +:+ " ended with status " +:+ string_of_run_status status in
                let childMsg := aget_string (run_Error childRun) "message" in
                let msg := if TrimSpace childMsg =s? "" then msg else childMsg in
                let stepMsg := subWorkflowChildErrorMessage childRun in
                let msg := if stepMsg =s? "" then msg else stepMsg in
                let sr := set_sr_Error (Some [("message", AnyString msg); ("child_run_id", AnyString childRunID);
                                              ("child_status", AnyString (string_of_run_status status))])
                            (end_step (subWorkflowTerminalStatus status) t sr) in
                close_step run stepID sr "step_subworkflow_completed" childRunID msg data
            end
        end
  end.

(** *** Loops *)

Definition loop_output (iterations : nat) (last : any) : any :=
  AnyMap [("iterations", AnyInt (Z.of_nat iterations)); ("last_output", last)].

(** Whether the loop goes on: its condition holds and its [until] does not. *)
Definition loop_continues (cfg : LoopConfig) (scope : amap) : result string bool :=
  match (if lc_condition cfg =s? "" then Ok true else evalCondition e_sandbox (lc_condition cfg) scope) with
  | Err e => Err e
  | Ok go =>
      if lc_until cfg =s? "" then Ok go
      else match evalCondition e_sandbox (lc_until cfg) scope with
           | Err e => Err e
           | Ok stop => Ok (go && negb stop)
           end
  end.

(** [sr.NextAttemptAt != nil && sr.NextAttemptAt.After(now)]. *)
Definition waits (sr : StepRun) : bool := match sr_NextAttemptAt sr with Some next => (t <? next)%Z | None => false end.

(** Dispatching iteration [idx]. *)
Definition dispatch_iteration (bodyStep : Step) (idx : nat) (previous : any) (scope : amap) (run : WorkflowRun) (sr : StepRun) : M WorkflowRun :=
  let childID := JobIds.child_id stepID idx in
  let child := default (new_step_run_status childID StepStatusPending) (child_of run sr childID) in
  let keep child := let '(sr, run) := link childID child sr run in set_step stepID sr run in
  if waits child then scheduleAt (sr_NextAttemptAt child) t (run_WorkflowID run) (run_ID run) ;;; ret (keep child)
  else
    let jobID := JobIds.job_id (run_ID run) childID (sr_Attempts child + 1) in
    let req := set_env "loop_iteration" (Itoa (Z.of_nat idx + 1)) (set_env "loop_index" (Itoa (Z.of_nat idx))
                 (buildJobRequest wf run bodyStep childID jobID)) in
    let req := match e_marshal previous with Some s => set_env "loop_previous_output" s req | None => req end in
    match buildLoopPayload run bodyStep scope with
    | Err e => ret (keep (fail_dispatch e child))
    | Ok doc =>
        ptr <- putJobContext jobID doc ;;
        match ptr with
        | Err e => ret (keep (set_sr_Input doc (fail_dispatch e child)))
        | Ok ptr =>
            let req := if ptr =s? "" then req else set_jr_ContextPtr ptr req in
            err <- submit run req ;;
            match err with
            | Some e => ret (keep (fail_dispatch e child))
            | None =>
                let child := set_sr_Input doc (set_sr_JobID jobID (set_sr_Attempts (sr_Attempts child + 1) (begin_step t child))) in
                appendTimeline run "step_loop_iteration" stepID jobID (status_text child) "" ""
                  [("index", AnyInt (Z.of_nat idx)); ("iteration", AnyInt (Z.of_nat idx + 1));
                   ("body_step", AnyString (st_ID bodyStep)); ("context_ptr", AnyString (jr_ContextPtr req))] ;;;
                appendTimeline run "step_dispatched" childID jobID (status_text child) "" "" [("loop_index", AnyInt (Z.of_nat idx))] ;;;
                OnStepDispatched (run_ID run) childID jobID ;;;
                ret (keep child)
            end
        end
    end.

Definition is_loop_failed (s : StepStatus) : bool :=
  match s with StepStatusFailed | StepStatusCancelled | StepStatusTimedOut => true | _ => false end.
Definition is_loop_active (s : StepStatus) : bool :=
  match s with StepStatusRunning | StepStatusWaiting | StepStatusPending => true | _ => false end.

Definition schedule_loop (run : WorkflowRun) (sr : StepRun) : M WorkflowRun :=
  let failed_start msg := close_step run stepID (fail_step msg t (start_if_nil t sr)) "step_loop_completed" "" msg [] in
  match resolveLoopConfig step with
  | Err e => failed_start e
  | Ok cfg =>
      match (if lc_body cfg =s? "" then Some step else wf_Steps wf !! lc_body cfg) with
      | None => failed_start ("loop body_step " +:+ Quote (lc_body cfg) +:+ " not found")
      | Some bodyStep =>
          let sr := if is_open (sr_Status sr) then start_if_nil t (set_sr_Status StepStatusRunning sr) else sr in
          let statuses := children_statuses run sr in
          if existsb is_loop_failed statuses then
            let sr := end_step StepStatusFailed t sr in
            let sr := match sr_Error sr with None => set_sr_Error (msg_error "loop child iteration failed") sr | Some _ => sr end in
            close_step run stepID sr "step_loop_completed" "" "loop child iteration failed" []
          else if existsb is_loop_active statuses then ret (set_step stepID sr run)
          else
            let nextIndex := length (sr_Children sr) in
            let previous := match nextIndex with
                            | O => AnyNil
                            | S i => loopPreviousOutput run (JobIds.child_id stepID i)
                            end in
            let scope := buildLoopEvalScope run nextIndex previous in
            let counts := [("iterations", AnyInt (Z.of_nat nextIndex)); ("max_iterations", AnyInt (lc_maxIterations cfg))] in
            let finished reason :=
              let sr := set_sr_Output (loop_output nextIndex previous) (set_sr_Error None (end_step StepStatusSucceeded t sr)) in
              close_step (recordStepInlineOutput (set_step stepID sr run) stepID step (sr_Output sr)) stepID sr
                "step_loop_completed" "" "" (counts ++ [("reason", AnyString reason)])%list in
            if (lc_maxIterations cfg <=? Z.of_nat nextIndex)%Z then
              if negb (lc_condition cfg =s? "") || negb (lc_until cfg =s? "") then
                let msg := "loop max_iterations exceeded (" +:+ Itoa (lc_maxIterations cfg) +:+ ")" in
                close_step run stepID (fail_step msg t sr) "step_loop_completed" "" msg counts
              else finished "max_iterations_reached"
            else match loop_continues cfg scope with
                 | Err e => close_step run stepID (fail_step e t sr) "step_loop_completed" "" e []
                 | Ok false => finished "condition_stopped"
                 | Ok true => dispatch_iteration bodyStep nextIndex previous scope run sr
                 end
      end
  end.

(** *** Parallel steps *)

Definition counts_data (strategy : string) (required total : Z) : amap :=
  [("strategy", AnyString strategy); ("required", AnyInt required); ("total", AnyInt total)].

(** The first loop of the parallel handler: link the children, up to the first one
    that cannot be; the ids seen, and the error. *)
Fixpoint init_children (owners : gmap string string) (ids seen : list string) (sr : StepRun) (run : WorkflowRun) :
    list string * StepRun * WorkflowRun * option string :=
  match ids with
  | [] => (seen, sr, run, None)
  | id :: ids =>
      let seen := (seen ++ [id])%list in
      match wf_Steps wf !! id with
      | None => (seen, sr, run, Some ("parallel child step " +:+ Quote id +:+ " not found"))
      | Some _ =>
          match owners !! id with
          | Some ownerID =>
              if negb (ownerID =s? stepID)
              then (seen, sr, run, Some ("parallel child step " +:+ Quote id +:+ " is reserved by " +:+ Quote ownerID))
              else
                let child := default (new_step_run id) (step_run run id) in
                let child := if bool_decide (sr_Status child = StepStatusNone) then set_sr_Status StepStatusPending child else child in
                let '(sr, run) := link id child sr run in
                init_children owners ids seen sr run
          | None =>
              let child := default (new_step_run id) (step_run run id) in
              let child := if bool_decide (sr_Status child = StepStatusNone) then set_sr_Status StepStatusPending child else child in
              let '(sr, run) := link id child sr run in
              init_children owners ids seen sr run
          end
      end
  end.

(** Children that are no longer listed are dropped. *)
Definition keep_children (ids : list string) (sr : StepRun) : StepRun :=
  set_sr_Children (List.filter (fun kc => existsb (String.eqb (fst kc)) ids) (sr_Children sr)) sr.

(** [cancelParallelChildren]: also the number of children cancelled. *)
Definition cancel_parallel_child (s : StepRun * WorkflowRun * Z) (id : string) : M (StepRun * WorkflowRun * Z) :=
  let '(sr, run, cancelled) := s in
  match (match child_of run sr id with Some c => Some c | None => step_run run id end) with
  | None => ret s
  | Some child =>
      if isTerminalStepStatus (sr_Status child) then ret s
      else
        (if sr_JobID child =s? "" then ret None
         else publishJobCancel (sr_JobID child) "parallel strategy satisfied" (run_Identity run)) ;;;
        let child := end_step StepStatusCancelled t child in
        let child := match sr_Error child with
                     | None => set_sr_Error (msg_error "cancelled by parallel strategy") child
                     | Some _ => child
                     end in
        let '(sr, run) := link id child sr run in
        ret (sr, run, (cancelled + 1)%Z)
  end.

Definition cancelParallelChildren (sr : StepRun) (run : WorkflowRun) (ids : list string) : M (StepRun * WorkflowRun * Z) :=
  mfold cancel_parallel_child ids (sr, run, 0%Z).

(** The state of a dispatch loop: the parent, the run, the number of running
    children and what was dispatched in this call. *)
Record dispatching := mkDispatching {
  d_parent : StepRun;
  d_run : WorkflowRun;
  d_running : Z;
  d_done : gset string;
}.

Definition d_link (id : string) (child : StepRun) (d : dispatching) : dispatching :=
  mkDispatching (link_child id (d_parent d)) (set_step id child (d_run d)) (d_running d) (d_done d).
Definition d_dispatched (id : string) (child : StepRun) (d : dispatching) : dispatching :=
  mkDispatching (link_child id (d_parent d)) (set_step id child (d_run d)) (d_running d + 1) ({[id]} ∪ d_done d).

Definition throttled (d : dispatching) : bool := (0 <? st_MaxParallel step)%Z && (st_MaxParallel step <=? d_running d)%Z.

Definition dispatch_parallel_child (id : string) (d : dispatching) : M dispatching :=
  let run := d_run d in
  match wf_Steps wf !! id with
  | None => ret d
  | Some childDef =>
      let child := default (new_step_run_status id StepStatusPending) (step_run run id) in
      if negb (is_open (sr_Status child)) then ret d
      else if bool_decide (id ∈ d_done d) then ret d
      else if waits child then scheduleAt (sr_NextAttemptAt child) t (run_WorkflowID run) (run_ID run) ;;; ret d
      else
        let jobID := JobIds.job_id (run_ID run) id (sr_Attempts child + 1) in
        let req := buildJobRequest wf run childDef id jobID in
        match buildJobPayload run childDef AnyNil with
        | Err e => ret (d_link id (fail_dispatch e child) d)
        | Ok doc =>
            ptr <- putJobContext jobID doc ;;
            match ptr with
            | Err e => ret (d_link id (set_sr_Input doc (fail_dispatch e child)) d)
            | Ok ptr =>
                let req := if ptr =s? "" then req else set_jr_ContextPtr ptr req in
                err <- submit run req ;;
                match err with
                | Some e => ret (d_link id (fail_dispatch e child) d)
                | None =>
                    let child := set_sr_Input doc (set_sr_JobID jobID (set_sr_Attempts (sr_Attempts child + 1) (begin_step t child))) in
                    appendTimeline run "step_dispatched" id jobID (status_text child) "" "" (envelope_field "context_ptr" ptr) ;;;
                    OnStepDispatched (run_ID run) id jobID ;;;
                    ret (d_dispatched id child d)
                end
            end
        end
  end.

(** A dispatch loop, left when [MaxParallel] children run. *)
Fixpoint dispatch_loop {A} (body : A -> dispatching -> M dispatching) (l : list A) (d : dispatching) : M dispatching :=
  match l with
  | [] => ret d
  | x :: l => if throttled d then ret d else d <- body x d ;; dispatch_loop body l d
  end.

Definition schedule_parallel (owners : gmap string string) (run : WorkflowRun) (sr : StepRun) (done : gset string) : M (WorkflowRun * gset string) :=
  let same (m : M WorkflowRun) := run <- m ;; ret (run, done) in
  let failed_start run sr msg := close_step run stepID (fail_step msg t (start_if_nil t sr)) "step_parallel_completed" "" msg [] in
  match resolveParallelConfig e_sandbox step (buildEvalScope run AnyNil) with
  | Err e => same (failed_start run sr e)
  | Ok cfg =>
      let ids := pcf_children cfg in
      let total := Z.of_nat (length ids) in
      let data := counts_data (pcf_strategy cfg) (pcf_required cfg) total in
      match (if managed_by owners stepID then owners !! stepID else None) with
      | Some ownerID =>
          same (failed_start run sr ("parallel step id " +:+ Quote stepID +:+ " is reserved as child of " +:+ Quote ownerID))
      | None =>
          if negb (nonempty ids) then
            let sr := set_sr_Output (AnyMap []) (end_step StepStatusSucceeded t (set_sr_StartedAt (Some t) sr)) in
            same (close_step (recordStepInlineOutput (set_step stepID sr run) stepID step (AnyMap [])) stepID sr
                    "step_parallel_completed" "" "" data)
          else
            sr <- (if is_open (sr_Status sr) then
                     let sr := start_if_nil t (set_sr_Status StepStatusRunning sr) in
                     appendTimeline run "step_parallel_started" stepID "" (status_text sr) "" "" data ;;; ret sr
                   else ret sr) ;;
            let '(seen, sr, run, initErr) := init_children owners ids [] sr run in
            let sr := keep_children seen sr in
            match initErr with
            | Some msg => same (failed_start run sr msg)
            | None =>
                let counts := summarizeParallelChildren run sr ids in
                match evaluateParallelOutcome (pcf_strategy cfg) (pcf_required cfg) total (pc_succeeded counts) (pc_failed counts) with
                | Some (success, message) =>
                    '(sr, run, cancelled) <- cancelParallelChildren sr run ids ;;
                    let data := (data ++ [("succeeded_count", AnyInt (pc_succeeded counts)); ("failed_count", AnyInt (pc_failed counts));
                                          ("cancelled_count", AnyInt cancelled)])%list in
                    if (success : bool) then
                      let aggregated := AnyMap (aggregateParallelOutputs run ids) in
                      match validateInlineOutput step aggregated with
                      | Some e => same (close_step run stepID (fail_step e t sr) "step_parallel_completed" "" e [])
                      | None =>
                          let sr := set_sr_Output aggregated (set_sr_Error None (end_step StepStatusSucceeded t sr)) in
                          same (close_step (recordStepInlineOutput (set_step stepID sr run) stepID step aggregated) stepID sr
                                  "step_parallel_completed" "" "" data)
                      end
                    else same (close_step run stepID (fail_step message t sr) "step_parallel_completed" "" message data)
                | None =>
                    d <- dispatch_loop dispatch_parallel_child ids (mkDispatching sr run (pc_running counts) done) ;;
                    ret (set_step stepID (set_sr_Status StepStatusRunning (d_parent d)) (d_run d), d_done d)
                end
            end
      end
  end.

(** *** For-each steps *)

Fixpoint precreate (n idx : nat) (sr : StepRun) (run : WorkflowRun) : StepRun * WorkflowRun :=
  match n with
  | O => (sr, run)
  | S n =>
      let childID := JobIds.child_id stepID idx in
      let '(sr, run) := match child_of run sr childID with
                        | Some _ => (sr, run)
                        | None => link childID (new_step_run_status childID StepStatusPending) sr run
                        end in
      precreate n (S idx) sr run
  end.

Definition dispatch_item (ix : nat * any) (d : dispatching) : M dispatching :=
  let '(idx, item) := ix in
  let run := d_run d in
  let childID := JobIds.child_id stepID idx in
  let child := default (new_step_run_status childID StepStatusPending) (child_of run (d_parent d) childID) in
  if negb (is_open (sr_Status child)) then ret d
  else if bool_decide (childID ∈ d_done d) then ret d
  else if waits child then scheduleAt (sr_NextAttemptAt child) t (run_WorkflowID run) (run_ID run) ;;; ret d
  else
    let jobID := JobIds.job_id (run_ID run) childID (sr_Attempts child + 1) in
    let req := set_env "foreach_index" (Itoa (Z.of_nat idx)) (buildJobRequest wf run step childID jobID) in
    let req := match e_marshal item with Some data => set_env "foreach_item" data req | None => req end in
    match buildJobPayload run step item with
    | Err e => ret (d_link childID (fail_dispatch e child) d)
    | Ok doc =>
        ptr <- putJobContext jobID doc ;;
        match ptr with
        | Err e => ret (d_link childID (set_sr_Input doc (fail_dispatch e child)) d)
        | Ok ptr =>
            let req := if ptr =s? "" then req else set_jr_ContextPtr ptr req in
            let reserved := set_sr_Item item (set_sr_Input doc (set_sr_JobID jobID
                              (set_sr_Attempts (sr_Attempts child + 1) (set_sr_StartedAt (Some t) child)))) in
            err <- submit run req ;;
            match err with
            | Some _ => ret (d_link childID (revert_dispatch (sr_Attempts child) reserved) d)
            | None =>
                let child := set_sr_Status StepStatusRunning reserved in
                appendTimeline run "step_dispatched" childID jobID (status_text child) "" ""
                  (("foreach_index", AnyInt (Z.of_nat idx)) :: envelope_field "context_ptr" ptr) ;;;
                OnStepDispatched (run_ID run) childID jobID ;;;
                ret (d_dispatched childID child d)
            end
        end
    end.

(** Dispatching resolved items. *)
Definition foreach_items (run : WorkflowRun) (sr : StepRun) (done : gset string) (items : list any) : M (WorkflowRun * gset string) :=
  if negb (nonempty items) then
    run <- close_step run stepID
             (set_sr_Output (AnyList []) (end_step StepStatusSucceeded t (set_sr_StartedAt (Some t) sr))) "step_completed" "" ""
             [("items", AnyInt 0)] ;;
    ret (run, done)
  else
    let '(sr, run) := precreate (length items) 0 sr run in
    let sr := start_if_nil t (set_sr_Status StepStatusRunning sr) in
    let running := Z.of_nat (length (List.filter (fun s => bool_decide (s = StepStatusRunning)) (children_statuses run sr))) in
    d <- dispatch_loop dispatch_item (imap pair items) (mkDispatching sr run running done) ;;
    ret (set_step stepID (d_parent d) (d_run d), d_done d).

Definition schedule_foreach (run : WorkflowRun) (sr : StepRun) (done : gset string) : M (WorkflowRun * gset string) :=
  let failed msg data :=
    run <- close_step run stepID (fail_step msg t (start_if_nil t sr)) "step_foreach_failed" "" msg data ;; ret (run, done) in
  match sr_ResolvedItems sr with
  | Some items => foreach_items run sr done items
  | None =>
      match evalForEach e_sandbox (st_ForEach step) (buildEvalScope run AnyNil) with
      | Err e => failed e []
      | Ok items =>
          let n := Z.of_nat (length items) in
          if (0 <? e_maxForEachItems)%Z && (e_maxForEachItems <? n)%Z then
            failed ("for_each fan-out exceeds limit (" +:+ Itoa n +:+ " > " +:+ Itoa e_maxForEachItems +:+ ")")
              [("count", AnyInt n); ("limit", AnyInt e_maxForEachItems)]
          else foreach_items run (set_sr_ResolvedItems (Some items) sr) done items
      end
  end.

(** *** Worker steps, and steps of a type without a handler *)

Definition schedule_worker (run : WorkflowRun) (sr : StepRun) : M WorkflowRun :=
  if waits sr then scheduleAt (sr_NextAttemptAt sr) t (run_WorkflowID run) (run_ID run) ;;; ret (set_step stepID sr run)
  else
    let attempt := (sr_Attempts sr + 1)%Z in
    let jobID := JobIds.job_id (run_ID run) stepID attempt in
    let req := buildJobRequest wf run step stepID jobID in
    let meta := default zero_metadata (jr_Meta req) in
    let meta := if TrimSpace (jm_IdempotencyKey meta) =s? ""
                then set_idempotency ("wf:" +:+ run_ID run +:+ ":" +:+ stepID +:+ ":" +:+ Itoa attempt) meta else meta in
    let req := set_jr_Meta (Some meta) req in
    match buildJobPayload run step AnyNil with
    | Err e => close_step run stepID (fail_dispatch e sr) "step_failed" jobID e []
    | Ok doc =>
        ptr <- putJobContext jobID doc ;;
        match ptr with
        | Err e => close_step run stepID (set_sr_Input doc (fail_dispatch e sr)) "step_failed" jobID e []
        | Ok ptr =>
            let req := if ptr =s? "" then req else set_jr_ContextPtr ptr req in
            let sr := set_sr_Input (merge_input doc (sr_Input sr)) (set_sr_JobID jobID (set_sr_Attempts attempt (begin_step t sr))) in
            '(run, err) <- update_run (set_step stepID sr run) ;;
            let sr := default sr (step_run run stepID) in
            match err with
            | Some _ => ret (set_step stepID (revert_dispatch (attempt - 1) sr) run)
            | None =>
                err <- submit run req ;;
                match err with
                | Some _ =>
                    '(run, _) <- update_run (set_step stepID (revert_dispatch (attempt - 1) sr) run) ;;
                    ret run
                | None =>
                    appendTimeline run "step_dispatched" stepID jobID (status_text sr) "" "" (envelope_field "context_ptr" ptr) ;;;
                    OnStepDispatched (run_ID run) stepID jobID ;;;
                    ret run
                end
            end
        end
    end.

(** *** The guards *)

(** Whether a step in this status may be looked at again: nothing has happened to
    it, it waits, or it orchestrates children and still runs; a delay always. *)
Definition may_schedule (s : StepStatus) : bool :=
  match s with
  | StepStatusNone | StepStatusPending | StepStatusWaiting => true
  | _ =>
      let orchestrates := negb (st_ForEach step =s? "")
                          || match st_Type step with StepTypeParallel | StepTypeLoop | StepTypeSubWorkflow => true | _ => false end in
      if orchestrates then bool_decide (s = StepStatusRunning)
      else match st_Type step with StepTypeDelay => true | _ => false end
  end.

(** A step that is the target of an [on_error] waits for its activation. *)
Definition handler_inactive (sr : StepRun) : bool :=
  isOnErrorTarget wf stepID
  && (bool_decide (sr_Status sr = StepStatusNone) || is_nil (default AnyNil (aget (sr_Input sr) "error"))).

Definition handle_step (start : string -> string -> M (option string)) (owners : gmap string string)
    (run : WorkflowRun) (sr : StepRun) (done : gset string) : M (WorkflowRun * gset string) :=
  let same (m : M WorkflowRun) := run <- m ;; ret (run, done) in
  match st_Type step with
  | StepTypeCondition => same (schedule_condition run sr)
  | StepTypeApproval => same (schedule_approval run sr)
  | StepTypeDelay => same (schedule_delay run sr)
  | StepTypeNotify => same (schedule_notify run sr)
  | StepTypeTransform => same (schedule_transform run sr)
  | StepTypeSwitch => same (schedule_switch run sr)
  | StepTypeSubWorkflow => same (schedule_subworkflow start run sr)
  | StepTypeParallel => schedule_parallel owners run sr done
  | StepTypeLoop => same (schedule_loop run sr)
  | ty =>
      if negb (st_ForEach step =s? "") then schedule_foreach run sr done
      else match ty with
           | StepTypeStorage => same (schedule_storage run sr)
           | _ => same (schedule_worker run sr)
           end
  end.

(** The body of the loop over the steps. *)
Definition schedule_step (start : string -> string -> M (option string)) (owners loops : gmap string string)
    (s : WorkflowRun * gset string) : M (WorkflowRun * gset string) :=
  let '(run, done) := s in
  if managed_by owners stepID || managed_by loops stepID then ret s
  else
    let sr := default (new_step_run stepID) (step_run run stepID) in
    if negb (may_schedule (sr_Status sr)) then ret s
    else if negb (depsSatisfied step run wf) then ret s
    else if handler_inactive sr then ret s
    else
      gated <- condition_gate run sr ;;
      match gated with
      | Some run => ret (run, done)
      | None => handle_step start owners run sr done
      end.

End Step.

(** ** Passes *)

Definition countTerminalSteps (run : WorkflowRun) : nat :=
  length (List.filter (fun kv => isTerminalStepStatus (sr_Status (snd kv))) (map_to_list (run_Steps run))).

(** The handlers of the steps that failed in a pass.  The code ranges over
    [run.Steps] while it adds handlers to it; whether an added one is visited does
    not matter, since it is pending. *)
Definition activate_failed (wf : Workflow) (run : WorkflowRun) : M WorkflowRun :=
  mfold (fun run '(sid, sr) =>
           match sr_Status sr with
           | StepStatusFailed | StepStatusTimedOut => activateOnErrorHandler run wf sid sr
           | _ => ret run
           end) (range_map (run_Steps run)) run.

Definition schedule_pass (start : string -> string -> M (option string)) (wf : Workflow) (t : Z)
    (s : WorkflowRun * gset string) : M (WorkflowRun * gset string) :=
  let owners := collectParallelChildOwners wf in
  let loops := collectLoopBodyOwners wf in
  tr <- trace ;;
  '(run, done) <- mfold (fun s '(stepID, step) => schedule_step wf t stepID step start owners loops s)
                    (e_step_order tr (wf_Steps wf)) s ;;
  run <- activate_failed wf run ;;
  ret (run, done).

Fixpoint schedule_passes (n : nat) (start : string -> string -> M (option string)) (wf : Workflow) (t : Z)
    (s : WorkflowRun * gset string) : M (WorkflowRun * gset string) :=
  match n with
  | O => ret s
  | S n =>
      s' <- schedule_pass start wf t s ;;
      if (countTerminalSteps (fst s') <=? countTerminalSteps (fst s))%nat then ret s'
      else schedule_passes n start wf t s'
  end.

End Schedule.
