(* ===== verification/WorkflowEngine.v ===== *)
(** * The workflow engine's operations

    The entry points of core/workflow: starting and advancing a run
    (engine_state.go [StartRun], engine.go [scheduleReady]), results of jobs
    (engine.go [handleJobResultLocked]), approvals, cancellation, timeouts and
    reruns (engine_state.go), the delay timers (engine_events.go) and the
    reconciler (reconciler.go).

    A per-run lock serialises the operations on a run, so each of them is one
    computation.  [StartRun] calls itself for sub-workflows: [fuel] bounds the
    depth, and running out of it is the event [EvDiverged]. *)
From S2P Require Import Prelude.
From S2P Require Import GoStrings.
From S2P Require Import PolicyTypes.
From S2P Require Import GoValues.
From S2P Require Import Licensing.
From S2P Require Import WorkflowModels.
From S2P Require Import JobIdentity.
From S2P Require Import WorkflowHelpers.
From S2P Require Import WorkflowState.
From S2P Require Import WorkflowEval.
From S2P Require Import WorkflowStore.
From S2P Require Import WorkflowJob.
From S2P Require Import WorkflowSchedule.

Open Scope string_scope.

Section Engine.
Context `{GoRuntime} `{FloatPrinter} `{FloatParser} `{ExprEngine} `{EngineEnv}.

(** ** Limits of the licence *)

Definition approvalModeLimit : string :=
  let mode := TrimSpace (en_ApprovalMode e_entitlements) in
  if mode =s? "" then "single" else mode.

Definition requestedApprovalModeForWorkflow (wf : Workflow) : string :=
  let approvals : gset string :=
    dom (filter (fun kv => st_Type (snd kv) = StepTypeApproval) (wf_Steps wf)) in
  let chained id :=
    match wf_Steps wf !! id with
    | None => false
    | Some step =>
        existsb (fun dep => bool_decide (TrimSpace dep ∈ approvals)) (st_DependsOn step)
        || (negb (TrimSpace (st_OnError step) =s? "") && bool_decide (TrimSpace (st_OnError step) ∈ approvals))
    end in
  match size approvals with
  | O => ""
  | S O => "single"
  | _ => if existsb chained (elements approvals) then "custom" else "multi"
  end.

Definition validateWorkflowDefinition (wf : Workflow) : option string :=
  match CheckWorkflowSteps (Z.of_nat (size (wf_Steps wf))) e_entitlements with
  | Some e => Some (TierLimitError_Error e)
  | None =>
      let requested := requestedApprovalModeForWorkflow wf in
      if requested =s? "" then None
      else TierLimitError_Error <$> CheckApprovalMode requested approvalModeLimit
  end.

(** ** Cancelling a run's jobs *)

(** [for stepID := range wfDef.Steps { if absent, run.Steps[stepID] = &StepRun{StepID: stepID} }]. *)
Definition ensure_steps (wf : Workflow) (run : WorkflowRun) : WorkflowRun :=
  set_run_Steps (run_Steps run ∪ map_imap (fun id _ => Some (new_step_run id)) (wf_Steps wf)) run.

(** The loop over [run.Steps]: the jobs to cancel, and every step run closed.  A
    child shared with [run.Steps] is closed at its own entry. *)
Definition close_steps (close : StepRun -> StepRun) (run : WorkflowRun) : list string * WorkflowRun :=
  (concat (map (fun kv => collectCancelableJobs (snd kv)) (range_map (run_Steps run))),
   set_run_Steps (close <$> run_Steps run) run).

(** Publish one cancel per job; the jobs whose cancel could not be published. *)
Definition cancel_jobs (jobs : list string) (reason : string) (identity : option IdentityBinding) : M (list string) :=
  '(_, failed) <- mfold (fun '(seen, failed) jobID =>
      if (jobID =s? "") || bool_decide (jobID ∈ (seen : gset string)) then ret (seen, failed)
      else
        err <- publishJobCancel jobID reason identity ;;
        ret ({[jobID]} ∪ seen, match err with Some _ => (failed ++ [jobID])%list | None => failed end))
    jobs (∅, []) ;;
  ret failed.

(** The tail shared by [CancelRun] and [timeoutRun]. *)
Definition close_run (run : WorkflowRun) (jobs : list string) (updating what after reason text : string) (data : amap) : M (WorkflowRun * option string) :=
  '(run, err) <- update_run run ;;
  match err with
  | Some e => ret (run, Some (updating +:+ " update run " +:+ run_ID run +:+ ": " +:+ e))
  | None =>
      markRunTerminal (run_ID run) ;;;
      appendTimeline run "run_status" "" "" (string_of_run_status (run_Status run)) "" text data ;;;
      failed <- cancel_jobs jobs reason (run_Identity run) ;;
      if nonempty failed then
        let n := Itoa (Z.of_nat (length failed)) in
        appendTimeline run "cancel_publish_failed" "" "" "error" ""
          ("failed to cancel " +:+ n +:+ " job(s)" +:+ after +:+ " — these jobs may still be running")
          [("orphaned_job_ids", AnyStrings failed)] ;;;
        ret (run, Some (what +:+ " " +:+ run_ID run +:+ ": " +:+ n +:+ " cancel publish failures (jobs: [" +:+ Join failed " " +:+ "])"))
      else ret (run, None)
  end.

Definition timeoutRun (wf : Workflow) (run : WorkflowRun) (t : Z) : M (WorkflowRun * option string) :=
  let '(jobs, run) := close_steps (timeoutStepRun t) (ensure_steps wf run) in
  let run := set_run_Error (aset (run_Error run) "message" (AnyString "workflow run timed out"))
               (set_run_UpdatedAt t (finish_run RunStatusTimedOut t run)) in
  close_run run jobs "workflow enforce timeout" "workflow timeout run" " after timeout" "workflow run timed out" "run timed out" [("timeout_sec", AnyInt64 (wf_TimeoutSec wf))].

(** The time a run's timeout counts from. *)
Definition timeout_start (run : WorkflowRun) : option Z :=
  match run_StartedAt run with
  | Some s => Some s
  | None => match run_Status run with
            | RunStatusPending => None
            | _ => if (run_CreatedAt run =? 0)%Z then None else Some (run_CreatedAt run)
            end
  end.

Definition timeout_due (wf : Workflow) (run : WorkflowRun) (t : Z) : bool :=
  (0 <? wf_TimeoutSec wf)%Z && negb (isTerminalRunStatus (run_Status run))
  && match timeout_start run with
     | None => false
     | Some s => negb (t <? s + wrap64 (wf_TimeoutSec wf * second))%Z
     end.

(** [Ok true] when the run timed out now. *)
Definition enforceWorkflowTimeout (wf : Workflow) (run : WorkflowRun) (t : Z) : M (WorkflowRun * result string bool) :=
  if timeout_due wf run t then
    '(run, err) <- timeoutRun wf run t ;;
    ret (run, match err with Some e => Err e | None => Ok true end)
  else ret (run, Ok false).

(** ** Advancing a run *)

Definition status_event (prev : RunStatus) (run : WorkflowRun) : M unit :=
  if bool_decide (prev = run_Status run) then ret tt
  else appendTimeline run "run_status" "" "" (string_of_run_status (run_Status run)) "" "" [].

Definition scheduleReady (start : string -> string -> M (option string)) (wf : Workflow) (run : WorkflowRun) : M (WorkflowRun * option string) :=
  if isTerminalRunStatus (run_Status run) then markRunTerminal (run_ID run) ;;; ret (run, None)
  else
    t <- now ;;
    let prev := run_Status run in
    let run := if bool_decide (run_Status run = RunStatusPending)
               then set_run_StartedAt (Some t) (set_run_Status RunStatusRunning run) else run in
    '(run, timed) <- enforceWorkflowTimeout wf run t ;;
    match timed with
    | Err e => ret (run, Some ("workflow schedule ready enforce timeout for run " +:+ run_ID run +:+ ": " +:+ e))
    | Ok true => ret (run, None)
    | Ok false =>
        '(run, _) <- schedule_passes (Nat.max 1 (size (wf_Steps wf))) start wf t (run, ∅) ;;
        skipNow <- now ;;
        let run := updateRunStatus run wf t skipNow in
        status_event prev run ;;;
        '(run, err) <- update_run (set_run_UpdatedAt t run) ;;
        match err with
        | Some e => ret (run, Some ("workflow schedule ready update run " +:+ run_ID run +:+ ": " +:+ e))
        | None =>
            (if isTerminalRunStatus (run_Status run) then markRunTerminal (run_ID run) else ret tt) ;;;
            ret (run, None)
        end
    end.

(** [startRunLocked]. *)
Definition fail_orphan (run : WorkflowRun) : M (option string) :=
  t <- now ;;
  let run := set_run_Error [("message", AnyString "workflow deleted")] (finish_run RunStatusFailed t run) in
  '(run, err) <- update_run run ;;
  match err with
  | Some e => ret (Some ("update orphaned run " +:+ run_ID run +:+ ": " +:+ e))
  | None => markRunTerminal (run_ID run) ;;; ret None
  end.

(** From the point where the workflow and the run are loaded. *)
Definition advance_run (start : string -> string -> M (option string)) (wf : Workflow) (run : WorkflowRun) : M (option string) :=
  let go := '(_, err) <- scheduleReady start wf run ;; ret err in
  if isTerminalRunStatus (run_Status run) then markRunTerminal (run_ID run) ;;; ret None
  else match run_Status run with
       | RunStatusPending =>
           match validateWorkflowDefinition wf with
           | Some e => ret (Some e)
           | None =>
               if TrimSpace (run_OrgID run) =s? "" then go
               else
                 count <- count_active (run_OrgID run) ;;
                 match count with
                 | Err e => ret (Some ("count active runs: " +:+ e))
                 | Ok n => match CheckActiveWorkflows n e_entitlements with
                           | Some e => ret (Some (TierLimitError_Error e))
                           | None => go
                           end
                 end
           end
       | _ => go
       end.

Definition startRunLocked (start : string -> string -> M (option string)) (workflowID runID : string) : M (option string) :=
  got <- get_workflow workflowID ;;
  match got with
  | Ok wf =>
      got <- get_run runID ;;
      match got with
      | Err e => ret (Some ("get run: " +:+ read_error_text e))
      | Ok run => advance_run start wf run
      end
  | Err (ReadFailed e) => ret (Some ("get workflow: " +:+ e))
  | Err ReadNil =>
      got <- get_run runID ;;
      match got with
      | Err _ => ret (Some "get workflow: redis: nil")
      | Ok run =>
          again <- get_workflow workflowID ;;
          match again with
          | Ok wf => advance_run start wf run
          | Err (ReadFailed e) => ret (Some ("get workflow retry: " +:+ e))
          | Err ReadNil => fail_orphan run
          end
      end
  end.

(** Whether the run's lock was obtained; a lock service that errs counts as
    obtained. *)
Definition lockRun (runID : string) : M bool :=
  tr <- trace ;;
  let ok := e_lock_acquired tr runID in
  log (EvLock runID ok) ;;; ret ok.

Fixpoint StartRun (fuel : nat) (workflowID runID : string) : M (option string) :=
  match fuel with
  | O => log (EvDiverged runID) ;;; ret None
  | S fuel =>
      ok <- lockRun runID ;;
      if (ok : bool) then startRunLocked (StartRun fuel) workflowID runID else ret None
  end.

(** The entry point of a caller that holds the run's distributed lock. *)
Definition startRunLockHeld (fuel : nat) (workflowID runID : string) : M (option string) :=
  startRunLocked (StartRun fuel) workflowID runID.

(** ** Results of jobs *)

Definition cancel_sibling (t : Z) (s : StepRun * WorkflowRun) (kc : string * child_ref StepRun) : M (StepRun * WorkflowRun) :=
  let '(parent, run) := s in
  let id := fst kc in
  match child_of run parent id with
  | None => ret s
  | Some child =>
      if isTerminalStepStatus (sr_Status child) then ret s
      else
        (if sr_JobID child =s? "" then ret None
         else publishJobCancel (sr_JobID child) "forEach sibling failed" (run_Identity run)) ;;;
        let child := end_step StepStatusCancelled t child in
        let child := match sr_Error child with
                     | None => set_sr_Error (msg_error "cancelled: forEach sibling failed") child
                     | Some _ => child
                     end in
        let '(parent, run) := link id child parent run in
        appendTimeline run "step_foreach_orphan_cancelled" id (sr_JobID child) (status_text child) "" "forEach sibling failed" [] ;;;
        ret (parent, run)
  end.

Definition cancelForEachSiblings (t : Z) (parent : StepRun) (run : WorkflowRun) : M (StepRun * WorkflowRun) :=
  mfold (cancel_sibling t) (range_amap (sr_Children parent)) (parent, run).

(** Failed, denied or timed out. *)
Definition is_failure (s : StepStatus) : bool :=
  match s with StepStatusFailed | StepStatusDenied | StepStatusTimedOut => true | _ => false end.

(** What both branches of [handleJobResultLocked] do to the step run the result is
    for: the run, the step run and the retry delay; [None] when the result is
    ignored. *)
Definition accept_result (run : WorkflowRun) (stepID : string) (sr : StepRun) (stepDef : option Step) (res : JobResult)
    (applyOutputPath : bool) : M (option (WorkflowRun * StepRun * option Z)) :=
  if negb (sr_JobID sr =s? "") && negb (sr_JobID sr =s? res_JobId res) then ret None
  else
    let sr := if sr_JobID sr =s? "" then set_sr_JobID (res_JobId res) sr else sr in
    let attempt := JobIds.parseAttempt (res_JobId res) in
    let sr := if (sr_Attempts sr <? attempt)%Z then set_sr_Attempts attempt sr else sr in
    if shouldIgnoreProcessedResult sr then ret None
    else
      t <- now ;;
      let '(sr, retry) := applyResult t sr res stepDef in
      '(run, sr) <- (if bool_decide (retry = None) && bool_decide (sr_Status sr = StepStatusSucceeded) && hasJobResultResource res
                     then processStepOutput run stepID stepDef sr res applyOutputPath else ret (run, sr)) ;;
      (if bool_decide (retry = None) && isTerminalStepStatus (sr_Status sr)
       then appendTimeline run "step_completed" stepID (res_JobId res) (status_text sr) "" (res_ErrorMessage res) []
       else ret tt) ;;;
      ret (Some (run, sr, retry)).

(** The retry timer and the finished hook at the end of both branches. *)
Definition after_result (run : WorkflowRun) (stepID : string) (sr : StepRun) (retry : option Z) : M unit :=
  match retry with
  | Some delay => scheduleAfter delay (run_WorkflowID run) (run_ID run)
  | None => if isTerminalStepStatus (sr_Status sr) then OnStepFinished (run_ID run) stepID (sr_Status sr) else ret tt
  end.

Definition apply_child_result (wf : Workflow) (run : WorkflowRun) (stepID base : string) (res : JobResult) (t : Z) : M (option WorkflowRun) :=
  let stepDef := wf_Steps wf !! base in
  let parent := default (new_step_run base) (step_run run base) in
  let child := match child_of run parent stepID with
               | Some c => c
               | None => default (new_step_run stepID) (step_run run stepID)
               end in
  accepted <- accept_result run stepID child stepDef res false ;;
  match accepted with
  | None => ret None
  | Some (run, child, retry) =>
      let '(parent, run) := link stepID child parent run in
      let is_loop := match stepDef with Some s => bool_decide (st_Type s = StepTypeLoop) | None => false end in
      let parent :=
        if is_loop then set_sr_CompletedAt None (set_sr_Status StepStatusRunning parent)
        else
          let s := aggregateChildren run parent in
          let parent := set_sr_Status s parent in
          match s with
          | StepStatusSucceeded | StepStatusFailed | StepStatusDenied | StepStatusTimedOut => set_sr_CompletedAt (Some t) parent
          | _ => parent
          end in
      let for_each := match stepDef with Some s => negb (st_ForEach s =s? "") | None => false end in
      '(parent, run) <- (if is_failure (sr_Status parent) && for_each
                         then cancelForEachSiblings t parent run else ret (parent, run)) ;;
      let run := set_step base parent run in
      run <- (if is_failure (sr_Status parent) then activateOnErrorHandler run wf base parent else ret run) ;;
      after_result run stepID child retry ;;;
      ret (Some run)
  end.

Definition apply_step_result (wf : Workflow) (run : WorkflowRun) (stepID : string) (res : JobResult) : M (option WorkflowRun) :=
  let sr := default (new_step_run stepID) (step_run run stepID) in
  accepted <- accept_result run stepID sr (wf_Steps wf !! stepID) res true ;;
  match accepted with
  | None => ret None
  | Some (run, sr, retry) =>
      let run := set_step stepID sr run in
      run <- (if bool_decide (retry = None) && is_failure (sr_Status sr) then activateOnErrorHandler run wf stepID sr else ret run) ;;
      after_result run stepID sr retry ;;;
      ret (Some run)
  end.

(** Why a result handler returns an error: the run is gone, or something transient. *)
Inductive result_error : Set := ErrRunNotFound | ErrTransient (msg : string).

(** Up to two attempts to store the run. *)
Definition update_run_twice (run : WorkflowRun) : M (WorkflowRun * option string) :=
  '(run, err) <- update_run run ;;
  match err with
  | None => ret (run, None)
  | Some _ => update_run run
  end.

Definition handleJobResultLocked (fuel : nat) (res : JobResult) (runID stepID : string) : M (option result_error) :=
  got <- get_run runID ;;
  match got with
  | Err ReadNil => ret (Some ErrRunNotFound)
  | Err (ReadFailed e) => ret (Some (ErrTransient ("get run " +:+ runID +:+ ": " +:+ e)))
  | Ok run =>
      if e_productionIdentity && negb (sameWorkflowIdentity (run_Identity run) (res_Identity res)) then ret None
      else if isTerminalRunStatus (run_Status run) then markRunTerminal (run_ID run) ;;; ret None
      else
        got <- get_workflow (run_WorkflowID run) ;;
        match got with
        | Err e => ret (Some (ErrTransient ("get workflow " +:+ run_WorkflowID run +:+ ": " +:+ read_error_text e)))
        | Ok wf =>
            t <- now ;;
            '(run, timed) <- enforceWorkflowTimeout wf run t ;;
            match timed with
            | Err _ | Ok true => ret None
            | Ok false =>
                let prev := run_Status run in
                let '(base, childKey) := JobIds.splitForEachStep stepID in
                applied <- (if childKey =s? "" then apply_step_result wf run stepID res
                            else apply_child_result wf run stepID base res t) ;;
                match applied with
                | None => ret None
                | Some run =>
                    skipNow <- now ;;
                    let run := updateRunStatus (set_run_UpdatedAt t run) wf t skipNow in
                    status_event prev run ;;;
                    '(run, err) <- update_run_twice run ;;
                    match err with
                    | Some e => ret (Some (ErrTransient ("update run after job result: " +:+ e)))
                    | None =>
                        (if isTerminalRunStatus (run_Status run) then markRunTerminal (run_ID run) else ret tt) ;;;
                        (if bool_decide (run_Status run = RunStatusRunning)
                         then '(_, _) <- scheduleReady (StartRun fuel) wf run ;; ret tt else ret tt) ;;;
                        ret None
                    end
                end
            end
        end
  end.

(** [prepareJobResult]: the run and the step a result is for. *)
Definition prepareJobResult (res : JobResult) : option (string * string) :=
  if res_JobId res =s? "" then None
  else let '(runID, stepID) := JobIds.splitJobID (res_JobId res) in
       if (runID =s? "") || (stepID =s? "") then None else Some (runID, stepID).

Definition HandleJobResult (fuel : nat) (res : JobResult) : M (option result_error) :=
  match prepareJobResult res with
  | None => ret None
  | Some (runID, stepID) =>
      ok <- lockRun runID ;;
      if (ok : bool) then handleJobResultLocked fuel res runID stepID else ret None
  end.

Definition handleJobResultLockHeld (fuel : nat) (res : JobResult) : M (option result_error) :=
  match prepareJobResult res with
  | None => ret None
  | Some (runID, stepID) => handleJobResultLocked fuel res runID stepID
  end.

(** ** Approvals *)

Definition ApproveStep (fuel : nat) (runID stepID : string) (approved : bool) : M (option string) :=
  ok <- lockRun runID ;;
  if negb ok then ret (Some ("run " +:+ runID +:+ " is being processed by another replica")) else
  got <- get_run runID ;;
  match got with
  | Err e => ret (Some ("get run: " +:+ read_error_text e))
  | Ok run =>
      got <- get_workflow (run_WorkflowID run) ;;
      match got with
      | Err e => ret (Some ("get workflow: " +:+ read_error_text e))
      | Ok wf =>
          t <- now ;;
          '(run, timed) <- enforceWorkflowTimeout wf run t ;;
          match timed with
          | Err e => ret (Some ("workflow approve step enforce timeout for run " +:+ runID +:+ ": " +:+ e))
          | Ok true => ret (Some "run timed out")
          | Ok false =>
              if isTerminalRunStatus (run_Status run)
              then ret (Some ("run terminal: cannot approve step in run with status " +:+ string_of_run_status (run_Status run)))
              else match step_run run stepID with
                   | None => ret (Some "step not found")
                   | Some sr =>
                       if negb (bool_decide (sr_Status sr = StepStatusWaiting)) then ret (Some "step not waiting")
                       else
                         let prev := run_Status run in
                         let sr := end_step (if approved then StepStatusSucceeded else StepStatusFailed) t sr in
                         let run := set_step stepID sr run in
                         run <- (if approved then ret run
                                 else activateOnErrorHandler run wf stepID
                                        (set_sr_Error (msg_error "approval denied") sr)) ;;
                         skipNow <- now ;;
                         let run := updateRunStatus run wf t skipNow in
                         appendTimeline run (if approved then "step_approved" else "step_rejected") stepID "" (status_text sr) "" "" [] ;;;
                         status_event prev run ;;;
                         '(run, err) <- update_run run ;;
                         match err with
                         | Some e => ret (Some ("workflow approve step update run " +:+ runID +:+ ": " +:+ e))
                         | None =>
                             (if isTerminalRunStatus (run_Status run) then markRunTerminal (run_ID run) else ret tt) ;;;
                             (if bool_decide (run_Status run = RunStatusRunning)
                              then '(_, err) <- scheduleReady (StartRun fuel) wf run ;; ret err else ret None)
                         end
                   end
          end
      end
  end.

(** ** Cancellation *)

Definition CancelRun (runID : string) : M (option string) :=
  ok <- lockRun runID ;;
  if negb ok then ret (Some ("run " +:+ runID +:+ " is being processed by another replica")) else
  got <- get_run runID ;;
  match got with
  | Err e => ret (Some ("get run: " +:+ read_error_text e))
  | Ok run =>
      if isTerminalRunStatus (run_Status run) then ret None
      else
        got <- get_workflow (run_WorkflowID run) ;;
        match got with
        | Err e => ret (Some ("get workflow: " +:+ read_error_text e))
        | Ok wf =>
            t <- now ;;
            let '(jobs, run) := close_steps (cancelStepRun t) (ensure_steps wf run) in
            let run := set_run_UpdatedAt t (finish_run RunStatusCancelled t run) in
            '(_, err) <- close_run run jobs "workflow cancel run" "workflow cancel run" "" "workflow run cancelled" "run cancelled" [] ;;
            ret err
        end
  end.

(** ** Reruns *)

(** [cloneContextForDeps]. *)
Definition cloneContextForDeps (ctx : option amap) (deps : gset string) : option amap :=
  match ctx with
  | None => None
  | Some ctx =>
      Some (match aget ctx "steps" with
            | Some (AnyMap steps) =>
                aset ctx "steps" (AnyMap (List.filter (fun kv => bool_decide (fst kv ∈ deps)) steps))
            | _ => ctx
            end)
  end.

(** [cloneStepRun]: a JSON round trip, or the id and the status when it fails. *)
Definition cloneStepRun (run : WorkflowRun) (sr : StepRun) : StepRun :=
  default (new_step_run_status (sr_StepID sr) (sr_Status sr))
    (json_step (json_shared (S (size (run_Steps run))) run) sr).

Definition not_succeeded (run : WorkflowRun) (id : string) : bool :=
  negb (bool_decide (status_of run id = StepStatusSucceeded)).

Definition rerun_steps (run : WorkflowRun) (deps : gset string) : gmap string StepRun :=
  cloneStepRun run <$> filter (fun kv => fst kv ∈ deps) (run_Steps run).

Definition rerun_of (run : WorkflowRun) (newID stepID : string) (dryRun : bool) (deps : gset string) (t : Z) : WorkflowRun :=
  let metadata := <["rerun_of" := run_ID run]> (run_Metadata run) in
  let metadata := if stepID =s? "" then metadata else <["rerun_step" := stepID]> metadata in
  let metadata := if dryRun then <["dry_run" := "true"]> metadata else metadata in
  let labels := if dryRun then <["dry_run" := "true"]> (run_Labels run) else run_Labels run in
  mkWorkflowRun newID (run_WorkflowID run) (run_OrgID run) (run_TeamID run) (run_Input run)
    (cloneContextForDeps (run_Context run) deps) RunStatusPending None None [] [] (rerun_steps run deps)
    (run_TriggeredBy run) (run_Identity run) t t labels metadata "" (run_ID run) stepID dryRun.

Definition RerunFrom (runID stepID : string) (dryRun : bool) : M (result string string) :=
  ok <- lockRun runID ;;
  if negb ok then ret (Err ("run " +:+ runID +:+ " is being processed by another replica")) else
  if runID =s? "" then ret (Err "run id required") else
  got <- get_run runID ;;
  match got with
  | Err e => ret (Err ("get run: " +:+ read_error_text e))
  | Ok run =>
      got <- get_workflow (run_WorkflowID run) ;;
      match got with
      | Err e => ret (Err ("get workflow: " +:+ read_error_text e))
      | Ok wf =>
          if negb (stepID =s? "") && bool_decide (wf_Steps wf !! stepID = None) then ret (Err "step not found")
          else
            let deps := if stepID =s? "" then ∅ else collectDependencies (dep_fuel wf) wf stepID ∅ in
            newID <- new_uuid ;;
            t <- now ;;
            match List.find (not_succeeded run) (elements deps) with
            | Some depID => ret (Err ("dependency " +:+ depID +:+ " not succeeded"))
            | None =>
                err <- create_run (rerun_of run newID stepID dryRun deps t) ;;
                ret (match err with Some e => Err e | None => Ok newID end)
            end
      end
  end.

(** ** Delay timers *)

(** A timer that fires: resume the run, then drop the durable timer. *)
Definition fire_timer (fuel : nat) (workflowID runID : string) : M unit :=
  err <- StartRun fuel workflowID runID ;;
  match err with
  | Some _ => ret tt
  | None => st <- store ;; put_store (RemoveDelayTimer workflowID runID st)
  end.

(** Start the runs of popped delay members. *)
Definition start_members (fuel : nat) (members : list string) : M unit :=
  mfold (fun _ member =>
           let '(wfID, rID) := splitDelayMember member in
           if (wfID =s? "") || (rID =s? "") then ret tt
           else '_ <- StartRun fuel wfID rID ;; ret tt) members tt.

(** One tick of the poller: the due timers are popped and their runs started. *)
Definition poll_delays (fuel : nat) : M unit :=
  t <- now ;;
  st <- store ;;
  let '(fired, st) := PopFiredDelays t st in
  put_store st ;;; start_members fuel fired.

Definition recoverDelayTimers (fuel : nat) : M unit :=
  t <- now ;;
  st <- store ;;
  let '(fired, st) := PopFiredDelays t st in
  put_store st ;;;
  start_members fuel fired ;;;
  st <- store ;;
  mfold (fun _ '(member, score) =>
           let '(wfID, rID) := splitDelayMember member in
           if (wfID =s? "") || (rID =s? "") then ret tt
           else
             let remaining := time_sub (score * second) t in
             scheduleAfter (if (remaining <=? 0)%Z then 1000000%Z else remaining) wfID rID)
    (ListFutureDelays t st) tt.

End Engine.
