(* ===== verification/WorkflowReconciler.v ===== *)
(** * The reconciler of the workflow engine

    core/workflow/reconciler.go: runs that are not terminal are advanced from the
    stored state of their jobs, approval steps whose gate job was never published
    are sent again a bounded number of times, and the jobs of cancelled or timed
    out runs that still run are cancelled again.

    The job store is a parameter: the state, the result pointer and the failure
    reason of a job, and the run locks. *)
From S2P Require Import Prelude.
From S2P Require Import GoStrings.
From S2P Require Import PolicyTypes.
From S2P Require Import GoValues.
From S2P Require Import JobRuntime.
From S2P Require Import Licensing.
From S2P Require Import WorkflowModels.
From S2P Require Import WorkflowHelpers.
From S2P Require Import WorkflowState.
From S2P Require Import WorkflowEval.
From S2P Require Import WorkflowStore.
From S2P Require Import WorkflowJob.
From S2P Require Import WorkflowSchedule.
From S2P Require Import WorkflowEngine.

Open Scope string_scope.

Section Reconciler.
Context `{GoRuntime} `{FloatPrinter} `{FloatParser} `{ExprEngine} `{EngineEnv}.

(** The job store: [Err None] is [redis.Nil]; a lock is obtained, busy or an error. *)
Context (job_state : list Event -> string -> result (option string) string)
        (job_result_ptr : list Event -> string -> result string string)
        (job_failure : list Event -> string -> result string string)
        (try_lock : list Event -> string -> result string bool).

Definition isActiveJobState (state : string) : bool :=
  (state =s? JobStateRunning) || (state =s? JobStateDispatched).

Definition jobStatusFromState (state : string) : JobStatus :=
  if state =s? JobStateSucceeded then JOB_STATUS_SUCCEEDED
  else if state =s? JobStateFailed then JOB_STATUS_FAILED
  else if state =s? JobStateTimeout then JOB_STATUS_TIMEOUT
  else if state =s? JobStateDenied then JOB_STATUS_DENIED
  else if state =s? JobStateCancelled then JOB_STATUS_CANCELLED
  else JOB_STATUS_UNSPECIFIED.

(** ** Approval steps that never got their job *)

Definition gracePeriod : Z := 30 * second.
Definition maxRetries : Z := 3.

Definition reconcileRetryCount (sr : StepRun) : Z :=
  match sr_Error sr with
  | None => 0
  | Some err =>
      match aget err "_reconcile_retries" with
      | Some (AnyFloat64 f) => float_to_int64 f
      | Some (AnyInt z) => z
      | _ => 0
      end
  end.

(** The step run after recovery; [None] when there is nothing to recover. *)
Definition recover_waiting (t : Z) (state : result (option string) string) (sr : StepRun) : option StepRun :=
  if negb (bool_decide (sr_Status sr = StepStatusWaiting)) || (sr_JobID sr =s? "") then None
  else if match sr_StartedAt sr with Some s => (time_sub t s <? gracePeriod)%Z | None => false end then None
  else match state with
       | Err (Some _) => None
       | Ok state => if state =s? "" then Some sr else None
       | Err None => Some sr
       end ≫= fun sr =>
       let retries := reconcileRetryCount sr in
       if (maxRetries <=? retries)%Z then
         Some (set_sr_Error (Some [("message", AnyString "approval dispatch failed after reconciler recovery attempts");
                                   ("_reconcile_retries", AnyInt retries)])
                 (end_step StepStatusFailed t sr))
       else
         Some (set_sr_Error (Some (aset (default [] (sr_Error sr)) "_reconcile_retries" (AnyFloat64 (int64_to_float (retries + 1)))))
                 (revert_dispatch 0 sr)).

Definition reconcileStuckWaitingSteps (run : WorkflowRun) : M WorkflowRun :=
  t <- now ;;
  '(run, modified) <- mfold (fun '(run, modified) '(stepID, sr) =>
      tr <- trace ;;
      match recover_waiting t (job_state tr (sr_JobID sr)) sr with
      | None => ret (run, modified)
      | Some sr => ret (set_step stepID sr run, true)
      end) (range_map (run_Steps run)) (run, false) ;;
  if (modified : bool) then '(run, _) <- update_run run ;; ret run else ret run.

(** ** Advancing a run from the states of its jobs *)

(** The result a job's stored state stands for, [None] when it has not ended or
    cannot be read. *)
Definition stored_result (tr : list Event) (run : WorkflowRun) (jobID : string) : option JobResult :=
  match job_state tr jobID with
  | Err _ => None
  | Ok state =>
      let status := jobStatusFromState state in
      match status with
      | JOB_STATUS_UNSPECIFIED => None
      | JOB_STATUS_SUCCEEDED =>
          match job_result_ptr tr jobID with
          | Err _ => None
          | Ok ptr => Some (mkJobResult jobID status ptr false "" (run_Identity run))
          end
      | _ =>
          let reason := match job_failure tr jobID with Ok r => r | Err _ => "" end in
          let reason := if reason =s? "" then "job " +:+ jobID +:+ " terminated with state " +:+ state +:+ " (no error details available)"
                        else reason in
          Some (mkJobResult jobID status "" false reason (run_Identity run))
      end
  end.

Definition advance_from_state (fuel : nat) (run : WorkflowRun) (sr : StepRun) : M unit :=
  if negb (bool_decide (sr_Status sr = StepStatusRunning)) || (sr_JobID sr =s? "") then ret tt
  else
    tr <- trace ;;
    match stored_result tr run (sr_JobID sr) with
    | None => ret tt
    | Some res => '_ <- handleJobResultLockHeld fuel res ;; ret tt
    end.

Definition reconcileRun (fuel : nat) (runID : string) : M unit :=
  if runID =s? "" then ret tt else
  tr <- trace ;;
  match try_lock tr runID with
  | Err _ | Ok false => ret tt
  | Ok true =>
      got <- get_run runID ;;
      match got with
      | Err _ => ret tt
      | Ok run =>
          if isTerminalRunStatus (run_Status run) then ret tt
          else
            mfold (fun _ kv => advance_from_state fuel run (snd kv)) (range_map (run_Steps run)) tt ;;;
            refreshed <- get_run runID ;;
            run <- (match refreshed with
                    | Ok run => reconcileStuckWaitingSteps run
                    | Err _ => ret run
                    end) ;;
            '_ <- startRunLockHeld fuel (run_WorkflowID run) (run_ID run) ;;
            ret tt
      end
  end.

(** ** Orphaned jobs *)

Fixpoint collectOrphanedJobIDs (tr : list Event) (sr : StepRun) : list string :=
  let children := concat (map (fun kc => match snd kc with ChildOwn c => collectOrphanedJobIDs tr c | ChildShared => [] end)
                            (sr_Children sr)) in
  if sr_JobID sr =s? "" then children
  else ((match job_state tr (sr_JobID sr) with
         | Ok state => if isActiveJobState state then [sr_JobID sr] else []
         | Err _ => []
         end) ++ children)%list.

Definition reconcileOrphanedJobs (runID : string) : M unit :=
  if runID =s? "" then ret tt else
  got <- get_run runID ;;
  match got with
  | Err _ => ret tt
  | Ok run =>
      match run_Status run with
      | RunStatusCancelled | RunStatusTimedOut =>
          tr <- trace ;;
          let orphaned := concat (map (fun kv => collectOrphanedJobIDs tr (snd kv)) (range_map (run_Steps run))) in
          if negb (nonempty orphaned) then ret tt
          else match try_lock tr runID with
               | Err _ | Ok false => ret tt
               | Ok true =>
                   mfold (fun _ jobID =>
                            '_ <- publishJobCancel jobID ("orphaned after workflow " +:+ string_of_run_status (run_Status run)) (run_Identity run) ;;
                            ret tt) orphaned tt
               end
      | _ => ret tt
      end
  end.

(** [ZREVRANGE]: the highest score first, equal scores by member, backwards. *)
Definition zrev_before (a b : string * Z) : bool :=
  (snd b <? snd a)%Z || ((snd a =? snd b)%Z && negb (String.leb (fst a) (fst b))).

Fixpoint zrev_insert (x : string * Z) (l : list (string * Z)) : list (string * Z) :=
  match l with
  | [] => [x]
  | y :: l => if zrev_before x y then x :: y :: l else y :: zrev_insert x l
  end.

Definition ListRunIDsByStatus (status : RunStatus) (limit : Z) (st : Store) : list string :=
  let limit := if (limit <=? 0)%Z then 200%Z else limit in
  List.firstn (Z.to_nat limit)
    (map fst (foldr zrev_insert [] (map_to_list (default ∅ (s_runStatus st !! string_of_run_status status) : gmap string Z)))).

Definition for_runs (statuses : list RunStatus) (limit : Z) (f : string -> M unit) : M unit :=
  mfold (fun _ status =>
           tr <- trace ;;
           st <- store ;;
           match e_read_error tr with
           | Some _ => ret tt
           | None => mfold (fun _ runID => f runID) (ListRunIDsByStatus status limit st) tt
           end) statuses tt.

Definition tick (fuel : nat) (limit : Z) : M unit :=
  for_runs [RunStatusPending; RunStatusRunning; RunStatusWaiting] limit (reconcileRun fuel) ;;;
  for_runs [RunStatusCancelled; RunStatusTimedOut; RunStatusFailed; RunStatusDenied] limit reconcileOrphanedJobs.

(** [reconciler.HandleJobResult]: [Some] is a request to redeliver. *)
Definition reconciler_HandleJobResult (fuel : nat) (res : JobResult) : M (option string) :=
  if res_JobId res =s? "" then ret None else
  let runID := fst (JobIds.splitJobID (res_JobId res)) in
  if runID =s? "" then ret None else
  tr <- trace ;;
  match try_lock tr runID with
  | Err e => ret (Some e)
  | Ok false => ret (Some "run lock busy")
  | Ok true =>
      err <- handleJobResultLockHeld fuel res ;;
      ret (match err with
           | None | Some ErrRunNotFound => None
           | Some (ErrTransient e) => Some e
           end)
  end.

End Reconciler.
