(* ===== verification/WorkflowDemo.v ===== *)
(** * A concrete environment of the workflow engine

    Services that always answer, to evaluate the engine's operations on small
    workflows: the clock and the fresh ids count the events so far, expressions
    are the two booleans.  The examples at the end run whole operations. *)
From S2P Require Import Prelude.
From S2P Require Import GoStrings.
From S2P Require Import PolicyTypes.
From S2P Require Import GoValues.
From S2P Require Import Licensing.
From S2P Require Import WorkflowModels.
From S2P Require Import WorkflowHelpers.
From S2P Require Import WorkflowState.
From S2P Require Import WorkflowEval.
From S2P Require Import WorkflowStore.
From S2P Require Import WorkflowJob.
From S2P Require Import WorkflowSchedule.
From S2P Require Import WorkflowEngine.

Open Scope string_scope.

Definition demo_printer : FloatPrinter := fun _ => "0".

Definition demo_expr : ExprEngine :=
  {| expr_compile_error := fun _ => None;
     expr_run := fun e _ => if e =s? "true" then Ok (AnyBool true) else if e =s? "false" then Ok (AnyBool false) else Err "undefined: name" |}.

Definition demo_env : EngineEnv :=
  {| e_sandbox := DefaultSandboxConfig;
     e_maxForEachItems := 1000;
     e_productionIdentity := false;
     e_hasMem := true;
     e_entitlements := DefaultEntitlements PlanEnterprise;
     e_validate_map := fun _ _ => None;
     e_validate_id := None;
     e_config := None;
     e_minter := None;
     e_marshal := fun _ => Some "{}";
     e_unmarshal := fun _ => Some AnyNil;
     e_parse_rfc3339 := fun _ => Err "time";
     e_format_rfc3339nano := fun _ => "";
     e_legacyCompat := false;
     e_read_resource := fun _ _ _ => Ok ("{}", "application/json");
     e_bound_legacy := fun _ _ _ => None;
     e_evaluate_output := Some (fun _ _ _ _ _ => Ok (OutputAllow, ""));
     e_job_request := None;
     e_is_cancelled := fun _ => false;
     e_clock := fun tr => (Z.of_nat (length tr) * second)%Z;
     e_uuid := fun tr => "u" +:+ Itoa (Z.of_nat (length tr));
     e_lock_acquired := fun _ _ => true;
     e_read_error := fun _ => None;
     e_update_error := fun _ => None;
     e_pipeline_ok := fun _ => true;
     e_create_error := fun _ => None;
     e_timeline_ok := fun _ => true;
     e_put_error := fun _ => None;
     e_delay_ok := fun _ => true;
     e_publish_error := fun _ => None;
     e_step_order := fun _ m => map_to_list m;
     e_step_order_perm := fun _ m => Permutation_refl _ |}.

#[local] Existing Instance fwd_runtime.
#[local] Existing Instance demo_printer.
#[local] Existing Instance no_parser.
#[local] Existing Instance demo_expr.
#[local] Existing Instance demo_env.

(** A world with some workflows and runs. *)
Definition demo_world (wfs : list Workflow) (runs : list WorkflowRun) : World :=
  mkWorld (set_s_runs (list_to_map (map (fun r => (run_ID r, r)) runs))
             (set_s_defs (list_to_map (map (fun wf => (wf_ID wf, wf)) wfs)) empty_store)) [].

(** The statuses of the steps of a stored run. *)
Definition stored_status (w : World) (runID stepID : string) : StepStatus :=
  match s_runs (w_store w) !! runID with Some r => status_of r stepID | None => StepStatusNone end.

Definition stored_run_status (w : World) (runID : string) : option RunStatus := run_Status <$> s_runs (w_store w) !! runID.

Definition chain_wf : Workflow :=
  plain_workflow "w" 0 [plain_step "a" StepTypeWorker [] ""; plain_step "b" StepTypeWorker ["a"] ""].

Definition result_of (jobID : string) (status : JobStatus) : JobResult := mkJobResult jobID status "" false "" None.

(** A chain of two worker steps runs to its end. *)
Example chain_runs :
  let w0 := demo_world [chain_wf] [plain_run "r" "w" RunStatusPending []] in
  let w1 := snd (StartRun 3 "w" "r" w0) in
  let w2 := snd (HandleJobResult 3 (result_of "r:a@1" JOB_STATUS_SUCCEEDED) w1) in
  let w3 := snd (HandleJobResult 3 (result_of "r:b@1" JOB_STATUS_SUCCEEDED) w2) in
  (stored_status w1 "r" "a", stored_status w1 "r" "b") = (StepStatusRunning, StepStatusNone) /\
  (stored_status w2 "r" "a", stored_status w2 "r" "b") = (StepStatusSucceeded, StepStatusRunning) /\
  stored_run_status w3 "r" = Some RunStatusSucceeded.
Proof. vm_compute. auto. Qed.
