(* ===== verification/WorkflowLogic.v ===== *)
(** * Reasoning about the engine's computations

    A Hoare triple for computations over the world, [hoare P Pre m Post]: from a
    world that satisfies [Pre], [m] only appends events that satisfy [P] to the
    trace and ends with [Post] of its result and the world.  On top of it [safe],
    for computations that leave the workflow definitions alone and whose
    postcondition is about the result, with a rule for every call of
    [WorkflowJob] and a tactic that walks a computation.  First, what writing a
    run to the store keeps of it. *)
From S2P Require Import Prelude.
From S2P Require Import GoStrings.
From S2P Require Import PolicyTypes.
From S2P Require Import GoValues.
From S2P Require Import WorkflowModels.
From S2P Require Import WorkflowHelpers.
From S2P Require Import WorkflowState.
From S2P Require Import WorkflowEval.
From S2P Require Import WorkflowStore.
From S2P Require Import WorkflowJob.

Open Scope string_scope.

Definition hoare {A} (P : Event -> Prop) (Pre : World -> Prop) (m : M A) (Post : A -> World -> Prop) : Prop :=
  forall w, Pre w -> exists es,
    w_trace (snd (m w)) = (w_trace w ++ es)%list /\ Forall P es /\ Post (fst (m w)) (snd (m w)).

Section Rules.
Context {P : Event -> Prop}.

Lemma hoare_ret {A} (Pre : World -> Prop) (a : A) (Post : A -> World -> Prop) :
  (forall w, Pre w -> Post a w) -> hoare P Pre (ret a) Post.
Proof. intros Hp w Hw. exists []. cbn. rewrite app_nil_r. auto. Qed.

Lemma hoare_bind {A B} Pre (m : M A) (k : A -> M B) Mid Post :
  hoare P Pre m Mid -> (forall a, hoare P (Mid a) (k a) Post) -> hoare P Pre (bind m k) Post.
Proof.
  intros Hm Hk w Hw. destruct (Hm w Hw) as (es & He & Hes & Hmid). unfold bind. destruct (m w) as [a w'] eqn:E.
  cbn in *. destruct (Hk a w' Hmid) as (es' & He' & Hes' & Hpost). exists (es ++ es')%list.
  rewrite He', He, <- app_assoc. split_and!; [done| |done]. by apply Forall_app.
Qed.

Lemma hoare_conseq {A} (Pre Pre' : World -> Prop) (m : M A) (Post Post' : A -> World -> Prop) :
  hoare P Pre' m Post' -> (forall w, Pre w -> Pre' w) -> (forall a w, Post' a w -> Post a w) -> hoare P Pre m Post.
Proof. intros Hm Hpre Hpost w Hw. destruct (Hm w) as (es & ? & ? & ?); eauto 6. Qed.

Lemma hoare_bind_pure {A B} (I : World -> Prop) (m : M A) (k : A -> M B) (Mid : A -> Prop) Post :
  hoare P I m (fun a w => I w /\ Mid a) -> (forall a, Mid a -> hoare P I (k a) Post) -> hoare P I (bind m k) Post.
Proof. intros Hm Hk. eapply hoare_bind; [exact Hm|]. intros a w [Hw Ha]. by apply Hk. Qed.

Lemma hoare_log Pre e (Post : unit -> World -> Prop) :
  P e -> (forall w, Pre w -> Post tt (mkWorld (w_store w) (w_trace w ++ [e]))) -> hoare P Pre (log e) Post.
Proof. intros He Hp w Hw. exists [e]. cbn. split_and!; [done|by constructor|by apply Hp]. Qed.

Lemma hoare_trace Pre (Post : list Event -> World -> Prop) :
  (forall w, Pre w -> Post (w_trace w) w) -> hoare P Pre trace Post.
Proof. intros Hp w Hw. exists []. cbn. rewrite app_nil_r. auto. Qed.

Lemma hoare_store Pre (Post : Store -> World -> Prop) :
  (forall w, Pre w -> Post (w_store w) w) -> hoare P Pre store Post.
Proof. intros Hp w Hw. exists []. cbn. rewrite app_nil_r. auto. Qed.

Lemma hoare_put_store Pre st (Post : unit -> World -> Prop) :
  (forall w, Pre w -> Post tt (mkWorld st (w_trace w))) -> hoare P Pre (put_store st) Post.
Proof. intros Hp w Hw. exists []. cbn. rewrite app_nil_r. auto. Qed.

(** A loop with an invariant on its state. *)
Lemma hoare_mfold {A S} (Pre : World -> Prop) (Inv : S -> Prop) (f : S -> A -> M S) l s :
  (forall s x, x ∈ l -> Inv s -> hoare P Pre (f s x) (fun s' w => Pre w /\ Inv s')) ->
  Inv s -> hoare P Pre (mfold f l s) (fun s' w => Pre w /\ Inv s').
Proof.
  revert s. induction l as [|x l IH]; intros s Hf Hs; cbn; [by apply hoare_ret|].
  eapply hoare_bind; [apply Hf; [left|done]|]. intros s'. intros w [Hw Hs'].
  apply (IH s'); [|done|done]. intros s0 y Hy. apply Hf. by right.
Qed.

End Rules.

(** ** What a write keeps of a run *)

Definition same_slot (a b : StepRun) : Prop :=
  sr_Status b = sr_Status a /\ sr_JobID b = sr_JobID a /\ sr_Attempts b = sr_Attempts a.

(** Two runs with the same header and metadata whose steps are in the same state,
    for the same jobs. *)
Definition same_run (r r' : WorkflowRun) : Prop :=
  same_header r r' /\ run_Metadata r' = run_Metadata r /\
  forall id, option_Forall2 same_slot (step_run r id) (step_run r' id).

#[export] Instance same_slot_preorder : PreOrder same_slot.
Proof. split; [by intros ?|]. unfold same_slot. intros a b c ? ?. intuition congruence. Qed.

#[export] Instance same_run_preorder : PreOrder same_run.
Proof.
  split.
  - intros r. split; [apply same_header_refl|]. split; [done|]. intros id. destruct (step_run r id); by constructor.
  - intros a b c (H1 & H2 & H3) (H1' & H2' & H3'). split; [by eapply same_header_trans|]. split; [congruence|].
    intros id. specialize (H3 id). specialize (H3' id). inversion H3; inversion H3'; simplify_eq; try congruence; constructor.
    etransitivity; [eassumption|]. congruence.
Qed.

Lemma same_run_steps r r' : same_header r r' -> run_Metadata r' = run_Metadata r -> run_Steps r' = run_Steps r -> same_run r r'.
Proof.
  intros Hh Hm Hs. split; [done|]. split; [done|]. intros id. unfold step_run. rewrite Hs. destruct (_ !! id); by constructor.
Qed.

Lemma same_run_status r r' id : same_run r r' -> status_of r' id = status_of r id.
Proof. intros (_ & _ & Hs). unfold status_of. specialize (Hs id). inversion Hs as [?? (E & _)|]; [done|by cbn]. Qed.

Lemma map_tree_slot f sr : (forall sr, same_slot sr (f sr)) -> same_slot sr (map_tree f sr).
Proof. intros Hf. rewrite map_tree_unfold. destruct (Hf sr) as (E1 & E2 & E3). by destruct (f sr). Qed.

Lemma same_run_map_tree f r : (forall sr, same_slot sr (f sr)) -> same_run r (set_run_Steps (map_tree f <$> run_Steps r) r).
Proof.
  intros Hf. split; [by destruct r|]. split; [by destruct r|]. intros id. unfold step_run. destruct r; cbn. rewrite lookup_fmap.
  destruct (_ !! id); constructor. by apply map_tree_slot.
Qed.

Lemma fill_hash_slot j h sr : same_slot sr (fill_hash j h sr).
Proof. unfold fill_hash. destruct (_ && _); [by destruct sr|done]. Qed.

Lemma merge_hash_slot hs sr : same_slot sr (merge_hash hs sr).
Proof. unfold merge_hash. destruct (_ || _); [done|]. destruct (hs !! _); [by destruct sr|done]. Qed.

Section Written.
Context `{GoRuntime} `{FloatParser}.

Lemma applyPending_same st run : same_run run (fst (applyPendingAuditHashes st run)).
Proof.
  unfold applyPendingAuditHashes. generalize (range_map (collectRunJobRefs run)). intros l.
  match goal with |- same_run run (fst (foldl ?f _ _)) => set (go := f) end.
  assert (forall l acc, same_run run (fst acc) -> same_run run (fst (foldl go acc l))) as Hgo; [|by apply Hgo].
  clear l. induction l as [|[j ref] l IH]; intros [r ds] Hr; [done|]. cbn [foldl]. apply IH.
  cbn. destruct (s_pendingHash st !! j) as [h|]; [|done]. destruct (TrimSpace h =s? ""); [done|].
  etransitivity; [exact Hr|]. apply same_run_map_tree. intros sr. apply fill_hash_slot.
Qed.

Lemma json_step_slot share sr sr' : json_step share sr = Some sr' -> same_slot sr sr'.
Proof.
  destruct sr. cbn. match goal with |- match ?m with _ => _ end = _ -> _ => destruct m end; [|done]. by intros [= <-].
Qed.

Lemma json_run_same run doc : json_run run = Some doc -> same_run run doc.
Proof.
  intros E. split; [by apply json_run_header|]. revert E. unfold json_run. destruct (json_steps run) as [steps|] eqn:Es; [|done].
  intros [= <-]. split; [done|]. intros id. revert Es. unfold json_steps. generalize (json_shared (S (size (run_Steps run))) run).
  intros share. case_bool_decide as Hall; [|done]. intros [= <-].
  unfold step_run. cbn [run_Steps]. rewrite lookup_omap. specialize (Hall id). rewrite lookup_fmap in Hall |- *.
  destruct (run_Steps run !! id) as [sr|]; cbn in *; [|constructor]. destruct (Hall _ eq_refl) as [sr' Hsr'].
  rewrite Hsr'. constructor. by eapply json_step_slot.
Qed.

Lemma merge_doc_same prev doc : same_run doc (merge_doc prev doc).
Proof. destruct prev; [|done]. apply same_run_map_tree. intros. apply merge_hash_slot. Qed.

Lemma update_active_defs run st : s_defs (update_active run st) = s_defs st.
Proof. unfold update_active. by destruct (_ =s? _). Qed.

Lemma update_indexes_defs now run prev r1 r2 ds st : s_defs (update_indexes now run prev r1 r2 ds st) = s_defs st.
Proof. unfold update_indexes. rewrite update_active_defs. destruct prev as [p|]; [|done]. by destruct (bool_decide _). Qed.

Lemma UpdateRun_same now ok run st run' st' :
  UpdateRun now ok run st = Ok (run', st') ->
  same_run run run' /\ s_defs st' = s_defs st /\ exists doc, s_runs st' !! run_ID run = Some doc /\ same_run run doc.
Proof.
  unfold UpdateRun. destruct (_ || _); [done|].
  pose proof (applyPending_same st (set_run_UpdatedAt now run)) as Hs.
  destruct (applyPendingAuditHashes st (set_run_UpdatedAt now run)) as [r1 ds]. cbn [fst] in Hs.
  assert (same_run run r1) as Hr. { etransitivity; [|exact Hs]. by apply same_run_steps. }
  destruct (json_run r1) as [doc|] eqn:Ej; [|done]. apply json_run_same in Ej. unfold update_doc. intros [= <- <-].
  split; [done|]. assert (run_ID r1 = run_ID run) as Hid by apply Hr. split.
  { destruct ok; [by rewrite update_indexes_defs|done]. }
  exists (merge_doc (s_runs st !! run_ID r1) doc). split.
  - rewrite <- Hid. destruct ok; [rewrite update_indexes_runs|]; cbn; by rewrite lookup_insert_eq.
  - etransitivity; [exact Hr|]. etransitivity; [exact Ej|]. apply merge_doc_same.
Qed.

Lemma CreateRun_same now run st run' st' :
  CreateRun now run st = Ok (run', st') ->
  s_defs st' = s_defs st /\ exists doc, s_runs st' !! run_ID run = Some doc /\ same_run run doc.
Proof.
  unfold CreateRun. destruct (_ || _); [done|].
  set (r0 := mkWorkflowRun _ _ _ _ _ _ _ _ _ _ _ _ _ _ _ _ _ _ _ _ _ _).
  assert (same_run run r0) as Hr0 by by apply same_run_steps.
  pose proof (applyPending_same st r0) as Hs.
  destruct (applyPendingAuditHashes st r0) as [r1 ds]. cbn [fst] in Hs. assert (same_run run r1) as Hr by by etransitivity.
  clear Hr0 Hs r0. destruct (json_run r1) as [doc|] eqn:Ej; [|done]. apply json_run_same in Ej. intros [= <- <-].
  assert (run_ID r1 = run_ID run) as Hid by apply Hr.
  assert (forall x, let y := (if run_IdempotencyKey r1 =s? "" then x else
            match TrySetRunIdempotencyKey (run_IdempotencyKey r1) (run_ID r1) x with Ok (s, _) => s | Err _ => x end) in
          s_defs y = s_defs x /\ s_runs y = s_runs x) as Hi.
  { intros x. cbv zeta. destruct (_ =s? ""); [done|]. unfold TrySetRunIdempotencyKey.
    destruct (_ || _); [done|]. by destruct (s_idempotency x !! _). }
  match goal with |- s_defs ?y = _ /\ _ => match y with context [update_active ?a ?b] => destruct (Hi (update_active a b)) as [E1 E2] end end.
  cbv zeta in E1, E2. rewrite E1, E2, update_active_defs, update_active_runs. split; [done|]. exists doc. split.
  - cbn. rewrite Hid. by rewrite lookup_insert_eq.
  - by etransitivity.
Qed.

End Written.

(** ** Computations that leave the definitions alone *)

(** Neither the submission of a job nor the end of the fuel. *)
Definition quiet (e : Event) : Prop :=
  match e with EvSubmitting _ _ _ | EvDiverged _ => False | _ => True end.

Definition defs_are (D : gmap string Workflow) (w : World) : Prop := s_defs (w_store w) = D.

Definition safe {A} (D : gmap string Workflow) (P : Event -> Prop) (m : M A) (Post : A -> Prop) : Prop :=
  hoare P (defs_are D) m (fun a w => defs_are D w /\ Post a).

Create HintDb safe discriminated.

Section SafeRules.
Context {D : gmap string Workflow} {P : Event -> Prop}.

Lemma safe_ret {A} (a : A) (Post : A -> Prop) : Post a -> safe D P (ret a) Post.
Proof. intros. by apply hoare_ret. Qed.

Lemma safe_bind {A B} (m : M A) (k : A -> M B) (Mid : A -> Prop) (Post : B -> Prop) :
  safe D P m Mid -> (forall a, Mid a -> safe D P (k a) Post) -> safe D P (bind m k) Post.
Proof. apply hoare_bind_pure. Qed.

Lemma safe_conseq {A} (m : M A) (Post Post' : A -> Prop) :
  safe D P m Post' -> (forall a, Post' a -> Post a) -> safe D P m Post.
Proof. intros Hm Hp. eapply hoare_conseq; [exact Hm|done|]. intros a w [? ?]. auto. Qed.

Lemma safe_mfold {A S} (Inv : S -> Prop) (f : S -> A -> M S) l s :
  (forall s x, x ∈ l -> Inv s -> safe D P (f s x) Inv) -> Inv s -> safe D P (mfold f l s) Inv.
Proof. intros Hf Hs. by apply hoare_mfold. Qed.

Lemma safe_log e : P e -> safe D P (log e) (fun _ => True).
Proof. intros He. by apply hoare_log. Qed.

Lemma safe_trace : safe D P trace (fun _ => True).
Proof. by apply hoare_trace. Qed.

Lemma safe_store : safe D P store (fun st => s_defs st = D).
Proof. apply hoare_store. auto. Qed.

Lemma safe_put_store st : s_defs st = D -> safe D P (put_store st) (fun _ => True).
Proof. intros. by apply hoare_put_store. Qed.

End SafeRules.

#[export] Hint Resolve safe_trace safe_store : safe.

(** One step through a computation: a return is left to the caller. *)
Ltac safe_call := solve [eauto 2 with safe nocore | auto 2 with safe].
Ltac safe_step :=
  match goal with
  | |- safe _ _ (bind _ _) _ => eapply safe_bind; [safe_call|cbv beta; intros]
  | |- safe _ _ (if ?b then _ else _) _ => destruct b eqn:?
  | |- safe _ _ (match ?x with _ => _ end) _ => destruct x eqn:?
  | |- safe _ _ (ret _) _ => apply safe_ret; try done
  end.
Ltac safe_walk := repeat safe_step.

Section SafeCalls.
Context `{GoRuntime} `{FloatPrinter} `{FloatParser} `{ExprEngine} `{EngineEnv}.
Context (D : gmap string Workflow) (P : Event -> Prop) (Hquiet : forall e, quiet e -> P e).

Lemma safe_quiet e : quiet e -> safe D P (log e) (fun _ => True).
Proof. intros. by apply safe_log, Hquiet. Qed.
Hint Resolve safe_quiet : safe.
Hint Extern 1 (quiet _) => exact I : safe.

Lemma safe_now : safe D P now (fun _ => True).
Proof. unfold now. safe_walk. Qed.

Lemma safe_new_uuid : safe D P new_uuid (fun _ => True).
Proof. unfold new_uuid. safe_walk. Qed.

Hint Resolve safe_now safe_new_uuid : safe.

(** What a read returns is what the store has. *)
Lemma hoare_read {A} key (get : Store -> result get_error A) (Pre : World -> Prop) :
  (forall w e, Pre w -> Pre (mkWorld (w_store w) (w_trace w ++ [e]))) ->
  hoare P Pre (read key get) (fun r w => Pre w /\ forall a, r = Ok a -> get (w_store w) = Ok a).
Proof.
  intros Hpre w Hw. exists [EvRead key]. unfold read, bind, trace, store, log, ret. cbn.
  destruct (e_read_error (w_trace w)); cbn; (split_and!; [done|constructor; [by apply Hquiet|done]|by apply Hpre|]); [done|].
  intros a. unfold of_get_error. destruct (get (w_store w)) as [[]|]; [done|done|]. by intros [= <-].
Qed.

Lemma safe_get_workflow workflowID :
  safe D P (get_workflow workflowID) (fun r => forall wf, r = Ok wf -> D !! workflowID = Some wf).
Proof.
  eapply hoare_conseq; [by apply (hoare_read _ _ (defs_are D))|by intros|]. intros r w [Hw Hr]. split; [exact Hw|]. intros wf E. apply Hr in E.
  unfold GetWorkflow in E. destruct (_ =s? _); [done|]. rewrite Hw in E. destruct (D !! workflowID); congruence.
Qed.

Lemma safe_get_run runID : safe D P (get_run runID) (fun _ => True).
Proof. eapply hoare_conseq; [by apply (hoare_read _ _ (defs_are D))|by intros|]. by intros r w [Hw _]. Qed.

Lemma safe_count_active org : safe D P (count_active org) (fun _ => True).
Proof. unfold count_active. safe_walk. Qed.

Lemma safe_publish subject packet : safe D P (publishWithTrace subject packet) (fun _ => True).
Proof. unfold publishWithTrace. safe_walk. Qed.

Lemma safe_mint : safe D P mint_token (fun _ => True).
Proof. unfold mint_token. safe_walk. Qed.

Hint Resolve safe_get_workflow safe_get_run safe_count_active safe_publish safe_mint : safe.

Lemma safe_publish_attempts n subject packet : safe D P (publish_attempts n subject packet) (fun _ => True).
Proof. induction n as [|n IH]; cbn; safe_walk. exact IH. Qed.
Hint Resolve safe_publish_attempts : safe.

Lemma safe_publishJobCancel jobID reason identity : safe D P (publishJobCancel jobID reason identity) (fun _ => True).
Proof. unfold publishJobCancel. safe_walk. Qed.

Lemma safe_appendTimeline run ty stepID jobID status ptr msg data :
  safe D P (appendTimeline run ty stepID jobID status ptr msg data) (fun _ => True).
Proof.
  unfold appendTimeline. do 3 safe_step. cbv zeta. destruct (if e_timeline_ok _ then _ else _) as [|st'] eqn:E; [safe_call|].
  eapply safe_bind; [apply safe_put_store|intros; safe_call]. destruct (e_timeline_ok _); [|done]. revert E.
  unfold AppendTimelineEvent. destruct (_ =s? _); [done|]. by intros [= <-].
Qed.

Lemma safe_scheduleAfter delay wfID runID : safe D P (scheduleAfter delay wfID runID) (fun _ => True).
Proof.
  unfold scheduleAfter. safe_step; [safe_walk|]. eapply safe_bind with (Mid := fun _ => True); [|intros; safe_call].
  safe_walk. by apply safe_put_store.
Qed.
Hint Resolve safe_publishJobCancel safe_appendTimeline safe_scheduleAfter : safe.

Lemma safe_scheduleAt next t wfID runID : safe D P (scheduleAt next t wfID runID) (fun _ => True).
Proof. unfold scheduleAt. safe_walk. safe_call. Qed.

Lemma safe_putJobContext jobID doc : safe D P (putJobContext jobID doc) (fun _ => True).
Proof. unfold putJobContext. safe_walk. Qed.

Lemma safe_OnStepDispatched runID stepID jobID : safe D P (OnStepDispatched runID stepID jobID) (fun _ => True).
Proof. unfold OnStepDispatched. safe_call. Qed.

Lemma safe_OnStepFinished runID stepID status : safe D P (OnStepFinished runID stepID status) (fun _ => True).
Proof. unfold OnStepFinished. safe_call. Qed.

Lemma safe_markRunTerminal runID : safe D P (markRunTerminal runID) (fun _ => True).
Proof. unfold markRunTerminal. safe_walk. safe_call. Qed.

(** *** Writes of runs *)

Lemma touched_same t run st : same_run run (touched t run st).
Proof.
  unfold touched. destruct (_ || _); [done|]. etransitivity; [|apply applyPending_same]. by apply same_run_steps.
Qed.

(** The run a write returns, and the document it leaves in the store. *)
Lemma hoare_update_run run :
  hoare P (defs_are D) (update_run run) (fun '(run', err) w =>
    defs_are D w /\ same_run run run' /\
    (err = None -> exists doc, s_runs (w_store w) !! run_ID run = Some doc /\ same_run run doc)).
Proof.
  unfold update_run. eapply hoare_bind; [apply safe_now|]. intros t w [Hw _].
  exists [EvUpdateRun run (match e_update_error (w_trace w) with
                           | Some e => Some e
                           | None => match UpdateRun t (e_pipeline_ok (w_trace w)) run (w_store w) with Ok _ => None | Err e => Some e end
                           end)].
  unfold bind, trace, store, log, ret, put_store. destruct (e_update_error (w_trace w)) as [e|].
  { cbn. split_and!; [done|constructor; [by apply Hquiet|done]|done|apply touched_same|done]. }
  destruct (UpdateRun t _ run (w_store w)) as [e|[run' st']] eqn:E; cbn.
  { split_and!; [done|constructor; [by apply Hquiet|done]|done|apply touched_same|done]. }
  apply UpdateRun_same in E as (Hs & Hd & doc & Hdoc & Hsd).
  split_and!; [done|constructor; [by apply Hquiet|done]|unfold defs_are; cbn; congruence|done|eauto].
Qed.

Lemma safe_update_run run : safe D P (update_run run) (fun '(run', _) => same_run run run').
Proof. eapply hoare_conseq; [apply hoare_update_run|done|]. intros [run' err] w (? & ? & _). done. Qed.

Lemma hoare_create_run run :
  hoare P (defs_are D) (create_run run) (fun err w =>
    defs_are D w /\ (err = None -> exists doc, s_runs (w_store w) !! run_ID run = Some doc /\ same_run run doc)).
Proof.
  unfold create_run. eapply hoare_bind; [apply safe_now|]. intros t w [Hw _].
  exists [EvCreateRun run (match e_create_error (w_trace w) with
                           | Some e => Some e
                           | None => match CreateRun t run (w_store w) with Ok _ => None | Err e => Some e end
                           end)].
  unfold bind, trace, store, log, ret, put_store. destruct (e_create_error (w_trace w)) as [e|].
  { cbn. split_and!; [done|constructor; [by apply Hquiet|done]|done|done]. }
  destruct (CreateRun t run (w_store w)) as [e|[run' st']] eqn:E; cbn.
  { split_and!; [done|constructor; [by apply Hquiet|done]|done|done]. }
  apply CreateRun_same in E as (Hd & doc & Hdoc & Hsd).
  split_and!; [done|constructor; [by apply Hquiet|done]|unfold defs_are; cbn; congruence|eauto].
Qed.

Lemma safe_create_run run : safe D P (create_run run) (fun _ => True).
Proof. eapply hoare_conseq; [apply hoare_create_run|done|]. by intros err w [? _]. Qed.

(** A job is submitted in a world that satisfies [Pre]. *)
Lemma hoare_submit (Pre : World -> Prop) run req :
  (forall w, Pre w -> defs_are D w) ->
  (forall w, Pre w -> P (EvSubmitting run req (s_runs (w_store w) !! run_ID run))) ->
  hoare P Pre (submit run req) (fun _ w => defs_are D w /\ True).
Proof.
  intros Hpre Hs. unfold submit. eapply hoare_bind with (Mid := fun _ => Pre).
  { unfold makeJobPacket. destruct (if e_productionIdentity then _ else _); [by apply hoare_ret|].
    eapply hoare_bind with (Mid := fun _ => Pre); [|intros; by apply hoare_ret].
    unfold mint_token. eapply hoare_bind with (Mid := fun _ => Pre); [by apply hoare_trace|]. intros. by apply hoare_ret. }
  intros [e|packet]; [apply hoare_ret; auto|].
  eapply hoare_bind with (Mid := fun st w => Pre w /\ st = w_store w); [apply hoare_store; auto|]. intros st w [Hw ->].
  assert (hoare P (fun w' => w' = w) (log (EvSubmitting run req (s_runs (w_store w) !! run_ID run)) ;;; publishWithTrace SubjectSubmit packet)
            (fun _ w => defs_are D w /\ True)) as Hgo; [|by apply Hgo].
  eapply hoare_bind; [|intros; apply safe_publish]. apply hoare_log; [by apply Hs|]. intros w' ->. exact (Hpre w Hw).
Qed.

Lemma safe_submit run req :
  (forall stored, P (EvSubmitting run req stored)) -> safe D P (submit run req) (fun _ => True).
Proof. intros Hs. by apply hoare_submit. Qed.

End SafeCalls.

#[export] Hint Resolve safe_now safe_new_uuid safe_get_workflow safe_get_run safe_count_active safe_publish safe_mint
  safe_publish_attempts safe_publishJobCancel safe_appendTimeline safe_scheduleAfter safe_scheduleAt safe_putJobContext
  safe_OnStepDispatched safe_OnStepFinished safe_markRunTerminal safe_update_run safe_create_run safe_quiet : safe.
#[export] Hint Extern 1 (quiet _) => exact I : safe.
