(* ===== verification/WorkflowSafety.v ===== *)
(** * What the engine's operations keep and when they dispatch

    Every step handler of [WorkflowSchedule] and every entry point of
    [WorkflowEngine] and [WorkflowReconciler] leaves finished steps alone
    ([keeps]) and submits a job only for a step that is ready
    ([dispatch_ok]); a run started inside a run is always of a workflow that is
    not on the call stack, so the recursion is bounded by the number of
    workflows. *)
From S2P Require Import Prelude.
From S2P Require Import GoStrings.
From S2P Require Import PolicyTypes.
From S2P Require Import GoValues.
From S2P Require Import WorkflowModels.
From S2P Require Import WorkflowHelpers.
From S2P Require Import WorkflowState.
From S2P Require Import WorkflowEval.
From S2P Require Import WorkflowStore.
From S2P Require Import WorkflowJob.
From S2P Require Import WorkflowSchedule.
From S2P Require Import WorkflowEngine.
From S2P Require Import WorkflowReconciler.
From S2P Require Import WorkflowLogic.
From Stdlib Require Import Ascii.

Open Scope string_scope.

(** ** Finished steps *)

(** The ids a workflow may use: a bracket is what sets apart the children of a
    for-each or a loop step. *)
Definition plain (id : string) : Prop := sep_free "[" id.

Definition finished (r : WorkflowRun) (id : string) : bool := isTerminalStepStatus (status_of r id).

(** The same run, with every finished step in the same status except those in [X]. *)
Definition keeps (X : string -> Prop) (r r' : WorkflowRun) : Prop :=
  run_ID r' = run_ID r /\ run_WorkflowID r' = run_WorkflowID r /\ run_OrgID r' = run_OrgID r /\
  run_Metadata r' = run_Metadata r /\
  forall id, plain id -> ~ X id -> finished r id = true -> status_of r' id = status_of r id.

Create HintDb keeps discriminated.

#[export] Instance keeps_preorder X : PreOrder (keeps X).
Proof.
  split.
  - intros r. by split_and!.
  - intros a b c (H1 & H2 & H3 & H4 & H5) (K1 & K2 & K3 & K4 & K5). split_and!; [congruence..|].
    intros id Hp Hx Hf. rewrite K5; [by apply H5|done|done|]. unfold finished. by rewrite H5.
Qed.

Lemma same_run_keeps X r r' : same_run r r' -> keeps X r r'.
Proof.
  intros Hs. pose proof Hs as ((? & ? & ? & ?) & ? & _). split_and!; [done..|]. intros. by apply same_run_status.
Qed.

Lemma keeps_weaken (X Y : string -> Prop) r r' : (forall id, X id -> Y id) -> keeps X r r' -> keeps Y r r'.
Proof. intros HXY (? & ? & ? & ? & Hk). split_and!; [done..|]. intros id Hp Hy. apply Hk; [done|]. auto. Qed.

(** A step that had not finished need not be an exception. *)
Lemma keeps_drop id r r' (X : string -> Prop) : finished r id = false \/ X id -> keeps (eq id) r r' -> keeps X r r'.
Proof.
  intros Hid (? & ? & ? & ? & Hk). split_and!; [done..|]. intros id' Hp Hx Hf. apply Hk; [done| |done].
  intros <-. destruct Hid; [congruence|done].
Qed.

Lemma status_set_step_eq id sr r : status_of (set_step id sr r) id = sr_Status sr.
Proof. unfold status_of. by rewrite step_run_set_step_eq. Qed.

Lemma status_set_step_ne id id' sr r : id <> id' -> status_of (set_step id sr r) id' = status_of r id'.
Proof. intros. unfold status_of. by rewrite step_run_set_step_ne. Qed.

(** Writing a slot that is an exception, or that had not finished. *)
Lemma keeps_set_step X id sr r : X id \/ finished r id = false \/ ~ plain id -> keeps X r (set_step id sr r).
Proof.
  intros Hid. split_and!; [by destruct r..|]. intros id' Hp Hx Hf. destruct (decide (id = id')) as [<-|Hne].
  - destruct Hid as [?|[?|?]]; [done|congruence|done].
  - by rewrite status_set_step_ne.
Qed.

Lemma keeps_fields X r r' :
  run_ID r' = run_ID r -> run_WorkflowID r' = run_WorkflowID r -> run_OrgID r' = run_OrgID r ->
  run_Metadata r' = run_Metadata r -> run_Steps r' = run_Steps r -> keeps X r r'.
Proof. intros ? ? ? ? Hs. split_and!; [done..|]. intros. unfold status_of, step_run. by rewrite Hs. Qed.

Lemma keeps_context X r c : keeps X r (set_run_Context c r).
Proof. by apply keeps_fields. Qed.

Lemma keeps_status X r s : keeps X r (set_run_Status s r).
Proof. by apply keeps_fields. Qed.

Lemma keeps_inline X r id step out : keeps X r (recordStepInlineOutput r id step out).
Proof. unfold recordStepInlineOutput. destruct (_ =s? _); [done|]. apply keeps_context. Qed.

Lemma child_id_not_plain id i : ~ plain (JobIds.child_id id i).
Proof.
  intros Hp. apply Hp. unfold JobIds.child_id. clear Hp. induction id as [|c id IH]; cbn; [by left|by right].
Qed.

Lemma keeps_trans X a b c : keeps X a b -> keeps X b c -> keeps X a c.
Proof. intros. by etransitivity. Qed.

#[export] Hint Resolve keeps_context keeps_status keeps_inline : keeps.

Lemma keeps_own id sr r : keeps (eq id) r (set_step id sr r).
Proof. apply keeps_set_step. by left. Qed.

Lemma keeps_child X id i sr r : keeps X r (set_step (JobIds.child_id id i) sr r).
Proof. apply keeps_set_step. right. right. apply child_id_not_plain. Qed.

#[export] Hint Resolve keeps_own keeps_child : keeps.

(** A chain of writes. *)
Ltac keeps_go :=
  first [reflexivity | assumption | solve [auto 2 with keeps]
        | lazymatch goal with
          | |- keeps _ ?r (set_step ?i ?s ?r') => apply (keeps_trans _ _ r'); [|first [apply keeps_set_step; solve [auto] | solve [auto 2 with keeps]]]
          | |- keeps _ ?r (recordStepInlineOutput ?r' _ _ _) => apply (keeps_trans _ _ r'); [|apply keeps_inline]
          | |- keeps _ ?r (set_run_Context _ ?r') => apply (keeps_trans _ _ r'); [|apply keeps_context]
          | |- keeps _ ?r (set_run_Status _ ?r') => apply (keeps_trans _ _ r'); [|apply keeps_status]
          | H : same_run ?r' ?r'' |- keeps _ _ ?r'' => apply (keeps_trans _ _ r'); [|by apply same_run_keeps]
          end; keeps_go].

(** ** Submissions *)

(** The stored run has the step on its way under the job. *)
Definition persisted (stored : option WorkflowRun) (stepID jobID : string) (n : Z) : Prop :=
  exists doc sr, stored = Some doc /\ step_run doc stepID = Some sr /\
    (sr_Status sr = StepStatusRunning \/ sr_Status sr = StepStatusWaiting) /\ sr_JobID sr = jobID /\ sr_Attempts sr = n.

(** The job of a step: its own, already in the store; one of an item of a
    for-each; one of an iteration of a loop, within its bound; one of a child of a
    parallel step that has not been dispatched. *)
Inductive job_of `{FloatPrinter} (wf : Workflow) (stepID : string) (step : Step) (run : WorkflowRun) (stored : option WorkflowRun)
    (jobID : string) : Prop :=
| own_job n : st_Type step <> StepTypeLoop -> st_Type step <> StepTypeParallel ->
    jobID = JobIds.job_id (run_ID run) stepID n -> persisted stored stepID jobID n -> job_of wf stepID step run stored jobID
| item_job i n : st_ForEach step <> "" -> st_Type step <> StepTypeLoop -> st_Type step <> StepTypeParallel ->
    jobID = JobIds.job_id (run_ID run) (JobIds.child_id stepID i) n -> job_of wf stepID step run stored jobID
| loop_job i n cfg : st_Type step = StepTypeLoop -> resolveLoopConfig step = Ok cfg -> (Z.of_nat i < lc_maxIterations cfg)%Z ->
    jobID = JobIds.job_id (run_ID run) (JobIds.child_id stepID i) n -> job_of wf stepID step run stored jobID
| parallel_job id childDef n : st_Type step = StepTypeParallel -> wf_Steps wf !! id = Some childDef ->
    is_open (status_of run id) = true -> jobID = JobIds.job_id (run_ID run) id n -> job_of wf stepID step run stored jobID.

Section Dispatch.
Context `{GoRuntime} `{FloatPrinter}.

(** A step the scheduler may turn to. *)
Definition ready (wf : Workflow) (run : WorkflowRun) (stepID : string) (step : Step) : Prop :=
  is_managed wf stepID = false /\ finished run stepID = false /\ depsSatisfied step run wf = true /\
  handler_inactive wf stepID (default (new_step_run stepID) (step_run run stepID)) = false.

(** A submission on behalf of a step of a stored workflow that was ready in
    [run0], in a run where nothing that had finished by then has changed. *)
Definition dispatch_ok (D : gmap string Workflow) (run : WorkflowRun) (req : JobRequest) (stored : option WorkflowRun) : Prop :=
  exists workflowID wf stepID step run0,
    D !! workflowID = Some wf /\ wf_Steps wf !! stepID = Some step /\ ready wf run0 stepID step /\
    keeps (eq stepID) run0 run /\ job_of wf stepID step run stored (jr_JobId req).

End Dispatch.

(** ** Call stacks *)

Lemma TrimLeft_head c s : TrimLeft (String c s) = String c s -> is_space c = false.
Proof.
  intros Ht. destruct (is_space c) eqn:E; [|done]. simpl in Ht. rewrite E in Ht.
  assert (forall t, (String.length (TrimLeft t) <= String.length t)%nat) as Hl.
  { induction t as [|d t IH]; simpl; [lia|]. destruct (is_space d); simpl; lia. }
  specialize (Hl s). rewrite Ht in Hl. cbn in Hl. lia.
Qed.

Lemma TrimLeft_app p s : TrimLeft p = p -> p <> "" -> TrimLeft (p +:+ s) = p +:+ s.
Proof. destruct p as [|c p]; [done|]. intros Ht%TrimLeft_head _. simpl. by rewrite Ht. Qed.

Lemma TrimRight_app s p : TrimRight p = p -> p <> "" -> TrimRight (s +:+ p) = s +:+ p.
Proof.
  intros Ht Hp. induction s as [|c s IH]; [done|].
  change (TrimRight (String c (s +:+ p)) = String c (s +:+ p)). cbn [TrimRight]. rewrite IH.
  destruct (s +:+ p) eqn:E; [|done]. by destruct s, p.
Qed.

Lemma TrimSpace_fixed s : TrimSpace s = s -> TrimLeft s = s /\ TrimRight s = s.
Proof.
  intros E. assert (TrimLeft s = s) as Hl; [|split; [done|]; by rewrite <- E at 2; unfold TrimSpace; rewrite Hl].
  rewrite <- E at 1. rewrite <- E at 2. unfold TrimSpace. apply TrimLeft_TrimRight, TrimLeft_idem.
Qed.

(** A name as it stands on a call stack. *)
Definition stack_name (s : string) : Prop := TrimSpace s = s /\ s <> "".

Lemma clean_parts_names l : Forall stack_name (clean_parts l).
Proof.
  apply Forall_forall. intros x Hx. unfold clean_parts in Hx. apply list_elem_of_In, filter_In in Hx as [Hin Hne].
  apply in_map_iff in Hin as (y & <- & _). split; [apply TrimSpace_idem|]. by destruct (TrimSpace y).
Qed.

Lemma clean_parts_id l : Forall stack_name l -> clean_parts l = l.
Proof.
  induction 1 as [|x l [Ht Hne] Hl IH]; [done|]. unfold clean_parts in *. cbn [map List.filter]. rewrite Ht.
  destruct (x =s? "") eqn:E; [by apply String.eqb_eq in E|]. cbn. by rewrite IH.
Qed.

Lemma Join_names l sep : Forall stack_name l -> TrimSpace (Join l sep) = Join l sep.
Proof.
  intros Hl. assert (l = [] \/ (TrimLeft (Join l sep) = Join l sep /\ TrimRight (Join l sep) = Join l sep /\ Join l sep <> "")) as [->|(El & Er & _)]; [|done|].
  - induction Hl as [|x l [Ht Hne] Hl IH]; [by left|]. right. apply TrimSpace_fixed in Ht as [Htl Htr].
    destruct l as [|y l]; [done|]. destruct IH as [?|(_ & IHr & IHne)]; [done|]. cbn [Join]. split_and!.
    + by apply TrimLeft_app.
    + rewrite str_app_assoc. by apply (TrimRight_app (x +:+ sep)).
    + by destruct x.
  - unfold TrimSpace. by rewrite El.
Qed.

Lemma ReplaceByte_app a b old new : ReplaceByte (a +:+ b) old new = ReplaceByte a old new +:+ ReplaceByte b old new.
Proof.
  induction a as [|c a IH]; [done|]. change (String c a +:+ b) with (String c (a +:+ b)). cbn [ReplaceByte]. by rewrite IH.
Qed.

Lemma ReplaceByte_free s old new : sep_free old s -> ReplaceByte s old new = s.
Proof.
  unfold sep_free. induction s as [|c s IH]; [done|]. cbn [String.list_ascii_of_string In ReplaceByte]. intros Hn. rewrite IH by tauto.
  destruct (Ascii.eqb_spec c old) as [->|]; [tauto|done].
Qed.

(** A name without the separators of call stacks. *)
Definition separator_free (s : string) : Prop := sep_free ">" s /\ sep_free "," s /\ sep_free ";" s.

Lemma call_stack_seps_free s : separator_free s -> call_stack_seps s = s.
Proof. intros (_ & H2 & H3). unfold call_stack_seps. by rewrite (ReplaceByte_free s ","), ReplaceByte_free. Qed.

Lemma call_stack_seps_app a b : call_stack_seps (a +:+ b) = call_stack_seps a +:+ call_stack_seps b.
Proof. unfold call_stack_seps. by rewrite !ReplaceByte_app. Qed.

Lemma Split_Join_elem l x :
  x ∈ l -> separator_free x -> x ∈ Split (call_stack_seps (Join l ">")) ">".
Proof.
  intros Hx Hs. assert (Split (call_stack_seps x) ">" = [x]) as Hsplit.
  { rewrite call_stack_seps_free by done. apply Split_single, Hs. }
  induction l as [|y l IH]; [by apply elem_of_nil in Hx|]. destruct l as [|z l].
  - apply list_elem_of_singleton in Hx as <-. cbn [Join]. rewrite Hsplit. by left.
  - change (Join (y :: z :: l) ">") with (y +:+ ">" +:+ Join (z :: l) ">").
    rewrite !call_stack_seps_app. change (call_stack_seps ">") with ">".
    change (">" +:+ ?t) with (String ">" t). rewrite Split_app.
    apply elem_of_app. apply elem_of_cons in Hx as [<-|Hx]; [left|right; by apply IH]. rewrite Hsplit. by left.
Qed.

(** A separator-free name on a stack is still on it once encoded and parsed. *)
Lemma parse_encode_elem l x :
  Forall stack_name l -> x ∈ l -> separator_free x -> x ∈ parseCallStack (encodeCallStack l).
Proof.
  intros Hl Hx Hs. unfold parseCallStack, encodeCallStack. rewrite clean_parts_id, Join_names by done.
  pose proof (Split_Join_elem l x Hx Hs) as Hin. rewrite Forall_forall in Hl. destruct (Hl x Hx) as [Ht Hne].
  destruct (Join l ">" =s? "") eqn:E.
  { apply String.eqb_eq in E. rewrite E in Hin. by apply list_elem_of_singleton in Hin. }
  unfold clean_parts. apply list_elem_of_In, filter_In. split.
  - apply in_map_iff. exists x. split; [done|]. by apply list_elem_of_In.
  - by destruct (String.eqb_spec x "").
Qed.

Lemma parseCallStack_names raw : Forall stack_name (parseCallStack raw).
Proof. unfold parseCallStack. destruct (_ =s? _); [constructor|apply clean_parts_names]. Qed.

Lemma normalizeCallStack_names run : Forall stack_name (normalizeCallStackForRun run).
Proof.
  unfold normalizeCallStackForRun. pose proof (parseCallStack_names (get_str (run_Metadata run) "call_stack")) as Hp.
  destruct (TrimSpace (run_WorkflowID run) =s? "") eqn:E; [done|].
  assert (stack_name (TrimSpace (run_WorkflowID run))) as Hn.
  { split; [apply TrimSpace_idem|]. by apply String.eqb_neq. }
  destruct (last _) as [top|]; [|by apply Forall_singleton]. destruct (top =s? _); [done|]. apply Forall_app. split; [done|]. by apply Forall_singleton.
Qed.

(** The workflows that are not on the call stack of a run. *)
Definition uncalled (D : gmap string Workflow) (run : WorkflowRun) : nat :=
  size (dom D ∖ list_to_set (normalizeCallStackForRun run)).

Lemma uncalled_le D run : (uncalled D run <= size D)%nat.
Proof. unfold uncalled. rewrite <- size_dom. apply subseteq_size. set_solver. Qed.

Lemma uncalled_keeps X D r r' : keeps X r r' -> uncalled D r' = uncalled D r.
Proof. intros (_ & Hw & _ & Hm & _). unfold uncalled, normalizeCallStackForRun. by rewrite Hw, Hm. Qed.

Definition separator_free_ids (D : gmap string Workflow) : Prop := forall id, is_Some (D !! id) -> separator_free id.

(** A run of a workflow not yet on the stack, with the workflow pushed, has fewer
    workflows left to call. *)
Lemma uncalled_push D run child childRun :
  separator_free_ids D -> is_Some (D !! child) -> stack_name child ->
  containsString (normalizeCallStackForRun run) child = false ->
  run_Metadata childRun !! "call_stack" = Some (encodeCallStack (normalizeCallStackForRun run ++ [child])) ->
  (uncalled D childRun < uncalled D run)%nat.
Proof.
  intros HD Hc [Ht Hne] Hnot Hmeta. set (S := normalizeCallStackForRun run) in *.
  assert (Forall stack_name (S ++ [child])) as HS.
  { apply Forall_app. split; [apply normalizeCallStack_names|]. by apply Forall_singleton. }
  assert (forall x, x ∈ (S ++ [child])%list -> is_Some (D !! x) -> x ∈ normalizeCallStackForRun childRun) as Hin.
  { intros x Hx HDx. pose proof (parse_encode_elem _ x HS Hx (HD x HDx)) as Hp. unfold normalizeCallStackForRun, get_str.
    rewrite Hmeta. cbn [default id]. unfold id. destruct (_ =s? _); [done|]. destruct (last _) as [top|] eqn:El.
    - destruct (_ =s? _); [done|]. apply elem_of_app. by left.
    - apply last_None in El. rewrite El in Hp. by apply elem_of_nil in Hp. }
  assert (child ∉ S) as Hns.
  { intros Hx. unfold containsString in Hnot. rewrite Ht in Hnot. destruct (child =s? "") eqn:E; [by apply String.eqb_eq in E|].
    rewrite <- not_true_iff_false in Hnot. apply Hnot. apply existsb_exists. exists child. split; [by apply list_elem_of_In|].
    rewrite Ht. apply String.eqb_refl. }
  unfold uncalled. fold S. apply subset_size. split.
  - intros x Hx. apply elem_of_difference in Hx as [Hd Hx]. apply elem_of_difference. split; [done|].
    intros HxS. apply Hx, elem_of_list_to_set, Hin; [|by apply elem_of_dom]. apply elem_of_app. left. by apply elem_of_list_to_set in HxS.
  - intros Hsub. assert (child ∈ dom D ∖ list_to_set (normalizeCallStackForRun childRun)) as Hx.
    { apply Hsub, elem_of_difference. split; [by apply elem_of_dom|]. by rewrite elem_of_list_to_set. }
    apply elem_of_difference in Hx as [_ Hx]. apply Hx, elem_of_list_to_set, Hin; [|done]. apply elem_of_app. right. by left.
Qed.

(** ** The handlers *)

(** What [close_step] and its variants return. *)
Section Handlers.
Context `{GoRuntime} `{FloatPrinter} `{FloatParser} `{ExprEngine} `{EngineEnv}.
Context (D : gmap string Workflow) (P : Event -> Prop).
Context (Hquiet : forall e, quiet e -> P e).

(** [C] is whether the depth of the recursion matters; it is bounded when the ids
    of the workflows can be told apart on a call stack. *)
Context (C : Prop) (HC : C -> separator_free_ids D).

Lemma safe_close_step run stepID sr ty jobID msg data :
  safe D P (close_step run stepID sr ty jobID msg data) (fun r => r = set_step stepID sr run).
Proof. unfold close_step. safe_walk. Qed.

Lemma safe_close_quiet run stepID sr ty msg data :
  safe D P (close_quiet run stepID sr ty msg data) (fun r => r = set_step stepID sr run).
Proof. unfold close_quiet. safe_walk. Qed.

Lemma keeps_set_open X id sr r : is_open (status_of r id) = true -> keeps X r (set_step id sr r).
Proof. intros Ho. apply keeps_set_step. right. left. unfold finished. by destruct (status_of r id). Qed.

Lemma safe_activate X run wf stepID sr :
  safe D P (activateOnErrorHandler run wf stepID sr) (keeps X run).
Proof.
  unfold activateOnErrorHandler. cbv zeta. safe_walk. apply keeps_set_open.
  match goal with E : negb (is_open _) = false |- _ => apply negb_false_iff in E; revert E end.
  unfold status_of. by destruct (step_run run (st_OnError _)).
Qed.

Hint Resolve safe_close_step safe_close_quiet safe_activate : safe.

Section Step.
Context (wf : Workflow) (t : Z) (stepID : string) (step : Step).

(** A computation that ends by closing the step. *)
Lemma safe_close_keeps r0 run sr ty jobID msg data :
  keeps (eq stepID) r0 run -> safe D P (close_step run stepID sr ty jobID msg data) (keeps (eq stepID) r0).
Proof. intros Hk. eapply safe_conseq; [apply safe_close_step|]. intros r ->. keeps_go. Qed.

Lemma safe_quiet_keeps r0 run sr ty msg data :
  keeps (eq stepID) r0 run -> safe D P (close_quiet run stepID sr ty msg data) (keeps (eq stepID) r0).
Proof. intros Hk. eapply safe_conseq; [apply safe_close_quiet|]. intros r ->. keeps_go. Qed.

Hint Extern 2 (keeps _ _ _) => keeps_go : safe.
Hint Resolve safe_close_keeps safe_quiet_keeps : safe.

Lemma safe_condition_gate run sr :
  safe D P (condition_gate t stepID step run sr)
    (fun o => forall r, o = Some r -> keeps (eq stepID) run r).
Proof. unfold condition_gate. safe_walk; intros ? [= <-]; subst; keeps_go. Qed.

Lemma safe_schedule_condition run sr : safe D P (schedule_condition t stepID step run sr) (keeps (eq stepID) run).
Proof. unfold schedule_condition. cbv zeta. safe_walk; try safe_call; keeps_go. Qed.

Lemma safe_schedule_notify run sr : safe D P (schedule_notify t stepID step run sr) (keeps (eq stepID) run).
Proof. unfold schedule_notify. cbv zeta. safe_walk; try safe_call; keeps_go. Qed.

Lemma safe_schedule_transform run sr : safe D P (schedule_transform t stepID step run sr) (keeps (eq stepID) run).
Proof. unfold schedule_transform. cbv zeta. safe_walk; try safe_call; keeps_go. Qed.

Lemma safe_schedule_storage run sr : safe D P (schedule_storage t stepID step run sr) (keeps (eq stepID) run).
Proof. unfold schedule_storage. cbv zeta. safe_walk; try safe_call; keeps_go. Qed.

Lemma safe_schedule_delay run sr : safe D P (schedule_delay t stepID step run sr) (keeps (eq stepID) run).
Proof. unfold schedule_delay. cbv zeta. safe_walk; subst; try safe_call; keeps_go. Qed.

Lemma keeps_skip_branch X run id : keeps X run (skip_branch t run id).
Proof.
  unfold skip_branch. destruct (isTerminalStepStatus _) eqn:E; [done|]. apply keeps_set_step. right. left.
  unfold finished, status_of. by destruct (step_run run id).
Qed.

Lemma keeps_skip_branches X ids run : keeps X run (foldl (skip_branch t) run ids).
Proof.
  revert run. induction ids as [|id ids IH]; intros run; cbn; [done|]. etransitivity; [apply keeps_skip_branch|apply IH].
Qed.

(** Pending instead of nothing. *)
Lemma keeps_pending X run id sr :
  sr = default (new_step_run id) (step_run run id) ->
  keeps X run (set_step id (if bool_decide (sr_Status sr = StepStatusNone) then set_sr_Status StepStatusPending sr else sr) run).
Proof.
  intros ->. split_and!; [by destruct run..|]. intros id' Hp Hx Hf. destruct (decide (id = id')) as [<-|Hne].
  - rewrite status_set_step_eq. revert Hf. unfold finished, status_of. destruct (step_run run id) as [sr|]; [|done]. cbn.
    case_bool_decide as E; [by rewrite E|done].
  - by rewrite status_set_step_ne.
Qed.

Lemma safe_schedule_switch run sr : safe D P (schedule_switch wf t stepID step run sr) (keeps (eq stepID) run).
Proof.
  unfold schedule_switch. cbv zeta. generalize (if is_open (sr_Status sr) then begin_step t sr else sr). intros sr0.
  do 5 (safe_step; try safe_call). destruct (match List.find _ _ with Some _ => _ | None => _ end) as [target matched].
  safe_step; [safe_call|].
  match goal with |- context [foldl (skip_branch t) run ?ids] => pose proof (keeps_skip_branches (eq stepID) ids run) as Hskip end.
  safe_step; [safe_call|]. safe_walk. eapply keeps_trans; [|by apply keeps_pending]. keeps_go.
Qed.

(** *** Sub-workflows *)

(** The run to start has fewer than [k] workflows left to call. *)
Definition bounded (k : nat) (runID : string) (w : World) : Prop :=
  C -> (0 < k)%nat /\ forall r, s_runs (w_store w) !! runID = Some r -> (uncalled D r < k)%nat.

Definition starts (k : nat) (start : string -> string -> M (option string)) : Prop :=
  forall wfID runID, hoare P (fun w => defs_are D w /\ bounded k runID w) (start wfID runID) (fun _ w => defs_are D w /\ True).

Lemma safe_create_start {B} k start wfID childRun (kerr : string -> M B) (kok : option string -> M B) Post :
  starts k start -> (C -> (uncalled D childRun < k)%nat) ->
  (forall e, safe D P (kerr e) Post) -> (forall e, safe D P (kok e) Post) ->
  safe D P (bind (create_run childRun)
              (fun err => match err with Some e => kerr e | None => bind (start wfID (run_ID childRun)) kok end)) Post.
Proof.
  intros Hstart Hb Herr Hok. eapply hoare_bind; [by apply hoare_create_run|]. intros [e|] w [Hw Hdoc]; [by apply Herr|].
  assert (hoare P (fun w => defs_are D w /\ bounded k (run_ID childRun) w) (bind (start wfID (run_ID childRun)) kok)
            (fun a w => defs_are D w /\ Post a)) as Hgo.
  { eapply hoare_bind; [apply Hstart|]. intros e w' [Hw' _]. by apply Hok. }
  apply Hgo. split; [done|]. intros Hf. split; [pose proof (Hb Hf); lia|]. intros r Hr. destruct (Hdoc eq_refl) as (doc & Hd & Hs). replace r with doc by congruence.
  rewrite (uncalled_keeps (eq "") D childRun); [by apply Hb|]. by apply same_run_keeps.
Qed.

Lemma resolveSubWorkflow_name scope cfg :
  resolveSubWorkflowConfig e_sandbox step scope = Ok cfg -> stack_name (sw_workflowID cfg).
Proof.
  unfold resolveSubWorkflowConfig. destruct (st_Input step) as [input|]; [|done]. destruct (aget input "workflow_id"); [|done].
  destruct (evalTemplates e_sandbox _ scope) as [|v]; [done|]. destruct (TrimSpace (Sprint v) =s? "") eqn:E; [done|].
  intros Hr. assert (sw_workflowID cfg = TrimSpace (Sprint v)) as ->.
  { destruct (aget input "input_mapping"); [|by simplify_eq]. destruct (evalTemplates _ _ scope); by simplify_eq. }
  split; [apply TrimSpace_idem|]. by apply String.eqb_neq.
Qed.

Lemma child_run_stack run childRunID childID input stack :
  run_Metadata (child_run t stepID run childRunID childID input stack) !! "call_stack" = Some (encodeCallStack (stack ++ [childID])).
Proof.
  unfold child_run. cbn [run_Metadata]. destruct (is_dry_run run); [rewrite lookup_insert_ne by done|]; by rewrite lookup_insert_eq.
Qed.

Lemma safe_schedule_subworkflow k start run sr :
  starts k start -> (C -> (uncalled D run <= k)%nat) ->
  safe D P (schedule_subworkflow t stepID step start run sr) (keeps (eq stepID) run).
Proof.
  intros Hstart Hb. unfold schedule_subworkflow. cbv zeta. safe_step; [safe_call|].
  match goal with E : resolveSubWorkflowConfig _ _ _ = Ok ?c |- _ => apply resolveSubWorkflow_name in E as Hname; rename c into cfg end.
  safe_step.
  - safe_step; [safe_call|]. safe_step; [safe_call|]. safe_step. safe_step; [safe_call|]. safe_step.
    eapply (safe_create_start k); [exact Hstart| |intros; safe_call|].
    + intros Hf. eapply Nat.lt_le_trans; [|by apply Hb]. eapply uncalled_push; [by apply HC| |exact Hname|eassumption|apply child_run_stack].
      match goal with E : forall wf, _ = Ok wf -> _ |- _ => rewrite (E _ eq_refl) end. done.
    + intros e. safe_step; [safe_call|]. safe_walk. keeps_go.
  - safe_step. safe_step; [safe_call|]. safe_step; try safe_call; [apply safe_ret; keeps_go..|].
    safe_step; [safe_call|]. safe_step; safe_call.
Qed.

(** *** Handlers that submit jobs *)

Section Submit.
Context (Hsub : forall run req stored, dispatch_ok D run req stored -> P (EvSubmitting run req stored)).
Context (workflowID : string) (HD : D !! workflowID = Some wf) (Hstep : wf_Steps wf !! stepID = Some step).
Context (run0 : WorkflowRun) (Hready : ready wf run0 stepID step).

Lemma submit_event run req stored :
  keeps (eq stepID) run0 run -> job_of wf stepID step run stored (jr_JobId req) -> P (EvSubmitting run req stored).
Proof. intros Hk Hj. apply Hsub. exists workflowID, wf, stepID, step, run0. done. Qed.

Lemma jr_JobId_set_env k v req : jr_JobId (set_env k v req) = jr_JobId req.
Proof. by destruct req. Qed.

Lemma jr_JobId_ptr b ptr req : jr_JobId (if b : bool then req else set_jr_ContextPtr ptr req) = jr_JobId req.
Proof. by destruct b, req. Qed.

(** Store the run, then submit the job of the step it has on its way. *)
Lemma safe_persist_submit {B} sr run req jobID n (kerr : WorkflowRun -> M B) (kok : WorkflowRun -> option string -> M B) Post :
  st_Type step <> StepTypeLoop -> st_Type step <> StepTypeParallel ->
  keeps (eq stepID) run0 run -> jr_JobId req = jobID -> jobID = JobIds.job_id (run_ID run0) stepID n ->
  (sr_Status sr = StepStatusRunning \/ sr_Status sr = StepStatusWaiting) -> sr_JobID sr = jobID -> sr_Attempts sr = n ->
  (forall r', keeps (eq stepID) run0 r' -> safe D P (kerr r') Post) ->
  (forall r' e, keeps (eq stepID) run0 r' -> safe D P (kok r' e) Post) ->
  safe D P (bind (update_run (set_step stepID sr run))
              (fun x => match x with (r', err) => match err with Some _ => kerr r' | None => bind (submit r' req) (kok r') end end)) Post.
Proof.
  intros Hnl Hnp Hk Hreq Hjob Hst Hsj Hn Herr Hok. assert (keeps (eq stepID) run0 (set_step stepID sr run)) as Hk' by keeps_go.
  eapply hoare_bind; [by apply hoare_update_run|]. intros [r' err] w (Hw & Hs & Hdoc).
  assert (keeps (eq stepID) run0 r') as Hkr by (eapply keeps_trans; [exact Hk'|by apply same_run_keeps]).
  destruct err as [e|]; [by apply Herr|]. destruct (Hdoc eq_refl) as (doc & Hd & Hds).
  assert (hoare P (fun w' => w' = w) (bind (submit r' req) (kok r')) (fun a w => defs_are D w /\ Post a)) as Hgo; [|by apply Hgo].
  eapply hoare_bind; [eapply (hoare_submit D P Hquiet)|]; [by intros w' ->| |].
  - intros w' ->. apply submit_event; [done|]. eapply (own_job _ _ _ _ _ _ n); [done|done| |].
    { rewrite Hreq, Hjob. f_equal. symmetry. apply Hkr. }
    assert (run_ID r' = run_ID (set_step stepID sr run)) as -> by apply Hs. rewrite Hd.
    destruct Hds as (_ & _ & Hslot). specialize (Hslot stepID). rewrite step_run_set_step_eq in Hslot.
    inversion Hslot as [? sr' (E1 & E2 & E3)|]; subst. exists doc, sr'. split_and!; [done|done|by rewrite E1|congruence|done].
  - intros e w' [Hw' _]. by apply Hok.
Qed.

Lemma safe_schedule_worker sr :
  st_Type step <> StepTypeLoop -> st_Type step <> StepTypeParallel ->
  safe D P (schedule_worker wf t stepID step run0 sr) (keeps (eq stepID) run0).
Proof.
  intros Hnl Hnp. unfold schedule_worker. cbv zeta. safe_step; [safe_walk; keeps_go|].
  safe_step; [safe_call|]. safe_step. safe_step; [safe_call|].
  eapply (safe_persist_submit _ _ _ _ (sr_Attempts sr + 1)%Z); [done|done|done|by rewrite jr_JobId_ptr|done|by left|done|done| |].
  - intros r' Hk. apply safe_ret. keeps_go.
  - intros r' e Hk. safe_walk. subst. keeps_go.
Qed.

Lemma safe_schedule_approval sr :
  st_Type step = StepTypeApproval -> safe D P (schedule_approval wf t stepID step run0 sr) (keeps (eq stepID) run0).
Proof.
  intros Ha. unfold schedule_approval. cbv zeta. safe_step; [|safe_walk; keeps_go]. safe_step; [safe_call|]. safe_step.
  match goal with |- safe _ _ (match ?u with Some _ => _ | None => _ end) _ => destruct u; [safe_call|] end.
  safe_step; [safe_call|].
  eapply (safe_persist_submit _ _ _ _ 1%Z); [congruence|congruence|keeps_go|done|done|by right|done|done| |].
  - intros r' Hk. apply safe_ret. keeps_go.
  - intros r' e Hk. safe_walk. subst. keeps_go.
Qed.

(** *** Dispatch loops *)

Lemma safe_dispatch_loop {A} (Inv : dispatching -> Prop) (body : A -> dispatching -> M dispatching) l d :
  (forall x d, x ∈ l -> Inv d -> safe D P (body x d) Inv) -> Inv d -> safe D P (dispatch_loop step body l d) Inv.
Proof.
  revert d. induction l as [|x l IH]; intros d Hb Hd; cbn [dispatch_loop]; [by apply safe_ret|].
  safe_step; [by apply safe_ret|]. eapply safe_bind; [apply Hb; [left|done]|]. intros d' Hd'. apply IH; [|done].
  intros y d1 Hy. apply Hb. by right.
Qed.

Definition d_keeps (d : dispatching) : Prop := keeps (eq stepID) run0 (d_run d).

Lemma d_keeps_link id child d : d_keeps d -> ~ plain id \/ finished (d_run d) id = false -> d_keeps (d_link id child d).
Proof. unfold d_keeps. cbn. intros Hd Hid. eapply keeps_trans; [exact Hd|]. apply keeps_set_step. tauto. Qed.

Lemma d_keeps_dispatched id child d :
  d_keeps d -> ~ plain id \/ finished (d_run d) id = false -> d_keeps (d_dispatched id child d).
Proof. apply d_keeps_link. Qed.

Lemma safe_dispatch_item ix d :
  st_ForEach step <> "" -> st_Type step <> StepTypeLoop -> st_Type step <> StepTypeParallel -> d_keeps d ->
  safe D P (dispatch_item wf t stepID step ix d) d_keeps.
Proof.
  intros Hf Hnl Hnp Hd. unfold dispatch_item. destruct ix as [idx item]. cbv zeta.
  pose proof (child_id_not_plain stepID idx) as Hplain.
  generalize (default (new_step_run_status (JobIds.child_id stepID idx) StepStatusPending)
    (child_of (d_run d) (d_parent d) (JobIds.child_id stepID idx))). intros child.
  do 3 (safe_step; [safe_walk|]). safe_step; [apply safe_ret, d_keeps_link; auto|].
  safe_step. safe_step; [apply safe_ret, d_keeps_link; auto|].
  eapply safe_bind.
  { apply safe_submit; [done|]. intros stored. apply submit_event; [done|]. eapply (item_job _ _ _ _ _ _ idx); [done|done|done|].
    rewrite jr_JobId_ptr. destruct (e_marshal item); by rewrite ?jr_JobId_set_env. }
  intros e _. safe_walk; [apply d_keeps_link|apply d_keeps_dispatched]; auto.
Qed.

Lemma keeps_precreate n idx sr run :
  keeps (eq stepID) run0 run -> keeps (eq stepID) run0 (snd (precreate stepID n idx sr run)).
Proof.
  revert idx sr run. induction n as [|n IH]; intros idx sr run Hk; cbn [precreate]; [done|].
  destruct (child_of run sr _); apply IH; keeps_go.
Qed.

Lemma safe_foreach_items sr done items :
  st_ForEach step <> "" -> st_Type step <> StepTypeLoop -> st_Type step <> StepTypeParallel ->
  safe D P (foreach_items wf t stepID step run0 sr done items) (fun s => keeps (eq stepID) run0 (fst s)).
Proof.
  intros Hf Hnl Hnp. unfold foreach_items. safe_step; [safe_walk; subst; cbn [fst]; keeps_go|].
  pose proof (keeps_precreate (length items) 0 sr run0) as Hp.
  destruct (precreate stepID (length items) 0 sr run0) as [sr1 run1]. cbn [snd] in Hp. cbv zeta.
  eapply safe_bind; [apply (safe_dispatch_loop d_keeps)|].
  - intros x d _ Hd. by apply safe_dispatch_item.
  - by apply Hp.
  - intros d Hd. apply safe_ret. unfold d_keeps in Hd. cbn [fst]. keeps_go.
Qed.

Lemma safe_schedule_foreach sr done :
  st_ForEach step <> "" -> st_Type step <> StepTypeLoop -> st_Type step <> StepTypeParallel ->
  safe D P (schedule_foreach wf t stepID step run0 sr done) (fun s => keeps (eq stepID) run0 (fst s)).
Proof.
  intros Hf Hnl Hnp. unfold schedule_foreach. cbv zeta. safe_step; [by apply safe_foreach_items|].
  safe_step; [safe_walk; subst; cbn [fst]; keeps_go|]. safe_step; [safe_walk; subst; cbn [fst]; keeps_go|]. by apply safe_foreach_items.
Qed.

(** *** Loops *)

Lemma safe_dispatch_iteration bodyStep idx previous scope sr cfg :
  st_Type step = StepTypeLoop -> resolveLoopConfig step = Ok cfg -> (Z.of_nat idx < lc_maxIterations cfg)%Z ->
  safe D P (dispatch_iteration wf t stepID bodyStep idx previous scope run0 sr) (keeps (eq stepID) run0).
Proof.
  intros Hl Hcfg Hidx. unfold dispatch_iteration. cbv zeta. unfold link.
  generalize (default (new_step_run_status (JobIds.child_id stepID idx) StepStatusPending)
    (child_of run0 sr (JobIds.child_id stepID idx))). intros child.
  safe_step; [safe_walk; keeps_go|]. safe_step; [safe_walk; keeps_go|]. safe_step. safe_step; [safe_walk; keeps_go|].
  eapply safe_bind.
  { apply safe_submit; [done|]. intros stored. apply submit_event; [done|]. eapply (loop_job _ _ _ _ _ _ idx); [done|done|done|].
    rewrite jr_JobId_ptr. destruct (e_marshal previous); by rewrite ?jr_JobId_set_env. }
  intros e _. safe_walk; keeps_go.
Qed.

Lemma safe_schedule_loop sr :
  st_Type step = StepTypeLoop -> safe D P (schedule_loop wf t stepID step run0 sr) (keeps (eq stepID) run0).
Proof.
  intros Hl. unfold schedule_loop. cbv zeta. do 2 (safe_step; try safe_call; []).
  generalize (if is_open (sr_Status sr) then start_if_nil t (set_sr_Status StepStatusRunning sr) else sr). intros sr0.
  safe_step; [safe_call|]. safe_step; [safe_walk; keeps_go|]. safe_step; [safe_step; safe_call|].
  safe_step; [safe_call|]. safe_step; [|safe_call]. eapply safe_dispatch_iteration; [done|eassumption|].
  match goal with E : (_ <=? _)%Z = false |- _ => apply Z.leb_gt in E; exact E end.
Qed.

(** *** Parallel steps *)

Definition shared (sr : StepRun) (id : string) : Prop := aget (sr_Children sr) id = Some ChildShared.

Lemma shared_link id id' sr : id = id' \/ shared sr id' -> shared (link_child id sr) id'.
Proof.
  unfold shared, link_child. destruct sr; cbn. destruct (decide (id = id')) as [<-|Hne].
  - intros _. apply aget_aset_eq.
  - rewrite aget_aset_ne by done. by intros [?|?].
Qed.

Lemma init_children_spec owners ids seen sr run seen' sr' run' err :
  init_children wf stepID owners ids seen sr run = (seen', sr', run', err) ->
  keeps (eq stepID) run run' /\ (forall id, shared sr id -> shared sr' id) /\
  (err = None -> seen' = (seen ++ ids)%list /\ forall id, id ∈ ids -> shared sr' id).
Proof.
  revert seen sr run. induction ids as [|id ids IH]; intros seen sr run; cbn [init_children].
  { intros [= <- <- <- <-]. split_and!; [done|done|]. intros _. rewrite app_nil_r. split; [done|]. intros id Hid. by apply elem_of_nil in Hid. }
  destruct (wf_Steps wf !! id); [|by intros [= <- <- <- <-]].
  assert (forall run1, keeps (eq stepID) run run1 ->
    init_children wf stepID owners ids (seen ++ [id]) (link_child id sr) run1 = (seen', sr', run', err) ->
    keeps (eq stepID) run run' /\ (forall id, shared sr id -> shared sr' id) /\
    (err = None -> seen' = (seen ++ id :: ids)%list /\ forall id', id' ∈ id :: ids -> shared sr' id')) as Hgo.
  { intros run1 Hk E. apply IH in E as (Hk' & Hsh & Hnone). split_and!; [by eapply keeps_trans| |].
    - intros id' ?. apply Hsh, shared_link. by right.
    - intros He. destruct (Hnone He) as [-> Hall]. split; [by rewrite <- app_assoc|].
      intros id' [->|Hid]%elem_of_cons; [|by apply Hall]. apply Hsh, shared_link. by left. }
  destruct (owners !! id) as [ownerID|]; [destruct (negb _); [by intros [= <- <- <- <-]|]|];
    unfold link; apply Hgo; by apply keeps_pending.
Qed.

Lemma aget_filter {V} (f : string -> bool) (m : list (string * V)) k :
  f k = true -> aget (List.filter (fun kc => f (fst kc)) m) k = aget m k.
Proof.
  intros Hk. induction m as [|[k' v] m IH]; [done|]. cbn. destruct (f k') eqn:E; cbn.
  - by rewrite IH.
  - destruct (k' =s? k) eqn:E'; [|done]. apply String.eqb_eq in E'. congruence.
Qed.

Lemma shared_keep ids sr id : id ∈ ids -> shared sr id -> shared (keep_children ids sr) id.
Proof.
  intros Hid Hs. unfold shared, keep_children. destruct sr; cbn in *.
  rewrite (aget_filter (fun k => existsb (String.eqb k) ids)); [done|]. apply existsb_exists. exists id.
  split; [by apply list_elem_of_In|apply String.eqb_refl].
Qed.

Lemma shared_child run sr id : shared sr id -> child_of run sr id = step_run run id.
Proof. unfold shared, child_of. by intros ->. Qed.

Lemma safe_cancelParallelChildren sr run ids :
  keeps (eq stepID) run0 run -> (forall id, id ∈ ids -> shared sr id) ->
  safe D P (cancelParallelChildren t sr run ids) (fun s => keeps (eq stepID) run0 (snd (fst s))).
Proof.
  intros Hk Hsh. unfold cancelParallelChildren.
  eapply safe_conseq; [apply (safe_mfold (fun s => keeps (eq stepID) run0 (snd (fst s)) /\ forall id, id ∈ ids -> shared (fst (fst s)) id))|by intros ? []]; [|done].
  intros [[sr1 run1] n] id Hid [Hk1 Hsh1]. cbn [fst snd] in *. unfold cancel_parallel_child. rewrite shared_child by auto.
  assert (forall A (o : option A) x, match o with Some c => Some c | None => o end = Some x -> o = Some x) as Hoo by by intros ? [].
  safe_step; [|by apply safe_ret]. match goal with E : _ = Some ?s |- _ => apply Hoo in E; rename s into child, E into Ec end.
  safe_step; [by apply safe_ret|]. eapply safe_bind with (Mid := fun _ => True); [safe_walk; safe_call|]. intros _ _. cbv zeta.
  unfold link. apply safe_ret. cbn [fst snd]. split.
  - eapply keeps_trans; [exact Hk1|]. apply keeps_set_step. right. left. unfold finished, status_of. by rewrite Ec.
  - intros id' Hid'. apply shared_link. auto.
Qed.

Lemma safe_dispatch_parallel_child id d :
  st_Type step = StepTypeParallel -> d_keeps d -> safe D P (dispatch_parallel_child wf t id d) d_keeps.
Proof.
  intros Hp Hd. unfold dispatch_parallel_child. cbv zeta. safe_step; [|by apply safe_ret].
  assert (is_open (sr_Status (default (new_step_run_status id StepStatusPending) (step_run (d_run d) id))) =
          is_open (status_of (d_run d) id)) as Ho by (unfold status_of; by destruct (step_run (d_run d) id)).
  revert Ho. generalize (default (new_step_run_status id StepStatusPending) (step_run (d_run d) id)). intros child ->.
  destruct (is_open (status_of (d_run d) id)) eqn:Eo; cbn [negb]; [|by apply safe_ret].
  assert (finished (d_run d) id = false) as Hf by (unfold finished; by destruct (status_of (d_run d) id)).
  do 2 (safe_step; [safe_walk|]). safe_step; [apply safe_ret, d_keeps_link; auto|]. safe_step.
  safe_step; [apply safe_ret, d_keeps_link; auto|].
  eapply safe_bind with (Mid := fun _ => True).
  { apply safe_submit; [done|]. intros stored. apply submit_event; [done|]. eapply (parallel_job _ _ _ _ _ _ id); [done|done|done|].
    by rewrite jr_JobId_ptr. }
  intros e _. safe_walk; [apply d_keeps_link|apply d_keeps_dispatched]; auto.
Qed.

Lemma safe_schedule_parallel owners sr done :
  st_Type step = StepTypeParallel ->
  safe D P (schedule_parallel wf t stepID step owners run0 sr done) (fun s => keeps (eq stepID) run0 (fst s)).
Proof.
  intros Hp. unfold schedule_parallel. cbv zeta.
  assert (forall m, safe D P m (keeps (eq stepID) run0) ->
    safe D P (run <- m ;; ret (run, done)) (fun s => keeps (eq stepID) run0 (fst s))) as Hsame.
  { intros m Hm. eapply safe_bind; [exact Hm|]. intros r Hr. by apply safe_ret. }
  safe_step; [apply Hsame; safe_call|]. safe_step; [apply Hsame; safe_call|]. safe_step; [apply Hsame; safe_call|].
  eapply safe_bind with (Mid := fun _ => True); [safe_walk|]. intros sr1 _.
  destruct (init_children wf stepID owners _ [] sr1 run0) as [[[seen sr2] run1] initErr] eqn:Ei.
  apply init_children_spec in Ei as (Hk & _ & Hnone). destruct initErr as [msg|]; [apply Hsame; safe_call|].
  destruct (Hnone eq_refl) as [-> Hall]. cbn [app] in *.
  destruct (evaluateParallelOutcome _ _ _ _ _) as [[success message]|].
  - eapply safe_bind; [apply safe_cancelParallelChildren|].
    + exact Hk.
    + intros id Hid. apply shared_keep; auto.
    + intros [[sr3 run3] n] Hk3. cbn [fst snd] in Hk3. safe_step; [safe_step|]; apply Hsame; safe_call.
  - eapply safe_bind; [apply (safe_dispatch_loop d_keeps)|].
    + intros x d _ Hd. by apply safe_dispatch_parallel_child.
    + exact Hk.
    + intros d Hd. apply safe_ret. unfold d_keeps in Hd. cbn [fst]. keeps_go.
Qed.

End Submit.

End Step.
Hint Resolve safe_condition_gate : safe.

(** ** Scheduling *)

(** The delay steps of a workflow, which the scheduler turns to in any status. *)
Definition is_delay (wf : Workflow) (id : string) : Prop := exists step, wf_Steps wf !! id = Some step /\ st_Type step = StepTypeDelay.

Lemma may_schedule_finished step s :
  may_schedule step s = true -> isTerminalStepStatus s = true -> st_Type step = StepTypeDelay.
Proof.
  unfold may_schedule. destruct s; try done; intros Hm _; destruct (negb _ || _); try done; by destruct (st_Type step).
Qed.

Section Schedule.
Context (Hsub : forall run req stored, dispatch_ok D run req stored -> P (EvSubmitting run req stored)).
Context (workflowID : string) (wf : Workflow) (HD : D !! workflowID = Some wf) (t : Z).
Context (k : nat) (start : string -> string -> M (option string)) (Hstart : starts k start).

Lemma safe_handle_step stepID step owners run sr done :
  wf_Steps wf !! stepID = Some step -> (st_Type step <> StepTypeDelay -> ready wf run stepID step) ->
  (C -> (uncalled D run <= k)%nat) ->
  safe D P (handle_step wf t stepID step start owners run sr done) (fun s => keeps (eq stepID) run (fst s)).
Proof.
  intros Hstep Hready Hb. unfold handle_step. cbv zeta.
  assert (forall m, safe D P m (keeps (eq stepID) run) ->
    safe D P (run <- m ;; ret (run, done)) (fun s => keeps (eq stepID) run (fst s))) as Hsame.
  { intros m Hm. eapply safe_bind; [exact Hm|]. intros r Hr. by apply safe_ret. }
  destruct (st_Type step) eqn:Et; try (specialize (Hready ltac:(discriminate)));
    try (destruct (negb (st_ForEach step =s? "")) eqn:Ef;
         [eapply safe_schedule_foreach; eauto; try congruence; intros E; by rewrite E in Ef|]);
    try eapply safe_schedule_parallel; eauto; try apply Hsame;
    try (eapply safe_schedule_worker; eauto; congruence);
    eauto using safe_schedule_condition, safe_schedule_approval, safe_schedule_delay, safe_schedule_notify,
      safe_schedule_transform, safe_schedule_switch, safe_schedule_storage, safe_schedule_subworkflow,
      safe_schedule_loop.
Qed.

Lemma safe_schedule_step stepID step s :
  wf_Steps wf !! stepID = Some step -> (C -> (uncalled D (fst s) <= k)%nat) ->
  safe D P (schedule_step wf t stepID step start (collectParallelChildOwners wf) (collectLoopBodyOwners wf) s)
    (fun s' => keeps (is_delay wf) (fst s) (fst s')).
Proof.
  intros Hstep Hb. destruct s as [run done]. unfold schedule_step. fold (is_managed wf stepID). cbn [fst] in *.
  destruct (is_managed wf stepID) eqn:Em; [by apply safe_ret|]. cbv zeta.
  destruct (may_schedule step _) eqn:Ems; cbn [negb]; [|by apply safe_ret].
  destruct (depsSatisfied step run wf) eqn:Ed; cbn [negb]; [|by apply safe_ret].
  destruct (handler_inactive wf stepID _) eqn:Eh; [by apply safe_ret|].
  assert (finished run stepID = false \/ is_delay wf stepID) as Hfin.
  { destruct (finished run stepID) eqn:Ef; [|by left]. right. exists step. split; [done|].
    eapply may_schedule_finished; [exact Ems|]. revert Ef. unfold finished, status_of. by destruct (step_run run stepID). }
  safe_step. safe_step.
  - apply safe_ret. cbn [fst]. eapply keeps_drop; [exact Hfin|]. auto.
  - eapply safe_conseq; [apply safe_handle_step; [done| |done]|].
    + intros Hnd. split_and!; [done| |done|done]. destruct Hfin as [?|(st & Hst & ?)]; [done|]. congruence.
    + intros s' Hs'. by eapply keeps_drop.
Qed.

Lemma safe_activate_failed run : safe D P (activate_failed wf run) (keeps (is_delay wf) run).
Proof.
  unfold activate_failed. apply safe_mfold; [|done]. intros r [sid sr] _ Hr.
  assert (safe D P (activateOnErrorHandler r wf sid sr) (keeps (is_delay wf) run)) as Ha.
  { eapply safe_conseq; [apply (safe_activate (is_delay wf))|]. intros r' Hr'. by eapply keeps_trans. }
  destruct (sr_Status sr); try done; by apply safe_ret.
Qed.

Lemma safe_schedule_pass s :
  (C -> (uncalled D (fst s) <= k)%nat) ->
  safe D P (schedule_pass start wf t s) (fun s' => keeps (is_delay wf) (fst s) (fst s')).
Proof.
  intros Hb. unfold schedule_pass. cbv zeta. safe_step.
  eapply safe_bind; [apply (safe_mfold (fun s' => keeps (is_delay wf) (fst s) (fst s')))|].
  - intros s' [stepID step] Hin Hs'. eapply safe_conseq; [apply safe_schedule_step|].
    + rewrite e_step_order_perm in Hin. by apply elem_of_map_to_list in Hin.
    + intros Hf. rewrite (uncalled_keeps _ _ _ _ Hs'). auto.
    + intros s'' Hs''. by eapply keeps_trans.
  - done.
  - intros [run done] Hs'. cbn [fst] in Hs'. eapply safe_bind; [apply safe_activate_failed|]. intros r Hr. apply safe_ret. cbn [fst].
    by eapply keeps_trans.
Qed.

Lemma safe_schedule_passes n s :
  (C -> (uncalled D (fst s) <= k)%nat) ->
  safe D P (schedule_passes n start wf t s) (fun s' => keeps (is_delay wf) (fst s) (fst s')).
Proof.
  revert s. induction n as [|n IH]; intros s Hb; cbn [schedule_passes]; [by apply safe_ret|].
  eapply safe_bind; [by apply safe_schedule_pass|]. intros s' Hs'. safe_step; [by apply safe_ret|].
  eapply safe_conseq; [apply IH|].
  - intros Hf. rewrite (uncalled_keeps _ _ _ _ Hs'). auto.
  - intros s'' Hs''. eapply keeps_trans; [exact Hs'|exact Hs''].
Qed.

End Schedule.
End Handlers.
