(* ===== verification/WorkflowDispatch.v ===== *)
(** * The entry points of the workflow engine: what they dispatch, and that they end

    Every entry point of [WorkflowEngine] and [WorkflowReconciler] walked with the
    rules of [WorkflowSafety], and the theorems about all of them together: jobs
    are submitted only for steps whose dependencies are satisfied, the jobs of
    worker and approval steps only after the store has the step on its way, and
    starting a run ends. *)
From S2P Require Import Prelude.
From S2P Require Import GoStrings.
From S2P Require Import PolicyTypes.
From S2P Require Import GoValues.
From S2P Require Import WorkflowModels.
From S2P Require Import WorkflowHelpers.
From S2P Require Import WorkflowState.
From S2P Require Import WorkflowEval.
From S2P Require Import WorkflowStore.
From S2P Require Import WorkflowJob.
From S2P Require Import WorkflowSchedule.
From S2P Require Import WorkflowEngine.
From S2P Require Import WorkflowReconciler.
From S2P Require Import WorkflowDemo.
From S2P Require Import WorkflowLogic.
From S2P Require Import WorkflowSafety.

Open Scope string_scope.

(** ** Pure transitions *)

Lemma keeps_skip_ext X r0 run : skip_ext r0 run -> keeps X r0 run.
Proof.
  intros [Hr Hs]. rewrite Hr. split_and!; [done..|]. intros id _ _ Hf. rewrite <- Hr. unfold finished, status_of in *.
  destruct (Hs id) as [E|(Hp & _)]; [by rewrite E|]. unfold status_of in Hp. by rewrite Hp in Hf.
Qed.

Section Pure.
Context `{GoRuntime}.

Lemma status_step_ext wf skipNow r0 a id step :
  skip_ext r0 (acc_run a) -> skip_ext r0 (acc_run (status_step wf skipNow a id step)).
Proof.
  intros Hx. pose proof (skip_ext_skip wf r0 (acc_run a) id skipNow Hx) as Hsk. unfold status_step.
  destruct (is_managed wf id); [done|]. cbv zeta. destruct (step_run (acc_run a) id) as [sr|]; [|by destruct (isOnErrorTarget wf id)].
  destruct (sr_Status sr); try done; try (destruct (negb _); [|done]; by destruct (walkOnErrorChain _ _ _)).
  by destruct (isSwitchBranchNotTaken sr).
Qed.

Lemma keeps_updateRunStatus X run wf t skipNow : keeps X run (updateRunStatus run wf t skipNow).
Proof.
  unfold updateRunStatus. destruct (_ || _); [done|]. cbv zeta.
  match goal with |- context [foldl ?f ?a ?l] => set (acc := foldl f a l); assert (skip_ext run (acc_run acc)) as Hx end.
  { unfold acc. clear acc. match goal with |- skip_ext run (acc_run (foldl ?f _ _)) =>
      assert (forall ls a, skip_ext run (acc_run a) -> skip_ext run (acc_run (foldl f a ls))) as Hgo end.
    { intros l. induction l as [|[id step] l IH]; intros a Ha; [done|]. apply IH. by apply status_step_ext. }
    apply Hgo, skip_ext_refl. }
  apply (keeps_skip_ext X) in Hx. revert Hx. generalize (acc_run acc). intros r Hr.
  destruct (acc_failed acc), (acc_denied acc), (acc_timedOut acc), (acc_waiting acc), (acc_allDone acc && (acc_completed acc =? acc_expected acc)%Z);
    (eapply keeps_trans; [exact Hr|by apply keeps_fields]).
Qed.

(** Closing every step keeps the finished ones. *)
Lemma keeps_close_steps X wf run close :
  (forall sr, isTerminalStepStatus (sr_Status sr) = true -> sr_Status (close sr) = sr_Status sr) ->
  keeps X run (snd (close_steps close (ensure_steps wf run))).
Proof.
  intros Hc. unfold close_steps, ensure_steps. split_and!; [by destruct run..|]. intros id _ _. unfold finished, status_of, step_run.
  destruct run. cbn. rewrite lookup_fmap, lookup_union. destruct (_ !! id) as [sr|]; [|done]. rewrite union_Some_l. cbn. apply Hc.
Qed.

End Pure.

(** ** Entry points *)

Section Entry.
Context `{GoRuntime} `{FloatPrinter} `{FloatParser} `{ExprEngine} `{EngineEnv}.
Context (D : gmap string Workflow) (P : Event -> Prop) (Hquiet : forall e, quiet e -> P e).
Context (Hsub : forall run req stored, dispatch_ok D run req stored -> P (EvSubmitting run req stored)).
Context (C : Prop) (HC : C -> separator_free_ids D) (Hdiv : ~ C -> forall runID, P (EvDiverged runID)).

Lemma safe_cancel_jobs jobs reason identity : safe D P (cancel_jobs jobs reason identity) (fun _ => True).
Proof.
  unfold cancel_jobs. eapply safe_bind; [apply (safe_mfold (fun _ => True))|]; [|done|].
  - intros [seen failed] j _ _. safe_walk.
  - intros [seen failed] _. by apply safe_ret.
Qed.
Hint Resolve safe_cancel_jobs : safe.

Lemma safe_close_run run jobs updating what after reason text data :
  safe D P (close_run run jobs updating what after reason text data) (fun s => same_run run (fst s)).
Proof. unfold close_run. safe_walk. Qed.
Hint Resolve safe_close_run : safe.

Lemma safe_timeoutRun X wf run t : safe D P (timeoutRun wf run t) (fun s => keeps X run (fst s)).
Proof.
  unfold timeoutRun. pose proof (keeps_close_steps X wf run (timeoutStepRun t) (timeoutStepRun_keeps t)) as Hk.
  destruct (close_steps (timeoutStepRun t) (ensure_steps wf run)) as [jobs r]. cbn [snd] in Hk. cbv zeta.
  eapply safe_conseq; [apply safe_close_run|]. intros s Hs. eapply keeps_trans; [|apply same_run_keeps, Hs].
  eapply keeps_trans; [exact Hk|]. by apply keeps_fields.
Qed.

Lemma safe_enforceWorkflowTimeout X wf run t :
  safe D P (enforceWorkflowTimeout wf run t) (fun s => keeps X run (fst s)).
Proof.
  unfold enforceWorkflowTimeout. safe_step; [|by apply safe_ret]. eapply safe_bind; [apply (safe_timeoutRun X)|]. intros [r e] Hr.
  by apply safe_ret.
Qed.

Lemma safe_status_event prev run : safe D P (status_event prev run) (fun _ => True).
Proof. unfold status_event. safe_walk. safe_call. Qed.
Hint Resolve safe_status_event : safe.

Section Level.
Context (k : nat) (start : string -> string -> M (option string)) (Hstart : starts D P C k start).

Lemma safe_scheduleReady workflowID wf run :
  D !! workflowID = Some wf -> (C -> (uncalled D run <= k)%nat) ->
  safe D P (scheduleReady start wf run) (fun s => keeps (is_delay wf) run (fst s)).
Proof.
  intros HD Hb. unfold scheduleReady. safe_step; [safe_walk|]. safe_step. cbv zeta.
  set (run1 := if bool_decide (run_Status run = RunStatusPending) then _ else run).
  assert (keeps (is_delay wf) run run1) as K1 by (unfold run1; case_bool_decide; by apply keeps_fields).
  eapply safe_bind; [apply (safe_enforceWorkflowTimeout (is_delay wf))|]. intros [run2 timed] K2. cbn [fst] in K2.
  assert (keeps (is_delay wf) run run2) as K2' by by eapply keeps_trans.
  destruct timed as [e|[]]; [by apply safe_ret..|].
  eapply safe_bind; [eapply (safe_schedule_passes D P Hquiet C HC Hsub workflowID wf HD); [exact Hstart|]|].
  { cbn [fst]. intros Hc. rewrite (uncalled_keeps _ _ _ _ K2'). auto. }
  intros [run3 done] K3. cbn [fst] in K3. safe_step. safe_step.
  match goal with |- safe _ _ (bind (update_run ?r) _) _ => assert (keeps (is_delay wf) run r) as K4 end.
  { eapply keeps_trans; [exact K2'|]. eapply keeps_trans; [exact K3|]. eapply keeps_trans; [apply keeps_updateRunStatus|].
    by apply keeps_fields. }
  eapply safe_bind; [by apply safe_update_run|]. intros [run5 err] Ks.
  assert (keeps (is_delay wf) run run5) as K5 by (eapply keeps_trans; [exact K4|by apply same_run_keeps]).
  destruct err; [by apply safe_ret|]. eapply safe_bind with (Mid := fun _ => True); [safe_walk; safe_call|]. intros; by apply safe_ret.
Qed.

Lemma safe_advance_run workflowID wf run :
  D !! workflowID = Some wf -> (C -> (uncalled D run <= k)%nat) -> safe D P (advance_run start wf run) (fun _ => True).
Proof.
  intros HD Hb. unfold advance_run. cbv zeta.
  assert (safe D P ('(_, err) <- scheduleReady start wf run ;; ret err) (fun _ => True)) as Hgo.
  { eapply safe_bind; [by eapply safe_scheduleReady|]. intros [] _. by apply safe_ret. }
  safe_step; [safe_walk|]. destruct (run_Status run); try exact Hgo. safe_step; [by apply safe_ret|].
  safe_step; [exact Hgo|]. safe_step. safe_step; [by apply safe_ret|]. safe_step; [by apply safe_ret|exact Hgo].
Qed.

Lemma safe_fail_orphan run : safe D P (fail_orphan run) (fun _ => True).
Proof. unfold fail_orphan. safe_walk. Qed.

(** A world in which the run may be started. *)
Definition startable (runID : string) (w : World) : Prop := defs_are D w /\ bounded D C (S k) runID w.

Lemma startable_log runID w e : startable runID w -> startable runID (mkWorld (w_store w) (w_trace w ++ [e])).
Proof. done. Qed.

Lemma hoare_get_workflow_startable runID workflowID :
  hoare P (startable runID) (get_workflow workflowID)
    (fun r w => startable runID w /\ forall wf, r = Ok wf -> D !! workflowID = Some wf).
Proof.
  eapply hoare_conseq; [apply (hoare_read P Hquiet _ _ (startable runID)); apply startable_log|done|].
  intros r w [Hw Hr]. split; [done|]. intros wf E. apply Hr in E. unfold GetWorkflow in E. destruct (_ =s? _); [done|].
  destruct Hw as [Hw _]. rewrite Hw in E. destruct (D !! workflowID); congruence.
Qed.

Lemma hoare_get_run_startable runID :
  hoare P (startable runID) (get_run runID)
    (fun r w => startable runID w /\ forall run, r = Ok run -> C -> (uncalled D run <= k)%nat).
Proof.
  eapply hoare_conseq; [apply (hoare_read P Hquiet _ _ (startable runID)); apply startable_log|done|].
  intros r w [Hw Hr]. split; [done|]. intros run E Hc. apply Hr in E. unfold GetRun in E. destruct (_ =s? _); [done|].
  destruct (s_runs (w_store w) !! runID) as [run'|] eqn:El; [|done]. simplify_eq. destruct Hw as [_ Hb].
  destruct (Hb Hc) as [_ Hlt]. specialize (Hlt _ El). lia.
Qed.

Lemma hoare_startRunLocked workflowID runID :
  hoare P (startable runID) (startRunLocked start workflowID runID) (fun _ w => defs_are D w /\ True).
Proof.
  assert (forall w, startable runID w -> defs_are D w /\ True) as Hd by by intros w [? _].
  assert (forall A (m : M A) Post, safe D P m Post -> hoare P (startable runID) m (fun _ w => defs_are D w /\ True)) as Hsafe.
  { intros A m Post Hm. eapply hoare_conseq; [exact Hm|by intros w [? _]|by intros ? ? [? _]]. }
  unfold startRunLocked. eapply hoare_bind_pure; [apply hoare_get_workflow_startable|]. intros [[|e]|wf] Hwf.
  - eapply hoare_bind_pure; [apply hoare_get_run_startable|]. intros [e|run] Hrun; [by apply hoare_ret|].
    eapply hoare_bind_pure; [apply hoare_get_workflow_startable|]. intros [[|e]|wf] Hwf'; [|by apply hoare_ret|].
    + eapply Hsafe, safe_fail_orphan.
    + eapply Hsafe, safe_advance_run; [by apply Hwf'|by apply Hrun].
  - by apply hoare_ret.
  - eapply hoare_bind_pure; [apply hoare_get_run_startable|]. intros [e|run] Hrun; [by apply hoare_ret|].
    eapply Hsafe, safe_advance_run; [by apply Hwf|by apply Hrun].
Qed.

End Level.

Lemma hoare_lockRun (I : World -> Prop) runID :
  (forall w e, I w -> I (mkWorld (w_store w) (w_trace w ++ [e]))) -> hoare P I (lockRun runID) (fun _ w => I w /\ True).
Proof.
  intros HI. unfold lockRun. eapply hoare_bind with (Mid := fun _ => I); [by apply hoare_trace|]. intros tr.
  eapply hoare_bind with (Mid := fun _ => I); [apply hoare_log; [by apply Hquiet|auto]|]. intros []. by apply hoare_ret.
Qed.

(** The recursive call: a run with fewer than [k] workflows left to call. *)
Lemma starts_StartRun k : starts D P C k (StartRun k).
Proof.
  induction k as [|k IH]; intros workflowID runID; cbn [StartRun].
  - intros w [Hw Hb]. exists [EvDiverged runID]. split_and!; [done| |done|done]. constructor; [|done]. apply Hdiv.
    intros Hc. destruct (Hb Hc). lia.
  - eapply hoare_bind_pure; [by apply hoare_lockRun|]. intros [] _; [by apply hoare_startRunLocked|].
    apply hoare_ret. by intros w [? _].
Qed.

(** With fuel for every workflow the bound holds of every run. *)
Context (fuel : nat) (Hfuel : C -> (size D < fuel)%nat).

Lemma bounded_fuel runID w : bounded D C fuel runID w.
Proof.
  intros Hc. pose proof (Hfuel Hc). split; [lia|]. intros r _. pose proof (uncalled_le D r). lia.
Qed.

Lemma uncalled_fuel run : C -> (uncalled D run <= fuel)%nat.
Proof. intros Hc. pose proof (Hfuel Hc). pose proof (uncalled_le D run). lia. Qed.

Lemma safe_StartRun workflowID runID : safe D P (StartRun fuel workflowID runID) (fun _ => True).
Proof. eapply hoare_conseq; [apply starts_StartRun| |done]. intros w Hw. split; [done|apply bounded_fuel]. Qed.

Lemma safe_startRunLockHeld workflowID runID : safe D P (startRunLockHeld fuel workflowID runID) (fun _ => True).
Proof.
  eapply hoare_conseq; [apply (hoare_startRunLocked fuel), starts_StartRun| |done]. intros w Hw. split; [done|].
  intros Hc. destruct (bounded_fuel runID w Hc) as [? Hlt]. split; [lia|]. intros r Hr. specialize (Hlt r Hr). lia.
Qed.

Lemma safe_schedule_engine workflowID wf run :
  D !! workflowID = Some wf -> safe D P (scheduleReady (StartRun fuel) wf run) (fun s => keeps (is_delay wf) run (fst s)).
Proof. intros HD. eapply safe_scheduleReady; [apply starts_StartRun|done|apply uncalled_fuel]. Qed.

Lemma safe_lockRun runID : safe D P (lockRun runID) (fun _ => True).
Proof. by apply hoare_lockRun. Qed.
Hint Resolve safe_StartRun safe_startRunLockHeld safe_lockRun : safe.

(** *** Results *)

Lemma safe_cancelForEachSiblings t parent run : safe D P (cancelForEachSiblings t parent run) (fun _ => True).
Proof.
  unfold cancelForEachSiblings. apply safe_mfold; [|done]. intros [p r] [id c] _ _. unfold cancel_sibling. cbv zeta.
  safe_step; [|by apply safe_ret]. safe_step; [by apply safe_ret|]. eapply safe_bind with (Mid := fun _ => True); [safe_walk; safe_call|].
  intros _ _. unfold link. safe_walk.
Qed.

Lemma safe_failStepOutput run stepID sr res err : safe D P (failStepOutput run stepID sr res err) (fun _ => True).
Proof. unfold failStepOutput. safe_walk. Qed.
Hint Resolve safe_cancelForEachSiblings safe_failStepOutput : safe.

Lemma safe_resolveAndValidateStepOutput run step res : safe D P (resolveAndValidateStepOutput run step res) (fun _ => True).
Proof.
  unfold resolveAndValidateStepOutput. eapply safe_bind with (Mid := fun _ => True); [|intros; safe_walk].
  unfold resolveStepOutput. safe_walk.
Qed.

Lemma safe_checkStepOutputPolicy run stepID sr res output : safe D P (checkStepOutputPolicy run stepID sr res output) (fun _ => True).
Proof.
  unfold checkStepOutputPolicy. safe_step; [by apply safe_ret|]. safe_step; [|safe_walk].
  eapply safe_bind with (Mid := fun _ => True); [unfold loadOutputSafetyRequest; safe_walk|]. intros r _. safe_step; [safe_walk|].
  safe_step. safe_step; [safe_walk|]. safe_step. unfold applyStepOutputDecision. safe_walk.
Qed.
Hint Resolve safe_resolveAndValidateStepOutput safe_checkStepOutputPolicy : safe.

Lemma safe_processStepOutput run stepID step sr res b : safe D P (processStepOutput run stepID step sr res b) (fun _ => True).
Proof. unfold processStepOutput. safe_walk. Qed.
Hint Resolve safe_processStepOutput : safe.

Lemma safe_accept_result run stepID sr def res b : safe D P (accept_result run stepID sr def res b) (fun _ => True).
Proof.
  unfold accept_result. cbv zeta. safe_step; [by apply safe_ret|]. safe_step; [by apply safe_ret|]. safe_step.
  destruct (applyResult _ _ _ _) as [sr' retry]. eapply safe_bind with (Mid := fun _ => True); [safe_walk; safe_call|].
  intros [r sr1] _. eapply safe_bind with (Mid := fun _ => True); [safe_walk; safe_call|]. intros; by apply safe_ret.
Qed.

Lemma safe_after_result run stepID sr retry : safe D P (after_result run stepID sr retry) (fun _ => True).
Proof. unfold after_result. safe_walk; safe_call. Qed.
Hint Resolve safe_accept_result safe_after_result : safe.

Lemma safe_activate_quiet run wf stepID sr : safe D P (activateOnErrorHandler run wf stepID sr) (fun _ => True).
Proof. eapply safe_conseq; [by apply (safe_activate D P Hquiet (eq ""))|done]. Qed.
Hint Resolve safe_activate_quiet : safe.

Lemma safe_apply_child_result wf run stepID base res t : safe D P (apply_child_result wf run stepID base res t) (fun _ => True).
Proof.
  unfold apply_child_result. cbv zeta. safe_step. safe_step; [|by apply safe_ret]. destruct p as [[r child] retry]. unfold link.
  eapply safe_bind with (Mid := fun _ => True); [safe_walk; safe_call|]. intros [parent r1] _.
  eapply safe_bind with (Mid := fun _ => True); [safe_walk; safe_call|]. intros r2 _. safe_walk.
Qed.

Lemma safe_apply_step_result wf run stepID res : safe D P (apply_step_result wf run stepID res) (fun _ => True).
Proof.
  unfold apply_step_result. cbv zeta. safe_step. safe_step; [|by apply safe_ret]. destruct p as [[r sr] retry].
  eapply safe_bind with (Mid := fun _ => True); [safe_walk; safe_call|]. intros r2 _. safe_walk.
Qed.
Hint Resolve safe_apply_child_result safe_apply_step_result : safe.


Lemma safe_enforce_quiet wf run t : safe D P (enforceWorkflowTimeout wf run t) (fun _ => True).
Proof. eapply safe_conseq; [by apply (safe_enforceWorkflowTimeout (eq ""))|done]. Qed.

Lemma safe_schedule_quiet workflowID wf run :
  D !! workflowID = Some wf -> safe D P (scheduleReady (StartRun fuel) wf run) (fun _ => True).
Proof. intros HD. eapply safe_conseq; [by eapply safe_schedule_engine|done]. Qed.

Lemma safe_update_run_twice run : safe D P (update_run_twice run) (fun _ => True).
Proof. unfold update_run_twice. safe_walk. eapply safe_conseq; [by apply safe_update_run|done]. Qed.
Hint Resolve safe_enforce_quiet safe_update_run_twice : safe.

Lemma safe_handleJobResultLocked res runID stepID : safe D P (handleJobResultLocked fuel res runID stepID) (fun _ => True).
Proof.
  unfold handleJobResultLocked. safe_step. safe_step; [safe_walk|]. safe_step; [by apply safe_ret|]. safe_step; [safe_walk|].
  eapply safe_bind; [by apply safe_get_workflow|]. intros [e|wf] Hwf; [by apply safe_ret|]. specialize (Hwf _ eq_refl).
  safe_step. safe_step. destruct a1 as [r timed]. destruct timed as [e|[]]; [by apply safe_ret..|]. cbv zeta.
  destruct (JobIds.splitForEachStep stepID) as [base childKey].
  eapply safe_bind with (Mid := fun _ => True); [safe_walk; safe_call|]. intros [r1|] _; [|by apply safe_ret].
  safe_step. safe_step. safe_step. destruct a3 as [r2 err]. destruct err; [by apply safe_ret|].
  eapply safe_bind with (Mid := fun _ => True); [safe_walk; safe_call|]. intros _ _.
  eapply safe_bind with (Mid := fun _ => True); [|intros; by apply safe_ret]. safe_step; [|by apply safe_ret].
  eapply safe_bind; [by eapply safe_schedule_quiet|]. intros [] _. by apply safe_ret.
Qed.
Hint Resolve safe_handleJobResultLocked : safe.

Lemma safe_handleJobResultLockHeld res : safe D P (handleJobResultLockHeld fuel res) (fun _ => True).
Proof. unfold handleJobResultLockHeld. safe_walk. safe_call. Qed.

Lemma safe_HandleJobResult res : safe D P (HandleJobResult fuel res) (fun _ => True).
Proof. unfold HandleJobResult. safe_walk. safe_call. Qed.
Hint Resolve safe_handleJobResultLockHeld safe_HandleJobResult : safe.

Lemma safe_ApproveStep runID stepID approved : safe D P (ApproveStep fuel runID stepID approved) (fun _ => True).
Proof.
  unfold ApproveStep. safe_step. safe_step; [by apply safe_ret|]. safe_step. safe_step; [by apply safe_ret|].
  eapply safe_bind; [by apply safe_get_workflow|]. intros [e|wf] Hwf; [by apply safe_ret|]. specialize (Hwf _ eq_refl).
  safe_step. safe_step. destruct a2 as [r timed]. destruct timed as [e|[]]; [by apply safe_ret..|].
  do 3 (safe_step; try by apply safe_ret). cbv zeta.
  eapply safe_bind with (Mid := fun _ => True); [safe_walk; safe_call|]. intros r1 _.
  safe_step. safe_step. safe_step. safe_step. destruct a5 as [r2 err]. destruct err; [by apply safe_ret|].
  eapply safe_bind with (Mid := fun _ => True); [safe_walk; safe_call|]. intros _ _. safe_step; [|by apply safe_ret].
  eapply safe_bind; [by eapply safe_schedule_quiet|]. intros [] _. by apply safe_ret.
Qed.

Lemma safe_CancelRun runID : safe D P (CancelRun runID) (fun _ => True).
Proof. unfold CancelRun. safe_walk. Qed.

Lemma safe_RerunFrom runID stepID dryRun : safe D P (RerunFrom runID stepID dryRun) (fun _ => True).
Proof. unfold RerunFrom. cbv zeta. safe_walk. Qed.

(** *** Timers *)

Lemma safe_fire_timer workflowID runID : safe D P (fire_timer fuel workflowID runID) (fun _ => True).
Proof. unfold fire_timer. safe_walk. by apply safe_put_store. Qed.

Lemma safe_start_members members : safe D P (start_members fuel members) (fun _ => True).
Proof. unfold start_members. apply safe_mfold; [|done]. intros [] m _ _. safe_walk. Qed.
Hint Resolve safe_start_members : safe.

Lemma safe_poll_delays : safe D P (poll_delays fuel) (fun _ => True).
Proof.
  unfold poll_delays. safe_step. safe_step. unfold PopFiredDelays. cbv zeta.
  eapply safe_bind; [by apply safe_put_store|]. intros _ _. safe_call.
Qed.

Lemma safe_recoverDelayTimers : safe D P (recoverDelayTimers fuel) (fun _ => True).
Proof.
  unfold recoverDelayTimers. safe_step. safe_step. unfold PopFiredDelays. cbv zeta.
  eapply safe_bind; [by apply safe_put_store|]. intros _ _. safe_step. safe_step. apply safe_mfold; [|done].
  intros [] [m sc] _ _. safe_walk. safe_call.
Qed.
Hint Resolve safe_ApproveStep safe_CancelRun safe_RerunFrom safe_fire_timer safe_poll_delays safe_recoverDelayTimers : safe.

(** *** The reconciler *)

Context (job_state : list Event -> string -> result (option string) string)
        (job_result_ptr job_failure : list Event -> string -> result string string)
        (try_lock : list Event -> string -> result string bool).

Lemma safe_reconcileStuckWaitingSteps run : safe D P (reconcileStuckWaitingSteps job_state run) (fun _ => True).
Proof.
  unfold reconcileStuckWaitingSteps. safe_step. eapply safe_bind; [apply (safe_mfold (fun _ => True))|]; [|done|].
  - intros [r b] [id sr] _ _. safe_walk.
  - intros [r []] _; safe_walk.
Qed.

Lemma safe_advance_from_state run sr :
  safe D P (advance_from_state job_state job_result_ptr job_failure fuel run sr) (fun _ => True).
Proof. unfold advance_from_state. safe_walk. Qed.
Hint Resolve safe_reconcileStuckWaitingSteps safe_advance_from_state : safe.

Lemma safe_reconcileRun runID :
  safe D P (reconcileRun job_state job_result_ptr job_failure try_lock fuel runID) (fun _ => True).
Proof.
  unfold reconcileRun. safe_step; [by apply safe_ret|]. safe_step. safe_step; [by apply safe_ret|]. safe_step; [|by apply safe_ret].
  safe_step. safe_step; [by apply safe_ret|]. safe_step; [by apply safe_ret|].
  eapply safe_bind; [apply (safe_mfold (fun _ => True)); [|done]; intros; safe_call|]. intros _ _. safe_step.
  eapply safe_bind with (Mid := fun _ => True); [safe_walk; safe_call|]. intros r _. safe_walk.
Qed.

Lemma safe_reconcileOrphanedJobs runID : safe D P (reconcileOrphanedJobs job_state try_lock runID) (fun _ => True).
Proof.
  unfold reconcileOrphanedJobs. safe_step; [by apply safe_ret|]. safe_step. safe_step; [by apply safe_ret|].
  assert (forall jobs reason identity, safe D P (mfold (fun _ jobID => '_ <- publishJobCancel jobID reason identity ;; ret tt) jobs tt) (fun _ => True)) as Hc.
  { intros. apply safe_mfold; [|done]. intros. safe_walk. }
  safe_step; try by apply safe_ret.
  all: safe_step; safe_step; [by apply safe_ret|]; safe_step; [by apply safe_ret|]; safe_step; [apply Hc|by apply safe_ret].
Qed.
Hint Resolve safe_reconcileRun safe_reconcileOrphanedJobs : safe.

Lemma safe_for_runs statuses limit f :
  (forall runID, safe D P (f runID) (fun _ => True)) -> safe D P (for_runs statuses limit f) (fun _ => True).
Proof.
  intros Hf. unfold for_runs. apply safe_mfold; [|done]. intros [] status _ _. safe_walk. apply safe_mfold; [|done]. auto.
Qed.

Lemma safe_tick limit : safe D P (tick job_state job_result_ptr job_failure try_lock fuel limit) (fun _ => True).
Proof.
  unfold tick. eapply safe_bind; [apply safe_for_runs; intros; safe_call|]. intros _ _. apply safe_for_runs. intros; safe_call.
Qed.

Lemma safe_reconciler_HandleJobResult res : safe D P (reconciler_HandleJobResult try_lock fuel res) (fun _ => True).
Proof. unfold reconciler_HandleJobResult. cbv zeta. safe_walk. Qed.

End Entry.

(** ** All entry points *)

Inductive engine_call : Type :=
| CallStartRun (workflowID runID : string)
| CallStartRunLockHeld (workflowID runID : string)
| CallHandleJobResult (res : JobResult)
| CallHandleJobResultLockHeld (res : JobResult)
| CallApproveStep (runID stepID : string) (approved : bool)
| CallCancelRun (runID : string)
| CallRerunFrom (runID stepID : string) (dryRun : bool)
| CallTimer (workflowID runID : string)
| CallPollDelays
| CallRecoverDelays
| CallTick (limit : Z)
| CallReconcilerResult (res : JobResult).

Section Calls.
Context `{GoRuntime} `{FloatPrinter} `{FloatParser} `{ExprEngine} `{EngineEnv}.
Context (job_state : list Event -> string -> result (option string) string)
        (job_result_ptr job_failure : list Event -> string -> result string string)
        (try_lock : list Event -> string -> result string bool).

(** A call, its answer dropped. *)
Definition engine_exec (fuel : nat) (c : engine_call) : M unit :=
  let drop {A} (m : M A) : M unit := '_ <- m ;; ret tt in
  match c with
  | CallStartRun wfID runID => drop (StartRun fuel wfID runID)
  | CallStartRunLockHeld wfID runID => drop (startRunLockHeld fuel wfID runID)
  | CallHandleJobResult res => drop (HandleJobResult fuel res)
  | CallHandleJobResultLockHeld res => drop (handleJobResultLockHeld fuel res)
  | CallApproveStep runID stepID approved => drop (ApproveStep fuel runID stepID approved)
  | CallCancelRun runID => drop (CancelRun runID)
  | CallRerunFrom runID stepID dryRun => drop (RerunFrom runID stepID dryRun)
  | CallTimer wfID runID => fire_timer fuel wfID runID
  | CallPollDelays => poll_delays fuel
  | CallRecoverDelays => recoverDelayTimers fuel
  | CallTick limit => tick job_state job_result_ptr job_failure try_lock fuel limit
  | CallReconcilerResult res => drop (reconciler_HandleJobResult try_lock fuel res)
  end.

(** The events of a call. *)
Definition new_events (fuel : nat) (c : engine_call) (w : World) : list Event :=
  List.skipn (length (w_trace w)) (w_trace (snd (engine_exec fuel c w))).

Definition dispatch_event (C : Prop) (D : gmap string Workflow) (e : Event) : Prop :=
  match e with
  | EvSubmitting run req stored => dispatch_ok D run req stored
  | EvDiverged _ => ~ C
  | _ => True
  end.

Lemma safe_drop {A} D P (m : M A) : safe D P m (fun _ => True) -> safe D P ('_ <- m ;; ret tt) (fun _ => True).
Proof. intros Hm. eapply safe_bind; [exact Hm|]. intros. by apply safe_ret. Qed.

Lemma safe_engine_exec C D fuel c :
  (C -> separator_free_ids D) -> (C -> (size D < fuel)%nat) ->
  safe D (dispatch_event C D) (engine_exec fuel c) (fun _ => True).
Proof.
  intros HC Hfuel. assert (forall e, quiet e -> dispatch_event C D e) as Hq by by intros [].
  destruct c; cbn [engine_exec]; try apply safe_drop;
    first [eapply safe_StartRun | eapply safe_startRunLockHeld | eapply safe_HandleJobResult | eapply safe_handleJobResultLockHeld
          | eapply safe_ApproveStep | eapply safe_CancelRun | eapply safe_RerunFrom | eapply safe_fire_timer | eapply safe_poll_delays
          | eapply safe_recoverDelayTimers | eapply safe_tick | eapply safe_reconciler_HandleJobResult];
    first [exact Hq | exact HC | exact Hfuel | done | auto].
Qed.

Lemma new_events_ok C fuel c w :
  let D := s_defs (w_store w) in
  (C -> separator_free_ids D) -> (C -> (size D < fuel)%nat) ->
  Forall (dispatch_event C D) (new_events fuel c w) /\ s_defs (w_store (snd (engine_exec fuel c w))) = D.
Proof.
  intros D HC Hfuel. destruct (safe_engine_exec C D fuel c HC Hfuel w eq_refl) as (es & He & Hes & Hd & _).
  split; [|done]. unfold new_events. rewrite He, List.skipn_app, List.skipn_all, Nat.sub_diag. done.
Qed.

(** A world's definitions whose ids are plain. *)
Definition plain_defs (D : gmap string Workflow) : Prop :=
  forall workflowID wf id step, D !! workflowID = Some wf -> wf_Steps wf !! id = Some step ->
    Forall plain (st_DependsOn step) /\ plain (st_OnError step).

(** The step was pending with the error context its activation left. *)
Definition activated (run : WorkflowRun) (stepID : string) (step : Step) : Prop :=
  exists run0 sr, keeps (eq stepID) run0 run /\ step_run run0 (st_ID step) = Some sr /\
    sr_Status sr = StepStatusPending /\ has_error_input sr = true.

Lemma dep_satisfied_status run wf dep :
  dep_satisfied run wf dep =
  match status_of run dep with
  | StepStatusSucceeded => true
  | StepStatusFailed | StepStatusDenied | StepStatusTimedOut =>
      match wf_Steps wf !! dep with
      | Some d => negb (st_OnError d =s? "") && bool_decide (status_of run (st_OnError d) = StepStatusSucceeded)
      | None => false
      end
  | _ => false
  end.
Proof.
  assert (status_of run dep = match step_run run dep with Some sr => sr_Status sr | None => StepStatusNone end) as -> by done.
  unfold dep_satisfied. by destruct (step_run run dep).
Qed.

Lemma keeps_dep_satisfied wf run0 run stepID dep :
  keeps (eq stepID) run0 run -> finished run0 stepID = false -> plain dep ->
  (forall d, wf_Steps wf !! dep = Some d -> plain (st_OnError d)) ->
  dep_satisfied run0 wf dep = true -> dep_satisfied run wf dep = true.
Proof.
  intros (_ & _ & _ & _ & Hk) Hf Hp Ho.
  assert (forall id, plain id -> finished run0 id = true -> status_of run id = status_of run0 id) as Hs.
  { intros id Hid Hfin. apply Hk; [done| |done]. intros <-. congruence. }
  rewrite !dep_satisfied_status. unfold finished in Hs. destruct (status_of run0 dep) eqn:E; try done;
    (replace (status_of run dep) with (status_of run0 dep) by (symmetry; apply Hs; [done|by rewrite E])); rewrite E; try done;
    destruct (wf_Steps wf !! dep) as [d|]; try done; destruct (st_OnError d =s? ""); try done; cbn [negb andb];
    intros Hb%bool_decide_eq_true; apply bool_decide_eq_true; (rewrite Hs; [done|by apply Ho|by rewrite Hb]).
Qed.

Lemma ready_deps wf run0 run stepID step :
  (forall id d, wf_Steps wf !! id = Some d -> Forall plain (st_DependsOn d) /\ plain (st_OnError d)) ->
  wf_Steps wf !! stepID = Some step -> ready wf run0 stepID step -> keeps (eq stepID) run0 run ->
  Forall (fun dep => dep_satisfied run wf dep = true) (st_DependsOn step) \/ activated run stepID step.
Proof.
  intros Hplain Hstep (_ & Hf & Hd & _) Hk. revert Hd. unfold depsSatisfied.
  destruct (nonempty (st_DependsOn step)) eqn:En; cbn [negb]; [|destruct (st_DependsOn step); [by left|done]].
  destruct (match step_run run0 (st_ID step) with Some _ => _ | None => _ end) eqn:Ea.
  - intros _. right. destruct (step_run run0 (st_ID step)) as [sr|] eqn:Es; [|done].
    apply andb_true_iff in Ea as [Ep%bool_decide_eq_true Ei]. exists run0, sr. done.
  - intros Hall. left. rewrite forallb_forall in Hall. apply Forall_forall. intros dep Hdep.
    pose proof (Hplain _ _ Hstep) as [Hpd _]. rewrite Forall_forall in Hpd.
    eapply keeps_dep_satisfied; [done|done|by apply Hpd|intros d Hd; by apply (Hplain dep d)|]. apply Hall. by apply list_elem_of_In.
Qed.

(** A job id that belongs to a step. *)
Definition belongs (wf : Workflow) (stepID : string) (step : Step) (run : WorkflowRun) (jobID : string) : Prop :=
  exists id n, jobID = JobIds.job_id (run_ID run) id n /\
    (id = stepID \/ (exists i, id = JobIds.child_id stepID i) \/
     (st_Type step = StepTypeParallel /\ is_Some (wf_Steps wf !! id))).



(** C15: sub-workflows cannot recurse forever.  When no workflow id contains a
    separator of call stacks, every call of the engine ends within as many nested
    starts as there are stored workflows, whatever the definitions reference, and
    it leaves the definitions as they are. *)
Theorem engine_calls_end (fuel : nat) (c : engine_call) (w : World) :
  separator_free_ids (s_defs (w_store w)) -> (size (s_defs (w_store w)) < fuel)%nat ->
  (forall runID, EvDiverged runID ∉ new_events fuel c w) /\
  s_defs (w_store (snd (engine_exec fuel c w))) = s_defs (w_store w).
Proof.
  intros Hs Hfuel. destruct (new_events_ok True fuel c w) as [Hev Hd]; [done|done|]. split; [|exact Hd].
  intros runID Hin. rewrite Forall_forall in Hev. by apply (Hev _ Hin).
Qed.

(** C14: finished is final.  However a round of scheduling goes, with whatever
    failures of the store and the bus, a step that had finished is in the same
    status after it, and the run is still the same run; the only exceptions are
    delay steps. *)
Theorem finished_steps_stay (fuel : nat) (workflowID : string) (wf : Workflow) (run : WorkflowRun) (w : World) (id : string) :
  s_defs (w_store w) !! workflowID = Some wf -> plain id -> ~ is_delay wf id -> finished run id = true ->
  let run' := fst (fst (scheduleReady (StartRun fuel) wf run w)) in
  status_of run' id = status_of run id /\ run_ID run' = run_ID run /\ run_WorkflowID run' = run_WorkflowID run /\
  run_OrgID run' = run_OrgID run /\ run_Metadata run' = run_Metadata run.
Proof.
  intros HD Hp Hnd Hf. destruct (safe_schedule_engine (s_defs (w_store w)) (fun _ => True)) with (C := False) (fuel := fuel)
    (workflowID := workflowID) (wf := wf) (run := run) (w := w) as (es & _ & _ & _ & Hk); try done.
  destruct Hk as (H1' & H2' & H3' & H4' & Hs). cbv zeta. split_and!; [by apply Hs|done..].
Qed.

End Calls.

(** ** Instances *)

Definition demo_job_state (_ : list Event) (_ : string) : result (option string) string := Err None.
Definition demo_text (_ : list Event) (_ : string) : result string string := Ok "".
Definition demo_try_lock (_ : list Event) (_ : string) : result string bool := Ok true.

(** The first submission in a list of events. *)
Fixpoint first_submission (es : list Event) : option (WorkflowRun * JobRequest * option WorkflowRun) :=
  match es with
  | [] => None
  | EvSubmitting run req stored :: _ => Some (run, req, stored)
  | _ :: es => first_submission es
  end.

Lemma first_submission_in es run req stored : first_submission es = Some (run, req, stored) -> EvSubmitting run req stored ∈ es.
Proof. induction es as [|e es IH]; [done|]. destruct e; cbn; try (intros E; right; by apply IH). intros [= <- <- <-]. by left. Qed.

Section Instances.
#[local] Existing Instance fwd_runtime.
#[local] Existing Instance demo_printer.
#[local] Existing Instance no_parser.
#[local] Existing Instance demo_expr.
#[local] Existing Instance demo_env.

Abbreviation events c w := (new_events demo_job_state demo_text demo_text demo_try_lock 3 c w).

(** The world in which the first step of the chain is running. *)
Definition chain_world : World := snd (StartRun 3 "w" "r" (demo_world [chain_wf] [plain_run "r" "w" RunStatusPending []])).

Definition chain_result : engine_call := CallHandleJobResult (result_of "r:a@1" JOB_STATUS_SUCCEEDED).

Lemma chain_steps_plain id step : wf_Steps chain_wf !! id = Some step -> Forall plain (st_DependsOn step) /\ plain (st_OnError step).
Proof.
  intros Hs%elem_of_list_to_map_2. cbn in Hs. assert (plain "a" /\ plain "") as [Ha H0] by (split; unfold plain, sep_free; cbn; intuition discriminate).
  set_unfold in Hs. destruct Hs as [[= -> ->]|[[= -> ->]|[]]]; cbn; (split; [|exact H0]); repeat constructor. exact Ha.
Qed.

Lemma chain_plain : plain_defs (s_defs (w_store chain_world)).
Proof.
  replace (s_defs (w_store chain_world)) with ({["w" := chain_wf]} : gmap string Workflow) by (vm_compute; reflexivity).
  intros workflowID wf id step [<- <-]%lookup_singleton_Some. apply chain_steps_plain.
Qed.



(** Two workflows that call each other. *)
Definition cycle_world : World :=
  let calls id := set_st_Input (Some [("workflow_id", AnyString id)]) (plain_step "s" StepTypeSubWorkflow [] "") in
  demo_world [plain_workflow "v" 0 [calls "w"]; plain_workflow "w" 0 [calls "v"]] [plain_run "r" "w" RunStatusPending []].

Lemma engine_calls_end_witness :
  (forall runID, EvDiverged runID ∉ events (CallStartRun "w" "r") cycle_world) /\
  s_defs (w_store (snd (engine_exec demo_job_state demo_text demo_text demo_try_lock 3 (CallStartRun "w" "r") cycle_world))) = s_defs (w_store cycle_world).
Proof.
  apply (engine_calls_end demo_job_state demo_text demo_text demo_try_lock 3 (CallStartRun "w" "r") cycle_world).
  - intros id Hid. assert (id = "v" \/ id = "w") as [->| ->].
    { destruct Hid as [wf Hw]. unfold cycle_world, demo_world in Hw. cbn [w_store s_defs set_s_runs set_s_defs] in Hw.
      apply elem_of_list_to_map_2 in Hw. cbn [map wf_ID plain_workflow] in Hw. set_unfold in Hw.
      destruct Hw as [[= -> _]|[[= -> _]|[]]]; auto. }
    all: unfold separator_free, sep_free; cbn; intuition discriminate.
  - vm_compute. lia.
Defined.

Lemma finished_steps_stay_witness :
  let run := plain_run "r" "w" RunStatusRunning [("a", new_step_run_status "a" StepStatusSucceeded)] in
  let w := demo_world [chain_wf] [run] in
  let run' := fst (fst (scheduleReady (StartRun 3) chain_wf run w)) in
  status_of run' "a" = status_of run "a" /\ run_ID run' = run_ID run /\ run_WorkflowID run' = run_WorkflowID run /\
  run_OrgID run' = run_OrgID run /\ run_Metadata run' = run_Metadata run.
Proof.
  apply (finished_steps_stay 3 "w" chain_wf).
  - reflexivity.
  - unfold plain, sep_free. cbn. intuition discriminate.
  - intros (step & Hs & Ht). vm_compute in Hs. injection Hs as <-. discriminate.
  - reflexivity.
Defined.

End Instances.
