(* ===== verification/WorkflowRuns.v ===== *)
(** * Operations on a run: what they do not touch, cancellation and reruns

    Finished runs and results that were already taken into account are inert;
    cancelling a run closes every step of it and cancels exactly the jobs on their
    way; a rerun starts from exactly the steps the chosen one depends on. *)
From S2P Require Import Prelude.
From S2P Require Import GoStrings.
From S2P Require Import PolicyTypes.
From S2P Require Import GoValues.
From S2P Require Import WorkflowModels.
From S2P Require Import WorkflowHelpers.
From S2P Require Import WorkflowState.
From S2P Require Import WorkflowEval.
From S2P Require Import WorkflowStore.
From S2P Require Import WorkflowJob.
From S2P Require Import WorkflowSchedule.
From S2P Require Import WorkflowEngine.
From S2P Require Import WorkflowReconciler.
From S2P Require Import WorkflowDemo.
From S2P Require Import WorkflowLogic.

Open Scope string_scope.

(** ** Computations that change nothing *)

(** Events that reach neither the store nor the bus nor a timer. *)
Definition idle (e : Event) : Prop :=
  match e with EvNow _ | EvLock _ _ | EvRead _ | EvTerminal _ => True | _ => False end.

(** From the store [st] the computation only reads, and ends with [Post]. *)
Definition inert {A} (st : Store) (m : M A) (Post : A -> Prop) : Prop :=
  hoare idle (fun w => w_store w = st) m (fun a w => w_store w = st /\ Post a).

Lemma inert_ret {A} st (a : A) (Post : A -> Prop) : Post a -> inert st (ret a) Post.
Proof. intros. by apply hoare_ret. Qed.

Lemma inert_bind {A B} st (m : M A) (k : A -> M B) (Mid : A -> Prop) Post :
  inert st m Mid -> (forall a, Mid a -> inert st (k a) Post) -> inert st (bind m k) Post.
Proof. apply hoare_bind_pure. Qed.

Lemma inert_log st e : idle e -> inert st (log e) (fun _ => True).
Proof. intros He. by apply hoare_log. Qed.

(** The trace only grows by idle events and the store stays. *)
Definition unchanged {A} (w : World) (m : M A) : Prop :=
  w_store (snd (m w)) = w_store w /\ exists es, w_trace (snd (m w)) = (w_trace w ++ es)%list /\ Forall idle es.

Lemma inert_unchanged {A} (m : M A) Post w : inert (w_store w) m Post -> unchanged w m.
Proof. intros Hm. destruct (Hm w eq_refl) as (es & He & Hes & Hst & _). split; [done|]. by exists es. Qed.

Section Inert.
Context `{GoRuntime} `{FloatPrinter} `{FloatParser} `{ExprEngine} `{EngineEnv}.
Context (st : Store).

Lemma inert_now : inert st now (fun _ => True).
Proof.
  unfold now. eapply inert_bind; [by apply hoare_trace with (Post := fun _ w => w_store w = st /\ True)|]. intros tr _.
  eapply inert_bind; [by apply inert_log|]. intros. by apply inert_ret.
Qed.

Lemma inert_lockRun runID : inert st (lockRun runID) (fun _ => True).
Proof.
  unfold lockRun. eapply inert_bind; [by apply hoare_trace with (Post := fun _ w => w_store w = st /\ True)|]. intros tr _. cbv zeta.
  eapply inert_bind; [by apply inert_log|]. intros. by apply inert_ret.
Qed.

Lemma inert_read {A} key (get : Store -> result get_error A) :
  inert st (read key get) (fun r => forall a, r = Ok a -> get st = Ok a).
Proof.
  intros w Hw. exists [EvRead key]. unfold read, bind, trace, store, log, ret. cbn. rewrite Hw.
  destruct (e_read_error (w_trace w)); cbn; (split_and!; [done|by repeat constructor|done|]); [done|].
  intros a. unfold of_get_error. destruct (get st) as [[]|]; [done|done|]. by intros [= <-].
Qed.

Lemma inert_get_run runID : inert st (get_run runID) (fun r => forall run, r = Ok run -> s_runs st !! runID = Some run).
Proof.
  eapply hoare_conseq; [apply inert_read|done|]. intros r w [Hw Hr]. split; [done|]. intros run E. apply Hr in E.
  unfold GetRun in E. destruct (_ =s? _); [done|]. destruct (s_runs st !! runID); congruence.
Qed.

(** A workflow that is stored is never reported missing. *)
Lemma inert_get_workflow workflowID :
  inert st (get_workflow workflowID)
    (fun r => (forall wf, r = Ok wf -> s_defs st !! workflowID = Some wf) /\ (is_Some (s_defs st !! workflowID) -> r <> Err ReadNil)).
Proof.
  intros w Hw. destruct (inert_read workflowID (GetWorkflow workflowID) w Hw) as (es & He & Hes & Hst & Hr).
  exists es. split_and!; [done|done|done| |].
  - intros wf E. apply Hr in E. unfold GetWorkflow in E. destruct (_ =s? _); [done|]. destruct (s_defs st !! workflowID); congruence.
  - intros [wf Hwf]. clear Hr. unfold get_workflow, read, bind, trace, store, log, ret, GetWorkflow. cbn. rewrite Hw.
    destruct (e_read_error (w_trace w)); [done|]. cbn. destruct (_ =s? _); [done|]. by rewrite Hwf.
Qed.

Lemma inert_markRunTerminal runID : inert st (markRunTerminal runID) (fun _ => True).
Proof. unfold markRunTerminal. destruct (_ =s? _); [by apply inert_ret|by apply inert_log]. Qed.

Lemma timeout_not_due wf run t : isTerminalRunStatus (run_Status run) = true -> timeout_due wf run t = false.
Proof. intros E. unfold timeout_due. rewrite E. by rewrite andb_false_r. Qed.

(** *** Finished runs *)

Context (runID : string) (run : WorkflowRun) (Hrun : s_runs st !! runID = Some run).
Context (Hfin : isTerminalRunStatus (run_Status run) = true).

Lemma inert_StartRun fuel workflowID : is_Some (s_defs st !! workflowID) -> inert st (StartRun (S fuel) workflowID runID) (fun _ => True).
Proof.
  intros Hwf. cbn [StartRun]. eapply inert_bind; [apply inert_lockRun|]. intros [] _; [|by apply inert_ret].
  unfold startRunLocked. eapply inert_bind; [apply inert_get_workflow|]. intros [[|e]|wf] [_ Hnil]; [by destruct (Hnil Hwf)|by apply inert_ret|].
  eapply inert_bind; [apply inert_get_run|]. intros [e|r] Hr; [by apply inert_ret|]. rewrite (Hr r eq_refl) in Hrun. injection Hrun as <-.
  unfold advance_run. cbv zeta. rewrite Hfin. eapply inert_bind; [apply inert_markRunTerminal|]. intros; by apply inert_ret.
Qed.

Lemma inert_handleJobResultLocked fuel res stepID : inert st (handleJobResultLocked fuel res runID stepID) (fun _ => True).
Proof.
  unfold handleJobResultLocked. eapply inert_bind; [apply inert_get_run|]. intros [[]|r] Hr; [by apply inert_ret..|].
  rewrite (Hr r eq_refl) in Hrun. injection Hrun as <-. destruct (_ && _); [by apply inert_ret|]. rewrite Hfin.
  eapply inert_bind; [apply inert_markRunTerminal|]. intros; by apply inert_ret.
Qed.

Lemma inert_ApproveStep fuel stepID approved : inert st (ApproveStep fuel runID stepID approved) is_Some.
Proof.
  unfold ApproveStep. eapply inert_bind; [apply inert_lockRun|]. intros [] _; cbn [negb]; [|by apply inert_ret].
  eapply inert_bind; [apply inert_get_run|]. intros [e|r] Hr; [by apply inert_ret|]. rewrite (Hr r eq_refl) in Hrun. injection Hrun as <-.
  eapply inert_bind; [apply inert_get_workflow|]. intros [e|wf] _; [by apply inert_ret|].
  eapply inert_bind; [apply inert_now|]. intros t _. unfold enforceWorkflowTimeout. rewrite timeout_not_due by done.
  eapply inert_bind with (Mid := fun p => p = (r, Ok false)); [by apply inert_ret|]. intros p ->. rewrite Hfin. by apply inert_ret.
Qed.

Lemma inert_CancelRun : inert st (CancelRun runID) (fun _ => True).
Proof.
  unfold CancelRun. eapply inert_bind; [apply inert_lockRun|]. intros [] _; cbn [negb]; [|by apply inert_ret].
  eapply inert_bind; [apply inert_get_run|]. intros [e|r] Hr; [by apply inert_ret|]. rewrite (Hr r eq_refl) in Hrun. injection Hrun as <-.
  rewrite Hfin. by apply inert_ret.
Qed.

End Inert.

(** C27: a finished run is left alone.  Starting it again (while its workflow is
    stored), any result of any of its jobs, approving or rejecting any of its
    steps, and cancelling it leave the store as it is and publish nothing,
    whatever the services answer; and approving always reports an error. *)
Theorem finished_runs_inert `{GoRuntime} `{FloatPrinter} `{FloatParser} `{ExprEngine} `{EngineEnv}
    (fuel : nat) (w : World) (runID : string) (run : WorkflowRun) (res : JobResult) (stepID : string) (approved : bool) :
  s_runs (w_store w) !! runID = Some run -> isTerminalRunStatus (run_Status run) = true ->
  (forall workflowID, is_Some (s_defs (w_store w) !! workflowID) -> unchanged w (StartRun (S fuel) workflowID runID)) /\
  (fst (JobIds.splitJobID (res_JobId res)) = runID -> unchanged w (HandleJobResult fuel res)) /\
  unchanged w (CancelRun runID) /\
  unchanged w (ApproveStep fuel runID stepID approved) /\ fst (ApproveStep fuel runID stepID approved w) <> None.
Proof.
  intros Hrun Hfin. split_and!.
  - intros wfID Hwf. eapply inert_unchanged. by eapply inert_StartRun.
  - intros Hid. eapply inert_unchanged with (Post := fun _ => True). unfold HandleJobResult, prepareJobResult.
    destruct (res_JobId res =s? ""); [by apply inert_ret|]. destruct (JobIds.splitJobID (res_JobId res)) as [rid sid]. cbn [fst] in Hid. subst rid.
    destruct (_ || _); [by apply inert_ret|]. eapply inert_bind; [apply inert_lockRun|].
    intros [] _; [|by apply inert_ret]. by eapply inert_handleJobResultLocked.
  - eapply inert_unchanged. by eapply inert_CancelRun.
  - eapply inert_unchanged. by eapply inert_ApproveStep.
  - destruct (inert_ApproveStep (w_store w) runID run Hrun Hfin fuel stepID approved w eq_refl) as (_ & _ & _ & _ & [e He]). by rewrite He.
Qed.

(** ** Stale results *)

(** The step run a result is for. *)
Definition result_target (run : WorkflowRun) (stepID : string) : StepRun :=
  let '(base, childKey) := JobIds.splitForEachStep stepID in
  let own := default (new_step_run stepID) (step_run run stepID) in
  if childKey =s? "" then own
  else match child_of run (default (new_step_run base) (step_run run base)) stepID with Some c => c | None => own end.

(** The step run is of another job, or has taken a result into account. *)
Definition stale (sr : StepRun) (jobID : string) : Prop :=
  (sr_JobID sr <> "" /\ sr_JobID sr <> jobID) \/ shouldIgnoreProcessedResult sr = true.

Section Stale.
Context `{GoRuntime} `{FloatPrinter} `{FloatParser} `{ExprEngine} `{EngineEnv}.

Lemma inert_accept_stale st run stepID sr def res b :
  stale sr (res_JobId res) -> inert st (accept_result run stepID sr def res b) (fun o => o = None).
Proof.
  intros Hs. unfold accept_result. cbv zeta.
  destruct (negb (sr_JobID sr =s? "") && negb (sr_JobID sr =s? res_JobId res)) eqn:E; [by apply inert_ret|].
  destruct Hs as [[Hne Hnj]|Hp].
  { apply andb_false_iff in E as [E|E]; apply negb_false_iff, String.eqb_eq in E; congruence. }
  match goal with |- inert _ (if shouldIgnoreProcessedResult ?s then _ else _) _ =>
    assert (shouldIgnoreProcessedResult s = true) as -> end; [|by apply inert_ret].
  destruct sr. unfold shouldIgnoreProcessedResult in *. cbn in *. by destruct (_ =s? ""), (_ <? _)%Z.
Qed.


End Stale.

(** ** Cancelling a run *)

(** A step run that has ended and shares no child, as in a decoded document. *)
Definition own_children (sr : StepRun) : Prop := Forall (fun kc => snd kc <> ChildShared) (sr_Children sr).
Definition closed (sr : StepRun) : Prop := terminal_run sr /\ own_children sr.

Lemma children_set cs sr : sr_Children (set_sr_Children cs sr) = cs.
Proof. by destruct sr. Qed.

Lemma status_set_children cs sr : sr_Status (set_sr_Children cs sr) = sr_Status sr.
Proof. by destruct sr. Qed.

Lemma map_children_own f cs :
  Forall (fun kc => snd kc <> ChildShared) cs -> Forall (fun kc => snd kc <> ChildShared) (map_children f cs).
Proof. unfold map_children. rewrite Forall_map. intros Hc. eapply Forall_impl; [exact Hc|]. by intros [k [|c]]. Qed.

Lemma cancelStepRun_closed t sr : Forall own_children (tree_runs sr) -> Forall closed (tree_runs (cancelStepRun t sr)).
Proof.
  induction sr as [sr IHsr] using StepRun_tree_ind. rewrite Forall_tree. intros [Ho Hcs]. rewrite cancelStepRun_unfold, Forall_tree.
  split; [split|].
  - unfold terminal_run. by destruct (isTerminalStepStatus (sr_Status sr)) eqn:E.
  - unfold own_children in *. rewrite children_set. by apply map_children_own.
  - rewrite children_set. apply map_children_tree. rewrite Forall_forall in *. intros [k [|c]] Hin; [done|].
    apply (IHsr _ Hin), (Hcs _ Hin).
Qed.

Lemma map_tree_closed f sr :
  (forall sr, same_slot sr (f sr)) -> Forall closed (tree_runs sr) -> Forall closed (tree_runs (map_tree f sr)).
Proof.
  intros Hf. induction sr as [sr IHsr] using StepRun_tree_ind. rewrite Forall_tree. intros [[Ht Ho] Hcs]. rewrite map_tree_unfold, Forall_tree.
  split; [split|].
  - unfold terminal_run in *. destruct (Hf sr) as [E _]. by rewrite status_set_children, E.
  - unfold own_children in *. rewrite children_set. by apply map_children_own.
  - rewrite children_set. apply map_children_tree. rewrite Forall_forall in *. intros [k [|c]] Hin; [done|].
    apply (IHsr _ Hin), (Hcs _ Hin).
Qed.

(** The children of [json_step], and its equation. *)
Definition json_children (share : string -> option StepRun) (decode : StepRun -> option StepRun) :=
  fix children (cs : list (string * child_ref StepRun)) : option (list (string * child_ref StepRun)) :=
    match cs with
    | [] => Some []
    | (k, c) :: cs =>
        match (match c with ChildOwn sr => decode sr | ChildShared => share k end), children cs with
        | Some sr, Some cs => Some ((k, ChildOwn sr) :: cs)
        | _, _ => None
        end
    end.

Lemma json_step_eq `{FloatParser} share sr cs :
  json_children share (json_step share) (sr_Children sr) = Some cs ->
  exists sr', json_step share sr = Some sr' /\ sr_Children sr' = cs.
Proof. destruct sr. cbn [json_step]. intros E. unfold json_children in E. cbn in E |- *. rewrite E. eexists. by split. Qed.

Lemma json_step_closed `{FloatParser} share sr :
  Forall closed (tree_runs sr) -> exists sr', json_step share sr = Some sr' /\ Forall closed (tree_runs sr').
Proof.
  induction sr as [sr IHsr] using StepRun_tree_ind. rewrite Forall_tree. intros [[Ht Ho] Hcs].
  assert (exists cs, json_children share (json_step share) (sr_Children sr) = Some cs /\ Forall (fun kc => snd kc <> ChildShared) cs /\
      Forall (fun kc => match snd kc with ChildOwn c => Forall closed (tree_runs c) | ChildShared => True end) cs) as (cs & Ecs & Hown & Hcl).
  { unfold own_children in Ho. clear Ht. revert IHsr Ho Hcs. generalize (sr_Children sr). intros cs. induction cs as [|[k [|c]] cs IH].
    - intros _ _ _. exists []. split_and!; [done|constructor|constructor].
    - intros _ Ho. inversion Ho; subst. done.
    - intros Hi Ho Hc. inversion Hi as [|? ? Hi1 Hi2]; inversion Ho; inversion Hc as [|? ? Hc1 Hc2]; subst.
      destruct (Hi1 Hc1) as (c' & Ec & Hc'). destruct IH as (cs' & E & H1 & H2); [done|done|done|]. exists ((k, ChildOwn c') :: cs').
      cbn. rewrite Ec, E. split_and!; [done|by constructor|by constructor]. }
  destruct (json_step_eq share sr cs Ecs) as (sr' & E & Hch). exists sr'. split; [done|]. apply json_step_slot in E as (Es & _ & _).
  apply Forall_tree. unfold closed, own_children, terminal_run in *. by rewrite Hch, Es.
Qed.

Definition closed_run (run : WorkflowRun) : Prop := map_Forall (fun _ sr => Forall closed (tree_runs sr)) (run_Steps run).

Lemma closed_run_map_tree f run :
  (forall sr, same_slot sr (f sr)) -> closed_run run -> closed_run (set_run_Steps (map_tree f <$> run_Steps run) run).
Proof.
  intros Hf Hc id sr Hsr. destruct run. cbn in *. apply lookup_fmap_Some in Hsr as (sr0 & <- & Hsr).
  apply map_tree_closed; [done|]. by apply (Hc id).
Qed.

Section Closed.
Context `{GoRuntime} `{FloatParser}.

Lemma applyPending_closed st run : closed_run run -> closed_run (fst (applyPendingAuditHashes st run)).
Proof.
  intros Hc. unfold applyPendingAuditHashes. generalize (range_map (collectRunJobRefs run)). intros l.
  match goal with |- closed_run (fst (foldl ?f _ _)) =>
    assert (forall ls acc, closed_run (fst acc) -> closed_run (fst (foldl f acc ls))) as Hgo; [|by apply Hgo] end.
  clear. induction ls as [|[j ref] ls IH]; intros [r ds] Hr; [done|]. cbn [foldl]. apply IH.
  cbn. destruct (s_pendingHash st !! j) as [h|]; [|done]. destruct (TrimSpace h =s? ""); [done|].
  apply closed_run_map_tree; [|done]. intros sr. apply fill_hash_slot.
Qed.

Lemma json_run_closed run : closed_run run -> exists doc, json_run run = Some doc /\ closed_run doc.
Proof.
  intros Hc. unfold json_run, json_steps. generalize (json_shared (S (size (run_Steps run))) run). intros share.
  rewrite bool_decide_eq_true_2.
  - eexists. split; [reflexivity|]. intros id sr Hsr. cbn in Hsr. rewrite lookup_omap, lookup_fmap in Hsr.
    destruct (run_Steps run !! id) as [sr0|] eqn:E; [|done]. cbn in Hsr. destruct (json_step_closed share sr0) as (sr' & E' & Hcl); [by apply (Hc id)|].
    rewrite E' in Hsr. cbn in Hsr. congruence.
  - intros id o Ho. apply lookup_fmap_Some in Ho as (sr0 & <- & Hsr). destruct (json_step_closed share sr0) as (sr' & E' & _); [by apply (Hc id)|].
    rewrite E'. by eexists.
Qed.

(** Writing a closed run succeeds, and what is stored is closed. *)
Lemma UpdateRun_closed now ok run st :
  run_ID run <> "" -> run_WorkflowID run <> "" -> closed_run run ->
  exists run' st' doc, UpdateRun now ok run st = Ok (run', st') /\ same_run run run' /\
    s_runs st' !! run_ID run = Some doc /\ same_run run doc /\ closed_run doc.
Proof.
  intros Hid Hwf Hc.
  assert (exists run' st', UpdateRun now ok run st = Ok (run', st') /\
    forall doc, s_runs st' !! run_ID run = Some doc -> closed_run doc) as (run' & st' & E & Hdoc).
  { unfold UpdateRun. apply String.eqb_neq in Hid as ->. apply String.eqb_neq in Hwf as ->. cbn [orb].
    pose proof (applyPending_closed st (set_run_UpdatedAt now run) Hc) as Hc1.
    pose proof (applyPending_same st (set_run_UpdatedAt now run)) as Hs.
    destruct (applyPendingAuditHashes st (set_run_UpdatedAt now run)) as [r1 ds]. cbn [fst] in Hc1, Hs.
    destruct (json_run_closed r1 Hc1) as (doc & -> & Hdc). unfold update_doc. eexists _, _. split; [reflexivity|].
    assert (run_ID r1 = run_ID run) as <- by apply Hs. intros doc'.
    destruct ok; [rewrite update_indexes_runs|]; cbn; rewrite lookup_insert_eq; intros [= <-];
      (destruct (s_runs st !! run_ID r1); [|done]); (apply closed_run_map_tree; [|done]); intros; apply merge_hash_slot. }
  destruct (UpdateRun_same _ _ _ _ _ _ E) as (Hs & _ & doc & Hd & Hsd). exists run', st', doc. split_and!; auto.
Qed.

End Closed.

(** *** The cancellations a computation publishes *)

Definition cancelled_in (es : list Event) (j : string) : Prop :=
  exists packet err cancel, EvPublish SubjectCancel packet err ∈ es /\ bp_Payload packet = PJobCancel cancel /\ jc_JobId cancel = j.

(** From [Pre], the computation publishes cancellations for exactly the jobs [J]
    and ends with [Post]. *)
Definition cancels {A} (Pre : World -> Prop) (m : M A) (J : string -> Prop) (Post : A -> World -> Prop) : Prop :=
  forall w, Pre w -> exists es, w_trace (snd (m w)) = (w_trace w ++ es)%list /\
    (forall j, cancelled_in es j <-> J j) /\ Post (fst (m w)) (snd (m w)).

Lemma cancelled_in_app es es' j : cancelled_in (es ++ es') j <-> cancelled_in es j \/ cancelled_in es' j.
Proof. unfold cancelled_in. setoid_rewrite elem_of_app. naive_solver. Qed.

Lemma cancels_bind {A B} Pre (m : M A) (k : A -> M B) J J' Mid Post :
  cancels Pre m J Mid -> (forall a, cancels (Mid a) (k a) J' Post) -> cancels Pre (bind m k) (fun j => J j \/ J' j) Post.
Proof.
  intros Hm Hk w Hw. destruct (Hm w Hw) as (es & He & Hes & Hmid). unfold bind. destruct (m w) as [a w'] eqn:E. cbn in *.
  destruct (Hk a w' Hmid) as (es' & He' & Hes' & Hpost). exists (es ++ es')%list. rewrite He', He, <- app_assoc. split_and!; [done| |done].
  intros j. by rewrite cancelled_in_app, Hes, Hes'.
Qed.

(** Events that cancel nothing. *)
Definition no_cancel (e : Event) : Prop := match e with EvPublish s _ _ => s <> SubjectCancel | _ => True end.

Lemma cancels_none {A} Pre (m : M A) Post : hoare no_cancel Pre m Post -> cancels Pre m (fun _ => False) Post.
Proof.
  intros Hm w Hw. destruct (Hm w Hw) as (es & He & Hes & Hp). exists es. split_and!; [done| |done].
  intros j. split; [|done]. intros (p & err & c & Hin & _). rewrite Forall_forall in Hes. by apply (Hes _ Hin).
Qed.

Lemma cancels_iff {A} Pre (m : M A) (J J' : string -> Prop) Post :
  (forall j, J j <-> J' j) -> cancels Pre m J Post -> cancels Pre m J' Post.
Proof. intros HJ Hm w Hw. destruct (Hm w Hw) as (es & He & Hes & Hp). exists es. split_and!; [done| |done]. intros j. by rewrite Hes. Qed.

Definition runs_are (R : gmap string WorkflowRun) (w : World) : Prop := s_runs (w_store w) = R.

Section Cancel.
Context `{GoRuntime} `{FloatPrinter} `{FloatParser} `{ExprEngine} `{EngineEnv}.

Lemma cancels_publish (Pre : World -> Prop) packet cancel :
  (forall w e, Pre w -> Pre (mkWorld (w_store w) (w_trace w ++ [e]))) -> bp_Payload packet = PJobCancel cancel ->
  cancels Pre (publishWithTrace SubjectCancel packet) (eq (jc_JobId cancel)) (fun _ => Pre).
Proof.
  intros HPre Hp w Hw. exists [EvPublish SubjectCancel packet (e_publish_error (w_trace w))]. split_and!; [done| |by apply HPre].
  intros j. split.
  - intros (p & err & c & Hin & Hpc & <-). apply list_elem_of_singleton in Hin. injection Hin as -> ->. congruence.
  - intros <-. exists packet, (e_publish_error (w_trace w)), cancel. split; [by left|done].
Qed.

Lemma cancels_ret {A} (Pre : World -> Prop) (a : A) : cancels Pre (ret a) (fun _ => False) (fun _ => Pre).
Proof. apply cancels_none. by apply hoare_ret. Qed.

Lemma cancels_attempts (Pre : World -> Prop) n packet cancel :
  (forall w e, Pre w -> Pre (mkWorld (w_store w) (w_trace w ++ [e]))) -> bp_Payload packet = PJobCancel cancel ->
  cancels Pre (publish_attempts n SubjectCancel packet) (eq (jc_JobId cancel)) (fun _ => Pre).
Proof.
  intros HPre Hp. induction n as [|n IH]; cbn [publish_attempts].
  - eapply cancels_iff; [|eapply cancels_bind; [by apply cancels_publish|intros [e|]; apply cancels_ret]]. intuition.
  - intros w Hw. destruct (cancels_publish Pre packet cancel HPre Hp w Hw) as (es & He & Hes & Hpre). unfold bind.
    destruct (publishWithTrace SubjectCancel packet w) as [err w'] eqn:E. cbn [fst snd] in *.
    assert (exists es, w_trace w' = (w_trace w ++ es)%list /\ (forall j, cancelled_in es j <-> jc_JobId cancel = j) /\ Pre w') as Hdone by eauto.
    destruct err as [e|]; [|done]. destruct n as [|n]; [done|]. destruct (IH w' Hpre) as (es' & He' & Hes' & Hpre').
    exists (es ++ es')%list. rewrite He', He, <- app_assoc. split_and!; [done| |done]. intros j. rewrite cancelled_in_app, Hes, Hes'. tauto.
Qed.

Lemma cancels_publishJobCancel (Pre : World -> Prop) jobID reason identity :
  (forall w e, Pre w -> Pre (mkWorld (w_store w) (w_trace w ++ [e]))) -> jobID <> "" ->
  e_productionIdentity = false \/ completeWorkflowIdentity identity = true ->
  cancels Pre (publishJobCancel jobID reason identity) (eq jobID) (fun _ => Pre).
Proof.
  intros HPre Hne Hid. unfold publishJobCancel. apply String.eqb_neq in Hne as ->.
  assert (e_productionIdentity && negb (completeWorkflowIdentity identity) = false) as ->.
  { destruct Hid as [->| ->]; [done|by rewrite andb_false_r]. }
  eapply cancels_iff; [|eapply cancels_bind; [apply (cancels_none _ mint_token (fun _ => Pre))|intros token; eapply cancels_bind;
    [by eapply cancels_attempts with (cancel := mkJobCancel jobID reason "workflow-engine" identity)|intros err; apply cancels_ret]]].
  - cbn. intuition.
  - unfold mint_token. eapply hoare_bind with (Mid := fun _ => Pre); [by apply hoare_trace|]. intros. by apply hoare_ret.
Qed.

(** Every job of the list once it is not empty. *)
Lemma cancels_cancel_jobs (Pre : World -> Prop) jobs reason identity :
  (forall w e, Pre w -> Pre (mkWorld (w_store w) (w_trace w ++ [e]))) ->
  e_productionIdentity = false \/ completeWorkflowIdentity identity = true ->
  cancels Pre (cancel_jobs jobs reason identity) (fun j => j ∈ jobs /\ j <> "") (fun _ => Pre).
Proof.
  intros HPre Hid. unfold cancel_jobs.
  match goal with |- cancels _ (bind (mfold ?f jobs (∅, [])) _) _ _ =>
    assert (forall jobs seen failed, cancels Pre (mfold f jobs (seen, failed)) (fun j => j ∈ jobs /\ j <> "" /\ j ∉ (seen : gset string)) (fun _ => Pre)) as Hgo end.
  { intros js. induction js as [|j js IH]; intros seen failed; cbn [mfold].
    - eapply cancels_iff; [|apply cancels_ret]. intros j. split; [done|]. intros [Hin _]. by apply elem_of_nil in Hin.
    - destruct ((j =s? "") || bool_decide (j ∈ seen)) eqn:E.
      + eapply cancels_iff; [|eapply cancels_bind with (Mid := fun s w => fst s = seen /\ Pre w) (J := fun _ => False);
          [|intros [s' f'] w [Es Hw]; cbn [fst] in Es; subst s'; by apply (IH seen f')]].
        * intros j'. rewrite elem_of_cons. apply orb_true_iff in E as [E|E]; [apply String.eqb_eq in E|apply bool_decide_eq_true in E];
            split; intuition congruence.
        * apply cancels_none. apply hoare_ret. auto.
      + apply orb_false_iff in E as [E1%String.eqb_neq E2%bool_decide_eq_false].
        eapply cancels_iff; [|eapply cancels_bind with (Mid := fun s w => fst s = {[j]} ∪ seen /\ Pre w) (J := eq j);
          [|intros [s' f'] w [Es Hw]; cbn [fst] in Es; subst s'; by apply (IH ({[j]} ∪ seen) f')]].
        * intros j'. rewrite elem_of_cons. destruct (decide (j = j')) as [<-|Hne]; [set_solver|]. set_solver.
        * eapply cancels_iff; [|eapply cancels_bind; [by apply cancels_publishJobCancel|intros err; apply cancels_none, hoare_ret; auto]].
          intuition. }
  eapply cancels_iff; [|eapply cancels_bind; [apply Hgo|intros [s f]; apply cancels_ret]]. intros j. set_solver.
Qed.

Lemma applyPending_identity st run : run_Identity (fst (applyPendingAuditHashes st run)) = run_Identity run.
Proof.
  unfold applyPendingAuditHashes. generalize (range_map (collectRunJobRefs run)). intros l.
  match goal with |- run_Identity (fst (foldl ?f _ _)) = _ =>
    assert (forall ls acc, run_Identity (fst (foldl f acc ls)) = run_Identity (fst acc)) as Hgo; [|by rewrite Hgo] end.
  clear. induction ls as [|[j ref] ls IH]; intros [r ds]; [done|]. cbn [foldl]. rewrite IH.
  cbn. destruct (s_pendingHash st !! j) as [h|]; [|done]. by destruct (TrimSpace h =s? "").
Qed.

Lemma UpdateRun_identity now ok run st run' st' : UpdateRun now ok run st = Ok (run', st') -> run_Identity run' = run_Identity run.
Proof.
  unfold UpdateRun. destruct (_ || _); [done|]. pose proof (applyPending_identity st (set_run_UpdatedAt now run)) as Hi.
  destruct (applyPendingAuditHashes st (set_run_UpdatedAt now run)) as [r1 ds]. cbn [fst] in Hi.
  destruct (json_run r1); [|done]. unfold update_doc. intros [= <- _]. by rewrite Hi.
Qed.

(** *** With services that answer *)

Definition answers (runID : string) : Prop :=
  (forall tr, e_lock_acquired tr runID = true) /\ (forall tr, e_read_error tr = None) /\ (forall tr, e_update_error tr = None).

Context (runID : string) (Hans : answers runID).

Lemma exact_lock st : hoare no_cancel (fun w => w_store w = st) (lockRun runID) (fun ok w => w_store w = st /\ ok = true).
Proof.
  intros w Hw. exists [EvLock runID true]. unfold lockRun, bind, trace, log, ret. cbn. destruct Hans as [-> _].
  split_and!; [done|by repeat constructor|done|done].
Qed.

Lemma exact_read {A} st key (get : Store -> result get_error A) (a : A) :
  get st = Ok a -> hoare no_cancel (fun w => w_store w = st) (read key get) (fun r w => w_store w = st /\ r = Ok a).
Proof.
  intros Hg w Hw. exists [EvRead key]. unfold read, bind, trace, store, log, ret. cbn. destruct Hans as (_ & Hr & _). rewrite Hr. cbn. rewrite Hw, Hg.
  split_and!; [done|by repeat constructor|done|done].
Qed.

Lemma exact_now (Pre : World -> Prop) :
  (forall w e, Pre w -> Pre (mkWorld (w_store w) (w_trace w ++ [e]))) -> hoare no_cancel Pre now (fun _ => Pre).
Proof.
  intros HPre. unfold now. eapply hoare_bind with (Mid := fun _ => Pre); [by apply hoare_trace|]. intros tr.
  eapply hoare_bind with (Mid := fun _ => Pre); [apply hoare_log; [done|auto]|]. intros. by apply hoare_ret.
Qed.

(** The store has a run that satisfies [Q]. *)
Definition has_run (Q : WorkflowRun -> Prop) (w : World) : Prop := exists doc, s_runs (w_store w) !! runID = Some doc /\ Q doc.

Lemma exact_timeline Q run ty stepID jobID status ptr msg data :
  hoare no_cancel (has_run Q) (appendTimeline run ty stepID jobID status ptr msg data) (fun _ => has_run Q).
Proof.
  unfold appendTimeline. eapply hoare_bind; [by apply exact_now|]. intros t.
  eapply hoare_bind with (Mid := fun _ => has_run Q); [by apply hoare_trace|]. intros tr.
  eapply hoare_bind with (Mid := fun st w => has_run Q w /\ st = w_store w); [apply hoare_store; auto|]. intros st. cbv zeta.
  destruct (if e_timeline_ok tr then _ else _) as [e|st'] eqn:E; [apply hoare_log; [done|]; intros w [Hw _]; exact Hw|].
  eapply hoare_bind with (Mid := fun _ => has_run Q); [|intros; apply hoare_log; [done|auto]]. apply hoare_put_store. intros w [Hw ->].
  destruct (e_timeline_ok tr); [|done]. unfold AppendTimelineEvent in E. destruct (_ =s? _); [done|]. by injection E as <-.
Qed.

Lemma exact_update st run :
  run_ID run = runID -> run_ID run <> "" -> run_WorkflowID run <> "" -> closed_run run ->
  hoare no_cancel (fun w => w_store w = st) (update_run run)
    (fun p w => has_run (fun doc => same_run run doc /\ closed_run doc) w /\
                exists r', p = (r', None) /\ run_Identity r' = run_Identity run /\ run_Status r' = run_Status run).
Proof.
  intros Hrid Hid Hwf Hc. unfold update_run. eapply hoare_bind; [by apply exact_now|]. intros t w Hw.
  destruct (UpdateRun_closed t (e_pipeline_ok (w_trace w)) run (w_store w) Hid Hwf Hc) as (r' & st' & doc & E & Hs & Hd & Hsd & Hcd).
  exists [EvUpdateRun run None]. unfold bind, trace, store, log, ret, put_store. cbn. destruct Hans as (_ & _ & Hu). rewrite Hu, E. cbn.
  split_and!; [done|by repeat constructor|exists doc; rewrite <- Hrid; done|]. exists r'. split_and!; [done|by eapply UpdateRun_identity|apply Hs].
Qed.

Lemma exact_close_run st run jobs updating what after reason text data :
  run_ID run = runID -> run_ID run <> "" -> run_WorkflowID run <> "" -> closed_run run ->
  e_productionIdentity = false \/ completeWorkflowIdentity (run_Identity run) = true ->
  cancels (fun w => w_store w = st) (close_run run jobs updating what after reason text data) (fun j => j ∈ jobs /\ j <> "")
    (fun _ => has_run (fun doc => same_run run doc /\ closed_run doc)).
Proof.
  intros Hrid Hid Hwf Hc Hident. unfold close_run. set (Q := fun doc => same_run run doc /\ closed_run doc).
  eapply cancels_iff; [|eapply cancels_bind with (J' := fun j => j ∈ jobs /\ j <> ""); [by apply cancels_none, exact_update|]]; [tauto|].
  intros p w [Hw (r' & -> & Hi & _)].
  assert (cancels (has_run Q) (markRunTerminal (run_ID r')) (fun _ => False) (fun _ => has_run Q)) as Hmark.
  { apply cancels_none. unfold markRunTerminal. destruct (_ =s? _); [by apply hoare_ret|]. apply hoare_log; [done|auto]. }
  match goal with |- exists es, w_trace (snd (?m w)) = _ /\ _ =>
    assert (cancels (has_run Q) m (fun j => j ∈ jobs /\ j <> "") (fun _ => has_run Q)) as Hgo; [|by apply (Hgo w)] end.
  eapply cancels_iff; [|eapply cancels_bind; [exact Hmark|intros []; eapply cancels_bind; [apply cancels_none, exact_timeline|
    intros []; eapply cancels_bind; [apply (cancels_cancel_jobs (has_run Q)); [done|by rewrite Hi]|intros failed]]]].
  2: { destruct (nonempty failed); [|apply cancels_ret]. cbv zeta.
       apply (cancels_iff _ _ (fun _ => False \/ False) (fun _ => False)); [tauto|].
       apply (cancels_bind _ _ _ (fun _ => False) (fun _ => False) (fun _ => has_run Q)); [apply cancels_none, exact_timeline|].
       intros []. apply cancels_ret. }
  intros j. cbn. tauto.
Qed.

(** Every step run of a run, and of its workflow, closed. *)
Lemma close_steps_closed wf run t :
  Forall own_children (run_tree (run_Steps run)) -> closed_run (snd (close_steps (cancelStepRun t) (ensure_steps wf run))).
Proof.
  intros Ho id sr Hsr. destruct run. cbn in *. apply lookup_fmap_Some in Hsr as (sr0 & <- & Hsr). apply cancelStepRun_closed.
  apply lookup_union_Some_raw in Hsr as [Hsr|[_ Hsr]]; [by eapply run_tree_Forall in Ho|].
  rewrite map_lookup_imap in Hsr. destruct (wf_Steps wf !! id); [|done]. injection Hsr as <-. repeat constructor.
Qed.

(** The jobs collected are those of the step runs on their way. *)
Lemma close_steps_jobs close wf run j :
  j ∈ fst (close_steps close (ensure_steps wf run)) <->
  exists sr, sr ∈ run_tree (run_Steps run) /\ is_cancelable sr = true /\ sr_JobID sr = j.
Proof.
  unfold close_steps, ensure_steps, run_tree. cbn [fst]. destruct run as [? ? ? ? ? ? ? ? ? ? ? steps]. cbn [run_Steps set_run_Steps].
  setoid_rewrite list_elem_of_In. setoid_rewrite in_concat. setoid_rewrite in_map_iff. split.
  - intros (l & ([id sr] & <- & Hin) & Hj). apply list_elem_of_In, elem_of_range_map in Hin. apply list_elem_of_In in Hj.
    cbn in Hj. apply collectCancelableJobs_iff in Hj as (c & Hc & Hcan & Hjc). apply lookup_union_Some_raw in Hin as [Hin|[_ Hin]].
    + exists c. split; [|done]. exists (tree_runs sr). split; [|by apply list_elem_of_In]. exists (id, sr). split; [done|].
      by apply list_elem_of_In, elem_of_map_to_list.
    + rewrite map_lookup_imap in Hin. destruct (wf_Steps wf !! id); [|done]. injection Hin as <-. cbn in Hc. apply list_elem_of_singleton in Hc as ->. done.
  - intros (c & (l & ([id sr] & <- & Hin) & Hc) & Hcan & Hj). apply list_elem_of_In, elem_of_map_to_list in Hin. apply list_elem_of_In in Hc.
    exists (collectCancelableJobs sr). split.
    + exists (id, sr). split; [done|]. apply list_elem_of_In, elem_of_range_map. by apply lookup_union_Some_l.
    + apply list_elem_of_In, collectCancelableJobs_iff. eauto.
Qed.

Lemma close_steps_spec wf run t :
  let r := snd (close_steps (cancelStepRun t) (ensure_steps wf run)) in
  run_ID r = run_ID run /\ run_WorkflowID r = run_WorkflowID run /\ run_Identity r = run_Identity run /\
  dom (run_Steps r) = dom (run_Steps run) ∪ dom (wf_Steps wf) /\
  forall id, isTerminalStepStatus (status_of run id) = true -> status_of r id = status_of run id.
Proof.
  unfold close_steps, ensure_steps. destruct run as [? ? ? ? ? ? ? ? ? ? ? steps]. cbn. split_and!; [done..| |].
  - rewrite dom_fmap_L, dom_union_L. f_equal. apply dom_imap_L. intros id. split; [|intros (s & Hs & _); by apply elem_of_dom_2 in Hs].
    intros [s Hs]%elem_of_dom. eauto.
  - intros id. unfold status_of, step_run. cbn. rewrite lookup_fmap, lookup_union. destruct (steps !! id) as [sr|]; [|done].
    rewrite union_Some_l. cbn. apply cancelStepRun_keeps.
Qed.

(** A call whose answer is known. *)
Lemma cancels_step {A B} st (m : M A) (a : A) (k : A -> M B) J Post :
  hoare no_cancel (fun w => w_store w = st) m (fun r w => w_store w = st /\ r = a) ->
  cancels (fun w => w_store w = st) (k a) J Post -> cancels (fun w => w_store w = st) (bind m k) J Post.
Proof.
  intros Hm Hk. apply (cancels_iff _ _ (fun j => False \/ J j)); [tauto|].
  eapply (cancels_bind _ _ _ (fun _ => False) J); [apply cancels_none, Hm|]. intros r w [Hw ->]. by apply Hk.
Qed.

(** What a cancelled run looks like in the store. *)
Definition cancelled_doc (run : WorkflowRun) (wf : Workflow) (doc : WorkflowRun) : Prop :=
  run_Status doc = RunStatusCancelled /\ dom (run_Steps doc) = dom (run_Steps run) ∪ dom (wf_Steps wf) /\
  Forall terminal_run (run_tree (run_Steps doc)) /\
  forall id, isTerminalStepStatus (status_of run id) = true -> status_of doc id = status_of run id.

(** The jobs on their way in a run. *)
Definition on_the_way (run : WorkflowRun) (j : string) : Prop :=
  exists sr, sr ∈ run_tree (run_Steps run) /\ is_cancelable sr = true /\ sr_JobID sr = j.

Lemma cancelled_doc_of wf run t doc :
  same_run (set_run_UpdatedAt t (finish_run RunStatusCancelled t (snd (close_steps (cancelStepRun t) (ensure_steps wf run))))) doc ->
  closed_run doc -> cancelled_doc run wf doc.
Proof.
  pose proof (close_steps_spec wf run t) as Hspec. destruct (close_steps _ _) as [jobs r]. cbn [snd] in *.
  destruct Hspec as (_ & _ & _ & Hdom & Hst). intros Hs Hc. split_and!.
  - destruct Hs as ((_ & _ & _ & E) & _). by rewrite E; destruct r.
  - rewrite <- Hdom. apply set_eq. intros id. rewrite !elem_of_dom. destruct Hs as (_ & _ & Hsl). specialize (Hsl id). unfold step_run in Hsl.
    destruct r; cbn in *. inversion Hsl; split; intros [? ?]; eauto; congruence.
  - apply run_tree_Forall. intros id sr Hsr. eapply Forall_impl; [exact (Hc id sr Hsr)|]. by intros ? [? _].
  - intros id Hid. rewrite (same_run_status _ _ id Hs), <- (Hst id Hid). by destruct r.
Qed.

Lemma cancels_closing st run wf t :
  run_ID run = runID -> runID <> "" -> run_WorkflowID run <> "" -> Forall own_children (run_tree (run_Steps run)) ->
  e_productionIdentity = false \/ completeWorkflowIdentity (run_Identity run) = true ->
  let '(jobs, r) := close_steps (cancelStepRun t) (ensure_steps wf run) in
  cancels (fun w => w_store w = st)
    (close_run (set_run_UpdatedAt t (finish_run RunStatusCancelled t r)) jobs "workflow cancel run" "workflow cancel run" "" "workflow run cancelled" "run cancelled" [])
    (on_the_way run) (fun _ => has_run (cancelled_doc run wf)).
Proof.
  intros Hrid Hne Hwne Hown Hident. pose proof (close_steps_closed wf run t Hown) as Hcl. pose proof (close_steps_jobs (cancelStepRun t) wf run) as Hjobs.
  pose proof (close_steps_spec wf run t) as (Hri & Hrw & Hrident & _). pose proof (cancelled_doc_of wf run t) as Hdoc.
  destruct (close_steps (cancelStepRun t) (ensure_steps wf run)) as [jobs r]. cbn [fst snd] in *.
  apply (cancels_iff _ _ (fun j => j ∈ jobs /\ j <> "")).
  { intros j. rewrite Hjobs. split; [intros [? _]; done|]. intros (sr & Hsr & Hcan & <-). split; [by exists sr|].
    unfold is_cancelable in Hcan. destruct (sr_Status sr); try done; by apply negb_true_iff, String.eqb_neq in Hcan. }
  intros w Hw. destruct (exact_close_run st (set_run_UpdatedAt t (finish_run RunStatusCancelled t r)) jobs
    "workflow cancel run" "workflow cancel run" "" "workflow run cancelled" "run cancelled" [])
    with (w := w) as (es & He & Hes & doc & Hd & Hs & Hdc); [by destruct r; cbn in *; congruence..|exact Hcl| |done|].
  { by destruct r; cbn in *; rewrite Hrident. }
  exists es. split_and!; [done|done|]. exists doc. split; [done|]. by apply Hdoc.
Qed.


End Cancel.

(** ** Reruns *)

Section Rerun.
Context `{GoRuntime} `{FloatPrinter} `{FloatParser} `{ExprEngine} `{EngineEnv}.

Lemma clone_status run sr : sr_Status (cloneStepRun run sr) = sr_Status sr.
Proof.
  unfold cloneStepRun. generalize (json_shared (S (size (run_Steps run))) run). intros share.
  destruct (json_step share sr) as [sr'|] eqn:E; [|done]. by apply json_step_slot in E as [E _].
Qed.

(** The steps of a rerun: those it depends on, as they ended. *)
Lemma rerun_status run newID stepID dryRun deps t id :
  Forall (fun dep => not_succeeded run dep = false) (elements deps) ->
  status_of (rerun_of run newID stepID dryRun deps t) id = if decide (id ∈ deps) then StepStatusSucceeded else StepStatusNone.
Proof.
  intros Hall. unfold status_of, step_run, rerun_of, rerun_steps. cbn [run_Steps]. rewrite lookup_fmap. destruct (decide (id ∈ deps)) as [Hin|Hin].
  - rewrite Forall_forall in Hall. specialize (Hall id ltac:(by apply elem_of_elements)). unfold not_succeeded in Hall.
    apply negb_false_iff, bool_decide_eq_true in Hall. unfold status_of, step_run in Hall.
    destruct (run_Steps run !! id) as [sr|] eqn:E; [|done].
    rewrite (map_lookup_filter_Some_2 _ _ _ sr); [|done|done]. cbn. by rewrite clone_status.
  - rewrite map_lookup_filter_None_2; [done|]. right. by intros sr _.
Qed.

Lemma create_run_stored st run :
  hoare (fun _ => True) (fun w => w_store w = st) (create_run run)
    (fun err w => err = None -> exists doc, s_runs (w_store w) !! run_ID run = Some doc /\ same_run run doc).
Proof.
  eapply hoare_conseq; [by apply (hoare_create_run (s_defs st))| |by intros ? ? [_ ?]]. by intros w <-.
Qed.

Lemma hoare_uuid (Pre : World -> Prop) :
  (forall w e, Pre w -> Pre (mkWorld (w_store w) (w_trace w ++ [e]))) -> hoare (fun _ => True) Pre new_uuid (fun _ w => Pre w /\ True).
Proof.
  intros HPre. unfold new_uuid. eapply hoare_bind with (Mid := fun _ => Pre); [by apply hoare_trace|]. intros tr.
  eapply hoare_bind with (Mid := fun _ => Pre); [apply hoare_log; [done|auto]|]. intros. by apply hoare_ret.
Qed.

(** The steps a rerun takes over, by reachability. *)
Lemma rerun_deps wf run stepID newID dryRun t deps :
  deps = (if stepID =s? "" then ∅ else collectDependencies (dep_fuel wf) wf stepID ∅) ->
  List.find (not_succeeded run) (elements deps) = None ->
  forall id, (tc (depends wf) stepID id -> status_of run id = StepStatusSucceeded /\
                status_of (rerun_of run newID stepID dryRun deps t) id = StepStatusSucceeded) /\
             (~ tc (depends wf) stepID id -> status_of (rerun_of run newID stepID dryRun deps t) id = StepStatusNone).
Proof.
  intros Hdeps Hfind id.
  assert (Forall (fun dep => not_succeeded run dep = false) (elements deps)) as Hall.
  { apply Forall_forall. intros dep Hdep. eapply find_none; [exact Hfind|]. by apply list_elem_of_In. }
  assert (id ∈ deps <-> tc (depends wf) stepID id) as Hiff.
  { rewrite Hdeps. destruct (stepID =s? "") eqn:E; [|apply collectDependencies_reachable]. apply String.eqb_eq in E as ->.
    split; [set_solver|]. intros Htc. exfalso. inversion Htc as [? ? [Hne _]|? ? ? [Hne _] _]; by subst. }
  rewrite rerun_status by done. split; intros Htc; destruct (decide (id ∈ deps)) as [Hin|Hin]; try tauto. split; [|done].
  rewrite Forall_forall in Hall. specialize (Hall id ltac:(by apply elem_of_elements)). unfold not_succeeded in Hall.
  by apply negb_false_iff, bool_decide_eq_true in Hall.
Qed.

(** A rerun from a step takes over exactly what the step depends on.  When
    [RerunFrom] reports a new run, every step reachable from the chosen one along
    [depends_on] had succeeded in the old run; the new run is stored as pending,
    for the same workflow and linked to the old run, with those steps in it as
    succeeded and no others, so nothing they did is repeated and everything else
    runs again. *)
Theorem rerun_exact (runID stepID : string) (dryRun : bool) (w : World) (newID : string) :
  fst (RerunFrom runID stepID dryRun w) = Ok newID ->
  exists run wf doc,
    s_runs (w_store w) !! runID = Some run /\ s_defs (w_store w) !! run_WorkflowID run = Some wf /\
    s_runs (w_store (snd (RerunFrom runID stepID dryRun w))) !! newID = Some doc /\
    run_Status doc = RunStatusPending /\ run_WorkflowID doc = run_WorkflowID run /\
    run_Metadata doc !! "rerun_of" = Some (run_ID run) /\
    forall id, (tc (depends wf) stepID id -> status_of run id = StepStatusSucceeded /\ status_of doc id = StepStatusSucceeded) /\
               (~ tc (depends wf) stepID id -> status_of doc id = StepStatusNone).
Proof.
  set (st := w_store w). set (Post := fun (r : result string string) (w' : World) => forall newID, r = Ok newID -> exists run wf doc,
    s_runs st !! runID = Some run /\ s_defs st !! run_WorkflowID run = Some wf /\ s_runs (w_store w') !! newID = Some doc /\
    run_Status doc = RunStatusPending /\ run_WorkflowID doc = run_WorkflowID run /\ run_Metadata doc !! "rerun_of" = Some (run_ID run) /\
    forall id, (tc (depends wf) stepID id -> status_of run id = StepStatusSucceeded /\ status_of doc id = StepStatusSucceeded) /\
               (~ tc (depends wf) stepID id -> status_of doc id = StepStatusNone)).
  assert (hoare (fun _ => True) (fun w' => w_store w' = st) (RerunFrom runID stepID dryRun) Post) as Hgo.
  { assert (forall A (m : M A) Q, inert st m Q -> hoare (fun _ => True) (fun w' => w_store w' = st) m (fun a w' => w_store w' = st /\ Q a)) as Hin.
    { intros A m Q Hm w' Hw'. destruct (Hm w' Hw') as (es & He & _ & Hp). exists es. split_and!; [done|by apply Forall_true|apply Hp|apply Hp]. }
    assert (forall e, hoare (fun _ => True) (fun w' => w_store w' = st) (ret (Err e : result string string)) Post) as Herr.
    { intros e. apply hoare_ret. by intros w' _ newID'. }
    unfold RerunFrom. eapply hoare_bind_pure; [apply Hin, inert_lockRun|]. intros [] _; [|apply Herr]. cbn [negb].
    destruct (runID =s? ""); [apply Herr|]. eapply hoare_bind_pure; [apply Hin, inert_get_run|]. intros [e|run] Hrun; [apply Herr|].
    eapply hoare_bind_pure; [apply Hin, inert_get_workflow|]. intros [e|wf] [Hwf _]; [apply Herr|].
    destruct (_ && _); [apply Herr|]. cbv zeta. set (deps := if stepID =s? "" then _ else _).
    eapply hoare_bind_pure with (Mid := fun _ => True); [by apply hoare_uuid|]. intros id _.
    eapply hoare_bind_pure; [apply Hin, inert_now|]. intros t _. destruct (List.find _ _) eqn:Ef; [apply Herr|].
    eapply hoare_bind; [apply create_run_stored|]. intros err. apply hoare_ret. intros w' Hcr newID' Hok.
    destruct err as [e|]; [done|]. injection Hok as <-. destruct (Hcr eq_refl) as (doc & Hd & Hs). exists run, wf, doc.
    pose proof Hs as ((Hi & Hw & _ & Hst) & Hm & _). split_and!; [by apply Hrun|by apply Hwf|done|by rewrite Hst|by rewrite Hw| |].
    - rewrite Hm. cbn [run_Metadata rerun_of]. destruct dryRun, (stepID =s? "");
        repeat (rewrite lookup_insert_ne by done); by rewrite lookup_insert_eq.
    - intros id'. rewrite (same_run_status _ _ id' Hs). by apply rerun_deps. }
  intros E. destruct (Hgo w eq_refl) as (_ & _ & _ & Hp). by apply Hp.
Qed.

End Rerun.

Section Instances.
#[local] Existing Instance fwd_runtime.
#[local] Existing Instance demo_printer.
#[local] Existing Instance no_parser.
#[local] Existing Instance demo_expr.
#[local] Existing Instance demo_env.

Lemma finished_runs_inert_witness :
  let w := demo_world [chain_wf] [plain_run "r" "w" RunStatusSucceeded []] in
  unchanged w (StartRun 3 "w" "r") /\ unchanged w (HandleJobResult 2 (result_of "r:a@1" JOB_STATUS_FAILED)) /\
  unchanged w (CancelRun "r") /\ fst (ApproveStep 2 "r" "a" true w) <> None.
Proof.
  intros w. destruct (finished_runs_inert 2 w "r" (plain_run "r" "w" RunStatusSucceeded [])
    (result_of "r:a@1" JOB_STATUS_FAILED) "a" true eq_refl eq_refl) as (H1 & H2 & H3 & _ & H4).
  split_and!; [apply H1; eexists; reflexivity|apply H2; reflexivity|exact H3|exact H4].
Defined.


(** A run with one step running and one waiting for it. *)
Definition busy_run : WorkflowRun :=
  plain_run "r" "w" RunStatusRunning [("a", set_sr_JobID "r:a@1" (new_step_run_status "a" StepStatusRunning))].


Lemma rerun_exact_witness :
  let run := plain_run "r" "w" RunStatusFailed [("a", new_step_run_status "a" StepStatusSucceeded); ("b", new_step_run_status "b" StepStatusFailed)] in
  let w := demo_world [chain_wf] [run] in
  match fst (RerunFrom "r" "b" false w) with
  | Err _ => False
  | Ok newID => exists run' wf doc,
      s_runs (w_store w) !! "r" = Some run' /\ s_defs (w_store w) !! run_WorkflowID run' = Some wf /\
      s_runs (w_store (snd (RerunFrom "r" "b" false w))) !! newID = Some doc /\
      run_Status doc = RunStatusPending /\ run_WorkflowID doc = run_WorkflowID run' /\
      run_Metadata doc !! "rerun_of" = Some (run_ID run') /\
      forall id, (tc (depends wf) "b" id -> status_of run' id = StepStatusSucceeded /\ status_of doc id = StepStatusSucceeded) /\
                 (~ tc (depends wf) "b" id -> status_of doc id = StepStatusNone)
  end.
Proof.
  intros run w. destruct (fst (RerunFrom "r" "b" false w)) as [e|newID] eqn:E; [vm_compute in E; discriminate|].
  exact (rerun_exact "r" "b" false w newID E).
Defined.

End Instances.
