(* ===== verification/WorkflowLimits.v ===== *)
(** * Limits the workflow engine keeps

    [max_parallel] of for-each steps, and the number of times the reconciler
    recovers an approval that lost its job. *)
From S2P Require Import Prelude.
From S2P Require Import GoStrings.
From S2P Require Import PolicyTypes.
From S2P Require Import GoValues.
From S2P Require Import Licensing.
From S2P Require Import WorkflowModels.
From S2P Require Import WorkflowHelpers.
From S2P Require Import WorkflowState.
From S2P Require Import WorkflowEval.
From S2P Require Import WorkflowStore.
From S2P Require Import WorkflowJob.
From S2P Require Import WorkflowSchedule.
From S2P Require Import WorkflowEngine.
From S2P Require Import WorkflowReconciler.
From S2P Require Import WorkflowDemo.
From S2P Require Import WorkflowLogic.

Open Scope string_scope.

(** ** Running children *)

Definition is_running (s : StepStatus) : bool := bool_decide (s = StepStatusRunning).

(** The number of running children of a step run. *)
Definition running_children (run : WorkflowRun) (parent : StepRun) : Z :=
  Z.of_nat (length (List.filter is_running (children_statuses run parent))).

(** The keys of a Go map. *)
Definition unique_keys (parent : StepRun) : Prop := NoDup (map fst (sr_Children parent)).

Lemma aset_keys {V} (m : list (string * V)) k v :
  map fst (aset m k v) = if bool_decide (k ∈ map fst m) then map fst m else (map fst m ++ [k])%list.
Proof.
  induction m as [|[k' v'] m IH]; [done|]. cbn. destruct (String.eqb_spec k' k) as [->|Hne].
  - cbn. rewrite bool_decide_eq_true_2; [done|by left].
  - cbn. rewrite IH. destruct (bool_decide_reflect (k ∈ map fst m)) as [Hin|Hin].
    + rewrite bool_decide_eq_true_2; [done|by right].
    + rewrite bool_decide_eq_false_2; [done|]. intros [->|?]%elem_of_cons; done.
Qed.

Lemma unique_keys_link id parent : unique_keys parent -> unique_keys (link_child id parent).
Proof.
  unfold unique_keys, link_child. destruct parent; cbn. rewrite aset_keys. case_bool_decide as Hin; [done|]. intros Hnd.
  apply NoDup_app. split_and!; [done| |apply NoDup_singleton]. intros x Hx Hxid. apply list_elem_of_singleton in Hxid as ->. done.
Qed.

(** The contribution of one child. *)
Definition running_one (o : option StepRun) : Z :=
  match o with Some c => if is_running (sr_Status c) then 1%Z else 0%Z | None => 0%Z end.

Definition running_list (run : WorkflowRun) (cs : list (string * child_ref StepRun)) : Z :=
  foldr (fun kc n => (running_one (deref_child run (fst kc) (snd kc)) + n)%Z) 0%Z cs.

Lemma running_children_list run parent : running_children run parent = running_list run (sr_Children parent).
Proof.
  unfold running_children, children_statuses. induction (sr_Children parent) as [|[k c] cs IH]; [done|]. cbn [map List.filter running_list foldr fst snd].
  fold (running_list run cs). rewrite <- IH. unfold running_one. destruct (deref_child run k c) as [sr|]; [|done].
  destruct (is_running (sr_Status sr)); cbn [length]; lia.
Qed.

(** Writing a slot changes the count by its entry alone. *)
Lemma running_list_other run id child cs :
  id ∉ map fst cs -> running_list (set_step id child run) cs = running_list run cs.
Proof.
  induction cs as [|[k c] cs IH]; [done|]. cbn [map fst]. intros Hn. cbn [running_list foldr fst snd]. fold (running_list run cs).
  fold (running_list (set_step id child run) cs). rewrite IH by set_solver. f_equal. f_equal. destruct c; [|done]. cbn [deref_child].
  apply step_run_set_step_ne. set_solver.
Qed.

Lemma running_list_link run id child cs :
  NoDup (map fst cs) ->
  running_list (set_step id child run) (aset cs id ChildShared) =
  (running_list run cs - running_one (aget cs id ≫= deref_child run id) + running_one (Some child))%Z.
Proof.
  induction cs as [|[k c] cs IH]; intros Hnd.
  - cbn [aset running_list foldr fst snd deref_child aget]. rewrite step_run_set_step_eq. cbn [mbind option_bind running_one]. lia.
  - cbn [map fst] in Hnd. apply NoDup_cons in Hnd as [Hk Hnd]. cbn [aset aget]. destruct (String.eqb_spec k id) as [->|Hne].
    + cbn [running_list foldr fst snd mbind option_bind]. fold (running_list run cs). fold (running_list (set_step id child run) cs).
      rewrite running_list_other by done. cbn [deref_child]. rewrite step_run_set_step_eq. lia.
    + cbn [running_list foldr fst snd]. fold (running_list run cs). fold (running_list (set_step id child run) (aset cs id ChildShared)).
      rewrite (IH Hnd). replace (deref_child (set_step id child run) k c) with (deref_child run k c); [lia|].
      destruct c; [|done]. cbn [deref_child]. symmetry. by apply step_run_set_step_ne.
Qed.

Lemma running_children_link run id child parent :
  unique_keys parent ->
  running_children (set_step id child run) (link_child id parent) =
  (running_children run parent - running_one (child_of run parent id) + running_one (Some child))%Z.
Proof.
  intros Hu. rewrite !running_children_list. unfold child_of. unfold link_child. destruct parent; cbn in *. by apply running_list_link.
Qed.

Section Throttle.
Context `{GoRuntime} `{FloatPrinter} `{FloatParser} `{ExprEngine} `{EngineEnv}.
Context (wf : Workflow) (t : Z) (stepID : string) (step : Step) (Hmax : (0 < st_MaxParallel step)%Z).

(** A parent whose children are a map without the parent itself. *)
Definition good_parent (parent : StepRun) : Prop := unique_keys parent /\ stepID ∉ map fst (sr_Children parent).

Lemma child_id_ne i : JobIds.child_id stepID i <> stepID.
Proof.
  unfold JobIds.child_id. intros E. apply (f_equal String.length) in E. revert E. generalize (Itoa (Z.of_nat i)). intros s.
  induction stepID as [|c id IH]; cbn; [done|]. intros E. apply IH. by injection E.
Qed.

Lemma good_parent_link i parent : good_parent parent -> good_parent (link_child (JobIds.child_id stepID i) parent).
Proof.
  intros [Hu Hs]. split; [by apply unique_keys_link|]. unfold link_child. destruct parent; cbn in *. rewrite aset_keys.
  case_bool_decide; [done|]. intros [?|Hin]%elem_of_app; [done|]. apply list_elem_of_singleton in Hin. by apply (child_id_ne i).
Qed.

(** The dispatch loop counts the running children and stays below [B]. *)
Definition counted (B : Z) (d : dispatching) : Prop :=
  good_parent (d_parent d) /\ d_running d = running_children (d_run d) (d_parent d) /\ (d_running d <= B)%Z.

Lemma open_not_running run parent id :
  is_open (sr_Status (default (new_step_run_status id StepStatusPending) (child_of run parent id))) = true ->
  running_one (child_of run parent id) = 0%Z.
Proof. destruct (child_of run parent id) as [c|]; [|done]. cbn. by destruct (sr_Status c). Qed.

Lemma counted_link B i child d :
  counted B d -> running_one (child_of (d_run d) (d_parent d) (JobIds.child_id stepID i)) = 0%Z -> is_running (sr_Status child) = false ->
  counted B (d_link (JobIds.child_id stepID i) child d).
Proof.
  intros (Hg & Hn & Hb) Ho Hr. split_and!; cbn [d_link d_parent d_run d_running]; [by apply good_parent_link| |done].
  rewrite running_children_link by apply Hg. cbn [running_one]. rewrite Hr, Ho. lia.
Qed.

Lemma counted_dispatched B i child d :
  counted B d -> running_one (child_of (d_run d) (d_parent d) (JobIds.child_id stepID i)) = 0%Z -> is_running (sr_Status child) = true ->
  (d_running d < B)%Z -> counted B (d_dispatched (JobIds.child_id stepID i) child d).
Proof.
  intros (Hg & Hn & Hb) Ho Hr Hlt. split_and!; cbn [d_dispatched d_parent d_run d_running]; [by apply good_parent_link| |lia].
  rewrite running_children_link by apply Hg. cbn [running_one]. rewrite Hr, Ho. lia.
Qed.

Section Loop.
Context (D : gmap string Workflow).
Abbreviation result m Post := (safe D (fun _ => True) m Post).

Lemma counted_dispatch_item B ix d :
  counted B d -> (d_running d < B)%Z -> result (dispatch_item wf t stepID step ix d) (counted B).
Proof.
  intros Hd Hlt. assert (forall e, quiet e -> (fun _ : Event => True) e) as Hquiet by done.
  unfold dispatch_item. destruct ix as [idx item]. cbv zeta.
  destruct (is_open _) eqn:Eo; cbn [negb]; [|by apply safe_ret]. apply open_not_running in Eo.
  revert Eo. generalize (default (new_step_run_status (JobIds.child_id stepID idx) StepStatusPending)
    (child_of (d_run d) (d_parent d) (JobIds.child_id stepID idx))). intros child Eo.
  do 2 (safe_step; [safe_walk|]). safe_step; [apply safe_ret, counted_link; [done|done|by destruct child]|].
  safe_step. safe_step; [apply safe_ret, counted_link; [done|done|by destruct child]|].
  eapply safe_bind; [by apply safe_submit|]. intros e _.
  safe_walk; [apply counted_link|apply counted_dispatched]; (done || by destruct child).
Qed.

Lemma counted_loop B l d :
  (st_MaxParallel step <= B)%Z -> counted B d -> result (dispatch_loop step (dispatch_item wf t stepID step) l d) (counted B).
Proof.
  intros HB. revert d. induction l as [|x l IH]; intros d Hd; cbn [dispatch_loop]; [by apply safe_ret|].
  destruct (throttled step d) eqn:Et; [by apply safe_ret|]. eapply safe_bind; [apply counted_dispatch_item; [done|]|exact IH].
  unfold throttled in Et. rewrite (proj2 (Z.ltb_lt _ _) Hmax) in Et. cbn [andb] in Et. apply Z.leb_gt in Et. lia.
Qed.

End Loop.

Lemma precreate_running n idx sr run :
  good_parent sr -> let '(sr', run') := precreate stepID n idx sr run in
  good_parent sr' /\ running_children run' sr' = running_children run sr.
Proof.
  revert idx sr run. induction n as [|n IH]; intros idx sr run Hg; cbn [precreate]; [done|].
  destruct (child_of run sr (JobIds.child_id stepID idx)) eqn:Ec; [by apply IH|]. unfold link.
  specialize (IH (S idx) (link_child (JobIds.child_id stepID idx) sr)
    (set_step (JobIds.child_id stepID idx) (new_step_run_status (JobIds.child_id stepID idx) StepStatusPending) run)
    (good_parent_link idx sr Hg)).
  destruct (precreate _ _ _ _ _) as [sr' run']. destruct IH as [Hg' ->]. split; [done|].
  rewrite running_children_link by apply Hg. rewrite Ec.
  assert (running_one (Some (new_step_run_status (JobIds.child_id stepID idx) StepStatusPending)) = 0%Z) as -> by done. cbn [running_one]. lia.
Qed.

Lemma running_own run parent sr : good_parent parent -> running_children (set_step stepID sr run) parent = running_children run parent.
Proof. intros [_ Hs]. rewrite !running_children_list. by apply running_list_other. Qed.

Lemma running_fields run parent parent' : sr_Children parent' = sr_Children parent -> running_children run parent' = running_children run parent.
Proof. intros E. by rewrite !running_children_list, E. Qed.

(** The state a scheduled for-each step is left in. *)
Definition within (B : Z) (s : WorkflowRun * gset string) : Prop :=
  exists sr', step_run (fst s) stepID = Some sr' /\ (running_children (fst s) sr' <= B)%Z.

Lemma within_own B run parent sr done :
  good_parent parent -> sr_Children sr = sr_Children parent -> (running_children run parent <= B)%Z ->
  within B (set_step stepID sr run, done).
Proof.
  intros Hg Hc Hb. exists sr. cbn [fst]. rewrite step_run_set_step_eq. split; [done|].
  rewrite (running_fields _ parent) by done. by rewrite running_own.
Qed.

Section Within.
Context (D : gmap string Workflow) (run : WorkflowRun) (B : Z).

Lemma within_close parent sr ty msg data done :
  good_parent parent -> sr_Children sr = sr_Children parent -> (running_children run parent <= B)%Z ->
  safe D (fun _ => True) (run <- close_step run stepID sr ty "" msg data ;; ret (run, done)) (within B).
Proof.
  intros Hg Hc Hb. assert (forall e, quiet e -> (fun _ : Event => True) e) as Hquiet by done.
  eapply safe_bind with (Mid := fun r => r = set_step stepID sr run); [unfold close_step; safe_walk|].
  intros r ->. apply safe_ret. by eapply within_own.
Qed.

Lemma children_start_if_nil sr : sr_Children (start_if_nil t sr) = sr_Children sr.
Proof. unfold start_if_nil. by destruct (sr_StartedAt sr), sr. Qed.

Lemma within_foreach_items sr done items :
  good_parent sr -> (running_children run sr <= B)%Z -> (st_MaxParallel step <= B)%Z ->
  safe D (fun _ => True) (foreach_items wf t stepID step run sr done items) (within B).
Proof.
  intros Hg Hb HB. unfold foreach_items. destruct (negb _); [eapply within_close; [exact Hg|by destruct sr|done]|].
  pose proof (precreate_running (length items) 0 sr run Hg) as Hp. destruct (precreate stepID _ _ _ _) as [sr1 run1]. destruct Hp as [Hg1 Hr1].
  cbv zeta. set (sr2 := start_if_nil t (set_sr_Status StepStatusRunning sr1)).
  assert (sr_Children sr2 = sr_Children sr1) as Hc by (unfold sr2; rewrite children_start_if_nil; by destruct sr1).
  assert (running_children run1 sr2 = running_children run sr) as Hr2 by (rewrite (running_fields _ sr1); done).
  eapply safe_bind; [apply (counted_loop D B); [done|]|].
  - split_and!; cbn [d_parent d_run d_running]; [|done|]; [unfold good_parent, unique_keys; by rewrite Hc|].
    change (running_children run1 sr2 <= B)%Z. lia.
  - intros d (Hgd & Hnd & Hbd). apply safe_ret. eapply within_own; [exact Hgd|done|lia].
Qed.

Lemma within_schedule_foreach sr done :
  good_parent sr -> (running_children run sr <= B)%Z -> (st_MaxParallel step <= B)%Z ->
  safe D (fun _ => True) (schedule_foreach wf t stepID step run sr done) (within B).
Proof.
  intros Hg Hb HB. unfold schedule_foreach. cbv zeta.
  assert (forall msg, sr_Children (fail_step msg t (start_if_nil t sr)) = sr_Children sr) as Hfail.
  { intros msg. transitivity (sr_Children (start_if_nil t sr)); [by destruct (start_if_nil t sr)|apply children_start_if_nil]. }
  destruct (sr_ResolvedItems sr) as [items|]; [by apply within_foreach_items|].
  destruct (evalForEach _ _ _) as [e|items]; [by eapply within_close|]. destruct (_ && _); [by eapply within_close|].
  apply within_foreach_items; by destruct sr.
Qed.

End Within.

(** C35: [max_parallel] is kept.  Whenever a for-each step is scheduled, however
    many items it has and whatever fails on the way, the number of its items that
    run afterwards is at most [max_parallel], or what it was before if that was
    more already (the limit was lowered meanwhile). *)
Theorem foreach_max_parallel (run : WorkflowRun) (sr : StepRun) (done : gset string) (w : World) :
  good_parent sr ->
  let run' := fst (fst (schedule_foreach wf t stepID step run sr done w)) in
  exists sr', step_run run' stepID = Some sr' /\
    (running_children run' sr' <= Z.max (st_MaxParallel step) (running_children run sr))%Z.
Proof.
  intros Hg run'. destruct (within_schedule_foreach (s_defs (w_store w)) run (Z.max (st_MaxParallel step) (running_children run sr)) sr done)
    with (w := w) as (_ & _ & _ & _ & Hw); [done|lia|lia|done|]. exact Hw.
Qed.

End Throttle.

(** ** Recovery of stuck approvals *)

Lemma retry_count_next err r :
  (0 <= r < maxRetries)%Z ->
  reconcileRetryCount (set_sr_Error (Some (aset err "_reconcile_retries" (AnyFloat64 (int64_to_float (r + 1))))) (new_step_run "")) = (r + 1)%Z.
Proof.
  intros Hr. unfold reconcileRetryCount. cbn [sr_Error set_sr_Error new_step_run new_step_run_status]. rewrite aget_aset_eq.
  unfold maxRetries in Hr. assert (r = 0 \/ r = 1 \/ r = 2)%Z as [->|[->| ->]] by lia; vm_compute; reflexivity.
Qed.

Lemma retry_count_error sr sr' : sr_Error sr = sr_Error sr' -> reconcileRetryCount sr = reconcileRetryCount sr'.
Proof. intros E. unfold reconcileRetryCount. by rewrite E. Qed.

(** The number of recoveries a step run has left. *)
Definition recoveries_left (sr : StepRun) : Z := (maxRetries - reconcileRetryCount sr)%Z.

(** The reconciler does not recover a stuck approval for ever.  It touches
    only a waiting step with a job, older than the grace period and unknown to the
    job store; each recovery puts the step back to pending, without its job, and
    uses up one of three recoveries, which are counted in the step's error and so
    survive the next dispatch; when none is left the step fails. *)
Theorem approval_recovery_bounded (t : Z) (state : result (option string) string) (sr sr' : StepRun) :
  (0 <= reconcileRetryCount sr)%Z -> recover_waiting t state sr = Some sr' ->
  sr_Status sr = StepStatusWaiting /\ sr_JobID sr <> "" /\ (state = Ok "" \/ state = Err None) /\
  (forall s, sr_StartedAt sr = Some s -> (gracePeriod <= time_sub t s)%Z) /\
  ((0 < recoveries_left sr)%Z /\ sr_Status sr' = StepStatusPending /\ sr_JobID sr' = "" /\ recoveries_left sr' = (recoveries_left sr - 1)%Z \/
   (recoveries_left sr <= 0)%Z /\ sr_Status sr' = StepStatusFailed).
Proof.
  intros Hpos. unfold recover_waiting. destruct (negb _ || _) eqn:E; [done|]. apply orb_false_iff in E as [Ew%negb_false_iff%bool_decide_eq_true Ej%String.eqb_neq].
  destruct (match sr_StartedAt sr with Some _ => _ | None => _ end) eqn:Eg; [done|]. intros Hr.
  assert (state = Ok "" \/ state = Err None) as Hstate.
  { destruct state as [[e|]|s]; [done|auto|]. destruct (s =s? "") eqn:Es; [apply String.eqb_eq in Es as ->; auto|done]. }
  assert (Some sr ≫= (fun sr => if (maxRetries <=? reconcileRetryCount sr)%Z then
    Some (set_sr_Error (Some [("message", AnyString "approval dispatch failed after reconciler recovery attempts");
                              ("_reconcile_retries", AnyInt (reconcileRetryCount sr))]) (end_step StepStatusFailed t sr))
    else Some (set_sr_Error (Some (aset (default [] (sr_Error sr)) "_reconcile_retries" (AnyFloat64 (int64_to_float (reconcileRetryCount sr + 1)))))
                 (revert_dispatch 0 sr))) = Some sr') as Hr' by (destruct Hstate as [->| ->]; exact Hr).
  clear Hr. cbn in Hr'. split_and!; [done|done|done| |].
  - intros s Es. rewrite Es in Eg. by apply Z.ltb_ge in Eg.
  - unfold recoveries_left. destruct (maxRetries <=? reconcileRetryCount sr)%Z eqn:Em; injection Hr' as <-.
    + right. apply Z.leb_le in Em. split; [lia|]. by destruct sr.
    + left. apply Z.leb_gt in Em. split_and!; [lia|by destruct sr|by destruct sr|].
      rewrite (retry_count_error _ (set_sr_Error (Some (aset (default [] (sr_Error sr)) "_reconcile_retries"
        (AnyFloat64 (int64_to_float (reconcileRetryCount sr + 1))))) (new_step_run ""))) by by destruct sr.
      rewrite retry_count_next by lia. lia.
Qed.

Section Instances.
#[local] Existing Instance fwd_runtime.
#[local] Existing Instance demo_printer.
#[local] Existing Instance no_parser.
#[local] Existing Instance demo_expr.
#[local] Existing Instance demo_env.

(** Three items, one at a time. *)
Lemma foreach_max_parallel_witness :
  let step := set_st_MaxParallel 1 (set_st_ForEach "items" (plain_step "a" StepTypeWorker [] "")) in
  let sr := set_sr_ResolvedItems (Some [AnyInt 1; AnyInt 2; AnyInt 3]) (new_step_run_status "a" StepStatusPending) in
  let run := plain_run "r" "w" RunStatusRunning [("a", sr)] in
  let run' := fst (fst (schedule_foreach chain_wf 5 "a" step run sr ∅ (demo_world [chain_wf] [run]))) in
  exists sr', step_run run' "a" = Some sr' /\ (running_children run' sr' <= Z.max 1 0)%Z.
Proof.
  intros step sr run. apply (foreach_max_parallel chain_wf 5 "a" step).
  - reflexivity.
  - split; [apply NoDup_nil_2|]. intros Hin. by apply elem_of_nil in Hin.
Defined.

Lemma approval_recovery_bounded_witness :
  let sr := set_sr_JobID "r:a@1" (new_step_run_status "a" StepStatusWaiting) in
  match recover_waiting 100 (Err None) sr with
  | None => False
  | Some sr' =>
      sr_Status sr = StepStatusWaiting /\ sr_JobID sr <> "" /\ ((Err None : result (option string) string) = Ok "" \/ (Err None : result (option string) string) = Err None) /\
      (forall s, sr_StartedAt sr = Some s -> (gracePeriod <= time_sub 100 s)%Z) /\
      ((0 < recoveries_left sr)%Z /\ sr_Status sr' = StepStatusPending /\ sr_JobID sr' = "" /\ recoveries_left sr' = (recoveries_left sr - 1)%Z \/
       (recoveries_left sr <= 0)%Z /\ sr_Status sr' = StepStatusFailed)
  end.
Proof.
  intros sr. destruct (recover_waiting 100 (Err None) sr) as [sr'|] eqn:E; [|vm_compute in E; discriminate].
  apply (approval_recovery_bounded 100 (Err None) sr sr'); [discriminate|exact E].
Defined.

End Instances.
