(* ===== verification/WorkflowOutput.v ===== *)
(** * Outputs of steps are recorded only when the output policy allows them

    The path of a job's result into the run (engine_output.go,
    engine_output_safety.go, engine_resource.go): resolved, validated, checked by
    the output policy against the persisted request of the job, then recorded. *)
From S2P Require Import Prelude.
From S2P Require Import GoStrings.
From S2P Require Import PolicyTypes.
From S2P Require Import GoValues.
From S2P Require Import WorkflowModels.
From S2P Require Import WorkflowHelpers.
From S2P Require Import WorkflowState.
From S2P Require Import WorkflowEval.
From S2P Require Import WorkflowStore.
From S2P Require Import WorkflowJob.
From S2P Require Import WorkflowDemo.
From S2P Require Import WorkflowLogic.

Open Scope string_scope.

Section Output.
Context `{GoRuntime} `{FloatPrinter} `{FloatParser} `{ExprEngine} `{EngineEnv}.

(** The step run after an output was turned down. *)
Definition rejected (sr : StepRun) : Prop := sr_Status sr = StepStatusFailed /\ sr_Output sr = AnyNil /\ sr_Error sr <> None.

(** The policy allowed this content for this result, on the request of the job
    that the job store holds and that is for this step of this run. *)
Definition policy_allowed (run : WorkflowRun) (stepID : string) (res : JobResult) (output : resolvedStepOutput) : Prop :=
  exists evaluate get tr tr' req reason,
    e_evaluate_output = Some evaluate /\ e_job_request = Some get /\ get tr (res_JobId res) = Ok req /\
    jr_JobId req = res_JobId res /\ jr_TenantId req = run_OrgID run /\ jr_WorkflowId req = run_WorkflowID run /\
    get_str (jr_Labels req) "run_id" = run_ID run /\ get_str (jr_Labels req) "step_id" = stepID /\
    evaluate tr' req res (ro_content output) (ro_mediaType output) = Ok (OutputAllow, reason).

(** The content was read, is within the inline limit and decodes, and the value
    taken from it fits the schema of the step. *)
Definition content_valid (run : WorkflowRun) (step : option Step) (res : JobResult) (output : resolvedStepOutput) : Prop :=
  ro_content output <> "" /\ (Z.of_nat (String.length (ro_content output)) <= maxInlineResultBytes)%Z /\
  validateResolvedStepOutput step (ro_value output) = None /\
  exists value mediaType, decodeWorkflowResult (ro_content output) mediaType = Ok value /\
    (TrimSpace (result_data_path step) = "" /\ ro_value output = value \/
     Path.extractDataPath value (result_data_path step) = Some (ro_value output)).

Lemma authority_fields run stepID res req :
  validateOutputRequestAuthority run stepID res req = None ->
  jr_JobId req = res_JobId res /\ jr_TenantId req = run_OrgID run /\ jr_WorkflowId req = run_WorkflowID run /\
  get_str (jr_Labels req) "run_id" = run_ID run /\ get_str (jr_Labels req) "step_id" = stepID.
Proof.
  unfold validateOutputRequestAuthority. destruct (TrimSpace (jr_Topic req) =s? ""); [done|]. unfold authority_mismatch.
  destruct (List.find _ _) as [[[name a] b]|] eqn:E; [done|]. intros _.
  assert (forall name actual trusted, (name, actual, trusted) ∈ [("job", jr_JobId req, res_JobId res); ("tenant", jr_TenantId req, run_OrgID run);
    ("workflow", jr_WorkflowId req, run_WorkflowID run); ("run", get_str (jr_Labels req) "run_id", run_ID run);
    ("step", get_str (jr_Labels req) "step_id", stepID)] -> actual = trusted) as Hall.
  { intros name actual trusted Hin%list_elem_of_In. pose proof (find_none _ _ E _ Hin) as Hf. cbn in Hf.
    apply orb_false_iff in Hf as [_ Hf]. by apply negb_false_iff, String.eqb_eq in Hf. }
  split_and!; [apply (Hall "job")|apply (Hall "tenant")|apply (Hall "workflow")|apply (Hall "run")|apply (Hall "step")]; set_solver.
Qed.

Section Results.
Context (D : gmap string Workflow).
Abbreviation result m Post := (safe D (fun _ => True) m Post).

Lemma any_event : forall e, quiet e -> (fun _ : Event => True) e.
Proof. done. Qed.

Lemma result_fail run stepID sr res err : result (failStepOutput run stepID sr res err) rejected.
Proof. pose proof any_event as Hq. unfold failStepOutput. safe_walk. Qed.

Lemma result_resolve run step res :
  result (resolveAndValidateStepOutput run step res) (fun r => forall output, r = Ok output -> content_valid run step res output).
Proof.
  pose proof any_event as Hq. unfold resolveAndValidateStepOutput.
  eapply safe_bind with (Mid := fun r => forall o, r = Ok o -> ro_content o <> "" /\
    (Z.of_nat (String.length (ro_content o)) <= maxInlineResultBytes)%Z /\ exists mt, decodeWorkflowResult (ro_content o) mt = Ok (ro_value o)).
  - unfold resolveStepOutput. safe_step; [by apply safe_ret|]. safe_step. safe_step; [by apply safe_ret|]. destruct p as [content mt].
    destruct (content =s? "") eqn:Ec; [by apply safe_ret|]. destruct (_ <? _)%Z eqn:El; [by apply safe_ret|].
    destruct (decodeWorkflowResult content mt) as [e|value] eqn:Ed; [by apply safe_ret|]. apply safe_ret. intros o [= <-]. cbn.
    apply String.eqb_neq in Ec. apply Z.ltb_ge in El. eauto.
  - intros [e|o] Ho; [by apply safe_ret|]. destruct (Ho o eq_refl) as (Hne & Hl & mt & Hd). cbv zeta.
    destruct (if TrimSpace (result_data_path step) =s? "" then _ else _) as [value|] eqn:Ev; [|by apply safe_ret].
    destruct (validateResolvedStepOutput step value) eqn:Es; [by apply safe_ret|]. apply safe_ret. intros output [= <-]. unfold content_valid. cbn.
    split_and!; [done|done|done|]. exists (ro_value o), mt. split; [done|].
    destruct (TrimSpace (result_data_path step) =s? "") eqn:Et; [left|by right]. apply String.eqb_eq in Et. by injection Ev as <-.
Qed.

Lemma result_check run stepID sr res output :
  hasJobResultResource res = true ->
  result (checkStepOutputPolicy run stepID sr res output)
    (fun '(sr', blocked) => if blocked then rejected sr' else sr' = sr /\ policy_allowed run stepID res output).
Proof.
  intros Hres. pose proof any_event as Hq. unfold checkStepOutputPolicy. rewrite Hres. cbn [negb].
  assert (forall e, result (sr' <- failStepOutput run stepID sr res e ;; ret (sr', true))
    (fun '(sr', blocked) => if (blocked : bool) then rejected sr' else sr' = sr /\ policy_allowed run stepID res output)) as Hfail.
  { intros e. eapply safe_bind; [apply result_fail|]. intros sr' Hr. by apply safe_ret. }
  destruct e_evaluate_output as [evaluate|] eqn:Ee; [|apply Hfail].
  eapply safe_bind with (Mid := fun r => forall req, r = Ok req -> exists get tr, e_job_request = Some get /\ get tr (res_JobId res) = Ok req /\
    validateOutputRequestAuthority run stepID res req = None).
  { unfold loadOutputSafetyRequest. destruct e_job_request as [get|] eqn:Eg; [|by apply safe_ret]. safe_step. apply safe_ret.
    intros req. destruct (get a (res_JobId res)) as [|req'] eqn:Er; [done|]. destruct (validateOutputRequestAuthority run stepID res req') eqn:Ea; [done|].
    intros [= <-]. eauto. }
  intros [e|req] Hreq; [apply Hfail|]. destruct (Hreq req eq_refl) as (get & tr & Hget & Hgot & Hauth). safe_step.
  destruct (evaluate a req res _ _) as [e|[decision reason]] eqn:Ev; [apply Hfail|]. unfold applyStepOutputDecision.
  destruct decision; [| | |apply Hfail]; safe_walk; try by destruct sr.
  split; [done|]. apply authority_fields in Hauth as (? & ? & ? & ? & ?). exists evaluate, get, tr, a, req, reason. done.
Qed.

(** What a processed output leaves behind. *)
Definition output_outcome (run : WorkflowRun) (stepID : string) (step : option Step) (res : JobResult) (applyOutputPath : bool)
    (s : WorkflowRun * StepRun) : Prop :=
  (fst s = run /\ rejected (snd s)) \/
  (e_evaluate_output = None /\ e_hasMem = false /\ e_legacyCompat = true /\ res_HasRef res = false /\
   e_bound_legacy (res_ResultPtr res) (run_OrgID run) (res_JobId res) = None /\ sr_Output (snd s) = AnyString (res_ResultPtr res)) \/
  (exists output, content_valid run step res output /\ policy_allowed run stepID res output /\
   sr_Output (snd s) = ro_value output /\ fst s = recordResolvedStepOutput run stepID step res output applyOutputPath).

Lemma result_process run stepID step sr res applyOutputPath :
  hasJobResultResource res = true ->
  result (processStepOutput run stepID step sr res applyOutputPath) (output_outcome run stepID step res applyOutputPath).
Proof.
  intros Hres. pose proof any_event as Hq. unfold processStepOutput.
  assert (forall e, result (sr' <- failStepOutput run stepID sr res e ;; ret (run, sr')) (output_outcome run stepID step res applyOutputPath)) as Hfail.
  { intros e. eapply safe_bind; [apply result_fail|]. intros sr' Hr. apply safe_ret. by left. }
  destruct (canRecordBoundLegacyPointer step res) eqn:Ec.
  - destruct (e_bound_legacy _ _ _) eqn:Eb; [apply Hfail|]. apply safe_ret. right. left. revert Ec. unfold canRecordBoundLegacyPointer.
    destruct (res_HasRef res), e_hasMem, e_evaluate_output, e_legacyCompat; done.
  - eapply safe_bind; [apply result_resolve|]. intros [e|output] Ho; [apply Hfail|]. specialize (Ho output eq_refl).
    eapply safe_bind; [by apply result_check|]. intros [sr' []] Hc; apply safe_ret; [by left|]. destruct Hc as [-> Hp]. right. right.
    exists output. split_and!; try done.
Qed.

End Results.


End Output.

Section Instances.
#[local] Existing Instance fwd_runtime.
#[local] Existing Instance demo_printer.
#[local] Existing Instance no_parser.
#[local] Existing Instance demo_expr.
#[local] Existing Instance demo_env.


End Instances.
