(* ===== verification/WorkflowFindings.v ===== *)
(** * Behaviours of the workflow engine that its code and comments do not intend

    Each theorem runs whole operations of the engine in the environment of
    [WorkflowDemo] and shows what the run ends up in. *)
From S2P Require Import Prelude.
From S2P Require Import GoStrings.
From S2P Require Import PolicyTypes.
From S2P Require Import GoValues.
From S2P Require Import WorkflowModels.
From S2P Require Import WorkflowHelpers.
From S2P Require Import WorkflowState.
From S2P Require Import WorkflowEval.
From S2P Require Import WorkflowStore.
From S2P Require Import WorkflowJob.
From S2P Require Import WorkflowSchedule.
From S2P Require Import WorkflowEngine.
From S2P Require Import WorkflowDemo.

Open Scope string_scope.

#[local] Existing Instance fwd_runtime.
#[local] Existing Instance demo_printer.
#[local] Existing Instance no_parser.
#[local] Existing Instance demo_expr.
#[local] Existing Instance demo_env.

(** The jobs submitted so far. *)
Definition submitted (w : World) : list string :=
  omap (fun e => match e with EvSubmitting _ req _ => Some (jr_JobId req) | _ => None end) (w_trace w).

Definition diverged (w : World) : bool :=
  existsb (fun e => match e with EvDiverged _ => true | _ => false end) (w_trace w).

(** A run that has already succeeded is marked failed when something starts it
    again, such as a timer left behind, after its workflow was deleted. *)
Theorem deleted_workflow_fails_finished_run :
  let w := demo_world [] [plain_run "r" "w" RunStatusSucceeded []] in
  stored_run_status (snd (fire_timer 3 "w" "r" w)) "r" = Some RunStatusFailed.
Proof. vm_compute. reflexivity. Qed.

(** A delay step on a branch a switch did not take, already cancelled, is looked
    at again; its condition is false, so it becomes succeeded and the steps that
    depend on it run. *)
Theorem untaken_delay_runs_dependents :
  let d := set_st_Condition "false" (plain_step "d" StepTypeDelay [] "") in
  let wf := plain_workflow "w" 0 [d; plain_step "x" StepTypeWorker ["d"] ""] in
  let sr := set_sr_Error (Some [("reason", AnyString switchBranchNotTakenReason)]) (new_step_run_status "d" StepStatusCancelled) in
  let w := snd (StartRun 3 "w" "r" (demo_world [wf] [plain_run "r" "w" RunStatusRunning [("d", sr)]])) in
  stored_status w "r" "d" = StepStatusSucceeded /\ submitted w = ["r:x@1"].
Proof. vm_compute. auto. Qed.

Definition loop_step (id : string) (deps : list string) : Step :=
  set_st_Input (Some [("condition", AnyString "true"); ("max_iterations", AnyInt 3)]) (plain_step id StepTypeLoop deps "").

(** A denied iteration does not end a loop: the next one is dispatched. *)
Theorem loop_ignores_denied_iteration :
  let w0 := demo_world [plain_workflow "w" 0 [loop_step "l" []]] [plain_run "r" "w" RunStatusPending []] in
  let w1 := snd (StartRun 3 "w" "r" w0) in
  let w2 := snd (HandleJobResult 3 (result_of "r:l[0]@1" JOB_STATUS_DENIED) w1) in
  stored_run_status w2 "r" = Some RunStatusRunning /\ submitted w2 = ["r:l[0]@1"; "r:l[1]@1"].
Proof. vm_compute. auto. Qed.

(** An iteration that failed and is to be retried counts as running, so it is
    never dispatched again, however often the run is resumed. *)
Theorem loop_never_retries :
  let l := set_st_Retry (Some (mkRetryConfig 2 1 1 float_one)) (loop_step "l" []) in
  let w0 := demo_world [plain_workflow "w" 0 [l]] [plain_run "r" "w" RunStatusPending []] in
  let w1 := snd (StartRun 3 "w" "r" w0) in
  let w2 := snd (HandleJobResult 3 (result_of "r:l[0]@1" JOB_STATUS_FAILED) w1) in
  let w3 := snd (StartRun 3 "w" "r" (mkWorld (w_store w2) (w_trace w2 ++ replicate 100 (EvNow 0))%list)) in
  stored_run_status w3 "r" = Some RunStatusRunning /\ stored_status w3 "r" "l[0]" = StepStatusPending /\
  submitted w3 = ["r:l[0]@1"].
Proof. vm_compute. auto. Qed.

(** Two workflows whose ids have separators of call stacks and that call each
    other are not recognised on the stack: they start each other at any depth. *)
Theorem separator_ids_recurse :
  let calls id := set_st_Input (Some [("workflow_id", AnyString id)]) (plain_step "s" StepTypeSubWorkflow [] "") in
  let w := demo_world [plain_workflow "a,b" 0 [calls "c,d"]; plain_workflow "c,d" 0 [calls "a,b"]]
             [plain_run "r" "a,b" RunStatusPending []] in
  diverged (snd (StartRun 8 "a,b" "r" w)) = true /\ size (s_runs (w_store (snd (StartRun 8 "a,b" "r" w)))) = 9%nat.
Proof. vm_compute. auto. Qed.

(** An error handler that depends on the step it handles is activated in spite of
    that, but if it orchestrates children it is not looked at again once it runs:
    a loop gets its first iteration and the run stays running for ever. *)
Theorem orchestrating_handler_stalls :
  let a := plain_step "a" StepTypeWorker [] "h" in
  let w0 := demo_world [plain_workflow "w" 0 [a; loop_step "h" ["a"]]] [plain_run "r" "w" RunStatusPending []] in
  let w1 := snd (StartRun 3 "w" "r" w0) in
  let w2 := snd (HandleJobResult 3 (result_of "r:a@1" JOB_STATUS_FAILED) w1) in
  let w3 := snd (HandleJobResult 3 (result_of "r:h[0]@1" JOB_STATUS_SUCCEEDED) w2) in
  let w4 := snd (StartRun 3 "w" "r" w3) in
  submitted w4 = ["r:a@1"; "r:h[0]@1"] /\ stored_run_status w4 "r" = Some RunStatusRunning.
Proof. vm_compute. auto. Qed.
